(* ===== verification/_CoqProject ===== *)
-Q . S2P
Prelude.v
BlkTypes.v
ListHead.v
ListSplice.v
HList.v
SlobPage.v
SlobHeap.v
SlobInv.v
SlobFree.v
SlobSpec.v
Kmalloc.v
KmemCache.v
Sstf.v
Osurd.v
BlkRequest.v
OsurdReq.v
OsurdDev.v
Elevator.v
ElevatorSched.v
ElevatorInv.v
ElevatorMerge.v
RqHash.v
ElevatorOps.v
ElevatorDrv.v
ElevatorEnd.v
ElevatorRun.v
ElevatorSpec.v
OsurdElv.v
Threads.v
Buffer.v
Philosophers.v
SharedList.v
Barber.v
Resource.v
Bitmap.v
CpuPri.v
Plist.v
RtRq.v
RtInv.v
RtWalk.v
RtFrame.v
RtExample.v
RtBandwidth.v
RtShare.v
RtClass.v
RtPush.v
RtTime.v
RtPick.v
RtOps.v
RtCore.v
RtSafe.v
RtMigrate.v
RtEvents.v
SysvSem.v
SysvSemInv.v
SysvSemOps.v
SysvNs.v
SysvCalls.v
SemLib.v
SetLib.v
Santa.v
SantaInv.v
SantaLive.v
SantaSetup.v
