(* ===== verification/Prelude.v ===== *)
(** * CS444 group 4: operating-systems projects, verified

    The repository holds Linux 3.0.4 (src/linux_source), the four kernel projects
    of the group, each a change to that kernel, and five sets of user-space
    programs that share data between threads.  This library models the code the
    group wrote, and the code of the kernel it calls as far as its behaviour
    depends on it, and proves it correct; where the code does not do what it
    means to, a theorem shows what it does.

    ** The programs, and the files that model them

    - Project 4, the memory allocator (project4/slob.c).  [SlobPage] has a page:
      the encoding of free blocks in 16-bit cells, and the best-fit search and
      carving of [slob_page_alloc].  [SlobHeap] has [slob_alloc] and [slob_free]
      on top of the page lists, [SlobInv] and [SlobFree] the invariant of the
      heap and that both keep it, [SlobSpec] the abstract heap they implement.
      [Kmalloc] has [__kmalloc_node], [kfree] and [ksize], [KmemCache] the slab
      caches with the release delayed by RCU.  The buddy allocator below is the
      class [PageAllocator] with its laws in [PageAllocatorOk].
    - Project 2, the I/O scheduler (project2/sstf-iosched.c).  [ListHead] has the
      linked lists of include/linux/list.h pointer by pointer, [ListSplice] their
      cutting, splicing, replacing and rotation, [HList] the hash lists of the
      same file; [Sstf] has the
      scheduler, which follows raw list pointers, with the functions of
      block/elevator.c it calls.
    - The request queue around it (block/elevator.c, blk-merge.c, blk-core.c and
      noop-iosched.c).  [Elevator] has the queue: submission, merging, requests
      and their number, plugs, the elevator with its hash, fetching, completion
      and requeueing.  [ElevatorSched] has the noop scheduler and the class
      [SchedOk] of what the elevator relies on in a scheduler, with noop and SSTF
      as instances (SSTF under [SstfPlace]: what it takes for a request at the
      list head seems farther away than any request).  [ElevatorInv] has the
      invariant of the queue, [ElevatorMerge], [ElevatorOps], [ElevatorDrv] and
      [ElevatorEnd] show that the operations keep it, [ElevatorRun] has tasks and
      driver that share the queue, [ElevatorSpec] the theorems.  [RqHash] has the
      elevator's hash on the memory of [HList].
    - Project 3, the encrypted RAM disk (project3/osurd.c).  [Osurd] has the data
      path through the cipher, with the key setup of crypto/cipher.c; the cipher
      itself is the class [Cipher] with its law in [CipherOk].  [BlkTypes] has
      the requests and bios of the block layer, [BlkRequest] their completion, [OsurdReq]
      the three request functions of the driver, [OsurdDev] opening, closing and
      the simulated media change, and loading and unloading the module, with
      the table of major numbers of block/genhd.c.  The request functions are
      written over the class [DriverQueue] of what a driver uses of a queue;
      [BlkRequest] has the queue as a list of requests, and [OsurdElv] runs the
      driver on the queue of [Elevator].
    - Project 1, the round-robin and real-time scheduler (project1/sched_rt.c,
      the real-time class of the kernel).  [Bitmap], [CpuPri] and [Plist] are
      the data structures it uses.  [RtRq] has the state (run queues, entities,
      tasks, groups, the root domain) and queueing, [RtBandwidth] the bandwidth
      of groups, [RtClass] the operations on one CPU, [RtPush] the balancing
      between CPUs, [RtCore] the parts of kernel/sched.c that drive the class.
      The invariant is in [RtInv], [RtWalk] shows that walks over an entity and
      its groups keep it, [RtFrame] what they leave alone; [RtShare], [RtTime],
      [RtPick], [RtOps], [RtSafe], [RtMigrate] and [RtEvents] have the theorems,
      [RtExample] the system the examples start from.
    - The concurrency programs.  [Threads] has semaphores, mutexes and pools of
      threads; [Buffer] (concurrency1), [Philosophers] (concurrency2),
      [SharedList] (concurrency3), [Barber] (concurrency4) and [Resource]
      (concurrency5/prob1) have the libraries and programs.
    - Santa Claus (concurrency5/prob2), from the kernel up.  [SysvSem] has the
      System V semaphores of ipc/sem.c with the identifiers of ipc/util.c: arrays
      of semaphores, queues of sleepers, undo lists, [semtimedop], [semctl],
      [semget], [copy_semundo] and [exit_sem].  [SysvSemInv] has the invariant
      of one array, [SysvSemOps] the operations on it, [SysvNs] the invariant of
      the namespace, and [SysvCalls] sequences of system calls and the claims.
      [SemLib] has the group's lib_sem.c on top of them, [SetLib] its lib_set.c.
      [Santa] has the threads of santa.c, [SantaInv] their invariant, [SantaLive]
      progress and the claims, [SantaSetup] what main sets up and frees.

    ** How code becomes definitions

    Code that can fault or loop is in the state monad [cmd] of this file: a
    result is [Ok], [Fault] (a null or wild pointer, a failed [BUG_ON]) or [Spin]
    (out of fuel).  Integers are in Z, with [u16], [s16], [u32], [s32], [u64] and
    [s64] where the code truncates.  The kernel is the 32-bit x86 one of the
    group's configuration, with SMP and real-time group scheduling.  The
    scheduler's state is a record of functions from numbers, which stand for
    addresses, and its operations are total functions on it; a [WARN_ON] or
    [BUG_ON] whose condition holds sets the field [bugs].  Threads are program
    points, a step of a program is an atomic action of one of them, and a claim
    about a program is one about all states its steps reach.

    ** What is shown

    - The allocator implements an abstract heap of live blocks, from the empty
      heap on: no request faults or loops, blocks are disjoint and aligned, and
      the contents of live blocks are left alone.  The search gives the best
      fit, succeeds exactly when the first fit of the original kernel does, and
      [slob_free] restores the page it took the block from.  [kfree] gives back
      every byte of the object.  [kmalloc], [kfree], [ksize] and the caches keep this
      for objects.  The accounting of free memory drifts.
    - Dispatching and adding keep the queue of the I/O scheduler a list, serve
      the nearer neighbour and lose nothing exactly as long as the position does
      not move onto the list head; draining ends.  Where it does move there, the
      next dispatch takes the head for a request and loses the others.  The entry
      behind which [sstf_add_request] inserts is an identifier the file does not
      declare, [position]; it is a parameter.
    - Whatever tasks and driver do with the request queue, and in whatever order,
      under noop or SSTF: nothing faults, every bio submitted is refused, waits,
      is in one request or has ended, once, requests hold contiguous bios of one
      kind on the device, and are counted and limited.  A driver that works
      empties the queue; the RAM disk then has done the copies of all requests.
      The hash finds exactly what can be merged with, and the association list that
      stands for it is implemented by hash lists; bios stay on the device they
      are for.  SSTF refuses to merge bios, but not requests.
    - A request of the RAM disk is carried out as copies between the device, seen
      through the cipher, and memory; what is written is read back; a request
      ends once; a transfer past the end changes nothing, as long as its end is
      below 4 GiB, where the check wraps.  The clustering request
      function does not end, and the key is refused by ciphers that want another
      length.  The data is safe while the device is open; unloading gives back
      what loading took, unless loading was incomplete.
    - The real-time class keeps its run queues in order through any sequence of
      events on any number of CPUs and trips none of its assertions; it picks a
      task of the highest priority that may run; round-robin tasks take turns;
      pushing ends; the bandwidth of a group is conserved as long as no CPU is
      enabled that is enabled already and has not its share, and it is shown what
      is lost otherwise (the kernel enables a CPU that comes online twice).
    - In every interleaving the concurrent programs keep what they promise
      (mutual exclusion, bounds, no use of freed memory), do not deadlock, and
      end where they mean to.  Exceptions are part of the theorems: an inserter of
      the shared list stores through NULL when [malloc] fails; the resource shared
      by three threads is safe and its program ends, with spurious wake-ups and
      failing [pthread_create], but six threads can deadlock.

    - An operation on System V semaphores is done as a whole or not at all; after
      any sequence of calls no task sleeps that could go on (no wakeup is lost),
      and what a call and the sleepers it wakes do is what these operations do
      one after the other.  The semaphore library keeps the kernel well-formed
      whatever its arguments, and implements counting semaphores
      as long as values stay within the range of the kernel's type, the set
      library a set.  In every interleaving Santa lets elves in three at a time and
      prepares the sleigh when all reindeer are back; the program gets to its end
      unless elves go on asking for help forever.

    ** Fuel

    Loops that are not structural take fuel.  In SLOB it is [page_fuel], 2048
    rounds: a page has 2048 units, and the theorems show that it is not used up.
    [crypt_fuel], [update_fuel] and [get_order]'s fuel are computed from their
    arguments and shown to be enough.  The loops of the request functions and of
    [push_rt_tasks] take fuel as an argument: the theorems give an amount such
    that the result is the same for all greater ones, or show that no amount is
    enough.  The walk of [update_queue] takes [walk_fuel], computed from the
    queue, and the loop of [exit_sem] one round for each undo structure; both
    are shown to be enough.  [__elv_next_request] has two rounds, one to dispatch
    and one to find the request; draining one more than there are list nodes;
    the walk of a hash bucket one more than there are hashed requests.
    A walk over the groups of an entity is bounded by [levels], the
    depth of the groups, which the invariant says is enough.

    ** Not modelled

    - What the kernel leaves to hardware or to the build: locks (operations run
      with theirs held; where a lock is released in the middle, as in
      [double_lock_balance], what others do then is an argument, a finite list of
      releases), interrupts,
      barriers, RCU except for the callbacks of the caches, tracing, statistics,
      debugging checks (the checks of CONFIG_DEBUG_LIST among them) and printing.
    - In the scheduler, the classes below the real-time class (they are the
      argument [lower] of [schedule]) and the load balancer.  Changes of affinity
      ([set_cpus_allowed_rt]) and CPUs coming and going ([rq_online_rt],
      [rq_offline_rt]) are defined but are not among the events of [RtEvents]:
      [__enable_runtime] clears [rt_throttled] without queueing the group again,
      so the invariant does not hold until the period timer fires.
    - Of list.h, the tests [list_is_last] and [list_empty_careful], the hash list
      operations the elevator does not use, and the iteration macros as such (the
      loops that use them are modelled where they are).
    - The rest of Linux (drivers, file systems, networking, architectures), which
      none of this code calls, the module-loading and timer machinery beyond what
      is named above, and project4/test.c, which prints two counters.
    - In the block layer, flush requests and the machinery for them (the queues
      here have no [flush_flags], so flushes end at submission), discard bios
      (which have no data), integrity data, tags, timeouts, throttling, bounce
      pages, preparation by the driver, statistics, the recount of a request's
      physical segments after a partial completion, plugs with requests of several
      queues, setting up and switching elevators, and the schedulers other than
      noop and SSTF.  A task that finds no request stays where it is and tries
      again, instead of sleeping.
    - In the semaphores, what happens while [find_alloc_undo] and SETALL have
      released the lock, the permission checks (their answer is an argument),
      the copying from and to user space, and /proc; lib/idr.c is an argument
      with the law that it gives a free index.
    - The printing of the concurrency programs, the signal handler of santa.c,
      their random numbers (they are arguments or choices of a step), failures of
      [pthread_create] other than in concurrency5/prob1, a failing [malloc] of
      concurrency1's buffer at the start, and concurrency1/rdrandtest.c.  The
      reports under writeups and the build files have no behaviour. *)

From Stdlib Require Export ZArith Lia.
From stdpp Require Export prelude gmap list fin_maps.

#[export] Set Default Goal Selector "!".

Open Scope Z_scope.

(** ** Machine integers

    A [w]-bit C integer is a [Z] kept in range by one of the two wrap-around
    functions below; every place where the code converts or overflows calls
    one of them. *)

Definition wrap_u (w x : Z) : Z := x mod 2 ^ w.
Definition wrap_s (w x : Z) : Z := (x + 2 ^ (w - 1)) mod 2 ^ w - 2 ^ (w - 1).

Definition u8 : Z → Z := wrap_u 8.
Definition u16 : Z → Z := wrap_u 16.
Definition u32 : Z → Z := wrap_u 32.
Definition u64 : Z → Z := wrap_u 64.
Definition s16 : Z → Z := wrap_s 16.
Definition s32 : Z → Z := wrap_s 32.
Definition s64 : Z → Z := wrap_s 64.

Lemma wrap_u_id w x : 0 ≤ x < 2 ^ w → wrap_u w x = x.
Proof. apply Z.mod_small. Qed.

Lemma wrap_u_range w x : 0 ≤ w → 0 ≤ wrap_u w x < 2 ^ w.
Proof. intros. apply Z.mod_pos_bound. lia. Qed.

Lemma wrap_s_id w x : - 2 ^ (w - 1) ≤ x < 2 ^ (w - 1) → 0 < w → wrap_s w x = x.
Proof.
  intros Hx Hw. unfold wrap_s.
  assert (2 ^ w = 2 * 2 ^ (w - 1)) as Hp.
  { rewrite <- Z.pow_succ_r by lia. f_equal. lia. }
  rewrite Z.mod_small by lia. lia.
Qed.

Lemma wrap_s_range w x : 0 < w → - 2 ^ (w - 1) ≤ wrap_s w x < 2 ^ (w - 1).
Proof.
  intros Hw. unfold wrap_s.
  assert (2 ^ w = 2 * 2 ^ (w - 1)) as Hp.
  { rewrite <- Z.pow_succ_r by lia. f_equal. lia. }
  pose proof (Z.mod_pos_bound (x + 2 ^ (w - 1)) (2 ^ w)). lia.
Qed.

Lemma s16_id x : -32768 ≤ x < 32768 → s16 x = x.
Proof. intros. apply wrap_s_id; simpl; lia. Qed.
Lemma s32_id x : -2147483648 ≤ x < 2147483648 → s32 x = x.
Proof. intros. apply wrap_s_id; simpl; lia. Qed.
Lemma u16_id x : 0 ≤ x < 65536 → u16 x = x.
Proof. intros. apply wrap_u_id; simpl; lia. Qed.
Lemma u32_id x : 0 ≤ x < 4294967296 → u32 x = x.
Proof. intros. apply wrap_u_id; simpl; lia. Qed.
Lemma u64_id x : 0 ≤ x < 18446744073709551616 → u64 x = x.
Proof. intros. apply wrap_u_id; simpl; lia. Qed.

Create Rewrite HintDb cint.
#[export] Hint Rewrite s16_id s32_id u16_id u32_id u64_id using lia : cint.

(** ** Effects

    Code that reads and writes shared state is a [cmd]: it either returns a
    value and the new state, hits a [Fault] (a failed assertion, a [BUG_ON],
    a dereference of memory that is not mapped), or runs out of the fuel that
    bounds a loop ([Spin]). *)

Inductive outcome (A : Type) : Type :=
| Ok (a : A)
| Fault
| Spin.
Arguments Ok {A} a.
Arguments Fault {A}.
Arguments Spin {A}.

Definition cmd (S A : Type) : Type := S → outcome (A * S).

#[export] Instance cmd_ret {S} : MRet (cmd S) := λ A a s, Ok (a, s).
#[export] Instance cmd_bind {S} : MBind (cmd S) := λ A B f m s,
  match m s with
  | Ok (a, s') => f a s'
  | Fault => Fault
  | Spin => Spin
  end.

Definition fault {S A} : cmd S A := λ _, Fault.
Definition spin {S A} : cmd S A := λ _, Spin.
Definition gets {S A} (f : S → A) : cmd S A := λ s, Ok (f s, s).
Definition modify {S} (f : S → S) : cmd S unit := λ s, Ok (tt, f s).
Definition the {S A} (o : option A) : cmd S A :=
  match o with Some a => mret a | None => fault end.
(** [BUG_ON (!b)] and [assert (b)]. *)
Definition check {S} (b : bool) : cmd S unit := if b then mret tt else fault.

(** Run a command of a sub-state inside the whole state. *)
Definition zoom {S T A} (get : S → T) (set : T → S → S) (c : cmd T A) : cmd S A :=
  λ s, match c (get s) with
       | Ok (a, t) => Ok (a, set t s)
       | Fault => Fault
       | Spin => Spin
       end.

Lemma bind_ok {S A B} (m : cmd S A) (f : A → cmd S B) s a s' :
  m s = Ok (a, s') → (m ≫= f) s = f a s'.
Proof. intros H. unfold mbind, cmd_bind. by rewrite H. Qed.

Lemma bind_inv {S A B} (m : cmd S A) (f : A → cmd S B) s r :
  (m ≫= f) s = Ok r → ∃ a s', m s = Ok (a, s') ∧ f a s' = Ok r.
Proof.
  unfold mbind, cmd_bind. destruct (m s) as [[a s']| |] eqn:E; try done. eauto.
Qed.

Lemma bind_assoc_cmd {S A B C} (m : cmd S A) (f : A → cmd S B) (g : B → cmd S C) s :
  ((m ≫= f) ≫= g) s = (m ≫= λ a, f a ≫= g) s.
Proof. unfold mbind, cmd_bind. by destruct (m s) as [[]| |]. Qed.

Lemma mret_ok {S A} (a : A) (s : S) : mret (M := cmd S) a s = Ok (a, s).
Proof. done. Qed.
Lemma gets_ok {S A} (f : S → A) (s : S) : gets f s = Ok (f s, s).
Proof. done. Qed.
Lemma modify_ok {S} (f : S → S) (s : S) : modify f s = Ok (tt, f s).
Proof. done. Qed.
Lemma the_some {S A} (a : A) (s : S) : the (Some a) s = Ok (a, s).
Proof. done. Qed.
Lemma check_true {S} (b : bool) (s : S) : b = true → check b s = Ok (tt, s).
Proof. by intros ->. Qed.
Lemma zoom_ok {S T A} (get : S → T) (set : T → S → S) (c : cmd T A) s a t :
  c (get s) = Ok (a, t) → zoom get set c s = Ok (a, set t s).
Proof. intros H. unfold zoom. by rewrite H. Qed.

(** [run_step] performs the first command of the goal, when a hypothesis or
    one of the basic equations says what it returns. *)
Ltac run_step :=
  first
    [ rewrite (bind_ok _ _ _ _ _ (mret_ok _ _))
    | rewrite (bind_ok _ _ _ _ _ (gets_ok _ _))
    | rewrite (bind_ok _ _ _ _ _ (modify_ok _ _))
    | rewrite (bind_ok _ _ _ _ _ (the_some _ _))
    | erewrite bind_ok by eassumption ].

(** ** Reachability of step relations *)

Section Reach.
Context {S : Type} (init : S → Prop) (step : S → S → Prop).

Inductive reachable : S → Prop :=
| reach_init s : init s → reachable s
| reach_step s s' : reachable s → step s s' → reachable s'.

Lemma reachable_inv (I : S → Prop) :
  (∀ s, init s → I s) →
  (∀ s s', reachable s → I s → step s s' → I s') →
  ∀ s, reachable s → I s.
Proof. intros Hi Hs s H. induction H; eauto. Qed.

Lemma reachable_rtc s s' : reachable s → rtc step s s' → reachable s'.
Proof. intros H Hs. induction Hs; eauto using reachable. Qed.
End Reach.

(** ** Logic *)

Lemma and_regroup (P Q R : Prop) : P ∧ Q → R → P ∧ Q ∧ R.
Proof. tauto. Qed.

(** ** Lists *)

Definition sumZ (l : list Z) : Z := foldr Z.add 0 l.

Lemma sumZ_app l k : sumZ (l ++ k) = sumZ l + sumZ k.
Proof. induction l; simpl; lia. Qed.

Lemma sumZ_nonneg l : Forall (λ x, 0 ≤ x) l → 0 ≤ sumZ l.
Proof. induction 1; simpl; lia. Qed.

Lemma sumZ_length l k : Forall (λ x, k ≤ x) l → k * Z.of_nat (length l) ≤ sumZ l.
Proof. induction 1; simpl; lia. Qed.

Lemma nodup_middle {A} (l1 l2 : list A) x :
  NoDup (l1 ++ x :: l2) ↔ (x ∉ l1 ∧ x ∉ l2) ∧ NoDup (l1 ++ l2).
Proof. rewrite <- Permutation_middle, NoDup_cons. set_solver. Qed.

Lemma last_cases {A} (l : list A) : l = [] ∨ ∃ l' x, l = l' ++ [x].
Proof. destruct l using rev_ind; eauto. Qed.

Lemma app_snoc_cons {A} (l1 l2 : list A) x : l1 ++ x :: l2 = (l1 ++ [x]) ++ l2.
Proof. by rewrite <- app_assoc. Qed.

Lemma filter_id {A} (P : A → Prop) `{∀ x, Decision (P x)} (l : list A) :
  (∀ x, x ∈ l → P x) → filter P l = l.
Proof.
  induction l as [|x l IH]; intros Hl; [done|]. rewrite filter_cons_True by set_solver.
  f_equal. apply IH. set_solver.
Qed.
