(* ===== verification/BlkTypes.v ===== *)
(** * Requests and bios (include/linux/blk_types.h, blkdev.h, bio.h)

    The data of the block layer: a request carries a chain of bios, each a
    vector of memory segments with an index of the first segment still to do,
    and both carry the flags of [enum rq_flag_bits]. *)

From S2P Require Import Prelude.

(** ** Flags *)

Definition REQ_WRITE : Z := 0x1.
Definition REQ_FAILFAST_MASK : Z := 0xe.
Definition REQ_SYNC : Z := 0x10.
Definition REQ_META : Z := 0x20.
Definition REQ_DISCARD : Z := 0x40.
Definition REQ_NOIDLE : Z := 0x80.
Definition REQ_RAHEAD : Z := 0x100.
Definition REQ_SORTED : Z := 0x400.
Definition REQ_SOFTBARRIER : Z := 0x800.
Definition REQ_FUA : Z := 0x1000.
Definition REQ_NOMERGE : Z := 0x2000.
Definition REQ_STARTED : Z := 0x4000.
Definition REQ_ELVPRIV : Z := 0x20000.
Definition REQ_ALLOCED : Z := 0x200000.
Definition REQ_FLUSH : Z := 0x800000.
Definition REQ_FLUSH_SEQ : Z := 0x1000000.
Definition REQ_IO_STAT : Z := 0x2000000.
Definition REQ_MIXED_MERGE : Z := 0x4000000.
Definition REQ_SECURE : Z := 0x8000000.

(** [flags & mask], as a truth value. *)
Definition flagged (flags mask : Z) : bool := negb (Z.land flags mask =? 0).

Lemma flagged_lor a b m : flagged (Z.lor a b) m = flagged a m || flagged b m.
Proof.
  unfold flagged. rewrite <- negb_andb, Z.land_lor_distr_l. f_equal.
  destruct (Z.eqb_spec (Z.lor (Z.land a m) (Z.land b m)) 0) as [[-> ->]%Z.lor_eq_0_iff|Hn]; [done|].
  symmetry. apply andb_false_iff. rewrite !Z.eqb_neq. destruct (decide (Z.land a m = 0)) as [E|]; [right|by left].
  intros E'. by rewrite E, E' in Hn.
Qed.

Lemma flagged_land a k m : flagged (Z.land a k) m = flagged a (Z.land k m).
Proof. unfold flagged. by rewrite Z.land_assoc. Qed.

Lemma land_agree a b k m : Z.land a k = Z.land b k → Z.land k m = m → Z.land a m = Z.land b m.
Proof. intros E <-. by rewrite !Z.land_assoc, E. Qed.

(** Words that agree on [k] have the same flags there. *)
Lemma flagged_agree a b k m : Z.land a k = Z.land b k → Z.land k m = m → flagged a m = flagged b m.
Proof. intros E Hm. unfold flagged. by rewrite (land_agree a b k m E Hm). Qed.

(** ** Bios *)

(** [struct bio_vec]: a page, and the bytes of it the segment covers. *)
Record bio_vec := mk_bvec { bv_page : Z; bv_len : Z; bv_offset : Z }.

(** The counts of physical segments of a [struct bio]: [bi_phys_segments],
    [bi_seg_front_size], [bi_seg_back_size] and the flag [BIO_SEG_VALID]. *)
Record bio_seg := mk_bseg { seg_phys : Z; seg_front_size : Z; seg_back_size : Z; seg_valid : bool }.

(** [struct bio], the fields used: [bi_io_vec] holds the [bi_vcnt] segments;
    [bi_private] identifies the bio to whoever submitted it; [bi_disk] is
    [bi_bdev->bd_disk]. *)
Record bio := mk_bio {
  bi_sector : Z; bi_size : Z; bi_idx : nat; bi_io_vec : list bio_vec;
  bi_rw : Z; bi_uptodate : bool; bi_private : Z; bi_disk : Z; bi_seg : bio_seg
}.

Definition bi_vcnt (b : bio) : nat := length (bi_io_vec b).
Definition bio_sectors (b : bio) : Z := Z.shiftr (bi_size b) 9.

(** [bio_data_dir(bio) == WRITE] *)
Definition bi_write (b : bio) : bool := flagged (bi_rw b) REQ_WRITE.

Definition bio_iovec (b : bio) : option bio_vec := bi_io_vec b !! bi_idx b.

Definition bio_cur_bytes (b : bio) : option Z :=
  if bool_decide (bi_vcnt b = 0%nat) then Some (bi_size b) else bv_len <$> bio_iovec b.

Definition bio_data (b : bio) : option (Z * Z) :=
  if bool_decide (bi_vcnt b = 0%nat) then None else v ← bio_iovec b; Some (bv_page v, bv_offset v).

(** The segments still to do. *)
Definition bio_segs (b : bio) : list bio_vec := drop (bi_idx b) (bi_io_vec b).

(** ** Requests *)

(** [enum rq_cmd_type_bits] *)
Inductive rq_cmd_type :=
  | REQ_TYPE_FS | REQ_TYPE_BLOCK_PC | REQ_TYPE_SENSE | REQ_TYPE_PM_SUSPEND | REQ_TYPE_PM_RESUME
  | REQ_TYPE_PM_SHUTDOWN | REQ_TYPE_SPECIAL | REQ_TYPE_ATA_TASKFILE | REQ_TYPE_ATA_PC.

#[export] Instance rq_cmd_type_eq_dec : EqDecision rq_cmd_type.
Proof. solve_decision. Defined.

(** [struct request], the fields used: [rq_flags] is [cmd_flags], [rq_bio] the
    chain from [bio] to [biotail]; [rq_buffer] is the page and offset of the
    current segment; [rq_special] says whether [special] is set. *)
Record request := mk_request {
  cmd_type : rq_cmd_type; rq_flags : Z;
  data_len : Z; rq_sector : Z; rq_bio : list bio; rq_buffer : option (Z * Z);
  ref_count : Z; rq_disk : Z; rq_special : bool; nr_phys_segments : Z
}.

Definition cmd_fs (r : request) : bool := bool_decide (cmd_type r = REQ_TYPE_FS).
Definition rq_write (r : request) : bool := flagged (rq_flags r) REQ_WRITE.
Definition rq_discard (r : request) : bool := flagged (rq_flags r) REQ_DISCARD.
Definition rq_flush_seq (r : request) : bool := flagged (rq_flags r) REQ_FLUSH_SEQ.

Definition blk_rq_pos (r : request) : Z := rq_sector r.
Definition blk_rq_bytes (r : request) : Z := data_len r.
Definition blk_rq_sectors (r : request) : Z := Z.shiftr (blk_rq_bytes r) 9.
Definition blk_rq_cur_bytes (r : request) : option Z :=
  match rq_bio r with [] => Some 0 | b :: _ => bio_cur_bytes b end.
Definition blk_rq_cur_sectors (r : request) : option Z :=
  (λ n, Z.shiftr n 9) <$> blk_rq_cur_bytes r.
