(* ===== verification/ListHead.v ===== *)
(** * Circular doubly linked lists of the kernel (include/linux/list.h)

    Memory is a finite map from the address of a [struct list_head] to its two
    pointers; the operations are those of list.h, pointer by pointer.  The
    predicate [dll m h l] says that the head at [h] carries exactly the entries
    [l], in order, and the theorems show that the pointer operations implement
    insertion, removal and rotation of that sequence.  The components whose
    lists are only reached through these operations (slob pages, run queues)
    work with the sequence; the I/O scheduler, which follows raw pointers,
    works with the memory itself. *)

From S2P Require Import Prelude.

Record list_head := mk_list_head { lh_next : Z; lh_prev : Z }.

#[export] Instance list_head_eq_dec : EqDecision list_head.
Proof. solve_decision. Defined.

Notation lmem := (gmap Z list_head).

Definition LIST_POISON1 : Z := 0x00100100.
Definition LIST_POISON2 : Z := 0x00200200.

Definition rd_list (p : Z) : cmd lmem list_head := λ m, the (m !! p) m.
Definition get_next (p : Z) : cmd lmem Z := n ← rd_list p; mret (lh_next n).
Definition get_prev (p : Z) : cmd lmem Z := n ← rd_list p; mret (lh_prev n).
Definition set_next (p v : Z) : cmd lmem unit :=
  n ← rd_list p; modify (insert p (mk_list_head v (lh_prev n))).
Definition set_prev (p v : Z) : cmd lmem unit :=
  n ← rd_list p; modify (insert p (mk_list_head (lh_next n) v)).

Definition INIT_LIST_HEAD (list : Z) : cmd lmem unit :=
  set_next list list ;; set_prev list list.

Definition __list_add (new prev next : Z) : cmd lmem unit :=
  set_prev next new ;;
  set_next new next ;;
  set_prev new prev ;;
  set_next prev new.

Definition list_add (new head : Z) : cmd lmem unit :=
  n ← get_next head; __list_add new head n.

Definition list_add_tail (new head : Z) : cmd lmem unit :=
  p ← get_prev head; __list_add new p head.

Definition __list_del (prev next : Z) : cmd lmem unit :=
  set_prev next prev ;; set_next prev next.

Definition __list_del_entry (entry : Z) : cmd lmem unit :=
  p ← get_prev entry; n ← get_next entry; __list_del p n.

Definition list_del (entry : Z) : cmd lmem unit :=
  p ← get_prev entry; n ← get_next entry;
  __list_del p n ;;
  set_next entry LIST_POISON1 ;;
  set_prev entry LIST_POISON2.

Definition list_del_init (entry : Z) : cmd lmem unit :=
  __list_del_entry entry ;; INIT_LIST_HEAD entry.

Definition list_move (list head : Z) : cmd lmem unit :=
  __list_del_entry list ;; list_add list head.

Definition list_move_tail (list head : Z) : cmd lmem unit :=
  __list_del_entry list ;; list_add_tail list head.

Definition list_empty (head : Z) : cmd lmem bool :=
  n ← get_next head; mret (bool_decide (n = head)).

Definition list_is_singular (head : Z) : cmd lmem bool :=
  e ← list_empty head;
  n ← get_next head; p ← get_prev head;
  mret (negb e && bool_decide (n = p)).

(** ** What the pointers say *)

Definition nxt (m : lmem) (p : Z) : option Z := lh_next <$> m !! p.
Definition prv (m : lmem) (p : Z) : option Z := lh_prev <$> m !! p.

(** [seg m p l q]: following the pointers from [p] one meets the entries [l]
    and then [q], and the back pointers agree. *)
Fixpoint seg (m : lmem) (p : Z) (l : list Z) (q : Z) : Prop :=
  match l with
  | [] => nxt m p = Some q ∧ prv m q = Some p
  | x :: l' => nxt m p = Some x ∧ prv m x = Some p ∧ seg m x l' q
  end.

Definition dll (m : lmem) (h : Z) (l : list Z) : Prop :=
  NoDup (h :: l) ∧ seg m h l h.

Lemma nxt_some m p q : nxt m p = Some q → is_Some (m !! p).
Proof. unfold nxt. destruct (m !! p); [eauto | done]. Qed.
Lemma prv_some m p q : prv m p = Some q → is_Some (m !! p).
Proof. unfold prv. destruct (m !! p); [eauto | done]. Qed.

Lemma seg_app m p l1 x l2 q :
  seg m p (l1 ++ x :: l2) q ↔ seg m p l1 x ∧ seg m x l2 q.
Proof. revert p. induction l1 as [|y l1 IH]; intros p; simpl; [tauto|]. rewrite IH. tauto. Qed.

Lemma seg_ext m m' p l q :
  (∀ y, y ∈ p :: l → nxt m' y = nxt m y) →
  (∀ y, y ∈ l ++ [q] → prv m' y = prv m y) →
  seg m p l q → seg m' p l q.
Proof.
  revert p. induction l as [|x l IH]; intros p Hn Hp; simpl.
  - rewrite Hn, Hp by set_solver. done.
  - rewrite (Hn p), (Hp x) by set_solver. intros (? & ? & ?).
    split_and!; [done..|]. apply IH; set_solver.
Qed.

Lemma seg_first m p l q : seg m p l q → nxt m p = Some (default q (head l)).
Proof. destruct l; simpl; tauto. Qed.

Lemma default_last_cons {A} (p x : A) l : default p (last (x :: l)) = default x (last l).
Proof. rewrite last_cons. by destruct (last l). Qed.

Lemma seg_last m p l q : seg m p l q → prv m q = Some (default p (last l)).
Proof.
  revert p. induction l as [|x l IH]; intros p; simpl; [tauto|].
  intros (_ & _ & H%IH). by rewrite H, default_last_cons.
Qed.

(** Replacing the start of a segment. *)
Lemma seg_new_start m m' p p' l q :
  seg m p l q →
  nxt m' p' = Some (default q (head l)) →
  prv m' (default q (head l)) = Some p' →
  (∀ y, y ∈ l → nxt m' y = nxt m y) →
  (∀ y, y ∈ tail (l ++ [q]) → prv m' y = prv m y) →
  seg m' p' l q.
Proof.
  destruct l as [|x l]; simpl; [tauto|].
  intros (Hn & Hp & H) Hn' Hp' Hy Hz. split_and!; [done..|].
  eapply seg_ext; [| |done]; set_solver.
Qed.

Lemma seg_new_end m m' p l q q' :
  seg m p l q →
  (∀ y, y ∈ l → prv m' y = prv m y) →
  (∀ y, y ∈ p :: l → y ≠ default p (last l) → nxt m' y = nxt m y) →
  NoDup (p :: l) →
  nxt m' (default p (last l)) = Some q' →
  prv m' q' = Some (default p (last l)) →
  seg m' p l q'.
Proof.
  revert p. induction l as [|x l IH]; intros p; simpl; [tauto|].
  intros (Hn & Hp & H) Hy Hz Hnd Hn' Hp'.
  change (match l with [] => Some x | _ :: _ => last l end) with (last (x :: l)) in *.
  rewrite default_last_cons in *. apply NoDup_cons in Hnd as [Hx Hnd].
  split_and!.
  - rewrite Hz; [done|set_solver|]. intros ->. apply Hx.
    destruct (last l) as [z|] eqn:El; simpl; [|set_solver].
    apply last_Some_elem_of in El. set_solver.
  - rewrite Hy; [done|set_solver].
  - apply IH; try done; set_solver.
Qed.

(** ** Effect of the pointer writes *)

Lemma nxt_prv_ext m m' y : nxt m' y = nxt m y → prv m' y = prv m y → m' !! y = m !! y.
Proof.
  unfold nxt, prv. destruct (m' !! y) as [[]|], (m !! y) as [[]|]; simpl; congruence.
Qed.

Lemma nxt_is_Some m y : is_Some (nxt m y) ↔ is_Some (m !! y).
Proof. unfold nxt. by rewrite fmap_is_Some. Qed.

Lemma get_next_ok m p v : nxt m p = Some v → get_next p m = Ok (v, m).
Proof.
  unfold nxt, get_next, rd_list, mbind, cmd_bind, the.
  destruct (m !! p); simpl; [|done]. by intros [= <-].
Qed.

Lemma get_prev_ok m p v : prv m p = Some v → get_prev p m = Ok (v, m).
Proof.
  unfold prv, get_prev, rd_list, mbind, cmd_bind, the.
  destruct (m !! p); simpl; [|done]. by intros [= <-].
Qed.

(** The pointers of [m'] are those of [m], with [next] and [prev] overridden. *)
Definition upd (m m' : lmem) (fn fp : Z → option Z) : Prop :=
  (∀ y, nxt m' y = match fn y with Some v => Some v | None => nxt m y end) ∧
  (∀ y, prv m' y = match fp y with Some v => Some v | None => prv m y end).

Lemma upd_frame m m' fn fp y : upd m m' fn fp → fn y = None → fp y = None → m' !! y = m !! y.
Proof. intros [Hn Hp] En Ep. apply nxt_prv_ext; [by rewrite Hn, En | by rewrite Hp, Ep]. Qed.

Lemma set_next_ok m p v : is_Some (m !! p) →
  ∃ m', set_next p v m = Ok (tt, m') ∧
        upd m m' (λ y, if decide (y = p) then Some v else None) (λ _, None).
Proof.
  intros [n Hn]. unfold set_next, rd_list, mbind, cmd_bind, the. rewrite Hn.
  eexists. split; [done|]. unfold upd, nxt, prv.
  split; intros y; destruct (decide (y = p)); subst; by simplify_map_eq.
Qed.

Lemma set_prev_ok m p v : is_Some (m !! p) →
  ∃ m', set_prev p v m = Ok (tt, m') ∧
        upd m m' (λ _, None) (λ y, if decide (y = p) then Some v else None).
Proof.
  intros [n Hn]. unfold set_prev, rd_list, mbind, cmd_bind, the. rewrite Hn.
  eexists. split; [done|]. unfold upd, nxt, prv.
  split; intros y; destruct (decide (y = p)); subst; by simplify_map_eq.
Qed.

Lemma upd_is_Some m m' fn fp y : upd m m' fn fp → is_Some (m !! y) → is_Some (m' !! y).
Proof.
  intros [Hn _]. rewrite <- !nxt_is_Some, Hn. destruct (fn y); eauto.
Qed.

(** Run one pointer write of the goal, keeping track of the pointers. *)
Ltac list_write_with p v m spec :=
  let m' := fresh "m" in let E := fresh "E" in let U := fresh "U" in
  destruct (spec m p v) as (m' & E & U); [eauto 10 using upd_is_Some|];
  first [rewrite (bind_ok _ _ _ _ _ E) | rewrite E].
Ltac list_write :=
  match goal with
  | |- context [(set_next ?p ?v ≫= _) ?m] => list_write_with p v m set_next_ok
  | |- context [(set_prev ?p ?v ≫= _) ?m] => list_write_with p v m set_prev_ok
  | |- context [set_next ?p ?v ?m] => list_write_with p v m set_next_ok
  | |- context [set_prev ?p ?v ?m] => list_write_with p v m set_prev_ok
  end.

Ltac solve_upd :=
  repeat match goal with U : upd _ _ _ _ |- _ => destruct U as [? ?] end;
  split; intros; simpl;
  repeat match goal with H : ∀ _, _ = _ |- _ => rewrite H end;
  repeat case_decide; congruence.

Lemma __list_add_ok m new p n :
  is_Some (m !! new) → is_Some (m !! p) → is_Some (m !! n) → new ≠ p → new ≠ n →
  ∃ m', __list_add new p n m = Ok (tt, m') ∧
    upd m m' (λ y, if decide (y = new) then Some n else if decide (y = p) then Some new else None)
             (λ y, if decide (y = new) then Some p else if decide (y = n) then Some new else None).
Proof.
  intros Hnew Hp Hn Hnp Hnn. unfold __list_add.
  do 4 list_write. eexists. split; [done|].
  solve_upd.
Qed.

Lemma __list_del_ok m p n :
  is_Some (m !! p) → is_Some (m !! n) →
  ∃ m', __list_del p n m = Ok (tt, m') ∧
    upd m m' (λ y, if decide (y = p) then Some n else None)
             (λ y, if decide (y = n) then Some p else None).
Proof.
  intros Hp Hn. unfold __list_del. do 2 list_write. eexists. split; [done|]. solve_upd.
Qed.

Lemma INIT_LIST_HEAD_ok m h :
  is_Some (m !! h) →
  ∃ m', INIT_LIST_HEAD h m = Ok (tt, m') ∧
    upd m m' (λ y, if decide (y = h) then Some h else None)
             (λ y, if decide (y = h) then Some h else None).
Proof.
  intros Hp. unfold INIT_LIST_HEAD. do 2 list_write. eexists. split; [done|]. solve_upd.
Qed.

(** ** The operations on a well-formed list *)

Lemma seg_split m a l1 l2 b :
  seg m a (l1 ++ l2) b ↔
  seg m a l1 (default b (head l2)) ∧ seg m (default a (last l1)) l2 b.
Proof.
  destruct (last_cases l1) as [-> | (l1' & p & ->)].
  - simpl. destruct l2; simpl; tauto.
  - rewrite last_snoc, <- app_assoc. simpl. rewrite !seg_app. simpl.
    destruct l2; simpl; tauto.
Qed.

Lemma last_elem_or {A} (l : list A) (d : A) : default d (last l) = d ∨ default d (last l) ∈ l.
Proof. destruct (last l) eqn:E; simpl; eauto using last_Some_elem_of. Qed.
Lemma head_elem_or {A} (l : list A) (d : A) : default d (head l) = d ∨ default d (head l) ∈ l.
Proof. destruct l; simpl; set_solver. Qed.

Lemma dll_mapped m h l y : dll m h l → y ∈ h :: l → is_Some (m !! y).
Proof.
  intros [_ H]. revert H. generalize h at 2 as q. revert h.
  induction l as [|x l IH]; intros h q; simpl.
  - intros [Hn _] Hy. apply list_elem_of_singleton in Hy as ->. by eapply nxt_some.
  - intros (Hn & _ & H) [->|Hy]%elem_of_cons; [by eapply nxt_some | by eapply IH].
Qed.

Lemma dll_ext m m' h l : dll m h l → (∀ y, y ∈ h :: l → m' !! y = m !! y) → dll m' h l.
Proof.
  intros [Hnd H] E. split; [done|]. eapply seg_ext; [..|done];
    intros y Hy; unfold nxt, prv; rewrite E; set_solver.
Qed.

Ltac ptr_cases :=
  repeat case_decide; try done; exfalso;
  repeat match goal with x := _ |- _ => clearbody x end; set_solver.

Lemma seg_last_next m p l q : seg m p l q → nxt m (default p (last l)) = Some q.
Proof.
  revert p. induction l as [|x l IH]; intros p; [simpl; tauto|].
  intros (_ & _ & H%IH). by rewrite default_last_cons.
Qed.

(** Linking a segment [x :: k] between the two parts [l1] and [l2] of a
    circular list: it is enough that [m'] links the three ends. *)
Lemma seg_insert m m' h l1 l2 x k q1 p2 :
  seg m h l1 q1 → seg m p2 l2 h → seg m' x k (default h (head l2)) →
  NoDup (h :: l1 ++ l2) →
  nxt m' (default h (last l1)) = Some x → prv m' x = Some (default h (last l1)) →
  (∀ y, y ∈ h :: l1 ++ l2 → y ≠ default h (last l1) → nxt m' y = nxt m y) →
  (∀ y, y ∈ h :: l1 ++ l2 → y ≠ default h (head l2) → prv m' y = prv m y) →
  seg m' h (l1 ++ x :: k ++ l2) h.
Proof.
  intros H1 H2 Hk Hnd Hn Hp Fn Fp.
  pose proof (last_elem_or l1 h) as Hlast. pose proof (head_elem_or l2 h) as Hhead.
  rewrite app_comm_cons in Hnd. apply NoDup_app in Hnd as (Hnd1 & Hdis & Hnd2).
  pose proof Hnd1 as [Hh _]%NoDup_cons. apply seg_app. split.
  - eapply seg_new_end; [exact H1|..]; try done; clear H1 H2 Hk.
    + intros y Hy. apply Fp; [set_solver|]. clear -Hy Hhead Hdis Hh.
      intros ->. destruct Hhead as [E|?]; [rewrite E in Hy|]; set_solver.
    + intros y Hy. apply Fn. set_solver.
  - apply seg_split. split; [done|].
    pose proof (seg_last_next _ _ _ _ Hk). apply seg_last in Hk.
    eapply seg_new_start; [exact H2|done..| |]; clear H1 H2 Hk.
    + intros y Hy. apply Fn; [set_solver|]. clear -Hy Hlast Hdis.
      intros ->. destruct Hlast as [E|?]; [rewrite E in Hy|]; set_solver.
    + intros y Hy. apply Fp; clear Fn Fp Hn Hp; destruct l2 as [|z l2]; simpl in *; [set_solver..|].
      apply NoDup_cons in Hnd2 as [? ?]. set_solver.
Qed.

Lemma dll_insert m h l1 l2 new :
  dll m h (l1 ++ l2) → new ∉ h :: l1 ++ l2 → is_Some (m !! new) →
  ∃ m', __list_add new (default h (last l1)) (default h (head l2)) m = Ok (tt, m') ∧
        dll m' h (l1 ++ new :: l2) ∧
        (∀ y, y ∉ new :: h :: l1 ++ l2 → m' !! y = m !! y).
Proof.
  intros Hd Hnew Hs. pose proof Hd as [Hnd H].
  pose proof (last_elem_or l1 h) as Hp. pose proof (head_elem_or l2 h) as Hn.
  destruct (__list_add_ok m new (default h (last l1)) (default h (head l2))) as (m' & E & U);
    [done | eapply dll_mapped; [done|]; set_solver | eapply dll_mapped; [done|]; set_solver
    | set_solver | set_solver |].
  exists m'. split; [done|]. pose proof U as [Un Up]. split.
  - split.
    { rewrite app_comm_cons, <- Permutation_middle.
      apply NoDup_cons. split; [set_solver|done]. }
    apply seg_split in H as [H1 H2].
    eapply (seg_insert m m' h l1 l2 new []); [done..| |done| | | |]; clear H1 H2 Hd U E.
    + simpl. rewrite Un, Up. clear Un Up. split; ptr_cases.
    + rewrite Un. clear Un Up. ptr_cases.
    + rewrite Up. clear Un Up. ptr_cases.
    + intros y Hy Hyp. rewrite Un. clear Un Up. ptr_cases.
    + intros y Hy Hyp. rewrite Up. clear Un Up. ptr_cases.
  - intros y Hy. eapply upd_frame; [done|..]; simpl; clear Un Up U H Hd E; ptr_cases.
Qed.

Lemma dll_prev m h l1 x l2 : dll m h (l1 ++ x :: l2) → prv m x = Some (default h (last l1)).
Proof. intros [_ [H _]%seg_app]. by apply seg_last in H. Qed.
Lemma dll_next m h l1 x l2 : dll m h (l1 ++ x :: l2) → nxt m x = Some (default h (head l2)).
Proof. intros [_ [_ H]%seg_app]. by apply seg_first in H. Qed.

Lemma dll_remove m h l1 x l2 :
  dll m h (l1 ++ x :: l2) →
  ∃ m', __list_del_entry x m = Ok (tt, m') ∧
        dll m' h (l1 ++ l2) ∧
        (∀ y, y ∉ h :: l1 ++ l2 → m' !! y = m !! y).
Proof.
  intros Hd. unfold __list_del_entry.
  rewrite (bind_ok _ _ _ _ _ (get_prev_ok _ _ _ (dll_prev _ _ _ _ _ Hd))).
  rewrite (bind_ok _ _ _ _ _ (get_next_ok _ _ _ (dll_next _ _ _ _ _ Hd))).
  pose proof (last_elem_or l1 h) as Hp. pose proof (head_elem_or l2 h) as Hn.
  set (p := default h (last l1)) in *. set (n := default h (head l2)) in *.
  pose proof Hd as [Hnd H].
  destruct (__list_del_ok m p n) as (m' & E & U);
    [eapply dll_mapped; [done|]; set_solver | eapply dll_mapped; [done|]; set_solver |].
  exists m'. split; [done|]. pose proof U as [Un Up].
  rewrite app_comm_cons in Hnd. apply nodup_middle in Hnd as [[Hx1 Hx2] Hnd].
  split.
  - split; [done|]. apply seg_app in H as [H1 H2]. apply seg_split. fold p n.
    apply NoDup_app in Hnd as (Hnd1 & Hdis & Hnd2). pose proof Hnd1 as [Hh _]%NoDup_cons.
    split.
    + eapply seg_new_end; [exact H1|..]; fold p; try done; clear H1 H2 Hd U E.
      * intros y Hy. rewrite Up. clear Un Up. ptr_cases.
      * intros y Hy Hyp. rewrite Un. clear Un Up. ptr_cases.
      * rewrite Un. clear Un Up. ptr_cases.
      * rewrite Up. by repeat case_decide.
    + eapply seg_new_start; [exact H2|..]; fold n; clear H1 H2 Hd U E.
      * rewrite Un. by repeat case_decide.
      * rewrite Up. clear Un Up. ptr_cases.
      * intros y Hy. rewrite Un. clear Un Up. ptr_cases.
      * intros y Hy. rewrite Up. clear Un Up. repeat case_decide; try done.
        exfalso. destruct l2 as [|z l2]; simpl in *; [set_solver|].
        apply NoDup_cons in Hnd2 as [? ?]. subst n. set_solver.
  - intros y Hy. eapply upd_frame; [done|..]; simpl; clear Un Up U H Hd E; ptr_cases.
Qed.

Lemma dll_singleton m h : nxt m h = Some h → prv m h = Some h → dll m h [].
Proof. intros. split; [apply NoDup_singleton | done]. Qed.

(** [list_add new pos], where [pos] is the head or an entry, inserts [new]
    right after [pos] and touches no other list. *)
Lemma list_add_dll m h l1 l2 pos new :
  dll m h (l1 ++ l2) → pos = default h (last l1) →
  new ∉ h :: l1 ++ l2 → is_Some (m !! new) →
  ∃ m', list_add new pos m = Ok (tt, m') ∧ dll m' h (l1 ++ new :: l2) ∧
        (∀ y, y ∉ new :: h :: l1 ++ l2 → m' !! y = m !! y).
Proof.
  intros Hd -> Hnew Hs. unfold list_add.
  assert (nxt m (default h (last l1)) = Some (default h (head l2))) as Hn.
  { destruct Hd as [_ [_ H]%seg_split]. by apply seg_first in H. }
  rewrite (bind_ok _ _ _ _ _ (get_next_ok _ _ _ Hn)). by apply dll_insert.
Qed.

(** [list_add_tail new pos], where [pos] is the head or an entry, inserts
    [new] right before [pos]. *)
Lemma list_add_tail_dll m h l1 l2 pos new :
  dll m h (l1 ++ l2) → pos = default h (head l2) →
  new ∉ h :: l1 ++ l2 → is_Some (m !! new) →
  ∃ m', list_add_tail new pos m = Ok (tt, m') ∧ dll m' h (l1 ++ new :: l2) ∧
        (∀ y, y ∉ new :: h :: l1 ++ l2 → m' !! y = m !! y).
Proof.
  intros Hd -> Hnew Hs. unfold list_add_tail.
  assert (prv m (default h (head l2)) = Some (default h (last l1))) as Hn.
  { destruct Hd as [_ [H _]%seg_split]. by apply seg_last in H. }
  rewrite (bind_ok _ _ _ _ _ (get_prev_ok _ _ _ Hn)). by apply dll_insert.
Qed.

Lemma list_del_init_dll m h l1 x l2 :
  dll m h (l1 ++ x :: l2) →
  ∃ m', list_del_init x m = Ok (tt, m') ∧ dll m' h (l1 ++ l2) ∧ dll m' x [] ∧
        (∀ y, y ∉ x :: h :: l1 ++ l2 → m' !! y = m !! y).
Proof.
  intros Hd. pose proof Hd as [Hnd _].
  rewrite app_comm_cons in Hnd. apply nodup_middle in Hnd as [[Hx1 Hx2] Hnd].
  destruct (dll_remove _ _ _ _ _ Hd) as (m1 & E1 & Hd1 & F1).
  destruct (INIT_LIST_HEAD_ok m1 x) as (m2 & E2 & U2).
  { rewrite F1 by set_solver. eapply dll_mapped; [done|]. set_solver. }
  exists m2. unfold list_del_init. rewrite (bind_ok _ _ _ _ _ E1). split_and!; [done|..].
  - eapply dll_ext; [done|]. intros y Hy. eapply upd_frame; [done|..]; simpl; ptr_cases.
  - destruct U2 as [Un Up]. apply dll_singleton; [rewrite Un | rewrite Up]; by case_decide.
  - intros y Hy. rewrite <- F1 by set_solver.
    eapply upd_frame; [done|..]; simpl; ptr_cases.
Qed.

(** [list_empty] tells whether the sequence is empty. *)
Lemma list_empty_dll m h l : dll m h l → list_empty h m = Ok (bool_decide (l = []), m).
Proof.
  intros Hd. pose proof Hd as [Hnd H%seg_first].
  unfold list_empty. rewrite (bind_ok _ _ _ _ _ (get_next_ok _ _ _ H)).
  unfold mret, cmd_ret. do 2 f_equal. apply bool_decide_ext.
  destruct l as [|x l]; simpl; [done|]. apply NoDup_cons in Hnd as [? _].
  split; [|done]. intros ->. set_solver.
Qed.

(** Moving the head itself before an entry, as the slob allocator does,
    rotates the sequence so that it starts at that entry. *)
Lemma list_move_tail_rotates m h l1 x l2 :
  dll m h (l1 ++ x :: l2) → l1 ≠ [] →
  ∃ m', list_move_tail h x m = Ok (tt, m') ∧ dll m' h (x :: l2 ++ l1).
Proof.
  intros [Hnd H] Hl1. destruct l1 as [|a l1]; [done|]. clear Hl1.
  (* seen from its first entry, the list is that entry followed by the rest and the head *)
  assert (dll m a ((l1 ++ x :: l2) ++ h :: [])) as Hd.
  { split.
    - assert (a :: (l1 ++ x :: l2) ++ [h] ≡ₚ h :: (a :: l1) ++ x :: l2) as -> by solve_Permutation.
      done.
    - simpl in H. destruct H as (Hn & Hp & H). apply seg_app. simpl. done. }
  destruct (dll_remove _ _ _ _ _ Hd) as (m1 & E1 & Hd1 & F1).
  unfold list_move_tail. rewrite (bind_ok _ _ _ _ _ E1).
  rewrite app_nil_r in Hd1, F1.
  assert (h ∉ a :: l1 ++ x :: l2) as Hh by (apply NoDup_cons in Hnd as [? _]; set_solver).
  destruct (list_add_tail_dll m1 a l1 (x :: l2) x h) as (m2 & E2 & [Hnd2 Hd2] & _); [done..| |].
  { rewrite F1 by set_solver. eapply dll_mapped; [done|]. set_solver. }
  exists m2. split; [done|]. split.
  - assert (h :: x :: l2 ++ a :: l1 ≡ₚ a :: l1 ++ h :: x :: l2) as -> by solve_Permutation.
    done.
  - (* read the same cycle starting from the head *)
    apply seg_app in Hd2 as [H1 H2]. simpl in H2. destruct H2 as (Hn & Hp & H2).
    simpl. split_and!; [done..|]. by apply seg_app.
Qed.

(** On a well-formed list, [list_add_tail] before any position inserts the
    new entry there, [list_del_init] of that entry restores the old sequence
    and leaves the entry an empty list of its own, and memory outside the list
    is untouched. *)
Theorem list_add_tail_del_init m h l1 l2 pos new :
  dll m h (l1 ++ l2) → pos = default h (head l2) → new ∉ h :: l1 ++ l2 → is_Some (m !! new) →
  ∃ m1 m2, list_add_tail new pos m = Ok (tt, m1) ∧ dll m1 h (l1 ++ new :: l2) ∧
           list_del_init new m1 = Ok (tt, m2) ∧ dll m2 h (l1 ++ l2) ∧ dll m2 new [] ∧
           (∀ y, y ∉ new :: h :: l1 ++ l2 → m2 !! y = m !! y).
Proof.
  intros Hd Hp Hn Hs. destruct (list_add_tail_dll m h l1 l2 pos new) as (m1 & E1 & Hd1 & F1); [done..|].
  destruct (list_del_init_dll m1 h l1 new l2 Hd1) as (m2 & E2 & Hd2 & He & F2).
  exists m1, m2. split_and!; try done. intros y Hy. by rewrite F2, F1.
Qed.

(** The list [100; 200] at head 10, and a detached entry 300. *)
Definition sample_list : lmem :=
  {[ 10 := mk_list_head 100 200; 100 := mk_list_head 200 10; 200 := mk_list_head 10 100;
     300 := mk_list_head 300 300 ]}.

Lemma sample_list_dll : dll sample_list 10 [100; 200].
Proof. split; [|done]. by apply (bool_decide_unpack (NoDup _)). Qed.

Lemma list_add_tail_del_init_witness :
  ∃ m1 m2, list_add_tail 300 200 sample_list = Ok (tt, m1) ∧ dll m1 10 [100; 300; 200] ∧
           list_del_init 300 m1 = Ok (tt, m2) ∧ dll m2 10 [100; 200].
Proof.
  destruct (list_add_tail_del_init sample_list 10 [100] [200] 200 300 sample_list_dll eq_refl)
    as (m1 & m2 & E1 & D1 & E2 & D2 & _); [by apply (bool_decide_unpack (_ ∉ _))|by eexists|].
  exists m1, m2. split_and!; assumption.
Defined.
