(* ===== verification/ListSplice.v ===== *)
(** * Joining, cutting and replacing lists (the rest of include/linux/list.h)

    The operations of list.h on whole lists: the replacement of an entry or of
    a head, rotation, cutting a list in two, and splicing one list into
    another, pointer by pointer on the memory of ListHead.v.  The lemmas say
    what each does to the sequences that the heads carry; the theorem at the
    end composes a cut with a splice. *)

From S2P Require Import Prelude ListHead.

Definition list_replace (old new : Z) : cmd lmem unit :=
  n ← get_next old; set_next new n ;;
  n' ← get_next new; set_prev n' new ;;
  p ← get_prev old; set_prev new p ;;
  p' ← get_prev new; set_next p' new.

Definition list_replace_init (old new : Z) : cmd lmem unit :=
  list_replace old new ;; INIT_LIST_HEAD old.

Definition list_rotate_left (head : Z) : cmd lmem unit :=
  e ← list_empty head;
  if negb e
  then first ← get_next head; list_move_tail first head
  else mret tt.

Definition __list_cut_position (list head entry : Z) : cmd lmem unit :=
  new_first ← get_next entry;
  n ← get_next head; set_next list n ;;
  n' ← get_next list; set_prev n' list ;;
  set_prev list entry ;;
  set_next entry list ;;
  set_next head new_first ;;
  set_prev new_first head.

Definition list_cut_position (list head entry : Z) : cmd lmem unit :=
  e ← list_empty head;
  if (e : bool) then mret tt else
  s ← list_is_singular head;
  n ← get_next head;
  if s && (negb (bool_decide (n = entry)) && negb (bool_decide (head = entry)))
  then mret tt
  else if bool_decide (entry = head)
  then INIT_LIST_HEAD list
  else __list_cut_position list head entry.

Definition __list_splice (list prev next : Z) : cmd lmem unit :=
  first ← get_next list;
  last ← get_prev list;
  set_prev first prev ;;
  set_next prev first ;;
  set_next last next ;;
  set_prev next last.

Definition list_splice (list head : Z) : cmd lmem unit :=
  e ← list_empty list;
  if negb e then n ← get_next head; __list_splice list head n else mret tt.

Definition list_splice_tail (list head : Z) : cmd lmem unit :=
  e ← list_empty list;
  if negb e then p ← get_prev head; __list_splice list p head else mret tt.

Definition list_splice_init (list head : Z) : cmd lmem unit :=
  e ← list_empty list;
  if negb e
  then n ← get_next head; __list_splice list head n ;; INIT_LIST_HEAD list
  else mret tt.

Definition list_splice_tail_init (list head : Z) : cmd lmem unit :=
  e ← list_empty list;
  if negb e
  then p ← get_prev head; __list_splice list p head ;; INIT_LIST_HEAD list
  else mret tt.

(** ** Reading a list from another of its entries *)

Lemma dll_turn m h x l : dll m h (x :: l) ↔ dll m x (l ++ [h]).
Proof.
  unfold dll. assert (x :: l ++ [h] ≡ₚ h :: x :: l) as E by solve_Permutation.
  rewrite E, seg_app. simpl. tauto.
Qed.

Lemma dll_first m h l : dll m h l → nxt m h = Some (default h (head l)).
Proof. intros [_ H]. by apply seg_first in H. Qed.
Lemma dll_last m h l : dll m h l → prv m h = Some (default h (last l)).
Proof. intros [_ H]. by apply seg_last in H. Qed.

Lemma INIT_LIST_HEAD_dll m h :
  is_Some (m !! h) →
  ∃ m', INIT_LIST_HEAD h m = Ok (tt, m') ∧ dll m' h [] ∧ (∀ y, y ≠ h → m' !! y = m !! y).
Proof.
  intros Hs. destruct (INIT_LIST_HEAD_ok m h Hs) as (m' & E & U). exists m'.
  split_and!; [done| |].
  - destruct U as [Un Up]. apply dll_singleton; [rewrite Un | rewrite Up]; by case_decide.
  - intros y Hy. eapply upd_frame; [done|..]; simpl; by case_decide.
Qed.

(** ** Splicing *)

Lemma __list_splice_ok m a p n first last :
  nxt m a = Some first → prv m a = Some last →
  is_Some (m !! first) → is_Some (m !! last) → is_Some (m !! p) → is_Some (m !! n) →
  p ≠ last → first ≠ n →
  ∃ m', __list_splice a p n m = Ok (tt, m') ∧
    upd m m' (λ y, if decide (y = p) then Some first else if decide (y = last) then Some n else None)
             (λ y, if decide (y = first) then Some p else if decide (y = n) then Some last else None).
Proof.
  intros Hf Hl ??????. unfold __list_splice.
  rewrite (bind_ok _ _ _ _ _ (get_next_ok _ _ _ Hf)), (bind_ok _ _ _ _ _ (get_prev_ok _ _ _ Hl)).
  do 4 list_write. eexists. split; [done|]. solve_upd.
Qed.

(** The entries [k] of the list at [a] are linked between [l1] and [l2]; the
    head at [a] itself is not written. *)
Lemma dll_splice m h l1 l2 a k :
  dll m h (l1 ++ l2) → dll m a k → k ≠ [] → k ## h :: l1 ++ l2 →
  ∃ m', __list_splice a (default h (last l1)) (default h (head l2)) m = Ok (tt, m') ∧
        dll m' h (l1 ++ k ++ l2) ∧
        (∀ y, y ∉ h :: l1 ++ l2 → y ∉ k → m' !! y = m !! y).
Proof.
  intros Hd Ha Hk Hdis. pose proof (dll_first _ _ _ Ha) as Hf. pose proof (dll_last _ _ _ Ha) as Hl.
  destruct k as [|x k]; [done|]. clear Hk. rewrite default_last_cons in Hl. simpl in Hf.
  assert (default h (last l1) ∈ h :: l1 ++ l2) as Hp by (destruct (last_elem_or l1 h); set_solver).
  assert (default h (head l2) ∈ h :: l1 ++ l2) as Hn by (destruct (head_elem_or l2 h); set_solver).
  assert (default x (last k) ∈ x :: k) as Hz by (destruct (last_elem_or k x); set_solver).
  assert (x ∈ x :: k) as Hx by set_solver.
  assert (∀ y y', y ∈ x :: k → y' ∈ h :: l1 ++ l2 → y ≠ y') as Hne by (intros y y' ?? ->; by apply (Hdis y')).
  destruct (__list_splice_ok m a (default h (last l1)) (default h (head l2)) x (default x (last k)))
    as (m' & E & Un & Up); eauto using dll_mapped, not_eq_sym, list_elem_of_further.
  exists m'. split; [done|]. destruct Hd as [Hnd [H1 H2]%seg_split], Ha as [Hnda (_ & _ & Ha)].
  apply NoDup_cons in Hnda as [_ Hndk]. pose proof Hndk as [Hxk _]%NoDup_cons.
  split; [split|].
  - assert (h :: l1 ++ (x :: k) ++ l2 ≡ₚ (x :: k) ++ h :: l1 ++ l2) as -> by solve_Permutation.
    apply NoDup_app. split_and!; [done| |done]. intros y ??. by apply (Hne y y).
  - eapply (seg_insert m m' h l1 l2 x k); [done..| |done| | | |]; clear H1 H2 E.
    + eapply seg_new_end; [exact Ha|..]; try done.
      * intros y Hy. rewrite Up. repeat case_decide; [by subst| |done]. exfalso.
        apply (Hne y _ (list_elem_of_further _ _ _ Hy) Hn). done.
      * intros y Hy ?. rewrite Un. repeat case_decide; [|done..]. exfalso. by apply (Hne y _ Hy Hp).
      * rewrite Un. repeat case_decide; [|done..]. exfalso. by apply (Hne _ _ Hz Hp).
      * rewrite Up. repeat case_decide; [|done..]. exfalso. by apply (Hne _ _ Hx Hn).
    + rewrite Un. by case_decide.
    + rewrite Up. by case_decide.
    + intros y Hy ?. rewrite Un. repeat case_decide; [done| |done]. exfalso. by apply (Hne _ _ Hz Hy).
    + intros y Hy ?. rewrite Up. repeat case_decide; [|done..]. exfalso. by apply (Hne _ _ Hx Hy).
  - intros y Hy Hy'. apply nxt_prv_ext; [rewrite Un|rewrite Up]; repeat case_decide; by subst.
Qed.

Lemma dll_splice_init m h l1 l2 a k :
  dll m h (l1 ++ l2) → dll m a k → k ≠ [] → a :: k ## h :: l1 ++ l2 →
  ∃ m', (__list_splice a (default h (last l1)) (default h (head l2)) ;; INIT_LIST_HEAD a) m = Ok (tt, m') ∧
        dll m' h (l1 ++ k ++ l2) ∧ dll m' a [] ∧
        (∀ y, y ∉ h :: l1 ++ l2 → y ∉ a :: k → m' !! y = m !! y).
Proof.
  intros Hd Ha Hk Hdis. pose proof Ha as [[Hak _]%NoDup_cons _].
  destruct (dll_splice m h l1 l2 a k) as (m1 & E1 & Hd1 & F1); [done..|set_solver|].
  rewrite (bind_ok _ _ _ _ _ E1). destruct (INIT_LIST_HEAD_dll m1 a) as (m2 & E2 & Hd2 & F2).
  { rewrite F1 by set_solver. eapply dll_mapped; [done|set_solver]. }
  exists m2. split_and!; [done| |done|].
  - eapply dll_ext; [done|]. intros y Hy. apply F2. set_solver.
  - intros y ? ?. rewrite F2, F1; set_solver.
Qed.

(** [list_splice] puts the entries before those of [h], [list_splice_tail]
    behind them; the [_init] forms also leave the other list empty. *)
Lemma list_splice_dll m h l a k :
  dll m h l → dll m a k → k ## h :: l →
  ∃ m', list_splice a h m = Ok (tt, m') ∧ dll m' h (k ++ l) ∧
        (∀ y, y ∉ h :: l → y ∉ k → m' !! y = m !! y).
Proof.
  intros Hd Ha Hdis. unfold list_splice. rewrite (bind_ok _ _ _ _ _ (list_empty_dll _ _ _ Ha)).
  case_bool_decide as Hk; simpl; [by subst; exists m|].
  rewrite (bind_ok _ _ _ _ _ (get_next_ok _ _ _ (dll_first _ _ _ Hd))).
  by apply (dll_splice m h [] l a k).
Qed.

Lemma list_splice_tail_dll m h l a k :
  dll m h l → dll m a k → k ## h :: l →
  ∃ m', list_splice_tail a h m = Ok (tt, m') ∧ dll m' h (l ++ k) ∧
        (∀ y, y ∉ h :: l → y ∉ k → m' !! y = m !! y).
Proof.
  intros Hd Ha Hdis. unfold list_splice_tail. rewrite (bind_ok _ _ _ _ _ (list_empty_dll _ _ _ Ha)).
  case_bool_decide as Hk; simpl; [by subst; exists m; rewrite app_nil_r|].
  rewrite (bind_ok _ _ _ _ _ (get_prev_ok _ _ _ (dll_last _ _ _ Hd))).
  pose proof (dll_splice m h l [] a k) as H. rewrite !app_nil_r in H. by apply H.
Qed.

Lemma list_splice_init_dll m h l a k :
  dll m h l → dll m a k → a :: k ## h :: l →
  ∃ m', list_splice_init a h m = Ok (tt, m') ∧ dll m' h (k ++ l) ∧ dll m' a [] ∧
        (∀ y, y ∉ h :: l → y ∉ a :: k → m' !! y = m !! y).
Proof.
  intros Hd Ha Hdis. unfold list_splice_init. rewrite (bind_ok _ _ _ _ _ (list_empty_dll _ _ _ Ha)).
  case_bool_decide as Hk; simpl; [by subst; exists m|].
  rewrite (bind_ok _ _ _ _ _ (get_next_ok _ _ _ (dll_first _ _ _ Hd))).
  by apply (dll_splice_init m h [] l a k).
Qed.

Lemma list_splice_tail_init_dll m h l a k :
  dll m h l → dll m a k → a :: k ## h :: l →
  ∃ m', list_splice_tail_init a h m = Ok (tt, m') ∧ dll m' h (l ++ k) ∧ dll m' a [] ∧
        (∀ y, y ∉ h :: l → y ∉ a :: k → m' !! y = m !! y).
Proof.
  intros Hd Ha Hdis. unfold list_splice_tail_init.
  rewrite (bind_ok _ _ _ _ _ (list_empty_dll _ _ _ Ha)).
  case_bool_decide as Hk; simpl; [by subst; exists m; rewrite app_nil_r|].
  rewrite (bind_ok _ _ _ _ _ (get_prev_ok _ _ _ (dll_last _ _ _ Hd))).
  pose proof (dll_splice_init m h l [] a k) as H. rewrite !app_nil_r in H. by apply H.
Qed.

(** ** Cutting *)

Lemma list_is_singular_dll m h l :
  dll m h l → list_is_singular h m = Ok (bool_decide (length l = 1%nat), m).
Proof.
  intros Hd. unfold list_is_singular. rewrite (bind_ok _ _ _ _ _ (list_empty_dll _ _ _ Hd)).
  rewrite (bind_ok _ _ _ _ _ (get_next_ok _ _ _ (dll_first _ _ _ Hd))).
  rewrite (bind_ok _ _ _ _ _ (get_prev_ok _ _ _ (dll_last _ _ _ Hd))).
  unfold mret, cmd_ret. do 2 f_equal. destruct Hd as [Hnd _].
  destruct l as [|x l]; [done|]. rewrite default_last_cons. simpl.
  apply bool_decide_ext. apply NoDup_cons in Hnd as [_ [Hx _]%NoDup_cons].
  destruct l as [|y l]; [done|]. split; [|done]. intros E.
  destruct (last (y :: l)) as [z|] eqn:Ez; [|by apply last_None in Ez].
  apply last_Some_elem_of in Ez. simpl in E. by subst.
Qed.

Lemma __list_cut_position_ok m a h e first nf :
  nxt m h = Some first → nxt m e = Some nf →
  is_Some (m !! a) → is_Some (m !! first) → is_Some (m !! e) → is_Some (m !! h) → is_Some (m !! nf) →
  a ≠ h → a ≠ e → a ≠ first → e ≠ h → first ≠ nf → a ≠ nf →
  ∃ m', __list_cut_position a h e m = Ok (tt, m') ∧
    upd m m' (λ y, if decide (y = a) then Some first else if decide (y = e) then Some a
                   else if decide (y = h) then Some nf else None)
             (λ y, if decide (y = first) then Some a else if decide (y = a) then Some e
                   else if decide (y = nf) then Some h else None).
Proof.
  intros Hf He ???????????. unfold __list_cut_position.
  rewrite (bind_ok _ _ _ _ _ (get_next_ok _ _ _ He)), (bind_ok _ _ _ _ _ (get_next_ok _ _ _ Hf)).
  list_write.
  assert (nxt m0 a = Some first) as Ha by (destruct U as [-> _]; by case_decide).
  rewrite (bind_ok _ _ _ _ _ (get_next_ok _ _ _ Ha)).
  do 5 list_write. eexists. split; [done|]. clear Ha. solve_upd.
Qed.

(** The part up to and including the entry goes to the list at [a], whatever
    was there; the rest stays. *)
Lemma __list_cut_position_dll m h x k l2 a :
  dll m h ((x :: k) ++ l2) → a ∉ h :: (x :: k) ++ l2 → is_Some (m !! a) →
  ∃ m', __list_cut_position a h (default x (last k)) m = Ok (tt, m') ∧
        dll m' a (x :: k) ∧ dll m' h l2 ∧
        (∀ y, y ∉ a :: h :: (x :: k) ++ l2 → m' !! y = m !! y).
Proof.
  intros Hd Ha Hs. set (e := default x (last k)). set (n := default h (head l2)).
  pose proof Hd as [[Hh (Hndk & Hdis & Hnd2)%NoDup_app]%NoDup_cons [Hf [Hfp [H1 H2]%seg_split]]].
  assert (e ∈ x :: k) as He by (unfold e; destruct (last_elem_or k x); set_solver).
  assert (n ∈ h :: l2) as Hn by (unfold n; destruct (head_elem_or l2 h); set_solver).
  assert (∀ y, y ∈ h :: (x :: k) ++ l2 → y ≠ a ∧ is_Some (m !! y)) as Hin.
  { intros y Hy. split; [by intros -> | by eapply dll_mapped]. }
  assert (∀ y y', y ∈ x :: k → y' ∈ h :: l2 → y ≠ y') as Hne by (clear -Hh Hdis; set_solver).
  destruct (Hin h), (Hin x), (Hin e), (Hin n); [clear -He Hn; clearbody e n; set_solver..|].
  destruct (__list_cut_position_ok m a h e x n) as (m' & E & Un & Up);
    eauto using seg_last_next, list_elem_of_here.
  assert (∀ y, y ∈ x :: k → y ≠ a ∧ y ≠ h ∧ y ≠ n) as Fk.
  { intros y Hy. split_and!; [apply Hin; clear -Hy; set_solver|apply Hne; [done|left]|by apply Hne]. }
  assert (∀ y, y ∈ h :: l2 → y ≠ a ∧ y ≠ e ∧ y ≠ x) as Fh.
  { intros y Hy. split_and!; [apply Hin; clear -Hy; set_solver|..]; apply not_eq_sym, Hne; by try left. }
  pose proof (Fk e He). pose proof (Fh h ltac:(left)). pose proof (Fh n Hn). destruct_and?.
  exists m'. clear Hin Hne Hdis Hf Hfp. split_and!; [done| | |]; clear E.
  - split; [apply NoDup_cons; split; [by intros [? _]%Fk|done]|]. split_and!.
    + rewrite Un. by case_decide.
    + rewrite Up. by case_decide.
    + eapply seg_new_end; [exact H1|..]; fold e; try done.
      * intros y Hy. rewrite Up. destruct (Fk y) as (? & ? & ?); [by right|].
        apply NoDup_cons in Hndk as [? _]. repeat case_decide; by subst.
      * intros y Hy Hye. rewrite Un. destruct (Fk y) as (? & ? & ?); [done|].
        by repeat case_decide.
      * rewrite Un. repeat case_decide; congruence.
      * rewrite Up. repeat case_decide; congruence.
  - split; [apply NoDup_cons; split; [clear -Hh; set_solver|done]|].
    eapply seg_new_start; [exact H2|..]; fold n.
    + rewrite Un. repeat case_decide; congruence.
    + rewrite Up. repeat case_decide; congruence.
    + intros y Hy. rewrite Un. destruct (Fh y) as (? & ? & ?); [by right|].
      assert (y ≠ h) by (clear -Hh Hy; set_solver). by repeat case_decide.
    + intros y Hy. rewrite Up. destruct (Fh y) as (? & ? & ?); [destruct l2; clear -Hy; set_solver|].
      assert (y ≠ n) by (subst n; clear -Hh Hnd2 Hy; destruct l2 as [|z l2]; simpl in *;
        [|apply NoDup_cons in Hnd2 as [? _]]; set_solver).
      by repeat case_decide.
  - intros y Hy. assert (y ≠ a ∧ y ≠ h ∧ y ≠ x ∧ y ≠ e ∧ y ≠ n) as (? & ? & ? & ? & ?)
      by (clearbody e n; clear -Hy He Hn; set_solver).
    apply nxt_prv_ext; [rewrite Un|rewrite Up]; by repeat case_decide.
Qed.

Lemma list_cut_position_dll m h x k l2 a :
  dll m h ((x :: k) ++ l2) → a ∉ h :: (x :: k) ++ l2 → is_Some (m !! a) →
  ∃ m', list_cut_position a h (default x (last k)) m = Ok (tt, m') ∧
        dll m' a (x :: k) ∧ dll m' h l2 ∧
        (∀ y, y ∉ a :: h :: (x :: k) ++ l2 → m' !! y = m !! y).
Proof.
  intros Hd Ha Hs. unfold list_cut_position.
  rewrite (bind_ok _ _ _ _ _ (list_empty_dll _ _ _ Hd)), bool_decide_eq_false_2 by done.
  rewrite (bind_ok _ _ _ _ _ (list_is_singular_dll _ _ _ Hd)).
  rewrite (bind_ok _ _ _ _ _ (get_next_ok _ _ _ (dll_first _ _ _ Hd))).
  assert (bool_decide (length ((x :: k) ++ l2) = 1%nat) &&
    (negb (bool_decide (default h (head ((x :: k) ++ l2)) = default x (last k))) &&
     negb (bool_decide (h = default x (last k)))) = false) as ->.
  { destruct k; simpl; [|done]. rewrite (bool_decide_eq_true_2 (x = x)) by done.
    by rewrite andb_false_r. }
  rewrite bool_decide_eq_false_2; [by apply __list_cut_position_dll|].
  intros E. destruct Hd as [[Hh _]%NoDup_cons _]. destruct (last_elem_or k x); set_solver.
Qed.

(** Cutting at the head itself cuts nothing: the new list is empty. *)
Lemma list_cut_position_head m h l a :
  dll m h l → l ≠ [] → a ∉ h :: l → is_Some (m !! a) →
  ∃ m', list_cut_position a h h m = Ok (tt, m') ∧ dll m' a [] ∧ dll m' h l.
Proof.
  intros Hd Hl Ha Hs. unfold list_cut_position.
  rewrite (bind_ok _ _ _ _ _ (list_empty_dll _ _ _ Hd)), bool_decide_eq_false_2 by done.
  rewrite (bind_ok _ _ _ _ _ (list_is_singular_dll _ _ _ Hd)).
  rewrite (bind_ok _ _ _ _ _ (get_next_ok _ _ _ (dll_first _ _ _ Hd))).
  rewrite (bool_decide_eq_true_2 (h = h)), !andb_false_r by done.
  destruct (INIT_LIST_HEAD_dll m a Hs) as (m' & E & He & F). exists m'. split_and!; [done..|].
  eapply dll_ext; [done|]. intros y Hy. apply F. by intros ->.
Qed.

(** ** Replacing *)

Lemma list_replace_ok m old new p n :
  nxt m old = Some n → prv m old = Some p →
  is_Some (m !! new) → is_Some (m !! p) → is_Some (m !! n) → new ≠ p → new ≠ n → old ≠ n →
  ∃ m', list_replace old new m = Ok (tt, m') ∧
    upd m m' (λ y, if decide (y = new) then Some n else if decide (y = p) then Some new else None)
             (λ y, if decide (y = new) then Some p else if decide (y = n) then Some new else None).
Proof.
  intros Hn Hp ??????. unfold list_replace.
  rewrite (bind_ok _ _ _ _ _ (get_next_ok _ _ _ Hn)). list_write.
  rewrite (bind_ok _ _ _ _ _ (get_next_ok m0 new n ltac:(destruct U as [-> _]; by case_decide))).
  list_write.
  rewrite (bind_ok _ _ _ _ _ (get_prev_ok m1 old p
    ltac:(destruct U as [_ U], U0 as [_ U0]; rewrite U0, U; by case_decide))).
  list_write.
  rewrite (bind_ok _ _ _ _ _ (get_prev_ok m2 new p ltac:(destruct U1 as [_ ->]; by case_decide))).
  list_write. eexists. split; [done|]. solve_upd.
Qed.

(** Replacing an entry puts the new one in its place; the old one still points
    into the list. *)
Lemma list_replace_dll m h l1 old l2 new :
  dll m h (l1 ++ old :: l2) → new ∉ h :: l1 ++ old :: l2 → is_Some (m !! new) →
  ∃ m', list_replace old new m = Ok (tt, m') ∧ dll m' h (l1 ++ new :: l2) ∧
        (∀ y, y ∉ new :: h :: l1 ++ l2 → m' !! y = m !! y).
Proof.
  intros Hd Hnew Hs. pose proof Hd as [Hnd [H1 H2]%seg_app].
  rewrite app_comm_cons in Hnd. apply nodup_middle in Hnd as [[Ho1 Ho2] Hnd].
  assert (default h (last l1) ∈ h :: l1 ++ l2) as Hp by (destruct (last_elem_or l1 h); set_solver).
  assert (default h (head l2) ∈ h :: l1 ++ l2) as Hn by (destruct (head_elem_or l2 h); set_solver).
  assert (∀ y, y ∈ h :: l1 ++ l2 → y ≠ new ∧ y ≠ old ∧ is_Some (m !! y)) as Hin.
  { intros y Hy. split_and!; [set_solver..|]. eapply dll_mapped; [done|]. set_solver. }
  destruct (Hin _ Hp) as (? & ? & ?), (Hin _ Hn) as (? & ? & ?).
  destruct (list_replace_ok m old new (default h (last l1)) (default h (head l2))) as (m' & E & Un & Up);
    eauto using dll_next, dll_prev.
  exists m'. split; [done|]. split; [split|].
  - rewrite app_comm_cons, <- Permutation_middle. apply NoDup_cons. split; [|done].
    clear -Hnew. set_solver.
  - eapply (seg_insert m m' h l1 l2 new []); [done..| |done| | | |]; clear H1 H2 Hd E.
    + simpl. rewrite Un, Up. by repeat case_decide.
    + rewrite Un. by repeat case_decide.
    + rewrite Up. by repeat case_decide.
    + intros y Hy Hyp. rewrite Un. apply Hin in Hy as (? & _). by repeat case_decide.
    + intros y Hy Hyp. rewrite Up. apply Hin in Hy as (? & _). by repeat case_decide.
  - intros y Hy. assert (y ≠ new ∧ y ∉ h :: l1 ++ l2) as [? ?] by (clear -Hy; set_solver).
    apply nxt_prv_ext; [rewrite Un|rewrite Up]; repeat case_decide; by subst.
Qed.

(** Replacing the head of an empty list: every pointer read is the one just
    written, and the new head is an empty list. *)
Lemma list_replace_empty m old new :
  dll m old [] → new ≠ old → is_Some (m !! new) →
  ∃ m', list_replace old new m = Ok (tt, m') ∧ dll m' new [] ∧ is_Some (m' !! old) ∧
        (∀ y, y ≠ new → y ≠ old → m' !! y = m !! y).
Proof.
  intros [_ [Hn Hp]] Hne Hs. pose proof (nxt_some _ _ _ Hn) as Ho. unfold list_replace.
  rewrite (bind_ok _ _ _ _ _ (get_next_ok _ _ _ Hn)). list_write.
  rewrite (bind_ok _ _ _ _ _ (get_next_ok m0 new old ltac:(destruct U as [-> _]; by case_decide))).
  list_write.
  rewrite (bind_ok _ _ _ _ _ (get_prev_ok m1 old new ltac:(destruct U0 as [_ ->]; by case_decide))).
  list_write.
  rewrite (bind_ok _ _ _ _ _ (get_prev_ok m2 new new ltac:(destruct U1 as [_ ->]; by case_decide))).
  list_write. exists m3. split; [done|]. split_and!.
  - destruct U1 as [_ U1], U2 as [Un Up].
    apply dll_singleton; [rewrite Un | rewrite Up, U1]; by case_decide.
  - eauto 10 using upd_is_Some.
  - intros y ? ?. rewrite (upd_frame _ _ _ _ y U2), (upd_frame _ _ _ _ y U1), (upd_frame _ _ _ _ y U0),
      (upd_frame _ _ _ _ y U); simpl; try done; by case_decide.
Qed.

(** Replacing a head moves the whole list, empty or not, to the new head. *)
Lemma list_replace_init_dll m old l new :
  dll m old l → new ∉ old :: l → is_Some (m !! new) →
  ∃ m', list_replace_init old new m = Ok (tt, m') ∧ dll m' new l ∧ dll m' old [] ∧
        (∀ y, y ∉ new :: old :: l → m' !! y = m !! y).
Proof.
  intros Hd Hnew Hs.
  assert (∃ m1, list_replace old new m = Ok (tt, m1) ∧ dll m1 new l ∧ is_Some (m1 !! old) ∧
            (∀ y, y ∉ new :: old :: l → m1 !! y = m !! y)) as (m1 & E1 & Hd1 & Ho & F1).
  { destruct l as [|x l].
    - destruct (list_replace_empty m old new) as (m1 & ? & ? & ? & F); [done|set_solver|done|].
      exists m1. split_and!; [done..|]. intros y Hy. apply F; set_solver.
    - pose proof (dll_mapped _ _ _ old Hd ltac:(left)) as Ho.
      pose proof Hd as [[Hox _]%NoDup_cons _]. apply dll_turn in Hd.
      destruct (list_replace_dll m x l old [] new) as (m1 & E1 & Hd1 & F1); [done|set_solver|done|].
      exists m1. split_and!; [done|by apply dll_turn| |].
      + rewrite F1; [done|]. rewrite app_nil_r. set_solver.
      + intros y Hy. apply F1. rewrite app_nil_r. set_solver. }
  unfold list_replace_init. rewrite (bind_ok _ _ _ _ _ E1).
  destruct (INIT_LIST_HEAD_dll m1 old Ho) as (m2 & E2 & Hd2 & F2).
  exists m2. split_and!; [done| |done|].
  - eapply dll_ext; [done|]. intros y Hy. apply F2. intros ->.
    destruct Hd as [[? _]%NoDup_cons _]. set_solver.
  - intros y Hy. rewrite F2, F1; set_solver.
Qed.

(** ** Rotation *)

Lemma list_rotate_left_dll m h l :
  dll m h l → ∃ m', list_rotate_left h m = Ok (tt, m') ∧ dll m' h (tail l ++ option_list (head l)).
Proof.
  intros Hd. unfold list_rotate_left. rewrite (bind_ok _ _ _ _ _ (list_empty_dll _ _ _ Hd)).
  destruct l as [|x l]; simpl; [by exists m|].
  rewrite (bind_ok _ _ _ _ _ (get_next_ok _ _ _ (dll_first _ _ _ Hd))). simpl.
  pose proof Hd as [[Hh [Hx _]%NoDup_cons]%NoDup_cons _].
  destruct (dll_remove m h [] x l Hd) as (m1 & E1 & Hd1 & F1). simpl in *.
  unfold list_move_tail. rewrite (bind_ok _ _ _ _ _ E1).
  destruct (list_add_tail_dll m1 h l [] h x) as (m2 & E2 & Hd2 & _); rewrite ?app_nil_r; try done.
  - set_solver.
  - rewrite F1 by set_solver. eapply dll_mapped; [done|]. set_solver.
  - by exists m2.
Qed.

(** ** Cutting a list in two and joining the parts *)

(** On a well-formed list, [list_cut_position] at an entry moves exactly
    the entries up to and including it, in order, to the other head and leaves
    the rest; [list_splice_init] of that part puts the old sequence back and
    leaves the other head empty, and [list_splice_tail_init] instead gives the
    sequence rotated by that part.  Memory outside the two lists is
    untouched. *)
Theorem list_cut_splice m h x k l a :
  dll m h ((x :: k) ++ l) → a ∉ h :: (x :: k) ++ l → is_Some (m !! a) →
  ∃ m1 m2 m3,
    list_cut_position a h (default x (last k)) m = Ok (tt, m1) ∧
    dll m1 a (x :: k) ∧ dll m1 h l ∧
    list_splice_init a h m1 = Ok (tt, m2) ∧ dll m2 h ((x :: k) ++ l) ∧ dll m2 a [] ∧
    list_splice_tail_init a h m1 = Ok (tt, m3) ∧ dll m3 h (l ++ x :: k) ∧ dll m3 a [] ∧
    (∀ y, y ∉ a :: h :: (x :: k) ++ l → m2 !! y = m !! y ∧ m3 !! y = m !! y).
Proof.
  intros Hd Ha Hs. destruct (list_cut_position_dll m h x k l a) as (m1 & E1 & D1 & D1' & F1); [done..|].
  assert (a :: x :: k ## h :: l) as Hdis.
  { destruct Hd as [[Hh (_ & Hdis & _)%NoDup_app]%NoDup_cons _]. set_solver. }
  destruct (list_splice_init_dll m1 h l a (x :: k)) as (m2 & E2 & D2 & D2' & F2); [done..|].
  destruct (list_splice_tail_init_dll m1 h l a (x :: k)) as (m3 & E3 & D3 & D3' & F3); [done..|].
  exists m1, m2, m3. split_and!; try done. intros y Hy. rewrite F2, F3, F1; set_solver.
Qed.

Lemma list_cut_splice_witness :
  ∃ m1 m2 m3,
    list_cut_position 300 10 100 sample_list = Ok (tt, m1) ∧ dll m1 300 [100] ∧ dll m1 10 [200] ∧
    list_splice_init 300 10 m1 = Ok (tt, m2) ∧ dll m2 10 [100; 200] ∧
    list_splice_tail_init 300 10 m1 = Ok (tt, m3) ∧ dll m3 10 [200; 100].
Proof.
  destruct (list_cut_splice sample_list 10 100 [] [200] 300 sample_list_dll)
    as (m1 & m2 & m3 & E1 & D1 & D1' & E2 & D2 & _ & E3 & D3 & _);
    [by apply (bool_decide_unpack (_ ∉ _))|by eexists|].
  exists m1, m2, m3. split_and!; assumption.
Defined.
