(* ===== verification/HList.v ===== *)
(** * Hash lists of the kernel (include/linux/list.h, the [hlist] operations)

    A hash list has a head of one pointer, and each node points back at the
    pointer that points at it.  That pointer is the [first] of the head or the
    [next] of a node, the first field of either structure, so its address is
    that of the head or the node: memory is a map from such addresses to the
    pointer kept there, and a map from nodes to their [pprev].  NULL is 0. *)

From S2P Require Import Prelude ListHead.

Record hmem := mk_hmem { slots : gmap Z Z; pprevs : gmap Z Z }.

Definition get_slot (a : Z) : cmd hmem Z := λ m, the (slots m !! a) m.
Definition get_pprev (n : Z) : cmd hmem Z := λ m, the (pprevs m !! n) m.
Definition set_slot (a v : Z) : cmd hmem unit :=
  get_slot a ;; modify (λ m, mk_hmem (<[a := v]> (slots m)) (pprevs m)).
Definition set_pprev (n v : Z) : cmd hmem unit :=
  get_pprev n ;; modify (λ m, mk_hmem (slots m) (<[n := v]> (pprevs m))).

Definition INIT_HLIST_NODE (h : Z) : cmd hmem unit := set_slot h 0 ;; set_pprev h 0.

Definition hlist_unhashed (h : Z) : cmd hmem bool := p ← get_pprev h; mret (p =? 0).

Definition __hlist_del (n : Z) : cmd hmem unit :=
  next ← get_slot n;
  pprev ← get_pprev n;
  set_slot pprev next ;;
  if negb (next =? 0) then set_pprev next pprev else mret tt.

Definition hlist_del_init (n : Z) : cmd hmem unit :=
  u ← hlist_unhashed n;
  if negb u then __hlist_del n ;; INIT_HLIST_NODE n else mret tt.

Definition hlist_add_head (n h : Z) : cmd hmem unit :=
  first ← get_slot h;
  set_slot n first ;;
  (if negb (first =? 0) then set_pprev first n else mret tt) ;;
  set_slot h n ;;
  set_pprev n h.

(** ** The sequence a head carries *)

(** [hseg m a l]: from the pointer at [a] one meets the nodes [l] and NULL, and
    each node points back at the pointer to it. *)
Fixpoint hseg (m : hmem) (a : Z) (l : list Z) : Prop :=
  match l with
  | [] => slots m !! a = Some 0
  | x :: l' => slots m !! a = Some x ∧ x ≠ 0 ∧ pprevs m !! x = Some a ∧ hseg m x l'
  end.

(** A node on no list. *)
Definition hidle (m : hmem) (n : Z) : Prop := is_Some (slots m !! n) ∧ pprevs m !! n = Some 0.

(** The two memories agree at [y]. *)
Definition hsame (m m' : hmem) (y : Z) : Prop := slots m' !! y = slots m !! y ∧ pprevs m' !! y = pprevs m !! y.

Lemma hseg_ext m m' a l :
  (∀ y, y ∈ a :: l → slots m' !! y = slots m !! y) → (∀ y, y ∈ l → pprevs m' !! y = pprevs m !! y) →
  hseg m a l → hseg m' a l.
Proof.
  revert a. induction l as [|x l IH]; intros a Hs Hp; simpl.
  - by rewrite Hs by left.
  - rewrite (Hs a), (Hp x) by left. intros (? & ? & ? & H). split_and!; [done..|].
    apply IH; [| |done]; intros y Hy; [apply Hs|apply Hp]; by right.
Qed.

Lemma hseg_slot m a l y : hseg m a l → y ∈ a :: l → is_Some (slots m !! y).
Proof.
  revert a. induction l as [|x l IH]; intros a; simpl.
  - intros H Hy. apply list_elem_of_singleton in Hy as ->. eauto.
  - intros (? & _ & _ & H) [->|Hy]%elem_of_cons; [eauto|by eapply IH].
Qed.

Lemma hseg_first m a l : hseg m a l → slots m !! a = Some (default 0 (head l)).
Proof. destruct l; simpl; tauto. Qed.

Lemma hseg_node m a l y : hseg m a l → y ∈ l → y ≠ 0 ∧ ∃ p, pprevs m !! y = Some p ∧ p ∈ a :: l.
Proof.
  revert a. induction l as [|x l IH]; intros a; [set_solver|]. intros (? & ? & ? & H) [->|Hy]%elem_of_cons.
  - split; [done|]. exists a. split; [done|left].
  - destruct (IH x H Hy) as (? & p & ? & ?). split; [done|]. exists p. split; [done|by right].
Qed.

Lemma hseg_app m a l1 l2 : hseg m a (l1 ++ l2) → hseg m (default a (last l1)) l2.
Proof.
  revert a. induction l1 as [|x l1 IH]; intros a; [done|]. intros (_ & _ & _ & H).
  rewrite last_cons. apply IH in H. by destruct (last l1).
Qed.

Lemma set_slot_ok m a v : is_Some (slots m !! a) → set_slot a v m = Ok (tt, mk_hmem (<[a := v]> (slots m)) (pprevs m)).
Proof. intros [w Hw]. unfold set_slot, get_slot, mbind, cmd_bind, the. by rewrite Hw. Qed.
Lemma set_pprev_ok m a v : is_Some (pprevs m !! a) → set_pprev a v m = Ok (tt, mk_hmem (slots m) (<[a := v]> (pprevs m))).
Proof. intros [w Hw]. unfold set_pprev, get_pprev, mbind, cmd_bind, the. by rewrite Hw. Qed.
Lemma get_slot_ok m a v : slots m !! a = Some v → get_slot a m = Ok (v, m).
Proof. intros H. unfold get_slot, the. by rewrite H. Qed.
Lemma get_pprev_ok m a v : pprevs m !! a = Some v → get_pprev a m = Ok (v, m).
Proof. intros H. unfold get_pprev, the. by rewrite H. Qed.

(** ** Adding and removing *)

Lemma hlist_unhashed_ok m n p : pprevs m !! n = Some p → hlist_unhashed n m = Ok (p =? 0, m).
Proof. intros H. unfold hlist_unhashed. by rewrite (bind_ok _ _ _ _ _ (get_pprev_ok _ _ _ H)). Qed.

(** The write through the first node of what follows, if there is one. *)
Lemma set_back_ok m l v :
  (∀ y, y ∈ l → y ≠ 0 ∧ is_Some (pprevs m !! y)) →
  (if negb (default 0 (head l) =? 0) then set_pprev (default 0 (head l)) v else mret tt) m =
  Ok (tt, mk_hmem (slots m) (match l with [] => pprevs m | x :: _ => <[x := v]> (pprevs m) end)).
Proof.
  intros Hl. destruct l as [|x l]; simpl; [by destruct m|]. destruct (Hl x ltac:(left)) as [? ?].
  rewrite (proj2 (Z.eqb_neq x 0)) by done. by apply set_pprev_ok.
Qed.

Lemma hseg_nodes m a l : hseg m a l → ∀ y, y ∈ l → y ≠ 0 ∧ is_Some (pprevs m !! y).
Proof. intros H y Hy. destruct (hseg_node _ _ _ _ H Hy) as (? & p & ? & _). eauto. Qed.

(** Linking what follows to another pointer. *)
Lemma hseg_relink m m' a a' l :
  hseg m a l → NoDup l → slots m' !! a' = Some (default 0 (head l)) →
  (∀ y, y ∈ l → slots m' !! y = slots m !! y) →
  (∀ y, y ∈ l → pprevs m' !! y = match l with [] => pprevs m | x :: _ => <[x := a']> (pprevs m) end !! y) →
  hseg m' a' l.
Proof.
  destruct l as [|x l]; [done|]. intros (_ & ? & _ & H) [Hx _]%NoDup_cons Ha Hs Hp.
  split_and!; [done|done| |].
  - rewrite Hp by left. by simplify_map_eq.
  - eapply hseg_ext; [exact Hs| |done]. intros y Hy. rewrite Hp by by right.
    apply lookup_insert_ne. by intros ->.
Qed.

(** An idle node becomes the first of the list. *)
Lemma hlist_add_head_ok m h l n :
  hseg m h l → NoDup (h :: l) → hidle m n → n ≠ 0 → n ∉ h :: l →
  ∃ m', hlist_add_head n h m = Ok (tt, m') ∧ hseg m' h (n :: l) ∧ (∀ y, y ∉ n :: h :: l → hsame m m' y).
Proof.
  intros H [Hh Hnd]%NoDup_cons [Hn Hp] H0 Hnl. pose proof (hseg_first _ _ _ H) as Hf. unfold hlist_add_head.
  assert (n ≠ h ∧ n ∉ l) as [Hnh Hnl'] by set_solver.
  rewrite (bind_ok _ _ _ _ _ (get_slot_ok _ _ _ Hf)), (bind_ok _ _ _ _ _ (set_slot_ok _ _ _ Hn)).
  erewrite bind_ok; [|apply set_back_ok; exact (hseg_nodes _ _ _ H)]. simpl.
  erewrite bind_ok; [|apply set_slot_ok; simpl; rewrite lookup_insert_ne by done; eauto]. simpl.
  rewrite set_pprev_ok by (destruct l; simpl; rewrite ?lookup_insert_ne by set_solver; eauto).
  eexists. split; [done|]. simpl. split.
  - split_and!; [by simplify_map_eq|done|by simplify_map_eq|].
    eapply hseg_relink; [done..| | |]; simpl.
    + rewrite lookup_insert_ne by done. by simplify_map_eq.
    + intros y Hy. by rewrite !lookup_insert_ne by set_solver.
    + intros y Hy. by rewrite lookup_insert_ne by set_solver.
  - intros y Hy. split; simpl; [by rewrite !lookup_insert_ne by set_solver|].
    rewrite lookup_insert_ne by set_solver. destruct l; [done|]. rewrite lookup_insert_ne by set_solver. done.
Qed.

Lemma hseg_skip m m' h l1 n l2 :
  hseg m h (l1 ++ n :: l2) → NoDup (h :: l1 ++ l2) →
  slots m' !! default h (last l1) = Some (default 0 (head l2)) →
  (∀ y, y ∈ h :: l1 ++ l2 → y ≠ default h (last l1) → slots m' !! y = slots m !! y) →
  (∀ y, y ∈ l1 ++ l2 → pprevs m' !! y =
     match l2 with [] => pprevs m | x :: _ => <[x := default h (last l1)]> (pprevs m) end !! y) →
  hseg m' h (l1 ++ l2).
Proof.
  revert h. induction l1 as [|x l1 IH]; intros h H [Hh Hnd]%NoDup_cons Hp Hs Hb.
  - destruct H as (_ & _ & _ & H). eapply hseg_relink; [done|done|done| |done].
    intros y Hy. apply Hs; [by right|]. simpl. by intros ->.
  - destruct H as (Hf & Hx0 & Hx & H). rewrite default_last_cons in Hp, Hs, Hb.
    assert (default x (last l1) ∈ x :: l1) as Hin by (destruct (last_elem_or l1 x); set_solver).
    pose proof Hnd as [Hxl _]%NoDup_cons. split_and!; [|done| |].
    + rewrite Hs; [done|left|]. intros E. apply Hh. rewrite E. apply elem_of_app. by left.
    + rewrite Hb by left. destruct l2 as [|z l2]; [done|]. rewrite lookup_insert_ne; [done|]. set_solver.
    + apply IH; [done..| |]; intros y Hy; [apply Hs|apply Hb]; by right.
Qed.

Lemma __hlist_del_run m n p l2 :
  hseg m n l2 → pprevs m !! n = Some p → is_Some (slots m !! p) →
  __hlist_del n m = Ok (tt, mk_hmem (<[p := default 0 (head l2)]> (slots m))
                                    (match l2 with [] => pprevs m | x :: _ => <[x := p]> (pprevs m) end)).
Proof.
  intros H Hp Hs. unfold __hlist_del.
  rewrite (bind_ok _ _ _ _ _ (get_slot_ok _ _ _ (hseg_first _ _ _ H))), (bind_ok _ _ _ _ _ (get_pprev_ok _ _ _ Hp)).
  rewrite (bind_ok _ _ _ _ _ (set_slot_ok _ _ _ Hs)).
  apply (set_back_ok (mk_hmem _ (pprevs m)) l2 p). exact (hseg_nodes _ _ _ H).
Qed.

(** [hlist_del_init] takes a node out of its list. *)
Lemma hlist_del_init_ok m h l1 n l2 :
  hseg m h (l1 ++ n :: l2) → NoDup (h :: l1 ++ n :: l2) → h ≠ 0 →
  ∃ m', hlist_del_init n m = Ok (tt, m') ∧ hseg m' h (l1 ++ l2) ∧ hidle m' n ∧
        (∀ y, y ∉ n :: h :: l1 ++ l2 → hsame m m' y).
Proof.
  intros H Hnd Hh0. rewrite app_comm_cons in Hnd. apply nodup_middle in Hnd as [[Hn1 Hn2] Hnd].
  pose proof (hseg_app _ _ _ _ H) as (Hf & Hn0 & Hpp & H2).
  pose proof (hseg_slot _ _ _ n H2 ltac:(left)) as Hns.
  assert (default h (last l1) ∈ h :: l1) as Hp by (destruct (last_elem_or l1 h); set_solver).
  assert (default h (last l1) ≠ 0) as Hp0.
  { apply elem_of_cons in Hp as [->|Hp]; [done|].
    apply (hseg_nodes _ _ _ H), elem_of_app. by left. }
  assert (n ≠ default h (last l1)) as Hpn by (intros ->; done).
  unfold hlist_del_init. rewrite (bind_ok _ _ _ _ _ (hlist_unhashed_ok _ _ _ Hpp)), (proj2 (Z.eqb_neq _ 0)) by done.
  simpl. erewrite bind_ok; [|by eapply __hlist_del_run]. unfold INIT_HLIST_NODE.
  erewrite bind_ok; [|apply set_slot_ok; simpl; rewrite lookup_insert_ne by done; eauto]. simpl.
  rewrite set_pprev_ok by (destruct l2; simpl; rewrite ?lookup_insert_ne by set_solver; eauto).
  eexists. split; [done|]. split_and!; simpl.
  - eapply hseg_skip; [done..| | |]; simpl.
    + rewrite lookup_insert_ne by done. by simplify_map_eq.
    + intros y Hy ?. rewrite !lookup_insert_ne; [done..|]. intros ->. set_solver.
    + intros y Hy. rewrite lookup_insert_ne; [done|]. intros ->. set_solver.
  - split; simpl; simplify_map_eq; eauto.
  - intros y Hy. assert (y ≠ default h (last l1)) by (intros ->; set_solver).
    split; simpl; [by rewrite !lookup_insert_ne by set_solver|].
    rewrite lookup_insert_ne by set_solver. destruct l2; [done|]. rewrite lookup_insert_ne by set_solver. done.
Qed.

Lemma hlist_del_init_idle m n : hidle m n → hlist_del_init n m = Ok (tt, m).
Proof. intros [_ Hp]. unfold hlist_del_init. by rewrite (bind_ok _ _ _ _ _ (hlist_unhashed_ok _ _ _ Hp)). Qed.
