(* ===== verification/SlobPage.v ===== *)
(** * The SLOB allocator inside one page (project4/slob.c)

    Kernel memory is a finite map of 16-bit cells ([slob_t] units) by byte
    address; a free block keeps its size and the offset of the next free block
    in its first one or two cells.  This file has the data of the allocator,
    the block encoding ([set_slob], [slob_units], [slob_next], [slob_last]),
    the best-fit search of [slob_page_alloc] and its carving of the chosen
    block, and the theorems that relate a page's cells to the list of free
    blocks they encode. *)

From S2P Require Import Prelude.

(** ** Constants (x86-32, the configuration of the repository) *)

Definition PAGE_SIZE : Z := 4096.
Definition SLOB_UNIT : Z := 2.
(** [SLOB_UNITS(size)], on 32-bit [size_t]. *)
Definition SLOB_UNITS (size : Z) : Z := u32 (size + SLOB_UNIT - 1) / SLOB_UNIT.
Definition SLOB_BREAK1 : Z := 256.
Definition SLOB_BREAK2 : Z := 1024.
(** [SLOB_ALIGN] is [L1_CACHE_BYTES]. *)
Definition SLOB_ALIGN : Z := 64.

(** [addr & PAGE_MASK] *)
Definition page_base (addr : Z) : Z := Z.land addr (Z.lnot (PAGE_SIZE - 1)).
(** [addr & ~PAGE_MASK] *)
Definition page_offset (addr : Z) : Z := Z.land addr (PAGE_SIZE - 1).
(** [ALIGN(x, a)] of include/linux/kernel.h, on [unsigned long]. *)
Definition ALIGN (x a : Z) : Z := Z.land (u32 (x + (a - 1))) (Z.lnot (a - 1)).

(** ** State *)

(** The three lists of partially free pages. *)
Inductive slob_list := free_slob_small | free_slob_medium | free_slob_large.

#[export] Instance slob_list_eq_dec : EqDecision slob_list.
Proof. solve_decision. Defined.

(** [struct slob_page]: the fields of [struct page] the allocator uses. *)
Record slob_page := mk_slob_page {
  PageSlab : bool;          (* is_slob_page *)
  PageSlobFree : bool;      (* slob_page_free *)
  sp_units : Z;             (* free units left in page, slobidx_t *)
  sp_free : Z;              (* first free slob_t in page *)
  sp_mapping : Z;           (* page.mapping *)
  sp_private : Z;           (* page.private *)
  sp_count : Z;             (* page._count *)
  sp_order : Z;             (* order the page was allocated with *)
  sp_compound : bool        (* PageCompound: head of a compound page *)
}.

Record slob := mk_slob {
  cells : gmap Z Z;             (* mapped memory, by 16-bit cell *)
  pages : gmap Z slob_page;     (* struct page by page address *)
  lists : slob_list → list Z;   (* pages on each list, head first *)
  mem_used : Z;
  mem_claimed : Z;
  reclaim_state : option Z;     (* current->reclaim_state->reclaimed_slab *)
  slob_ready : Z
}.

Notation slobM := (cmd slob).

Definition set_cells (m : gmap Z Z) (s : slob) : slob :=
  mk_slob m (pages s) (lists s) (mem_used s) (mem_claimed s) (reclaim_state s) (slob_ready s).
Definition set_pages (p : gmap Z slob_page) (s : slob) : slob :=
  mk_slob (cells s) p (lists s) (mem_used s) (mem_claimed s) (reclaim_state s) (slob_ready s).
Definition set_lists (l : slob_list → list Z) (s : slob) : slob :=
  mk_slob (cells s) (pages s) l (mem_used s) (mem_claimed s) (reclaim_state s) (slob_ready s).

(** Memory accesses fault when the cell is not mapped. *)
Definition load (a : Z) : slobM Z := λ s, the (cells s !! a) s.
Definition store (a v : Z) : slobM unit := λ s,
  match cells s !! a with
  | Some _ => Ok (tt, set_cells (<[a:=v]> (cells s)) s)
  | None => Fault
  end.

Definition get_sp (sp : Z) : slobM slob_page := λ s, the (pages s !! sp) s.
Definition put_sp (sp : Z) (p : slob_page) : slobM unit :=
  modify (λ s, set_pages (<[sp:=p]> (pages s)) s).

Definition sp_set_units (u : Z) (p : slob_page) : slob_page :=
  mk_slob_page (PageSlab p) (PageSlobFree p) u (sp_free p) (sp_mapping p) (sp_private p)
    (sp_count p) (sp_order p) (sp_compound p).
Definition sp_set_free (f : Z) (p : slob_page) : slob_page :=
  mk_slob_page (PageSlab p) (PageSlobFree p) (sp_units p) f (sp_mapping p) (sp_private p)
    (sp_count p) (sp_order p) (sp_compound p).
Definition sp_set_slab (b : bool) (p : slob_page) : slob_page :=
  mk_slob_page b (PageSlobFree p) (sp_units p) (sp_free p) (sp_mapping p) (sp_private p)
    (sp_count p) (sp_order p) (sp_compound p).
Definition sp_set_slobfree (b : bool) (p : slob_page) : slob_page :=
  mk_slob_page (PageSlab p) b (sp_units p) (sp_free p) (sp_mapping p) (sp_private p)
    (sp_count p) (sp_order p) (sp_compound p).

Definition update_sp (sp : Z) (f : slob_page → slob_page) : slobM unit :=
  p ← get_sp sp; put_sp sp (f p).

(** ** Page flags and lists *)

Definition is_slob_page (sp : Z) : slobM bool := p ← get_sp sp; mret (PageSlab p).
Definition set_slob_page (sp : Z) : slobM unit := update_sp sp (sp_set_slab true).
Definition clear_slob_page (sp : Z) : slobM unit := update_sp sp (sp_set_slab false).
Definition slob_page_of (addr : Z) : Z := page_base addr.
Definition slob_page_free (sp : Z) : slobM bool := p ← get_sp sp; mret (PageSlobFree p).

(** [free_slob_page]: [reset_page_mapcount] writes -1 over the word that
    [units] shares with [_mapcount]. *)
Definition free_slob_page (sp : Z) : slobM unit :=
  update_sp sp (λ p, mk_slob_page (PageSlab p) (PageSlobFree p) (-1) (sp_free p) 0
                       (sp_private p) (sp_count p) (sp_order p) (sp_compound p)).

(** [list_add(&sp->list, list)]. *)
Definition page_list_add (sp : Z) (l : slob_list) : slobM unit :=
  modify (λ s, set_lists (λ k, if decide (k = l) then sp :: lists s k else lists s k) s).
(** [list_del(&sp->list)]: the entry leaves whichever list it is on. *)
Definition page_list_del (sp : Z) : slobM unit :=
  modify (λ s, set_lists (λ k, filter (λ q, q ≠ sp) (lists s k)) s).

Definition set_slob_page_free (sp : Z) (l : slob_list) : slobM unit :=
  page_list_add sp l ;; update_sp sp (sp_set_slobfree true).
Definition clear_slob_page_free (sp : Z) : slobM unit :=
  page_list_del sp ;; update_sp sp (sp_set_slobfree false).

(** ** Block encoding *)

(** [p + n] on a [slob_t *]. *)
Definition slob_add (p n : Z) : Z := p + n * SLOB_UNIT.
(** [p - q] on [slob_t *]s. *)
Definition slob_sub (p q : Z) : Z := (p - q) / SLOB_UNIT.

Definition set_slob (s size next : Z) : slobM unit :=
  let size := s16 size in
  let base := page_base s in
  let offset := s16 (slob_sub next base) in
  if 1 <? size then
    store s size ;; store (slob_add s 1) offset
  else
    store s (s16 (- offset)).

Definition slob_units (s : Z) : slobM Z :=
  u ← load s;
  mret (if 0 <? u then u else 1).

Definition slob_next (s : Z) : slobM Z :=
  let base := page_base s in
  u0 ← load s;
  next ← (if u0 <? 0 then mret (s16 (- u0)) else load (slob_add s 1));
  mret (slob_add base next).

Definition slob_last (s : Z) : slobM bool :=
  n ← slob_next s;
  mret (page_offset n =? 0).

(** ** Best-fit allocation inside a page *)

(** The locals of [slob_page_alloc] that record the best block so far. *)
Record best := mk_best {
  best_prev : Z; best_cur : Z; best_aligned : Z; best_delta : Z; best_diff : Z }.
Definition no_best : best := mk_best 0 0 0 0 0.

(** Split [delta] units off the head of the block at [cur], so that the rest
    starts at the aligned address; both searches do it the same way. *)
Definition slob_split_head (prev cur avail aligned delta : Z) : slobM (Z * Z * Z) :=
  if negb (delta =? 0) then
    next ← slob_next cur;
    set_slob aligned (avail - delta) next ;;
    set_slob cur delta aligned ;;
    a ← slob_units aligned;
    mret (cur, aligned, a)
  else mret (prev, cur, avail).

(** [sp->units -= units]; a page without free units leaves its list. *)
Definition slob_charge (sp units : Z) : slobM unit :=
  update_sp sp (λ p, sp_set_units (s16 (sp_units p - units)) p) ;;
  p ← get_sp sp;
  if sp_units p =? 0 then clear_slob_page_free sp else mret tt.

(** Take [units] units from the start of the block at [cur]: unlink it on an
    exact fit, otherwise leave its tail in the list. *)
Definition slob_carve (sp units prev cur avail : Z) : slobM Z :=
  next ← slob_next cur;
  (if avail =? units then
     if negb (prev =? 0) then u ← slob_units prev; set_slob prev u next
     else update_sp sp (sp_set_free next)
   else
     (if negb (prev =? 0) then u ← slob_units prev; set_slob prev u (slob_add cur units)
      else update_sp sp (sp_set_free (slob_add cur units))) ;;
     set_slob (slob_add cur units) (avail - units) next) ;;
  slob_charge sp units ;;
  mret cur.

(** The block run once the end of the free list is reached: allocate from the
    best block found. *)
Definition slob_page_take (sp units : Z) (b : best) : slobM Z :=
  best_avail ← slob_units (best_cur b);
  '(best_prev, best_cur, best_avail) ←
    slob_split_head (best_prev b) (best_cur b) best_avail (best_aligned b) (best_delta b);
  slob_carve sp units best_prev best_cur best_avail.

(** The scan of the page's free list. *)
Fixpoint slob_page_scan (fuel : nat) (sp units align prev cur : Z) (b : best) : slobM Z :=
  match fuel with
  | O => spin
  | S fuel =>
      avail ← slob_units cur;
      let aligned := if align =? 0 then 0 else ALIGN cur align in
      let delta := if align =? 0 then 0 else slob_sub aligned cur in
      let b :=
        if (units + delta <=? avail)
           && ((best_cur b =? 0) || (avail - (units + delta) <? best_diff b))
        then mk_best prev cur aligned delta (s16 (avail - (units + delta)))
        else b in
      last ← slob_last cur;
      if last : bool then
        if negb (best_cur b =? 0) then slob_page_take sp units b else mret 0
      else
        next ← slob_next cur;
        slob_page_scan fuel sp units align cur next b
  end.

(** A page holds at most [SLOB_UNITS PAGE_SIZE] blocks, so this many rounds
    always reach the last one. *)
Definition page_fuel : nat := Z.to_nat (SLOB_UNITS PAGE_SIZE).

Lemma page_fuel_eq : page_fuel = Z.to_nat 2048.
Proof. reflexivity. Qed.
#[global] Opaque page_fuel.

Definition slob_page_alloc (sp size align : Z) : slobM Z :=
  p ← get_sp sp;
  slob_page_scan page_fuel sp (SLOB_UNITS size) align 0 (sp_free p) no_best.

(** ** The first-fit search of the unmodified kernel (mm/slob.c) *)

Fixpoint first_fit_scan (fuel : nat) (sp units align prev cur : Z) : slobM Z :=
  match fuel with
  | O => spin
  | S fuel =>
      avail ← slob_units cur;
      let aligned := if align =? 0 then 0 else ALIGN cur align in
      let delta := if align =? 0 then 0 else slob_sub aligned cur in
      if units + delta <=? avail then
        '(prev, cur, avail) ← slob_split_head prev cur avail aligned delta;
        slob_carve sp units prev cur avail
      else
        last ← slob_last cur;
        if last : bool then mret 0
        else next ← slob_next cur; first_fit_scan fuel sp units align cur next
  end.

Definition slob_page_alloc_first_fit (sp size align : Z) : slobM Z :=
  p ← get_sp sp;
  first_fit_scan page_fuel sp (SLOB_UNITS size) align 0 (sp_free p).

(** ** Addresses *)

Lemma page_offset_mod a : page_offset a = a mod 4096.
Proof. unfold page_offset. change (PAGE_SIZE - 1) with (Z.ones 12). by rewrite Z.land_ones. Qed.

Lemma page_base_sub a : page_base a = a - a mod 4096.
Proof.
  unfold page_base. change (PAGE_SIZE - 1) with (Z.ones 12).
  rewrite <- Z.ldiff_land, Z.ldiff_ones_r by lia.
  rewrite Z.shiftl_mul_pow2, Z.shiftr_div_pow2 by lia. change (2 ^ 12) with 4096.
  pose proof (Z.div_mod a 4096). lia.
Qed.

(** [B] is the address of a page. *)
Definition is_page (B : Z) : Prop := B mod 4096 = 0 ∧ 0 < B ∧ B + 8192 ≤ 2 ^ 32.

Lemma is_page_base B x : is_page B → 0 ≤ x < 4096 → page_base (B + x) = B.
Proof.
  intros [HB _] Hx. rewrite page_base_sub.
  rewrite <- Zplus_mod_idemp_l, HB, Z.add_0_l, Z.mod_small by lia. lia.
Qed.

Lemma is_page_offset B x : is_page B → page_offset (B + x) = x mod 4096.
Proof. intros [HB _]. rewrite page_offset_mod, <- Zplus_mod_idemp_l, HB. f_equal. Qed.

Lemma slob_units_val size : 0 ≤ size < 2 ^ 31 → SLOB_UNITS size = (size + 1) / 2.
Proof.
  intros. unfold SLOB_UNITS, SLOB_UNIT. rewrite u32_id by lia. f_equal. lia.
Qed.

(** ** What the cells of a page encode *)

(** The free block of [n] units at unit offset [o] of the page at [B] is
    encoded in the cells, and its next block is at offset [o']. *)
Definition enc (m : gmap Z Z) (B o n o' : Z) : Prop :=
  if decide (n = 1) then m !! (B + 2 * o) = Some (- o')
  else m !! (B + 2 * o) = Some n ∧ m !! (B + 2 * o + 2) = Some o'.

(** The cells after writing that encoding. *)
Definition put_enc (m : gmap Z Z) (B o n o' : Z) : gmap Z Z :=
  if decide (n = 1) then <[B + 2 * o := - o']> m
  else <[B + 2 * o + 2 := o']> (<[B + 2 * o := n]> m).

(** Free blocks are (offset, units) pairs; [hd_off] is where a list starts. *)
Definition hd_off (bl : list (Z * Z)) (e : Z) : Z :=
  match bl with [] => e | (o, _) :: _ => o end.

(** The blocks [bl] are linked in memory, the last one to offset [e]. *)
Fixpoint linked (m : gmap Z Z) (B : Z) (bl : list (Z * Z)) (e : Z) : Prop :=
  match bl with
  | [] => True
  | (o, n) :: bl' => enc m B o n (hd_off bl' e) ∧ linked m B bl' e
  end.

(** Blocks in address order from [lo], at least [g] units apart, inside the
    page. *)
Fixpoint sorted_blocks (g lo : Z) (bl : list (Z * Z)) : Prop :=
  match bl with
  | [] => True
  | (o, n) :: bl' => lo ≤ o ∧ 1 ≤ n ∧ o + n ≤ 2048 ∧ sorted_blocks g (o + n + g) bl'
  end.

Definition disjoint_block (a b : Z * Z) : Prop :=
  a.1 + a.2 ≤ b.1 ∨ b.1 + b.2 ≤ a.1.

Definition mapped_page (m : gmap Z Z) (B : Z) : Prop :=
  ∀ i, 0 ≤ i < 2048 → is_Some (m !! (B + 2 * i)).

Lemma hd_off_app l1 l2 e : hd_off (l1 ++ l2) e = hd_off l1 (hd_off l2 e).
Proof. by destruct l1 as [|[] ?]. Qed.

Lemma linked_app m B l1 l2 e :
  linked m B (l1 ++ l2) e ↔ linked m B l1 (hd_off l2 e) ∧ linked m B l2 e.
Proof.
  induction l1 as [|[o n] l1 IH]; simpl; [tauto|]. rewrite IH, hd_off_app. tauto.
Qed.

Lemma sorted_blocks_app g lo l1 l2 :
  0 ≤ g → sorted_blocks g lo (l1 ++ l2) ↔
  sorted_blocks g lo l1 ∧
  sorted_blocks g (match last l1 with Some (o, n) => o + n + g | None => lo end) l2.
Proof.
  intros Hg. revert lo. induction l1 as [|[o n] l1 IH]; intros lo; simpl.
  - tauto.
  - rewrite IH. change (match l1 with [] => Some (o, n) | _ :: _ => last l1 end)
      with (last ((o, n) :: l1)). rewrite last_cons. destruct (last l1) as [[]|]; tauto.
Qed.

Lemma sorted_blocks_weaken g g' lo lo' bl :
  sorted_blocks g lo bl → g' ≤ g → lo' ≤ lo → sorted_blocks g' lo' bl.
Proof.
  revert lo lo'. induction bl as [|[o n] bl IH]; intros lo lo'; simpl; [done|].
  intros (? & ? & ? & ?) ? ?. split_and!; [lia..|]. eapply IH; [done|lia..].
Qed.

Lemma sorted_blocks_in g lo bl o n :
  0 ≤ g → sorted_blocks g lo bl → (o, n) ∈ bl → lo ≤ o ∧ 1 ≤ n ∧ o + n ≤ 2048.
Proof.
  intros Hg. revert lo. induction bl as [|[o' n'] bl IH]; intros lo; simpl; [set_solver|].
  intros (? & ? & ? & H) [[= -> ->]|Hin]%elem_of_cons; [lia|].
  specialize (IH _ H Hin). lia.
Qed.

Lemma sorted_blocks_hd g lo bl : 0 ≤ g → sorted_blocks g lo bl → lo ≤ 2048 → lo ≤ hd_off bl 2048 ≤ 2048.
Proof. destruct bl as [|[o n] bl]; simpl; lia. Qed.

(** Distinct blocks of a sorted list are disjoint. *)
Lemma sorted_blocks_disjoint g lo l1 o n l2 b :
  0 ≤ g → sorted_blocks g lo (l1 ++ (o, n) :: l2) → b ∈ l1 ++ l2 → disjoint_block b (o, n).
Proof.
  intros Hg Hs Hb. destruct b as [o' n']. unfold disjoint_block. simpl.
  apply elem_of_app in Hb as [Hb|Hb].
  - left. apply list_elem_of_split in Hb as (k1 & k2 & ->).
    rewrite <- app_assoc in Hs. simpl in Hs.
    apply sorted_blocks_app in Hs as [_ (_ & _ & _ & Hs)]; [|done].
    apply (sorted_blocks_in _ _ _ o n) in Hs; [lia|done|set_solver].
  - right. apply sorted_blocks_app in Hs as [_ (_ & _ & _ & Hs)]; [|done].
    apply (sorted_blocks_in _ _ _ o' n') in Hs; [lia|done|done].
Qed.

(** ** Memory lemmas *)

Lemma enc_put m B o n o' : enc (put_enc m B o n o') B o n o'.
Proof.
  unfold enc, put_enc. case_decide; simplify_map_eq; [done|]. split; [|done].
  rewrite lookup_insert_ne by lia. by simplify_map_eq.
Qed.

Lemma put_enc_lookup_ne m B o n o' x :
  (x < B + 2 * o ∨ B + 2 * (o + n) ≤ x) → 1 ≤ n → put_enc m B o n o' !! x = m !! x.
Proof.
  intros Hx Hn. unfold put_enc. case_decide; subst; rewrite ?lookup_insert_ne by lia; done.
Qed.

Lemma enc_put_ne m B o n o' a k e :
  disjoint_block (a, k) (o, n) → 1 ≤ n → 1 ≤ k → enc m B a k e → enc (put_enc m B o n o') B a k e.
Proof.
  unfold disjoint_block; simpl. intros Hd Hn Hk. unfold enc. case_decide.
  - intros <-. apply put_enc_lookup_ne; lia.
  - intros [<- <-]. split; apply put_enc_lookup_ne; lia.
Qed.

Lemma linked_put m B o n o' bl e :
  linked m B bl e → 1 ≤ n → (∀ b, b ∈ bl → disjoint_block b (o, n) ∧ 1 ≤ b.2) →
  linked (put_enc m B o n o') B bl e.
Proof.
  induction bl as [|[a k] bl IH]; simpl; [done|]. intros [He Hl] Hn Hb. split.
  - destruct (Hb (a, k)) as [? ?]; [set_solver|]. by apply enc_put_ne.
  - apply IH; set_solver.
Qed.

Lemma put_enc_mapped m B o n o' x : is_Some (m !! x) → is_Some (put_enc m B o n o' !! x).
Proof. unfold put_enc. case_decide; rewrite !lookup_insert_is_Some'; tauto. Qed.

Lemma put_enc_dom m B o n o' x :
  mapped_page m B → 0 ≤ o → 1 ≤ n → o + n ≤ 2048 →
  is_Some (put_enc m B o n o' !! x) → is_Some (m !! x).
Proof.
  intros Hm Ho Hn He. unfold put_enc. case_decide.
  - rewrite lookup_insert_is_Some'. intros [<-|?]; [apply Hm; lia|done].
  - rewrite !lookup_insert_is_Some'. intros [<-|[<-|?]]; [|apply Hm; lia|done].
    replace (B + 2 * o + 2) with (B + 2 * (o + 1)) by lia. apply Hm; lia.
Qed.

(** ** Execution of the block primitives *)

Lemma slob_add_off B o k : slob_add (B + 2 * o) k = B + 2 * (o + k).
Proof. unfold slob_add, SLOB_UNIT. lia. Qed.
Lemma slob_add_base B k : slob_add B k = B + 2 * k.
Proof. unfold slob_add, SLOB_UNIT. lia. Qed.
Lemma slob_sub_off B o k : slob_sub (B + 2 * o) (B + 2 * k) = o - k.
Proof.
  unfold slob_sub, SLOB_UNIT. replace (B + 2 * o - (B + 2 * k)) with ((o - k) * 2) by lia.
  apply Z.div_mul. lia.
Qed.
Lemma slob_sub_base B o : slob_sub (B + 2 * o) B = o.
Proof. rewrite <- (Z.add_0_r B) at 2. change 0 with (2 * 0). rewrite slob_sub_off. lia. Qed.

Lemma set_cells_cells m s : cells (set_cells m s) = m.
Proof. done. Qed.

Lemma store_ok s a v : is_Some (cells s !! a) → store a v s = Ok (tt, set_cells (<[a:=v]> (cells s)) s).
Proof. intros [x Hx]. unfold store. by rewrite Hx. Qed.
Lemma load_ok s a v : cells s !! a = Some v → load a s = Ok (v, s).
Proof. intros Hx. unfold load. by rewrite Hx. Qed.

Lemma set_slob_ok s B o n o' :
  is_page B → mapped_page (cells s) B → 0 ≤ o → 1 ≤ n → o + n ≤ 2048 → 0 ≤ o' ≤ 2048 →
  set_slob (B + 2 * o) n (B + 2 * o') s = Ok (tt, set_cells (put_enc (cells s) B o n o') s).
Proof.
  intros HB Hm Ho Hn He Ho'. unfold set_slob, put_enc.
  rewrite is_page_base, slob_sub_base by (done || lia). rewrite !s16_id by (rewrite ?s16_id; lia).
  destruct (Z.ltb_spec 1 n); case_decide; try lia.
  - rewrite (bind_ok _ _ _ _ _ (store_ok _ _ _ (Hm o ltac:(lia)))).
    rewrite slob_add_off. replace (B + 2 * (o + 1)) with (B + 2 * o + 2) by lia.
    rewrite store_ok; [done|]. rewrite set_cells_cells, lookup_insert_ne by lia.
    replace (B + 2 * o + 2) with (B + 2 * (o + 1)) by lia. apply Hm. lia.
  - apply store_ok, Hm. lia.
Qed.

Lemma slob_units_ok s B o n o' :
  enc (cells s) B o n o' → 1 ≤ n → 1 ≤ o' → slob_units (B + 2 * o) s = Ok (n, s).
Proof.
  unfold enc. intros H Hn Ho'. unfold slob_units. case_decide.
  - rewrite (bind_ok _ _ _ _ _ (load_ok _ _ _ H)).
    destruct (Z.ltb_spec 0 (- o')); [lia|]. by subst.
  - destruct H as [H _]. rewrite (bind_ok _ _ _ _ _ (load_ok _ _ _ H)).
    destruct (Z.ltb_spec 0 n); [done|lia].
Qed.

Lemma slob_next_ok s B o n o' :
  is_page B → enc (cells s) B o n o' → 0 ≤ o < 2048 → 1 ≤ n → 1 ≤ o' ≤ 2048 →
  slob_next (B + 2 * o) s = Ok (B + 2 * o', s).
Proof.
  unfold enc. intros HB H Ho Hn Ho'. unfold slob_next. rewrite is_page_base by (done || lia).
  case_decide.
  - rewrite (bind_ok _ _ _ _ _ (load_ok _ _ _ H)). destruct (Z.ltb_spec (- o') 0); [|lia].
    run_step. by rewrite Z.opp_involutive, s16_id, slob_add_base by lia.
  - destruct H as [H1 H2]. rewrite (bind_ok _ _ _ _ _ (load_ok _ _ _ H1)).
    destruct (Z.ltb_spec n 0); [lia|]. rewrite slob_add_off.
    replace (B + 2 * (o + 1)) with (B + 2 * o + 2) by lia.
    rewrite (bind_ok _ _ _ _ _ (load_ok _ _ _ H2)). by rewrite slob_add_base.
Qed.

Lemma slob_last_ok s B o n o' :
  is_page B → enc (cells s) B o n o' → 0 ≤ o < 2048 → 1 ≤ n → 1 ≤ o' ≤ 2048 →
  slob_last (B + 2 * o) s = Ok (o' =? 2048, s).
Proof.
  intros HB H Ho Hn Ho'. unfold slob_last.
  erewrite bind_ok by (eapply slob_next_ok; eauto).
  unfold mret, cmd_ret. do 2 f_equal. rewrite is_page_offset by done.
  destruct (Z.eqb_spec o' 2048) as [->|]; [done|].
  rewrite Z.mod_small by lia. by apply Z.eqb_neq; lia.
Qed.

(** ** Carving a block out of the free list *)

Definition in_block (B : Z) (b : Z * Z) (x : Z) : Prop := B + 2 * b.1 ≤ x < B + 2 * (b.1 + b.2).
(** Address [x] lies in one of the free blocks. *)
Definition free_cell (B : Z) (bl : list (Z * Z)) (x : Z) : Prop := ∃ b, b ∈ bl ∧ in_block B b x.

(** Memory changed only inside the free blocks [bl] of page [B]. *)
Definition frame (B : Z) (bl : list (Z * Z)) (m m' : gmap Z Z) : Prop :=
  (∀ x, ¬ free_cell B bl x → m' !! x = m !! x) ∧
  (∀ x, is_Some (m' !! x) ↔ is_Some (m !! x)).

Definition prev_addr (B : Z) (l : list (Z * Z)) : Z :=
  match last l with Some (o, _) => B + 2 * o | None => 0 end.

Lemma frame_refl B bl m : frame B bl m m.
Proof. split; done. Qed.
Lemma frame_trans B bl m1 m2 m3 : frame B bl m1 m2 → frame B bl m2 m3 → frame B bl m1 m3.
Proof. intros [H1 D1] [H2 D2]. split; intros x; [intros; rewrite H2, H1; done|]. by rewrite D2. Qed.
Lemma frame_mono B bl bl' m m' :
  (∀ x, free_cell B bl x → free_cell B bl' x) → frame B bl m m' → frame B bl' m m'.
Proof. intros Hi [H D]. split; [|done]. intros x Hx. apply H. auto. Qed.

Lemma frame_mapped B bl m m' B' : frame B bl m m' → mapped_page m B' → mapped_page m' B'.
Proof. intros [_ D] Hm i Hi. apply D. auto. Qed.

Lemma frame_put B bl b m o n e :
  mapped_page m B → 0 ≤ o → 1 ≤ n → o + n ≤ 2048 →
  b ∈ bl → b.1 ≤ o → o + n ≤ b.1 + b.2 →
  frame B bl m (put_enc m B o n e).
Proof.
  intros Hm Ho Hn He Hb H1 H2. split; intros x.
  - intros Hx. apply put_enc_lookup_ne; [|done].
    destruct (decide (x < B + 2 * o ∨ B + 2 * (o + n) ≤ x)) as [?|Hc]; [done|].
    exfalso. apply Hx. exists b. split; [done|]. unfold in_block. lia.
  - split; [by apply put_enc_dom | apply put_enc_mapped].
Qed.

Lemma sorted_mid l1 o n l2 :
  sorted_blocks 0 0 (l1 ++ (o, n) :: l2) → 0 ≤ o ∧ 1 ≤ n ∧ o + n ≤ 2048 ∧
  o + n ≤ hd_off l2 2048 ≤ 2048.
Proof.
  intros Hs. pose proof Hs as Hs'.
  apply (sorted_blocks_in _ _ _ o n) in Hs' as (? & ? & ?); [|lia|set_solver].
  apply sorted_blocks_app in Hs as [_ (_ & _ & _ & Hs)]; [|lia].
  apply sorted_blocks_hd in Hs; lia.
Qed.

Lemma linked_mid m B l1 o n l2 e :
  linked m B (l1 ++ (o, n) :: l2) e → enc m B o n (hd_off l2 e).
Proof. rewrite linked_app. simpl. tauto. Qed.

Lemma slob_split_head_ok s B l1 o n l2 d aligned :
  is_page B → mapped_page (cells s) B →
  linked (cells s) B (l1 ++ (o, n) :: l2) 2048 → sorted_blocks 0 0 (l1 ++ (o, n) :: l2) →
  0 ≤ d < n → (d ≠ 0 → aligned = B + 2 * (o + d)) →
  let l1' := if decide (d = 0) then l1 else l1 ++ [(o, d)] in
  ∃ m', slob_split_head (prev_addr B l1) (B + 2 * o) n aligned d s =
          Ok (prev_addr B l1', B + 2 * (o + d), n - d, set_cells m' s) ∧
        linked m' B (l1' ++ (o + d, n - d) :: l2) 2048 ∧
        sorted_blocks 0 0 (l1' ++ (o + d, n - d) :: l2) ∧
        frame B [(o, n)] (cells s) m'.
Proof.
  intros HB Hm Hl Hs Hd Ha l1'. unfold slob_split_head, l1'.
  pose proof (sorted_mid _ _ _ _ Hs) as (Ho & Hn & Hon & Hnx).
  pose proof (linked_mid _ _ _ _ _ _ _ Hl) as He.
  destruct (Z.eqb_spec d 0) as [->|Hd0]; simpl.
  - exists (cells s).
    rewrite Z.add_0_r, Z.sub_0_r. split_and!; [by destruct s|done..|apply frame_refl].
  - rewrite decide_False, (Ha Hd0) by done.
    erewrite bind_ok by (eapply slob_next_ok; eauto; lia).
    erewrite bind_ok by (eapply set_slob_ok; eauto; lia).
    assert (frame B [(o, n)] (cells s) (put_enc (cells s) B (o + d) (n - d) (hd_off l2 2048))) as F1.
    { apply (frame_put B _ (o, n)); simpl; try done; try lia. set_solver. }
    assert (mapped_page (put_enc (cells s) B (o + d) (n - d) (hd_off l2 2048)) B) as Hm1
      by by eapply frame_mapped.
    erewrite bind_ok by (eapply set_slob_ok; simpl; eauto; lia). simpl.
    set (m1 := put_enc (cells s) B (o + d) (n - d) (hd_off l2 2048)) in *.
    assert (frame B [(o, n)] m1 (put_enc m1 B o d (o + d))) as F2.
    { apply (frame_put B _ (o, n)); simpl; try done; try lia. set_solver. }
    assert (enc (put_enc m1 B o d (o + d)) B (o + d) (n - d) (hd_off l2 2048)) as He'.
    { apply enc_put_ne; [right; simpl; lia|lia..|]. apply enc_put. }
    erewrite bind_ok by (eapply slob_units_ok; simpl; eauto; lia).
    exists (put_enc m1 B o d (o + d)). split_and!.
    + unfold prev_addr. by rewrite last_snoc.
    + rewrite <- app_assoc. simpl.
      assert (∀ b, b ∈ l1 ++ l2 → disjoint_block b (o, n) ∧ 1 ≤ b.2) as Hdis.
      { intros [o' n'] Hb. split; [by eapply sorted_blocks_disjoint; [|exact Hs|]|].
        apply (sorted_blocks_in _ _ _ o' n') in Hs; [simpl; lia|lia|set_solver]. }
      apply linked_app in Hl as [Hl1 [_ Hl2]]. apply linked_app. simpl in *.
      split; [|split; [apply enc_put|split; [done|]]].
      all: apply linked_put; [|lia|].
      1,3: apply linked_put; [done|lia|].
      all: intros b Hb; destruct (Hdis b) as [Hdb ?]; [set_solver|]; split; [|done];
        unfold disjoint_block in *; simpl in *; lia.
    + apply sorted_blocks_app in Hs as [Hs1 Hs2]; [|lia]. simpl in Hs2.
      rewrite <- app_assoc. simpl. apply sorted_blocks_app; [lia|]. split; [done|]. simpl.
      destruct Hs2 as (? & ? & ? & ?). split_and!; [lia..|]. eapply sorted_blocks_weaken; [done|lia..].
    + by eapply frame_trans.
Qed.

(** The state once [u] units have been taken from page [sp]: new cells [m'],
    first free block at [f']. *)
Definition page_after (pg : slob_page) (u f' : Z) : slob_page :=
  let p := sp_set_units (s16 (sp_units pg - u)) (sp_set_free f' pg) in
  if sp_units p =? 0 then sp_set_slobfree false p else p.

Definition alloc_state (s : slob) (sp : Z) (pg : slob_page) (u f' : Z) (m' : gmap Z Z) : slob :=
  mk_slob m' (<[sp := page_after pg u f']> (pages s))
    (if s16 (sp_units pg - u) =? 0 then λ k, filter (λ q, q ≠ sp) (lists s k) else lists s)
    (mem_used s) (mem_claimed s) (reclaim_state s) (slob_ready s).

Lemma get_sp_ok s sp pg : pages s !! sp = Some pg → get_sp sp s = Ok (pg, s).
Proof. intros H. unfold get_sp. by rewrite H. Qed.

Lemma update_sp_ok s sp pg f :
  pages s !! sp = Some pg → update_sp sp f s = Ok (tt, set_pages (<[sp := f pg]> (pages s)) s).
Proof. intros H. unfold update_sp. by erewrite bind_ok by by apply get_sp_ok. Qed.

Lemma slob_charge_ok s sp pg u :
  pages s !! sp = Some pg →
  slob_charge sp u s = Ok (tt, alloc_state s sp pg u (sp_free pg) (cells s)).
Proof.
  intros H. unfold slob_charge. erewrite bind_ok by by apply update_sp_ok.
  erewrite bind_ok by (apply get_sp_ok; simpl; apply lookup_insert_eq). simpl.
  unfold alloc_state, page_after. simpl.
  assert (sp_set_free (sp_free pg) pg = pg) as -> by by destruct pg.
  destruct (s16 (sp_units pg - u) =? 0); [|done].
  unfold clear_slob_page_free, page_list_del. run_step.
  erewrite update_sp_ok by (simpl; apply lookup_insert_eq). simpl.
  unfold set_pages. simpl. by rewrite insert_insert_eq.
Qed.

(** The write that makes the predecessor of a block (the last of [l1], or the
    page) point to offset [e] instead. *)
Definition slob_link (sp prev e : Z) : slobM unit :=
  if negb (prev =? 0) then w ← slob_units prev; set_slob prev w e
  else update_sp sp (sp_set_free e).

Lemma sorted_app_disjoint l1 o n l2 b :
  sorted_blocks 0 0 (l1 ++ (o, n) :: l2) → b ∈ l1 ++ l2 → disjoint_block b (o, n) ∧ 1 ≤ b.2.
Proof.
  intros Hs Hb. destruct b as [o' n']. split; [by eapply sorted_blocks_disjoint; [|exact Hs|]|].
  apply (sorted_blocks_in _ _ _ o' n') in Hs; [simpl; lia|lia|set_solver].
Qed.

Lemma slob_link_ok s B l1 o n l2 e sp pg :
  is_page B → mapped_page (cells s) B →
  linked (cells s) B (l1 ++ (o, n) :: l2) 2048 → sorted_blocks 0 0 (l1 ++ (o, n) :: l2) →
  pages s !! sp = Some pg → sp_free pg = B + 2 * hd_off (l1 ++ (o, n) :: l2) 2048 →
  o ≤ e ≤ 2048 →
  ∃ m1,
    slob_link sp (prev_addr B l1) (B + 2 * e) s =
      Ok (tt, set_pages (<[sp := sp_set_free (B + 2 * hd_off l1 e) pg]> (pages s)) (set_cells m1 s)) ∧
    linked m1 B l1 e ∧ linked m1 B l2 2048 ∧ frame B l1 (cells s) m1.
Proof.
  intros HB Hm Hl Hs Hpg Hf He. pose proof HB as (_ & HB0 & _). unfold slob_link.
  pose proof (sorted_mid _ _ _ _ Hs) as (Ho & Hn & Hon & _).
  apply linked_app in Hl as [Hl1 [_ Hl2]].
  destruct (last_cases l1) as [->|(k & [po pn] & ->)].
  { simpl in *. exists (cells s). erewrite update_sp_ok by done.
    split_and!; [by destruct s|done|done|apply frame_refl]. }
  unfold prev_addr in *. rewrite last_snoc in *. simpl.
  apply linked_app in Hl1 as [Hk [Hp _]]. simpl in Hk, Hp.
  rewrite <- app_assoc in Hs. cbn [app] in Hs.
  assert (∀ b, b ∈ k ++ (o, n) :: l2 → disjoint_block b (po, pn) ∧ 1 ≤ b.2) as Hdis.
  { intros b. by apply sorted_app_disjoint. }
  pose proof (sorted_mid _ _ _ _ Hs) as Hpo. cbn [hd_off] in Hpo.
  destruct (Z.eqb_spec (B + 2 * po) 0); [lia|]. simpl.
  erewrite bind_ok by (eapply slob_units_ok; eauto; lia).
  rewrite set_slob_ok by (done || lia). eexists. split_and!.
  - do 2 f_equal. unfold set_pages, set_cells. simpl. f_equal. symmetry. apply insert_id.
    rewrite Hpg. f_equal. destruct pg; simpl in *. rewrite Hf. unfold sp_set_free. simpl.
    f_equal. rewrite !hd_off_app. by destruct k as [|[] ?].
  - apply linked_app. split; [|split; [apply enc_put|done]]. apply linked_put; [done|lia|]. set_solver.
  - apply linked_put; [done|lia|]. set_solver.
  - apply (frame_put B _ (po, pn)); simpl; try done; try lia. set_solver.
Qed.

Lemma slob_carve_ok s B l1 o n l2 u sp pg :
  is_page B → mapped_page (cells s) B →
  linked (cells s) B (l1 ++ (o, n) :: l2) 2048 → sorted_blocks 0 0 (l1 ++ (o, n) :: l2) →
  1 ≤ u ≤ n → pages s !! sp = Some pg → sp_free pg = B + 2 * hd_off (l1 ++ (o, n) :: l2) 2048 →
  let bl' := l1 ++ (if decide (n = u) then l2 else (o + u, n - u) :: l2) in
  ∃ m', slob_carve sp u (prev_addr B l1) (B + 2 * o) n s =
          Ok (B + 2 * o, alloc_state s sp pg u (B + 2 * hd_off bl' 2048) m') ∧
        linked m' B bl' 2048 ∧
        frame B (l1 ++ [(o, n)]) (cells s) m'.
Proof.
  intros HB Hm Hl Hs Hu Hpg Hf bl'. unfold slob_carve.
  pose proof (sorted_mid _ _ _ _ Hs) as (Ho & Hn & Hon & Hnx).
  pose proof (slob_link_ok s B l1 o n l2) as Hlink. unfold slob_link in Hlink.
  erewrite bind_ok by (eapply slob_next_ok; [done|by eapply linked_mid|lia..]).
  destruct (Z.eqb_spec n u) as [->|Hne].
  - (* exact fit *)
    unfold bl'. rewrite decide_True by done.
    destruct (Hlink (hd_off l2 2048) sp pg) as (m1 & E & L1 & L2 & F); [done..|lia|].
    rewrite (bind_ok _ _ _ _ _ E). erewrite bind_ok by (apply slob_charge_ok, lookup_insert_eq).
    exists m1. split_and!.
    + unfold mret, cmd_ret, alloc_state. simpl. by rewrite insert_insert_eq, hd_off_app.
    + by apply linked_app.
    + eapply frame_mono; [|done]. intros x (b & ? & ?). exists b. set_solver.
  - (* fragment *)
    unfold bl'. rewrite decide_False by done. rewrite slob_add_off.
    destruct (Hlink (o + u) sp pg) as (m1 & E & L1 & L2 & F); [done..|lia|].
    assert (mapped_page m1 B) as Hm1 by by eapply frame_mapped.
    erewrite bind_ok; [|erewrite bind_ok by exact E; apply set_slob_ok; done || lia]. simpl.
    erewrite bind_ok by (apply slob_charge_ok, lookup_insert_eq).
    eexists. split_and!.
    + unfold mret, cmd_ret, alloc_state. simpl. by rewrite insert_insert_eq, hd_off_app.
    + apply linked_app. simpl. split; [|split; [apply enc_put|]]; apply linked_put; try done; try lia.
      all: intros b Hb; destruct (sorted_app_disjoint l1 o n l2 b Hs) as [Hdb ?]; [set_solver|];
        split; [|done]; unfold disjoint_block in *; simpl in *; lia.
    + eapply frame_trans; [eapply frame_mono; [|done]; intros x (b & ? & ?); exists b; set_solver|].
      apply (frame_put B _ (o, n)); simpl; try done; try lia. set_solver.
Qed.

(** ** The best-fit search *)

(** Alignments the callers pass: none, or a power of two up to the page size. *)
Definition valid_align (align : Z) : Prop := align = 0 ∨ ∃ k, 0 ≤ k ≤ 12 ∧ align = 2 ^ k.

Lemma align_val x k : 0 ≤ k ≤ 12 → 0 ≤ x → x + 4096 ≤ 2 ^ 32 →
  ALIGN x (2 ^ k) = (x + (2 ^ k - 1)) - (x + (2 ^ k - 1)) mod 2 ^ k.
Proof.
  intros Hk Hx Hb. unfold ALIGN.
  assert (2 ^ k ≤ 2 ^ 12) by (apply Z.pow_le_mono_r; lia).
  assert (0 < 2 ^ k) by (apply Z.pow_pos_nonneg; lia).
  rewrite u32_id by lia.
  assert (2 ^ k - 1 = Z.ones k) as E by (rewrite Z.ones_equiv; lia).
  rewrite E at 2. rewrite <- Z.ldiff_land, Z.ldiff_ones_r by lia.
  rewrite Z.shiftl_mul_pow2, Z.shiftr_div_pow2 by lia.
  pose proof (Z.div_mod (x + (2 ^ k - 1)) (2 ^ k)). lia.
Qed.

(** The units skipped at the head of the block at offset [o] to align it. *)
Definition delta_of (B align o : Z) : Z :=
  if align =? 0 then 0 else slob_sub (ALIGN (B + 2 * o) align) (B + 2 * o).

Lemma delta_fold B align o :
  (if align =? 0 then 0
   else slob_sub (if align =? 0 then 0 else ALIGN (B + 2 * o) align) (B + 2 * o)) =
  delta_of B align o.
Proof. unfold delta_of. by destruct (align =? 0). Qed.

Lemma delta_spec B align o :
  is_page B → valid_align align → 0 ≤ o ≤ 2048 →
  0 ≤ delta_of B align o ∧
  (align ≠ 0 → ALIGN (B + 2 * o) align = B + 2 * (o + delta_of B align o) ∧
               (B + 2 * (o + delta_of B align o)) mod align = 0).
Proof.
  intros (HB & HB0 & HB1) Ha Ho. unfold delta_of.
  destruct (Z.eqb_spec align 0) as [->|Hne]; [done|].
  destruct Ha as [?|(k & Hk & ->)]; [done|].
  pose proof (align_val (B + 2 * o) k) as E. rewrite E by lia. clear E.
  set (x := B + 2 * o). set (A := 2 ^ k) in *.
  assert (0 < A) by (apply Z.pow_pos_nonneg; lia).
  pose proof (Z.mod_pos_bound (x + (A - 1)) A).
  set (r := (x + (A - 1)) mod A) in *.
  assert ((x + (A - 1) - r) mod A = 0) as Hr.
  { unfold r. rewrite Zminus_mod_idemp_r, Z.sub_diag. apply Z.mod_0_l. lia. }
  assert (∃ q, x + (A - 1) - r = x + 2 * q) as [q Hq].
  { (* both ends are even, or the alignment is 1 *)
    assert (x mod 2 = 0) as Hx.
    { unfold x. rewrite Z.mul_comm, Z_mod_plus_full.
      rewrite (Z.div_mod B 4096), HB by lia. replace (4096 * (B / 4096) + 0) with (B / 4096 * 2048 * 2) by lia.
      apply Z_mod_mult. }
    destruct (decide (k = 0)) as [->|].
    - exists 0. change A with 1 in *. lia.
    - assert ((x + (A - 1) - r) mod 2 = 0) as He.
      { apply Z.mod_divide in Hr as [c Hc]; [|lia]. rewrite Hc.
        unfold A. replace k with (Z.succ (k - 1)) by lia.
        rewrite Z.pow_succ_r by lia. replace (c * (2 * 2 ^ (k - 1))) with (c * 2 ^ (k - 1) * 2) by lia.
        apply Z_mod_mult. }
      apply Z.mod_divide in Hx as [c Hc]; [|lia]. apply Z.mod_divide in He as [e Hc']; [|lia].
      exists (e - c). lia. }
  assert (slob_sub (x + (A - 1) - r) x = q) as Eq.
  { rewrite Hq. unfold x. replace (B + 2 * o + 2 * q) with (B + 2 * (o + q)) by lia.
    rewrite slob_sub_off. lia. }
  rewrite Eq. split; [lia|]. intros _. unfold x in *.
  replace (B + 2 * (o + q)) with (B + 2 * o + 2 * q) by lia. split; [lia|]. by rewrite <- Hq.
Qed.

Lemma aligned_eq B align o :
  is_page B → valid_align align → 0 ≤ o ≤ 2048 → delta_of B align o ≠ 0 →
  (if align =? 0 then 0 else ALIGN (B + 2 * o) align) = B + 2 * (o + delta_of B align o).
Proof.
  intros HB Ha Ho Hd. destruct (Z.eqb_spec align 0) as [->|]; [done|]. by apply delta_spec.
Qed.

(** A block has room for [units] units once aligned. *)
Definition fits (B units align : Z) (b : Z * Z) : Prop :=
  units + delta_of B align b.1 ≤ b.2.
(** What the allocation would leave of the block. *)
Definition waste (B units align : Z) (b : Z * Z) : Z := b.2 - (units + delta_of B align b.1).

(** [b] holds the first block of least waste among those scanned. *)
Definition best_of (B units align : Z) (bl : list (Z * Z)) (b : best) : Prop :=
  (b = no_best ∧ ∀ x, x ∈ bl → ¬ fits B units align x) ∨
  (∃ l1 o n l2, bl = l1 ++ (o, n) :: l2 ∧ fits B units align (o, n) ∧
     b = mk_best (prev_addr B l1) (B + 2 * o) (if align =? 0 then 0 else ALIGN (B + 2 * o) align)
           (delta_of B align o) (waste B units align (o, n)) ∧
     (∀ x, x ∈ l1 → fits B units align x → waste B units align (o, n) < waste B units align x) ∧
     (∀ x, x ∈ l2 → fits B units align x → waste B units align (o, n) ≤ waste B units align x)).

Lemma best_of_cur B units align bl b :
  is_page B → sorted_blocks 0 0 bl → best_of B units align bl b →
  best_cur b = 0 ↔ b = no_best.
Proof.
  intros (_ & HB & _) Hs [[-> _]|(l1 & o & n & l2 & -> & _ & -> & _)]; simpl; [done|].
  apply sorted_mid in Hs. split; [lia|]. by intros [= _ ? _ _ _].
Qed.

Lemma best_of_snoc B units align bl o n b :
  is_page B → valid_align align → 0 ≤ units → sorted_blocks 0 0 (bl ++ [(o, n)]) →
  best_of B units align bl b →
  best_of B units align (bl ++ [(o, n)])
    (if (units + delta_of B align o <=? n)
        && ((best_cur b =? 0) || (n - (units + delta_of B align o) <? best_diff b))
     then mk_best (prev_addr B bl) (B + 2 * o) (if align =? 0 then 0 else ALIGN (B + 2 * o) align)
            (delta_of B align o) (s16 (n - (units + delta_of B align o)))
     else b).
Proof.
  intros HB Ha Hu Hs Hb.
  pose proof (sorted_mid _ _ _ _ Hs) as (Ho & Hn & Hon & _).
  destruct (delta_spec B align o) as [Hd _]; [done..|lia|].
  assert (sorted_blocks 0 0 bl) as Hsb by by apply sorted_blocks_app in Hs as [? _]; [|lia].
  destruct (Z.leb_spec (units + delta_of B align o) n) as [Hfit|Hfit]; simpl.
  - (* the new block has room *)
    destruct Hb as [[-> Hno]|(l1 & o' & n' & l2 & -> & Hf & -> & H1 & H2)]; simpl.
    + right. exists bl, o, n, []. split_and!; try done.
      * unfold waste. simpl. rewrite s16_id by lia. done.
      * intros x Hx Hf. by apply Hno in Hf.
      * set_solver.
    + assert (B + 2 * o' =? 0 = false) as ->.
      { apply Z.eqb_neq. apply sorted_mid in Hsb. destruct HB as (_ & ? & _). lia. }
      simpl. destruct (Z.ltb_spec (n - (units + delta_of B align o)) (waste B units align (o', n'))) as [Hlt|Hge].
      * right. exists (l1 ++ (o', n') :: l2), o, n, []. split_and!; try done.
        -- unfold waste. simpl. rewrite s16_id by lia. done.
        -- intros x Hx Hfx.
           change (n - (units + delta_of B align o)) with (waste B units align (o, n)) in Hlt.
           eapply Z.lt_le_trans; [exact Hlt|].
           apply elem_of_app in Hx as [Hx|[->|Hx]%elem_of_cons]; [|lia|auto].
           specialize (H1 _ Hx Hfx). lia.
        -- set_solver.
      * right. exists l1, o', n', (l2 ++ [(o, n)]). split_and!; try done.
        -- by rewrite <- app_assoc.
        -- intros x [Hx|Hx]%elem_of_app Hfx; [auto|].
           apply list_elem_of_singleton in Hx as ->. exact Hge.
  - (* it has not *)
    assert (¬ fits B units align (o, n)) as Hnf by (unfold fits; simpl; lia).
    destruct Hb as [[-> Hno]|(l1 & o' & n' & l2 & -> & Hf & -> & H1 & H2)].
    + left. split; [done|]. intros x [Hx|Hx]%elem_of_app; [auto|].
      by apply list_elem_of_singleton in Hx as ->.
    + right. exists l1, o', n', (l2 ++ [(o, n)]). split_and!; try done.
      * by rewrite <- app_assoc.
      * intros x [Hx|Hx]%elem_of_app Hfx; [auto|]. by apply list_elem_of_singleton in Hx as ->.
Qed.

(** The scan reaches the end of the free list, with enough fuel for its
    length, and then allocates from the best block. *)
Lemma slob_page_scan_ok s B sp units align bl :
  is_page B → valid_align align → 0 ≤ units →
  linked (cells s) B bl 2048 → sorted_blocks 0 0 bl →
  ∀ fuel rest sofar b, bl = sofar ++ rest → rest ≠ [] → (length rest ≤ fuel)%nat →
  best_of B units align sofar b →
  ∃ b', best_of B units align bl b' ∧
    slob_page_scan fuel sp units align (prev_addr B sofar) (B + 2 * hd_off rest 2048) b s =
    if negb (best_cur b' =? 0) then slob_page_take sp units b' s else Ok (0, s).
Proof.
  intros HB Ha Hu Hl Hs fuel. induction fuel as [|fuel IH]; intros rest sofar b Ebl Hr Hlen Hb.
  { destruct rest; simpl in *; [done|lia]. }
  destruct rest as [|[o n] rest]; [done|]. simpl in Hlen. cbn [hd_off slob_page_scan].
  rewrite Ebl in Hl, Hs. pose proof (linked_mid _ _ _ _ _ _ _ Hl) as He.
  pose proof (sorted_mid _ _ _ _ Hs) as (Ho & Hn & Hon & Hnx).
  erewrite bind_ok by (eapply slob_units_ok; eauto; lia).
  cbv zeta. rewrite delta_fold.
  assert (best_of B units align (sofar ++ [(o, n)])
    (if (units + delta_of B align o <=? n)
        && ((best_cur b =? 0) || (n - (units + delta_of B align o) <? best_diff b))
     then mk_best (prev_addr B sofar) (B + 2 * o) (if align =? 0 then 0 else ALIGN (B + 2 * o) align)
            (delta_of B align o) (s16 (n - (units + delta_of B align o)))
     else b)) as Hb'.
  { apply best_of_snoc; try done. rewrite app_snoc_cons in Hs.
    by apply sorted_blocks_app in Hs as [? _]. }
  revert Hb'. generalize (if (units + delta_of B align o <=? n)
        && ((best_cur b =? 0) || (n - (units + delta_of B align o) <? best_diff b))
     then mk_best (prev_addr B sofar) (B + 2 * o) (if align =? 0 then 0 else ALIGN (B + 2 * o) align)
            (delta_of B align o) (s16 (n - (units + delta_of B align o)))
     else b) as b1. intros b1 Hb1.
  erewrite bind_ok by (eapply slob_last_ok; eauto; lia).
  destruct rest as [|[o2 n2] rest]; simpl in Hnx; cbn [hd_off].
  - exists b1. split; [by rewrite Ebl|]. rewrite Z.eqb_refl. by destruct (best_cur b1 =? 0).
  - assert (o2 =? 2048 = false) as ->.
    { rewrite app_snoc_cons in Hs. apply sorted_mid in Hs. apply Z.eqb_neq. lia. }
    erewrite bind_ok by (eapply slob_next_ok; eauto; simpl; lia). simpl hd_off in *.
    destruct (IH ((o2, n2) :: rest) (sofar ++ [(o, n)]) b1) as (b' & Hb' & E); try done.
    + by rewrite Ebl, <- app_assoc.
    + simpl in *. lia.
    + exists b'. split; [done|]. rewrite <- E. f_equal. unfold prev_addr. by rewrite last_snoc.
Qed.

(** ** [slob_page_alloc] on a well-formed page *)

(** Page [B], described by [pg], has exactly the free blocks [bl]: they are
    linked in its cells in address order, no two of them touch, and the
    counters of the page agree with them. *)
Record page_wf (s : slob) (B : Z) (pg : slob_page) (bl : list (Z * Z)) : Prop := {
  wf_page : is_page B;
  wf_mapped : mapped_page (cells s) B;
  wf_desc : pages s !! B = Some pg;
  wf_linked : linked (cells s) B bl 2048;
  wf_sorted : sorted_blocks 1 0 bl;
  wf_free : sp_free pg = B + 2 * hd_off bl 2048;
  wf_units : sp_units pg = sumZ (bl.*2)
}.

(** The free blocks after taking [u] units at distance [d] from the start of
    block [(o, n)]. *)
Definition carved (l1 : list (Z * Z)) (o n : Z) (l2 : list (Z * Z)) (d u : Z) : list (Z * Z) :=
  (if decide (d = 0) then l1 else l1 ++ [(o, d)]) ++
  (if decide (n - d = u) then l2 else (o + d + u, n - d - u) :: l2).

Lemma sorted_blocks_length g lo bl :
  0 ≤ g → sorted_blocks g lo bl → lo ≤ 2048 → Z.of_nat (length bl) ≤ 2048 - lo.
Proof.
  intros Hg. revert lo. induction bl as [|[o n] bl IH]; intros lo; simpl; [lia|].
  intros (? & ? & ? & Hs) ?. destruct bl as [|[o' n'] bl]; [simpl; lia|].
  specialize (IH (o + n) ltac:(by eapply sorted_blocks_weaken; [exact Hs|lia..])).
  simpl in *. lia.
Qed.

Lemma sorted_blocks_sum g lo bl :
  0 ≤ g → sorted_blocks g lo bl → lo ≤ 2048 → 0 ≤ sumZ (bl.*2) ≤ 2048 - lo.
Proof.
  intros Hg. revert lo. induction bl as [|[o n] bl IH]; intros lo; csimpl; [lia|].
  intros (? & ? & ? & Hs) ?.
  specialize (IH (o + n) ltac:(by eapply sorted_blocks_weaken; [exact Hs|lia..]) ltac:(lia)).
  lia.
Qed.

Lemma sorted_blocks_ge g lo lo' bl :
  sorted_blocks g lo bl → (∀ b, b ∈ bl → lo' ≤ b.1) → sorted_blocks g lo' bl.
Proof.
  destruct bl as [|[o n] bl]; simpl; [done|]. intros (? & ? & ? & ?) Hb.
  split_and!; [apply (Hb (o, n)); set_solver|done..].
Qed.

Lemma carved_sorted g l1 o n l2 d u :
  0 ≤ g → g ≤ 1 → 0 ≤ d → 1 ≤ u → d + u ≤ n → sorted_blocks g 0 (l1 ++ (o, n) :: l2) →
  sorted_blocks g 0 (carved l1 o n l2 d u).
Proof.
  intros Hg Hg1 Hd Hu Hn Hs. apply sorted_blocks_app in Hs as [Hs1 Hs2]; [|done]. simpl in Hs2.
  destruct Hs2 as (Ho & Hn1 & Hon & Hs2).
  assert (∀ lo, lo ≤ o + d + u → sorted_blocks g lo
    (if decide (n - d = u) then l2 else (o + d + u, n - d - u) :: l2)) as Htail.
  { intros lo Hlo. case_decide.
    - eapply sorted_blocks_weaken; [done|lia..].
    - simpl. split_and!; [lia..|]. eapply sorted_blocks_weaken; [done|lia..]. }
  unfold carved. apply sorted_blocks_app; [done|]. destruct (decide (d = 0)).
  - split; [done|]. subst d. destruct (last l1) as [[]|]; apply Htail; lia.
  - rewrite last_snoc. split; [|apply Htail; lia]. apply sorted_blocks_app; [done|].
    split; [done|]. simpl. split_and!; [lia..|done].
Qed.

Lemma carved_sum l1 o n l2 d u :
  sumZ ((carved l1 o n l2 d u).*2) = sumZ ((l1 ++ (o, n) :: l2).*2) - u.
Proof.
  unfold carved. do 2 case_decide; rewrite !fmap_app, !sumZ_app; csimpl; lia.
Qed.

Lemma free_cell_app B l1 l2 x : free_cell B (l1 ++ l2) x ↔ free_cell B l1 x ∨ free_cell B l2 x.
Proof. unfold free_cell. set_solver. Qed.
Lemma free_cell_cons B b l x : free_cell B (b :: l) x ↔ in_block B b x ∨ free_cell B l x.
Proof. unfold free_cell. set_solver. Qed.
Lemma free_cell_nil B x : free_cell B [] x ↔ False.
Proof. unfold free_cell. set_solver. Qed.

Lemma free_cell_disjoint B bl b x :
  (∀ c, c ∈ bl → disjoint_block c b) → free_cell B bl x → in_block B b x → False.
Proof.
  intros Hd (c & Hc & Hx) Hb. specialize (Hd _ Hc).
  unfold disjoint_block, in_block in *. lia.
Qed.

(** Exactly the cells of the allocated units stop being free. *)
Lemma carved_free B l1 o n l2 d u x :
  0 ≤ d → 1 ≤ u → d + u ≤ n → sorted_blocks 0 0 (l1 ++ (o, n) :: l2) →
  free_cell B (carved l1 o n l2 d u) x ↔
  free_cell B (l1 ++ (o, n) :: l2) x ∧ ¬ in_block B (o + d, u) x.
Proof.
  intros Hd Hu Hn Hs.
  assert (free_cell B (l1 ++ l2) x → in_block B (o, n) x → False) as Hdis.
  { apply free_cell_disjoint. intros c Hc. by eapply sorted_blocks_disjoint; [|exact Hs|]. }
  rewrite free_cell_app in Hdis. unfold carved.
  repeat case_decide; rewrite !free_cell_app, ?free_cell_cons, ?free_cell_nil;
    unfold in_block in *; simpl in *; (split; [|naive_solver lia]);
    intros Hx; (split; [naive_solver lia|]); intros Hb; naive_solver lia.
Qed.

(** Splitting and carving together, as both searches use them. *)
Lemma split_carve_ok s B pg l1 o n l2 d u aligned :
  page_wf s B pg (l1 ++ (o, n) :: l2) →
  0 ≤ d → 1 ≤ u → d + u ≤ n → (d ≠ 0 → aligned = B + 2 * (o + d)) →
  let bl' := carved l1 o n l2 d u in
  ∃ m', ('(p, c, a) ← slob_split_head (prev_addr B l1) (B + 2 * o) n aligned d;
         slob_carve B u p c a) s =
          Ok (B + 2 * (o + d), alloc_state s B pg u (B + 2 * hd_off bl' 2048) m') ∧
        linked m' B bl' 2048 ∧ frame B (l1 ++ (o, n) :: l2) (cells s) m'.
Proof.
  intros [HB Hm Hpg Hl Hs Hf Hun] Hd Hu Hn Ha bl'.
  assert (sorted_blocks 0 0 (l1 ++ (o, n) :: l2)) as Hs0 by (eapply sorted_blocks_weaken; [done|lia..]).
  destruct (slob_split_head_ok s B l1 o n l2 d aligned) as (m1 & E1 & L1 & S1 & F1);
    try done; [lia|].
  rewrite (bind_ok _ _ _ _ _ E1).
  set (l1' := if decide (d = 0) then l1 else l1 ++ [(o, d)]) in *.
  destruct (slob_carve_ok (set_cells m1 s) B l1' (o + d) (n - d) l2 u B pg) as (m2 & E2 & L2 & F2);
    try done; simpl; [by eapply frame_mapped|lia| |].
  { rewrite Hf. unfold l1'. case_decide; rewrite ?hd_off_app; simpl; [subst; by rewrite Z.add_0_r|done]. }
  exists m2. split_and!; [exact E2|exact L2|]. eapply frame_trans.
  - eapply frame_mono; [|exact F1]. intros x (b & Hb & Hx). exists b. set_solver.
  - eapply frame_mono; [|exact F2]. intros x. simpl. unfold l1'.
    destruct (decide (d = 0));
      rewrite !free_cell_app, ?free_cell_cons, ?free_cell_nil; unfold in_block; simpl; intros Hx; destruct_or!; try tauto; right; left; lia.
Qed.

Lemma page_wf_weak s B pg bl : page_wf s B pg bl → sorted_blocks 0 0 bl.
Proof. intros []. by eapply sorted_blocks_weaken; [done|lia..]. Qed.

Lemma page_wf_fuel s B pg bl : page_wf s B pg bl → (length bl ≤ page_fuel)%nat.
Proof.
  intros H%page_wf_weak. apply sorted_blocks_length in H; [|lia..].
  rewrite page_fuel_eq. lia.
Qed.

(** Best-fit allocation inside a page: either no free block has room and
    nothing changes, or the first block of least waste loses exactly the
    requested units. *)
Lemma slob_page_alloc_ok s B pg bl size align :
  page_wf s B pg bl → bl ≠ [] → valid_align align → 1 ≤ SLOB_UNITS size →
  let u := SLOB_UNITS size in
  ((∀ b, b ∈ bl → ¬ fits B u align b) ∧ slob_page_alloc B size align s = Ok (0, s)) ∨
  (∃ l1 o n l2 m',
     bl = l1 ++ (o, n) :: l2 ∧ fits B u align (o, n) ∧
     (∀ b, b ∈ l1 → fits B u align b → waste B u align (o, n) < waste B u align b) ∧
     (∀ b, b ∈ l2 → fits B u align b → waste B u align (o, n) ≤ waste B u align b) ∧
     let d := delta_of B align o in
     let bl' := carved l1 o n l2 d u in
     slob_page_alloc B size align s =
       Ok (B + 2 * (o + d), alloc_state s B pg u (B + 2 * hd_off bl' 2048) m') ∧
     linked m' B bl' 2048 ∧ frame B bl (cells s) m').
Proof.
  intros Hwf Hne Ha Hu u. pose proof Hwf as [HB Hm Hpg Hl Hs Hf Hun].
  pose proof (page_wf_weak _ _ _ _ Hwf) as Hs0.
  destruct (slob_page_scan_ok s B B u align bl HB Ha ltac:(lia) Hl Hs0 page_fuel bl [] no_best)
    as (b' & Hb' & E); [done|done|by eapply page_wf_fuel|left; set_solver|].
  unfold slob_page_alloc. erewrite bind_ok by by apply get_sp_ok.
  change (prev_addr B []) with 0 in E. rewrite Hf. fold u. rewrite E.
  destruct Hb' as [[-> Hno]|(l1 & o & n & l2 & -> & Hfit & -> & H1 & H2)]; [left; done|right].
  pose proof (sorted_mid _ _ _ _ Hs0) as (Ho & Hn & Hon & Hnx).
  destruct (delta_spec B align o) as [Hd Hal]; [done..|lia|].
  destruct (split_carve_ok s B pg l1 o n l2 (delta_of B align o) u
             (if align =? 0 then 0 else ALIGN (B + 2 * o) align)) as (m' & E' & L' & F'); try done.
  { unfold fits in Hfit. simpl in Hfit. lia. }
  { apply aligned_eq; done || lia. }
  exists l1, o, n, l2, m'. split_and!; try done. simpl.
  assert (B + 2 * o =? 0 = false) as -> by (apply Z.eqb_neq; destruct HB; lia).
  simpl. unfold slob_page_take. simpl.
  erewrite bind_ok by (eapply slob_units_ok; [by eapply linked_mid|lia..]). done.
Qed.

(** The same for the first-fit search of the unmodified allocator, which
    takes the first block with room. *)
Lemma first_fit_ok s B pg bl size align :
  page_wf s B pg bl → bl ≠ [] → valid_align align → 1 ≤ SLOB_UNITS size →
  let u := SLOB_UNITS size in
  ((∀ b, b ∈ bl → ¬ fits B u align b) ∧ slob_page_alloc_first_fit B size align s = Ok (0, s)) ∨
  (∃ l1 o n l2 m',
     bl = l1 ++ (o, n) :: l2 ∧ fits B u align (o, n) ∧
     (∀ b, b ∈ l1 → ¬ fits B u align b) ∧
     let d := delta_of B align o in
     let bl' := carved l1 o n l2 d u in
     slob_page_alloc_first_fit B size align s =
       Ok (B + 2 * (o + d), alloc_state s B pg u (B + 2 * hd_off bl' 2048) m') ∧
     linked m' B bl' 2048 ∧ frame B bl (cells s) m').
Proof.
  intros Hwf Hne Ha Hu u. pose proof Hwf as [HB Hm Hpg Hl Hs Hf Hun].
  pose proof (page_wf_weak _ _ _ _ Hwf) as Hs0.
  unfold slob_page_alloc_first_fit. erewrite bind_ok by by apply get_sp_ok.
  rewrite Hf. fold u.
  assert (∀ fuel rest sofar, bl = sofar ++ rest → rest ≠ [] → (length rest ≤ fuel)%nat →
    (∀ b, b ∈ sofar → ¬ fits B u align b) →
    ((∀ b, b ∈ bl → ¬ fits B u align b) ∧
     first_fit_scan fuel B u align (prev_addr B sofar) (B + 2 * hd_off rest 2048) s = Ok (0, s)) ∨
    (∃ l1 o n l2 m', bl = l1 ++ (o, n) :: l2 ∧ fits B u align (o, n) ∧
       (∀ b, b ∈ l1 → ¬ fits B u align b) ∧
       let d := delta_of B align o in
       let bl' := carved l1 o n l2 d u in
       first_fit_scan fuel B u align (prev_addr B sofar) (B + 2 * hd_off rest 2048) s =
         Ok (B + 2 * (o + d), alloc_state s B pg u (B + 2 * hd_off bl' 2048) m') ∧
       linked m' B bl' 2048 ∧ frame B bl (cells s) m')) as Hscan.
  2: { change 0 with (prev_addr B []) at 1. apply (Hscan page_fuel bl []); [done|done|by eapply page_wf_fuel|set_solver]. }
  induction fuel as [|fuel IH]; intros rest sofar Ebl Hr Hlen Hno.
  { destruct rest; simpl in *; [done|lia]. }
  destruct rest as [|[o n] rest]; [done|]. simpl in Hlen. cbn [hd_off first_fit_scan].
  pose proof Hl as Hl'. pose proof Hs0 as Hs'. rewrite Ebl in Hl', Hs'.
  pose proof (linked_mid _ _ _ _ _ _ _ Hl') as He.
  pose proof (sorted_mid _ _ _ _ Hs') as (Ho & Hn & Hon & Hnx).
  destruct (delta_spec B align o) as [Hd Hal]; [done..|lia|].
  erewrite bind_ok by (eapply slob_units_ok; eauto; lia). cbv zeta. rewrite delta_fold.
  destruct (Z.leb_spec (u + delta_of B align o) n) as [Hfit|Hfit].
  - right. exists sofar, o, n, rest. rewrite Ebl in Hwf.
    destruct (split_carve_ok s B pg sofar o n rest (delta_of B align o) u
             (if align =? 0 then 0 else ALIGN (B + 2 * o) align)) as (m' & E' & L' & F'); try done.
    { lia. }
    { apply aligned_eq; done || lia. }
    exists m'. by rewrite Ebl.
  - assert (∀ b, b ∈ sofar ++ [(o, n)] → ¬ fits B u align b) as Hno'.
    { intros b [Hb|Hb]%elem_of_app; [auto|]. apply list_elem_of_singleton in Hb as ->.
      unfold fits. simpl. lia. }
    erewrite bind_ok by (eapply slob_last_ok; eauto; lia).
    destruct rest as [|[o2 n2] rest]; simpl in Hnx; cbn [hd_off].
    + left. rewrite Z.eqb_refl. by rewrite Ebl.
    + assert (o2 =? 2048 = false) as ->.
      { rewrite app_snoc_cons in Hs'. apply sorted_mid in Hs'. apply Z.eqb_neq. lia. }
      erewrite bind_ok by (eapply slob_next_ok; eauto; simpl; lia). simpl hd_off in *.
      assert (B + 2 * o = prev_addr B (sofar ++ [(o, n)])) as -> by (unfold prev_addr; by rewrite last_snoc).
      apply (IH ((o2, n2) :: rest)); try done.
      * by rewrite Ebl, <- app_assoc.
      * simpl in *. lia.
Qed.
