(* ===== verification/SlobHeap.v ===== *)
(** * The SLOB heap: [slob_alloc] and [slob_free] (project4/slob.c)

    The page allocator below SLOB is an interface, [PageAllocator], with the
    laws SLOB relies on in [PageAllocatorOk].  [heap_ok s A] is the invariant
    of the heap with live blocks [A] (address to units): every slob page is
    tiled exactly by its free blocks and the live blocks in it, and the page
    lists hold exactly the pages with free units.  The theorems show that
    allocation and release keep the invariant, run without faulting and
    without running out of fuel, and leave the contents of the other live
    blocks alone. *)

From S2P Require Import Prelude SlobPage.

Definition __GFP_ZERO : Z := 0x8000.
Definition __GFP_COMP : Z := 0x4000.
Definition ZERO_SIZE_PTR : Z := 16.
Definition ZERO_OR_NULL_PTR (x : Z) : bool := x <=? ZERO_SIZE_PTR.

(** ** The page allocator *)

(** [alloc_pages gfp order], in the given state, returns the address and the
    initial contents of [2 ^ order] fresh pages, or nothing. *)
Class PageAllocator := { alloc_pages : Z → Z → slob → option (Z * (Z → Z)) }.

Definition region (order : Z) : Z := PAGE_SIZE * 2 ^ order.

Class PageAllocatorOk `{PageAllocator} := {
  alloc_pages_page gfp order s B fill : 0 ≤ order →
    alloc_pages gfp order s = Some (B, fill) →
    is_page B ∧ B + region order + PAGE_SIZE ≤ 2 ^ 32;
  alloc_pages_fresh gfp order s B fill B' pg : 0 ≤ order →
    alloc_pages gfp order s = Some (B, fill) → pages s !! B' = Some pg →
    B' + region (sp_order pg) ≤ B ∨ B + region order ≤ B'
}.

Definition n_cells (order : Z) : nat := Z.to_nat (region order / SLOB_UNIT).
Definition map_cells (B : Z) (n : nat) (fill : Z → Z) (m : gmap Z Z) : gmap Z Z :=
  foldr (λ i m, <[B + 2 * Z.of_nat i := fill (B + 2 * Z.of_nat i)]> m) m (seq 0 n).
Definition unmap_cells (B : Z) (n : nat) (m : gmap Z Z) : gmap Z Z :=
  foldr (λ i m, delete (B + 2 * Z.of_nat i) m) m (seq 0 n).

(** The descriptor of fresh pages; [prep_new_page] makes them a compound page
    when [__GFP_COMP] asks for it. *)
Definition fresh_page (gfp order : Z) : slob_page :=
  mk_slob_page false false (-1) 0 0 0 1 order
    (negb (order =? 0) && negb (Z.land gfp __GFP_COMP =? 0)).

(** [slob_new_pages] without CONFIG_NUMA. *)
Definition slob_new_pages `{PageAllocator} (gfp order : Z) : slobM Z :=
  s ← gets id;
  match alloc_pages gfp order s with
  | None => mret 0
  | Some (B, fill) =>
      modify (λ s, set_pages (<[B := fresh_page gfp order]> (pages s))
                     (set_cells (map_cells B (n_cells order) fill (cells s)) s)) ;;
      mret B
  end.

(** [free_pages]: drop a reference and give the pages back when it was the
    last one. *)
Definition free_pages (addr order : Z) : slobM unit :=
  if negb (addr =? 0) then
    let page := page_base addr in
    p ← get_sp page;
    if sp_count p - 1 =? 0 then
      modify (λ s, set_pages (delete page (pages s))
                     (set_cells (unmap_cells page (n_cells order) (cells s)) s))
    else
      put_sp page (mk_slob_page (PageSlab p) (PageSlobFree p) (sp_units p) (sp_free p)
                     (sp_mapping p) (sp_private p) (sp_count p - 1) (sp_order p) (sp_compound p))
  else mret tt.

Definition slob_free_pages (b order : Z) : slobM unit :=
  modify (λ s, mk_slob (cells s) (pages s) (lists s) (mem_used s) (mem_claimed s)
                 (match reclaim_state s with
                  | Some r => Some (u32 (r + Z.shiftl 1 order))
                  | None => None
                  end) (slob_ready s)) ;;
  free_pages b order.

(** ** Allocation *)

Definition set_mem_used (f : Z → Z) : slobM unit :=
  modify (λ s, mk_slob (cells s) (pages s) (lists s) (f (mem_used s)) (mem_claimed s)
                 (reclaim_state s) (slob_ready s)).
Definition set_mem_claimed (f : Z → Z) : slobM unit :=
  modify (λ s, mk_slob (cells s) (pages s) (lists s) (mem_used s) (f (mem_claimed s))
                 (reclaim_state s) (slob_ready s)).

Definition slob_list_for (size : Z) : slob_list :=
  if size <? SLOB_BREAK1 then free_slob_small
  else if size <? SLOB_BREAK2 then free_slob_medium
  else free_slob_large.

(** Entries of a page list after and up to [q]; a position of the list is
    [None] for the list head and [Some q] for the page [q]. *)
Fixpoint after (q : Z) (l : list Z) : list Z :=
  match l with [] => [] | x :: l => if decide (x = q) then l else after q l end.
Fixpoint upto (q : Z) (l : list Z) : list Z :=
  match l with [] => [] | x :: l => if decide (x = q) then [x] else x :: upto q l end.
Definition next_of (prev : option Z) (l : list Z) : option Z :=
  match prev with None => head l | Some q => head (after q l) end.

(** "Improve fragment distribution": start the next search here. *)
Definition slob_rotate (k : slob_list) (prev : option Z) : slobM unit :=
  l ← gets (λ s, lists s k);
  if bool_decide (prev ≠ last l) && bool_decide (head l ≠ next_of prev l) then
    match prev with
    | Some q => modify (λ s, set_lists (λ j, if decide (j = k) then after q l ++ upto q l
                                              else lists s j) s)
    | None => mret tt
    end
  else mret tt.

(** The search under [slob_lock] through the pages [rest] of list [k]; [prev]
    is the position before them. *)
Fixpoint slob_alloc_search (k : slob_list) (size align : Z) (prev : option Z)
    (rest : list Z) : slobM Z :=
  match rest with
  | [] => mret 0
  | sp :: rest =>
      p ← get_sp sp;
      (* Enough room on this page? *)
      if u32 (sp_units p) <? SLOB_UNITS size then
        slob_alloc_search k size align (Some sp) rest
      else
        (* Attempt to alloc *)
        b ← slob_page_alloc sp size align;
        if b =? 0 then slob_alloc_search k size align (Some sp) rest
        else
          set_mem_used (λ u, s32 (u + size)) ;;
          slob_rotate k prev ;;
          mret b
  end.

(** "Not enough space: must allocate a new page". *)
Definition slob_alloc_new_page `{PageAllocator} (k : slob_list) (size gfp align : Z) : slobM Z :=
  b ← slob_new_pages (Z.land gfp (Z.lnot __GFP_ZERO)) 0;
  if b =? 0 then mret 0
  else
    let sp := slob_page_of b in
    set_slob_page sp ;;
    update_sp sp (sp_set_units (SLOB_UNITS PAGE_SIZE)) ;;
    update_sp sp (sp_set_free b) ;;
    set_slob b (SLOB_UNITS PAGE_SIZE) (slob_add b (SLOB_UNITS PAGE_SIZE)) ;;
    set_slob_page_free sp k ;;
    b ← slob_page_alloc sp size align;
    check (negb (b =? 0)) ;;
    set_mem_claimed (λ c, s32 (c + PAGE_SIZE)) ;;
    mret b.

(** [memset(b, 0, size)], cell by cell; an odd size clears the low byte of the
    last cell. *)
Fixpoint clear_cells (b : Z) (n : nat) : slobM unit :=
  match n with
  | O => mret tt
  | S n => store b 0 ;; clear_cells (b + 2) n
  end.
Definition memset0 (b size : Z) : slobM unit :=
  clear_cells b (Z.to_nat (size / 2)) ;;
  if size mod 2 =? 0 then mret tt
  else
    v ← load (b + 2 * (size / 2));
    store (b + 2 * (size / 2)) (s16 (u16 v - u16 v mod 256)).

Definition slob_alloc `{PageAllocator} (size gfp align : Z) : slobM Z :=
  let k := slob_list_for size in
  l ← gets (λ s, lists s k);
  b ← slob_alloc_search k size align None l;
  b ← (if b =? 0 then slob_alloc_new_page k size gfp align else mret b);
  (if negb (Z.land gfp __GFP_ZERO =? 0) && negb (b =? 0) then memset0 b size else mret tt) ;;
  mret b.

(** ** Release *)

(** [while (b > next) { prev = next; next = slob_next(prev); }] *)
Fixpoint slob_free_walk (fuel : nat) (b prev next : Z) : slobM (Z * Z) :=
  match fuel with
  | O => spin
  | S fuel =>
      if next <? b then
        n ← slob_next next;
        slob_free_walk fuel b next n
      else mret (prev, next)
  end.

(** Reinsertion into the free list of a partially free page. *)
Definition slob_free_reinsert (sp b units : Z) : slobM unit :=
  p ← get_sp sp;
  if b <? sp_free p then
    units ← (if slob_add b units =? sp_free p then
               u ← slob_units (sp_free p);
               n ← slob_next (sp_free p);
               update_sp sp (sp_set_free n) ;;
               mret (s16 (units + u))
             else mret units);
    p ← get_sp sp;
    set_slob b units (sp_free p) ;;
    update_sp sp (sp_set_free b)
  else
    next ← slob_next (sp_free p);
    '(prev, next) ← slob_free_walk page_fuel b (sp_free p) next;
    last ← slob_last prev;
    (if negb last && (slob_add b units =? next) then
       u ← slob_units next;
       n ← slob_next next;
       set_slob b (s16 (units + u)) n
     else set_slob b units next) ;;
    pu ← slob_units prev;
    if slob_add prev pu =? b then
      bu ← slob_units b;
      n ← slob_next b;
      set_slob prev (s16 (bu + pu)) n
    else set_slob prev pu b.

(** "Go directly to page allocator. Do not pass slob allocator". *)
Definition slob_free_whole (sp b : Z) : slobM unit :=
  set_mem_claimed (λ c, s32 (c - PAGE_SIZE)) ;;
  f ← slob_page_free sp;
  (if f : bool then clear_slob_page_free sp else mret tt) ;;
  clear_slob_page sp ;;
  free_slob_page sp ;;
  slob_free_pages b 0.

(** "This slob page is about to become partially free. Easy!" *)
Definition slob_free_first (sp b units size : Z) : slobM unit :=
  update_sp sp (sp_set_units units) ;;
  update_sp sp (sp_set_free b) ;;
  set_slob b units (page_base (slob_add b (SLOB_UNITS PAGE_SIZE))) ;;
  set_slob_page_free sp (slob_list_for size).

Definition slob_free (block size : Z) : slobM unit :=
  if ZERO_OR_NULL_PTR block then mret tt
  else
    check (negb (size =? 0)) ;;
    let sp := slob_page_of block in
    let b := block in
    let units := s16 (SLOB_UNITS size) in
    set_mem_used (λ u, s32 (u - size)) ;;
    p ← get_sp sp;
    if sp_units p + units =? SLOB_UNITS PAGE_SIZE then slob_free_whole sp b
    else
      f ← slob_page_free sp;
      if negb f then slob_free_first sp b units size
      else
        update_sp sp (λ p, sp_set_units (s16 (sp_units p + units)) p) ;;
        slob_free_reinsert sp b units.

(** ** Adding a block to the free list of a page *)

(** What releasing the units [(o, u)] does to the list of free blocks: insert
    in address order and merge with the neighbours it touches. *)
Fixpoint add_free (o u : Z) (bl : list (Z * Z)) : list (Z * Z) :=
  match bl with
  | [] => [(o, u)]
  | (a, n) :: bl' =>
      if o <? a then
        if o + u =? a then (o, u + n) :: bl' else (o, u) :: (a, n) :: bl'
      else if a + n =? o then
        match bl' with
        | (a', n') :: bl'' => if o + u =? a' then (a, n + u + n') :: bl'' else (a, n + u) :: bl'
        | [] => [(a, n + u)]
        end
      else (a, n) :: add_free o u bl'
  end.

Lemma add_free_nonempty o u bl : add_free o u bl ≠ [].
Proof. destruct bl as [|[a n] [|[a' n'] bl]]; simpl; repeat case_match; done. Qed.

Lemma add_free_sum o u bl : sumZ ((add_free o u bl).*2) = sumZ (bl.*2) + u.
Proof.
  induction bl as [|[a n] bl IH]; csimpl; [lia|].
  repeat case_match; subst; csimpl in *; try lia.
Qed.

Lemma sorted_cons_disjoint g lo a n bl b :
  0 ≤ g → sorted_blocks g lo ((a, n) :: bl) → b ∈ bl → disjoint_block b (a, n).
Proof. intros Hg Hs Hb. by eapply (sorted_blocks_disjoint g lo [] a n bl). Qed.

Lemma add_free_sorted o u bl : ∀ lo,
  sorted_blocks 1 lo bl → lo ≤ o → 1 ≤ u → o + u ≤ 2048 →
  (∀ b, b ∈ bl → disjoint_block b (o, u)) →
  sorted_blocks 1 lo (add_free o u bl).
Proof.
  induction bl as [|[a n] bl IH]; intros lo Hs Hlo Hu Hou Hd; simpl; [done|].
  simpl in Hs. destruct Hs as (Ha & Hn & Han & Hs).
  assert (disjoint_block (a, n) (o, u)) as Hdan by (apply Hd; set_solver).
  unfold disjoint_block in Hdan. simpl in Hdan.
  destruct (Z.ltb_spec o a).
  - destruct (Z.eqb_spec (o + u) a) as [<-|]; simpl.
    + split_and!; [lia..|]. eapply sorted_blocks_weaken; [done|lia..].
    + split_and!; [lia..|done].
  - destruct (Z.eqb_spec (a + n) o).
    + destruct bl as [|[a' n'] bl]; simpl in *; [lia|].
      assert (disjoint_block (a', n') (o, u)) as Hd' by (apply Hd; set_solver).
      unfold disjoint_block in Hd'. simpl in Hd'.
      destruct Hs as (? & ? & ? & Hs).
      destruct (Z.eqb_spec (o + u) a') as [<-|]; simpl.
      * split_and!; [lia..|]. eapply sorted_blocks_weaken; [done|lia..].
      * split_and!; [lia..|done].
    + simpl. split_and!; [lia..|]. apply IH; [done|lia..|]. intros b Hb. apply Hd. set_solver.
Qed.

Lemma in_block_merge B a n c k x :
  0 ≤ n → 0 ≤ k → c = a + n → in_block B (a, n + k) x ↔ in_block B (a, n) x ∨ in_block B (c, k) x.
Proof. unfold in_block. simpl. intros. lia. Qed.

Lemma add_free_cells B o u bl x lo :
  sorted_blocks 1 lo bl → 1 ≤ u → (∀ b, b ∈ bl → disjoint_block b (o, u)) →
  free_cell B (add_free o u bl) x ↔ in_block B (o, u) x ∨ free_cell B bl x.
Proof.
  revert lo. induction bl as [|[a n] bl IH]; intros lo Hs Hu Hd; simpl.
  { by rewrite free_cell_cons. }
  simpl in Hs. destruct Hs as (Ha & Hn & Han & Hs).
  assert (∀ b, b ∈ bl → disjoint_block b (o, u)) as Hd' by set_solver.
  specialize (IH _ Hs Hu Hd').
  destruct (Z.ltb_spec o a).
  - destruct (Z.eqb_spec (o + u) a); rewrite !free_cell_cons; [|tauto].
    rewrite (in_block_merge B o u a n) by lia. tauto.
  - destruct (Z.eqb_spec (a + n) o).
    + destruct bl as [|[a' n'] bl]; [|simpl in Hs; destruct (Z.eqb_spec (o + u) a')];
        rewrite !free_cell_cons.
      * rewrite (in_block_merge B a n o u) by lia. tauto.
      * rewrite (in_block_merge B a (n + u) a' n'), (in_block_merge B a n o u) by lia. tauto.
      * rewrite (in_block_merge B a n o u) by lia. tauto.
    + rewrite !free_cell_cons, IH. tauto.
Qed.

Lemma frame_put_gen B bl m o n e :
  mapped_page m B → 0 ≤ o → 1 ≤ n → o + n ≤ 2048 →
  (∀ x, in_block B (o, n) x → free_cell B bl x) → frame B bl m (put_enc m B o n e).
Proof.
  intros Hm Ho Hn He Hin. eapply frame_mono; [|apply (frame_put B [(o, n)] (o, n)); try done; try lia; set_solver].
  intros x. rewrite free_cell_cons, free_cell_nil. naive_solver.
Qed.

(** Merging the released units with the block that follows. *)
Definition merge_next (o u : Z) (l2 : list (Z * Z)) : Z * list (Z * Z) :=
  match l2 with
  | (a, n) :: l2' => if o + u =? a then (u + n, l2') else (u, l2)
  | [] => (u, [])
  end.

Lemma add_free_before o u l2 :
  o < hd_off l2 2048 → add_free o u l2 = (o, (merge_next o u l2).1) :: (merge_next o u l2).2.
Proof.
  destruct l2 as [|[a n] l2]; simpl; [done|]. intros H.
  destruct (Z.ltb_spec o a); [|lia]. by destruct (o + u =? a).
Qed.

Lemma add_free_split o u lo l1 pa pn l2 :
  sorted_blocks 1 lo (l1 ++ (pa, pn) :: l2) → pa + pn ≤ o → o < hd_off l2 2048 →
  add_free o u (l1 ++ (pa, pn) :: l2) =
  l1 ++ (if pa + pn =? o then (pa, (merge_next o u l2).1 + pn) :: (merge_next o u l2).2
         else (pa, pn) :: (o, (merge_next o u l2).1) :: (merge_next o u l2).2).
Proof.
  revert lo. induction l1 as [|[a n] l1 IH]; intros lo; simpl; intros (? & ? & ? & Hs) Hp Ho.
  - destruct (Z.ltb_spec o pa); [lia|]. destruct (Z.eqb_spec (pa + pn) o).
    + destruct l2 as [|[a' n'] l2]; simpl; [do 2 f_equal; lia|].
      destruct (o + u =? a'); simpl; do 2 f_equal; lia.
    + by rewrite add_free_before.
  - pose proof Hs as Hs'. apply (sorted_blocks_in _ _ _ pa pn) in Hs'; [|lia|set_solver].
    destruct (Z.ltb_spec o a); [lia|]. destruct (Z.eqb_spec (a + n) o); [lia|].
    f_equal. by eapply IH.
Qed.

Lemma merge_next_sorted o u l2 lo :
  sorted_blocks 0 lo l2 → lo ≤ 2048 → 1 ≤ u → o + u ≤ hd_off l2 2048 →
  1 ≤ (merge_next o u l2).1 ∧ o + (merge_next o u l2).1 ≤ hd_off (merge_next o u l2).2 2048 ≤ 2048 ∧
  (∀ b, b ∈ (merge_next o u l2).2 → b ∈ l2 ∧ 1 ≤ b.2 ∧ o + (merge_next o u l2).1 ≤ b.1).
Proof.
  destruct l2 as [|[a n] l2]; simpl; [intros; split_and!; [lia..|set_solver]|].
  intros (? & ? & ? & Hs) ? ? ?.
  assert (∀ b, b ∈ l2 → a + n ≤ b.1 ∧ 1 ≤ b.2) as Hb.
  { intros [b1 b2] Hb. by apply (sorted_blocks_in _ _ _ b1 b2) in Hs; [simpl; lia|..]. }
  pose proof (sorted_blocks_hd 0 (a + n + 0) l2 ltac:(lia) Hs ltac:(lia)).
  destruct (Z.eqb_spec (o + u) a); simpl; split_and!; try lia.
  - intros b Hin. destruct (Hb b Hin). split; [set_solver|lia].
  - intros b [->|Hin]%elem_of_cons; simpl; [set_solver by lia|].
    destruct (Hb b Hin). split; [set_solver|lia].
Qed.

Lemma slob_free_walk_ok s B o bl :
  is_page B → linked (cells s) B bl 2048 → sorted_blocks 0 0 bl → 0 ≤ o < 2048 →
  (∀ b, b ∈ bl → b.1 + b.2 ≤ o ∨ o < b.1) →
  ∀ fuel l1 pa pn l2, bl = l1 ++ (pa, pn) :: l2 → pa < o → (length l2 < fuel)%nat →
  ∃ l1' pa' pn' l2', bl = l1' ++ (pa', pn') :: l2' ∧ pa' < o ∧ o < hd_off l2' 2048 ∧
    slob_free_walk fuel (B + 2 * o) (B + 2 * pa) (B + 2 * hd_off l2 2048) s =
    Ok (B + 2 * pa', B + 2 * hd_off l2' 2048, s).
Proof.
  intros HB Hl Hs Ho Hd fuel. induction fuel as [|fuel IH]; intros l1 pa pn l2 E Hpa Hlen; [lia|].
  simpl. destruct (Z.ltb_spec (B + 2 * hd_off l2 2048) (B + 2 * o)).
  - destruct l2 as [|[a n] l2]; simpl in *; [lia|].
    rewrite app_snoc_cons in E. pose proof Hl as Hl'. pose proof Hs as Hs'. rewrite E in Hl', Hs'.
    pose proof (sorted_mid _ _ _ _ Hs') as (? & ? & ? & ?).
    erewrite bind_ok by (eapply slob_next_ok; [done|by eapply linked_mid|lia..]).
    eapply IH; [done|lia|lia].
  - exists l1, pa, pn, l2. split_and!; try done.
    destruct l2 as [|[a n] l2]; simpl in *; [lia|].
    assert (1 ≤ n) by (rewrite E in Hs; apply (sorted_blocks_in _ _ _ a n) in Hs; [lia|lia|set_solver]).
    destruct (Hd (a, n)) as [?|?]; [rewrite E; set_solver| |]; simpl in *; lia.
Qed.

Section Reinsert.
Context (s : slob) (B o u : Z) (pg : slob_page).
Context (HB : is_page B) (Hm : mapped_page (cells s) B) (Hpg : pages s !! B = Some pg).
Context (Ho : 0 ≤ o) (Hu : 1 ≤ u) (Hou : o + u ≤ 2048).

(** The released block comes before every free block. *)
Lemma reinsert_head a n bl :
  linked (cells s) B ((a, n) :: bl) 2048 → sorted_blocks 1 0 ((a, n) :: bl) →
  sp_free pg = B + 2 * a → o + u ≤ a →
  let bl' := add_free o u ((a, n) :: bl) in
  ∃ m', slob_free_reinsert B (B + 2 * o) u s =
          Ok (tt, set_pages (<[B := sp_set_free (B + 2 * o) pg]> (pages s)) (set_cells m' s)) ∧
        hd_off bl' 2048 = o ∧ linked m' B bl' 2048 ∧
        frame B ((o, u) :: (a, n) :: bl) (cells s) m'.
Proof.
  intros [He Hl] (_ & Hn & Han & Hs) Hf Hoa bl'. simpl in Hs.
  assert (a + n + 1 ≤ hd_off bl 2048 ∨ hd_off bl 2048 = 2048) as Hhd.
  { destruct bl as [|[a' n'] bl]; simpl in *; lia. }
  pose proof (sorted_blocks_hd 0 (a + n) bl ltac:(lia)
    ltac:(by eapply sorted_blocks_weaken; [exact Hs|lia..]) ltac:(lia)) as Hhd'.
  assert (∀ b, b ∈ bl → a + n < b.1 ∧ 1 ≤ b.2) as Hb.
  { intros [b1 b2] Hb. apply (sorted_blocks_in _ _ _ b1 b2) in Hs; [simpl; lia|lia|done]. }
  unfold slob_free_reinsert. erewrite bind_ok by by apply get_sp_ok. rewrite Hf.
  destruct (Z.ltb_spec (B + 2 * o) (B + 2 * a)); [|lia]. rewrite slob_add_off.
  unfold bl'. cbn [add_free]. destruct (Z.ltb_spec o a); [|lia].
  destruct (Z.eqb_spec (o + u) a) as [Heq|Hne];
    [destruct (Z.eqb_spec (B + 2 * (o + u)) (B + 2 * a)); [|lia]
    |destruct (Z.eqb_spec (B + 2 * (o + u)) (B + 2 * a)); [lia|]].
  - (* merge with the first free block *)
    erewrite bind_ok; [|erewrite bind_ok by (eapply slob_units_ok; eauto; lia);
      erewrite bind_ok by (eapply slob_next_ok; eauto; lia);
      erewrite bind_ok by (by apply update_sp_ok); done].
    erewrite bind_ok by (apply get_sp_ok; simpl; apply lookup_insert_eq). cbn [sp_free sp_set_free].
    rewrite s16_id by lia.
    erewrite bind_ok by (apply set_slob_ok; simpl; done || lia).
    erewrite update_sp_ok by (simpl; apply lookup_insert_eq). simpl.
    eexists. split; [|split; [done|split; [split|]]].
    + unfold set_pages, set_cells. simpl. by rewrite insert_insert_eq.
    + apply enc_put.
    + apply linked_put; [done|lia|]. intros b Hin. destruct (Hb b Hin). split; [|lia].
      right. simpl. lia.
    + apply frame_put_gen; try done; try lia. intros x. rewrite !free_cell_cons.
      rewrite (in_block_merge B o u a n) by lia. tauto.
  - erewrite bind_ok by done.
    erewrite bind_ok by (by apply get_sp_ok). rewrite Hf.
    erewrite bind_ok by (apply set_slob_ok; simpl; done || lia).
    erewrite update_sp_ok by done. eexists. split; [done|split; [done|split; [split|]]].
    + apply enc_put.
    + apply (linked_put _ _ _ _ _ ((a, n) :: bl)); [done|lia|].
      intros b [->|Hin]%elem_of_cons; [split; [right|]; simpl; lia|].
      destruct (Hb b Hin). split; [right; simpl; lia|lia].
    + apply (frame_put B _ (o, u)); simpl; try done; try lia. set_solver.
Qed.

(** The released block comes after the free block [(pa, pn)] and before
    those of [l2]. *)
Lemma reinsert_middle l1 pa pn l2 :
  linked (cells s) B (l1 ++ (pa, pn) :: l2) 2048 →
  sorted_blocks 1 0 (l1 ++ (pa, pn) :: l2) →
  pa + pn ≤ o → o + u ≤ hd_off l2 2048 →
  let bl' := add_free o u (l1 ++ (pa, pn) :: l2) in
  ∃ m', (last ← slob_last (B + 2 * pa);
         (if negb last && (slob_add (B + 2 * o) u =? B + 2 * hd_off l2 2048) then
            w ← slob_units (B + 2 * hd_off l2 2048);
            n ← slob_next (B + 2 * hd_off l2 2048);
            set_slob (B + 2 * o) (s16 (u + w)) n
          else set_slob (B + 2 * o) u (B + 2 * hd_off l2 2048)) ;;
         pu ← slob_units (B + 2 * pa);
         if slob_add (B + 2 * pa) pu =? B + 2 * o then
           bu ← slob_units (B + 2 * o);
           n ← slob_next (B + 2 * o);
           set_slob (B + 2 * pa) (s16 (bu + pu)) n
         else set_slob (B + 2 * pa) pu (B + 2 * o)) s = Ok (tt, set_cells m' s) ∧
        linked m' B bl' 2048 ∧ frame B ((o, u) :: l1 ++ (pa, pn) :: l2) (cells s) m'.
Proof.
  intros Hl Hs1 Hp Hn bl'.
  assert (sorted_blocks 0 0 (l1 ++ (pa, pn) :: l2)) as Hs by (eapply sorted_blocks_weaken; [done|lia..]).
  pose proof (sorted_mid _ _ _ _ Hs) as (Hpa & Hpn & Hpe & Hnx).
  pose proof (linked_mid _ _ _ _ _ _ _ Hl) as He.
  unfold bl'. rewrite (add_free_split o u 0) by (done || lia).
  set (u' := (merge_next o u l2).1). set (l2' := (merge_next o u l2).2).
  assert (sorted_blocks 0 (pa + pn) l2) as Hs2.
  { apply sorted_blocks_app in Hs as [_ (_ & _ & _ & Hs)]; [|lia].
    eapply sorted_blocks_weaken; [done|lia..]. }
  destruct (merge_next_sorted o u l2 (pa + pn)) as (Hu' & Hhd' & Hb'); [done|lia|lia|lia|].
  fold u' l2' in Hu', Hhd', Hb'.
  apply linked_app in Hl as [Hl1 [_ Hl2]].
  assert (linked (cells s) B l2' 2048) as Hl2'.
  { unfold l2', merge_next. destruct l2 as [|[a n] l2]; [done|].
    destruct (o + u =? a); simpl in *; tauto. }
  erewrite bind_ok by (eapply slob_last_ok; [done|exact He|lia..]).
  (* first the released block is linked, merged with its successor *)
  set (m1 := put_enc (cells s) B o u' (hd_off l2' 2048)).
  erewrite bind_ok with (a := tt) (s' := set_cells m1 s).
  2: { rewrite slob_add_off. unfold m1, u', l2', merge_next in *.
    destruct l2 as [|[a n] l2]; cbn [hd_off] in *.
    - rewrite Z.eqb_refl. simpl. apply set_slob_ok; done || lia.
    - simpl in Hs2, Hl2. assert (a =? 2048 = false) as -> by (apply Z.eqb_neq; lia). simpl.
      destruct (Z.eqb_spec (o + u) a) as [Heq|Hne];
        [destruct (Z.eqb_spec (B + 2 * (o + u)) (B + 2 * a)); [|lia]
        |destruct (Z.eqb_spec (B + 2 * (o + u)) (B + 2 * a)); [lia|]].
      + pose proof (sorted_blocks_hd 0 (a + n + 0) l2 ltac:(lia) ltac:(tauto) ltac:(lia)).
        erewrite bind_ok by (eapply slob_units_ok; [apply Hl2|lia..]).
        erewrite bind_ok by (eapply slob_next_ok; [done|apply Hl2|lia..]).
        simpl in *. rewrite s16_id by lia. apply set_slob_ok; done || lia.
      + apply set_slob_ok; done || lia. }
  assert (∀ b, b ∈ l1 ++ l2 → disjoint_block b (pa, pn) ∧ 1 ≤ b.2) as Hdis.
  { intros [b1 b2] Hb. split; [by eapply sorted_blocks_disjoint; [|exact Hs|]|].
    apply (sorted_blocks_in _ _ _ b1 b2) in Hs; [simpl; lia|lia|set_solver]. }
  assert (∀ b, b ∈ l1 → b.1 + b.2 ≤ pa ∧ 1 ≤ b.2) as Hb1.
  { intros b Hb. split; [|apply Hdis; set_solver].
    apply list_elem_of_split in Hb as (k1 & k2 & ->). destruct b as [b1 b2].
    rewrite <- app_assoc in Hs. simpl in Hs. apply sorted_blocks_app in Hs as [_ (_ & _ & _ & Hs)]; [|lia].
    apply (sorted_blocks_in _ _ _ pa pn) in Hs; [simpl; lia|lia|set_solver]. }
  assert (frame B ((o, u) :: l1 ++ (pa, pn) :: l2) (cells s) m1) as F1.
  { apply frame_put_gen; try done; try lia. intros x.
    unfold u', merge_next. rewrite free_cell_cons, free_cell_app, free_cell_cons.
    destruct l2 as [|[a n] l2]; simpl; [tauto|]. rewrite free_cell_cons. simpl in Hs2.
    destruct (Z.eqb_spec (o + u) a); simpl; [|tauto].
    rewrite (in_block_merge B o u a n) by lia. tauto. }
  assert (enc m1 B pa pn (hd_off l2 2048)) as He1 by (apply enc_put_ne; [left; simpl; lia|lia|lia|done]).
  assert (linked m1 B l1 pa) as L1.
  { apply linked_put; [done|lia|]. intros b Hb. destruct (Hb1 b Hb). split; [left; simpl; lia|done]. }
  assert (linked m1 B l2' 2048) as L2.
  { apply linked_put; [done|lia|]. intros b Hb. destruct (Hb' b Hb) as (_ & ? & ?). split; [right; simpl; lia|done]. }
  erewrite bind_ok by (eapply slob_units_ok; [exact He1|lia..]). rewrite slob_add_off.
  destruct (Z.eqb_spec (pa + pn) o) as [Heq|Hne];
    [destruct (Z.eqb_spec (B + 2 * (pa + pn)) (B + 2 * o)); [|lia]
    |destruct (Z.eqb_spec (B + 2 * (pa + pn)) (B + 2 * o)); [lia|]].
  - (* then it is merged with its predecessor *)
    erewrite bind_ok by (eapply slob_units_ok; [apply enc_put|lia..]).
    erewrite bind_ok by (eapply slob_next_ok; [done|apply enc_put|lia..]).
    rewrite s16_id by lia.
    rewrite set_slob_ok by (done || lia || by eapply frame_mapped). simpl.
    eexists. split_and!; [done| |].
    + apply linked_app. simpl. split; [|split; [apply enc_put|]]; apply linked_put; try done; try lia.
      * intros b Hb. destruct (Hb1 b Hb). split; [left; simpl; lia|done].
      * intros b Hb. destruct (Hb' b Hb) as (_ & ? & ?). split; [right; simpl; lia|done].
    + eapply frame_trans; [exact F1|]. apply frame_put_gen; try lia; [by eapply frame_mapped|].
      intros x. rewrite Z.add_comm, (in_block_merge B pa pn o u') by lia.
      rewrite free_cell_cons, free_cell_app, free_cell_cons.
      unfold u', merge_next. destruct l2 as [|[a n] l2]; simpl; [tauto|].
      rewrite free_cell_cons. simpl in Hs2. destruct (Z.eqb_spec (o + u) a); simpl; [|tauto].
      rewrite (in_block_merge B o u a n) by lia. tauto.
  - rewrite set_slob_ok by (done || lia || by eapply frame_mapped). simpl.
    eexists. split_and!; [done| |].
    + apply linked_app. simpl. split; [|split; [apply enc_put|split]].
      * apply linked_put; [done|lia|]. intros b Hb. destruct (Hb1 b Hb). split; [left; simpl; lia|done].
      * apply enc_put_ne; [right; simpl; lia|lia|lia|]. apply enc_put.
      * apply linked_put; [done|lia|]. intros b Hb. destruct (Hb' b Hb) as (_ & ? & ?).
        split; [right; simpl; lia|done].
    + eapply frame_trans; [exact F1|]. apply (frame_put B _ (pa, pn)); simpl; try done; try lia.
      * by eapply frame_mapped.
      * set_solver.
Qed.
End Reinsert.

Lemma slob_free_reinsert_ok s B o u pg bl :
  is_page B → mapped_page (cells s) B → pages s !! B = Some pg →
  0 ≤ o → 1 ≤ u → o + u ≤ 2048 →
  linked (cells s) B bl 2048 → sorted_blocks 1 0 bl → bl ≠ [] →
  sp_free pg = B + 2 * hd_off bl 2048 →
  (∀ b, b ∈ bl → disjoint_block b (o, u)) →
  let bl' := add_free o u bl in
  ∃ m', slob_free_reinsert B (B + 2 * o) u s =
          Ok (tt, set_pages (<[B := sp_set_free (B + 2 * hd_off bl' 2048) pg]> (pages s))
                    (set_cells m' s)) ∧
        linked m' B bl' 2048 ∧ frame B ((o, u) :: bl) (cells s) m'.
Proof.
  intros HB Hm Hpg Ho Hu Hou Hl Hs Hne Hf Hd bl'.
  destruct bl as [|[a n] bl]; [done|]. pose proof Hs as Hs'. simpl in Hs'.
  destruct Hs' as (Ha & Hn & Han & _).
  assert (disjoint_block (a, n) (o, u)) as Hda by (apply Hd; set_solver).
  unfold disjoint_block in Hda. simpl in Hda.
  destruct (decide (o + u ≤ a)) as [Hlt|Hge].
  - destruct (reinsert_head s B o u pg HB Hm Hpg Ho Hu Hou a n bl) as (m' & E & Eh & L & F);
      try done.
    exists m'. unfold bl'. rewrite Eh. done.
  - assert (sorted_blocks 0 0 ((a, n) :: bl)) as Hs0 by (eapply sorted_blocks_weaken; [done|lia..]).
    destruct (slob_free_walk_ok s B o ((a, n) :: bl)) with (fuel := page_fuel) (l1 := @nil (Z * Z))
      (pa := a) (pn := n) (l2 := bl) as (l1 & pa & pn & l2 & Ebl & Hpa & Hl2 & Ew);
      [done|done|done|lia| |done|lia| |].
    { intros b Hb. specialize (Hd b Hb). unfold disjoint_block in Hd. simpl in Hd.
      destruct b as [b1 b2]. apply (sorted_blocks_in _ _ _ b1 b2) in Hs; [simpl in *; lia|lia|done]. }
    { pose proof (sorted_blocks_length 0 0 _ ltac:(lia) Hs0 ltac:(lia)) as Hlen. simpl in Hlen.
      rewrite page_fuel_eq. lia. }
    destruct (reinsert_middle s B o u pg HB Hm Hpg Ho Hu Hou l1 pa pn l2) as (m' & E & L & F).
    { by rewrite <- Ebl. } { by rewrite <- Ebl. }
    { assert (disjoint_block (pa, pn) (o, u)) as Hdp by (apply Hd; rewrite Ebl; set_solver).
      unfold disjoint_block in Hdp. simpl in Hdp.
      rewrite Ebl in Hs. apply (sorted_blocks_in _ _ _ pa pn) in Hs; [lia|lia|set_solver]. }
    { destruct l2 as [|[a' n'] l2]; cbn [hd_off] in *; [lia|].
      assert (disjoint_block (a', n') (o, u)) as Hdp by (apply Hd; rewrite Ebl; set_solver).
      unfold disjoint_block in Hdp. simpl in Hdp.
      rewrite Ebl in Hs. apply (sorted_blocks_in _ _ _ a' n') in Hs; [lia|lia|set_solver]. }
    exists m'. rewrite <- Ebl in L, F. split_and!; [|done|done].
    unfold slob_free_reinsert. erewrite bind_ok by by apply get_sp_ok. rewrite Hf. cbn [hd_off].
    destruct (Z.ltb_spec (B + 2 * o) (B + 2 * a)); [lia|].
    assert (sorted_blocks 0 0 ([] ++ (a, n) :: bl)) as Hs1 by done.
    pose proof (sorted_mid _ _ _ _ Hs1) as (_ & _ & _ & ?).
    erewrite bind_ok by (eapply slob_next_ok; [done|apply Hl|lia..]).
    rewrite (bind_ok _ _ _ _ _ Ew), E. do 2 f_equal.
    unfold set_pages, set_cells. simpl. f_equal. symmetry. apply insert_id. rewrite Hpg. f_equal.
    assert (hd_off bl' 2048 = a) as ->; [|by destruct pg; simpl in *; subst].
    unfold bl'. simpl. destruct (Z.ltb_spec o a); [lia|].
    destruct (a + n =? o); [|done]. destruct bl as [|[a' n'] bl]; [done|]. by destruct (o + u =? a').
Qed.
