(* ===== verification/SlobInv.v ===== *)
(** * The heap invariant of SLOB and its preservation (project4/slob.c) *)

From S2P Require Import Prelude SlobPage SlobHeap.

(** Address [x] belongs to one of the live blocks [A] (address to units). *)
Definition live_cell (A : gmap Z Z) (x : Z) : Prop := ∃ a u, A !! a = Some u ∧ a ≤ x < a + 2 * u.

(** Slob page [B] with free blocks [bl]: what is not free is live. *)
Record slab_ok (s : slob) (A : gmap Z Z) (B : Z) (pg : slob_page) (bl : list (Z * Z)) : Prop := {
  slab_wf : page_wf s B pg bl;
  slab_free : PageSlobFree pg = true ↔ bl ≠ [];
  slab_count : sp_count pg = 1;
  slab_order : sp_order pg = 0;
  slab_tile : ∀ x, B ≤ x < B + 4096 → free_cell B bl x ↔ ¬ live_cell A x
}.

Definition all_lists (s : slob) : list Z :=
  lists s free_slob_small ++ lists s free_slob_medium ++ lists s free_slob_large.

(** The heap with live blocks [A]; only the pages of [E] may be entirely
    free. *)
Record heap_wf (E : Z → Prop) (s : slob) (A : gmap Z Z) : Prop := {
  ho_slab B pg : pages s !! B = Some pg → PageSlab pg = true → ∃ bl, slab_ok s A B pg bl;
  ho_used B pg : pages s !! B = Some pg → PageSlab pg = true → ¬ E B → sp_units pg < 2048;
  ho_apart B1 B2 pg1 pg2 : pages s !! B1 = Some pg1 → pages s !! B2 = Some pg2 → B1 ≠ B2 →
    B1 + region (sp_order pg1) ≤ B2 ∨ B2 + region (sp_order pg2) ≤ B1;
  ho_order B pg : pages s !! B = Some pg → 0 ≤ sp_order pg;
  ho_lists B : B ∈ all_lists s ↔
    ∃ pg, pages s !! B = Some pg ∧ PageSlab pg = true ∧ PageSlobFree pg = true;
  ho_nodup : NoDup (all_lists s);
  ho_live a u : A !! a = Some u → ∃ B pg o, pages s !! B = Some pg ∧ PageSlab pg = true ∧
    a = B + 2 * o ∧ 0 ≤ o ∧ 1 ≤ u ∧ o + u ≤ 2048;
  ho_disj a b u v : A !! a = Some u → A !! b = Some v → a ≠ b → a + 2 * u ≤ b ∨ b + 2 * v ≤ a
}.

(** Pages that are not slob pages are left alone, with their contents. *)
Definition raw_kept (s s' : slob) : Prop :=
  ∀ C pg, pages s !! C = Some pg → PageSlab pg = false →
    pages s' !! C = Some pg ∧ ∀ x, C ≤ x < C + region (sp_order pg) → cells s' !! x = cells s !! x.

Definition heap_ok : slob → gmap Z Z → Prop := heap_wf (λ _, False).

Lemma heap_wf_mono (E E' : Z → Prop) s A : (∀ B, E B → E' B) → heap_wf E s A → heap_wf E' s A.
Proof. intros HE []. split; try done. intros; eauto. Qed.

(** ** Helpers *)

Lemma region0 : region 0 = 4096.
Proof. reflexivity. Qed.

Lemma all_lists_elem s k B : B ∈ lists s k → B ∈ all_lists s.
Proof. unfold all_lists. rewrite !elem_of_app. destruct k; auto. Qed.

Lemma region_pos order : 0 ≤ order → 4096 ≤ region order.
Proof.
  intros. unfold region, PAGE_SIZE. pose proof (Z.pow_pos_nonneg 2 order). lia.
Qed.

Lemma linked_ext m m' B bl e lo :
  sorted_blocks 0 lo bl → (∀ x, free_cell B bl x → m' !! x = m !! x) →
  linked m B bl e → linked m' B bl e.
Proof.
  revert lo. induction bl as [|[o n] bl IH]; intros lo; simpl; [done|].
  intros (? & ? & ? & Hs) Hx [He Hl]. split.
  - assert (∀ x, B + 2 * o ≤ x < B + 2 * (o + n) → m' !! x = m !! x) as Hx'.
    { intros x Hb. apply Hx, free_cell_cons. left. done. }
    unfold enc in *. case_decide; rewrite !Hx' by lia; done.
  - eapply IH; [done| |done]. intros x Hb. apply Hx, free_cell_cons. by right.
Qed.

Lemma free_cell_page B bl x : sorted_blocks 0 0 bl → free_cell B bl x → B ≤ x < B + 4096.
Proof.
  intros Hs ([b1 b2] & Hb & Hx). apply (sorted_blocks_in _ _ _ b1 b2) in Hs; [|lia|done].
  unfold in_block in Hx. simpl in Hx. lia.
Qed.

(** A page stays well-formed when only cells outside its free blocks change. *)
Lemma page_wf_write s s' B pg bl :
  page_wf s B pg bl → pages s' !! B = Some pg → mapped_page (cells s') B →
  (∀ x, free_cell B bl x → cells s' !! x = cells s !! x) → page_wf s' B pg bl.
Proof.
  intros H Hp Hm Hx. pose proof (page_wf_weak _ _ _ _ H). destruct H. split; try done.
  by eapply linked_ext.
Qed.

Lemma page_wf_ext s s' B pg bl :
  page_wf s B pg bl → pages s' !! B = Some pg →
  (∀ x, B ≤ x < B + 4096 → cells s' !! x = cells s !! x) → page_wf s' B pg bl.
Proof.
  intros H Hp Hx. pose proof (page_wf_weak _ _ _ _ H). eapply page_wf_write; [done|done|..].
  - intros i Hi. rewrite Hx by lia. destruct H. auto.
  - intros x Hfc. eapply Hx, free_cell_page; done.
Qed.

(** Two distinct slob pages do not overlap, and a slob page does not overlap
    any other page. *)
Lemma slab_apart E s A B1 B2 pg1 pg2 bl1 bl2 :
  heap_wf E s A → slab_ok s A B1 pg1 bl1 → slab_ok s A B2 pg2 bl2 → B1 ≠ B2 →
  B1 + 4096 ≤ B2 ∨ B2 + 4096 ≤ B1.
Proof.
  intros H H1 H2 Hne. pose proof (wf_desc _ _ _ _ (slab_wf _ _ _ _ _ H1)).
  pose proof (wf_desc _ _ _ _ (slab_wf _ _ _ _ _ H2)).
  pose proof (ho_apart _ _ _ H B1 B2 pg1 pg2). rewrite (slab_order _ _ _ _ _ H1), (slab_order _ _ _ _ _ H2), region0 in *.
  auto.
Qed.

(** A change inside one slob page does not touch the other kind of pages. *)
Lemma raw_kept_page E s s' A B pg bl :
  heap_wf E s A → slab_ok s A B pg bl → PageSlab pg = true →
  (∀ C, C ≠ B → pages s' !! C = pages s !! C) →
  (∀ x, ¬ (B ≤ x < B + 4096) → cells s' !! x = cells s !! x) → raw_kept s s'.
Proof.
  intros H Hsl Hslab Hp Hc C pgc HC HCs.
  pose proof (wf_desc _ _ _ _ (slab_wf _ _ _ _ _ Hsl)) as Hpg. assert (C ≠ B) by congruence.
  split; [by rewrite Hp|]. intros x Hx. apply Hc.
  pose proof (ho_apart _ _ _ H C B pgc pg HC Hpg) as Hap.
  rewrite (slab_order _ _ _ _ _ Hsl), region0 in Hap. naive_solver lia.
Qed.

Lemma raw_kept_trans s1 s2 s3 : raw_kept s1 s2 → raw_kept s2 s3 → raw_kept s1 s3.
Proof.
  intros H1 H2 C pg HC Hs. destruct (H1 C pg HC Hs) as [HC2 Hx2]. destruct (H2 C pg HC2 Hs) as [HC3 Hx3].
  split; [done|]. intros x Hx. by rewrite Hx3, Hx2.
Qed.

(** Updating one slob page: the invariant of the others is untouched. *)
Lemma heap_update E E' s s' A A' B pg pg' bl bl' :
  heap_wf E s A → slab_ok s A B pg bl → PageSlab pg = true →
  pages s' = <[B := pg']> (pages s) → PageSlab pg' = true →
  (∀ x, ¬ (B ≤ x < B + 4096) → cells s' !! x = cells s !! x) →
  (∀ x, ¬ (B ≤ x < B + 4096) → live_cell A' x ↔ live_cell A x) →
  slab_ok s' A' B pg' bl' →
  (∀ C, E C → C ≠ B → E' C) → (¬ E' B → sp_units pg' < 2048) →
  (∀ C, C ≠ B → C ∈ all_lists s' ↔ C ∈ all_lists s) →
  (B ∈ all_lists s' ↔ PageSlobFree pg' = true) → NoDup (all_lists s') →
  (∀ a u, A' !! a = Some u → (∃ o, a = B + 2 * o ∧ 0 ≤ o ∧ 1 ≤ u ∧ o + u ≤ 2048) ∨ A !! a = Some u) →
  (∀ a b u v, A' !! a = Some u → A' !! b = Some v → a ≠ b → a + 2 * u ≤ b ∨ b + 2 * v ≤ a) →
  heap_wf E' s' A'.
Proof.
  intros H Hsl Hslab Hpages Hslab' Hcells Hlive Hsl' HE HE' Hl HlB Hnd HA HAd.
  pose proof (wf_desc _ _ _ _ (slab_wf _ _ _ _ _ Hsl)) as Hpg.
  assert (sp_order pg' = sp_order pg) as Hord.
  { by rewrite (slab_order _ _ _ _ _ Hsl), (slab_order _ _ _ _ _ Hsl'). }
  split.
  - intros C pgc. rewrite Hpages. destruct (decide (C = B)) as [->|Hne].
    { rewrite lookup_insert_eq. intros [= <-] _. eauto. }
    rewrite lookup_insert_ne by done. intros Hc Hcs.
    destruct (ho_slab _ _ _ H C pgc Hc Hcs) as [blc Hslc].
    pose proof (slab_apart _ _ _ _ _ _ _ _ _ H Hslc Hsl Hne) as Hap.
    exists blc. destruct Hslc. split; try done.
    + eapply page_wf_ext; [done|rewrite Hpages; by simplify_map_eq|]. intros x Hx. apply Hcells. lia.
    + intros x Hx. rewrite Hlive by lia. auto.
  - intros C pgc. rewrite Hpages. destruct (decide (C = B)) as [->|Hne].
    { rewrite lookup_insert_eq. intros [= <-] _. auto. }
    rewrite lookup_insert_ne by done. intros Hc Hcs HC. eapply (ho_used _ _ _ H); eauto.
  - intros B1 B2 pg1 pg2. rewrite Hpages. intros H1 H2 Hne.
    destruct (decide (B1 = B)) as [->|]; destruct (decide (B2 = B)) as [->|]; simplify_map_eq.
    + rewrite Hord. by eapply (ho_apart _ _ _ H).
    + rewrite Hord. by eapply (ho_apart _ _ _ H).
    + by eapply (ho_apart _ _ _ H).
  - intros C pgc. rewrite Hpages. destruct (decide (C = B)) as [->|Hne]; intros; simplify_map_eq.
    + by rewrite (slab_order _ _ _ _ _ Hsl').
    + by eapply (ho_order _ _ _ H).
  - intros C. rewrite Hpages. destruct (decide (C = B)) as [->|Hne].
    + rewrite HlB. rewrite lookup_insert_eq. naive_solver.
    + rewrite Hl by done. rewrite lookup_insert_ne by done. apply (ho_lists _ _ _ H).
  - done.
  - intros a u Ha. destruct (HA a u Ha) as [(o & ? & ? & ?)|HAa].
    + exists B, pg', o. rewrite Hpages. by simplify_map_eq.
    + destruct (ho_live _ _ _ H a u HAa) as (C & pgc & o & Hc & Hcs & ?).
      destruct (decide (C = B)) as [->|].
      * exists B, pg', o. rewrite Hpages. by simplify_map_eq.
      * exists C, pgc, o. rewrite Hpages. by simplify_map_eq.
  - done.
Qed.

(** ** Allocation from one page *)

Lemma live_cell_insert A r u x :
  A !! r = None → live_cell (<[r := u]> A) x ↔ r ≤ x < r + 2 * u ∨ live_cell A x.
Proof.
  intros Hr. unfold live_cell. split.
  - intros (a & v & Ha & Hx). destruct (decide (a = r)) as [->|]; simplify_map_eq; eauto.
  - intros [Hx|(a & v & Ha & Hx)].
    + exists r, u. by simplify_map_eq.
    + exists a, v. assert (a ≠ r) by congruence. by simplify_map_eq.
Qed.

Lemma sorted_sum_nil g lo bl : 0 ≤ g → lo ≤ 2048 → sorted_blocks g lo bl → sumZ (bl.*2) = 0 ↔ bl = [].
Proof.
  intros Hg Hlo Hs. split; [|by intros ->]. destruct bl as [|[o n] bl]; [done|].
  intros Hz. csimpl in Hz. simpl in Hs. destruct Hs as (? & ? & ? & Hs).
  pose proof (sorted_blocks_sum 0 (o + n) bl ltac:(lia)
    ltac:(by eapply sorted_blocks_weaken; [exact Hs|lia..]) ltac:(lia)). lia.
Qed.

Lemma all_lists_filter s sp :
  all_lists (set_lists (λ k, filter (λ q, q ≠ sp) (lists s k)) s) = filter (λ q, q ≠ sp) (all_lists s).
Proof. unfold all_lists. simpl. by rewrite !filter_app. Qed.

Lemma all_lists_alloc s sp pg u f m :
  all_lists (alloc_state s sp pg u f m) =
  if s16 (sp_units pg - u) =? 0 then filter (λ q, q ≠ sp) (all_lists s) else all_lists s.
Proof.
  unfold all_lists, alloc_state. simpl. destruct (_ =? 0); [|done]. by rewrite !filter_app.
Qed.

Lemma page_after_fields pg u f :
  PageSlab (page_after pg u f) = PageSlab pg ∧ sp_units (page_after pg u f) = s16 (sp_units pg - u) ∧
  sp_free (page_after pg u f) = f ∧ sp_count (page_after pg u f) = sp_count pg ∧
  sp_order (page_after pg u f) = sp_order pg ∧
  PageSlobFree (page_after pg u f) = if s16 (sp_units pg - u) =? 0 then false else PageSlobFree pg.
Proof. unfold page_after. simpl. by destruct (s16 (sp_units pg - u) =? 0). Qed.

(** Two blocks with a cell in common overlap. *)
Lemma live_disjoint A r u a v :
  (∀ x, r ≤ x < r + 2 * u → ¬ live_cell A x) → A !! a = Some v → 1 ≤ u → 1 ≤ v →
  a + 2 * v ≤ r ∨ r + 2 * u ≤ a.
Proof.
  intros Hf Ha Hu Hv. destruct (decide (a + 2 * v ≤ r ∨ r + 2 * u ≤ a)) as [?|Hc]; [done|].
  exfalso. apply (Hf (Z.max a r)); [lia|]. exists a, v. split; [done|lia].
Qed.

Lemma heap_live_pos E s A a u : heap_wf E s A → A !! a = Some u → 1 ≤ u.
Proof. intros H Ha. destruct (ho_live _ _ _ H a u Ha) as (? & ? & ? & ?). tauto. Qed.

(** The page after [u] units left one of its blocks. *)
Lemma carved_page s B pg l1 o n l2 d u m' :
  page_wf s B pg (l1 ++ (o, n) :: l2) → 0 ≤ d → 1 ≤ u → d + u ≤ n →
  let bl' := carved l1 o n l2 d u in
  let f' := B + 2 * hd_off bl' 2048 in
  linked m' B bl' 2048 → frame B (l1 ++ (o, n) :: l2) (cells s) m' →
  page_wf (alloc_state s B pg u f' m') B (page_after pg u f') bl' ∧
  s16 (sp_units pg - u) = sumZ (bl'.*2) ∧ sumZ (bl'.*2) < 2048 ∧
  (PageSlobFree pg = true → PageSlobFree (page_after pg u f') = true ↔ bl' ≠ []).
Proof.
  intros [HB Hm Hpg Hl Hs Hfree Hun] Hd Hu Hn bl' f' Hl' Hf.
  assert (sorted_blocks 1 0 bl') as Hs' by (apply carved_sorted; done || lia).
  pose proof (carved_sum l1 o n l2 d u) as Hsum. fold bl' in Hsum.
  pose proof (sorted_blocks_sum 1 0 _ ltac:(lia) Hs ltac:(lia)) as Hb1.
  pose proof (sorted_blocks_sum 1 0 bl' ltac:(lia) Hs' ltac:(lia)) as Hb2.
  assert (s16 (sp_units pg - u) = sumZ (bl'.*2)) as Hun' by (rewrite Hun, s16_id; lia).
  destruct (page_after_fields pg u f') as (F1 & F2 & F3 & F4 & F5 & F6).
  split_and!; [|done|lia|].
  - split; try done; [by eapply frame_mapped|apply lookup_insert_eq|by rewrite F2].
  - intros Hpf. rewrite F6, Hun', Hpf.
    pose proof (sorted_sum_nil 1 0 bl' ltac:(lia) ltac:(lia) Hs') as Hnil.
    destruct (Z.eqb_spec (sumZ bl'.*2) 0); naive_solver.
Qed.

(** The invariant after carving [u] units out of page [B]. *)
Lemma alloc_heap E s A B pg l1 o n l2 d u m' :
  heap_wf E s A → (∀ C, E C → C = B) → slab_ok s A B pg (l1 ++ (o, n) :: l2) → PageSlab pg = true →
  0 ≤ d → 1 ≤ u → d + u ≤ n →
  let bl := l1 ++ (o, n) :: l2 in
  let bl' := carved l1 o n l2 d u in
  let r := B + 2 * (o + d) in
  linked m' B bl' 2048 → frame B bl (cells s) m' →
  let s' := alloc_state s B pg u (B + 2 * hd_off bl' 2048) m' in
  A !! r = None ∧ heap_ok s' (<[r := u]> A) ∧ (∀ x, live_cell A x → cells s' !! x = cells s !! x).
Proof.
  intros H HE Hsl Hslab Hd Hu Hn bl bl' r Hl' Hf s'. pose proof Hsl as [Hwf Hfr Hc Hord Htile].
  pose proof (page_wf_weak _ _ _ _ Hwf) as Hs0.
  pose proof (sorted_mid _ _ _ _ Hs0) as (Ho & Hn1 & Hon & _).
  destruct (carved_page s B pg l1 o n l2 d u m') as (Hwf' & Hun' & Hsum & Hnil); try done.
  assert (∀ x, r ≤ x < r + 2 * u → ¬ live_cell A x) as Hrdead.
  { intros x Hx. apply Htile; [lia|]. exists (o, n). split; [set_solver|]. unfold in_block. simpl. lia. }
  assert (A !! r = None) as HAr.
  { apply eq_None_not_Some. intros [v Hv]. apply (Hrdead r); [lia|]. exists r, v.
    pose proof (heap_live_pos _ _ _ _ _ H Hv). split; [done|lia]. }
  destruct (page_after_fields pg u (B + 2 * hd_off bl' 2048)) as (F1 & F2 & F3 & F4 & F5 & F6).
  assert (PageSlobFree pg = true) as Hpf by (apply Hfr; by destruct l1).
  split_and!; [done| |].
  - eapply (heap_update E (λ _, False) s s' A); try exact Hsl; try done.
    + by rewrite F1.
    + intros x Hx. apply Hf. intros Hfc. apply Hx. by eapply free_cell_page.
    + intros x Hx. rewrite live_cell_insert by done. split; [|tauto]. intros [?|?]; [lia|done].
    + split; [done|by apply Hnil|by rewrite F4|by rewrite F5|].
      intros x Hx. unfold bl'. rewrite carved_free by done. rewrite Htile by done.
      rewrite live_cell_insert by done. unfold in_block. simpl. fold r.
      assert (B + 2 * (o + d + u) = r + 2 * u) as -> by lia. tauto.
    + naive_solver.
    + intros _. by rewrite F2, Hun'.
    + intros C HC. unfold s'. rewrite all_lists_alloc. destruct (_ =? 0); [|done].
      rewrite list_elem_of_filter. tauto.
    + unfold s'. rewrite all_lists_alloc, F6, Hpf. destruct (_ =? 0).
      * rewrite list_elem_of_filter. naive_solver.
      * rewrite (ho_lists _ _ _ H). destruct Hwf. naive_solver.
    + unfold s'. rewrite all_lists_alloc. pose proof (ho_nodup _ _ _ H).
      destruct (_ =? 0); [by apply NoDup_filter|done].
    + intros a v. destruct (decide (a = r)) as [->|]; intros; simplify_map_eq; [|by right].
      left. exists (o + d). split_and!; lia.
    + intros a b v w Ha Hb Hab.
      destruct (decide (a = r)) as [->|]; destruct (decide (b = r)) as [->|]; simplify_map_eq.
      * pose proof (live_disjoint A r v b w Hrdead Hb Hu (heap_live_pos _ _ _ _ _ H Hb)). lia.
      * by pose proof (live_disjoint A r w a v Hrdead Ha Hu (heap_live_pos _ _ _ _ _ H Ha)).
      * by eapply (ho_disj _ _ _ H).
  - intros x Hx. apply Hf. intros Hfc.
    pose proof (free_cell_page _ _ _ Hs0 Hfc). apply (Htile x) in Hfc; [done|lia].
Qed.

(** ** Changes the invariant does not see *)

(** Counters and the order of the lists do not matter. *)
Lemma heap_wf_same E s s' A :
  heap_wf E s A → cells s' = cells s → pages s' = pages s → (∀ k, lists s' k ≡ₚ lists s k) →
  heap_wf E s' A.
Proof.
  intros H Hc Hp Hl.
  assert (all_lists s' ≡ₚ all_lists s) as Hall by (unfold all_lists; by rewrite !Hl).
  destruct H. split; rewrite ?Hp; try done.
  - intros B pg HB HBs. destruct (ho_slab0 B pg HB HBs) as [bl []]. exists bl. split; try done.
    eapply page_wf_ext; [done|by rewrite Hp|by rewrite Hc].
  - intros B. rewrite Hall. done.
  - by rewrite Hall.
Qed.

(** Clients may write to their live blocks. *)
Lemma heap_wf_write E s s' A :
  heap_wf E s A → pages s' = pages s → lists s' = lists s →
  (∀ x, is_Some (cells s' !! x) ↔ is_Some (cells s !! x)) →
  (∀ x, ¬ live_cell A x → cells s' !! x = cells s !! x) →
  heap_wf E s' A.
Proof.
  intros H Hp Hl Hd Hx. assert (all_lists s' = all_lists s) as Hall by (unfold all_lists; by rewrite Hl).
  destruct H. split; rewrite ?Hp, ?Hall; try done.
  intros B pg HB HBs. destruct (ho_slab0 B pg HB HBs) as [bl [Hwf ? ? ? Ht]].
  pose proof (page_wf_weak _ _ _ _ Hwf).
  exists bl. split; try done. eapply page_wf_write; [done|by rewrite Hp|..].
  - intros i Hi. apply Hd. destruct Hwf. auto.
  - intros x Hfc. apply Hx. apply (Ht x); [|done]. by eapply free_cell_page.
Qed.

Lemma after_upto q l : upto q l ++ after q l = l.
Proof. induction l as [|x l IH]; simpl; [done|]. case_decide; simpl; [done|]. by rewrite IH. Qed.

Lemma slob_rotate_ok k prev s :
  ∃ ls, slob_rotate k prev s = Ok (tt, set_lists ls s) ∧ ∀ j, ls j ≡ₚ lists s j.
Proof.
  unfold slob_rotate. run_step.
  assert (set_lists (lists s) s = s) as Hid by by destruct s.
  destruct (_ && _); [destruct prev as [q|]|]; [|exists (lists s); by rewrite Hid..].
  eexists. split; [done|]. intros j. simpl. case_decide; [|done]. subst j.
  rewrite <- (after_upto q (lists s k)) at 3. apply Permutation_app_comm.
Qed.

(** ** A fresh page *)

Lemma map_cells_lookup B n fill m x :
  map_cells B n fill m !! x =
  if decide (B ≤ x < B + 2 * Z.of_nat n ∧ (x - B) mod 2 = 0) then Some (fill x) else m !! x.
Proof.
  unfold map_cells. assert (∀ l : list nat,
    foldr (λ i m, <[B + 2 * Z.of_nat i := fill (B + 2 * Z.of_nat i)]> m) m l !! x =
    if decide (x ∈ (λ i, B + 2 * Z.of_nat i) <$> l) then Some (fill x) else m !! x) as Hl.
  { intros l. induction l as [|i l IH]; cbn [foldr].
    - rewrite decide_False; [done|]. apply not_elem_of_nil.
    - destruct (decide (x = B + 2 * Z.of_nat i)) as [->|Hne].
      + rewrite lookup_insert_eq, decide_True; [done|]. csimpl. set_solver.
      + rewrite lookup_insert_ne, IH by done. apply decide_ext. csimpl. set_solver. }
  rewrite Hl. apply decide_ext. rewrite list_elem_of_fmap. setoid_rewrite elem_of_seq. split.
  - intros (i & -> & Hi). replace (B + 2 * Z.of_nat i - B) with (Z.of_nat i * 2) by lia.
    rewrite Z_mod_mult. lia.
  - intros [Hx Hm]. exists (Z.to_nat ((x - B) / 2)). pose proof (Z.div_mod (x - B) 2). lia.
Qed.

Lemma n_cells0 : n_cells 0 = Z.to_nat 2048.
Proof. reflexivity. Qed.
Lemma n_cells_region order : 0 ≤ order → 2 * Z.of_nat (n_cells order) = region order.
Proof.
  intros. unfold n_cells, region, PAGE_SIZE, SLOB_UNIT. pose proof (Z.pow_pos_nonneg 2 order).
  replace (4096 * 2 ^ order) with (2048 * 2 ^ order * 2) by lia. rewrite Z_div_mult by lia. lia.
Qed.
#[global] Opaque n_cells.

(** The state in which [slob_alloc] has set up the fresh page [B] on list [k]. *)
Definition new_page_state (s : slob) (B : Z) (fill : Z → Z) (k : slob_list) : slob :=
  set_pages (<[B := mk_slob_page true true 2048 B 0 0 1 0 false]> (pages s))
    (set_lists (λ j, if decide (j = k) then B :: lists s j else lists s j)
       (set_cells (put_enc (map_cells B (n_cells 0) fill (cells s)) B 0 2048 2048) s)).

Lemma all_lists_add s s' B k :
  (∀ j, lists s' j = if decide (j = k) then B :: lists s j else lists s j) →
  all_lists s' ≡ₚ B :: all_lists s.
Proof.
  intros Hl. unfold all_lists. rewrite !Hl.
  destruct k; repeat case_decide; try done; solve_Permutation.
Qed.

Lemma fresh_mapped B fill m : mapped_page (map_cells B (n_cells 0) fill m) B.
Proof.
  intros i Hi. rewrite map_cells_lookup, n_cells0, decide_True; [eauto|].
  replace (B + 2 * i - B) with (i * 2) by lia. rewrite Z_mod_mult. lia.
Qed.

Lemma set_slob_base s B n o' :
  is_page B → mapped_page (cells s) B → 1 ≤ n ≤ 2048 → 0 ≤ o' ≤ 2048 →
  set_slob B n (B + 2 * o') s = Ok (tt, set_cells (put_enc (cells s) B 0 n o') s).
Proof.
  intros. pose proof (set_slob_ok s B 0 n o') as E. replace (B + 2 * 0) with B in E by lia.
  apply E; done || lia.
Qed.

Lemma delta_of_base B align : is_page B → valid_align align → delta_of B align 0 = 0.
Proof.
  intros (HB & HB0 & HB1) Ha. unfold delta_of.
  destruct (Z.eqb_spec align 0) as [->|Hne]; [done|].
  destruct Ha as [?|(k & Hk & ->)]; [done|]. replace (B + 2 * 0) with B by lia.
  rewrite align_val by lia. assert (0 < 2 ^ k) by (apply Z.pow_pos_nonneg; lia).
  assert (B mod 2 ^ k = 0) as Hm.
  { apply Z.mod_divide; [lia|]. apply Z.mod_divide in HB as [c ->]; [|lia].
    change 4096 with (2 ^ 12). replace 12 with (12 - k + k) by lia.
    rewrite Z.pow_add_r by lia. exists (c * 2 ^ (12 - k)). lia. }
  rewrite <- Zplus_mod_idemp_l, Hm, Z.add_0_l, Z.mod_small by lia.
  replace (B + (2 ^ k - 1) - (2 ^ k - 1)) with B by lia. unfold slob_sub. by rewrite Z.sub_diag.
Qed.

Lemma update_sp_put s sp pg p f :
  update_sp sp f (set_pages (<[sp := pg]> p) s) = Ok (tt, set_pages (<[sp := f pg]> p) s).
Proof.
  rewrite (update_sp_ok _ _ pg) by apply lookup_insert_eq. unfold set_pages. simpl.
  by rewrite insert_insert_eq.
Qed.

Lemma slob_page_of_base B : is_page B → slob_page_of B = B.
Proof. intros HB. unfold slob_page_of. rewrite <- (Z.add_0_r B) at 1. by apply is_page_base. Qed.

Lemma new_page_setup {R} gfp s B fill k (f : slobM R) : is_page B →
  (set_slob_page (slob_page_of B) ;;
   update_sp (slob_page_of B) (sp_set_units (SLOB_UNITS PAGE_SIZE)) ;;
   update_sp (slob_page_of B) (sp_set_free B) ;;
   set_slob B (SLOB_UNITS PAGE_SIZE) (slob_add B (SLOB_UNITS PAGE_SIZE)) ;;
   set_slob_page_free (slob_page_of B) k ;; f)
  (set_pages (<[B := fresh_page gfp 0]> (pages s))
     (set_cells (map_cells B (n_cells 0) fill (cells s)) s))
  = f (new_page_state s B fill k).
Proof.
  intros HB. rewrite slob_page_of_base by done.
  unfold set_slob_page, set_slob_page_free. do 3 erewrite bind_ok by apply update_sp_put.
  assert (SLOB_UNITS PAGE_SIZE = 2048) as -> by done.
  rewrite slob_add_base. erewrite bind_ok by (apply set_slob_base; [done|apply fresh_mapped|lia..]).
  rewrite bind_assoc_cmd. erewrite bind_ok by done.
  erewrite bind_ok by (apply update_sp_ok, lookup_insert_eq). simpl.
  unfold new_page_state, set_pages, set_cells, set_lists. simpl. by rewrite insert_insert_eq.
Qed.

Lemma heap_new_page s A B fill k :
  heap_ok s A → is_page B →
  (∀ B' pg, pages s !! B' = Some pg → B' + region (sp_order pg) ≤ B ∨ B + 4096 ≤ B') →
  let s' := new_page_state s B fill k in
  heap_wf (λ C, C = B) s' A ∧
  slab_ok s' A B (mk_slob_page true true 2048 B 0 0 1 0 false) [(0, 2048)] ∧
  (∀ x, live_cell A x → cells s' !! x = cells s !! x) ∧ raw_kept s s'.
Proof.
  intros H HB Hfresh s'. pose proof HB as (HB1 & HB2 & HB3).
  set (pg0 := mk_slob_page true true 2048 B 0 0 1 0 false).
  assert (pages s !! B = None) as Hnone.
  { apply eq_None_not_Some. intros [pg Hpg]. pose proof (ho_order _ _ _ H _ _ Hpg).
    pose proof (region_pos (sp_order pg) ltac:(done)). specialize (Hfresh B pg Hpg). lia. }
  assert (∀ x, live_cell A x → ¬ (B ≤ x < B + 4096)) as Hdead.
  { intros x (a & u & Ha & Hx) Hin.
    destruct (ho_live _ _ _ H a u Ha) as (C & pg & o & Hc & Hcs & -> & ?).
    destruct (ho_slab _ _ _ H C pg Hc Hcs) as [bl Hslc]. specialize (Hfresh C pg Hc).
    rewrite (slab_order _ _ _ _ _ Hslc), region0 in Hfresh. lia. }
  assert (∀ x, ¬ (B ≤ x < B + 4096) → cells s' !! x = cells s !! x) as Hout.
  { intros x Hx. simpl. rewrite put_enc_lookup_ne by lia. rewrite map_cells_lookup, n_cells0.
    rewrite decide_False; [done|]. lia. }
  assert (all_lists s' ≡ₚ B :: all_lists s) as Hlists by by eapply all_lists_add.
  assert (slab_ok s' A B pg0 [(0, 2048)]) as Hsl.
  { split; try done.
    - split; try done.
      + intros i Hi. simpl. by apply put_enc_mapped, fresh_mapped.
      + apply lookup_insert_eq.
      + split; [|done]. apply enc_put.
      + simpl. lia.
    - intros x Hx. rewrite free_cell_cons. unfold in_block. simpl. split; [|lia].
      intros _ Hlive. by apply (Hdead x). }
  split_and!; [|done|by auto|]; cycle 1.
  { intros C pg HC _. split; [simpl; rewrite lookup_insert_ne; congruence|].
    intros x Hx. apply Hout. specialize (Hfresh C pg HC). lia. }
  split.
  - intros C pg Hc Hcs. destruct (decide (C = B)) as [->|Hne].
    { simpl in Hc. rewrite lookup_insert_eq in Hc. injection Hc as <-. eauto. }
    simpl in Hc. rewrite lookup_insert_ne in Hc by done.
    destruct (ho_slab _ _ _ H C pg Hc Hcs) as [bl []]. exists bl. split; try done.
    specialize (Hfresh C pg Hc).
    match goal with Ho : sp_order pg = 0 |- _ => rewrite Ho, region0 in Hfresh end.
    eapply page_wf_ext; [done|simpl; by rewrite lookup_insert_ne|]. intros x Hx. apply Hout. lia.
  - intros C pg Hc Hcs HC. simpl in Hc. rewrite lookup_insert_ne in Hc by done.
    eapply (ho_used _ _ _ H); eauto.
  - intros B1 B2 pg1 pg2 H1 H2 Hne. simpl in H1, H2.
    destruct (decide (B1 = B)) as [->|]; destruct (decide (B2 = B)) as [->|]; simplify_map_eq.
    + specialize (Hfresh _ _ H2). cbn [sp_order]. rewrite region0. lia.
    + cbn [sp_order]. rewrite region0. by apply Hfresh.
    + by eapply (ho_apart _ _ _ H).
  - intros C pg Hc. simpl in Hc. destruct (decide (C = B)) as [->|]; simplify_map_eq; [done|].
    by eapply (ho_order _ _ _ H).
  - intros C. rewrite Hlists, elem_of_cons, (ho_lists _ _ _ H). simpl.
    destruct (decide (C = B)) as [->|Hne].
    + rewrite lookup_insert_eq. naive_solver.
    + rewrite lookup_insert_ne by done. naive_solver.
  - rewrite Hlists. apply NoDup_cons. split; [|apply H].
    rewrite (ho_lists _ _ _ H). intros (pg & ? & _). congruence.
  - intros a u Ha. destruct (ho_live _ _ _ H a u Ha) as (C & pg & o & Hc & ?).
    exists C, pg, o. simpl. rewrite lookup_insert_ne; [done|congruence].
  - apply H.
Qed.

(** ** Clearing a block *)

Definition zeroing (gfp : Z) : bool := negb (Z.land gfp __GFP_ZERO =? 0).

(** The byte at [a] of little-endian memory. *)
Definition byte_at (m : gmap Z Z) (a : Z) : option Z :=
  v ← m !! (a - a mod 2);
  Some (if a mod 2 =? 0 then u16 v mod 256 else u16 v / 256).

(** The [size] bytes from [b] on are zero. *)
Definition zeroed (m : gmap Z Z) (b size : Z) : Prop :=
  ∀ i, 0 ≤ i < size → byte_at m (b + i) = Some 0.

Lemma clear_cells_ok n : ∀ s b,
  (∀ i, 0 ≤ i < Z.of_nat n → is_Some (cells s !! (b + 2 * i))) →
  ∃ m', clear_cells b n s = Ok (tt, set_cells m' s) ∧
        (∀ x, is_Some (m' !! x) ↔ is_Some (cells s !! x)) ∧
        (∀ x, ¬ (b ≤ x < b + 2 * Z.of_nat n) → m' !! x = cells s !! x) ∧
        (∀ i, 0 ≤ i < Z.of_nat n → m' !! (b + 2 * i) = Some 0).
Proof.
  induction n as [|n IH]; intros s b Hm.
  - exists (cells s). split_and!; [by destruct s|done|done|lia].
  - simpl. assert (is_Some (cells s !! b)) as Hb by (rewrite <- (Z.add_0_r b); apply (Hm 0); lia).
    erewrite bind_ok by by apply store_ok.
    destruct (IH (set_cells (<[b := 0]> (cells s)) s) (b + 2)) as (m' & E & Hd & Ho & Hz).
    { intros i Hi. simpl. rewrite lookup_insert_ne by lia.
      replace (b + 2 + 2 * i) with (b + 2 * (i + 1)) by lia. apply Hm. lia. }
    exists m'. rewrite E. split_and!; [done|..].
    + intros x. rewrite Hd. simpl. rewrite lookup_insert_is_Some'. naive_solver.
    + intros x Hx. rewrite Ho by lia. simpl. rewrite lookup_insert_ne by lia. done.
    + intros i Hi. destruct (decide (i = 0)) as [->|].
      * rewrite Z.add_0_r, Ho by lia. apply lookup_insert_eq.
      * replace (b + 2 * i) with (b + 2 + 2 * (i - 1)) by lia. apply Hz. lia.
Qed.

Lemma byte_at_cell m b i :
  b mod 2 = 0 → byte_at m (b + i) = (v ← m !! (b + 2 * (i / 2));
                                     Some (if i mod 2 =? 0 then u16 v mod 256 else u16 v / 256)).
Proof.
  intros Hb. unfold byte_at. rewrite <- Zplus_mod_idemp_l, Hb, Z.add_0_l.
  replace (b + i - i mod 2) with (b + 2 * (i / 2)); [done|]. pose proof (Z.div_mod i 2). lia.
Qed.

Lemma low_byte_cleared v : u16 (s16 (u16 v - u16 v mod 256)) mod 256 = 0.
Proof.
  unfold u16, s16, wrap_u, wrap_s. change (2 ^ 16) with 65536. change (2 ^ (16 - 1)) with 32768.
  rewrite Zminus_mod_idemp_l. replace (v mod 65536 - (v mod 65536) mod 256 + 32768 - 32768)
    with (v mod 65536 - (v mod 65536) mod 256) by lia.
  assert ((v mod 65536 - (v mod 65536) mod 256) mod 256 = 0) as Hz.
  { by rewrite Zminus_mod_idemp_r, Z.sub_diag. }
  rewrite (Z.mod_small _ 65536); [done|].
  pose proof (Z.mod_pos_bound v 65536). pose proof (Z.mod_pos_bound (v mod 65536) 256).
  pose proof (Z.mod_le (v mod 65536) 256). lia.
Qed.

Lemma memset0_ok s b size :
  1 ≤ size ≤ 4096 → b mod 2 = 0 →
  (∀ i, 0 ≤ i < SLOB_UNITS size → is_Some (cells s !! (b + 2 * i))) →
  ∃ m', memset0 b size s = Ok (tt, set_cells m' s) ∧
        (∀ x, is_Some (m' !! x) ↔ is_Some (cells s !! x)) ∧
        (∀ x, ¬ (b ≤ x < b + 2 * SLOB_UNITS size) → m' !! x = cells s !! x) ∧
        zeroed m' b size.
Proof.
  intros Hs Hb. rewrite slob_units_val by lia. intros Hm. unfold memset0.
  pose proof (Z.div_mod size 2 ltac:(lia)). pose proof (Z.mod_pos_bound size 2 ltac:(lia)).
  pose proof (Z.div_mod (size + 1) 2 ltac:(lia)). pose proof (Z.mod_pos_bound (size + 1) 2 ltac:(lia)).
  destruct (clear_cells_ok (Z.to_nat (size / 2)) s b) as (m1 & E1 & Hd1 & Ho1 & Hz1).
  { intros i Hi. apply Hm. lia. }
  assert (∀ m i, (∀ j, 0 ≤ j < size / 2 → m !! (b + 2 * j) = Some 0) → 0 ≤ i < 2 * (size / 2) →
            byte_at m (b + i) = Some 0) as Hbytes.
  { intros m i Hz Hi. pose proof (Z.div_mod i 2 ltac:(lia)). pose proof (Z.mod_pos_bound i 2 ltac:(lia)).
    rewrite byte_at_cell by done. rewrite Hz by lia. simpl. by destruct (i mod 2 =? 0). }
  rewrite (bind_ok _ _ _ _ _ E1). destruct (Z.eqb_spec (size mod 2) 0) as [He|He].
  - exists m1. split_and!; [done|done| |].
    + intros x Hx. apply Ho1. lia.
    + intros i Hi. apply Hbytes; [|lia]. intros j Hj. apply Hz1. lia.
  - destruct (Hm (size / 2)) as [v Hv]; [lia|].
    assert (m1 !! (b + 2 * (size / 2)) = Some v) as Hv1 by (rewrite Ho1 by lia; done).
    erewrite bind_ok by (apply load_ok; done).
    rewrite store_ok; [|by exists v]. eexists. split; [done|]. cbn [cells set_cells]. split_and!.
    + intros x. rewrite lookup_insert_is_Some', Hd1. split; [|tauto]. intros [<-|?]; [|done]. by exists v.
    + intros x Hx. rewrite lookup_insert_ne by lia. apply Ho1. lia.
    + intros i Hi. destruct (decide (i < 2 * (size / 2))).
      * apply Hbytes; [|lia]. intros j Hj. rewrite lookup_insert_ne by lia. apply Hz1. lia.
      * assert (i = size / 2 * 2) as -> by lia. rewrite byte_at_cell by done.
        rewrite Z_div_mult, Z_mod_mult, lookup_insert_eq by lia. simpl. by rewrite low_byte_cleared.
Qed.

(** Live blocks are mapped, start on a unit, and do not overlap. *)
Lemma live_mapped E s A a u :
  heap_wf E s A → A !! a = Some u →
  a mod 2 = 0 ∧ ∀ i, 0 ≤ i < u → is_Some (cells s !! (a + 2 * i)).
Proof.
  intros H Ha. destruct (ho_live _ _ _ H a u Ha) as (B & pg & o & Hp & Hs & -> & ? & ? & ?).
  destruct (ho_slab _ _ _ H B pg Hp Hs) as [bl [[(HB & _ & _) Hm _ _ _ _ _] _ _ _ _]]. split.
  - rewrite Z.mul_comm, Z_mod_plus_full. apply Z.mod_divide in HB as [c ->]; [|lia].
    replace (c * 4096) with (c * 2048 * 2) by lia. apply Z_mod_mult.
  - intros i Hi. replace (B + 2 * o + 2 * i) with (B + 2 * (o + i)) by lia. apply Hm. lia.
Qed.

(** A live cell lies in a slob page. *)
Lemma live_in_slab E s A x :
  heap_wf E s A → live_cell A x →
  ∃ B pg, pages s !! B = Some pg ∧ PageSlab pg = true ∧ sp_order pg = 0 ∧ B ≤ x < B + 4096.
Proof.
  intros H (a & u & Ha & Hx). destruct (ho_live _ _ _ H a u Ha) as (B & pg & o & Hp & Hs & -> & ?).
  destruct (ho_slab _ _ _ H B pg Hp Hs) as [bl Hsl]. exists B, pg. destruct Hsl. split_and!; done || lia.
Qed.

Lemma live_cell_mapped E s A x :
  heap_wf E s A → live_cell A x → x mod 2 = 0 → is_Some (cells s !! x).
Proof.
  intros H (a & u & Ha & Hx) He. destruct (live_mapped _ _ _ _ _ H Ha) as [Hae Hm].
  apply Z.mod_divide in He as [c ->]; [|lia]. apply Z.mod_divide in Hae as [d ->]; [|lia].
  replace (c * 2) with (d * 2 + 2 * (c - d)) by lia. apply Hm. lia.
Qed.

Lemma live_apart E s A r u x :
  heap_wf E s (<[r := u]> A) → A !! r = None → live_cell A x → ¬ (r ≤ x < r + 2 * u).
Proof.
  intros H Hr (a & v & Ha & Hx) Hin. assert (a ≠ r) by congruence.
  pose proof (ho_disj _ _ _ H a r v u). rewrite lookup_insert_eq, lookup_insert_ne in * by done. naive_solver lia.
Qed.

(** ** The search and the new page *)

Section Alloc.
Context (size align : Z).
Context (Ha : valid_align align) (Hsz : 1 ≤ size ≤ 4096).

Lemma units_range : 1 ≤ SLOB_UNITS size ≤ 2048.
Proof.
  rewrite slob_units_val by lia. split; [apply Z.div_le_lower_bound; lia|].
  apply Z.lt_succ_r. apply Z.div_lt_upper_bound; lia.
Qed.

(** What a successful allocation at [r] gives. *)
Record allocated (s s' : slob) (A : gmap Z Z) (r : Z) : Prop := {
  al_addr : 16 < r;
  al_new : A !! r = None;
  al_align : align ≠ 0 → r mod align = 0;
  al_heap : heap_ok s' (<[r := SLOB_UNITS size]> A);
  al_keep : ∀ x, live_cell A x → cells s' !! x = cells s !! x;
  al_raw : raw_kept s s'
}.

Lemma page_alloc_heap E s A B pg bl :
  heap_wf E s A → (∀ C, E C → C = B) → slab_ok s A B pg bl → PageSlab pg = true → bl ≠ [] →
  (slob_page_alloc B size align s = Ok (0, s) ∧
     ∀ b, b ∈ bl → ¬ fits B (SLOB_UNITS size) align b) ∨
  (∃ r s', slob_page_alloc B size align s = Ok (r, s') ∧ allocated s s' A r ∧
           mem_used s' = mem_used s ∧ mem_claimed s' = mem_claimed s).
Proof.
  intros H HE Hsl Hslab Hne. pose proof (slab_wf _ _ _ _ _ Hsl) as Hwf.
  pose proof units_range as Hu.
  destruct (slob_page_alloc_ok s B pg bl size align Hwf Hne Ha ltac:(lia))
    as [[Hno E0]|(l1 & o & n & l2 & m' & -> & Hfit & _ & _ & E1 & Hl & Hf)]; [left; done|right].
  pose proof (page_wf_weak _ _ _ _ Hwf) as Hs0. pose proof (sorted_mid _ _ _ _ Hs0) as (? & ? & ? & _).
  destruct (delta_spec B align o) as [Hd Hal]; [apply Hwf|done|lia|].
  unfold fits in Hfit. simpl in Hfit.
  destruct (alloc_heap E s A B pg l1 o n l2 (delta_of B align o) (SLOB_UNITS size) m')
    as (HAr & Hok & Hkeep); try done; [lia..|].
  do 2 eexists. split; [exact E1|]. split; [|done]. split; try done.
  - destruct (wf_page _ _ _ _ Hwf) as (HB & HB0 & _).
    assert (4096 ≤ B); [|lia]. apply Z.mod_divide in HB as [c ->]; lia.
  - intros Hne0. by apply Hal.
  - eapply (raw_kept_page E); try done; simpl.
    + intros C HC. by rewrite lookup_insert_ne.
    + intros x Hx. apply Hf. intros Hfc. by eapply Hx, free_cell_page.
Qed.

Lemma search_ok k s A prev rest :
  heap_ok s A → (∀ B, B ∈ rest → B ∈ all_lists s) →
  slob_alloc_search k size align prev rest s = Ok (0, s) ∨
  (∃ r s', slob_alloc_search k size align prev rest s = Ok (r, s') ∧ allocated s s' A r ∧
           mem_used s' = s32 (mem_used s + size) ∧ mem_claimed s' = mem_claimed s).
Proof.
  intros H. revert prev. induction rest as [|B rest IH]; intros prev Hin; simpl; [by left|].
  destruct (proj1 (ho_lists _ _ _ H B)) as (pg & Hpg & Hslab & Hfree); [set_solver|].
  erewrite bind_ok by by apply get_sp_ok.
  destruct (_ <? _); [apply IH; set_solver|].
  destruct (ho_slab _ _ _ H B pg Hpg Hslab) as [bl Hsl].
  destruct (page_alloc_heap (λ _, False) s A B pg bl)
    as [[E0 _]|(r & s1 & E1 & Hal & Hmu & Hmc)]; try done.
  { by apply (slab_free _ _ _ _ _ Hsl). }
  - rewrite (bind_ok _ _ _ _ _ E0). apply IH. set_solver.
  - right. rewrite (bind_ok _ _ _ _ _ E1). destruct Hal.
    assert (r =? 0 = false) as -> by (apply Z.eqb_neq; lia). unfold set_mem_used. run_step.
    destruct (slob_rotate_ok k prev (mk_slob (cells s1) (pages s1) (lists s1)
      (s32 (mem_used s1 + size)) (mem_claimed s1) (reclaim_state s1) (slob_ready s1)))
      as (ls & Er & Hls).
    rewrite (bind_ok _ _ _ _ _ Er). do 2 eexists. split; [done|]. split; [|simpl; by rewrite Hmu].
    split; try done. by eapply heap_wf_same.
Qed.

(** ** The new page *)

Lemma new_page_ok `{PageAllocatorOk} k gfp s A :
  heap_ok s A →
  slob_alloc_new_page k size gfp align s = Ok (0, s) ∨
  (∃ r s', slob_alloc_new_page k size gfp align s = Ok (r, s') ∧ allocated s s' A r ∧
           mem_used s' = mem_used s ∧ mem_claimed s' = s32 (mem_claimed s + 4096)).
Proof.
  intros Hok. unfold slob_alloc_new_page.
  destruct (alloc_pages (Z.land gfp (Z.lnot __GFP_ZERO)) 0 s) as [[B fill]|] eqn:Ealloc;
    [right|left]; erewrite bind_ok by (unfold slob_new_pages; run_step; unfold id; rewrite Ealloc; reflexivity);
    [|done].
  destruct (alloc_pages_page _ _ _ _ _ (Z.le_refl 0) Ealloc) as [HB _].
  pose proof HB as (HB1 & HB2 & HB3).
  assert (B =? 0 = false) as -> by (apply Z.eqb_neq; lia).
  destruct (heap_new_page s A B fill k) as (Hwf & Hsl & Hkeep & Hraw); [done|done| |].
  { intros B' pg Hpg. exact (alloc_pages_fresh _ _ _ _ _ _ _ (Z.le_refl 0) Ealloc Hpg). }
  destruct (page_alloc_heap (λ C, C = B) (new_page_state s B fill k) A B _ _ Hwf (λ C HC, HC)
    Hsl eq_refl (not_eq_sym (nil_cons (l := []))))
    as [[_ Hno]|(r & s1 & E1 & Hal & Hmu & Hmc)].
  { exfalso. apply (Hno (0, 2048)); [set_solver|]. unfold fits. simpl.
    rewrite delta_of_base by done. pose proof units_range. lia. }
  rewrite (new_page_setup _ s B fill k), slob_page_of_base by done.
  rewrite (bind_ok _ _ _ _ _ E1). destruct Hal.
  assert (r =? 0 = false) as -> by (apply Z.eqb_neq; lia).
  erewrite bind_ok by done. erewrite bind_ok by done. do 2 eexists. split; [done|]. simpl. rewrite Hmu, Hmc.
  split; [|done]. split; try done.
  - by eapply heap_wf_same.
  - intros x Hx. rewrite al_keep0 by done. by apply Hkeep.
  - by eapply raw_kept_trans.
Qed.

Lemma alloc_finish gfp s s1 A r :
  allocated s s1 A r →
  ∃ s', ((if negb (Z.land gfp __GFP_ZERO =? 0) && negb (r =? 0) then memset0 r size else mret tt)
         ≫= λ _, mret r) s1 = Ok (r, s') ∧
        allocated s s' A r ∧ (zeroing gfp = true → zeroed (cells s') r size) ∧
        mem_used s' = mem_used s1 ∧ mem_claimed s' = mem_claimed s1.
Proof.
  intros [Hr Hnew Hal Hheap Hkeep Hraw]. fold (zeroing gfp).
  assert (r =? 0 = false) as -> by (apply Z.eqb_neq; lia). rewrite andb_true_r.
  destruct (zeroing gfp) eqn:Hz; [|exists s1; by split_and!].
  destruct (live_mapped _ _ _ r (SLOB_UNITS size) Hheap) as [He Hm]; [apply lookup_insert_eq|].
  destruct (memset0_ok s1 r size) as (m' & E & Hdom & Hout & Hzero); [done..|].
  rewrite (bind_ok _ _ _ _ _ E). exists (set_cells m' s1). split_and!; try done.
  split; try done.
  - eapply heap_wf_write; try done. intros x Hx. apply Hout. intros Hin. apply Hx.
    apply live_cell_insert; [done|]. by left.
  - intros x Hx. rewrite <- Hkeep by done. apply Hout.
    eapply live_apart; done.
  - destruct (ho_live _ _ _ Hheap r (SLOB_UNITS size)) as (B & pg & o & Hpg & Hps & -> & ? & ? & ?);
      [apply lookup_insert_eq|].
    destruct (ho_slab _ _ _ Hheap B pg Hpg Hps) as [bl Hsl].
    eapply raw_kept_trans; [done|]. eapply (raw_kept_page (λ _, False)); try done.
    intros x Hx. apply Hout. lia.
Qed.

(** ** [slob_alloc] *)

Lemma slob_alloc_spec `{PageAllocatorOk} gfp s A :
  heap_ok s A →
  slob_alloc size gfp align s = Ok (0, s) ∨
  (∃ r s', slob_alloc size gfp align s = Ok (r, s') ∧ allocated s s' A r ∧
     (zeroing gfp = true → zeroed (cells s') r size) ∧
     ((mem_used s' = s32 (mem_used s + size) ∧ mem_claimed s' = mem_claimed s) ∨
      (mem_used s' = mem_used s ∧ mem_claimed s' = s32 (mem_claimed s + 4096)))).
Proof.
  intros Hok. unfold slob_alloc. run_step.
  destruct (search_ok (slob_list_for size) s A None (lists s (slob_list_for size)))
    as [E|(r & s1 & E & Hal & Hmu & Hmc)]; [done|apply all_lists_elem| |];
    rewrite (bind_ok _ _ _ _ _ E); simpl.
  - destruct (new_page_ok (slob_list_for size) gfp s A)
      as [E'|(r & s1 & E' & Hal & Hmu & Hmc)]; [done|left|right]; rewrite (bind_ok _ _ _ _ _ E').
    { by rewrite andb_false_r. }
    destruct (alloc_finish gfp s s1 A r Hal) as (s' & -> & Hal' & Hz & Hmu' & Hmc').
    exists r, s'. rewrite Hmu', Hmc', Hmu, Hmc. split_and!; auto.
  - right. assert (r =? 0 = false) as Hr by (destruct Hal; apply Z.eqb_neq; lia).
    rewrite Hr. run_step.
    destruct (alloc_finish gfp s s1 A r Hal) as (s' & -> & Hal' & Hz & Hmu' & Hmc').
    exists r, s'. rewrite Hmu', Hmc', Hmu, Hmc. split_and!; auto.
Qed.
End Alloc.
