(* ===== verification/SlobFree.v ===== *)
(** * Releasing SLOB blocks: [slob_free] keeps the heap invariant (project4/slob.c) *)

From S2P Require Import Prelude SlobPage SlobHeap SlobInv.

Lemma live_cell_delete E s A b u x :
  heap_wf E s A → A !! b = Some u →
  live_cell (delete b A) x ↔ live_cell A x ∧ ¬ (b ≤ x < b + 2 * u).
Proof.
  intros H Hb. unfold live_cell. split.
  - intros (a & v & Ha & Hx). apply lookup_delete_Some in Ha as [Hne Ha].
    split; [eauto|]. pose proof (ho_disj _ _ _ H a b v u Ha Hb). lia.
  - intros [(a & v & Ha & Hx) Hn]. exists a, v. split; [|done].
    apply lookup_delete_Some. split; [|done]. intros <-. simplify_eq. lia.
Qed.

Lemma disjoint_delete (A : gmap Z Z) b a v c w :
  (∀ a b u v, A !! a = Some u → A !! b = Some v → a ≠ b → a + 2 * u ≤ b ∨ b + 2 * v ≤ a) →
  delete b A !! a = Some v → delete b A !! c = Some w → a ≠ c → a + 2 * v ≤ c ∨ c + 2 * w ≤ a.
Proof. intros H [_ Ha]%lookup_delete_Some [_ Hc]%lookup_delete_Some. eauto. Qed.

(** Free blocks that fill a page are the one block of the whole page. *)
Lemma sorted_full bl : sorted_blocks 1 0 bl → sumZ (bl.*2) = 2048 → bl = [(0, 2048)].
Proof.
  destruct bl as [|[o n] bl]; [done|]. cbn [sorted_blocks]. intros (Ho & Hn & Hon & Hs) Hsum. csimpl in Hsum.
  destruct bl as [|[o' n'] bl].
  - csimpl in Hsum. repeat f_equal; lia.
  - pose proof (sorted_blocks_sum 1 (o + n + 1) _ ltac:(lia) Hs) as Hle.
    cbn [sorted_blocks] in Hs. specialize (Hle ltac:(lia)). csimpl in Hle; csimpl in Hsum. lia.
Qed.

Section Free.
Context (s : slob) (A : gmap Z Z) (B : Z) (pg : slob_page) (bl : list (Z * Z)) (o u : Z).
Context (H : heap_ok s A) (Hsl : slab_ok s A B pg bl) (Hslab : PageSlab pg = true).
Context (HA : A !! (B + 2 * o) = Some u) (Ho : 0 ≤ o) (Hu : 1 ≤ u) (Hou : o + u ≤ 2048).

Lemma live_in_block x : B + 2 * o ≤ x < B + 2 * (o + u) → live_cell A x.
Proof. intros Hx. exists (B + 2 * o), u. split; [done|lia]. Qed.

Lemma free_block_disjoint b : b ∈ bl → disjoint_block b (o, u).
Proof.
  intros Hb. destruct b as [a n]. unfold disjoint_block. simpl.
  destruct Hsl as [Hwf _ _ _ Htile]. pose proof (page_wf_weak _ _ _ _ Hwf) as Hs.
  pose proof (sorted_blocks_in 0 0 bl a n ltac:(lia) Hs Hb).
  destruct (decide (a + n ≤ o ∨ o + u ≤ a)) as [?|Hc]; [done|exfalso].
  assert (B ≤ B + 2 * Z.max a o < B + 4096) as Hin by lia.
  apply (proj1 (Htile _ Hin)); [|apply live_in_block; lia].
  exists (a, n). split; [done|]. unfold in_block. simpl. lia.
Qed.

Lemma freed_sorted : sorted_blocks 1 0 (add_free o u bl).
Proof.
  apply add_free_sorted; [apply Hsl|lia..|]. apply free_block_disjoint.
Qed.

Lemma freed_cells x : free_cell B (add_free o u bl) x ↔ in_block B (o, u) x ∨ free_cell B bl x.
Proof. eapply add_free_cells; [apply Hsl|done|apply free_block_disjoint]. Qed.

Lemma freed_tile x : B ≤ x < B + 4096 →
  free_cell B (add_free o u bl) x ↔ ¬ live_cell (delete (B + 2 * o) A) x.
Proof.
  intros Hx. rewrite freed_cells, (slab_tile _ _ _ _ _ Hsl x Hx), live_cell_delete by done.
  unfold in_block. simpl. split; [naive_solver lia|]. intros Hn.
  destruct (decide (B + 2 * o ≤ x < B + 2 * (o + u))); [by left|right]. intros Hl. apply Hn.
  split; [done|lia].
Qed.

(** The invariant after the units join the free list of their page. *)
Lemma free_heap s' pg' m' :
  let bl' := add_free o u bl in
  pages s' = <[B := pg']> (pages s) → cells s' = m' →
  linked m' B bl' 2048 → frame B ((o, u) :: bl) (cells s) m' →
  PageSlab pg' = true → PageSlobFree pg' = true → sp_count pg' = 1 → sp_order pg' = 0 →
  sp_units pg' = sumZ (bl.*2) + u → sumZ (bl.*2) + u ≠ 2048 → sp_free pg' = B + 2 * hd_off bl' 2048 →
  (∀ C, C ∈ all_lists s' ↔ C = B ∨ C ∈ all_lists s) → NoDup (all_lists s') →
  heap_ok s' (delete (B + 2 * o) A) ∧
  (∀ x, live_cell (delete (B + 2 * o) A) x → cells s' !! x = cells s !! x).
Proof.
  intros bl' Hp Hc Hl Hf Hps Hpf Hcnt Hord Hun Hne Hfree Hlists Hnd.
  pose proof (slab_wf _ _ _ _ _ Hsl) as Hwf. pose proof freed_sorted as Hs'.
  assert (∀ x, free_cell B ((o, u) :: bl) x ↔ free_cell B bl' x) as Hcells.
  { intros x. unfold bl'. by rewrite freed_cells, free_cell_cons. }
  assert (∀ x, free_cell B bl' x → B ≤ x < B + 4096) as Hin.
  { intros x. apply free_cell_page. by eapply sorted_blocks_weaken; [exact Hs'|lia..]. }
  pose proof (add_free_sum o u bl) as Hsum.
  pose proof (sorted_blocks_sum 1 0 _ ltac:(lia) Hs' ltac:(lia)) as Hle. fold bl' in Hsum, Hle.
  split.
  - eapply (heap_update (λ _, False) (λ _, False) s s' A); try exact Hsl; try done.
    + intros x Hx. rewrite Hc. apply Hf. rewrite Hcells. naive_solver.
    + intros x Hx. rewrite live_cell_delete by done. split; [tauto|]. intros Hlx. split; [done|lia].
    + split; try done.
      * split; try done; rewrite ?Hc; try done.
        -- apply Hwf.
        -- eapply frame_mapped; [done|apply Hwf].
        -- by rewrite Hp, lookup_insert_eq.
        -- rewrite Hun. symmetry. exact Hsum.
      * rewrite Hpf. split; [|done]. intros _. apply add_free_nonempty.
      * apply freed_tile.
    + intros _. fold bl' in Hle. lia.
    + intros C HC. rewrite Hlists. naive_solver.
    + rewrite Hlists. naive_solver.
    + intros a v [_ Ha]%lookup_delete_Some. by right.
    + intros a c v w. apply disjoint_delete, H.
  - intros x Hx. rewrite Hc. apply Hf. rewrite Hcells. intros Hfc. apply (freed_tile x); auto.
Qed.

(** The invariant after the page went back to the page allocator. *)
Lemma drop_heap s' :
  sumZ (bl.*2) + u = 2048 →
  pages s' = delete B (pages s) →
  (∀ x, ¬ (B ≤ x < B + 4096) → cells s' !! x = cells s !! x) →
  (∀ C, C ∈ all_lists s' ↔ C ≠ B ∧ C ∈ all_lists s) → NoDup (all_lists s') →
  heap_ok s' (delete (B + 2 * o) A) ∧
  (∀ x, live_cell (delete (B + 2 * o) A) x → cells s' !! x = cells s !! x).
Proof.
  intros Hfull Hp Hc Hlists Hnd.
  assert (∀ x, live_cell (delete (B + 2 * o) A) x → ¬ (B ≤ x < B + 4096)) as Hout.
  { intros x Hx Hin. apply (freed_tile x); [done| |done].
    rewrite (sorted_full (add_free o u bl)) by (apply freed_sorted || rewrite add_free_sum; lia).
    rewrite free_cell_cons. left. unfold in_block. simpl. lia. }
  split; [|by auto].
  assert (pages s !! B = Some pg) as Hpg by apply Hsl.
  split; rewrite ?Hp.
  - intros C pgc [Hne HC]%lookup_delete_Some Hcs.
    destruct (ho_slab _ _ _ H C pgc HC Hcs) as [blc Hslc].
    pose proof (slab_apart _ _ _ _ _ _ _ _ _ H Hslc Hsl ltac:(done)) as Hap.
    exists blc. destruct Hslc. split; try done.
    + eapply page_wf_ext; [done|rewrite Hp; by apply lookup_delete_Some|]. intros x Hx. apply Hc. lia.
    + intros x Hx. rewrite live_cell_delete by done. rewrite slab_tile by done. split; [tauto|].
      intros Hn Hl. apply Hn. split; [done|lia].
  - intros C pgc [Hne HC]%lookup_delete_Some. exact (ho_used _ _ _ H C pgc HC).
  - intros B1 B2 pg1 pg2 [_ H1]%lookup_delete_Some [_ H2]%lookup_delete_Some.
    exact (ho_apart _ _ _ H B1 B2 pg1 pg2 H1 H2).
  - intros C pgc [_ HC]%lookup_delete_Some. by eapply (ho_order _ _ _ H).
  - intros C. rewrite Hlists, (ho_lists _ _ _ H). setoid_rewrite lookup_delete_Some. naive_solver.
  - done.
  - intros a v Ha. pose proof Ha as [_ Ha']%lookup_delete_Some.
    destruct (ho_live _ _ _ H a v Ha') as (C & pgc & o' & HC & Hcs & -> & ?).
    exists C, pgc, o'. split; [|done]. apply lookup_delete_Some. split; [|done]. intros <-.
    apply (Hout (B + 2 * o')); [|lia]. exists (B + 2 * o'), v. split; [done|lia].
  - intros a c v w. apply disjoint_delete, H.
Qed.
End Free.

(** ** [slob_free] *)

(** No page becomes one that is not a slob page. *)
Definition raw_old (s s' : slob) : Prop :=
  ∀ C pg, pages s' !! C = Some pg → PageSlab pg = false → pages s !! C = Some pg.

Lemma raw_old_insert s s' B pg : pages s' = <[B := pg]> (pages s) → PageSlab pg = true → raw_old s s'.
Proof. intros E Hs C pgc. rewrite E. intros [[<- <-]|[_ ?]]%lookup_insert_Some; congruence. Qed.

Lemma unmap_cells_out B n m x :
  ¬ (B ≤ x < B + 2 * Z.of_nat n) → unmap_cells B n m !! x = m !! x.
Proof.
  intros Hx. unfold unmap_cells. assert (∀ l, (∀ i, i ∈ l → (i < n)%nat) →
    foldr (λ i m, delete (B + 2 * Z.of_nat i) m) m l !! x = m !! x) as Hl.
  { intros l. induction l as [|i l IH]; intros Hl; cbn [foldr]; [done|].
    rewrite lookup_delete_ne; [apply IH; set_solver|]. specialize (Hl i ltac:(set_solver)). lia. }
  apply Hl. intros i. rewrite elem_of_seq. lia.
Qed.

(** The state after the page [B] is released. *)
Definition released (s : slob) (B size : Z) (ls : slob_list → list Z) : slob :=
  mk_slob (unmap_cells B (n_cells 0) (cells s)) (delete B (pages s)) ls
    (s32 (mem_used s - size)) (s32 (mem_claimed s - 4096))
    (match reclaim_state s with Some r => Some (u32 (r + 1)) | None => None end) (slob_ready s).

Section FreeRun.
Context (s : slob) (A : gmap Z Z) (B : Z) (pg : slob_page) (bl : list (Z * Z)) (o size : Z).
Context (H : heap_ok s A) (Hsl : slab_ok s A B pg bl) (Hslab : PageSlab pg = true).
Context (Hsz : 1 ≤ size ≤ 4096) (HA : A !! (B + 2 * o) = Some (SLOB_UNITS size)).
Context (Ho : 0 ≤ o) (Hou : o + SLOB_UNITS size ≤ 2048).

Lemma release_tail s1 pg1 :
  pages s1 !! B = Some pg1 → sp_count pg1 = 1 →
  (clear_slob_page B ;; free_slob_page B ;; slob_free_pages (B + 2 * o) 0) s1 =
  Ok (tt, mk_slob (unmap_cells B (n_cells 0) (cells s1)) (delete B (pages s1)) (lists s1)
            (mem_used s1) (mem_claimed s1)
            (match reclaim_state s1 with Some r => Some (u32 (r + 1)) | None => None end)
            (slob_ready s1)).
Proof.
  intros Hp Hc. pose proof (slab_wf _ _ _ _ _ Hsl) as [HB _ _ _ _ _ _].
  pose proof HB as (_ & HB0 & _). pose proof (units_range size Hsz).
  unfold clear_slob_page, free_slob_page, slob_free_pages, free_pages.
  erewrite bind_ok by by apply update_sp_ok. erewrite bind_ok by apply update_sp_put. run_step.
  destruct (Z.eqb_spec (B + 2 * o) 0); [lia|]. cbn [negb].
  rewrite is_page_base by (done || lia).
  erewrite bind_ok by (apply get_sp_ok, lookup_insert_eq). cbn [sp_count sp_set_slab].
  rewrite Hc. simpl. unfold modify, set_pages, set_cells. simpl. do 3 f_equal. by rewrite delete_insert_eq.
Qed.

(** [s] once [mem_used] is charged. *)
Definition charged : slob :=
  mk_slob (cells s) (pages s) (lists s) (s32 (mem_used s - size)) (mem_claimed s)
    (reclaim_state s) (slob_ready s).

Lemma free_prefix :
  slob_free (B + 2 * o) size s =
  (if sumZ (bl.*2) + SLOB_UNITS size =? 2048 then slob_free_whole B (B + 2 * o)
   else if negb (PageSlobFree pg) then slob_free_first B (B + 2 * o) (SLOB_UNITS size) size
   else update_sp B (λ p, sp_set_units (s16 (sp_units p + SLOB_UNITS size)) p) ;;
        slob_free_reinsert B (B + 2 * o) (SLOB_UNITS size)) charged.
Proof.
  pose proof (units_range size Hsz).
  pose proof (slab_wf _ _ _ _ _ Hsl) as [HB _ Hpg _ _ _ Hun]. pose proof HB as (HB1 & HB0 & _).
  unfold slob_free, ZERO_OR_NULL_PTR, ZERO_SIZE_PTR. destruct (Z.leb_spec (B + 2 * o) 16).
  { apply Z.mod_divide in HB1 as [c ->]; lia. }
  destruct (Z.eqb_spec size 0); [lia|]. erewrite bind_ok by done. erewrite bind_ok by done.
  unfold slob_page_of. rewrite is_page_base by (done || lia).
  erewrite bind_ok by by apply get_sp_ok. rewrite s16_id, Hun by lia.
  change (SLOB_UNITS PAGE_SIZE) with 2048. fold charged. destruct (_ =? 2048); [done|].
  erewrite bind_ok; [done|]. unfold slob_page_free. by erewrite bind_ok by by apply get_sp_ok.
Qed.

Lemma free_whole :
  ∃ ls, slob_free_whole B (B + 2 * o) charged = Ok (tt, released s B size ls) ∧
        ∀ k, ls k = filter (λ q, q ≠ B) (lists s k).
Proof.
  pose proof (slab_wf _ _ _ _ _ Hsl) as [HB _ Hpg _ _ _ Hun].
  unfold slob_free_whole. erewrite bind_ok by done. unfold slob_page_free. rewrite bind_assoc_cmd.
  erewrite bind_ok by by apply get_sp_ok. run_step. destruct (PageSlobFree pg) eqn:Hf.
  - unfold clear_slob_page_free. rewrite bind_assoc_cmd. erewrite bind_ok by done.
    erewrite bind_ok by by apply update_sp_ok.
    rewrite (release_tail _ (sp_set_slobfree false pg)); [|apply lookup_insert_eq|apply Hsl].
    unfold released, set_pages. simpl. rewrite delete_insert_eq. eexists. done.
  - run_step. rewrite (release_tail _ pg); [|done|apply Hsl]. exists (lists s). split; [done|].
    intros k. symmetry. apply filter_id. intros C HC ->. apply all_lists_elem in HC.
    apply (ho_lists _ _ _ H) in HC as (? & ? & ? & ?). congruence.
Qed.

Lemma free_first :
  bl = [] → SLOB_UNITS size ≠ 2048 →
  ∃ s', slob_free_first B (B + 2 * o) (SLOB_UNITS size) size charged = Ok (tt, s') ∧
    heap_ok s' (delete (B + 2 * o) A) ∧
    (∀ x, live_cell (delete (B + 2 * o) A) x → cells s' !! x = cells s !! x) ∧
    mem_used s' = s32 (mem_used s - size) ∧ mem_claimed s' = mem_claimed s ∧ raw_kept s s' ∧ raw_old s s'.
Proof.
  intros Hbl Hne. pose proof (units_range size Hsz).
  pose proof (slab_wf _ _ _ _ _ Hsl) as [HB Hm Hpg _ _ _ Hun]. unfold slob_free_first.
  erewrite bind_ok by by apply update_sp_ok. erewrite bind_ok by apply update_sp_put.
  change (SLOB_UNITS PAGE_SIZE) with 2048. rewrite slob_add_off.
  assert (page_base (B + 2 * (o + 2048)) = B + 2 * 2048) as ->.
  { rewrite page_base_sub. destruct HB as [HB _].
    replace (B + 2 * (o + 2048)) with (B + (2 * o + 1 * 4096)) by lia.
    rewrite <- Zplus_mod_idemp_l, HB, Z.add_0_l, Z_mod_plus_full, Z.mod_small; lia. }
  erewrite bind_ok by (apply set_slob_ok; done || lia).
  unfold set_slob_page_free. erewrite bind_ok by done.
  rewrite (update_sp_ok _ _ (sp_set_free (B + 2 * o) (sp_set_units (SLOB_UNITS size) pg)))
    by apply lookup_insert_eq.
  eexists. split; [done|]. apply and_regroup; [|split_and!; [done|done| |];
    [eapply (raw_kept_page (λ _, False)); try done; simpl;
       [by intros; rewrite !lookup_insert_ne|intros x Hx; apply put_enc_lookup_ne; lia]
    |eapply raw_old_insert; [simpl; by rewrite !insert_insert_eq|done]]].
  eapply (free_heap s A B pg bl o (SLOB_UNITS size)) with
    (pg' := sp_set_slobfree true (sp_set_free (B + 2 * o) (sp_set_units (SLOB_UNITS size) pg)));
    try done; try apply Hsl; try lia.
  - simpl. by rewrite insert_insert_eq.
  - subst bl. split; [|done]. apply enc_put.
  - apply frame_put_gen; try done; try lia. intros x Hx. rewrite free_cell_cons. by left.
  - subst bl. simpl. lia.
  - subst bl. simpl. lia.
  - by subst bl.
  - intros C. by rewrite (all_lists_add s _ B (slob_list_for size)), elem_of_cons by done.
  - rewrite (all_lists_add s _ B (slob_list_for size)) by done. apply NoDup_cons. split; [|apply H].
    rewrite (ho_lists _ _ _ H). intros (pg' & ? & ? & Hpf). assert (pg' = pg) as -> by congruence.
    apply (slab_free _ _ _ _ _ Hsl) in Hpf. done.
Qed.

Lemma free_join :
  bl ≠ [] → sumZ (bl.*2) + SLOB_UNITS size ≠ 2048 →
  ∃ s', (update_sp B (λ p, sp_set_units (s16 (sp_units p + SLOB_UNITS size)) p) ;;
         slob_free_reinsert B (B + 2 * o) (SLOB_UNITS size)) charged = Ok (tt, s') ∧
    heap_ok s' (delete (B + 2 * o) A) ∧
    (∀ x, live_cell (delete (B + 2 * o) A) x → cells s' !! x = cells s !! x) ∧
    mem_used s' = s32 (mem_used s - size) ∧ mem_claimed s' = mem_claimed s ∧ raw_kept s s' ∧ raw_old s s'.
Proof.
  intros Hbl Hne. pose proof (units_range size Hsz) as Hu.
  pose proof (slab_wf _ _ _ _ _ Hsl) as [HB Hm Hpg Hl Hs Hfree Hun].
  pose proof (add_free_sum o (SLOB_UNITS size) bl) as Hsum.
  pose proof (sorted_blocks_sum 1 0 _ ltac:(lia) Hs ltac:(lia)) as Hle.
  erewrite bind_ok by by apply update_sp_ok. cbn beta. rewrite Hun, s16_id by lia.
  destruct (slob_free_reinsert_ok
    (set_pages (<[B := sp_set_units (sumZ (bl.*2) + SLOB_UNITS size) pg]> (pages charged)) charged)
    B o (SLOB_UNITS size) (sp_set_units (sumZ (bl.*2) + SLOB_UNITS size) pg) bl)
    as (m' & E & Hl' & Hf'); try done; try lia.
  { apply lookup_insert_eq. }
  { eapply free_block_disjoint; done || lia. }
  assert (∀ x, ¬ (B ≤ x < B + 4096) → m' !! x = cells s !! x) as Hout.
  { intros x Hx. apply Hf'. rewrite free_cell_cons. intros [Hin|Hin].
    - unfold in_block in Hin. simpl in Hin. lia.
    - eapply Hx, free_cell_page; [by eapply page_wf_weak, Hsl|done]. }
  rewrite E. eexists. split; [done|]. apply and_regroup; [|split_and!; [done|done| |];
    [eapply (raw_kept_page (λ _, False)); try done; simpl; by intros; rewrite !lookup_insert_ne
    |eapply raw_old_insert; [simpl; by rewrite !insert_insert_eq|done]]].
  eapply (free_heap s A B pg bl o (SLOB_UNITS size)) with
    (pg' := sp_set_free (B + 2 * hd_off (add_free o (SLOB_UNITS size) bl) 2048)
              (sp_set_units (sumZ (bl.*2) + SLOB_UNITS size) pg));
    try done; try apply Hsl; try lia.
  - simpl. by rewrite insert_insert_eq.
  - done.
  - intros C. split; [by right|]. intros [->|?]; [|done]. apply (ho_lists _ _ _ H).
    exists pg. split_and!; try done. by apply (slab_free _ _ _ _ _ Hsl).
  - apply H.
Qed.
End FreeRun.

(** What releasing the live block [b] of [size] bytes gives. *)
Lemma slob_free_spec s A b size :
  heap_ok s A → 1 ≤ size ≤ 4096 → A !! b = Some (SLOB_UNITS size) →
  ∃ s', slob_free b size s = Ok (tt, s') ∧ heap_ok s' (delete b A) ∧
    (∀ x, live_cell (delete b A) x → cells s' !! x = cells s !! x) ∧
    mem_used s' = s32 (mem_used s - size) ∧
    (mem_claimed s' = mem_claimed s ∨ mem_claimed s' = s32 (mem_claimed s - 4096)) ∧ raw_kept s s' ∧ raw_old s s'.
Proof.
  intros H Hsz HA. destruct (ho_live _ _ _ H _ _ HA) as (B & pg & o & Hpg & Hslab & -> & Ho & Hu & Hou).
  destruct (ho_slab _ _ _ H B pg Hpg Hslab) as [bl Hsl].
  rewrite (free_prefix s A B pg bl o size) by done.
  destruct (Z.eqb_spec (sumZ (bl.*2) + SLOB_UNITS size) 2048) as [Hfull|Hnf].
  - destruct (free_whole s A B pg bl o size) as (ls & -> & Hls); try done.
    eexists. split; [done|]. apply and_regroup; [|split_and!; [done|by right| |];
      [eapply (raw_kept_page (λ _, False)); try done; simpl;
         [by intros; rewrite lookup_delete_ne|intros x Hx; by apply unmap_cells_out]
      |intros C pgc HC _; simpl in HC; by apply lookup_delete_Some in HC as [_ ?]]].
    assert (all_lists (released s B size ls) = filter (λ q, q ≠ B) (all_lists s)) as Hall.
    { unfold all_lists. simpl. by rewrite !Hls, !filter_app. }
    eapply drop_heap; try done.
    + intros x Hx. simpl. by apply unmap_cells_out.
    + intros C. rewrite Hall. by rewrite list_elem_of_filter.
    + rewrite Hall. apply NoDup_filter, H.
  - destruct (PageSlobFree pg) eqn:Hf; cbn [negb].
    + destruct (free_join s A B pg bl o size) as (s' & ? & ? & ? & ? & ? & ? & ?); try done.
      { by apply (slab_free _ _ _ _ _ Hsl). }
      exists s'. split_and!; auto.
    + assert (bl = []) as ->.
      { destruct bl; [done|]. assert (PageSlobFree pg = true) by by apply (slab_free _ _ _ _ _ Hsl). congruence. }
      destruct (free_first s A B pg [] o size) as (s' & ? & ? & ? & ? & ? & ? & ?); try done.
      exists s'. split_and!; auto.
Qed.
