(* ===== verification/SlobSpec.v ===== *)
(** * What SLOB promises its clients (project4/slob.c)

    The abstract heap is a finite map [A] of live blocks (address to units).
    [heap_spec] says what each request may return and do to it; the theorems
    show that [slob_alloc] and [slob_free] implement it from the empty heap
    on, never fault or run out of fuel on legal requests, pick the best
    fitting block of a page, and give a page its old free list back. *)

From S2P Require Import Prelude ListHead SlobPage SlobHeap SlobInv SlobFree.

(** ** Requests *)

Inductive request :=
| Alloc (size gfp align : Z)
| Free (b size : Z)
| Write (x v : Z).

Definition exec `{PageAllocator} (r : request) : slobM Z :=
  match r with
  | Alloc size gfp align => slob_alloc size gfp align
  | Free b size => slob_free b size ;; mret 0
  | Write x v => store x v ;; mret 0
  end.

(** Requests a client may make: sizes up to a page, alignments up to a page,
    blocks released once with their size, writes to live blocks only. *)
Definition legal (A : gmap Z Z) (r : request) : Prop :=
  match r with
  | Alloc size _ align => 1 ≤ size ≤ 4096 ∧ valid_align align
  | Free b size => 1 ≤ size ≤ 4096 ∧ A !! b = Some (SLOB_UNITS size)
  | Write x _ => live_cell A x ∧ x mod 2 = 0
  end.

(** The abstract allocator: what a request returns and what is live after it. *)
Definition heap_spec (A : gmap Z Z) (r : request) (ret : Z) (A' : gmap Z Z) : Prop :=
  match r with
  | Alloc size _ align =>
      (ret = 0 ∧ A' = A) ∨
      (16 < ret ∧ A !! ret = None ∧ (align ≠ 0 → ret mod align = 0) ∧
       (∀ a u, A !! a = Some u → a + 2 * u ≤ ret ∨ ret + 2 * SLOB_UNITS size ≤ a) ∧
       A' = <[ret := SLOB_UNITS size]> A)
  | Free b _ => ret = 0 ∧ A' = delete b A
  | Write _ _ => ret = 0 ∧ A' = A
  end.

(** What the request does to the contents of memory. *)
Definition contents_spec (A : gmap Z Z) (r : request) (ret : Z) (A' : gmap Z Z)
    (m m' : gmap Z Z) : Prop :=
  match r with
  | Alloc size gfp _ =>
      (∀ x, live_cell A x → m' !! x = m !! x) ∧
      (ret ≠ 0 → zeroing gfp = true → zeroed m' ret size)
  | Free _ _ => ∀ x, live_cell A' x → m' !! x = m !! x
  | Write y v => m' = <[y := v]> m
  end.

Section Safety.
Context `{PageAllocatorOk}.

Lemma exec_refines s A r :
  heap_ok s A → legal A r →
  ∃ ret s' A', exec r s = Ok (ret, s') ∧ heap_spec A r ret A' ∧ heap_ok s' A' ∧
               contents_spec A r ret A' (cells s) (cells s').
Proof.
  intros Hok. destruct r as [size gfp align|b size|x v]; simpl.
  - intros [Hsz Ha]. destruct (slob_alloc_spec size align Ha Hsz gfp s A Hok)
      as [E|(r & s' & E & [] & Hz & _)].
    + exists 0, s, A. split_and!; try done. by left.
    + exists r, s', (<[r := SLOB_UNITS size]> A). split_and!; try done.
      right. split_and!; try done. intros a u Hau. assert (a ≠ r) by congruence.
      apply (ho_disj _ _ _ al_heap); [by rewrite lookup_insert_ne|apply lookup_insert_eq|done].
  - intros [Hsz Hb]. destruct (slob_free_spec s A b size Hok Hsz Hb) as (s' & E & Hok' & Hk & _).
    exists 0, s', (delete b A). rewrite (bind_ok _ _ _ _ _ E). split_and!; done.
  - intros [Hl He]. pose proof (live_cell_mapped _ _ _ x Hok Hl He) as Hm.
    rewrite (bind_ok _ _ _ _ _ (store_ok _ _ _ Hm)).
    eexists 0, _, A. split_and!; try done. eapply heap_wf_write; try done.
    + intros y. simpl. rewrite lookup_insert_is_Some'. split; [|tauto]. by intros [<-|?].
    + intros y Hy. simpl. rewrite lookup_insert_ne; [done|]. by intros <-.
Qed.
End Safety.

(** ** A page allocator *)

(** First address above every page in use, rounded up to a page. *)
Definition top_page (ps : gmap Z slob_page) : Z :=
  map_fold (λ B pg acc, Z.max acc (B + region (sp_order pg))) 4096 ps.
Definition bump_base (s : slob) : Z := 4096 * ((top_page (pages s) + 4095) / 4096).

(** A page allocator that always hands out the pages above the last one, and
    fills them with [fill]. *)
Definition bump_allocator (fill : Z → Z) : PageAllocator :=
  {| alloc_pages := λ _ order s,
       let B := bump_base s in
       if B + region order + 8192 <=? 2 ^ 32 then Some (B, fill) else None |}.

Lemma top_page_spec ps :
  4096 ≤ top_page ps ∧ ∀ B pg, ps !! B = Some pg → B + region (sp_order pg) ≤ top_page ps.
Proof.
  unfold top_page. apply (map_fold_weak_ind (λ t m, 4096 ≤ t ∧ ∀ B pg, m !! B = Some pg →
    B + region (sp_order pg) ≤ t)).
  - split; [lia|]. intros B pg. by rewrite lookup_empty.
  - intros i x m t Hi [Ht Hm]. split; [lia|]. intros B pg.
    destruct (decide (i = B)) as [->|Hne]; [rewrite lookup_insert_eq|rewrite lookup_insert_ne by done].
    + intros [= ->]. lia.
    + intros HB. specialize (Hm B pg HB). lia.
Qed.

#[export] Instance bump_allocator_ok fill : @PageAllocatorOk (bump_allocator fill).
Proof.
  split; cbn [alloc_pages bump_allocator]; unfold bump_base.
  - intros gfp order s B f Ho. destruct (Z.leb_spec (4096 * ((top_page (pages s) + 4095) / 4096) +
      region order + 8192) (2 ^ 32)); [|done]. intros [= <- <-].
    pose proof (region_pos order Ho). destruct (top_page_spec (pages s)) as [Ht _].
    pose proof (Z.div_mod (top_page (pages s) + 4095) 4096). pose proof (Z.mod_pos_bound (top_page (pages s) + 4095) 4096).
    split; [split_and!|unfold PAGE_SIZE; lia]; [|lia..]. rewrite Z.mul_comm. apply Z_mod_mult.
  - intros gfp order s B f B' pg Ho. destruct (_ <=? _); [|done]. intros [= <- <-] Hpg. left.
    apply (top_page_spec (pages s)) in Hpg.
    pose proof (Z.div_mod (top_page (pages s) + 4095) 4096). pose proof (Z.mod_pos_bound (top_page (pages s) + 4095) 4096).
    lia.
Qed.

(** ** The empty heap *)

Definition empty_heap : slob := mk_slob ∅ ∅ (λ _, []) 0 0 None 0.

Lemma empty_heap_ok : heap_ok empty_heap ∅.
Proof.
  split; simpl; intros *; rewrite ?lookup_empty; try done.
  - split; [set_solver|]. by intros (? & ? & _).
  - apply NoDup_nil_2.
Qed.

(** One legal request, with the effect the specification allows. *)
Definition heap_step `{PageAllocator} (c c' : slob * gmap Z Z) : Prop :=
  ∃ r ret, legal c.2 r ∧ exec r c.1 = Ok (ret, c'.1) ∧ heap_spec c.2 r ret c'.2.

Lemma exec_det `{PageAllocatorOk} s A r ret s' A' :
  heap_ok s A → legal A r → exec r s = Ok (ret, s') → heap_spec A r ret A' → heap_ok s' A'.
Proof.
  intros Hok Hl E Hs. destruct (exec_refines s A r Hok Hl) as (ret1 & s1 & A1 & E1 & Hs1 & Hok1 & _).
  rewrite E in E1. injection E1 as <- <-.
  assert (A1 = A') as ->; [|done]. destruct r; simpl in Hs, Hs1.
  - destruct Hs as [[? ->]|(? & _ & _ & _ & ->)], Hs1 as [[? ->]|(? & _ & _ & _ & ->)]; done || lia.
  - by destruct Hs as [_ ->], Hs1 as [_ ->].
  - by destruct Hs as [_ ->], Hs1 as [_ ->].
Qed.

Lemma reachable_ok `{PageAllocatorOk} c :
  reachable (λ c, c = (empty_heap, ∅)) heap_step c → heap_ok c.1 c.2.
Proof.
  intros Hr. induction Hr as [c ->|c c' _ IH (r & ret & Hl & E & Hs)].
  - apply empty_heap_ok.
  - by eapply exec_det.
Qed.

(** C1: from the empty heap, whatever legal requests were made, the next legal
    request to SLOB returns (it neither faults nor spins), returns what the
    abstract allocator allows (a block apart from every live block, aligned,
    or nothing), keeps the heap invariant, and changes the contents of no other
    live block. *)
Theorem slob_refines_heap `{PageAllocatorOk} s A r :
  reachable (λ c, c = (empty_heap, ∅)) heap_step (s, A) → legal A r →
  ∃ ret s' A', exec r s = Ok (ret, s') ∧ heap_spec A r ret A' ∧ heap_ok s' A' ∧
               contents_spec A r ret A' (cells s) (cells s').
Proof. intros Hr Hl. eapply exec_refines; [|done]. by apply (reachable_ok (s, A)). Qed.

Lemma slob_refines_heap_witness :
  let _ := bump_allocator (λ _, 7) in
  ∃ ret s' A', exec (Alloc 100 __GFP_ZERO 64) empty_heap = Ok (ret, s') ∧
    heap_spec ∅ (Alloc 100 __GFP_ZERO 64) ret A' ∧ heap_ok s' A' ∧
    contents_spec ∅ (Alloc 100 __GFP_ZERO 64) ret A' ∅ (cells s').
Proof.
  apply (@slob_refines_heap (bump_allocator (λ _, 7)) _ empty_heap ∅).
  - by apply reach_init.
  - split; [lia|]. right. exists 6. done.
Defined.

(** ** Placement inside a page *)

(** C3: [slob_page_alloc] is best fit: it refuses exactly when no free block of
    the page has room for the aligned request, and otherwise takes the units
    from the lowest of the blocks that waste least, leaving a well-formed page
    whose free list is the old one with that block carved. *)
Theorem slob_page_alloc_best_fit s B pg bl size align :
  page_wf s B pg bl → bl ≠ [] → valid_align align → 1 ≤ size ≤ 4096 →
  let u := SLOB_UNITS size in
  (slob_page_alloc B size align s = Ok (0, s) ∧ ∀ b, b ∈ bl → ¬ fits B u align b) ∨
  (∃ l1 o n l2 s' pg',
     let d := delta_of B align o in
     bl = l1 ++ (o, n) :: l2 ∧ fits B u align (o, n) ∧
     (∀ b, b ∈ l1 → fits B u align b → waste B u align (o, n) < waste B u align b) ∧
     (∀ b, b ∈ l2 → fits B u align b → waste B u align (o, n) ≤ waste B u align b) ∧
     slob_page_alloc B size align s = Ok (B + 2 * (o + d), s') ∧
     page_wf s' B pg' (carved l1 o n l2 d u) ∧
     frame B bl (cells s) (cells s')).
Proof.
  intros Hwf Hne Ha Hsz u. pose proof (units_range size Hsz) as Hu.
  destruct (slob_page_alloc_ok s B pg bl size align Hwf Hne Ha ltac:(lia))
    as [[? ?]|(l1 & o & n & l2 & m' & -> & Hfit & Hb1 & Hb2 & E & Hl & Hf)]; [by left|right].
  pose proof (page_wf_weak _ _ _ _ Hwf) as Hs0. pose proof (sorted_mid _ _ _ _ Hs0) as (? & ? & ? & _).
  destruct (delta_spec B align o) as [Hd _]; [apply Hwf|done|lia|].
  unfold fits in Hfit. simpl in Hfit.
  destruct (carved_page s B pg l1 o n l2 (delta_of B align o) u m') as [Hwf' _]; try done; [lia..|].
  exists l1, o, n, l2. do 2 eexists. split_and!; done.
Qed.

(** C13: best fit serves the same requests as the first fit it replaced: on any
    well-formed page the two searches both find room or both refuse. *)
Theorem best_fit_iff_first_fit s B pg bl size align :
  page_wf s B pg bl → bl ≠ [] → valid_align align → 1 ≤ size ≤ 4096 →
  ∃ r s1 r' s2,
    slob_page_alloc B size align s = Ok (r, s1) ∧
    slob_page_alloc_first_fit B size align s = Ok (r', s2) ∧ (r = 0 ↔ r' = 0).
Proof.
  intros Hwf Hne Ha Hsz. pose proof (units_range size Hsz) as Hu.
  pose proof (wf_page _ _ _ _ Hwf) as (_ & HB & _). pose proof (page_wf_weak _ _ _ _ Hwf) as Hs0.
  assert (∀ o n, (o, n) ∈ bl → B + 2 * (o + delta_of B align o) ≠ 0) as Hpos.
  { intros o n Hin. apply (sorted_blocks_in 0 0 bl o n) in Hs0; [|lia|done].
    destruct (delta_spec B align o) as [Hd _]; [apply Hwf|done|lia|]. lia. }
  destruct (slob_page_alloc_ok s B pg bl size align Hwf Hne Ha ltac:(lia))
    as [[Hno E]|(l1 & o & n & l2 & m1 & Hbl1 & Hfit & _ & _ & E & _)];
  destruct (first_fit_ok s B pg bl size align Hwf Hne Ha ltac:(lia))
    as [[Hno' E']|(k1 & o' & n' & k2 & m2 & Hbl2 & Hfit' & _ & E' & _)];
  rewrite E, E'; do 4 eexists; split_and!; try done.
  - exfalso. apply (Hno (o', n')); [rewrite Hbl2; set_solver|done].
  - exfalso. apply (Hno' (o, n)); [rewrite Hbl1; set_solver|done].
  - assert ((o, n) ∈ bl) as H1 by (rewrite Hbl1; set_solver).
    assert ((o', n') ∈ bl) as H2 by (rewrite Hbl2; set_solver).
    pose proof (Hpos o n H1). pose proof (Hpos o' n' H2). done.
Qed.

(** The page [slob_alloc] sets up first on an empty heap. *)
Definition first_page : slob := new_page_state empty_heap 0x100000 (λ _, 7) free_slob_small.

Lemma first_page_wf :
  page_wf first_page 0x100000 (mk_slob_page true true 2048 0x100000 0 0 1 0 false) [(0, 2048)].
Proof.
  destruct (heap_new_page empty_heap ∅ 0x100000 (λ _, 7) free_slob_small) as (_ & [] & _); try done.
  apply empty_heap_ok.
Qed.

Lemma align_4 : valid_align 4.
Proof. right. by exists 2. Qed.

Lemma slob_page_alloc_best_fit_witness :
  ∃ l1 o n l2 s' pg',
    let d := delta_of 0x100000 4 o in
    [(0, 2048)] = l1 ++ (o, n) :: l2 ∧
    slob_page_alloc 0x100000 100 4 first_page = Ok (0x100000 + 2 * (o + d), s') ∧
    page_wf s' 0x100000 pg' (carved l1 o n l2 d 50).
Proof.
  destruct (slob_page_alloc_best_fit first_page 0x100000 _ [(0, 2048)] 100 4 first_page_wf)
    as [[_ Hno]|(l1 & o & n & l2 & s' & pg' & H1 & _ & _ & _ & H2 & H3 & _)];
    [done|apply align_4|lia| |].
  - exfalso. apply (Hno (0, 2048)); [set_solver|]. unfold fits. done.
  - exists l1, o, n, l2, s', pg'. split; [exact H1|]. split; [exact H2|exact H3].
Defined.

Lemma best_fit_iff_first_fit_witness :
  ∃ r s1 r' s2, slob_page_alloc 0x100000 100 4 first_page = Ok (r, s1) ∧
    slob_page_alloc_first_fit 0x100000 100 4 first_page = Ok (r', s2) ∧ (r = 0 ↔ r' = 0).
Proof.
  apply (best_fit_iff_first_fit first_page 0x100000 _ [(0, 2048)] 100 4 first_page_wf);
    [done|apply align_4|lia].
Defined.

(** ** Allocation and release are inverse on the free list *)

(** A list of free blocks with gaps between them is determined by the units it
    covers. *)
Definition free_unit (bl : list (Z * Z)) (k : Z) : Prop := ∃ b, b ∈ bl ∧ b.1 ≤ k < b.1 + b.2.

Lemma free_unit_cons o n bl k : free_unit ((o, n) :: bl) k ↔ o ≤ k < o + n ∨ free_unit bl k.
Proof. unfold free_unit. setoid_rewrite elem_of_cons. naive_solver. Qed.

Lemma free_unit_lo g lo bl k : 0 ≤ g → sorted_blocks g lo bl → free_unit bl k → lo ≤ k < 2048.
Proof.
  intros Hg Hs ([o n] & Hin & Hk). simpl in Hk. pose proof (sorted_blocks_in g lo bl o n Hg Hs Hin). lia.
Qed.

Lemma sorted_blocks_unique lo bl bl' :
  sorted_blocks 1 lo bl → sorted_blocks 1 lo bl' → (∀ k, free_unit bl k ↔ free_unit bl' k) → bl = bl'.
Proof.
  revert lo bl'. induction bl as [|[o n] bl IH]; intros lo [|[o' n'] bl'] Hs Hs' Heq; [done|..].
  - destruct Hs' as (? & ? & _). destruct (proj2 (Heq o')) as (? & []%not_elem_of_nil & _).
    apply free_unit_cons. lia.
  - destruct Hs as (? & ? & _). destruct (proj1 (Heq o)) as (? & []%not_elem_of_nil & _).
    apply free_unit_cons. lia.
  - destruct Hs as (Ho & Hn & _ & Hs), Hs' as (Ho' & Hn' & _ & Hs'). setoid_rewrite free_unit_cons in Heq.
    assert (∀ k, free_unit bl k → o + n + 1 ≤ k) as F by (intros k Hk; eapply (free_unit_lo 1) in Hk; [|lia|done]; lia).
    assert (∀ k, free_unit bl' k → o' + n' + 1 ≤ k) as F' by (intros k Hk; eapply (free_unit_lo 1) in Hk; [|lia|done]; lia).
    assert (∀ k, (o ≤ k < o + n → o' ≤ k < o' + n' ∨ o' + n' + 1 ≤ k) ∧
                 (o' ≤ k < o' + n' → o ≤ k < o + n ∨ o + n + 1 ≤ k)) as G by naive_solver.
    assert (o = o') as <- by (pose proof (G o); pose proof (G o'); lia).
    assert (n = n') as <- by (pose proof (G (o + n)); pose proof (G (o + n')); lia).
    f_equal. eapply (IH (o + n + 1)); [done..|]. intros k. specialize (Heq k).
    pose proof (F k). pose proof (F' k). destruct (decide (o ≤ k < o + n)); [|tauto].
    split; intros Hk; exfalso; [specialize (F k Hk)|specialize (F' k Hk)]; lia.
Qed.

Lemma free_unit_cell B bl k : free_unit bl k ↔ free_cell B bl (B + 2 * k).
Proof. unfold free_unit, free_cell, in_block. split; intros (b & ? & ?); exists b; (split; [done|lia]). Qed.

(** Two lists of the same page that leave the same bytes live are equal. *)
Lemma slab_blocks_unique s s' A B pg pg' bl bl' : slab_ok s A B pg bl → slab_ok s' A B pg' bl' → bl = bl'.
Proof.
  intros H H'. pose proof (wf_sorted _ _ _ _ (slab_wf _ _ _ _ _ H)) as Hs.
  pose proof (wf_sorted _ _ _ _ (slab_wf _ _ _ _ _ H')) as Hs'.
  apply (sorted_blocks_unique 0); [done..|]. intros k. destruct (decide (0 ≤ k < 2048)) as [Hk|Hk].
  - rewrite !(free_unit_cell B), (slab_tile _ _ _ _ _ H), (slab_tile _ _ _ _ _ H') by lia. done.
  - split; intros Hf; (eapply (free_unit_lo 1 0) in Hf; [|lia|done]); lia.
Qed.

Lemma live_cell_list A x : Exists (λ e, e.1 ≤ x < e.1 + 2 * e.2) (map_to_list A) ↔ live_cell A x.
Proof.
  rewrite Exists_exists. split.
  - intros ([a u] & Hin%elem_of_map_to_list & Hx). by exists a, u.
  - intros (a & u & Ha & Hx). exists (a, u). by rewrite elem_of_map_to_list.
Qed.

#[export] Instance live_cell_dec A x : Decision (live_cell A x).
Proof.
  destruct (decide (Exists (λ e, e.1 ≤ x < e.1 + 2 * e.2) (map_to_list A))) as [H|H];
    rewrite live_cell_list in H; [by left|by right].
Defined.

(** A slob page without live bytes is wholly free. *)
Lemma slab_all_free s A B pg bl :
  slab_ok s A B pg bl → (∀ x, B ≤ x < B + 4096 → ¬ live_cell A x) → sp_units pg = 2048.
Proof.
  intros H Hl. pose proof (slab_wf _ _ _ _ _ H) as Hwf. rewrite (wf_units _ _ _ _ Hwf).
  replace bl with [(0, 2048)]; [done|]. apply (sorted_blocks_unique 0); [simpl; lia|apply Hwf|].
  intros k. rewrite free_unit_cons. split.
  - intros [Hk|(? & []%not_elem_of_nil & _)]. apply (free_unit_cell B), (slab_tile _ _ _ _ _ H); [lia|].
    apply Hl. lia.
  - intros Hf%(free_unit_lo 1 0); [lia..|apply Hwf].
Qed.

(** A page with live bytes is a slob page of every heap with these live blocks. *)
Lemma live_page E s E' s' A B pg bl x :
  heap_wf E s A → slab_ok s A B pg bl → B ≤ x < B + 4096 → live_cell A x → heap_wf E' s' A →
  ∃ pg', pages s' !! B = Some pg' ∧ PageSlab pg' = true ∧ slab_ok s' A B pg' bl.
Proof.
  intros H Hsl Hx Hl H'. destruct (live_in_slab _ _ _ _ H' Hl) as (C & pg' & HC & HCs & _ & HxC).
  destruct (ho_slab _ _ _ H' C pg' HC HCs) as [bl' Hsl'].
  pose proof (wf_page _ _ _ _ (slab_wf _ _ _ _ _ Hsl)) as HB.
  pose proof (wf_page _ _ _ _ (slab_wf _ _ _ _ _ Hsl')) as HC'.
  assert (C = B) as ->.
  { rewrite <- (is_page_base B (x - B) HB), <- (is_page_base C (x - C) HC') by lia. f_equal. lia. }
  exists pg'. split_and!; [done..|]. by rewrite (slab_blocks_unique _ _ _ _ _ _ _ _ Hsl Hsl').
Qed.

Lemma slob_page_alloc_slab s B pg bl size align r s1 pg1 :
  page_wf s B pg bl → bl ≠ [] → valid_align align → 1 ≤ size ≤ 4096 →
  slob_page_alloc B size align s = Ok (r, s1) → pages s1 !! B = Some pg1 → PageSlab pg1 = PageSlab pg.
Proof.
  intros Hwf Hne Ha Hsz E Hpg1. pose proof (units_range size Hsz) as Hu.
  destruct (slob_page_alloc_ok s B pg bl size align Hwf Hne Ha ltac:(lia))
    as [[_ E1]|(l1 & o & n & l2 & m' & _ & _ & _ & _ & E1 & _)]; rewrite E in E1; injection E1 as -> ->.
  - rewrite (wf_desc _ _ _ _ Hwf) in Hpg1. congruence.
  - simpl in Hpg1. rewrite lookup_insert_eq in Hpg1. injection Hpg1 as <-.
    by destruct (page_after_fields pg (SLOB_UNITS size)
      (B + 2 * hd_off (carved l1 o n l2 (delta_of B align o) (SLOB_UNITS size)) 2048)) as [-> _].
Qed.

(** C21: [slob_free] undoes [slob_page_alloc].  Releasing the block just taken from
    a page of the heap succeeds and gives back the heap with the old live blocks;
    when the page was in use before, it has exactly its old list of free blocks,
    number of free units and first free block (the head split off for alignment,
    the tail and the released units are one block again, also when the block was
    all that was free), and when it was wholly free it goes back to the page
    allocator. *)
Theorem slob_free_undoes_page_alloc s A B pg bl size align r s1 :
  heap_wf (λ C, C = B) s A → slab_ok s A B pg bl → PageSlab pg = true → bl ≠ [] →
  valid_align align → 1 ≤ size ≤ 4096 →
  slob_page_alloc B size align s = Ok (r, s1) → r ≠ 0 →
  ∃ s2, slob_free r size s1 = Ok (tt, s2) ∧ heap_ok s2 A ∧
    if sp_units pg =? 2048 then pages s2 !! B = None
    else ∃ pg2, pages s2 !! B = Some pg2 ∧ PageSlobFree pg2 = true ∧ page_wf s2 B pg2 bl ∧
                sp_units pg2 = sp_units pg ∧ sp_free pg2 = sp_free pg.
Proof.
  intros H Hsl Hslab Hne Ha Hsz E Hr.
  destruct (page_alloc_heap size align Ha Hsz (λ C, C = B) s A B pg bl) as [[E' _]|(r' & s' & E' & Hal & _)];
    [done..|congruence|]. rewrite E in E'. injection E' as <- <-.
  destruct (slob_free_spec s1 (<[r := SLOB_UNITS size]> A) r size) as (s2 & E2 & Hok & _ & _ & _ & _ & Hold);
    [apply Hal|done|apply lookup_insert_eq|].
  rewrite delete_insert_id in Hok by apply Hal. exists s2. split_and!; [done..|].
  destruct (Z.eqb_spec (sp_units pg) 2048) as [Hfull|Hfull].
  - assert (∀ x, B ≤ x < B + 4096 → ¬ live_cell A x) as Hdead.
    { intros x Hx. apply (slab_tile _ _ _ _ _ Hsl); [done|]. rewrite (wf_units _ _ _ _ (slab_wf _ _ _ _ _ Hsl)) in Hfull.
      rewrite (sorted_full bl) by (done || apply (slab_wf _ _ _ _ _ Hsl)). exists (0, 2048).
      split; [left|]. unfold in_block. simpl. lia. }
    destruct (pages s2 !! B) as [pg2|] eqn:H2; [exfalso|done]. destruct (PageSlab pg2) eqn:Hs2.
    + destruct (ho_slab _ _ _ Hok B pg2 H2 Hs2) as [bl2 Hsl2].
      pose proof (slab_all_free _ _ _ _ _ Hsl2 Hdead). pose proof (ho_used _ _ _ Hok B pg2 H2 Hs2). lia.
    + pose proof (slob_page_alloc_slab s B pg bl size align r s1 pg2 (slab_wf _ _ _ _ _ Hsl) Hne Ha Hsz E
        (Hold B pg2 H2 Hs2)). congruence.
  - assert (∃ x, B ≤ x < B + 4096 ∧ live_cell A x) as (x & Hx & Hl).
    { destruct (decide (Exists (live_cell A) (seqZ B 4096))) as [(x & Hx%elem_of_seqZ & Hl)%Exists_exists|Hno]; [by exists x|].
      destruct Hfull. eapply slab_all_free; [done|]. intros x Hx Hl. apply Hno, Exists_exists. exists x.
      by rewrite elem_of_seqZ. }
    destruct (live_page _ _ _ s2 A B pg bl x H Hsl Hx Hl Hok) as (pg2 & H2 & Hs2 & Hsl2).
    exists pg2. pose proof (slab_wf _ _ _ _ _ Hsl) as Hwf. pose proof (slab_wf _ _ _ _ _ Hsl2) as Hwf2.
    split_and!; [done|by apply (slab_free _ _ _ _ _ Hsl2)|done|..].
    + by rewrite (wf_units _ _ _ _ Hwf), (wf_units _ _ _ _ Hwf2).
    + by rewrite (wf_free _ _ _ _ Hwf), (wf_free _ _ _ _ Hwf2).
Qed.
(** The first page after an allocation of 100 bytes. *)
Lemma used_page :
  ∃ s pg, heap_ok s {[0x100000 := 50]} ∧ slab_ok s {[0x100000 := 50]} 0x100000 pg [(50, 1998)] ∧ PageSlab pg = true.
Proof.
  destruct (heap_new_page empty_heap ∅ 0x100000 (λ _, 7) free_slob_small) as (H & Hsl & _); try done;
    [apply empty_heap_ok|].
  pose proof (slob_page_alloc_ok first_page 0x100000 _ [(0, 2048)] 100 4 first_page_wf
    ltac:(done) align_4 ltac:(done)) as [[Hno _]|(l1 & o & n & l2 & m' & Hbl & _ & _ & _ & _ & Hl & Hf)].
  { exfalso. apply (Hno (0, 2048)); [left|unfold fits; done]. }
  destruct l1 as [|? l1]; [|injection Hbl as _ Hbl; destruct l1; discriminate Hbl]. injection Hbl as <- <- <-.
  destruct (alloc_heap (λ C, C = 0x100000) first_page ∅ 0x100000
    (mk_slob_page true true 2048 0x100000 0 0 1 0 false) [] 0 2048 [] 0 50 m' H) as (_ & Hok & _);
    [done|exact Hsl|done|lia..|exact Hl|exact Hf|].
  destruct (carved_page first_page 0x100000 _ [] 0 2048 [] 0 50 m' first_page_wf) as (Hwf & _);
    [lia..|exact Hl|exact Hf|].
  destruct (ho_slab _ _ _ Hok 0x100000 _ (wf_desc _ _ _ _ Hwf) eq_refl) as [bl Hsl'].
  assert (bl = [(50, 1998)]) as ->; [|do 2 eexists; split; [exact Hok|]; split; [exact Hsl'|reflexivity]].
  apply (sorted_blocks_unique 0); [apply (slab_wf _ _ _ _ _ Hsl')|simpl; lia|]. intros k.
  rewrite free_unit_cons. destruct (decide (0 ≤ k < 2048)) as [Hk|Hk].
  - rewrite (free_unit_cell 0x100000), (slab_tile _ _ _ _ _ Hsl') by lia. unfold live_cell. split.
    + intros Hn. left. destruct (decide (k < 50)); [|lia]. destruct Hn. exists 0x100000, 50. split; [done|lia].
    + intros [?|(? & []%not_elem_of_nil & _)] (a & u & Ha & Hx). apply lookup_insert_Some in Ha as [[<- <-]|[_ Ha]]; [lia|done].
  - split; [|intros [?|(? & []%not_elem_of_nil & _)]; lia].
    intros Hu%(free_unit_lo 1 0); [lia..|apply (slab_wf _ _ _ _ _ Hsl')].
Qed.

Lemma slob_free_undoes_page_alloc_witness :
  ∃ s r s1 s2 pg2, slob_page_alloc 0x100000 20 4 s = Ok (r, s1) ∧ slob_free r 20 s1 = Ok (tt, s2) ∧
    page_wf s2 0x100000 pg2 [(50, 1998)] ∧ sp_units pg2 = 1998.
Proof.
  destruct used_page as (s & pg & Hok & Hsl & Hs).
  assert (heap_wf (λ C, C = 0x100000) s {[0x100000 := 50]}) as H by (eapply heap_wf_mono; [|exact Hok]; done).
  destruct (page_alloc_heap 20 4 align_4 ltac:(lia) (λ C, C = 0x100000) s _ 0x100000 pg [(50, 1998)] H)
    as [[_ Hno]|(r & s1 & E & Hal & _)]; [done|exact Hsl|exact Hs|done| |].
  { exfalso. apply (Hno (50, 1998)); [left|unfold fits; done]. }
  pose proof (wf_units _ _ _ _ (slab_wf _ _ _ _ _ Hsl)) as Hu. change (sumZ _) with 1998 in Hu.
  destruct (slob_free_undoes_page_alloc s {[0x100000 := 50]} 0x100000 pg [(50, 1998)] 20 4 r s1 H Hsl Hs
    ltac:(done) align_4 ltac:(lia) E) as (s2 & E2 & _ & Hpg); [pose proof (al_addr _ _ _ _ _ _ Hal); lia|].
  rewrite Hu in Hpg. destruct Hpg as (pg2 & _ & _ & Hwf & Hu2 & _).
  exists s, r, s1, s2, pg2. split; [exact E|]. split; [exact E2|]. split; [exact Hwf|exact Hu2].
Defined.

(** ** The accounting system calls *)

Definition sys_get_slob_amt_claimed : slobM Z := gets mem_claimed.
Definition sys_get_slob_amt_free : slobM Z := gets (λ s, s32 (mem_claimed s - mem_used s)).

Lemma new_page_mem_used `{PageAllocatorOk} s A size gfp align r s1 :
  heap_ok s A → valid_align align → 1 ≤ size ≤ 4096 → lists s (slob_list_for size) = [] →
  slob_alloc size gfp align s = Ok (r, s1) → r ≠ 0 →
  heap_ok s1 (<[r := SLOB_UNITS size]> A) ∧ mem_used s1 = mem_used s.
Proof.
  intros Hok Ha Hsz Hl. unfold slob_alloc. run_step. rewrite Hl. simpl. run_step. simpl.
  destruct (new_page_ok size align Ha Hsz (slob_list_for size) gfp s A Hok)
    as [E|(r1 & s2 & E & Hal & Hmu & _)]; rewrite (bind_ok _ _ _ _ _ E).
  { rewrite andb_false_r. by intros [= <- <-]. }
  destruct (alloc_finish size align Hsz gfp s s2 A r1 Hal) as (s' & -> & Hal' & _ & Hmu' & _).
  intros [= <- <-] _. split; [apply Hal'|congruence].
Qed.

(** The accounting drifts: a block taken from a new page is never added to
    [mem_used] but is subtracted when it is released, so allocating and
    releasing [size] bytes when the size class has no partial page lowers
    [mem_used] by [size]. *)
Theorem mem_used_drifts `{PageAllocatorOk} s A size gfp align r s1 :
  heap_ok s A → valid_align align → 1 ≤ size ≤ 4096 → lists s (slob_list_for size) = [] →
  slob_alloc size gfp align s = Ok (r, s1) → r ≠ 0 →
  ∃ s2, slob_free r size s1 = Ok (tt, s2) ∧ mem_used s2 = s32 (mem_used s - size).
Proof.
  intros Hok Ha Hsz Hl E Hr.
  destruct (new_page_mem_used s A size gfp align r s1) as [Hok1 Hmu]; try done.
  destruct (slob_free_spec s1 _ r size Hok1 Hsz) as (s2 & E2 & _ & _ & Hmu2 & _).
  { apply lookup_insert_eq. }
  exists s2. split; [done|]. by rewrite Hmu2, Hmu.
Qed.

Lemma mem_used_drifts_witness :
  let _ := bump_allocator (λ _, 7) in
  ∃ r s1 s2, slob_alloc 100 0 4 empty_heap = Ok (r, s1) ∧ slob_free r 100 s1 = Ok (tt, s2) ∧
             mem_used s2 = -100.
Proof.
  intros pa.
  assert (match slob_alloc 100 0 4 empty_heap with Ok (r, _) => r =? 0 | _ => true end = false) as Hr.
  { vm_compute. reflexivity. }
  destruct (slob_alloc 100 0 4 empty_heap) as [[r s1]| |] eqn:E; [|discriminate Hr..].
  assert (r ≠ 0) as Hr0 by (intros ->; discriminate Hr). clear Hr.
  destruct (mem_used_drifts empty_heap ∅ 100 0 4 r s1 empty_heap_ok align_4 ltac:(lia) eq_refl E Hr0)
    as (s2 & E2 & Hmu).
  exists r, s1, s2. split; [reflexivity|]. split; [exact E2|exact Hmu].
Defined.

(** ** The page lists in memory *)

(** "Improve fragment distribution", pointer by pointer: [head] is the list,
    [prev] the entry (or the head) before the page just used. *)
Definition slob_rotate_ptr (head prev : Z) : cmd lmem unit :=
  last ← get_prev head;
  pn ← get_next prev;
  first ← get_next head;
  if bool_decide (prev ≠ last) && bool_decide (first ≠ pn) then list_move_tail head pn else mret tt.

Lemma bool_decide_ne_refl {A} `{EqDecision A} (x : A) : bool_decide (x ≠ x) = false.
Proof. apply bool_decide_eq_false_2. tauto. Qed.

Lemma after_upto_split q l1 l2 : q ∉ l1 → after q (l1 ++ q :: l2) = l2 ∧ upto q (l1 ++ q :: l2) = l1 ++ [q].
Proof.
  induction l1 as [|x l1 IH]; intros Hq; simpl.
  - by rewrite !decide_True by done.
  - rewrite !decide_False by set_solver. destruct IH as [-> ->]; set_solver.
Qed.

(** The sequence-level rotation of a page list is what the pointer code
    does: moving the list head itself before the successor of [prev] makes the
    next search start at the page after [prev], and keeps the list intact. *)
Theorem slob_rotate_refines s k m h prev :
  dll m h (lists s k) → (∀ q, prev = Some q → q ∈ lists s k) →
  ∃ m' s', slob_rotate_ptr h (default h prev) m = Ok (tt, m') ∧ slob_rotate k prev s = Ok (tt, s') ∧
           dll m' h (lists s' k).
Proof.
  intros Hd Hin. pose proof Hd as [Hnd Hseg]. unfold slob_rotate, slob_rotate_ptr. run_step.
  rewrite (bind_ok _ _ _ _ _ (get_prev_ok _ _ _ (seg_last _ _ _ _ Hseg))).
  pose proof (seg_first _ _ _ _ Hseg) as Hfirst.
  destruct prev as [q|]; simpl.
  2: { do 2 rewrite (bind_ok _ _ _ _ _ (get_next_ok _ _ _ Hfirst)). exists m, s.
       by rewrite !bool_decide_ne_refl, !andb_false_r. }
  specialize (Hin q eq_refl). apply list_elem_of_split in Hin as (l1 & l2 & Hl). rewrite Hl in *.
  apply NoDup_cons in Hnd as [Hh Hnd]. pose proof Hnd as [[Hq1 Hq2] _]%nodup_middle.
  destruct (after_upto_split q l1 l2 Hq1) as [Ea Eu]. rewrite Ea, Eu.
  rewrite (bind_ok _ _ _ _ _ (get_next_ok _ _ _ (dll_next _ _ _ _ _ Hd))).
  rewrite (bind_ok _ _ _ _ _ (get_next_ok _ _ _ Hfirst)).
  destruct l2 as [|x l3].
  - rewrite last_snoc. simpl. rewrite !bool_decide_ne_refl. simpl. exists m, s. by rewrite Hl.
  - rewrite (app_snoc_cons l1 (x :: l3) q) in *.
    assert (∃ z, last ((l1 ++ [q]) ++ x :: l3) = Some z ∧ q ≠ z) as (z & Hz & Hqz).
    { rewrite last_app_cons. destruct (last_is_Some (x :: l3)) as [_ [z Hz]]; [done|].
      exists z. split; [done|]. intros ->. apply Hq2. by apply last_Some_elem_of in Hz. }
    assert (∃ y, head ((l1 ++ [q]) ++ x :: l3) = Some y ∧ y ≠ x) as (y & Hy & Hyx).
    { apply NoDup_app in Hnd as (_ & Hdis & _).
      destruct l1 as [|y l1]; [exists q|exists y]; (split; [done|intros Heq; apply (Hdis x)]); set_solver. }
    rewrite Hz, Hy. simpl.
    rewrite (bool_decide_eq_true_2 (q ≠ z)), (bool_decide_eq_true_2 (y ≠ x)) by done.
    rewrite (bool_decide_eq_true_2 (Some q ≠ Some z)), (bool_decide_eq_true_2 (Some y ≠ Some x)) by congruence.
    simpl. destruct (list_move_tail_rotates m h (l1 ++ [q]) x l3 Hd) as (m' & E & Hd'); [by destruct l1|].
    exists m'. eexists. split_and!; [done|done|]. simpl. by rewrite decide_True.
Qed.

Lemma slob_rotate_refines_witness :
  let s := mk_slob ∅ ∅ (λ _, [100; 200]) 0 0 None 0 in
  ∃ m' s', slob_rotate_ptr 10 100 sample_list = Ok (tt, m') ∧
           slob_rotate free_slob_small (Some 100) s = Ok (tt, s') ∧ dll m' 10 (lists s' free_slob_small).
Proof.
  intros s. apply (slob_rotate_refines s free_slob_small sample_list 10 (Some 100) sample_list_dll).
  intros q [= <-]. apply list_elem_of_here.
Defined.
