(* ===== verification/Kmalloc.v ===== *)
(** * The kmalloc front end of SLOB (project4/slob.c)

    [__kmalloc_node], [ksize] and [kfree] over the SLOB heap.  [kheap_ok s A K]
    is the heap invariant together with the objects [K] handed out (address to
    requested size): a small object has its size in the word before it, a
    large one is a run of pages with its size in [page.private]. *)

From S2P Require Import Prelude SlobPage SlobHeap SlobInv SlobFree SlobSpec.

Definition ARCH_KMALLOC_MINALIGN : Z := 4.
Definition ARCH_SLAB_MINALIGN : Z := 4.
Definition kmalloc_align : Z := Z.max ARCH_KMALLOC_MINALIGN ARCH_SLAB_MINALIGN.
Definition PAGE_SHIFT : Z := 12.

(** ** [get_order] *)

(** [do { size >>= 1; order++; } while (size);] *)
Fixpoint get_order_loop (fuel : nat) (size order : Z) : Z :=
  match fuel with
  | O => order
  | S fuel =>
      let size := Z.shiftr size 1 in
      let order := order + 1 in
      if size =? 0 then order else get_order_loop fuel size order
  end.

(** 32 rounds: the loop shifts a 32-bit word. *)
Definition get_order (size : Z) : Z :=
  get_order_loop 32 (Z.shiftr (u32 (size - 1)) (PAGE_SHIFT - 1)) (-1).

(** ** 32-bit words in memory *)

(** Byte accesses, for words that start at an odd address. *)
Definition load8 (a : Z) : slobM Z :=
  w ← load (a - a mod 2);
  mret (if a mod 2 =? 0 then u16 w mod 256 else u16 w / 256).
Definition store8 (a v : Z) : slobM unit :=
  w ← load (a - a mod 2);
  store (a - a mod 2)
    (s16 (if a mod 2 =? 0 then u16 w - u16 w mod 256 + u8 v else 256 * u8 v + u16 w mod 256)).

Definition load32 (a : Z) : slobM Z :=
  if a mod 2 =? 0 then
    lo ← load a;
    hi ← load (a + 2);
    mret (u16 lo + 65536 * u16 hi)
  else
    b0 ← load8 a;
    mid ← load (a + 1);
    b3 ← load8 (a + 3);
    mret (b0 + 256 * u16 mid + 16777216 * b3).
Definition store32 (a v : Z) : slobM unit :=
  if a mod 2 =? 0 then
    store a (s16 v) ;; store (a + 2) (s16 (v / 65536))
  else
    store8 a v ;; store (a + 1) (s16 (v / 256)) ;; store8 (a + 3) (v / 16777216).

(** ** kmalloc, kfree, ksize *)

Definition set_private (v : Z) (p : slob_page) : slob_page :=
  mk_slob_page (PageSlab p) (PageSlobFree p) (sp_units p) (sp_free p) (sp_mapping p) v
    (sp_count p) (sp_order p) (sp_compound p).

Definition __kmalloc_node `{PageAllocator} (size gfp : Z) : slobM Z :=
  let align := kmalloc_align in
  if size <? PAGE_SIZE - align then
    if size =? 0 then mret ZERO_SIZE_PTR
    else
      m ← slob_alloc (u32 (size + align)) gfp align;
      if m =? 0 then mret 0
      else store32 m size ;; mret (m + align)
  else
    let order := get_order size in
    let gfp := if negb (order =? 0) then Z.lor gfp __GFP_COMP else gfp in
    ret ← slob_new_pages gfp order;
    (if negb (ret =? 0) then update_sp (page_base ret) (set_private size) else mret tt) ;;
    mret ret.

(** [put_page] of a page that is not a tail page: drop the reference and free
    the (compound) page with the last one. *)
Definition put_page (page : Z) : slobM unit :=
  p ← get_sp page;
  if sp_count p - 1 =? 0 then
    modify (λ s, set_pages (delete page (pages s))
      (set_cells (unmap_cells page (n_cells (if sp_compound p then sp_order p else 0)) (cells s)) s))
  else
    put_sp page (mk_slob_page (PageSlab p) (PageSlobFree p) (sp_units p) (sp_free p) (sp_mapping p)
                   (sp_private p) (sp_count p - 1) (sp_order p) (sp_compound p)).

Definition kfree (block : Z) : slobM unit :=
  if ZERO_OR_NULL_PTR block then mret tt
  else
    let sp := slob_page_of block in
    slab ← is_slob_page sp;
    if slab : bool then
      let m := block - kmalloc_align in
      size ← load32 m;
      slob_free m (s32 (size + kmalloc_align))
    else put_page sp.

Definition ksize (block : Z) : slobM Z :=
  check (negb (block =? 0)) ;;
  if block =? ZERO_SIZE_PTR then mret 0
  else
    let sp := slob_page_of block in
    slab ← is_slob_page sp;
    if slab : bool then
      size ← load32 (block - kmalloc_align);
      mret (SLOB_UNITS size * SLOB_UNIT)
    else
      p ← get_sp sp;
      mret (sp_private p).

(** ** [get_order] finds the smallest order *)

Lemma get_order_loop_spec fuel size order :
  0 ≤ size < 2 ^ Z.of_nat fuel → (0 < fuel)%nat →
  ∃ k, 0 ≤ k ∧ get_order_loop fuel size order = order + 1 + k ∧ size < 2 ^ (k + 1) ∧
       (0 < k → 2 ^ k ≤ size).
Proof.
  revert size order. induction fuel as [|fuel IH]; intros size order Hs Hf; [lia|]. simpl.
  rewrite Z.shiftr_div_pow2 by lia. change (2 ^ 1) with 2.
  rewrite Nat2Z.inj_succ, Z.pow_succ_r in Hs by lia.
  pose proof (Z.div_mod size 2 ltac:(lia)). pose proof (Z.mod_pos_bound size 2 ltac:(lia)).
  destruct (Z.eqb_spec (size / 2) 0) as [Hz|Hz].
  - exists 0. split_and!; try lia.
  - assert (0 < fuel)%nat as Hf'. { destruct fuel; [simpl in Hs; lia|lia]. }
    destruct (IH (size / 2) (order + 1)) as (k & Hk & -> & Hlt & Hge); [lia|done|].
    exists (k + 1). split_and!; [lia|lia| |].
    + replace (k + 1 + 1) with (Z.succ (k + 1)) by lia. rewrite Z.pow_succ_r by lia. lia.
    + intros _. rewrite Z.pow_add_r by lia. change (2 ^ 1) with 2.
      destruct (decide (k = 0)) as [->|]; [simpl; lia|]. specialize (Hge ltac:(lia)). lia.
Qed.

Lemma get_order_spec size :
  1 ≤ size < 2 ^ 32 →
  0 ≤ get_order size ∧ size ≤ region (get_order size) ∧
  (get_order size ≠ 0 → region (get_order size - 1) < size).
Proof.
  intros Hs. unfold get_order, PAGE_SHIFT, region, PAGE_SIZE. rewrite u32_id by lia.
  rewrite Z.shiftr_div_pow2 by lia. change (2 ^ (12 - 1)) with 2048.
  pose proof (Z.div_mod (size - 1) 2048 ltac:(lia)) as Hdm.
  pose proof (Z.mod_pos_bound (size - 1) 2048 ltac:(lia)) as Hm.
  destruct (get_order_loop_spec 32 ((size - 1) / 2048) (-1)) as (k & Hk & -> & Hlt & Hge); [|lia|].
  { split; [apply Z.div_pos; lia|]. apply Z.div_lt_upper_bound; lia. }
  replace (-1 + 1 + k) with k by lia. rewrite Z.pow_add_r in Hlt by lia. change (2 ^ 1) with 2 in Hlt.
  split_and!; [lia| |].
  - lia.
  - intros Hk0. specialize (Hge ltac:(lia)).
    assert (2 ^ k = 2 * 2 ^ (k - 1)) as Hp by (rewrite <- Z.pow_succ_r by lia; f_equal; lia). lia.
Qed.

(** ** Words *)

(** The 32-bit word at [a]. *)
Definition word (m : gmap Z Z) (a : Z) : option Z :=
  lo ← m !! a; hi ← m !! (a + 2); Some (u16 lo + 65536 * u16 hi).

Lemma load32_ok s a v : a mod 2 = 0 → word (cells s) a = Some v → load32 a s = Ok (v, s).
Proof.
  intros Ha. unfold word, load32. rewrite Ha. change (0 =? 0) with true. cbn iota.
  destruct (cells s !! a) as [lo|] eqn:E1; [simpl|done].
  destruct (cells s !! (a + 2)) as [hi|] eqn:E2; [simpl|done]. intros [= <-].
  erewrite bind_ok by by apply load_ok. by erewrite bind_ok by by apply load_ok.
Qed.

Lemma u16_s16 x : u16 (s16 x) = x mod 65536.
Proof.
  unfold u16, s16, wrap_u, wrap_s. change (2 ^ 16) with 65536. change (2 ^ (16 - 1)) with 32768.
  rewrite Zminus_mod_idemp_l. f_equal. lia.
Qed.

Lemma store32_ok s a v :
  a mod 2 = 0 → is_Some (cells s !! a) → is_Some (cells s !! (a + 2)) → 0 ≤ v < 2 ^ 32 →
  ∃ m', store32 a v s = Ok (tt, set_cells m' s) ∧ word m' a = Some v ∧
        (∀ x, is_Some (m' !! x) ↔ is_Some (cells s !! x)) ∧
        (∀ x, x ≠ a → x ≠ a + 2 → m' !! x = cells s !! x).
Proof.
  intros Ha H1 H2 Hv. unfold store32. rewrite Ha. change (0 =? 0) with true. cbn iota.
  rewrite (bind_ok _ _ _ _ _ (store_ok _ _ _ H1)).
  rewrite store_ok by (simpl; rewrite lookup_insert_ne by lia; done). eexists. split; [done|].
  cbn [cells set_cells]. split_and!.
  - unfold word. rewrite (lookup_insert_ne _ (a + 2) a) by lia. rewrite !lookup_insert_eq. simpl. rewrite !u16_s16.
    f_equal. rewrite (Z.mod_small (v / 65536)).
    + pose proof (Z.div_mod v 65536). lia.
    + split; [apply Z.div_pos; lia|]. apply Z.div_lt_upper_bound; lia.
  - intros x. rewrite !lookup_insert_is_Some'. split; [|tauto]. intros [<-|[<-|?]]; done.
  - intros x Hx1 Hx2. rewrite !lookup_insert_ne by done. done.
Qed.

Lemma mod4_even a : a mod 4 = 0 → a mod 2 = 0.
Proof.
  intros H. apply Z.mod_divide in H as [c ->]; [|lia]. replace (c * 4) with (c * 2 * 2) by lia.
  apply Z_mod_mult.
Qed.

Lemma header_even p : p mod 4 = 0 → (p - 4) mod 2 = 0.
Proof.
  intros H. apply mod4_even. rewrite <- (Z.mod_add _ 1) by lia. rewrite <- H. f_equal. lia.
Qed.

Lemma word_ext m m' a : m' !! a = m !! a → m' !! (a + 2) = m !! (a + 2) → word m' a = word m a.
Proof. unfold word. by intros -> ->. Qed.

(** ** Pages outside the slob heap *)

(** Fresh pages that do not become slob pages. *)
Lemma heap_add_raw s A B fill gfp order v :
  heap_ok s A → is_page B → 0 ≤ order →
  (∀ B' pg, pages s !! B' = Some pg → B' + region (sp_order pg) ≤ B ∨ B + region order ≤ B') →
  let s' := set_pages (<[B := set_private v (fresh_page gfp order)]> (pages s))
              (set_cells (map_cells B (n_cells order) fill (cells s)) s) in
  heap_ok s' A ∧ (∀ x, live_cell A x → cells s' !! x = cells s !! x) ∧ raw_kept s s' ∧
  pages s !! B = None.
Proof.
  intros H HB Ho Hfresh s'. pose proof (region_pos order Ho) as Hr.
  assert (pages s !! B = None) as Hnone.
  { apply eq_None_not_Some. intros [pg Hpg]. pose proof (ho_order _ _ _ H _ _ Hpg).
    pose proof (region_pos (sp_order pg) ltac:(done)). specialize (Hfresh B pg Hpg). lia. }
  assert (∀ x, ¬ (B ≤ x < B + region order) → cells s' !! x = cells s !! x) as Hout.
  { intros x Hx. simpl. rewrite map_cells_lookup, n_cells_region by done. rewrite decide_False; [done|lia]. }
  assert (∀ C pg, pages s !! C = Some pg → pages s' !! C = Some pg ∧
            ∀ x, C ≤ x < C + region (sp_order pg) → cells s' !! x = cells s !! x) as Hkept.
  { intros C pg HC. split; [simpl; rewrite lookup_insert_ne; congruence|].
    intros x Hx. apply Hout. specialize (Hfresh C pg HC). lia. }
  assert (∀ C pg, PageSlab pg = true → pages s' !! C = Some pg → pages s !! C = Some pg) as Hold.
  { intros C pg Hs. simpl. destruct (decide (C = B)) as [->|]; [|by rewrite lookup_insert_ne].
    rewrite lookup_insert_eq. intros [= <-]. done. }
  split_and!; [|..|done]; cycle 1.
  { intros x Hx. destruct (live_in_slab _ _ _ _ H Hx) as (C & pg & HC & _ & Hord & Hx').
    apply (Hkept C pg HC). rewrite Hord, region0. lia. }
  { intros C pg HC _. by apply Hkept. }
  split.
  - intros C pg HC Hs. apply Hold in HC as HC'; [|done].
    destruct (ho_slab _ _ _ H C pg HC' Hs) as [bl Hsl]. exists bl. destruct Hsl as [Hwf ? ? Hord ?].
    split; try done. eapply page_wf_ext; [done|done|]. intros x Hx.
    apply (Hkept C pg HC'). rewrite Hord, region0. lia.
  - intros C pg HC Hs. apply Hold in HC; [|done]. by apply (ho_used _ _ _ H C).
  - intros B1 B2 pg1 pg2 H1 H2 Hne. simpl in H1, H2.
    destruct (decide (B1 = B)) as [->|]; destruct (decide (B2 = B)) as [->|]; simplify_map_eq.
    + specialize (Hfresh _ _ H2). simpl. lia.
    + by apply Hfresh.
    + by apply (ho_apart _ _ _ H B1 B2).
  - intros C pg HC. simpl in HC. destruct (decide (C = B)) as [->|]; simplify_map_eq; [done|].
    by eapply (ho_order _ _ _ H).
  - intros C. change (all_lists s') with (all_lists s). rewrite (ho_lists _ _ _ H). split.
    + intros (pg & HC & ? & ?). exists pg. split; [|done]. by apply Hkept.
    + intros (pg & HC & ? & ?). exists pg. split; [|done]. by apply Hold.
  - apply H.
  - intros a u Ha. destruct (ho_live _ _ _ H a u Ha) as (C & pg & o & HC & ?).
    exists C, pg, o. split; [|done]. by apply Hkept.
  - apply H.
Qed.

(** Giving back pages that are not slob pages. *)
Lemma heap_drop_raw s A B pg :
  heap_ok s A → pages s !! B = Some pg → PageSlab pg = false →
  let s' := set_pages (delete B (pages s))
              (set_cells (unmap_cells B (n_cells (sp_order pg)) (cells s)) s) in
  heap_ok s' A ∧
  (∀ C pgc, C ≠ B → pages s !! C = Some pgc → pages s' !! C = Some pgc ∧
     ∀ x, C ≤ x < C + region (sp_order pgc) → cells s' !! x = cells s !! x).
Proof.
  intros H HB Hraw s'. pose proof (ho_order _ _ _ H B pg HB) as Ho.
  assert (∀ C pgc, C ≠ B → pages s !! C = Some pgc → pages s' !! C = Some pgc ∧
     ∀ x, C ≤ x < C + region (sp_order pgc) → cells s' !! x = cells s !! x) as Hkept.
  { intros C pgc Hne HC. split; [by apply lookup_delete_Some|]. intros x Hx. apply unmap_cells_out.
    rewrite n_cells_region by done. pose proof (ho_apart _ _ _ H C B pgc pg HC HB Hne). lia. }
  assert (∀ C pgc, pages s' !! C = Some pgc → C ≠ B ∧ pages s !! C = Some pgc) as Hold.
  { intros C pgc HC. simpl in HC. apply lookup_delete_Some in HC as [? ?]. done. }
  assert (∀ C pgc, pages s !! C = Some pgc → PageSlab pgc = true → C ≠ B) as Hnb by congruence.
  split; [|done]. split.
  - intros C pgc HC Hs. apply Hold in HC as [Hne HC'].
    destruct (ho_slab _ _ _ H C pgc HC' Hs) as [bl Hsl]. exists bl. destruct Hsl as [Hwf ? ? Hord ?].
    split; try done. eapply page_wf_ext; [done|by apply Hkept|]. intros x Hx.
    apply (Hkept C pgc Hne HC'). rewrite Hord, region0. lia.
  - intros C pgc HC Hs. apply Hold in HC as [_ HC]. by apply (ho_used _ _ _ H C).
  - intros B1 B2 pg1 pg2 [_ H1]%Hold [_ H2]%Hold. by apply (ho_apart _ _ _ H B1 B2).
  - intros C pgc [_ HC]%Hold. by apply (ho_order _ _ _ H C).
  - intros C. change (all_lists s') with (all_lists s). rewrite (ho_lists _ _ _ H). split.
    + intros (pgc & HC & ? & ?). exists pgc. split; [|done]. apply Hkept; [by eapply Hnb|done].
    + intros (pgc & HC%Hold & ? & ?). exists pgc. tauto.
  - apply H.
  - intros a u Ha. destruct (ho_live _ _ _ H a u Ha) as (C & pgc & o & HC & ? & ?).
    exists C, pgc, o. split; [|done]. apply Hkept; [by eapply Hnb|done].
  - apply H.
Qed.

(** ** The invariant *)

(** The descriptor of a large object of [n] bytes. *)
Definition large_page (n : Z) (pg : slob_page) : Prop :=
  PageSlab pg = false ∧ sp_private pg = n ∧ sp_count pg = 1 ∧ sp_order pg = get_order n ∧
  sp_compound pg = negb (get_order n =? 0).

Record kheap_ok (s : slob) (A K : gmap Z Z) : Prop := {
  ko_heap : heap_ok s A;
  ko_size p n : K !! p = Some n → 1 ≤ n < 2 ^ 32;
  ko_small p n : K !! p = Some n → n < 4092 →
    A !! (p - 4) = Some (SLOB_UNITS (n + 4)) ∧ word (cells s) (p - 4) = Some n ∧ p mod 4 = 0;
  ko_large p n : K !! p = Some n → 4092 ≤ n →
    is_page p ∧ ∃ pg, pages s !! p = Some pg ∧ large_page n pg
}.

(** The contents of the objects [K] did not change. *)
Definition obj_kept (K : gmap Z Z) (s s' : slob) : Prop :=
  ∀ p n x, K !! p = Some n → p ≤ x < p + n → cells s' !! x = cells s !! x.

Lemma units_cover n : 0 ≤ n < 2 ^ 31 → n ≤ 2 * SLOB_UNITS n ≤ n + 1.
Proof.
  intros. rewrite slob_units_val by lia. pose proof (Z.div_mod (n + 1) 2).
  pose proof (Z.mod_pos_bound (n + 1) 2). lia.
Qed.

(** A live block and a page outside the slob heap do not overlap. *)
Lemma live_raw_apart E s A a u C pg :
  heap_wf E s A → A !! a = Some u → pages s !! C = Some pg → PageSlab pg = false →
  C + region (sp_order pg) ≤ a ∨ a + 2 * u ≤ C.
Proof.
  intros H Ha HC Hs. destruct (ho_live _ _ _ H a u Ha) as (B & pgb & o & HB & HBs & -> & ? & ? & ?).
  destruct (ho_slab _ _ _ H B pgb HB HBs) as [bl Hsl]. assert (B ≠ C) by congruence.
  pose proof (ho_apart _ _ _ H B C pgb pg HB HC) as Hap.
  rewrite (slab_order _ _ _ _ _ Hsl), region0 in Hap. naive_solver lia.
Qed.

Lemma small_header s A K p n :
  kheap_ok s A K → K !! p = Some n → n < 4092 →
  ∀ x, p - 4 ≤ x < p + n → live_cell A x.
Proof.
  intros H Hp Hn x Hx. destruct (ko_small _ _ _ H p n Hp Hn) as (HA & _ & _).
  pose proof (ko_size _ _ _ H p n Hp). exists (p - 4), (SLOB_UNITS (n + 4)). split; [done|].
  pose proof (units_cover (n + 4)). lia.
Qed.

(** Moving to a state that leaves the objects [K'] alone. *)
Lemma kheap_transfer s s' A A' K K' :
  kheap_ok s A K → K' ⊆ K → heap_ok s' A' →
  (∀ p n, K' !! p = Some n → n < 4092 → A' !! (p - 4) = A !! (p - 4)) →
  (∀ p n x, K' !! p = Some n → n < 4092 → p - 4 ≤ x < p → cells s' !! x = cells s !! x) →
  (∀ p n, K' !! p = Some n → 4092 ≤ n → pages s' !! p = pages s !! p) →
  kheap_ok s' A' K'.
Proof.
  intros H HK Hok HA Hc Hp. split; [done|..]; intros p n Hpn.
  - eapply (ko_size _ _ _ H), lookup_weaken; done.
  - intros Hn. destruct (ko_small _ _ _ H p n) as (HA0 & Hw & Hm); [by eapply lookup_weaken|done|].
    rewrite (HA p n) by done. split_and!; [done| |done].
    rewrite <- Hw. apply word_ext; apply (Hc p n); done || lia.
  - intros Hn. destruct (ko_large _ _ _ H p n) as (HB & pg & Hpg & Hl); [by eapply lookup_weaken|done|].
    split; [done|]. exists pg. by rewrite (Hp p n).
Qed.

(** What an allocation below leaves of the other objects. *)
Lemma kheap_after_alloc s s' A A' K :
  kheap_ok s A K → heap_ok s' A' → (∀ a u, A !! a = Some u → A' !! a = Some u) →
  (∀ x, live_cell A x → cells s' !! x = cells s !! x) → raw_kept s s' →
  kheap_ok s' A' K ∧ obj_kept K s s'.
Proof.
  intros H Hok HA Hc Hraw. split.
  - eapply kheap_transfer; [done|done|done|..]; intros p n.
    + intros Hp Hn. destruct (ko_small _ _ _ H p n Hp Hn) as (Ha & _). rewrite Ha. by apply HA.
    + intros x Hp Hn Hx. pose proof (ko_size _ _ _ H p n Hp).
      eapply Hc, (small_header s A K p n); try done. lia.
    + intros Hp Hn. destruct (ko_large _ _ _ H p n Hp Hn) as (_ & pg & Hpg & Hs & _).
      rewrite Hpg. by apply Hraw.
  - intros p n x Hp Hx. pose proof (ko_size _ _ _ H p n Hp).
    destruct (decide (n < 4092)).
    + eapply Hc, (small_header s A K p n); try done. lia.
    + destruct (ko_large _ _ _ H p n Hp ltac:(lia)) as (_ & pg & Hpg & Hs & _ & _ & Hord & _).
      eapply Hraw; [done|done|]. rewrite Hord. pose proof (get_order_spec n). lia.
Qed.

(** ** Objects do not overlap *)

Lemma kheap_disjoint s A K p q n m :
  kheap_ok s A K → K !! p = Some n → K !! q = Some m → p ≠ q → p + n ≤ q ∨ q + m ≤ p.
Proof.
  intros H Hp Hq Hne. pose proof (ko_heap _ _ _ H) as Hok.
  pose proof (ko_size _ _ _ H p n Hp). pose proof (ko_size _ _ _ H q m Hq).
  pose proof (units_cover (n + 4)). pose proof (units_cover (m + 4)).
  pose proof (get_order_spec n). pose proof (get_order_spec m).
  destruct (decide (n < 4092)) as [Hn|Hn], (decide (m < 4092)) as [Hm|Hm].
  - destruct (ko_small _ _ _ H p n Hp Hn) as (Ha & _), (ko_small _ _ _ H q m Hq Hm) as (Hb & _).
    pose proof (ho_disj _ _ _ Hok _ _ _ _ Ha Hb). lia.
  - destruct (ko_small _ _ _ H p n Hp Hn) as (Ha & _).
    destruct (ko_large _ _ _ H q m Hq ltac:(lia)) as (_ & pg & Hpg & Hs & _ & _ & Hord & _).
    pose proof (live_raw_apart _ _ _ _ _ _ _ Hok Ha Hpg Hs) as Hap. rewrite Hord in Hap. lia.
  - destruct (ko_small _ _ _ H q m Hq Hm) as (Ha & _).
    destruct (ko_large _ _ _ H p n Hp ltac:(lia)) as (_ & pg & Hpg & Hs & _ & _ & Hord & _).
    pose proof (live_raw_apart _ _ _ _ _ _ _ Hok Ha Hpg Hs) as Hap. rewrite Hord in Hap. lia.
  - destruct (ko_large _ _ _ H p n Hp ltac:(lia)) as (_ & pg & Hpg & Hs & _ & _ & Hord & _).
    destruct (ko_large _ _ _ H q m Hq ltac:(lia)) as (_ & pg' & Hpg' & Hs' & _ & _ & Hord' & _).
    pose proof (ho_apart _ _ _ Hok p q pg pg' Hpg Hpg' Hne) as Hap. rewrite Hord, Hord' in Hap. lia.
Qed.

(** ** Allocation *)

Lemma kheap_insert s A K p n :
  kheap_ok s A K → 1 ≤ n < 2 ^ 32 →
  (n < 4092 → A !! (p - 4) = Some (SLOB_UNITS (n + 4)) ∧ word (cells s) (p - 4) = Some n ∧ p mod 4 = 0) →
  (4092 ≤ n → is_page p ∧ ∃ pg, pages s !! p = Some pg ∧ large_page n pg) →
  kheap_ok s A (<[p := n]> K).
Proof.
  intros [] Hn Hs Hl. split; [done|..]; intros q m;
    (destruct (decide (p = q)) as [->|]; [rewrite lookup_insert_eq; intros [= <-]|
      rewrite lookup_insert_ne by done]); eauto.
Qed.

(** No object starts at an address that is not mapped to one yet. *)
Lemma fresh_object s s' A K a u p :
  kheap_ok s A K → kheap_ok s' (<[a := u]> A) K → A !! a = None → a + 4 = p → 3 ≤ u → K !! p = None.
Proof.
  intros H H' Ha <- Hu. pose proof (ko_heap _ _ _ H') as Hok. apply eq_None_not_Some. intros [n Hn]. destruct (decide (n < 4092)) as [Hlt|Hlt].
  - destruct (ko_small _ _ _ H _ n Hn Hlt) as (HA & _). replace (a + 4 - 4) with a in HA by lia. congruence.
  - destruct (ko_large _ _ _ H' _ n Hn ltac:(lia)) as (_ & pg & Hpg & Hs & _ & _ & Hord & _).
    pose proof (ho_order _ _ _ Hok _ _ Hpg) as Ho. pose proof (region_pos _ Ho).
    pose proof (live_raw_apart _ _ _ a u _ _ Hok (lookup_insert_eq _ _ _) Hpg Hs). lia.
Qed.

Lemma comp_flag gfp order :
  negb (order =? 0) && negb (Z.land (if negb (order =? 0) then Z.lor gfp __GFP_COMP else gfp) __GFP_COMP =? 0)
  = negb (order =? 0).
Proof.
  destruct (order =? 0); simpl; [done|]. apply negb_true_iff, Z.eqb_neq. intros Hz.
  assert (Z.testbit (Z.land (Z.lor gfp __GFP_COMP) __GFP_COMP) 14 = true) as Hb.
  { rewrite Z.land_spec, Z.lor_spec. by rewrite orb_true_r. }
  by rewrite Hz in Hb.
Qed.

Section Kmalloc.
Context `{PageAllocatorOk}.

Lemma kmalloc_small s A K size gfp :
  kheap_ok s A K → 1 ≤ size < 4092 →
  __kmalloc_node size gfp s = Ok (0, s) ∨
  ∃ r s' A', __kmalloc_node size gfp s = Ok (r, s') ∧ 16 < r ∧ r mod 4 = 0 ∧ K !! r = None ∧
    kheap_ok s' A' (<[r := size]> K) ∧ obj_kept K s s'.
Proof.
  intros HK Hsz. pose proof (units_cover (size + 4) ltac:(lia)) as Hu.
  unfold __kmalloc_node. change kmalloc_align with 4. change (PAGE_SIZE - 4) with 4092.
  destruct (Z.ltb_spec size 4092); [|lia]. destruct (Z.eqb_spec size 0); [lia|].
  rewrite u32_id by lia.
  destruct (slob_alloc_spec (size + 4) 4 align_4 ltac:(lia) gfp s A (ko_heap _ _ _ HK))
    as [E|(m & s1 & E & [Hm Hnew Hal Hok Hkeep Hraw] & _)]; rewrite (bind_ok _ _ _ _ _ E); [by left|right].
  assert (m =? 0 = false) as -> by (apply Z.eqb_neq; lia).
  destruct (live_mapped _ _ _ m (SLOB_UNITS (size + 4)) Hok) as [_ Hmap]; [apply lookup_insert_eq|].
  destruct (store32_ok s1 m size) as (m' & E' & Hw & Hdom & Hout).
  { apply mod4_even, Hal. done. }
  { rewrite <- (Z.add_0_r m). apply (Hmap 0). lia. } { apply (Hmap 1). lia. } { lia. }
  rewrite (bind_ok _ _ _ _ _ E').
  assert (∀ x, live_cell A x → x ≠ m ∧ x ≠ m + 2) as Hap.
  { intros x Hx. pose proof (live_apart _ _ _ _ _ _ Hok Hnew Hx). lia. }
  assert (heap_ok (set_cells m' s1) (<[m := SLOB_UNITS (size + 4)]> A)) as Hok'.
  { eapply heap_wf_write; try done. intros x Hx. simpl.
    apply Hout; intros ->; apply Hx, live_cell_insert; [done|left; lia|done|left; lia]. }
  destruct (kheap_after_alloc s (set_cells m' s1) A (<[m := SLOB_UNITS (size + 4)]> A) K)
    as [HK' Hkept]; [done|done|..].
  { intros a u Ha. rewrite lookup_insert_ne; congruence. }
  { intros x Hx. simpl. rewrite Hout by by apply Hap. by apply Hkeep. }
  { eapply raw_kept_trans; [done|]. intros C pg HC HCs. split; [done|]. intros x Hx. simpl.
    pose proof (live_raw_apart _ _ _ m _ C pg Hok (lookup_insert_eq _ _ _) HC HCs). apply Hout; lia. }
  exists (m + 4), (set_cells m' s1), (<[m := SLOB_UNITS (size + 4)]> A). split_and!; [done|lia|..].
  - rewrite <- Zplus_mod_idemp_l, Hal by lia. done.
  - eapply (fresh_object s); try done. lia.
  - apply kheap_insert; [done|lia| |lia]. intros _. replace (m + 4 - 4) with m by lia.
    split_and!; [apply lookup_insert_eq|done|]. rewrite <- Zplus_mod_idemp_l, Hal by lia. done.
  - done.
Qed.

Lemma kmalloc_large s A K size gfp :
  kheap_ok s A K → 4092 ≤ size < 2 ^ 32 →
  __kmalloc_node size gfp s = Ok (0, s) ∨
  ∃ r s' A', __kmalloc_node size gfp s = Ok (r, s') ∧ 16 < r ∧ r mod 4 = 0 ∧ K !! r = None ∧
    kheap_ok s' A' (<[r := size]> K) ∧ obj_kept K s s'.
Proof.
  intros HK Hsz. pose proof (get_order_spec size ltac:(lia)) as (Ho & _ & _).
  unfold __kmalloc_node. change kmalloc_align with 4. change (PAGE_SIZE - 4) with 4092.
  destruct (Z.ltb_spec size 4092); [lia|].
  set (gfp' := if negb (get_order size =? 0) then Z.lor gfp __GFP_COMP else gfp).
  destruct (alloc_pages gfp' (get_order size) s) as [[B fill]|] eqn:Ealloc; [right|left];
    erewrite bind_ok by (unfold slob_new_pages; run_step; unfold id; rewrite Ealloc; reflexivity); [|done].
  destruct (alloc_pages_page _ _ _ _ _ Ho Ealloc) as [HB _].
  destruct (heap_add_raw s A B fill gfp' (get_order size) size) as (Hok & Hkeep & Hraw & Hnone);
    [apply HK|done|done| |].
  { intros B' pg Hpg. exact (alloc_pages_fresh _ _ _ _ _ _ _ Ho Ealloc Hpg). }
  pose proof HB as (HB1 & HB2 & HB3). assert (4096 ≤ B) as HBpos.
  { apply Z.mod_divide in HB1 as [c ->]; lia. }
  assert (B =? 0 = false) as -> by (apply Z.eqb_neq; lia). cbn [negb].
  rewrite slob_page_of_base by done. erewrite bind_ok by apply update_sp_put.
  destruct (kheap_after_alloc s _ A A K HK Hok) as [HK' Hkept]; [done..|].
  eexists B, _, A. split_and!; [done|lia|..].
  - apply Z.mod_divide in HB1 as [c ->]; [|lia]. replace (c * 4096) with (c * 1024 * 4) by lia.
    apply Z_mod_mult.
  - apply eq_None_not_Some. intros [n Hn]. pose proof (ko_size _ _ _ HK _ _ Hn).
    destruct (decide (n < 4092)) as [Hlt|Hlt].
    + destruct (ko_small _ _ _ HK' B n Hn Hlt) as (HA & _). pose proof (units_cover (n + 4)).
      pose proof (region_pos _ Ho).
      pose proof (live_raw_apart _ _ _ _ _ B _ Hok HA (lookup_insert_eq _ _ _) eq_refl) as Hap.
      cbn [sp_order set_private fresh_page] in Hap. lia.
    + destruct (ko_large _ _ _ HK B n Hn) as (_ & ? & ? & _); [lia|congruence].
  - apply kheap_insert; [done|lia|lia|]. intros _. split; [done|]. eexists.
    split; [apply lookup_insert_eq|]. split_and!; try done. apply comp_flag.
  - done.
Qed.

(** C2: [__kmalloc_node] always returns: [ZERO_SIZE_PTR] for an empty
    request, [NULL], or a new object aligned to 4 bytes that overlaps no
    other object, keeps the invariant of the kmalloc heap and leaves the
    contents of every other object alone. *)
Theorem kmalloc_ok s A K size gfp :
  kheap_ok s A K → 0 ≤ size < 2 ^ 32 →
  ∃ r s', __kmalloc_node size gfp s = Ok (r, s') ∧
    ((size = 0 ∧ r = ZERO_SIZE_PTR ∧ s' = s) ∨ (size ≠ 0 ∧ r = 0 ∧ s' = s) ∨
     (size ≠ 0 ∧ 16 < r ∧ r mod 4 = 0 ∧
      (∀ p n, K !! p = Some n → p + n ≤ r ∨ r + size ≤ p) ∧
      (∃ A', kheap_ok s' A' (<[r := size]> K)) ∧ obj_kept K s s')).
Proof.
  intros HK Hsz. destruct (decide (size = 0)) as [->|Hne].
  { eexists _, _. split; [done|]. by left. }
  assert (__kmalloc_node size gfp s = Ok (0, s) ∨
    ∃ r s' A', __kmalloc_node size gfp s = Ok (r, s') ∧ 16 < r ∧ r mod 4 = 0 ∧ K !! r = None ∧
      kheap_ok s' A' (<[r := size]> K) ∧ obj_kept K s s')
    as [->|(r & s' & A' & -> & Hr & Hm & Hnew & HK' & Hkept)].
  { destruct (decide (size < 4092)); [apply (kmalloc_small s A)|apply (kmalloc_large s A)]; done || lia. }
  - eexists _, _. split; [done|]. right. by left.
  - eexists _, _. split; [done|]. right. right. split_and!; try done; [|by eauto].
    intros p n Hp. assert (p ≠ r) by congruence.
    eapply (kheap_disjoint s' A' (<[r := size]> K)); try done; [by rewrite lookup_insert_ne|apply lookup_insert_eq].
Qed.
End Kmalloc.

(** ** Release *)

Lemma small_page s A K p n :
  kheap_ok s A K → K !! p = Some n → n < 4092 →
  ∃ B pg, slob_page_of p = B ∧ pages s !! B = Some pg ∧ PageSlab pg = true ∧ 16 < p.
Proof.
  intros H Hp Hn. destruct (ko_small _ _ _ H p n Hp Hn) as (HA & _ & _).
  pose proof (ko_size _ _ _ H p n Hp). pose proof (units_cover (n + 4) ltac:(lia)).
  destruct (ho_live _ _ _ (ko_heap _ _ _ H) _ _ HA) as (B & pg & o & HB & Hs & Ho & ? & ? & ?).
  destruct (ho_slab _ _ _ (ko_heap _ _ _ H) B pg HB Hs) as [bl [[HBp _ _ _ _ _ _] _ _ _ _]].
  exists B, pg. split_and!; [|done|done|].
  - unfold slob_page_of. replace p with (B + (2 * o + 4)) by lia. apply is_page_base; [done|lia].
  - destruct HBp as (HB1 & HB2 & _). apply Z.mod_divide in HB1 as [c ->]; lia.
Qed.

Lemma ptr_valid p : 16 < p → ZERO_OR_NULL_PTR p = false.
Proof. unfold ZERO_OR_NULL_PTR, ZERO_SIZE_PTR. intros. by apply Z.leb_gt. Qed.

(** The byte at [x] is back with the allocator: a page that is still held and
    has it is a slob page with [x] in its list of free blocks; if no page has it,
    it went back to the page allocator. *)
Definition given_back (s : slob) (x : Z) : Prop :=
  ∀ B pg, pages s !! B = Some pg → B ≤ x < B + region (sp_order pg) →
    PageSlab pg = true ∧ ∃ bl, page_wf s B pg bl ∧ free_cell B bl x.

(** The bytes an object of [n] bytes at [p] takes: with its header, in units,
    or in pages. *)
Definition footprint (p n x : Z) : Prop :=
  if decide (n < 4092) then p - 4 ≤ x < p - 4 + 2 * SLOB_UNITS (n + 4)
  else p ≤ x < p + region (get_order n).

(** The live blocks once the object is gone. *)
Definition without (p n : Z) (A : gmap Z Z) : gmap Z Z := if decide (n < 4092) then delete (p - 4) A else A.

(** What is neither live nor in a page of another kind is back. *)
Lemma given_back_slab s A x :
  heap_ok s A → ¬ live_cell A x →
  (∀ C pg, pages s !! C = Some pg → C ≤ x < C + region (sp_order pg) → PageSlab pg = true) → given_back s x.
Proof.
  intros H Hl Hraw B pg HB Hx. pose proof (Hraw B pg HB Hx) as Hs. split; [done|].
  destruct (ho_slab _ _ _ H B pg HB Hs) as [bl Hsl]. exists bl. split; [apply Hsl|].
  apply (slab_tile _ _ _ _ _ Hsl); [|done]. by rewrite (slab_order _ _ _ _ _ Hsl), region0 in Hx.
Qed.

Lemma kfree_small s A K p n :
  kheap_ok s A K → K !! p = Some n → n < 4092 →
  ∃ s', kfree p s = Ok (tt, s') ∧ kheap_ok s' (delete (p - 4) A) (delete p K) ∧ obj_kept (delete p K) s s' ∧
    ∀ x, p - 4 ≤ x < p - 4 + 2 * SLOB_UNITS (n + 4) → given_back s' x.
Proof.
  intros H Hp Hn. destruct (small_page s A K p n) as (B & pg & HB & Hpg & Hs & H16); [done..|].
  destruct (ko_small _ _ _ H p n Hp Hn) as (HA & Hw & H4%header_even). pose proof (ko_size _ _ _ H p n Hp).
  unfold kfree, is_slob_page. rewrite ptr_valid, HB by done. rewrite bind_assoc_cmd.
  erewrite bind_ok by by apply get_sp_ok. run_step. rewrite Hs. change kmalloc_align with 4.
  erewrite bind_ok by by apply load32_ok. rewrite s32_id by lia.
  destruct (slob_free_spec s A (p - 4) (n + 4) (ko_heap _ _ _ H)) as (s' & E & Hok & Hk & _ & _ & Hraw & Hold);
    [lia|done|].
  assert (∀ q m, delete p K !! q = Some m → q ≠ p ∧ K !! q = Some m) as Hd.
  { intros q m [? ?]%lookup_delete_Some. done. }
  assert (∀ q m, delete p K !! q = Some m → m < 4092 → ∀ x, q - 4 ≤ x < q + m → live_cell (delete (p - 4) A) x) as Hl.
  { intros q m [Hne Hq]%Hd Hm x Hx. destruct (ko_small _ _ _ H q m Hq Hm) as (HAq & _).
    pose proof (ko_size _ _ _ H q m Hq). pose proof (units_cover (m + 4)).
    exists (q - 4), (SLOB_UNITS (m + 4)). rewrite lookup_delete_ne by lia. split; [done|lia]. }
  exists s'. split_and!; [done| | |].
  - eapply kheap_transfer; [done|apply delete_subseteq|done|..]; intros q m.
    + intros Hq _. apply Hd in Hq as [? _]. rewrite lookup_delete_ne; [done|lia].
    + intros x Hq Hm Hx. eapply Hk, Hl; [done|done|]. apply Hd in Hq as [_ Hq].
      pose proof (ko_size _ _ _ H _ _ Hq). lia.
    + intros Hq Hm. apply Hd in Hq as [? Hq]. destruct (ko_large _ _ _ H q m Hq Hm) as (_ & pgq & Hpq & Hsq & _).
      rewrite Hpq. by apply Hraw.
  - intros q m x Hq Hx. destruct (decide (m < 4092)).
    + eapply Hk, Hl; [done|done|lia].
    + apply Hd in Hq as [? Hq]. pose proof (ko_size _ _ _ H _ _ Hq).
      destruct (ko_large _ _ _ H q m Hq) as (_ & pgq & Hpq & Hsq & _ & _ & Hord & _); [lia|].
      eapply Hraw; [done|done|]. rewrite Hord. pose proof (get_order_spec m). lia.
  - intros x Hx. eapply (given_back_slab s' (delete (p - 4) A)); [done| |].
    + rewrite (live_cell_delete (λ _, False) s A (p - 4) (SLOB_UNITS (n + 4))) by (done || apply H). lia.
    + intros C pgc HC HxC. destruct (PageSlab pgc) eqn:Hsc; [done|exfalso].
      pose proof (live_raw_apart _ _ _ _ _ C pgc (ko_heap _ _ _ H) HA (Hold _ _ HC Hsc) Hsc). lia.
Qed.

Lemma kfree_large s A K p n :
  kheap_ok s A K → K !! p = Some n → 4092 ≤ n →
  ∃ s', kfree p s = Ok (tt, s') ∧ kheap_ok s' A (delete p K) ∧ obj_kept (delete p K) s s' ∧
    ∀ x, p ≤ x < p + region (get_order n) → given_back s' x.
Proof.
  intros H Hp Hn. destruct (ko_large _ _ _ H p n Hp Hn) as (HB & pg & Hpg & Hs & _ & Hcnt & Hord & Hcomp).
  assert (16 < p) as H16.
  { destruct HB as (HB1 & HB2 & _). apply Z.mod_divide in HB1 as [c ->]; lia. }
  unfold kfree, is_slob_page. rewrite ptr_valid, slob_page_of_base by done. rewrite bind_assoc_cmd.
  erewrite bind_ok by by apply get_sp_ok. run_step. rewrite Hs. unfold put_page.
  erewrite bind_ok by by apply get_sp_ok. rewrite Hcnt. cbn [Z.sub Z.add Z.opp Z.pos_sub Z.eqb].
  assert ((if sp_compound pg then sp_order pg else 0) = sp_order pg) as ->.
  { rewrite Hcomp, Hord. by destruct (Z.eqb_spec (get_order n) 0) as [->|]. }
  destruct (heap_drop_raw s A p pg (ko_heap _ _ _ H) Hpg Hs) as [Hok Hkept].
  assert (∀ q m, delete p K !! q = Some m → q ≠ p ∧ K !! q = Some m) as Hd.
  { intros q m [? ?]%lookup_delete_Some. done. }
  eexists. split_and!; [done| | |].
  - eapply kheap_transfer; [done|apply delete_subseteq|done|done|..]; intros q m.
    + intros x [_ Hq]%Hd Hm Hx. pose proof (ko_size _ _ _ H _ _ Hq).
      assert (live_cell A x) as Hl by (eapply (small_header s A K q m); try done; lia).
      destruct (live_in_slab _ _ _ _ (ko_heap _ _ _ H) Hl) as (C & pgc & HC & HCs & HC0 & Hin).
      apply (Hkept C pgc); [congruence|done|]. by rewrite HC0, region0.
    + intros [Hne Hq]%Hd Hm. destruct (ko_large _ _ _ H q m Hq Hm) as (_ & pgq & Hpq & _).
      rewrite Hpq. by apply Hkept.
  - intros q m x [Hne Hq]%Hd Hx. pose proof (ko_size _ _ _ H _ _ Hq). destruct (decide (m < 4092)).
    + assert (live_cell A x) as Hl by (eapply (small_header s A K q m); try done; lia).
      destruct (live_in_slab _ _ _ _ (ko_heap _ _ _ H) Hl) as (C & pgc & HC & HCs & HC0 & Hin).
      apply (Hkept C pgc); [congruence|done|]. by rewrite HC0, region0.
    + destruct (ko_large _ _ _ H q m Hq) as (_ & pgq & Hpq & _ & _ & _ & Hordq & _); [lia|].
      apply (Hkept q pgq); [done|done|]. rewrite Hordq. pose proof (get_order_spec m). lia.
  - intros x Hx B pgb HB' HxB. simpl in HB'. apply lookup_delete_Some in HB' as [Hne HB']. exfalso.
    destruct (ho_apart _ _ _ (ko_heap _ _ _ H) B p pgb pg HB' Hpg); [done|rewrite Hord in *; lia..].
Qed.

(** C4: [kfree] of any object handed out returns; the object is out of the heap
    and no other live block is, the contents of all other objects are left
    alone, and every byte the object took, its header and padding included, is
    free memory of a slob page again or went back to the page allocator with its
    page. *)
Theorem kfree_ok s A K p n :
  kheap_ok s A K → K !! p = Some n →
  ∃ s', kfree p s = Ok (tt, s') ∧ kheap_ok s' (without p n A) (delete p K) ∧
    obj_kept (delete p K) s s' ∧ ∀ x, footprint p n x → given_back s' x.
Proof.
  intros H Hp. unfold without, footprint. case_decide; [by apply kfree_small|]. apply kfree_large; done || lia.
Qed.

(** [ksize] of an object is at least the size asked for: that size rounded
    up to a unit for a small object, exactly that size for a large one; and
    freeing the null pointers is a no-op. *)
Theorem ksize_ok s A K p n :
  kheap_ok s A K → K !! p = Some n →
  ∃ c, ksize p s = Ok (c, s) ∧ n ≤ c ≤ n + 1 ∧ (4092 ≤ n → c = n) ∧ kfree 0 s = Ok (tt, s).
Proof.
  intros H Hp. pose proof (ko_size _ _ _ H p n Hp). unfold ksize, is_slob_page.
  destruct (decide (n < 4092)) as [Hn|Hn].
  - destruct (small_page s A K p n) as (B & pg & HB & Hpg & Hs & H16); [done..|].
    destruct (ko_small _ _ _ H p n Hp Hn) as (_ & Hw & H4%header_even).
    destruct (Z.eqb_spec p 0); [lia|]. erewrite bind_ok by done. unfold ZERO_SIZE_PTR.
    destruct (Z.eqb_spec p 16); [lia|]. rewrite HB, bind_assoc_cmd.
    erewrite bind_ok by by apply get_sp_ok. run_step. rewrite Hs.
    erewrite bind_ok by by apply load32_ok. eexists. split; [done|]. pose proof (units_cover n).
    unfold SLOB_UNIT. split_and!; lia || done.
  - destruct (ko_large _ _ _ H p n Hp) as (HB & pg & Hpg & Hs & Hpr & _); [lia|].
    pose proof HB as (HB1 & HB2 & _). assert (4096 ≤ p) by (apply Z.mod_divide in HB1 as [c ->]; lia).
    destruct (Z.eqb_spec p 0); [lia|]. erewrite bind_ok by done. unfold ZERO_SIZE_PTR.
    destruct (Z.eqb_spec p 16); [lia|]. rewrite slob_page_of_base, bind_assoc_cmd by done.
    erewrite bind_ok by by apply get_sp_ok. run_step. rewrite Hs.
    erewrite bind_ok by by apply get_sp_ok. eexists. split; [done|]. rewrite Hpr. split_and!; lia || done.
Qed.

(** ** Witnesses *)

Lemma empty_kheap : kheap_ok empty_heap ∅ ∅.
Proof. split; [apply empty_heap_ok|..]; intros p n; by rewrite lookup_empty. Qed.

Lemma kmalloc_ok_witness :
  let _ := bump_allocator (λ _, 7) in
  ∃ r s', __kmalloc_node 5000 0 empty_heap = Ok (r, s') ∧ (16 < r → ∃ A', kheap_ok s' A' {[r := 5000]}).
Proof.
  intros pa.
  destruct (kmalloc_ok empty_heap ∅ ∅ 5000 0 empty_kheap ltac:(lia)) as (r & s' & E & Hr).
  exists r, s'. split; [exact E|]. intros H16. unfold ZERO_SIZE_PTR in Hr.
  destruct Hr as [(? & ? & _)|[(_ & ? & _)|(_ & _ & _ & _ & HK & _)]]; [lia|lia|exact HK].
Defined.

(** The first 100-byte object on an empty heap. *)
Lemma first_object :
  let _ := bump_allocator (λ _, 7) in
  ∃ r s A, __kmalloc_node 100 0 empty_heap = Ok (r, s) ∧ kheap_ok s A {[r := 100]}.
Proof.
  intros pa.
  assert (match __kmalloc_node 100 0 empty_heap with Ok (r, _) => r =? 0 | _ => true end = false) as Hr
    by (vm_compute; reflexivity).
  destruct (kmalloc_small empty_heap ∅ ∅ 100 0 empty_kheap ltac:(lia)) as [E|(r & s & A & E & _ & _ & _ & HK & _)].
  - rewrite E in Hr. discriminate Hr.
  - exists r, s, A. split; [exact E|exact HK].
Qed.

Lemma kfree_ok_witness :
  let _ := bump_allocator (λ _, 7) in
  ∃ r s s', __kmalloc_node 100 0 empty_heap = Ok (r, s) ∧ kfree r s = Ok (tt, s') ∧
    given_back s' r ∧ given_back s' (r + 99).
Proof.
  intros pa. destruct first_object as (r & s & A & E & HK).
  destruct (kfree_ok s A {[r := 100]} r 100 HK (lookup_singleton_eq _ _)) as (s' & E' & _ & _ & Hb).
  exists r, s, s'. change (footprint r 100) with (λ x, r - 4 ≤ x < r - 4 + 2 * SLOB_UNITS 104) in Hb.
  change (SLOB_UNITS 104) with 52 in Hb. split_and!; [exact E|exact E'|apply Hb; lia..].
Defined.

Lemma ksize_ok_witness :
  let _ := bump_allocator (λ _, 7) in
  ∃ r s c, __kmalloc_node 100 0 empty_heap = Ok (r, s) ∧ ksize r s = Ok (c, s) ∧ 100 ≤ c ≤ 101.
Proof.
  intros pa. destruct first_object as (r & s & A & E & HK).
  destruct (ksize_ok s A {[r := 100]} r 100 HK (lookup_singleton_eq _ _)) as (c & E' & Hc & _).
  exists r, s, c. split; [exact E|]. split; [exact E'|exact Hc].
Defined.
