(* ===== verification/KmemCache.v ===== *)
(** * Slab caches on top of SLOB (project4/slob.c)

    [kmem_cache_create], [kmem_cache_alloc_node], [kmem_cache_free] and the
    RCU-delayed release.  The cache descriptor lives in the SLOB heap; an
    object of a [SLAB_DESTROY_BY_RCU] cache is queued for the grace period and
    given back by [kmem_rcu_free]. *)

From S2P Require Import Prelude SlobPage SlobHeap SlobInv SlobFree SlobSpec Kmalloc.

Definition SLAB_HWCACHE_ALIGN : Z := 0x2000.
Definition SLAB_PANIC : Z := 0x40000.
Definition SLAB_DESTROY_BY_RCU : Z := 0x80000.
Definition GFP_KERNEL : Z := 0xd0.
(** [sizeof(struct kmem_cache)] and [sizeof(struct slob_rcu)]. *)
Definition sizeof_kmem_cache : Z := 20.
Definition sizeof_slob_rcu : Z := 12.

(** Field offsets of [struct kmem_cache] and of [slob_rcu.size]. *)
Definition c_size (c : Z) : Z := c + 0.
Definition c_align (c : Z) : Z := c + 4.
Definition c_flags (c : Z) : Z := c + 8.
Definition c_name (c : Z) : Z := c + 12.
Definition c_ctor (c : Z) : Z := c + 16.
Definition rcu_size (r : Z) : Z := r + 8.

Definition has_flag (flags f : Z) : bool := negb (Z.land flags f =? 0).

(** The heap and the callbacks waiting for a grace period. *)
Record kmem := mk_kmem { kheap : slob; rcu_pending : list Z }.
Notation kmemM := (cmd kmem).

Definition on_heap {A} (c : slobM A) : kmemM A :=
  zoom kheap (λ h k, mk_kmem h (rcu_pending k)) c.

(** Constructors are code of the cache's owner: [run_ctor f b] is [f(b)]. *)
Class CacheCtor := { run_ctor : Z → Z → slobM unit }.

Definition kmem_cache_create `{PageAllocator} (name size align flags ctor : Z) : slobM Z :=
  c ← slob_alloc sizeof_kmem_cache GFP_KERNEL ARCH_KMALLOC_MINALIGN;
  if negb (c =? 0) then
    store32 (c_name c) name ;;
    store32 (c_size c) size ;;
    (if has_flag flags SLAB_DESTROY_BY_RCU then
       n ← load32 (c_size c); store32 (c_size c) (u32 (n + sizeof_slob_rcu))
     else mret tt) ;;
    store32 (c_flags c) flags ;;
    store32 (c_ctor c) ctor ;;
    store32 (c_align c) (if has_flag flags SLAB_HWCACHE_ALIGN then SLOB_ALIGN else 0) ;;
    a ← load32 (c_align c);
    (if a <? ARCH_SLAB_MINALIGN then store32 (c_align c) ARCH_SLAB_MINALIGN else mret tt) ;;
    a ← load32 (c_align c);
    (if a <? align then store32 (c_align c) align else mret tt) ;;
    mret c
  else if has_flag flags SLAB_PANIC then fault
  else mret c.

Definition kmem_cache_alloc_node `{PageAllocator} `{CacheCtor} (c flags : Z) : slobM Z :=
  size ← load32 (c_size c);
  b ← (if size <? PAGE_SIZE then
         align ← load32 (c_align c);
         slob_alloc size flags align
       else slob_new_pages flags (get_order size));
  ctor ← load32 (c_ctor c);
  (if negb (ctor =? 0) then run_ctor ctor b else mret tt) ;;
  mret b.

Definition __kmem_cache_free (b size : Z) : slobM unit :=
  if size <? PAGE_SIZE then slob_free b size else slob_free_pages b (get_order size).

Definition kmem_rcu_free (head : Z) : slobM unit :=
  size ← load32 (rcu_size head);
  let b := head - (size - sizeof_slob_rcu) in
  __kmem_cache_free b size.

(** [call_rcu(&slob_rcu->head, kmem_rcu_free)] *)
Definition call_rcu (head : Z) : kmemM unit :=
  modify (λ k, mk_kmem (kheap k) (rcu_pending k ++ [head])).

Definition kmem_cache_free (c b : Z) : kmemM unit :=
  flags ← on_heap (load32 (c_flags c));
  size ← on_heap (load32 (c_size c));
  if has_flag flags SLAB_DESTROY_BY_RCU then
    let slob_rcu := b + (size - sizeof_slob_rcu) in
    on_heap (store32 (rcu_size slob_rcu) size) ;;
    call_rcu slob_rcu
  else on_heap (__kmem_cache_free b size).

(** The grace period ends: the oldest callback runs. *)
Definition rcu_run_one : kmemM unit :=
  k ← gets id;
  match rcu_pending k with
  | [] => mret tt
  | head :: rest =>
      modify (λ k, mk_kmem (kheap k) rest) ;;
      on_heap (kmem_rcu_free head)
  end.

(** [rcu_barrier()] waits until every queued callback has run. *)
Fixpoint rcu_drain (n : nat) : kmemM unit :=
  match n with O => mret tt | S n => rcu_run_one ;; rcu_drain n end.
Definition rcu_barrier : kmemM unit :=
  k ← gets id; rcu_drain (length (rcu_pending k)).

Definition kmem_cache_destroy (c : Z) : kmemM unit :=
  flags ← on_heap (load32 (c_flags c));
  (if has_flag flags SLAB_DESTROY_BY_RCU then rcu_barrier else mret tt) ;;
  on_heap (slob_free c sizeof_kmem_cache).

Definition kmem_cache_size (c : Z) : slobM Z := load32 (c_size c).
Definition kmem_cache_shrink (d : Z) : slobM Z := mret 0.
Definition slab_is_available : slobM Z := gets slob_ready.
Definition kmem_cache_init : slobM unit :=
  modify (λ s, mk_slob (cells s) (pages s) (lists s) (mem_used s) (mem_claimed s) (reclaim_state s) 1).
Definition kmem_cache_init_late : slobM unit := mret tt.

(** ** Words of a live block *)

Section Fields.
Context (A : gmap Z Z) (c u : Z).

(** The caller owns the live block at [c]. *)
Definition owns (s : slob) : Prop := heap_ok s A ∧ A !! c = Some u.

(** [s'] differs from [s] in the word at [c + k] only, which holds [v]. *)
Definition wrote (k v : Z) (s s' : slob) : Prop :=
  word (cells s') (c + k) = Some v ∧
  (∀ j, j + 4 ≤ k ∨ k + 4 ≤ j → word (cells s') (c + j) = word (cells s) (c + j)) ∧
  (∀ x, ¬ (c ≤ x < c + 2 * u) → cells s' !! x = cells s !! x) ∧ pages s' = pages s.

Lemma store_field s k v :
  owns s → 0 ≤ k → k + 4 ≤ 2 * u → k mod 2 = 0 → 0 ≤ v < 2 ^ 32 →
  ∃ s', store32 (c + k) v s = Ok (tt, s') ∧ owns s' ∧ wrote k v s s'.
Proof.
  intros [Hok Hc] Hk Hku Hk2 Hv. destruct (live_mapped _ _ _ _ _ Hok Hc) as [He Hm].
  apply Z.mod_divide in Hk2 as [i ->]; [|lia].
  destruct (store32_ok s (c + i * 2) v) as (m' & E & Hw & Hd & Ho).
  { by rewrite Z_mod_plus_full. }
  { replace (i * 2) with (2 * i) by lia. apply Hm. lia. }
  { replace (c + i * 2 + 2) with (c + 2 * (i + 1)) by lia. apply Hm. lia. }
  { done. }
  rewrite E. eexists. split; [done|].
  assert (∀ x, ¬ (c ≤ x < c + 2 * u) → m' !! x = cells s !! x) as Hout.
  { intros x Hx. apply Ho; lia. }
  split.
  - split; [|done]. eapply heap_wf_write; try done. intros x Hx. simpl. apply Hout.
    intros Hin. apply Hx. by exists c, u.
  - split_and!; try done. intros j Hj. apply word_ext; apply Ho; lia.
Qed.

Lemma wrote_trans k v w s1 s2 s3 : wrote k v s1 s2 → wrote k w s2 s3 → wrote k w s1 s3.
Proof.
  intros (_ & Hw & Hx & Hp) (H1 & Hw' & Hx' & Hp'). split_and!; [done|..|congruence].
  - intros j Hj. by rewrite Hw', Hw.
  - intros x Hn. by rewrite Hx', Hx.
Qed.

Lemma load_field s k v :
  owns s → k mod 2 = 0 → word (cells s) (c + k) = Some v → load32 (c + k) s = Ok (v, s).
Proof.
  intros [Hok Hc] Hk Hw. apply load32_ok; [|done].
  destruct (live_mapped _ _ _ _ _ Hok Hc) as [He _].
  rewrite <- Zplus_mod_idemp_l, <- Zplus_mod_idemp_r, He, Hk. done.
Qed.

(** [if (field < b) field = b;] *)
Lemma raise_field s0 s k a b :
  owns s → wrote k a s0 s → 0 ≤ k → k + 4 ≤ 2 * u → k mod 2 = 0 → 0 ≤ b < 2 ^ 32 →
  ∃ s', (∀ R (f : slobM R),
           (x ← load32 (c + k); (if x <? b then store32 (c + k) b else mret tt) ;; f) s = f s') ∧
        owns s' ∧ wrote k (Z.max b a) s0 s'.
Proof.
  intros Ho Hw Hk Hku Hk2 Hb.
  assert (load32 (c + k) s = Ok (a, s)) as El by (apply load_field; [done|done|apply Hw]).
  destruct (Z.ltb_spec a b) as [Hlt|Hlt].
  - destruct (store_field s k b Ho) as (s' & E & Ho' & Hw'); [done..|].
    exists s'. rewrite Z.max_l by lia. split_and!; [|done|by eapply wrote_trans].
    intros R f. rewrite (bind_ok _ _ _ _ _ El). apply Z.ltb_lt in Hlt as ->.
    by rewrite (bind_ok _ _ _ _ _ E).
  - exists s. rewrite Z.max_r by lia. split_and!; [|done|done].
    intros R f. rewrite (bind_ok _ _ _ _ _ El). by apply Z.ltb_ge in Hlt as ->.
Qed.
End Fields.

(** The descriptor at [c] holds these values. *)
Definition cache_at (s : slob) (c size align flags ctor : Z) : Prop :=
  word (cells s) (c + 0) = Some size ∧ word (cells s) (c + 4) = Some align ∧
  word (cells s) (c + 8) = Some flags ∧ word (cells s) (c + 16) = Some ctor.

Lemma cache_at_ext s s' c size align flags ctor :
  (∀ x, c ≤ x < c + 20 → cells s' !! x = cells s !! x) →
  cache_at s c size align flags ctor → cache_at s' c size align flags ctor.
Proof.
  intros Hx Hat. assert (∀ k, 0 ≤ k ≤ 16 → word (cells s') (c + k) = word (cells s) (c + k)) as Hw.
  { intros k Hk. apply word_ext; apply Hx; lia. }
  unfold cache_at. by rewrite !Hw by lia.
Qed.

(** The fields [kmem_cache_create] sets. *)
Definition cache_size (size flags : Z) : Z :=
  if has_flag flags SLAB_DESTROY_BY_RCU then u32 (size + sizeof_slob_rcu) else size.
Definition cache_align (align flags : Z) : Z :=
  Z.max align (if has_flag flags SLAB_HWCACHE_ALIGN then SLOB_ALIGN else ARCH_SLAB_MINALIGN).

Definition word32 (v : Z) : Prop := 0 ≤ v < 2 ^ 32.

Lemma create_fields s A c name size align flags ctor :
  owns A c 10 s → word32 name → word32 size → word32 align → word32 flags → word32 ctor →
  ∃ s', (store32 (c_name c) name ;;
         store32 (c_size c) size ;;
         (if has_flag flags SLAB_DESTROY_BY_RCU then
            n ← load32 (c_size c); store32 (c_size c) (u32 (n + sizeof_slob_rcu))
          else mret tt) ;;
         store32 (c_flags c) flags ;;
         store32 (c_ctor c) ctor ;;
         store32 (c_align c) (if has_flag flags SLAB_HWCACHE_ALIGN then SLOB_ALIGN else 0) ;;
         a ← load32 (c_align c);
         (if a <? ARCH_SLAB_MINALIGN then store32 (c_align c) ARCH_SLAB_MINALIGN else mret tt) ;;
         a ← load32 (c_align c);
         (if a <? align then store32 (c_align c) align else mret tt) ;;
         mret c) s = Ok (c, s') ∧
        owns A c 10 s' ∧ cache_at s' c (cache_size size flags) (cache_align align flags) flags ctor ∧
        (∀ x, ¬ (c ≤ x < c + 20) → cells s' !! x = cells s !! x) ∧ pages s' = pages s.
Proof.
  intros Ho Hn Hs Ha Hf Hc. unfold c_name, c_size, c_flags, c_ctor, c_align.
  destruct (store_field A c 10 s 12 name Ho) as (s1 & E1 & Ho1 & W1); [lia..|done|done|].
  rewrite (bind_ok _ _ _ _ _ E1).
  destruct (store_field A c 10 s1 0 size Ho1) as (s2 & E2 & Ho2 & W2); [lia..|done|done|].
  rewrite (bind_ok _ _ _ _ _ E2).
  assert (∃ s3, (if has_flag flags SLAB_DESTROY_BY_RCU then
            n ← load32 (c + 0); store32 (c + 0) (u32 (n + sizeof_slob_rcu)) else mret tt) s2 = Ok (tt, s3) ∧
          owns A c 10 s3 ∧ wrote c 10 0 (cache_size size flags) s1 s3) as (s3 & E3 & Ho3 & W3).
  { unfold cache_size. destruct (has_flag flags SLAB_DESTROY_BY_RCU); [|by exists s2].
    erewrite bind_ok by (eapply load_field; [done|done|apply W2]).
    destruct (store_field A c 10 s2 0 (u32 (size + sizeof_slob_rcu)) Ho2) as (s3 & E3 & Ho3 & W3);
      [lia..|done|apply wrap_u_range; lia|].
    exists s3. split_and!; try done. by eapply wrote_trans. }
  rewrite (bind_ok _ _ _ _ _ E3).
  destruct (store_field A c 10 s3 8 flags Ho3) as (s4 & E4 & Ho4 & W4); [lia..|done|done|].
  rewrite (bind_ok _ _ _ _ _ E4).
  destruct (store_field A c 10 s4 16 ctor Ho4) as (s5 & E5 & Ho5 & W5); [lia..|done|done|].
  rewrite (bind_ok _ _ _ _ _ E5).
  destruct (store_field A c 10 s5 4 (if has_flag flags SLAB_HWCACHE_ALIGN then SLOB_ALIGN else 0) Ho5)
    as (s6 & E6 & Ho6 & W6); [lia..|done|by destruct (has_flag flags SLAB_HWCACHE_ALIGN)|].
  rewrite (bind_ok _ _ _ _ _ E6).
  edestruct (raise_field A c 10 s5 s6 4) with (b := ARCH_SLAB_MINALIGN) as (s7 & -> & Ho7 & W7); [done|done|lia..|done|done|].
  edestruct (raise_field A c 10 s5 s7 4) with (b := align) as (s8 & -> & Ho8 & W8); [done|done|lia..|done|done|].
  exists s8. split; [done|]. split; [done|].
  destruct W1 as (_ & _ & X1 & P1), W3 as (V3 & _ & X3 & P3), W4 as (V4 & K4 & X4 & P4),
    W5 as (V5 & K5 & X5 & P5), W8 as (V8 & K8 & X8 & P8).
  split_and!.
  - split_and!.
    + rewrite K8, K5, K4 by lia. done.
    + rewrite V8. f_equal. unfold cache_align, SLOB_ALIGN, ARCH_SLAB_MINALIGN.
      destruct (has_flag flags SLAB_HWCACHE_ALIGN); lia.
    + rewrite K8, K5 by lia. done.
    + rewrite K8 by lia. done.
  - intros x Hx. rewrite X8, X5, X4, X3, X1 by lia. done.
  - congruence.
Qed.

(** [kmem_cache_create] either fails as documented (it returns [NULL], or
    panics under [SLAB_PANIC]) or returns a live descriptor of its own whose
    fields are the ones requested: room for the RCU footer is added to the size
    when the cache needs it, and the alignment is raised to the cache line or
    to the minimum; other live memory is untouched. *)
Theorem kmem_cache_create_ok `{PageAllocatorOk} s A name size align flags ctor :
  heap_ok s A → word32 name → word32 size → word32 align → word32 flags → word32 ctor →
  kmem_cache_create name size align flags ctor s =
    (if has_flag flags SLAB_PANIC then Fault else Ok (0, s)) ∨
  ∃ c s', kmem_cache_create name size align flags ctor s = Ok (c, s') ∧
    A !! c = None ∧ heap_ok s' (<[c := 10]> A) ∧
    cache_at s' c (cache_size size flags) (cache_align align flags) flags ctor ∧
    (∀ x, live_cell A x → cells s' !! x = cells s !! x).
Proof.
  intros Hok Hn Hs Ha Hf Hc. unfold kmem_cache_create.
  destruct (slob_alloc_spec sizeof_kmem_cache ARCH_KMALLOC_MINALIGN align_4 ltac:(done) GFP_KERNEL s A Hok)
    as [E|(c & s1 & E & [H16 Hnew _ Hok1 Hkeep _] & _)]; rewrite (bind_ok _ _ _ _ _ E).
  { left. simpl. by destruct (has_flag flags SLAB_PANIC). }
  right. assert (c =? 0 = false) as -> by (apply Z.eqb_neq; lia).
  destruct (create_fields s1 (<[c := 10]> A) c name size align flags ctor) as (s' & E' & [Hok' _] & Hat & Hx & _);
    try done.
  { split; [done|apply lookup_insert_eq]. }
  exists c, s'. split_and!; try done. intros x Hl. rewrite Hx; [by apply Hkeep|].
  pose proof (live_apart _ _ _ _ _ _ Hok1 Hnew Hl) as Hap. change (SLOB_UNITS sizeof_kmem_cache) with 10 in Hap. lia.
Qed.

Lemma on_heap_ok {R} (m : slobM R) k r s' :
  m (kheap k) = Ok (r, s') → on_heap m k = Ok (r, mk_kmem s' (rcu_pending k)).
Proof. intros E. unfold on_heap, zoom. by rewrite E. Qed.

Lemma small_free_ok s A b size :
  heap_ok s A → 1 ≤ size < 4096 → A !! b = Some (SLOB_UNITS size) →
  ∃ s', __kmem_cache_free b size s = Ok (tt, s') ∧ heap_ok s' (delete b A) ∧
        (∀ x, live_cell (delete b A) x → cells s' !! x = cells s !! x).
Proof.
  intros Hok Hsz Hb. unfold __kmem_cache_free, PAGE_SIZE. destruct (Z.ltb_spec size 4096); [|lia].
  destruct (slob_free_spec s A b size Hok ltac:(lia) Hb) as (s' & E & ? & ? & _). eauto.
Qed.

Lemma load_cache_field A c s k v :
  heap_ok s A → A !! c = Some 10 → k mod 2 = 0 → word (cells s) (c + k) = Some v →
  load32 (c + k) s = Ok (v, s).
Proof. intros. by eapply load_field. Qed.

(** [kmem_cache_free] of an object of a small cache: without
    [SLAB_DESTROY_BY_RCU] the object leaves the heap at once; with it the
    object stays live, only its footer is written and its callback queued, and
    the callback, whenever it runs on that state, releases exactly that object. *)
Theorem kmem_cache_free_ok k A c b size align flags ctor :
  heap_ok (kheap k) A → A !! c = Some 10 → cache_at (kheap k) c size align flags ctor →
  12 ≤ size < 4096 → size mod 2 = 0 → A !! b = Some (SLOB_UNITS size) →
  ∃ k', kmem_cache_free c b k = Ok (tt, k') ∧
    if has_flag flags SLAB_DESTROY_BY_RCU then
      heap_ok (kheap k') A ∧ rcu_pending k' = rcu_pending k ++ [b + (size - 12)] ∧
      (∀ x, ¬ (b ≤ x < b + size) → cells (kheap k') !! x = cells (kheap k) !! x) ∧
      (∃ s2, kmem_rcu_free (b + (size - 12)) (kheap k') = Ok (tt, s2) ∧ heap_ok s2 (delete b A))
    else
      heap_ok (kheap k') (delete b A) ∧ rcu_pending k' = rcu_pending k ∧
      (∀ x, live_cell (delete b A) x → cells (kheap k') !! x = cells (kheap k) !! x).
Proof.
  intros Hok Hc (W0 & _ & W8 & _) Hsz He Hb. unfold kmem_cache_free, c_flags, c_size.
  erewrite bind_ok by (eapply on_heap_ok, load_cache_field; done).
  erewrite bind_ok by (eapply on_heap_ok, load_cache_field; done). cbn [kheap rcu_pending].
  destruct (has_flag flags SLAB_DESTROY_BY_RCU).
  - pose proof (units_cover size ltac:(lia)) as Hu.
    assert ((size - 4) mod 2 = 0) as Hk4.
    { replace (size - 4) with (size + (-2) * 2) by lia. by rewrite Z_mod_plus_full. }
    assert (2 * SLOB_UNITS size = size) as Hu2.
    { pose proof (Z.div_mod size 2). lia. }
    destruct (store_field A b (SLOB_UNITS size) (kheap k) (size - 4) size) as (s1 & E1 & Ho1 & W);
      [done|lia|lia|done|lia|].
    unfold rcu_size, sizeof_slob_rcu. replace (b + (size - 12) + 8) with (b + (size - 4)) by lia.
    erewrite bind_ok by (eapply on_heap_ok; exact E1). eexists. split; [done|]. cbn [kheap rcu_pending].
    destruct Ho1 as [Hok1 Hb1]. split_and!; [done|done| |].
    { intros x Hx. apply W. lia. }
    unfold kmem_rcu_free, rcu_size, sizeof_slob_rcu.
    replace (b + (size - 12) + 8) with (b + (size - 4)) by lia.
    erewrite bind_ok by (eapply load_field; [by split|done|apply W]).
    replace (b + (size - 12) - (size - 12)) with b by lia.
    destruct (small_free_ok s1 A b size) as (s2 & ? & ? & _); [done|lia|done|]. eauto.
  - destruct (small_free_ok (kheap k) A b size) as (s2 & E & ? & ?); [done|lia|done|].
    erewrite on_heap_ok by exact E. eexists. split; [done|]. done.
Qed.

(** ** Witnesses *)

Lemma kmem_cache_create_ok_witness :
  let _ := bump_allocator (λ _, 7) in
  kmem_cache_create 0 40 0 SLAB_DESTROY_BY_RCU 0 empty_heap = Ok (0, empty_heap) ∨
  ∃ c s', kmem_cache_create 0 40 0 SLAB_DESTROY_BY_RCU 0 empty_heap = Ok (c, s') ∧
    heap_ok s' {[c := 10]} ∧ cache_at s' c 52 4 SLAB_DESTROY_BY_RCU 0.
Proof.
  intros pa.
  destruct (kmem_cache_create_ok empty_heap ∅ 0 40 0 SLAB_DESTROY_BY_RCU 0 empty_heap_ok
    ltac:(done) ltac:(done) ltac:(done) ltac:(done) ltac:(done)) as [E|(c & s' & E & _ & Hok & Hat & _)].
  - left. exact E.
  - right. exists c, s'. split; [exact E|]. split; [exact Hok|exact Hat].
Defined.

(** A cache descriptor and one of its objects on a fresh heap. *)
Lemma cache_and_object :
  ∃ k A c b, heap_ok (kheap k) A ∧ A !! c = Some 10 ∧
    cache_at (kheap k) c 52 4 SLAB_DESTROY_BY_RCU 0 ∧ A !! b = Some (SLOB_UNITS 52).
Proof.
  set (pa := bump_allocator (λ _, 7)).
  assert (match slob_alloc 20 GFP_KERNEL 4 empty_heap with
          | Ok (c, s1) => match slob_alloc 52 0 4 s1 with Ok (b, _) => (c =? 0) || (b =? 0) | _ => true end
          | _ => true end = false) as Hr by (vm_compute; reflexivity).
  destruct (slob_alloc_spec 20 4 align_4 ltac:(lia) GFP_KERNEL empty_heap ∅ empty_heap_ok)
    as [E|(c & s1 & E & [H16 Hnew _ Hok _ _] & _)]; rewrite E in Hr.
  { destruct (slob_alloc 52 0 4 empty_heap) as [[? ?]| |]; discriminate Hr. }
  destruct (slob_alloc_spec 52 4 align_4 ltac:(lia) 0 s1 {[c := 10]} Hok)
    as [E2|(b & s2 & E2 & [H16b Hnewb _ Hok2 _ _] & _)]; rewrite E2 in Hr.
  { rewrite orb_true_r in Hr. discriminate Hr. }
  clear Hr E E2. assert (c ≠ b) by (intros ->; by rewrite lookup_singleton_eq in Hnewb).
  destruct (create_fields s2 (<[b := SLOB_UNITS 52]> {[c := 10]}) c 0 40 0 SLAB_DESTROY_BY_RCU 0)
    as (s3 & _ & [Hok3 Hc] & Hat & _); [|done..|].
  { split; [exact Hok2|by simplify_map_eq]. }
  exists (mk_kmem s3 []), (<[b := SLOB_UNITS 52]> {[c := 10]}), c, b.
  split; [exact Hok3|]. split; [exact Hc|]. split; [exact Hat|apply lookup_insert_eq].
Qed.

Lemma kmem_cache_free_ok_witness :
  ∃ k A c b k' s2, kmem_cache_free c b k = Ok (tt, k') ∧
    kmem_rcu_free (b + (52 - 12)) (kheap k') = Ok (tt, s2) ∧ heap_ok s2 (delete b A).
Proof.
  destruct cache_and_object as (k & A & c & b & Hok & Hc & Hat & Hb).
  destruct (kmem_cache_free_ok k A c b 52 4 SLAB_DESTROY_BY_RCU 0 Hok Hc Hat ltac:(lia) eq_refl Hb)
    as (k' & E & _ & _ & _ & s2 & E2 & Hok2).
  exists k, A, c, b, k', s2. split; [exact E|]. split; [exact E2|exact Hok2].
Defined.
