(* ===== verification/Sstf.v ===== *)
(** * The SSTF I/O scheduler (project2/sstf-iosched.c, block/elevator.c)

    Requests are named by the address of their [queuelist] (the first member of
    [struct request]).  The scheduler follows raw list pointers, so its state is
    the memory of list heads of ListHead, and [sector] and [cmd_flags] are total:
    applied to the list head itself they stand for whatever lies where a request
    would have these fields, which is what [list_entry] on the head reads.
    [position], used by [sstf_add_request] but declared nowhere, is a parameter. *)

From stdpp Require Import sorting.
From S2P Require Import Prelude BlkTypes ListHead ListSplice.

(** ** State *)

Record ioq := mk_ioq {
  lists_mem : lmem;          (* every struct list_head involved *)
  enqueue : Z;               (* nd->enqueue *)
  queue_count : Z;           (* nd->queue_count *)
  nr_sorted : Z;             (* q->nr_sorted *)
  end_sector : Z;            (* q->end_sector *)
  last_merge : Z;            (* q->last_merge *)
  rq_hash : list (Z * Z)     (* the elevator hash: bucket and request, last added first *)
}.
Notation ioM := (cmd ioq).

Definition set_mem (m : lmem) (s : ioq) : ioq :=
  mk_ioq m (enqueue s) (queue_count s) (nr_sorted s) (end_sector s) (last_merge s) (rq_hash s).
Definition set_enqueue (e : Z) : ioM unit :=
  modify (λ s, mk_ioq (lists_mem s) e (queue_count s) (nr_sorted s) (end_sector s) (last_merge s) (rq_hash s)).
Definition add_count (d : Z) : ioM unit :=
  modify (λ s, mk_ioq (lists_mem s) (enqueue s) (s32 (queue_count s + d)) (nr_sorted s) (end_sector s)
                 (last_merge s) (rq_hash s)).
Definition on_lists {A} (c : cmd lmem A) : ioM A := zoom lists_mem set_mem c.

(** The queue and its requests. *)
Class IoEnv := {
  nd_queue : Z;              (* &nd->queue *)
  queue_head : Z;            (* &q->queue_head *)
  sector : Z → Z;            (* blk_rq_pos(list_entry(p, struct request, queuelist)) *)
  cmd_flags : Z → Z;
  position : Z → Z           (* the undeclared identifier, by loop cursor *)
}.

Section Scheduler.
Context `{IoEnv}.

Definition rq_data_dir (rq : Z) : Z := Z.land (cmd_flags rq) 1.

(** ** block/elevator.c *)

Definition elv_rqhash_del (rq : Z) : ioM unit :=
  modify (λ s, mk_ioq (lists_mem s) (enqueue s) (queue_count s) (nr_sorted s) (end_sector s)
                 (last_merge s) (filter (λ e, e.2 ≠ rq) (rq_hash s))).

(** Does the backward walk of [elv_dispatch_sort] stop at [pos]? *)
Definition sort_stops (boundary rq pos : Z) : bool :=
  if negb (Z.land (cmd_flags rq) REQ_DISCARD =? Z.land (cmd_flags pos) REQ_DISCARD) then true
  else if negb (rq_data_dir rq =? rq_data_dir pos) then true
  else if negb (Z.land (cmd_flags pos) (Z.lor REQ_SOFTBARRIER REQ_STARTED) =? 0) then true
  else if boundary <=? sector rq then
    if sector pos <? boundary then false else sector pos <=? sector rq
  else
    if boundary <=? sector pos then true else sector pos <=? sector rq.

Fixpoint sort_walk (fuel : nat) (boundary rq entry : Z) : ioM Z :=
  match fuel with
  | O => spin
  | S fuel =>
      if decide (entry = queue_head) then mret entry
      else if sort_stops boundary rq entry then mret entry
      else p ← on_lists (get_prev entry); sort_walk fuel boundary rq p
  end.

Definition elv_dispatch_sort (rq : Z) : ioM unit :=
  modify (λ s, mk_ioq (lists_mem s) (enqueue s) (queue_count s) (nr_sorted s) (end_sector s)
                 (if decide (last_merge s = rq) then 0 else last_merge s) (rq_hash s)) ;;
  elv_rqhash_del rq ;;
  modify (λ s, mk_ioq (lists_mem s) (enqueue s) (queue_count s) (u32 (nr_sorted s - 1)) (end_sector s)
                 (last_merge s) (rq_hash s)) ;;
  boundary ← gets end_sector;
  first ← on_lists (get_prev queue_head);
  fuel ← gets (λ s, S (size (lists_mem s)));
  entry ← sort_walk fuel boundary rq first;
  on_lists (list_add rq entry).

(** ** project2/sstf-iosched.c *)

(** [abs(x)] of an [unsigned long] difference, back in an [unsigned long]. *)
Definition kabs (x : Z) : Z := u32 (if s32 x <? 0 then s32 (- s32 x) else s32 x).

(** The neighbour of the current request that the scheduler moves to. *)
Definition sstf_closer (curr prev next : Z) : Z :=
  let diff_prev := kabs (u32 (u32 (sector curr) - u32 (sector prev))) in
  let diff_next := kabs (u32 (u32 (sector curr) - u32 (sector next))) in
  if diff_prev <? diff_next then prev else next.

Definition sstf_dispatch : ioM Z :=
  empty ← on_lists (list_empty nd_queue);
  if negb empty then
    rq ← gets enqueue;
    if rq =? 0 then mret 0
    else
      c ← gets queue_count;
      (if c =? 1 then
         on_lists (list_del_init rq) ;; add_count (-1)
       else
         prev ← on_lists (get_prev rq);
         next ← on_lists (get_next rq);
         set_enqueue (sstf_closer rq prev next) ;;
         on_lists (list_del_init rq) ;;
         add_count (-1)) ;;
      elv_dispatch_sort rq ;;
      mret 1
  else mret 0.

(** The loop of [sstf_add_request]; returns [added]. *)
Fixpoint sstf_add_loop (fuel : nat) (rq head : Z) : ioM bool :=
  match fuel with
  | O => spin
  | S fuel =>
      if decide (head = nd_queue) then mret false
      else
        next ← on_lists (get_next head);
        c ← gets queue_count;
        if c =? 1 then
          on_lists (list_add rq head) ;; add_count 1 ;; mret true
        else if (sector rq <=? sector next) && (sector head <=? sector rq) then
          on_lists (list_add rq (position head)) ;; add_count 1 ;; mret true
        else
          n ← on_lists (get_next head);
          sstf_add_loop fuel rq n
  end.

Definition sstf_add_request (rq : Z) : ioM unit :=
  empty ← on_lists (list_empty nd_queue);
  if empty : bool then
    on_lists (list_add rq nd_queue) ;;
    first ← on_lists (get_next nd_queue);
    set_enqueue first ;;
    add_count 1
  else
    first ← on_lists (get_next nd_queue);
    fuel ← gets (λ s, S (size (lists_mem s)));
    added ← sstf_add_loop fuel rq first;
    if negb added then on_lists (list_add_tail rq nd_queue) ;; add_count 1 else mret tt.

(** [sstf_init_queue] once [kmalloc_node] gave it the memory for [nd], and
    [sstf_exit_queue] up to [kfree]. *)
Definition sstf_init_queue : ioM unit :=
  on_lists (INIT_LIST_HEAD nd_queue) ;;
  modify (λ s, mk_ioq (lists_mem s) (enqueue s) 0 (nr_sorted s) (end_sector s) (last_merge s) (rq_hash s)).

Definition sstf_exit_queue : ioM unit :=
  empty ← on_lists (list_empty nd_queue);
  check empty.

Definition ELEVATOR_NO_MERGE : Z := 0.
Definition sstf_deny_merge (req : Z) (b : bio) : Z := ELEVATOR_NO_MERGE.

(** [elv_drain_elevator]: dispatch until the scheduler has nothing more. *)
Fixpoint elv_drain_elevator (fuel : nat) : ioM unit :=
  match fuel with
  | O => spin
  | S fuel =>
      r ← sstf_dispatch;
      if r =? 0 then mret tt else elv_drain_elevator fuel
  end.
End Scheduler.

(** ** Running list operations inside the queue *)

Lemma on_lists_ok {A} (c : cmd lmem A) s a m' :
  c (lists_mem s) = Ok (a, m') → on_lists c s = Ok (a, set_mem m' s).
Proof. intros E. unfold on_lists. by apply zoom_ok. Qed.

Lemma on_lists_read {A} (c : cmd lmem A) s a :
  c (lists_mem s) = Ok (a, lists_mem s) → on_lists c s = Ok (a, s).
Proof. intros E%on_lists_ok. rewrite E. by destruct s. Qed.

(** A list has fewer entries than memory has list heads. *)
Lemma dll_size m h l : dll m h l → (length l < size m)%nat.
Proof.
  intros Hd. pose proof Hd as [Hnd _].
  assert (list_to_set (h :: l) ⊆ dom m) as Hsub.
  { intros y. rewrite elem_of_list_to_set, elem_of_dom. by apply dll_mapped. }
  apply subseteq_size in Hsub. rewrite size_list_to_set, size_dom in Hsub by done. simpl in Hsub. lia.
Qed.

Lemma dll_prev_of m h l1 l2 pos :
  dll m h (l1 ++ l2) → pos = default h (head l2) → prv m pos = Some (default h (last l1)).
Proof. intros [_ [Hs _]%seg_split] ->. by apply seg_last in Hs. Qed.

Lemma dll_next_of m h l1 l2 pos :
  dll m h (l1 ++ l2) → pos = default h (last l1) → nxt m pos = Some (default h (head l2)).
Proof. intros [_ [_ Hs]%seg_split] ->. by apply seg_first in Hs. Qed.

Lemma dll_entry_ne m h l x : dll m h l → x ∈ l → x ≠ h.
Proof. intros [[Hh _]%NoDup_cons _] Hx ->. done. Qed.

Section Proofs.
Context `{IoEnv}.

(** ** [elv_dispatch_sort] *)

Lemma sort_walk_ok fuel : ∀ b rq s D1 D2,
  dll (lists_mem s) queue_head (D1 ++ D2) → (length D1 < fuel)%nat →
  (∀ y, y ∈ D2 → sort_stops b rq y = false) →
  ∃ d1 d2, d1 ++ d2 = D1 ++ D2 ∧
    sort_walk fuel b rq (default queue_head (last D1)) s = Ok (default queue_head (last d1), s) ∧
    (∀ y, y ∈ d2 → sort_stops b rq y = false) ∧ (∀ x, last d1 = Some x → sort_stops b rq x = true).
Proof.
  induction fuel as [|fuel IH]; intros b rq s D1 D2 Hd Hf Hn; [lia|]. simpl.
  destruct (last_cases D1) as [->|(D1' & x & ->)].
  { exists [], D2. simpl. by rewrite decide_True. }
  rewrite last_snoc. simpl. rewrite <- app_assoc in Hd.
  rewrite decide_False by (eapply dll_entry_ne; [done|set_solver]).
  destruct (sort_stops b rq x) eqn:Hst.
  - exists (D1' ++ [x]), D2. split_and!; try done; rewrite last_snoc; naive_solver.
  - erewrite bind_ok by (apply on_lists_read, get_prev_ok; by eapply dll_prev).
    destruct (IH b rq s D1' (x :: D2)) as (d1 & d2 & Hs & E & ? & ?); [done| |set_solver|].
    { rewrite length_app in Hf. simpl in Hf. lia. }
    exists d1, d2. rewrite <- app_assoc. done.
Qed.

(** The queue after [elv_dispatch_sort], with its lists in [m]. *)
Definition dispatched (rq : Z) (m : lmem) (s : ioq) : ioq :=
  mk_ioq m (enqueue s) (queue_count s) (u32 (nr_sorted s - 1)) (end_sector s)
    (if decide (last_merge s = rq) then 0 else last_merge s) (filter (λ e, e.2 ≠ rq) (rq_hash s)).

Lemma elv_dispatch_sort_ok rq s D :
  dll (lists_mem s) queue_head D → rq ∉ queue_head :: D → is_Some (lists_mem s !! rq) →
  ∃ m' d1 d2, elv_dispatch_sort rq s = Ok (tt, dispatched rq m' s) ∧ D = d1 ++ d2 ∧
    dll m' queue_head (d1 ++ rq :: d2) ∧
    (∀ y, y ∈ d2 → sort_stops (end_sector s) rq y = false) ∧
    (∀ x, last d1 = Some x → sort_stops (end_sector s) rq x = true) ∧
    (∀ y, y ∉ rq :: queue_head :: D → m' !! y = lists_mem s !! y).
Proof.
  intros Hd Hrq Hm. unfold elv_dispatch_sort, elv_rqhash_del. do 4 run_step.
  set (s1 := mk_ioq _ _ _ _ _ _ _). pose proof Hd as [_ Hs]. apply seg_last in Hs.
  erewrite bind_ok by (apply on_lists_read, get_prev_ok; exact Hs). run_step.
  destruct (sort_walk_ok (S (size (lists_mem s1))) (end_sector s) rq s1 D [])
    as (d1 & d2 & Hsplit & E & Hn & Hst); [by rewrite app_nil_r| |set_solver|].
  { pose proof (dll_size _ _ _ Hd). simpl. lia. }
  rewrite app_nil_r in Hsplit. subst D. rewrite (bind_ok _ _ _ _ _ E).
  destruct (list_add_dll (lists_mem s1) queue_head d1 d2 (default queue_head (last d1)) rq)
    as (m' & E' & Hd' & Hfr); try done.
  rewrite (on_lists_ok _ _ _ _ E'). exists m', d1, d2. split; [done|]. split_and!; done.
Qed.

(** The order in which the elevator serves requests of one kind: from
    [boundary] up, then around from the start of the disk. *)
Definition elv_le (b x y : Z) : Prop :=
  if decide (b ≤ sector x) then
    if decide (b ≤ sector y) then sector x ≤ sector y else True
  else if decide (b ≤ sector y) then False else sector x ≤ sector y.

(** [x] and [y] may be reordered. *)
Definition same_kind (x y : Z) : Prop :=
  Z.land (cmd_flags x) REQ_DISCARD = Z.land (cmd_flags y) REQ_DISCARD ∧
  rq_data_dir x = rq_data_dir y ∧
  Z.land (cmd_flags y) (Z.lor REQ_SOFTBARRIER REQ_STARTED) = 0.

Lemma sort_stops_le b rq y : same_kind rq y → sort_stops b rq y = true ↔ elv_le b y rq.
Proof.
  intros (E1 & E2 & E3). unfold sort_stops, elv_le. rewrite E1, E2, E3, !Z.eqb_refl. cbn [negb].
  repeat case_decide; destruct (Z.leb_spec b (sector rq)), (Z.ltb_spec (sector y) b),
    (Z.leb_spec b (sector y)); try lia; rewrite ?Z.leb_le; split; intros; done || lia.
Qed.

Lemma elv_le_total b x y : elv_le b x y ∨ elv_le b y x.
Proof. unfold elv_le. repeat case_decide; try lia; tauto. Qed.

#[local] Instance elv_le_trans b : Transitive (elv_le b).
Proof. intros x y z. unfold elv_le. repeat case_decide; try done; lia. Qed.

(** [elv_dispatch_sort] keeps the dispatch queue in elevator order: when
    the queued requests are of the same kind and sorted (from the boundary
    upwards, wrapping around), so is the queue with the new request, which
    contains exactly the old requests and the new one. *)
Theorem elv_dispatch_sort_sorted rq s D :
  dll (lists_mem s) queue_head D → rq ∉ queue_head :: D → is_Some (lists_mem s !! rq) →
  (∀ y, y ∈ D → same_kind rq y) → StronglySorted (elv_le (end_sector s)) D →
  ∃ s' D', elv_dispatch_sort rq s = Ok (tt, s') ∧ dll (lists_mem s') queue_head D' ∧
    D' ≡ₚ rq :: D ∧ StronglySorted (elv_le (end_sector s)) D'.
Proof.
  intros Hd Hrq Hm Hk Hs.
  destruct (elv_dispatch_sort_ok rq s D Hd Hrq Hm) as (m' & d1 & d2 & E & -> & Hd' & Hn & Hst & _).
  exists (dispatched rq m' s), (d1 ++ rq :: d2). split_and!; [done|done|solve_Permutation|].
  assert (∀ y, y ∈ d2 → elv_le (end_sector s) rq y) as Hd2.
  { intros y Hy. specialize (Hn y Hy). destruct (elv_le_total (end_sector s) rq y) as [|Hle]; [done|].
    apply (sort_stops_le _ rq y) in Hle; [congruence|apply Hk; set_solver]. }
  assert (∀ y, y ∈ d1 → elv_le (end_sector s) y rq) as Hd1.
  { intros y Hy. destruct (last_cases d1) as [->|(d & x & ->)]; [set_solver|].
    assert (elv_le (end_sector s) x rq) as Hx.
    { apply sort_stops_le; [apply Hk; set_solver|]. apply Hst, last_snoc. }
    apply elem_of_app in Hy as [Hy|Hy%list_elem_of_singleton]; [|by subst].
    apply StronglySorted_app_1_l in Hs. etrans; [|done].
    eapply StronglySorted_app_1_elem_of; [done|done|set_solver]. }
  apply StronglySorted_app in Hs as (Hc & Hs1 & Hs2). apply StronglySorted_app.
  split_and!; [|done|constructor; [done|by apply Forall_forall]].
  intros x y Hx [->|Hy]%elem_of_cons; [by apply Hd1|by apply Hc].
Qed.

(** ** The scheduler's invariant *)

(** Requests [l] wait in the scheduler, [D] in the dispatch queue. *)
Record queue_ok (s : ioq) (l D : list Z) : Prop := {
  q_list : dll (lists_mem s) nd_queue l;
  q_disp : dll (lists_mem s) queue_head D;
  q_apart y : y ∈ nd_queue :: l → y ∉ queue_head :: D;
  q_count : queue_count s = Z.of_nat (length l);
  q_small : Z.of_nat (length l) < 2 ^ 31;
  q_enq : l ≠ [] → enqueue s ∈ l;
  q_nz : 0 ∉ l
}.

(** A request that is in neither queue. *)
Definition fresh_rq (s : ioq) (l D : list Z) (rq : Z) : Prop :=
  rq ∉ nd_queue :: l ∧ rq ∉ queue_head :: D ∧ is_Some (lists_mem s !! rq) ∧ rq ≠ 0 ∧
  Z.of_nat (length l) + 1 < 2 ^ 31.

(** [rq] fits between the neighbours [x] and [y]. *)
Definition between (rq x y : Z) : Prop := sector x ≤ sector rq ≤ sector y.

(** The state after [rq] joined the list between [l1] and [l2]. *)
Lemma queue_insert s l1 l2 D rq m' e :
  queue_ok s (l1 ++ l2) D → fresh_rq s (l1 ++ l2) D rq →
  dll m' nd_queue (l1 ++ rq :: l2) →
  (∀ y, y ∉ rq :: nd_queue :: l1 ++ l2 → m' !! y = lists_mem s !! y) →
  e ∈ l1 ++ rq :: l2 →
  queue_ok (mk_ioq m' e (s32 (queue_count s + 1)) (nr_sorted s) (end_sector s) (last_merge s) (rq_hash s))
    (l1 ++ rq :: l2) D.
Proof.
  intros [] (Hf1 & Hf2 & Hm & Hnz & Hlen) Hd Hfr He.
  assert (length (l1 ++ rq :: l2) = S (length (l1 ++ l2))) as Hl by (rewrite !length_app; simpl; lia).
  split; simpl; try done.
  - eapply dll_ext; [done|]. intros y Hy. apply Hfr. intros [->|Hc]%elem_of_cons; [done|].
    by apply (q_apart0 y).
  - intros y Hy. apply elem_of_cons in Hy as [->|Hy]; [apply q_apart0; set_solver|].
    apply elem_of_app in Hy as [Hy|Hy]; [apply q_apart0; set_solver|].
    apply elem_of_cons in Hy as [->|Hy]; [done|apply q_apart0; set_solver].
  - rewrite q_count0, Hl, s32_id by lia. lia.
  - lia.
  - set_solver.
Qed.

(** What adding [rq] does not change. *)
Definition add_effect (rq : Z) (l : list Z) (s s' : ioq) : Prop :=
  (nr_sorted s', end_sector s', last_merge s', rq_hash s') = (nr_sorted s, end_sector s, last_merge s, rq_hash s) ∧
  ∀ y, y ∉ rq :: nd_queue :: l → lists_mem s' !! y = lists_mem s !! y.

(** No two neighbours of [l] enclose [rq]. *)
Definition none_between (rq : Z) (l : list Z) : Prop := ∀ k1 x y k2, l = k1 ++ x :: y :: k2 → ¬ between rq x y.

Lemma none_between_snoc rq l x y : none_between rq (l ++ [x]) → ¬ between rq x y → none_between rq ((l ++ [x]) ++ [y]).
Proof.
  intros Hno Hb k1 a b k2 Hk. destruct (last_cases k2) as [->|(k & w & ->)].
  - replace (k1 ++ [a; b]) with ((k1 ++ [a]) ++ [b]) in Hk by by rewrite <- app_assoc.
    apply app_inj_tail in Hk as [[_ ->]%app_inj_tail ->]. done.
  - replace (k1 ++ a :: b :: k ++ [w]) with ((k1 ++ a :: b :: k) ++ [w]) in Hk by by rewrite <- app_assoc.
    apply app_inj_tail in Hk as [Hk _]. by eapply Hno.
Qed.

(** With two requests or more the loop stops at the first request [x] such that
    [x] and what follows it enclose [rq], and there inserts behind [position]. *)
Lemma sstf_add_loop_finds fuel : ∀ rq s l1 l2 D,
  queue_ok s (l1 ++ l2) D → (2 ≤ length (l1 ++ l2))%nat → (length l2 < fuel)%nat →
  none_between rq (l1 ++ take 1 l2) →
  (∃ k1 x k2, l1 ++ l2 = k1 ++ x :: k2 ∧ between rq x (default nd_queue (head k2)) ∧ none_between rq (k1 ++ [x]) ∧
     sstf_add_loop fuel rq (default nd_queue (head l2)) s =
     (on_lists (list_add rq (position x)) ;; add_count 1 ;; mret true) s) ∨
  (sstf_add_loop fuel rq (default nd_queue (head l2)) s = Ok (false, s) ∧ none_between rq (l1 ++ l2)).
Proof.
  induction fuel as [|fuel IH]; intros rq s l1 l2 D Hq Hlen Hf Hno; [lia|]. cbn [sstf_add_loop].
  pose proof (q_list _ _ _ Hq) as Hd.
  destruct l2 as [|x l2];
    [change (default nd_queue (head [])) with nd_queue|
     change (default nd_queue (head (x :: l2))) with x; change (take 1 (x :: l2)) with [x] in Hno].
  { right. rewrite decide_True by done. split; [done|]. by rewrite app_nil_r in *. }
  rewrite decide_False by (eapply dll_entry_ne; [done|set_solver]).
  rewrite (bind_ok _ _ _ _ _ (on_lists_read _ _ _ (get_next_ok _ _ _ (dll_next _ _ _ _ _ Hd)))). run_step.
  rewrite (q_count _ _ _ Hq). destruct (Z.eqb_spec (Z.of_nat (length (l1 ++ x :: l2))) 1); [lia|].
  set (y := default nd_queue (head l2)).
  destruct ((sector rq <=? sector y) && (sector x <=? sector rq)) eqn:Hb.
  - left. apply andb_true_iff in Hb as [Hb1%Z.leb_le Hb2%Z.leb_le]. by exists l1, x, l2.
  - rewrite (bind_ok _ _ _ _ _ (on_lists_read _ _ _ (get_next_ok _ _ _ (dll_next _ _ _ _ _ Hd)))). fold y.
    rewrite app_snoc_cons in Hq, Hlen |- *.
    destruct (IH rq s (l1 ++ [x]) l2 D) as [?|?]; try done; [simpl in Hf; lia| |by left|by right].
    destruct l2 as [|z l2]; [by rewrite app_nil_r|]. apply none_between_snoc; [done|]. unfold between.
    apply andb_false_iff in Hb as [Hb%Z.leb_gt|Hb%Z.leb_gt]; unfold y in Hb; simpl in Hb; lia.
Qed.

(** The insertion behind an entry of the queue, or behind its head. *)
Lemma insert_behind rq s l1 l2 D pos :
  queue_ok s (l1 ++ l2) D → l1 ++ l2 ≠ [] → fresh_rq s (l1 ++ l2) D rq → pos = default nd_queue (last l1) →
  ∃ s', (on_lists (list_add rq pos) ;; add_count 1 ;; mret true) s = Ok (true, s') ∧
        queue_ok s' (l1 ++ rq :: l2) D ∧ add_effect rq (l1 ++ l2) s s'.
Proof.
  intros Hq Hne Hfr Hpos.
  destruct (list_add_dll (lists_mem s) nd_queue l1 l2 pos rq) as (m' & E & Hd' & Hfr');
    [apply Hq|done|apply Hfr|apply Hfr|].
  rewrite (bind_ok _ _ _ _ _ (on_lists_ok _ _ _ _ E)). eexists. split; [done|]. split; [|by split].
  apply (queue_insert s l1 l2); try done. assert (enqueue s ∈ l1 ++ l2) by by apply (q_enq _ _ _ Hq). set_solver.
Qed.

Lemma sstf_add_loop_one fuel rq s x D :
  queue_ok s [x] D → sstf_add_loop (S fuel) rq x s = (on_lists (list_add rq x) ;; add_count 1 ;; mret true) s.
Proof.
  intros Hq. pose proof (q_list _ _ _ Hq) as Hd. cbn [sstf_add_loop].
  rewrite decide_False by (eapply dll_entry_ne; [done|set_solver]).
  rewrite (bind_ok _ _ _ _ _ (on_lists_read _ _ _ (get_next_ok _ _ _ (dll_next _ _ [] _ [] Hd)))). run_step.
  by rewrite (q_count _ _ _ Hq).
Qed.

(** [sstf_add_request], by the branches of the code, with what it leaves alone. *)
Lemma sstf_add_cases rq s l D :
  queue_ok s l D → fresh_rq s l D rq →
  ((length l < 2)%nat ∨ none_between rq l) ∧
    (∃ s', sstf_add_request rq s = Ok (tt, s') ∧ queue_ok s' (l ++ [rq]) D ∧ add_effect rq l s s') ∨
  ∃ l1 x l2, (2 ≤ length l)%nat ∧ l = l1 ++ x :: l2 ∧
    between rq x (default nd_queue (head l2)) ∧ none_between rq (l1 ++ [x]) ∧
    ∀ k1 k2, l = k1 ++ k2 → position x = default nd_queue (last k1) →
      ∃ s', sstf_add_request rq s = Ok (tt, s') ∧ queue_ok s' (k1 ++ rq :: k2) D ∧ add_effect rq l s s'.
Proof.
  intros Hq Hfr. pose proof (q_list _ _ _ Hq) as Hd. pose proof Hd as [_ Hseg].
  unfold sstf_add_request. rewrite (bind_ok _ _ _ _ _ (on_lists_read _ _ _ (list_empty_dll _ _ _ Hd))).
  destruct l as [|x l].
  { left. split; [left; simpl; lia|]. rewrite bool_decide_eq_true_2 by done.
    destruct (list_add_dll (lists_mem s) nd_queue [] [] nd_queue rq) as (m' & E & Hd' & Hfr');
      [done|done|apply Hfr|apply Hfr|].
    rewrite (bind_ok _ _ _ _ _ (on_lists_ok _ _ _ _ E)).
    assert (nxt m' nd_queue = Some rq) as Hn by (destruct Hd' as [_ Hs]; by apply seg_first in Hs).
    rewrite (bind_ok _ _ _ _ _ (on_lists_read _ (set_mem m' s) _ (get_next_ok _ _ _ Hn))).
    eexists. split; [done|]. split; [|by split]. apply (queue_insert s [] []); try done. set_solver. }
  rewrite bool_decide_eq_false_2 by done.
  rewrite (bind_ok _ _ _ _ _ (on_lists_read _ _ _ (get_next_ok _ _ _ (seg_first _ _ _ _ Hseg)))). run_step.
  destruct l as [|z l].
  { left. split; [left; simpl; lia|]. change (default nd_queue (head [x])) with x.
    destruct (insert_behind rq s [x] [] D x) as (s' & E & Hq' & He); [done..|].
    rewrite <- (sstf_add_loop_one (size (lists_mem s)) rq s x D Hq) in E.
    rewrite (bind_ok _ _ _ _ _ E). by exists s'. }
  destruct (sstf_add_loop_finds (S (size (lists_mem s))) rq s [] (x :: z :: l) D)
    as [(k1 & y & k2 & Hl & Hb & Hno & E)|[E Hno]]; try done; [simpl; lia| | | |].
  { pose proof (dll_size _ _ _ Hd). lia. }
  { intros k1 a b k2 Hk. by destruct k1 as [|? [|]]. }
  - right. exists k1, y, k2. split_and!; [simpl; lia|done..|]. intros j1 j2 Hj Hpos. rewrite Hj in Hq, Hfr |- *.
    destruct (insert_behind rq s j1 j2 D (position y)) as (s' & E' & Hq' & He);
      [done|rewrite <- Hj; done|done..|]. rewrite Hj in E. rewrite <- E in E'.
    rewrite (bind_ok _ _ _ _ _ E'). by exists s'.
  - left. split; [by right|]. rewrite (bind_ok _ _ _ _ _ E). cbn [negb].
    rewrite <- (app_nil_r (x :: z :: l)) in Hd, Hq, Hfr.
    destruct (list_add_tail_dll (lists_mem s) nd_queue (x :: z :: l) [] nd_queue rq)
      as (m' & E' & Hd' & Hfr'); [done|done|apply Hfr|apply Hfr|].
    rewrite (bind_ok _ _ _ _ _ (on_lists_ok _ _ _ _ E')). rewrite app_nil_r in Hfr'.
    eexists. split; [done|]. split; [|by split]. apply (queue_insert s (x :: z :: l) []); try done.
    { by rewrite app_nil_r. }
    assert (enqueue s ∈ (x :: z :: l) ++ []) by by apply (q_enq _ _ _ Hq). set_solver.
Qed.

(** With [position] read as the loop cursor. *)
Lemma sstf_add_step rq s l D :
  queue_ok s l D → fresh_rq s l D rq → (∀ x, x ∈ l → position x = x) →
  ∃ s' l1 l2, sstf_add_request rq s = Ok (tt, s') ∧ l = l1 ++ l2 ∧ queue_ok s' (l1 ++ rq :: l2) D ∧ add_effect rq l s s'.
Proof.
  intros Hq Hfr Hpos. destruct (sstf_add_cases rq s l D Hq Hfr)
    as [[_ (s' & E & Hq' & He)]|(l1 & x & l2 & _ & Hl & _ & _ & Hins)].
  - exists s', l, []. by rewrite app_nil_r.
  - destruct (Hins (l1 ++ [x]) l2) as (s' & E & Hq' & He).
    + by rewrite Hl, <- app_assoc.
    + rewrite last_snoc. apply Hpos. rewrite Hl. set_solver.
    + exists s', (l1 ++ [x]), l2. split_and!; try done. by rewrite Hl, <- app_assoc.
Qed.

(** C25: [sstf_add_request] puts the request into the scheduler's queue exactly
    once, keeps the others in order, counts it and keeps the invariant.  With
    fewer than two requests waiting, or when no two neighbours enclose its
    sector, it goes to the end.  Otherwise the loop stops at the first request
    [x] such that [x] and what follows it enclose the sector, and inserts behind
    [position], an identifier the file does not declare: whatever entry of the
    queue (or its head) that stands for, the request goes right behind it; if it
    stands for the loop cursor [x], that is between the two. *)
Theorem sstf_add_request_ok rq s l D :
  queue_ok s l D → fresh_rq s l D rq →
  ((length l < 2)%nat ∨ none_between rq l) ∧
    (∃ s', sstf_add_request rq s = Ok (tt, s') ∧ queue_ok s' (l ++ [rq]) D) ∨
  ∃ l1 x l2, (2 ≤ length l)%nat ∧ l = l1 ++ x :: l2 ∧
    between rq x (default nd_queue (head l2)) ∧ none_between rq (l1 ++ [x]) ∧
    ∀ k1 k2, l = k1 ++ k2 → position x = default nd_queue (last k1) →
      ∃ s', sstf_add_request rq s = Ok (tt, s') ∧ queue_ok s' (k1 ++ rq :: k2) D.
Proof.
  intros Hq Hfr. destruct (sstf_add_cases rq s l D Hq Hfr)
    as [[Hc (s' & E & Hq' & _)]|(l1 & x & l2 & ? & ? & ? & ? & Hins)]; [left|right].
  - split; [done|by exists s'].
  - exists l1, x, l2. split_and!; try done. intros k1 k2 Hk Hpos.
    destruct (Hins k1 k2 Hk Hpos) as (s' & ? & ? & _). by exists s'.
Qed.

(** Where the scheduler looks after dispatching [e] from [l1 ++ e :: l2]. *)
Definition next_enqueue (e : Z) (l1 l2 : list Z) : Z :=
  if decide (l1 ++ l2 = []) then e
  else sstf_closer e (default nd_queue (last l1)) (default nd_queue (head l2)).

(** Sectors below 2^31 have their distance computed right. *)
Lemma kabs_dist a b :
  0 ≤ a < 2 ^ 31 → 0 ≤ b < 2 ^ 31 → kabs (u32 (u32 a - u32 b)) = Z.abs (a - b).
Proof.
  intros Ha Hb. rewrite (u32_id a), (u32_id b) by lia. unfold kabs.
  assert (s32 (u32 (a - b)) = a - b) as ->.
  { unfold s32, u32, wrap_s, wrap_u. change (2 ^ (32 - 1)) with (2 ^ 31).
    rewrite Zplus_mod_idemp_l, Z.mod_small by lia. lia. }
  destruct (Z.ltb_spec (a - b) 0); rewrite ?(s32_id (- (a - b))), u32_id by lia; lia.
Qed.

(** The two neighbours of the current request. *)
Definition neighbours (l1 l2 : list Z) : list Z :=
  [default nd_queue (last l1); default nd_queue (head l2)].

Lemma next_enqueue_nearest e l1 l2 :
  l1 ++ l2 ≠ [] → (∀ x, x ∈ e :: neighbours l1 l2 → 0 ≤ sector x < 2 ^ 31) →
  next_enqueue e l1 l2 ∈ neighbours l1 l2 ∧
  ∀ x, x ∈ neighbours l1 l2 →
    Z.abs (sector e - sector (next_enqueue e l1 l2)) ≤ Z.abs (sector e - sector x).
Proof.
  intros Hne Hs. unfold next_enqueue, sstf_closer, neighbours in *. rewrite decide_False by done.
  rewrite !kabs_dist by (apply Hs; set_solver).
  set (p := default nd_queue (last l1)) in *. set (n := default nd_queue (head l2)) in *.
  destruct (Z.ltb_spec (Z.abs (sector e - sector p)) (Z.abs (sector e - sector n))); split.
  all: try set_solver. all: intros x [->|[->|[]%not_elem_of_nil]%elem_of_cons]%elem_of_cons; lia.
Qed.

(** The removal of the current request. *)
Lemma sstf_remove_ok s l1 e l2 D :
  queue_ok s (l1 ++ e :: l2) D → enqueue s = e →
  ∃ m', (if queue_count s =? 1 then on_lists (list_del_init e) ;; add_count (-1)
         else
           prev ← on_lists (get_prev e);
           next ← on_lists (get_next e);
           set_enqueue (sstf_closer e prev next) ;;
           on_lists (list_del_init e) ;;
           add_count (-1)) s =
        Ok (tt, mk_ioq m' (next_enqueue e l1 l2) (Z.of_nat (length (l1 ++ l2))) (nr_sorted s)
                  (end_sector s) (last_merge s) (rq_hash s)) ∧
        dll m' nd_queue (l1 ++ l2) ∧ dll m' queue_head D ∧ is_Some (m' !! e) ∧
        ∀ y, y ∉ nd_queue :: l1 ++ e :: l2 → m' !! y = lists_mem s !! y.
Proof.
  intros Hq <-. pose proof (q_list _ _ _ Hq) as Hd. set (e := enqueue s) in *.
  assert (length (l1 ++ e :: l2) = S (length (l1 ++ l2))) as Hlen by (rewrite !length_app; simpl; lia).
  pose proof (q_small _ _ _ Hq). rewrite (q_count _ _ _ Hq), Hlen.
  destruct (list_del_init_dll _ _ _ _ _ Hd) as (m' & E & Hd' & He & Hfr).
  exists m'. split; [|split_and!; [done| |eapply dll_mapped; [done|set_solver]|intros y Hy; apply Hfr; set_solver]].
  2: { eapply dll_ext; [apply Hq|]. intros y Hy. apply Hfr. intros Hc.
       apply (q_apart _ _ _ Hq y); [|done]. set_solver. }
  unfold next_enqueue. destruct (Z.eqb_spec (Z.of_nat (S (length (l1 ++ l2)))) 1) as [H1|H1].
  - rewrite (bind_ok _ _ _ _ _ (on_lists_ok _ _ _ _ E)). unfold add_count, modify, set_mem. simpl.
    rewrite decide_True by (apply nil_length_inv; lia). rewrite (q_count _ _ _ Hq), Hlen.
    do 3 f_equal. rewrite s32_id by lia. lia.
  - rewrite (bind_ok _ _ _ _ _ (on_lists_read _ _ _ (get_prev_ok _ _ _ (dll_prev _ _ _ _ _ Hd)))).
    rewrite (bind_ok _ _ _ _ _ (on_lists_read _ _ _ (get_next_ok _ _ _ (dll_next _ _ _ _ _ Hd)))).
    unfold set_enqueue. run_step.
    erewrite bind_ok by (apply on_lists_ok; exact E). unfold add_count, modify, set_mem. simpl.
    rewrite decide_False by (intros Hn; rewrite Hn in H1; simpl in H1; lia).
    rewrite (q_count _ _ _ Hq), Hlen. do 3 f_equal. rewrite s32_id by lia. lia.
Qed.

(** What a dispatch of [e] does to the fields that the elevator owns. *)
Definition dispatch_effect (e : Z) (s s' : ioq) : Prop :=
  nr_sorted s' = u32 (nr_sorted s - 1) ∧ end_sector s' = end_sector s ∧
  last_merge s' = (if decide (last_merge s = e) then 0 else last_merge s) ∧
  rq_hash s' = filter (λ x, x.2 ≠ e) (rq_hash s).

(** One dispatch from a queue with its current request in it. *)
Lemma dispatch_step s l1 e l2 D :
  queue_ok s (l1 ++ e :: l2) D → enqueue s = e →
  ∃ s' d1 d2, sstf_dispatch s = Ok (1, s') ∧ D = d1 ++ d2 ∧
    dll (lists_mem s') nd_queue (l1 ++ l2) ∧ dll (lists_mem s') queue_head (d1 ++ e :: d2) ∧
    enqueue s' = next_enqueue e l1 l2 ∧ queue_count s' = Z.of_nat (length (l1 ++ l2)) ∧ dispatch_effect e s s' ∧
    (∀ y, y ∉ nd_queue :: l1 ++ e :: l2 → y ∉ queue_head :: D → lists_mem s' !! y = lists_mem s !! y) ∧
    (l1 ++ l2 ≠ [] → (∀ x, x ∈ e :: neighbours l1 l2 → 0 ≤ sector x < 2 ^ 31) →
     enqueue s' ∈ neighbours l1 l2 ∧
     ∀ x, x ∈ neighbours l1 l2 → Z.abs (sector e - sector (enqueue s')) ≤ Z.abs (sector e - sector x)) ∧
    ((l1 ++ l2 ≠ [] → enqueue s' ∈ l1 ++ l2) → queue_ok s' (l1 ++ l2) (d1 ++ e :: d2)).
Proof.
  intros Hq He. pose proof (q_list _ _ _ Hq) as Hd. unfold sstf_dispatch.
  rewrite (bind_ok _ _ _ _ _ (on_lists_read _ _ _ (list_empty_dll _ _ _ Hd))).
  rewrite bool_decide_eq_false_2 by (by destruct l1). cbn [negb]. run_step. rewrite He.
  destruct (Z.eqb_spec e 0) as [->|_]; [by destruct (q_nz _ _ _ Hq); set_solver|]. run_step.
  destruct (sstf_remove_ok s l1 e l2 D Hq He) as (m1 & E & Hd' & HD' & Hm & Hfr1).
  rewrite (bind_ok _ _ _ _ _ E).
  pose proof (q_apart _ _ _ Hq e ltac:(set_solver)) as HeD.
  match type of E with _ = Ok (tt, ?s1) =>
    destruct (elv_dispatch_sort_ok e s1 D HD' HeD Hm)
      as (m' & d1 & d2 & E' & HD & HD2 & _ & _ & Hfr)
  end.
  rewrite (bind_ok _ _ _ _ _ E'). eexists _, d1, d2. split; [reflexivity|]. unfold dispatched.
  cbn [lists_mem enqueue queue_count nr_sorted] in *.
  assert (dll m' nd_queue (l1 ++ l2)) as Hd2.
  { eapply dll_ext; [exact Hd'|]. intros y Hy. apply Hfr. destruct Hd as [Hnd _].
    rewrite app_comm_cons in Hnd. apply nodup_middle in Hnd as [[? ?] _].
    pose proof (q_apart _ _ _ Hq y ltac:(set_solver)). set_solver. }
  split_and!; try done; [|apply next_enqueue_nearest|].
  { intros y H1 H2. rewrite Hfr, Hfr1 by set_solver. done. }
  intros Henq. split; try done.
  - intros y Hy. pose proof (q_apart _ _ _ Hq y ltac:(set_solver)). subst D.
    destruct Hd as [Hnd _]. rewrite app_comm_cons in Hnd. apply nodup_middle in Hnd as [[? ?] _]. set_solver.
  - pose proof (q_small _ _ _ Hq) as Hsm. rewrite length_app in Hsm |- *. simpl in Hsm. lia.
  - pose proof (q_nz _ _ _ Hq). set_solver.
Qed.

Lemma dispatch_empty s D : queue_ok s [] D → sstf_dispatch s = Ok (0, s).
Proof.
  intros Hq. unfold sstf_dispatch.
  by rewrite (bind_ok _ _ _ _ _ (on_lists_read _ _ _ (list_empty_dll _ _ _ (q_list _ _ _ Hq)))).
Qed.

Lemma next_enqueue_neighbour e l1 l2 :
  l1 ++ l2 ≠ [] → next_enqueue e l1 l2 ≠ nd_queue → next_enqueue e l1 l2 ∈ l1 ++ l2.
Proof.
  intros Hne. unfold next_enqueue, sstf_closer. rewrite decide_False by done.
  destruct (_ <? _); intros Hh; apply elem_of_app.
  - left. by destruct (last_elem_or l1 nd_queue).
  - right. by destruct (head_elem_or l2 nd_queue).
Qed.

(** C9: [sstf_dispatch] returns 0 and changes nothing when no request waits;
    otherwise it takes exactly its current request out of the scheduler and
    into the dispatch queue, the others staying in order, and moves to the
    neighbour that [sstf_closer] computes from the state before, which for sectors
    below 2^31 is one at the smaller seek distance.  The invariant is kept exactly
    when no request is left or that neighbour is a request and not the list
    head, which the code does not tell from a request. *)
Theorem sstf_dispatch_ok s l D :
  queue_ok s l D →
  (l = [] ∧ sstf_dispatch s = Ok (0, s)) ∨
  ∃ l1 e l2 s' d1 d2, l = l1 ++ e :: l2 ∧ enqueue s = e ∧ sstf_dispatch s = Ok (1, s') ∧ D = d1 ++ d2 ∧
    dll (lists_mem s') nd_queue (l1 ++ l2) ∧ dll (lists_mem s') queue_head (d1 ++ e :: d2) ∧
    (l1 ++ l2 ≠ [] → enqueue s' = sstf_closer e (default nd_queue (last l1)) (default nd_queue (head l2))) ∧
    (l1 ++ l2 ≠ [] → (∀ x, x ∈ e :: neighbours l1 l2 → 0 ≤ sector x < 2 ^ 31) →
     enqueue s' ∈ neighbours l1 l2 ∧
     ∀ x, x ∈ neighbours l1 l2 → Z.abs (sector e - sector (enqueue s')) ≤ Z.abs (sector e - sector x)) ∧
    (queue_ok s' (l1 ++ l2) (d1 ++ e :: d2) ↔
     (l1 ++ l2 ≠ [] → sstf_closer e (default nd_queue (last l1)) (default nd_queue (head l2)) ≠ nd_queue)).
Proof.
  intros Hq. destruct l as [|x l]; [left; split; [done|by eapply dispatch_empty]|right].
  assert (enqueue s ∈ x :: l) as (l1 & l2 & Hl)%list_elem_of_split by by apply (q_enq _ _ _ Hq).
  rewrite Hl in Hq. destruct (dispatch_step s l1 (enqueue s) l2 D Hq eq_refl)
    as (s' & d1 & d2 & E & HD & Hd & Hd' & Henq & _ & _ & _ & Hnear & Hok).
  assert (l1 ++ l2 ≠ [] → next_enqueue (enqueue s) l1 l2 =
    sstf_closer (enqueue s) (default nd_queue (last l1)) (default nd_queue (head l2))) as Hcl.
  { intros Hne. unfold next_enqueue. by rewrite decide_False. }
  exists l1, (enqueue s), l2, s', d1, d2. split_and!; try done.
  { intros Hne. by rewrite Henq, Hcl. }
  split.
  - intros Hq' Hne Hh. rewrite <- Hcl, <- Henq in Hh by done.
    pose proof (q_enq _ _ _ Hq' Hne) as Hin. rewrite Hh in Hin. by apply (dll_entry_ne _ _ _ _ Hd Hin).
  - intros Hh. apply Hok. intros Hne. rewrite Henq. apply next_enqueue_neighbour; [done|]. rewrite Hcl by done. auto.
Qed.



(** ** Draining the scheduler *)

(** The memory read through the list head lies farther from every request
    than the requests lie from each other. *)
Definition far_head (l : list Z) : Prop :=
  ∀ x y, x ∈ l → y ∈ l →
    kabs (u32 (u32 (sector x) - u32 (sector y))) < kabs (u32 (u32 (sector x) - u32 (sector nd_queue))).

Lemma far_next e l1 l2 :
  far_head (l1 ++ e :: l2) → l1 ++ l2 ≠ [] → next_enqueue e l1 l2 ∈ l1 ++ l2.
Proof.
  intros Hfar Hne. unfold next_enqueue, sstf_closer. rewrite decide_False by done.
  destruct (last_cases l1) as [->|(k & p & ->)]; [|rewrite last_snoc]; (destruct l2 as [|n l2]); simpl in *.
  - done.
  - pose proof (Hfar e n ltac:(set_solver) ltac:(set_solver)).
    destruct (Z.ltb_spec (kabs (u32 (u32 (sector e) - u32 (sector nd_queue))))
      (kabs (u32 (u32 (sector e) - u32 (sector n))))); [lia|set_solver].
  - pose proof (Hfar e p ltac:(set_solver) ltac:(set_solver)).
    destruct (Z.ltb_spec (kabs (u32 (u32 (sector e) - u32 (sector p))))
      (kabs (u32 (u32 (sector e) - u32 (sector nd_queue))))); [set_solver|lia].
  - destruct (_ <? _); set_solver.
Qed.

(** Draining the scheduler dispatches every waiting request exactly once,
    provided the head is never taken for a near request ([far_head]): after
    one dispatch per request the queue is empty and the dispatch queue holds
    exactly the requests of both. *)
Theorem sstf_drains s l D :
  queue_ok s l D → far_head l →
  ∃ s' D', elv_drain_elevator (S (length l)) s = Ok (tt, s') ∧ queue_ok s' [] D' ∧ D' ≡ₚ l ++ D.
Proof.
  remember (length l) as n eqn:Hn. revert s l D Hn.
  induction n as [|n IH]; intros s l D Hn Hq Hfar.
  { symmetry in Hn. apply nil_length_inv in Hn as ->. exists s, D. cbn [elv_drain_elevator].
    by rewrite (bind_ok _ _ _ _ _ (dispatch_empty _ _ Hq)). }
  assert (enqueue s ∈ l) as (l1 & l2 & Hl)%list_elem_of_split.
  { apply (q_enq _ _ _ Hq). by destruct l. }
  subst l. destruct (dispatch_step s l1 (enqueue s) l2 D Hq eq_refl)
    as (s1 & d1 & d2 & E & -> & _ & _ & Henq & _ & _ & _ & _ & Hok).
  destruct (IH s1 (l1 ++ l2) (d1 ++ enqueue s :: d2)) as (s' & D' & E' & Hq' & Hp).
  { rewrite length_app in Hn |- *. simpl in Hn. lia. }
  { apply Hok. intros Hne. rewrite Henq. by apply far_next. }
  { intros x y Hx Hy. apply Hfar; set_solver. }
  exists s', D'. cbn [elv_drain_elevator]. rewrite (bind_ok _ _ _ _ _ E).
  change (1 =? 0) with false. cbn iota. split_and!; [done|done|]. rewrite Hp. solve_Permutation.
Qed.
End Proofs.

(** ** A small disk *)

(** Two queues at 10 and 20; the sector of a request is its address, and [g] is
    what lies where the head's sector would be. *)
Definition small_disk (g : Z) : IoEnv := {|
  nd_queue := 10; queue_head := 20;
  sector := λ p, if p =? 10 then g else p;
  cmd_flags := λ _, 0;
  position := λ x, x |}.

(** Requests 100 and 200 wait, 100 is current, 300 is unused. *)
Definition busy_disk : ioq :=
  mk_ioq {[ 10 := mk_list_head 100 200; 20 := mk_list_head 20 20; 100 := mk_list_head 200 10;
            200 := mk_list_head 10 100; 300 := mk_list_head 300 300 ]} 100 2 0 0 0 [].

Lemma busy_disk_ok g : @queue_ok (small_disk g) busy_disk [100; 200] [].
Proof.
  split; try done.
  - split; [by apply (bool_decide_unpack (NoDup _))|done].
  - split; [by apply (bool_decide_unpack (NoDup _))|done].
  - intros y Hy. apply not_elem_of_cons. split; [|set_solver]. intros ->. simpl in Hy. set_solver.
  - set_solver.
  - set_solver.
Qed.


Lemma sstf_add_request_ok_witness :
  ∃ s', @sstf_add_request (small_disk 0) 300 busy_disk = Ok (tt, s') ∧
    @queue_ok (small_disk 0) s' ([100; 200] ++ [300]) [].
Proof.
  destruct (@sstf_add_request_ok (small_disk 0) 300 busy_disk [100; 200] [] (busy_disk_ok 0))
    as [[_ (s' & E & Hq)]|(l1 & x & l2 & _ & Hl & [_ Hb] & _)].
  - split_and!; [set_solver|set_solver|by eexists|done|done].
  - exists s'. split; [exact E|exact Hq].
  - exfalso. destruct l1 as [|? [|? [|]]]; try discriminate Hl; injection Hl; intros; subst; simpl in Hb; lia.
Defined.

Lemma sstf_dispatch_ok_witness :
  ∃ s', @sstf_dispatch (small_disk 0) busy_disk = Ok (1, s') ∧ enqueue s' ∈ [10; 200].
Proof.
  destruct (@sstf_dispatch_ok (small_disk 0) busy_disk [100; 200] [] (busy_disk_ok 0))
    as [[? _]|(l1 & e & l2 & s' & d1 & d2 & Hl & He & E & _ & _ & _ & _ & Hn & _)]; [discriminate|].
  exists s'. split; [exact E|]. change (enqueue busy_disk) with 100 in He. subst e.
  destruct l1 as [|? [|? [|? l1]]]; try discriminate Hl. injection Hl as <-.
  apply Hn; [done|]. intros x Hx. simpl. destruct (x =? 10) eqn:?; [lia|].
  repeat (apply elem_of_cons in Hx as [->|Hx]; [simpl; lia|]). set_solver.
Defined.

Lemma sstf_drains_witness :
  ∃ s' D', @elv_drain_elevator (small_disk 100000) 3 busy_disk = Ok (tt, s') ∧ D' ≡ₚ [100; 200].
Proof.
  destruct (@sstf_drains (small_disk 100000) busy_disk [100; 200] [] (busy_disk_ok 100000))
    as (s' & D' & E & _ & HD).
  - intros x y Hx Hy. apply elem_of_cons in Hx as [->|Hx%list_elem_of_singleton];
      apply elem_of_cons in Hy as [->|Hy%list_elem_of_singleton]; subst; reflexivity.
  - exists s', D'. split; [exact E|exact HD].
Defined.

Lemma elv_dispatch_sort_sorted_witness :
  ∃ s' D', @elv_dispatch_sort (small_disk 0) 300 busy_disk = Ok (tt, s') ∧
           @dll (lists_mem s') 20 D' ∧ D' ≡ₚ [300].
Proof.
  destruct (@elv_dispatch_sort_sorted (small_disk 0) 300 busy_disk [])
    as (s' & D' & E & Hd & HD & _).
  - apply (busy_disk_ok 0).
  - set_solver.
  - by eexists.
  - set_solver.
  - constructor.
  - exists s', D'. split; [exact E|]. split; [exact Hd|exact HD].
Defined.
