(* ===== verification/Osurd.v ===== *)
(** * The encrypted RAM disk, data path (project3/osurd.c, crypto/cipher.c)

    Memory areas are lists of bytes.  The block cipher behind the crypto API is
    an interface, [Cipher], with the law the driver relies on in [CipherOk];
    [setkey] is the generic wrapper of crypto/cipher.c.  The theorems show that
    a read returns what was written (through the cipher), that transfers stay
    inside the device and do not disturb other sectors, what the segments of a
    bio amount to, and which request loops come to an end. *)

From S2P Require Import Prelude.

Notation bytes := (list Z).

(** ** The cipher *)

Class Cipher := {
  cipher_ctx : Type;
  blocksize : Z;
  min_keysize : Z;
  max_keysize : Z;
  (* [cia_setkey]: [None] for an error, which leaves the context alone *)
  cia_setkey : cipher_ctx → bytes → option cipher_ctx;
  cia_encrypt : cipher_ctx → bytes → bytes;
  cia_decrypt : cipher_ctx → bytes → bytes;
  (* is the key at an address the algorithm cannot use directly, and does the
     kmalloc of its aligned copy succeed? *)
  key_unaligned : bool;
  key_copy_ok : bool
}.

Class CipherOk `{Cipher} := {
  blocksize_pos : 0 < blocksize;
  blocksize_sector : 512 mod blocksize = 0;
  encrypt_length c b : Z.of_nat (length b) = blocksize → length (cia_encrypt c b) = length b;
  decrypt_encrypt c b : Z.of_nat (length b) = blocksize → cia_decrypt c (cia_encrypt c b) = b;
  decrypt_length c b : Z.of_nat (length b) = blocksize → length (cia_decrypt c b) = length b;
  setkey_again c k c' : cia_setkey c k = Some c' → cia_setkey c' k = Some c'
}.

Definition EINVAL : Z := 22.
Definition ENOMEM : Z := 12.
Definition EIO : Z := 5.
Definition EBUSY : Z := 16.
Definition CRYPTO_TFM_RES_MASK : Z := 0xfff00000.
Definition CRYPTO_TFM_RES_BAD_KEY_LEN : Z := 0x00200000.

Record tfm `{Cipher} := mk_tfm { t_ctx : cipher_ctx; crt_flags : Z }.

Section Crypto.
Context `{Cipher}.

Definition setkey_unaligned (t : tfm) (key : bytes) : Z * tfm :=
  if key_copy_ok then
    match cia_setkey (t_ctx t) key with
    | Some c => (0, mk_tfm _ c (crt_flags t))
    | None => (- EINVAL, t)
    end
  else (- ENOMEM, t).

Definition setkey (t : tfm) (key : bytes) (keylen : Z) : Z * tfm :=
  let t := mk_tfm _ (t_ctx t) (Z.land (crt_flags t) (Z.lnot CRYPTO_TFM_RES_MASK)) in
  if (keylen <? min_keysize) || (max_keysize <? keylen) then
    (- EINVAL, mk_tfm _ (t_ctx t) (Z.lor (crt_flags t) CRYPTO_TFM_RES_BAD_KEY_LEN))
  else if key_unaligned then setkey_unaligned t (take (Z.to_nat keylen) key)
  else
    match cia_setkey (t_ctx t) (take (Z.to_nat keylen) key) with
    | Some c => (0, mk_tfm _ c (crt_flags t))
    | None => (- EINVAL, t)
    end.
End Crypto.

(** ** The device *)

Definition KERNEL_SECTOR_SIZE : Z := 512.
Definition hardsect_size : Z := 512.
(** The key "1234567890" and its length. *)
Definition osurd_key : bytes := [49; 50; 51; 52; 53; 54; 55; 56; 57; 48].
Definition keylen : Z := 10.

(** [struct osurd_dev], the fields of the data path: the size and the array
    (absent when vmalloc failed). *)
Record osurd_dev := mk_dev { dev_size : Z; dev_data : option bytes }.

(** The [n] bytes at offset [o], if they are there. *)
Definition read_at (l : bytes) (o n : Z) : option bytes :=
  if (0 <=? o) && (o + n <=? Z.of_nat (length l))
  then Some (take (Z.to_nat n) (drop (Z.to_nat o) l)) else None.
(** The bytes after writing [b] at offset [o]. *)
Definition write_at (l : bytes) (o : Z) (b : bytes) : option bytes :=
  if (0 <=? o) && (o + Z.of_nat (length b) <=? Z.of_nat (length l))
  then Some (take (Z.to_nat o) l ++ b ++ drop (Z.to_nat o + length b) l) else None.

Section Driver.
Context `{Cipher}.

(** The state a transfer works on: the cipher handle, the device and the
    buffer of the caller. *)
Record xfer := mk_xfer { x_tfm : tfm; x_dev : osurd_dev; x_buf : bytes }.

(** [for (i = 0; i < nbytes; i += blocksize) crypt_one(tfm, dst + i, src + i)] *)
Fixpoint crypt_loop (fuel : nat) (f : bytes → bytes) (dst src : bytes) (dst_off src_off i nbytes : Z)
    : outcome bytes :=
  match fuel with
  | O => Spin
  | S fuel =>
      if i <? nbytes then
        match read_at src (src_off + i) blocksize with
        | Some b =>
            match write_at dst (dst_off + i) (f b) with
            | Some dst => crypt_loop fuel f dst src dst_off src_off (i + blocksize) nbytes
            | None => Fault
            end
        | None => Fault
        end
      else Ok dst
  end.

Definition crypt_fuel (nbytes : Z) : nat := S (Z.to_nat nbytes).

Definition osurd_transfer (sector nsect : Z) (write : bool) (x : xfer) : outcome xfer :=
  let offset := u32 (sector * KERNEL_SECTOR_SIZE) in
  let nbytes := u32 (nsect * KERNEL_SECTOR_SIZE) in
  let '(_, t) := setkey (x_tfm x) osurd_key keylen in
  let dev := x_dev x in
  if u32 (dev_size dev) <? u32 (offset + nbytes) then Ok (mk_xfer t dev (x_buf x))
  else
    match dev_data dev with
    | None => Fault
    | Some data =>
        if write then
          match crypt_loop (crypt_fuel nbytes) (cia_encrypt (t_ctx t)) data (x_buf x) offset 0 0 nbytes with
          | Ok data => Ok (mk_xfer t (mk_dev (dev_size dev) (Some data)) (x_buf x))
          | Fault => Fault | Spin => Spin
          end
        else
          match crypt_loop (crypt_fuel nbytes) (cia_decrypt (t_ctx t)) (x_buf x) data 0 offset 0 nbytes with
          | Ok buf => Ok (mk_xfer t dev buf)
          | Fault => Fault | Spin => Spin
          end
    end.
End Driver.

(** ** Byte areas *)

(** Byte [p] of an area, by its [Z] offset. *)
Definition byte (l : bytes) (p : Z) : option Z := if 0 <=? p then l !! Z.to_nat p else None.

Lemma read_at_some l o n b :
  0 ≤ n → read_at l o n = Some b ↔
  0 ≤ o ∧ o + n ≤ Z.of_nat (length l) ∧ Z.of_nat (length b) = n ∧
  ∀ t, 0 ≤ t < n → byte b t = byte l (o + t).
Proof.
  intros Hn. unfold read_at. destruct (Z.leb_spec 0 o); simpl; [|split; [done|lia]].
  destruct (Z.leb_spec (o + n) (Z.of_nat (length l))); [|split; [done|lia]].
  assert (length (take (Z.to_nat n) (drop (Z.to_nat o) l)) = Z.to_nat n) as Hlen.
  { rewrite length_take, length_drop. lia. }
  assert (∀ t, 0 ≤ t < n → byte (take (Z.to_nat n) (drop (Z.to_nat o) l)) t = byte l (o + t)) as Hbyte.
  { intros t Ht. unfold byte. destruct (Z.leb_spec 0 t), (Z.leb_spec 0 (o + t)); try lia.
    rewrite lookup_take_lt, lookup_drop by lia. f_equal. lia. }
  split.
  - intros [= <-]. split_and!; [done|done|lia|done].
  - intros (_ & _ & Hb & Ht). f_equal. apply list_eq. intros i.
    destruct (decide (i < Z.to_nat n)%nat) as [Hi|Hi].
    + specialize (Ht (Z.of_nat i) ltac:(lia)). specialize (Hbyte (Z.of_nat i) ltac:(lia)).
      unfold byte in Ht, Hbyte. destruct (Z.leb_spec 0 (Z.of_nat i)); [|lia].
      rewrite !Nat2Z.id in *. congruence.
    + rewrite !lookup_ge_None_2; [done|lia..].
Qed.

Lemma write_at_some l o b :
  0 ≤ o → o + Z.of_nat (length b) ≤ Z.of_nat (length l) →
  ∃ l', write_at l o b = Some l' ∧ length l' = length l ∧
        (∀ t, 0 ≤ t < Z.of_nat (length b) → byte l' (o + t) = byte b t) ∧
        (∀ p, ¬ (o ≤ p < o + Z.of_nat (length b)) → byte l' p = byte l p).
Proof.
  intros Ho Hl. unfold write_at. destruct (Z.leb_spec 0 o); [|lia].
  destruct (Z.leb_spec (o + Z.of_nat (length b)) (Z.of_nat (length l))); [|lia]. simpl.
  eexists. split; [done|]. split_and!.
  - rewrite !length_app, length_take, length_drop. lia.
  - intros t Ht. unfold byte. destruct (Z.leb_spec 0 t), (Z.leb_spec 0 (o + t)); try lia.
    rewrite lookup_app_r, length_take by (rewrite length_take; lia).
    rewrite lookup_app_l by lia. f_equal. lia.
  - intros p Hp. unfold byte. destruct (Z.leb_spec 0 p); [|done].
    destruct (decide (p < o)).
    + rewrite lookup_app_l by (rewrite length_take; lia). apply lookup_take_lt. lia.
    + rewrite lookup_app_r, length_take by (rewrite length_take; lia).
      rewrite lookup_app_r by lia. rewrite lookup_drop. f_equal. lia.
Qed.

Section DataPath.
Context `{CipherOk}.

(** What the block loop does, from block [m] on of [k] blocks. *)
Lemma crypt_loop_ok f src so do k fuel : ∀ dst m,
  (∀ b, Z.of_nat (length b) = blocksize → Z.of_nat (length (f b)) = blocksize) →
  0 ≤ so → so + k * blocksize ≤ Z.of_nat (length src) →
  0 ≤ do → do + k * blocksize ≤ Z.of_nat (length dst) →
  0 ≤ m ≤ k → (Z.to_nat (k - m) < fuel)%nat →
  ∃ dst', crypt_loop fuel f dst src do so (m * blocksize) (k * blocksize) = Ok dst' ∧
    length dst' = length dst ∧
    (∀ p, ¬ (do + m * blocksize ≤ p < do + k * blocksize) → byte dst' p = byte dst p) ∧
    (∀ j b, m ≤ j < k → read_at src (so + j * blocksize) blocksize = Some b →
            read_at dst' (do + j * blocksize) blocksize = Some (f b)).
Proof.
  pose proof blocksize_pos as Hbs.
  induction fuel as [|fuel IH]; intros dst m Hf Hso Hsrc Hdo Hdst Hm Hfuel; [lia|]. simpl.
  destruct (Z.ltb_spec (m * blocksize) (k * blocksize)) as [Hlt|Hge].
  2: { exists dst. assert (m = k) by nia. split_and!; try done. lia. }
  assert (m < k) as Hmk by nia.
  assert (m * blocksize + blocksize ≤ k * blocksize) as Hroom by nia.
  destruct (read_at src (so + m * blocksize) blocksize) as [b|] eqn:Eb.
  2: { exfalso. unfold read_at in Eb. destruct (Z.leb_spec 0 (so + m * blocksize)); [|nia].
       destruct (Z.leb_spec (so + m * blocksize + blocksize) (Z.of_nat (length src))); [done|lia]. }
  apply read_at_some in Eb as (? & ? & Hlb & Hb); [|lia].
  destruct (write_at_some dst (do + m * blocksize) (f b)) as (dst1 & -> & Hl1 & Hin & Hout); [nia|rewrite Hf by done; lia|].
  rewrite (Hf b Hlb) in Hin, Hout.
  replace (m * blocksize + blocksize) with ((m + 1) * blocksize) by lia.
  destruct (IH dst1 (m + 1)) as (dst' & E & Hl & Hout' & Hblk); try done; try lia.
  exists dst'. split_and!; [done|lia| |].
  - intros p Hp. rewrite Hout' by lia. apply Hout. lia.
  - intros j b' Hj Hb'. destruct (decide (j = m)) as [->|]; [|apply Hblk; [lia|done]].
    assert (b' = b) as ->.
    { apply read_at_some in Hb' as (_ & _ & Hl' & Ht'); [|lia].
      apply list_eq. intros i. destruct (decide (Z.of_nat i < blocksize)).
      - specialize (Hb (Z.of_nat i) ltac:(lia)). specialize (Ht' (Z.of_nat i) ltac:(lia)).
        rewrite <- Hb in Ht'. unfold byte in Ht'. destruct (Z.leb_spec 0 (Z.of_nat i)); [|lia].
        by rewrite Nat2Z.id in Ht'.
      - rewrite !lookup_ge_None_2; [done|lia..]. }
    apply read_at_some; [lia|]. split_and!; [nia|lia|by apply Hf|].
    intros t Ht. rewrite Hout' by nia. symmetry. apply Hin. lia.
Qed.

(** The handle after the driver's [crypto_cipher_setkey]. *)
Definition keyed (t : tfm) : tfm := (setkey t osurd_key keylen).2.

Lemma keyed_again t : t_ctx (keyed (keyed t)) = t_ctx (keyed t).
Proof.
  unfold keyed, setkey, setkey_unaligned. cbn [fst snd t_ctx].
  destruct (_ || _); [done|]. destruct key_unaligned; [destruct key_copy_ok; [|done]|];
    (destruct (cia_setkey (t_ctx t) _) as [c|] eqn:E; cbn [fst snd t_ctx];
     [by rewrite (setkey_again _ _ _ E)|by rewrite E]).
Qed.

(** A device with its memory, and a range of sectors inside it. *)
Definition dev_ok (d : osurd_dev) (data : bytes) : Prop :=
  dev_data d = Some data ∧ dev_size d = Z.of_nat (length data) ∧ dev_size d < 2 ^ 31.
Definition in_range (d : osurd_dev) (sector nsect : Z) : Prop :=
  0 ≤ sector ∧ 0 ≤ nsect ∧ (sector + nsect) * 512 ≤ dev_size d.

(** Cipher blocks in [nsect] sectors. *)
Definition nblocks (nsect : Z) : Z := nsect * (512 / blocksize).

Lemma nblocks_bytes nsect : nblocks nsect * blocksize = nsect * 512.
Proof.
  unfold nblocks. pose proof blocksize_pos. assert (blocksize ≠ 0) as Hb0 by lia.
  pose proof (proj2 (Z.div_exact 512 blocksize Hb0) blocksize_sector) as Hd.
  rewrite <- Z.mul_assoc. f_equal. rewrite Z.mul_comm. by symmetry.
Qed.

Lemma nblocks_nonneg nsect : 0 ≤ nsect → 0 ≤ nblocks nsect ≤ nsect * 512.
Proof.
  intros. unfold nblocks. pose proof blocksize_pos.
  assert (0 ≤ 512 / blocksize) by (apply Z.div_pos; lia).
  assert (512 / blocksize ≤ 512) by (apply Z.div_le_upper_bound; nia). nia.
Qed.

Lemma transfer_write x sector nsect data :
  dev_ok (x_dev x) data → in_range (x_dev x) sector nsect → nsect * 512 ≤ Z.of_nat (length (x_buf x)) →
  ∃ data', osurd_transfer sector nsect true x =
             Ok (mk_xfer (keyed (x_tfm x)) (mk_dev (dev_size (x_dev x)) (Some data')) (x_buf x)) ∧
    length data' = length data ∧
    (∀ p, ¬ (sector * 512 ≤ p < (sector + nsect) * 512) → byte data' p = byte data p) ∧
    (∀ j b, 0 ≤ j < nblocks nsect → read_at (x_buf x) (j * blocksize) blocksize = Some b →
       read_at data' (sector * 512 + j * blocksize) blocksize =
         Some (cia_encrypt (t_ctx (keyed (x_tfm x))) b)).
Proof.
  intros (Hd & Hsz & Hmax) (Hs & Hn & Hr) Hbuf. unfold osurd_transfer, KERNEL_SECTOR_SIZE.
  rewrite (surjective_pairing (setkey (x_tfm x) osurd_key keylen)). fold (keyed (x_tfm x)).
  rewrite (u32_id (sector * 512)), (u32_id (nsect * 512)) by lia.
  rewrite (u32_id (dev_size (x_dev x))), (u32_id (sector * 512 + nsect * 512)) by lia.
  destruct (Z.ltb_spec (dev_size (x_dev x)) (sector * 512 + nsect * 512)); [lia|].
  rewrite Hd. pose proof (nblocks_bytes nsect) as Hb. pose proof (nblocks_nonneg nsect Hn).
  destruct (crypt_loop_ok (cia_encrypt (t_ctx (keyed (x_tfm x)))) (x_buf x) 0 (sector * 512)
    (nblocks nsect) (crypt_fuel (nsect * 512)) data 0) as (data' & E & Hl & Hout & Hblk); try lia.
  { intros b Hlb. by rewrite encrypt_length. }
  { unfold crypt_fuel. lia. }
  rewrite Z.mul_0_l, Hb in E. rewrite E. exists data'. split_and!; [done|done| |].
  - intros p Hp. apply Hout. lia.
  - intros j b Hj Hrd. apply Hblk; [done|]. by rewrite Z.add_0_l.
Qed.

Lemma transfer_read x sector nsect data :
  dev_ok (x_dev x) data → in_range (x_dev x) sector nsect → nsect * 512 ≤ Z.of_nat (length (x_buf x)) →
  ∃ buf', osurd_transfer sector nsect false x = Ok (mk_xfer (keyed (x_tfm x)) (x_dev x) buf') ∧
    length buf' = length (x_buf x) ∧
    (∀ p, ¬ (0 ≤ p < nsect * 512) → byte buf' p = byte (x_buf x) p) ∧
    (∀ j b, 0 ≤ j < nblocks nsect → read_at data (sector * 512 + j * blocksize) blocksize = Some b →
       read_at buf' (j * blocksize) blocksize = Some (cia_decrypt (t_ctx (keyed (x_tfm x))) b)).
Proof.
  intros (Hd & Hsz & Hmax) (Hs & Hn & Hr) Hbuf. unfold osurd_transfer, KERNEL_SECTOR_SIZE.
  rewrite (surjective_pairing (setkey (x_tfm x) osurd_key keylen)). fold (keyed (x_tfm x)).
  rewrite (u32_id (sector * 512)), (u32_id (nsect * 512)) by lia.
  rewrite (u32_id (dev_size (x_dev x))), (u32_id (sector * 512 + nsect * 512)) by lia.
  destruct (Z.ltb_spec (dev_size (x_dev x)) (sector * 512 + nsect * 512)); [lia|].
  rewrite Hd. pose proof (nblocks_bytes nsect) as Hb. pose proof (nblocks_nonneg nsect Hn).
  destruct (crypt_loop_ok (cia_decrypt (t_ctx (keyed (x_tfm x)))) data (sector * 512) 0
    (nblocks nsect) (crypt_fuel (nsect * 512)) (x_buf x) 0) as (buf' & E & Hl & Hout & Hblk); try lia.
  { intros b Hlb. by rewrite decrypt_length. }
  { unfold crypt_fuel. lia. }
  rewrite Z.mul_0_l, Hb in E. rewrite E. exists buf'. split_and!; [done|done| |].
  - intros p Hp. apply Hout. lia.
  - intros j b Hj Hrd. rewrite <- (Z.add_0_l (j * blocksize)). apply Hblk; [done|]. done.
Qed.

(** Areas that agree block by block agree byte by byte. *)
Lemma blocks_bytes l l' k :
  0 ≤ k → k * blocksize ≤ Z.of_nat (length l) →
  (∀ j b, 0 ≤ j < k → read_at l (j * blocksize) blocksize = Some b →
          read_at l' (j * blocksize) blocksize = Some b) →
  ∀ p, 0 ≤ p < k * blocksize → byte l' p = byte l p.
Proof.
  intros Hk Hl Hb p Hp. pose proof blocksize_pos as Hbs. assert (blocksize ≠ 0) as Hb0 by lia.
  pose proof (Z.div_mod p blocksize Hb0) as Hdm. pose proof (Z.mod_pos_bound p blocksize Hbs) as Hm.
  set (j := p / blocksize) in *. assert (0 ≤ j < k) as Hj by nia.
  destruct (read_at l (j * blocksize) blocksize) as [b|] eqn:E.
  2: { exfalso. unfold read_at in E. destruct (Z.leb_spec 0 (j * blocksize)); [|nia].
       destruct (Z.leb_spec (j * blocksize + blocksize) (Z.of_nat (length l))); [done|nia]. }
  pose proof (Hb j b Hj E) as E'.
  apply read_at_some in E as (_ & _ & _ & H1), E' as (_ & _ & _ & H2); [|lia..].
  specialize (H1 _ Hm). specialize (H2 _ Hm).
  replace p with (j * blocksize + p mod blocksize) by lia. congruence.
Qed.

(** C11: reading sectors back gives the bytes that were written to them: a
    write of [nsect] sectors from a buffer followed by a read of the same
    sectors into any buffer makes the two buffers agree there, touches
    nothing else of the second buffer, and leaves all other sectors of the
    device as they were. *)
Theorem osurd_read_after_write x sector nsect data buf2 :
  dev_ok (x_dev x) data → in_range (x_dev x) sector nsect →
  nsect * 512 ≤ Z.of_nat (length (x_buf x)) → nsect * 512 ≤ Z.of_nat (length buf2) →
  ∃ x1 x2 data', osurd_transfer sector nsect true x = Ok x1 ∧
    osurd_transfer sector nsect false (mk_xfer (x_tfm x1) (x_dev x1) buf2) = Ok x2 ∧
    (∀ p, 0 ≤ p < nsect * 512 → byte (x_buf x2) p = byte (x_buf x) p) ∧
    (∀ p, ¬ (0 ≤ p < nsect * 512) → byte (x_buf x2) p = byte buf2 p) ∧
    dev_ok (x_dev x2) data' ∧
    (∀ p, ¬ (sector * 512 ≤ p < (sector + nsect) * 512) → byte data' p = byte data p).
Proof.
  intros Hd Hr Hb Hb2. destruct (transfer_write x sector nsect data Hd Hr Hb) as (data' & E & Hl & Hout & Hblk).
  set (x1 := mk_xfer _ _ _) in E.
  assert (dev_ok (x_dev x1) data') as Hd1.
  { destruct Hd as (_ & Hsz & Hmax). split_and!; [done|simpl; congruence|done]. }
  destruct (transfer_read (mk_xfer (x_tfm x1) (x_dev x1) buf2) sector nsect data' Hd1 Hr Hb2)
    as (buf' & E2 & Hl2 & Hout2 & Hblk2).
  eexists x1, _, data'. split_and!; [done|exact E2| |done|done|done]. cbn [x_buf].
  destruct Hr as (_ & Hn & _). pose proof (nblocks_bytes nsect) as Hnb. pose proof (nblocks_nonneg nsect Hn).
  rewrite <- Hnb. apply blocks_bytes; [lia|lia|]. intros j b Hj Hrd.
  rewrite (Hblk2 j _ Hj (Hblk j b Hj Hrd)). cbn [x_tfm x1]. rewrite keyed_again, decrypt_encrypt; [done|].
  apply read_at_some in Hrd; [tauto|]. pose proof blocksize_pos. lia.
Qed.

(** What a transfer of sectors inside the device does: a write changes the bytes
    of these sectors, to the encrypted blocks of the buffer, and nothing else; a
    read changes the start of the buffer, to the decrypted blocks of the sectors,
    and nothing else. *)
Definition carried_out (sector nsect : Z) (w : bool) (data : bytes) (x x' : xfer) : Prop :=
  let ctx := t_ctx (keyed (x_tfm x)) in
  if w then
    ∃ data', x' = mk_xfer (keyed (x_tfm x)) (mk_dev (dev_size (x_dev x)) (Some data')) (x_buf x) ∧
      length data' = length data ∧
      (∀ p, ¬ (sector * 512 ≤ p < (sector + nsect) * 512) → byte data' p = byte data p) ∧
      (∀ j b, 0 ≤ j < nblocks nsect → read_at (x_buf x) (j * blocksize) blocksize = Some b →
         read_at data' (sector * 512 + j * blocksize) blocksize = Some (cia_encrypt ctx b))
  else
    ∃ buf', x' = mk_xfer (keyed (x_tfm x)) (x_dev x) buf' ∧ length buf' = length (x_buf x) ∧
      (∀ p, ¬ (0 ≤ p < nsect * 512) → byte buf' p = byte (x_buf x) p) ∧
      (∀ j b, 0 ≤ j < nblocks nsect → read_at data (sector * 512 + j * blocksize) blocksize = Some b →
         read_at buf' (j * blocksize) blocksize = Some (cia_decrypt ctx b)).

(** The loop faults on its first block when that is past the end of the device. *)
Lemma crypt_loop_past f dst src do so fuel n :
  (∀ b, Z.of_nat (length b) = blocksize → Z.of_nat (length (f b)) = blocksize) →
  0 < n → Z.of_nat (length src) ≤ so ∨ Z.of_nat (length dst) ≤ do → crypt_loop (S fuel) f dst src do so 0 n = Fault.
Proof.
  intros Hf Hn Hpast. pose proof blocksize_pos as Hbs. simpl. rewrite (proj2 (Z.ltb_lt 0 n)), !Z.add_0_r by done.
  destruct (read_at src so blocksize) as [b|] eqn:Eb; [|done].
  apply read_at_some in Eb as (_ & ? & Hlb & _); [|lia]. destruct Hpast as [?|?]; [lia|]. unfold write_at.
  destruct (Z.leb_spec (do + Z.of_nat (length (f b))) (Z.of_nat (length dst))); [|by rewrite andb_false_r].
  rewrite Hf in *; [lia|done].
Qed.

(** C37: below 4 GiB the check against the size of the device is exact: a transfer
    of sectors that lie inside the device is carried out, and one that reaches
    past its end, by however little, changes neither the device nor the buffer.
    The check is done in 32 bits, so it is not exact beyond: a sector number 2^23
    further up is taken for the same place, and a transfer that starts past the
    end of the device and ends past 4 GiB, where the sum wraps to a small number,
    passes the check and faults on memory behind the device. *)
Theorem osurd_transfer_bounds x sector nsect w data :
  dev_ok (x_dev x) data → 0 ≤ sector → 0 ≤ nsect → nsect * 512 ≤ Z.of_nat (length (x_buf x)) →
  ((sector + nsect) * 512 ≤ dev_size (x_dev x) →
   ∃ x', osurd_transfer sector nsect w x = Ok x' ∧ carried_out sector nsect w data x x') ∧
  (dev_size (x_dev x) < (sector + nsect) * 512 < 2 ^ 32 →
   osurd_transfer sector nsect w x = Ok (mk_xfer (keyed (x_tfm x)) (x_dev x) (x_buf x))) ∧
  osurd_transfer (sector + 2 ^ 23) nsect w x = osurd_transfer sector nsect w x ∧
  (dev_size (x_dev x) ≤ sector * 512 < 2 ^ 32 → 0 < nsect * 512 < 2 ^ 32 →
   2 ^ 32 ≤ (sector + nsect) * 512 ≤ 2 ^ 32 + dev_size (x_dev x) →
   osurd_transfer sector nsect w x = Fault).
Proof.
  intros Hdev Hs Hn Hbuf. pose proof Hdev as (Hd & Hsz & Hmax).
  pose proof (surjective_pairing (setkey (x_tfm x) osurd_key keylen)) as Ek. fold (keyed (x_tfm x)) in Ek. split_and!.
  - intros Hr. unfold carried_out. destruct w.
    + destruct (transfer_write x sector nsect data Hdev) as (data' & E & ?); [by split_and!|done|]. eauto.
    + destruct (transfer_read x sector nsect data Hdev) as (buf' & E & ?); [by split_and!|done|]. eauto.
  - intros Hlt. unfold osurd_transfer, KERNEL_SECTOR_SIZE. rewrite Ek, !u32_id by (rewrite ?u32_id; lia).
    by rewrite (proj2 (Z.ltb_lt _ _)) by lia.
  - unfold osurd_transfer, KERNEL_SECTOR_SIZE.
    assert (u32 ((sector + 2 ^ 23) * 512) = u32 (sector * 512)) as ->; [|done].
    unfold u32, wrap_u. replace ((sector + 2 ^ 23) * 512) with (sector * 512 + 1 * 2 ^ 32) by lia.
    by rewrite Z_mod_plus_full.
  - intros Hstart Hbytes Hend. unfold osurd_transfer, KERNEL_SECTOR_SIZE.
    rewrite Ek, (u32_id (sector * 512)), (u32_id (nsect * 512)), (u32_id (dev_size _)) by lia.
    assert (u32 (sector * 512 + nsect * 512) = (sector + nsect) * 512 - 2 ^ 32) as ->.
    { unfold u32, wrap_u. replace (sector * 512 + nsect * 512) with ((sector + nsect) * 512 - 2 ^ 32 + 1 * 2 ^ 32) by lia.
      rewrite Z_mod_plus_full, Z.mod_small; lia. }
    rewrite (proj2 (Z.ltb_ge _ _)), Hd by lia. unfold crypt_fuel. destruct w; rewrite crypt_loop_past; try done; try lia.
    + intros b Hb. by rewrite encrypt_length.
    + intros b Hb. by rewrite decrypt_length.
Qed.

(** With a cipher whose keys are longer than ten bytes (AES takes 16 or
    more) the key is never installed: [setkey] fails, the driver ignores the
    error, and every transfer runs with the context the handle came with. *)
Theorem osurd_never_keyed x x' sector nsect w :
  keylen < min_keysize → osurd_transfer sector nsect w x = Ok x' →
  (setkey (x_tfm x) osurd_key keylen).1 = - EINVAL ∧ t_ctx (x_tfm x') = t_ctx (x_tfm x).
Proof.
  intros Hmin. assert (setkey (x_tfm x) osurd_key keylen = (- EINVAL, keyed (x_tfm x)) ∧
    t_ctx (keyed (x_tfm x)) = t_ctx (x_tfm x)) as [Ek Hc].
  { unfold keyed, setkey. apply Z.ltb_lt in Hmin as ->. done. }
  unfold osurd_transfer. rewrite Ek. intros E. split; [done|].
  destruct (_ <? _); [by injection E as <-|]. destruct (dev_data (x_dev x)); [|done].
  destruct w; (destruct (crypt_loop _ _ _ _ _ _ _ _); [by injection E as <-|done..]).
Qed.
End DataPath.

(** ** A concrete cipher *)

(** XOR with the first byte of the key, on blocks of 16 bytes; [kmin] is the
    shortest key it takes. *)
Definition xor_cipher (kmin : Z) : Cipher := {|
  cipher_ctx := Z; blocksize := 16; min_keysize := kmin; max_keysize := 32;
  cia_setkey _ k := Some (default 0 (head k));
  cia_encrypt c b := map (Z.lxor c) b;
  cia_decrypt c b := map (Z.lxor c) b;
  key_unaligned := false; key_copy_ok := true
|}.

#[export] Instance xor_cipher_ok kmin : @CipherOk (xor_cipher kmin).
Proof.
  split; simpl; [done|done| | | |].
  - intros c b _. apply length_map.
  - intros c b _. rewrite map_map. rewrite <- (map_id b) at 2. apply map_ext. intros a.
    by rewrite <- Z.lxor_assoc, Z.lxor_nilpotent, Z.lxor_0_l.
  - intros c b _. apply length_map.
  - done.
Qed.

Definition sample_dev : osurd_dev := mk_dev 1024 (Some (replicate 1024 0)).
Definition sample_xfer (kmin : Z) : @xfer (xor_cipher kmin) :=
  @mk_xfer (xor_cipher kmin) (@mk_tfm (xor_cipher kmin) 0 0) sample_dev (replicate 512 7).

Lemma osurd_read_after_write_witness :
  ∃ x1 x2, @osurd_transfer (xor_cipher 5) 1 1 true (sample_xfer 5) = Ok x1 ∧
    @osurd_transfer (xor_cipher 5) 1 1 false
      (@mk_xfer (xor_cipher 5) (x_tfm x1) (x_dev x1) (replicate 512 0)) = Ok x2 ∧
    byte (x_buf x2) 511 = Some 7.
Proof.
  destruct (@osurd_read_after_write (xor_cipher 5) _ (sample_xfer 5) 1 1 (replicate 1024 0) (replicate 512 0))
    as (x1 & x2 & d & H1 & H2 & H3 & _).
  - split_and!; vm_compute; done.
  - split_and!; vm_compute; done.
  - vm_compute; done.
  - vm_compute; done.
  - exists x1, x2. split_and!; [done..|]. rewrite H3 by lia. vm_compute. done.
Defined.

Lemma osurd_transfer_bounds_witness :
  (∃ x', @osurd_transfer (xor_cipher 5) 1 1 true (sample_xfer 5) = Ok x') ∧
  @osurd_transfer (xor_cipher 5) 2 1 true (sample_xfer 5) =
    Ok (@mk_xfer (xor_cipher 5) (keyed (@mk_tfm (xor_cipher 5) 0 0)) sample_dev (replicate 512 7)) ∧
  @osurd_transfer (xor_cipher 5) (2 ^ 23 - 1) 1 true (sample_xfer 5) = Fault.
Proof.
  assert (@dev_ok (x_dev (sample_xfer 5)) (replicate 1024 0)) as Hd by (split_and!; vm_compute; done).
  destruct (@osurd_transfer_bounds (xor_cipher 5) _ (sample_xfer 5) 1 1 true _ Hd) as (H1 & _); [lia|lia|vm_compute; done|].
  destruct (@osurd_transfer_bounds (xor_cipher 5) _ (sample_xfer 5) 2 1 true _ Hd) as (_ & H2 & _); [lia|lia|vm_compute; done|].
  destruct (@osurd_transfer_bounds (xor_cipher 5) _ (sample_xfer 5) (2 ^ 23 - 1) 1 true _ Hd) as (_ & _ & _ & H3); [lia|lia|vm_compute; done|].
  split; [|split].
  - destruct H1 as (x' & E & _); [simpl; lia|]. exists x'. exact E.
  - apply H2. simpl. lia.
  - apply H3; simpl; lia.
Defined.

Lemma osurd_never_keyed_witness :
  (@setkey (xor_cipher 16) (x_tfm (sample_xfer 16)) osurd_key keylen).1 = - EINVAL ∧
  ∃ x', @osurd_transfer (xor_cipher 16) 0 1 true (sample_xfer 16) = Ok x' ∧ t_ctx (x_tfm x') = 0.
Proof.
  destruct (@osurd_transfer (xor_cipher 16) 0 1 true (sample_xfer 16)) as [x'| |] eqn:E;
    [|vm_compute in E; done..].
  destruct (@osurd_never_keyed (xor_cipher 16) (sample_xfer 16) x' 0 1 true ltac:(vm_compute; done) E) as [H1 H2].
  split; [exact H1|]. exists x'. split; [done|exact H2].
Defined.
