(* ===== verification/BlkRequest.v ===== *)
(** * Requests, bios and their completion (block/blk-core.c)

    A request carries a chain of bios, each a vector of memory segments with
    an index of the first segment still to do.  [blk_update_request] completes
    some bytes of a request: it ends the bios that are done and moves the
    current bio on, possibly into the middle of a segment.  The main theorem
    shows that the bytes still to do are exactly the ones left after dropping
    the completed ones, and that the bios ended are exactly the ones done. *)

From S2P Require Import Prelude BlkTypes.

(** A bio handed back to its owner, with the error it is told. *)
Definition completion : Type := Z * Z.

(** ** Completion *)

Definition EIO_err : Z := -5.

Definition bio_endio (b : bio) (error : Z) : completion :=
  (bi_private b, if error =? 0 then (if bi_uptodate b then 0 else EIO_err) else error).

(** [req_bio_endio]: account [nbytes] of a bio, and end it when none are left. *)
Definition req_bio_endio (flush_seq : bool) (b : bio) (nbytes error : Z) : bio * list completion :=
  let up := bi_uptodate b && (error =? 0) in
  let error := if error =? 0 then (if bi_uptodate b then 0 else EIO_err) else error in
  let nbytes := if bi_size b <? nbytes then bi_size b else nbytes in
  let b := mk_bio (u64 (bi_sector b + Z.shiftr nbytes 9)) (bi_size b - nbytes) (bi_idx b)
             (bi_io_vec b) (bi_rw b) up (bi_private b) (bi_disk b) (bi_seg b) in
  (b, if (bi_size b =? 0) && negb flush_seq then [bio_endio b error] else []).

(** What the loop of [blk_update_request] leaves behind. *)
Record upd := mk_upd {
  u_bios : list bio; u_total : Z; u_bio_nbytes : Z; u_next_idx : nat; u_nr : Z;
  u_ended : list completion
}.

Fixpoint update_loop (fuel : nat) (flush_seq : bool) (error : Z) (u : upd) : outcome upd :=
  match fuel with
  | O => Spin
  | S fuel =>
      match u_bios u with
      | [] => Ok u
      | b :: rest =>
          if bi_size b <=? u_nr u then
            let nbytes := bi_size b in
            let u' := mk_upd rest (u_total u + nbytes) 0 0 (u_nr u - nbytes)
                        (u_ended u ++ (req_bio_endio flush_seq b nbytes error).2) in
            match rest with
            | [] => Ok u'
            | _ :: _ => if u_nr u' <=? 0 then Ok u' else update_loop fuel flush_seq error u'
            end
          else
            match bi_io_vec b !! (bi_idx b + u_next_idx u)%nat with
            | None => Ok u
            | Some v =>
                let nbytes := bv_len v in
                if bi_size b <? nbytes then Fault
                else if u_nr u <? nbytes then
                  Ok (mk_upd (b :: rest) (u_total u + u_nr u) (u_bio_nbytes u + u_nr u) (u_next_idx u)
                        (u_nr u) (u_ended u))
                else
                  let u' := mk_upd (b :: rest) (u_total u + nbytes) (u_bio_nbytes u + nbytes)
                              (S (u_next_idx u)) (u_nr u - nbytes) (u_ended u) in
                  if u_nr u' <=? 0 then Ok u' else update_loop fuel flush_seq error u'
            end
      end
  end.

(** The bytes of a segment from its [n]-th on. *)
Definition bvec_shift (n : Z) (v : bio_vec) : bio_vec :=
  mk_bvec (bv_page v) (bv_len v - n) (bv_offset v + n).

(** [bio->bi_idx += next_idx; bio_iovec(bio)->bv_offset += nr_bytes; ...] *)
Definition bio_advance (next_idx : nat) (nr : Z) (b : bio) : bio :=
  let idx := (bi_idx b + next_idx)%nat in
  mk_bio (bi_sector b) (bi_size b) idx (alter (bvec_shift nr) idx (bi_io_vec b)) (bi_rw b)
    (bi_uptodate b) (bi_private b) (bi_disk b) (bi_seg b).

Definition update_fuel (r : request) : nat :=
  S (length (rq_bio r) + sum_list (bi_vcnt <$> rq_bio r)).

(** Mixed attributes always follow the first bio. *)
Definition mixed_flags (rw flags : Z) : Z :=
  if flagged flags REQ_MIXED_MERGE then Z.lor (Z.land flags (Z.lnot REQ_FAILFAST_MASK)) (Z.land rw REQ_FAILFAST_MASK)
  else flags.

(** Completing [nr_bytes] of a request: whether bytes are left, the request, and
    the bios that ended.  Left out are [errors], the messages, the accounting,
    and, after a partial completion, the warning about a request shorter than its
    first segment and the recount of [nr_phys_segments]. *)
Definition blk_update_request (error nr_bytes : Z) (r : request)
    : outcome (bool * request * list completion) :=
  match rq_bio r with
  | [] => Ok (false, r, [])
  | _ :: _ =>
      match update_loop (update_fuel r) (rq_flush_seq r) error (mk_upd (rq_bio r) 0 0 0 nr_bytes []) with
      | Fault => Fault
      | Spin => Spin
      | Ok u =>
          match u_bios u with
          | [] => Ok (false, mk_request (cmd_type r) (rq_flags r) 0 (rq_sector r) [] (rq_buffer r)
                        (ref_count r) (rq_disk r) (rq_special r) (nr_phys_segments r), u_ended u)
          | b :: rest =>
              let '(b, ended) :=
                if u_bio_nbytes u =? 0 then (b, u_ended u)
                else let '(b, e) := req_bio_endio (rq_flush_seq r) b (u_bio_nbytes u) error in
                     (bio_advance (u_next_idx u) (u_nr u) b, u_ended u ++ e) in
              let len := u32 (data_len r - u_total u) in
              let sector := if cmd_fs r || rq_discard r
                            then u64 (rq_sector r + Z.shiftr (u_total u) 9) else rq_sector r in
              match bio_cur_bytes b with
              | None => Fault
              | Some cur =>
                  Ok (true, mk_request (cmd_type r) (mixed_flags (bi_rw b) (rq_flags r))
                              (if len <? cur then cur else len) sector (b :: rest) (bio_data b)
                              (ref_count r) (rq_disk r) (rq_special r) (nr_phys_segments r), ended)
              end
          end
      end
  end.

(** ** Segments still to do *)

Definition rq_segs (r : request) : list bio_vec := mjoin (bio_segs <$> rq_bio r).

Definition lens (vs : list bio_vec) : Z := sumZ (bv_len <$> vs).

(** The segments left when the first [n] bytes are done. *)
Fixpoint advance (n : Z) (vs : list bio_vec) : list bio_vec :=
  match vs with
  | [] => []
  | v :: vs => if n <? bv_len v then bvec_shift n v :: vs else advance (n - bv_len v) vs
  end.

(** The memory bytes segments cover, in order: page and offset. *)
Definition seg_addrs (v : bio_vec) : list (Z * Z) :=
  (λ i, (bv_page v, bv_offset v + Z.of_nat i)) <$> seq 0 (Z.to_nat (bv_len v)).
Definition rq_addrs (r : request) : list (Z * Z) := mjoin (seg_addrs <$> rq_segs r).

Definition segs_ok (vs : list bio_vec) : Prop := Forall (λ v, 0 < bv_len v) vs.

Record bio_ok (b : bio) : Prop := {
  bo_segs : bio_segs b ≠ [];
  bo_pos : segs_ok (bio_segs b);
  bo_size : bi_size b = lens (bio_segs b)
}.

Record rq_ok (r : request) : Prop := {
  ro_bios : Forall bio_ok (rq_bio r);
  ro_len : data_len r = sumZ (bi_size <$> rq_bio r);
  ro_32 : data_len r < 2 ^ 32
}.

(** ** Arithmetic of segments *)

Lemma lens_cons v vs : lens (v :: vs) = bv_len v + lens vs.
Proof. done. Qed.
Lemma lens_app vs ws : lens (vs ++ ws) = lens vs + lens ws.
Proof. unfold lens. by rewrite fmap_app, sumZ_app. Qed.
Lemma lens_nonneg vs : segs_ok vs → 0 ≤ lens vs.
Proof.
  intros H. apply sumZ_nonneg, Forall_fmap. eapply Forall_impl; [exact H|]. simpl. intros v Hv. lia.
Qed.
Lemma lens_pos vs : segs_ok vs → vs ≠ [] → 0 < lens vs.
Proof.
  intros H Hne. destruct H as [|v vs Hv H]; [done|]. rewrite lens_cons. pose proof (lens_nonneg vs H). lia.
Qed.

Lemma bvec_shift_0 v : bvec_shift 0 v = v.
Proof. destruct v as [p l o]. unfold bvec_shift; simpl. f_equal; lia. Qed.

Lemma advance_skip vs ws n : segs_ok vs → lens vs ≤ n → advance n (vs ++ ws) = advance (n - lens vs) ws.
Proof.
  intros H. revert n. induction H as [|v vs Hv H IH]; intros n Hn; simpl.
  - f_equal. unfold lens. simpl. lia.
  - rewrite lens_cons in *. pose proof (lens_nonneg vs H). destruct (Z.ltb_spec n (bv_len v)); [lia|].
    rewrite IH by lia. f_equal. lia.
Qed.

Lemma advance_0 vs : segs_ok vs → advance 0 vs = vs.
Proof.
  intros H. destruct H as [|v vs Hv H]; [done|]. simpl. destruct (Z.ltb_spec 0 (bv_len v)); [|lia].
  by rewrite bvec_shift_0.
Qed.

Lemma seg_addrs_shift n v : 0 ≤ n ≤ bv_len v → seg_addrs (bvec_shift n v) = drop (Z.to_nat n) (seg_addrs v).
Proof.
  intros Hn. unfold seg_addrs. apply list_eq. intros i. simpl.
  rewrite lookup_drop, !list_lookup_fmap.
  destruct (decide (i < Z.to_nat (bv_len v - n))%nat).
  - rewrite !lookup_seq_lt by lia. simpl. f_equal. f_equal. lia.
  - rewrite !lookup_seq_ge by lia. done.
Qed.

Lemma length_seg_addrs v : length (seg_addrs v) = Z.to_nat (bv_len v).
Proof. unfold seg_addrs. by rewrite length_fmap, length_seq. Qed.

(** Advancing segments by [n] bytes drops their first [n] addresses. *)
Lemma advance_addrs vs n :
  segs_ok vs → 0 ≤ n → mjoin (seg_addrs <$> advance n vs) = drop (Z.to_nat n) (mjoin (seg_addrs <$> vs)).
Proof.
  intros H. revert n. induction H as [|v vs Hv H IH]; intros n Hn; csimpl.
  - by rewrite drop_nil.
  - destruct (Z.ltb_spec n (bv_len v)); csimpl.
    + rewrite seg_addrs_shift by lia. rewrite drop_app_le; [done|]. rewrite length_seg_addrs. lia.
    + rewrite IH by lia. rewrite drop_app_ge by (rewrite length_seg_addrs; lia).
      rewrite length_seg_addrs. f_equal. lia.
Qed.

(** ** The loop of [blk_update_request] *)

(** Inside one bio: the loop stops in segment [v], [rem] bytes into it. *)
Lemma update_loop_bio fs err b rest vs : ∀ fuel next_idx total bn nr ended,
  drop (bi_idx b + next_idx) (bi_io_vec b) = vs → segs_ok vs → 0 ≤ nr < lens vs → lens vs ≤ bi_size b →
  (length vs < fuel)%nat →
  ∃ vs1 v vs2 rem, vs = vs1 ++ v :: vs2 ∧ nr = lens vs1 + rem ∧ 0 ≤ rem < bv_len v ∧
    update_loop fuel fs err (mk_upd (b :: rest) total bn next_idx nr ended) =
    Ok (mk_upd (b :: rest) (total + nr) (bn + nr) (next_idx + length vs1) rem ended).
Proof.
  induction vs as [|v vs IH]; intros fuel next_idx total bn nr ended Hvs Hok Hnr Hsz Hf.
  { unfold lens in Hnr. simpl in Hnr. lia. }
  destruct fuel as [|fuel]; [simpl in Hf; lia|].
  assert (bi_io_vec b !! (bi_idx b + next_idx)%nat = Some v) as Hv.
  { rewrite <- (Nat.add_0_r (_ + _)), <- lookup_drop, Hvs. done. }
  assert (drop (bi_idx b + S next_idx) (bi_io_vec b) = vs) as Hvs'.
  { replace (bi_idx b + S next_idx)%nat with ((bi_idx b + next_idx) + 1)%nat by lia.
    by rewrite <- drop_drop, Hvs. }
  apply Forall_cons in Hok as [Hvpos Hok]. pose proof (lens_nonneg vs Hok). rewrite lens_cons in Hnr, Hsz.
  simpl. destruct (Z.leb_spec (bi_size b) nr); [lia|]. rewrite Hv.
  destruct (Z.ltb_spec (bi_size b) (bv_len v)); [lia|]. destruct (Z.ltb_spec nr (bv_len v)).
  { exists [], v, vs, nr. rewrite Nat.add_0_r. unfold lens. simpl. split_and!; [done|lia|lia|lia|done]. }
  destruct (Z.leb_spec (nr - bv_len v) 0) as [Hle|Hgt].
  - destruct vs as [|w vs]; [unfold lens in Hnr; simpl in Hnr; lia|].
    apply Forall_cons in Hok as [Hw _].
    exists [v], w, vs, 0. split_and!; [done|unfold lens; simpl; lia|lia|lia|].
    do 2 f_equal; simpl; lia.
  - destruct (IH fuel (S next_idx) (total + bv_len v) (bn + bv_len v) (nr - bv_len v) ended)
      as (vs1 & w & vs2 & rem & -> & Hn & Hr & E); [done|done|lia|lia|simpl in Hf; lia|].
    exists (v :: vs1), w, vs2, rem. rewrite lens_cons. split_and!; [done|lia|lia|lia|].
    rewrite E. do 2 f_equal; simpl; lia.
Qed.

(** The completions of a bio that is done. *)
Definition ended_as (fs : bool) (err : Z) (b : bio) : list completion :=
  (req_bio_endio fs b (bi_size b) err).2.

Lemma bio_ok_pos b : bio_ok b → 0 < bi_size b.
Proof. intros [H1 H2 ->]. by apply lens_pos. Qed.

Lemma sizes_nonneg bios : Forall bio_ok bios → 0 ≤ sumZ (bi_size <$> bios).
Proof.
  intros H. apply sumZ_nonneg, Forall_fmap. eapply Forall_impl; [exact H|]. intros b Hb.
  pose proof (bio_ok_pos b Hb). simpl. lia.
Qed.

(** One bio that is done. *)
Lemma update_loop_done fs err b rest fuel total bn idx nr ended :
  bi_size b ≤ nr →
  update_loop (S fuel) fs err (mk_upd (b :: rest) total bn idx nr ended) =
  let u := mk_upd rest (total + bi_size b) 0 0 (nr - bi_size b) (ended ++ ended_as fs err b) in
  match rest with
  | [] => Ok u
  | _ :: _ => if nr - bi_size b <=? 0 then Ok u else update_loop fuel fs err u
  end.
Proof. intros H. simpl. destruct (Z.leb_spec (bi_size b) nr); [done|lia]. Qed.

(** Over the chain of bios: either all of them are done, or the loop stops in
    bio [b], the bios [dn] before it being done. *)
Lemma update_loop_bios fs err bios : ∀ fuel total nr ended,
  Forall bio_ok bios → 0 ≤ nr → bios ≠ [] →
  (length bios + sum_list (bi_vcnt <$> bios) < fuel)%nat →
  (sumZ (bi_size <$> bios) ≤ nr ∧ ∃ rem tot,
    update_loop fuel fs err (mk_upd bios total 0 0 nr ended) =
    Ok (mk_upd [] tot 0 0 rem (ended ++ mjoin (ended_as fs err <$> bios)))) ∨
  (nr < sumZ (bi_size <$> bios) ∧ ∃ dn b rest vs1 v vs2 rem,
    bios = dn ++ b :: rest ∧ bio_segs b = vs1 ++ v :: vs2 ∧ 0 ≤ rem < bv_len v ∧
    nr = sumZ (bi_size <$> dn) + lens vs1 + rem ∧
    update_loop fuel fs err (mk_upd bios total 0 0 nr ended) =
    Ok (mk_upd (b :: rest) (total + nr) (lens vs1 + rem) (length vs1) rem
          (ended ++ mjoin (ended_as fs err <$> dn)))).
Proof.
  induction bios as [|b bios IH]; intros fuel total nr ended Hok Hnr Hne Hf; [done|].
  apply Forall_cons in Hok as [Hb Hok]. pose proof (bio_ok_pos b Hb) as Hpos.
  destruct fuel as [|fuel]; [simpl in Hf; lia|]. csimpl in Hf.
  destruct (decide (bi_size b ≤ nr)) as [Hge|Hlt].
  - rewrite update_loop_done by done. cbv zeta. destruct bios as [|b2 bios].
    { left. csimpl. rewrite app_nil_r. split; [lia|]. eauto. }
    pose proof (proj1 (proj1 (Forall_cons _ _ _) Hok)) as Hb2.
    destruct (Z.leb_spec (nr - bi_size b) 0) as [Hz|Hz].
    + right. destruct Hb2 as [Hs2 Hp2 Hz2]. destruct (bio_segs b2) as [|v vs] eqn:Es; [done|].
      pose proof (bio_ok_pos b2 ltac:(split; rewrite Es; done)).
      pose proof (proj1 (proj1 (Forall_cons _ _ _) Hp2)) as Hv. simpl in Hv.
      pose proof (sizes_nonneg bios (proj2 (proj1 (Forall_cons _ _ _) Hok))).
      csimpl. split; [lia|]. exists [b], b2, bios, [], v, vs, 0. unfold lens at 1 2; csimpl.
      rewrite app_nil_r. split_and!; [done|done|lia|lia|lia|]. do 2 f_equal; lia.
    + destruct (IH fuel (total + bi_size b) (nr - bi_size b) (ended ++ ended_as fs err b))
        as [(Hs & rem & tot & E2)|(Hs & dn & c & rest & vs1 & v & vs2 & rem & Heq & Hseg & Hr & Hn & E2)];
        [done|lia|done|csimpl in *; lia| |].
      * left. csimpl in Hs. csimpl. split; [lia|]. exists rem, tot. rewrite E2.
        csimpl. by rewrite <- !app_assoc.
      * right. csimpl in Hs. csimpl. split; [lia|]. exists (b :: dn), c, rest, vs1, v, vs2, rem.
        csimpl. split_and!; [by rewrite Heq|done|lia|lia|lia|]. rewrite E2.
        rewrite <- !app_assoc. do 2 f_equal; lia.
  - right. destruct Hb as [Hs Hp Hz].
    pose proof (sizes_nonneg bios Hok).
    split; [csimpl; lia|].
    destruct (update_loop_bio fs err b bios (bio_segs b) (S fuel) 0 total 0 nr ended)
      as (vs1 & v & vs2 & rem & Hsp & Hn & Hr & E); [by rewrite Nat.add_0_r|done|lia|lia| |].
    { unfold bio_segs. rewrite length_drop. unfold bi_vcnt in Hf. lia. }
    exists [], b, bios, vs1, v, vs2, rem. split_and!; [done|done|lia|lia|csimpl; lia|].
    etrans; [exact E|]. csimpl. rewrite app_nil_r. do 2 f_equal; lia.
Qed.

(** ** Completing part of a request *)

Lemma bio_segs_advance b vs1 v vs2 n :
  bio_segs b = vs1 ++ v :: vs2 → bio_segs (bio_advance (length vs1) n b) = bvec_shift n v :: vs2.
Proof.
  intros Hs. unfold bio_segs in *. simpl. rewrite drop_alter_ge, Nat.sub_diag by lia.
  by rewrite <- drop_drop, Hs, drop_app_length.
Qed.

Lemma bio_ok_split b vs1 v vs2 :
  bio_ok b → bio_segs b = vs1 ++ v :: vs2 → segs_ok vs1 ∧ 0 < bv_len v ∧ segs_ok vs2.
Proof.
  intros [_ Hp _] Hs. rewrite Hs in Hp. apply Forall_app in Hp as [? Hp]. by apply Forall_cons in Hp.
Qed.

Lemma bio_partial fs err b vs1 v vs2 rem :
  bio_ok b → bio_segs b = vs1 ++ v :: vs2 → 0 ≤ rem < bv_len v →
  let '(b', e) := req_bio_endio fs b (lens vs1 + rem) err in
  let b2 := bio_advance (length vs1) rem b' in
  bio_ok b2 ∧ bio_segs b2 = bvec_shift rem v :: vs2 ∧
  bi_size b2 = bi_size b - (lens vs1 + rem) ∧ bi_private b2 = bi_private b ∧
  (err = 0 → bi_uptodate b2 = bi_uptodate b) ∧ e = [].
Proof.
  intros Hok Hs Hr. destruct (bio_ok_split b vs1 v vs2 Hok Hs) as (H1 & Hv & H2).
  destruct Hok as [Hne Hp Hz].
  pose proof (lens_nonneg _ H1). pose proof (lens_nonneg _ H2).
  rewrite Hs, lens_app, lens_cons in Hz. unfold req_bio_endio.
  destruct (Z.ltb_spec (bi_size b) (lens vs1 + rem)); [lia|]. set (b' := mk_bio _ _ _ _ _ _ _ _ _).
  assert (bio_segs (bio_advance (length vs1) rem b') = bvec_shift rem v :: vs2) as Hs'.
  { by apply bio_segs_advance. }
  split_and!.
  - split; rewrite Hs'; [done| |].
    + apply Forall_cons; split; [|done]. simpl. lia.
    + rewrite lens_cons. simpl. lia.
  - done.
  - done.
  - done.
  - intros ->. simpl. by rewrite andb_true_r.
  - simpl. destruct (Z.eqb_spec (bi_size b - (lens vs1 + rem)) 0); [lia|done].
Qed.

Lemma bio_cur_ok b v vs :
  bio_segs b = v :: vs → bio_cur_bytes b = Some (bv_len v) ∧ bio_data b = Some (bv_page v, bv_offset v).
Proof.
  intros Hs. assert (bio_iovec b = Some v) as Hv.
  { unfold bio_iovec, bio_segs in *. rewrite <- (Nat.add_0_r (bi_idx b)), <- lookup_drop, Hs. done. }
  unfold bio_cur_bytes, bio_data. rewrite Hv.
  rewrite bool_decide_eq_false_2; [done|]. unfold bi_vcnt. intros Hn. apply nil_length_inv in Hn.
  unfold bio_iovec in Hv. by rewrite Hn in Hv.
Qed.

(** The first segment still to do. *)
Lemma rq_segs_cons b bios v vs :
  bio_segs b = v :: vs → mjoin (bio_segs <$> (b :: bios)) = v :: (vs ++ mjoin (bio_segs <$> bios)).
Proof. intros Hs. csimpl. by rewrite Hs. Qed.

Lemma bios_segs_ok bios :
  Forall bio_ok bios →
  segs_ok (mjoin (bio_segs <$> bios)) ∧ lens (mjoin (bio_segs <$> bios)) = sumZ (bi_size <$> bios).
Proof.
  induction 1 as [|b bios [_ Hp Hz] Hbs [IH1 IH2]]; csimpl; [split; [by constructor|done]|].
  split; [by apply Forall_app|]. rewrite lens_app, IH2, Hz. done.
Qed.

(** [b2] is bio [b] with its first [n] bytes done. *)
Definition cut_at (n : Z) (b b2 : bio) : Prop :=
  0 ≤ n ∧ bi_sector b2 = (if n =? 0 then bi_sector b else u64 (bi_sector b + Z.shiftr n 9)) ∧ bi_size b2 = bi_size b - n ∧
  bi_rw b2 = bi_rw b ∧ bi_disk b2 = bi_disk b.

(** What a partial completion leaves of a request. *)
Record updated (err nr : Z) (r r' : request) (more : bool) (ended : list completion) : Prop := {
  up_ok : rq_ok r';
  up_segs : rq_segs r' = advance nr (rq_segs r);
  up_more : more = true ↔ nr < data_len r;
  up_len : data_len r' = Z.max 0 (data_len r - nr);
  up_sector : more = true →
    rq_sector r' = if cmd_fs r || rq_discard r then u64 (rq_sector r + Z.shiftr nr 9) else rq_sector r;
  up_same : (cmd_fs r', rq_discard r', rq_flush_seq r', rq_write r', ref_count r') =
            (cmd_fs r, rq_discard r, rq_flush_seq r, rq_write r, ref_count r);
  up_flags : Z.land (rq_flags r') (Z.lnot REQ_FAILFAST_MASK) = Z.land (rq_flags r) (Z.lnot REQ_FAILFAST_MASK);
  up_kept : (cmd_type r', rq_disk r', rq_special r') = (cmd_type r, rq_disk r, rq_special r);
  up_cut : if more then ∃ dn b rest b2 n, rq_bio r = dn ++ b :: rest ∧ rq_bio r' = b2 :: rest ∧
             nr = sumZ (bi_size <$> dn) + n ∧ cut_at n b b2
           else rq_bio r' = [];
  up_buffer : more = true → rq_buffer r' = (λ v, (bv_page v, bv_offset v)) <$> head (rq_segs r');
  up_ended : ∃ dn rest, rq_bio r = dn ++ rest ∧ bi_private <$> rest = bi_private <$> rq_bio r' ∧
    (err = 0 → bi_uptodate <$> rest = bi_uptodate <$> rq_bio r') ∧
    ended = mjoin (ended_as (rq_flush_seq r) err <$> dn)
}.

Lemma mixed_flags_other rw flags :
  Z.land (mixed_flags rw flags) (Z.lnot REQ_FAILFAST_MASK) = Z.land flags (Z.lnot REQ_FAILFAST_MASK).
Proof.
  unfold mixed_flags. destruct (flagged flags REQ_MIXED_MERGE); [|done].
  apply Z.bits_inj'. intros i Hi. rewrite !Z.land_spec, Z.lor_spec, !Z.land_spec, Z.lnot_spec by done.
  destruct (Z.testbit flags i), (Z.testbit REQ_FAILFAST_MASK i), (Z.testbit rw i); done.
Qed.

Lemma req_bio_endio_fields fs b n err :
  let b' := (req_bio_endio fs b n err).1 in
  (n ≤ bi_size b → bi_sector b' = u64 (bi_sector b + Z.shiftr n 9)) ∧ bi_rw b' = bi_rw b ∧ bi_disk b' = bi_disk b.
Proof. unfold req_bio_endio. simpl. split_and!; [|done|done]. intros Hn. destruct (Z.ltb_spec (bi_size b) n); [lia|done]. Qed.

(** The case in which bio [b] is the one the completion stops in. *)
Lemma update_partial err r dn b rest vs1 v vs2 rem :
  rq_ok r → rq_bio r = dn ++ b :: rest → bio_segs b = vs1 ++ v :: vs2 → 0 ≤ rem < bv_len v →
  let n := lens vs1 + rem in
  ∃ b2, (if n =? 0 then (b, mjoin (ended_as (rq_flush_seq r) err <$> dn))
         else let '(b, e) := req_bio_endio (rq_flush_seq r) b n err in
              (bio_advance (length vs1) rem b, mjoin (ended_as (rq_flush_seq r) err <$> dn) ++ e)) =
        (b2, mjoin (ended_as (rq_flush_seq r) err <$> dn)) ∧
    bio_ok b2 ∧ bio_segs b2 = bvec_shift rem v :: vs2 ∧ bi_size b2 = bi_size b - n ∧
    bi_private b2 = bi_private b ∧ (err = 0 → bi_uptodate b2 = bi_uptodate b) ∧ cut_at n b b2.
Proof.
  intros [Hb _ _] Hr Hs Hrem n. rewrite Hr, Forall_app, Forall_cons in Hb. destruct Hb as (_ & Hb & _).
  pose proof (bio_partial (rq_flush_seq r) err b vs1 v vs2 rem Hb Hs Hrem) as Hp. fold n in Hp.
  destruct (Z.eqb_spec n 0) as [H0|H0].
  - destruct (bio_ok_split b vs1 v vs2 Hb Hs) as (H1 & _).
    assert (vs1 = []) as ->.
    { destruct vs1; [done|]. pose proof (lens_pos _ H1 ltac:(done)). unfold n in H0. lia. }
    pose proof (lens_nonneg _ H1). assert (rem = 0) as -> by (unfold n in H0; lia).
    assert (0 ≤ n) by lia. exists b. rewrite bvec_shift_0. unfold cut_at. rewrite (proj2 (Z.eqb_eq n 0) H0). split_and!; (done || lia).
  - destruct (req_bio_endio _ _ _ _) as [b' e] eqn:Eb. destruct Hp as (H1 & H2 & H3 & H4 & H5 & ->).
    eexists. rewrite app_nil_r. split_and!; try done. unfold cut_at. rewrite (proj2 (Z.eqb_neq n 0) H0).
    pose proof (req_bio_endio_fields (rq_flush_seq r) b n err) as Hf. rewrite Eb in Hf. simpl in Hf.
    destruct Hf as (F1 & F2 & F3). destruct (bio_ok_split b vs1 v vs2 Hb Hs) as (Hv1 & _ & Hv2).
    pose proof (lens_nonneg _ Hv1). pose proof (lens_nonneg _ Hv2).
    pose proof (bo_size _ Hb) as Hz. rewrite Hs, lens_app, lens_cons in Hz.
    split_and!; [unfold n; lia|rewrite <- F1|..]; try done; []. unfold n. lia.
Qed.

Lemma blk_update_ok err nr r :
  rq_ok r → 0 ≤ nr →
  ∃ more r' ended, blk_update_request err nr r = Ok (more, r', ended) ∧ updated err nr r r' more ended.
Proof.
  intros Hok Hnr. pose proof Hok as [Hb Hl H32]. unfold blk_update_request.
  destruct (rq_bio r) as [|b0 bs0] eqn:Er.
  { exists false, r, []. split; [done|]. csimpl in Hl.
    assert (rq_segs r = []) as Hs by (unfold rq_segs; by rewrite Er).
    split; [done|by rewrite Hs|split; [done|lia]|lia|done|done|done|done|done|done|exists [], []; by rewrite Er]. }
  rewrite <- Er in *.
  destruct (update_loop_bios (rq_flush_seq r) err (rq_bio r) (update_fuel r) 0 nr [])
    as [(Hge & rem & tot & ->)|(Hlt & dn & b & rest & vs1 & v & vs2 & rem & Hr & Hs & Hrem & Hn & ->)];
    [done|done|by rewrite Er|unfold update_fuel; lia| |]; rewrite app_nil_l; cbn [u_bios u_ended].
  - do 3 eexists. split; [reflexivity|]. destruct (bios_segs_ok _ Hb) as [Hso Hsl].
    split; cbn [data_len rq_bio]; [split; [by constructor|done|simpl; lia]| | |lia|done|done|done|done|done|done| ].
    + rewrite <- (app_nil_r (rq_segs r)), advance_skip; [done|done|unfold rq_segs; lia].
    + split; [done|lia].
    + exists (rq_bio r), []. by rewrite app_nil_r.
  - destruct (update_partial err r dn b rest vs1 v vs2 rem Hok Hr Hs Hrem) as (b2 & E & Hb2 & Hs2 & Hz2 & Hp2 & Hu2 & Hc2).
    cbn [u_bio_nbytes u_next_idx u_nr u_total]. cbv zeta in E. rewrite E.
    destruct (bio_cur_ok b2 _ _ Hs2) as [-> Hdat].
    rewrite Hr, !Forall_app, Forall_cons in Hb. destruct Hb as (Hdn & Hb & Hrest).
    pose proof (sizes_nonneg _ Hdn). pose proof (sizes_nonneg _ Hrest). pose proof (bio_ok_pos _ Hb2).
    rewrite Hr, fmap_app, sumZ_app in Hl, Hlt. csimpl in Hl. csimpl in Hlt.
    destruct Hb2 as [Hb2a Hb2b Hb2c]. rewrite Hs2, lens_cons in Hb2c.
    pose proof (lens_nonneg vs2 (proj2 (proj2 (bio_ok_split b vs1 v vs2 Hb Hs)))).
    rewrite !Z.add_0_l, (u32_id (data_len r - nr)) by lia.
    destruct (Z.ltb_spec (data_len r - nr) (bv_len (bvec_shift rem v))); [lia|].
    do 3 eexists. split; [reflexivity|]. split; cbn [data_len rq_bio rq_sector rq_buffer].
    + split; cbn [data_len rq_bio]; [|csimpl; lia|lia].
      apply Forall_cons; split; [|done]. split; rewrite ?Hs2; [done|by rewrite <- Hs2|rewrite lens_cons; lia].
    + unfold rq_segs. cbn [rq_bio]. rewrite Hr, fmap_app, join_app. csimpl. rewrite Hs2, Hs.
      destruct (bios_segs_ok _ Hdn) as [Hd1 Hd2].
      destruct (bio_ok_split b vs1 v vs2 Hb Hs) as (Hv1 & _).
      pose proof (lens_nonneg _ Hv1).
      rewrite advance_skip, <- !app_assoc, advance_skip by (done || lia). simpl.
      replace (nr - _ - lens vs1) with rem by lia. destruct (Z.ltb_spec rem (bv_len v)); [done|lia].
    + split; [lia|done].
    + lia.
    + done.
    + unfold cmd_fs, rq_discard, rq_flush_seq, rq_write. cbn [rq_flags cmd_type ref_count]. 
      by rewrite !(flagged_agree _ _ _ _ (mixed_flags_other _ _)) by done.
    + apply mixed_flags_other.
    + done.
    + exists dn, b, rest, b2, (lens vs1 + rem). split_and!; [done|done|lia|done].
    + intros _. unfold rq_segs. cbn [rq_bio]. erewrite rq_segs_cons by exact Hs2. done.
    + exists dn, (b :: rest). csimpl. rewrite Hp2. split_and!; [done|done| |done].
      intros He. by rewrite Hu2.
Qed.

(** C12: completing [nr] bytes of a request always terminates; the bytes left to
    do are the old ones without the first [nr]; it reports more data exactly
    when fewer bytes than were left are completed; the sector of an fs request
    moves on by the whole sectors completed; and the bios ended are exactly the
    leading ones of the chain that are no longer part of it. *)
Theorem blk_update_request_ok error nr r :
  rq_ok r → 0 ≤ nr →
  ∃ more r' ended, blk_update_request error nr r = Ok (more, r', ended) ∧ rq_ok r' ∧
    rq_addrs r' = drop (Z.to_nat nr) (rq_addrs r) ∧
    (more = true ↔ nr < blk_rq_bytes r) ∧
    (more = true → cmd_fs r = true → blk_rq_pos r' = u64 (blk_rq_pos r + Z.shiftr nr 9)) ∧
    ∃ dn rest, rq_bio r = dn ++ rest ∧ bi_private <$> rest = bi_private <$> rq_bio r' ∧
      ended = mjoin (ended_as (rq_flush_seq r) error <$> dn).
Proof.
  intros Hok Hnr. destruct (blk_update_ok error nr r Hok Hnr) as (more & r' & ended & E & U).
  exists more, r', ended. split_and!; [done|by eapply up_ok| |by eapply up_more| |].
  - unfold rq_addrs. rewrite (up_segs _ _ _ _ _ _ U). apply advance_addrs; [|done].
    apply bios_segs_ok, Hok.
  - intros Hm Hfs. unfold blk_rq_pos. rewrite (up_sector _ _ _ _ _ _ U Hm), Hfs. done.
  - destruct (up_ended _ _ _ _ _ _ U) as (dn & rest & ? & ? & _ & ?). eauto.
Qed.

(** ** Request queues

    The requests the driver will be given, in the order the elevator hands
    them over, the request structures that are allocated, and the completions
    delivered so far.  A request whose last reference is dropped is freed: its
    structure is gone, and touching it faults. *)

Record blkq := mk_blkq {
  bq_queue : list Z; bq_reqs : gmap Z request; bq_ended : list completion
}.

Definition get_rq (p : Z) : cmd blkq request := q ← gets id; the (bq_reqs q !! p).
Definition put_rq (p : Z) (r : request) : cmd blkq unit :=
  modify (λ q, mk_blkq (bq_queue q) (<[p := r]> (bq_reqs q)) (bq_ended q)).
Definition deliver (l : list completion) : cmd blkq unit :=
  modify (λ q, mk_blkq (bq_queue q) (bq_reqs q) (bq_ended q ++ l)).

Definition blk_fetch_request : cmd blkq (option Z) := λ q,
  match bq_queue q with
  | [] => Ok (None, q)
  | p :: ps => Ok (Some p, mk_blkq ps (bq_reqs q) (bq_ended q))
  end.

Definition set_ref_count (n : Z) (r : request) : request :=
  mk_request (cmd_type r) (rq_flags r) (data_len r) (rq_sector r)
    (rq_bio r) (rq_buffer r) n (rq_disk r) (rq_special r) (nr_phys_segments r).

Definition __blk_put_request (p : Z) : cmd blkq unit :=
  r ← get_rq p;
  let n := s32 (ref_count r - 1) in
  if n =? 0 then modify (λ q, mk_blkq (bq_queue q) (delete p (bq_reqs q)) (bq_ended q))
  else put_rq p (set_ref_count n r).

Definition blk_finish_request (p : Z) : cmd blkq unit :=
  q ← gets id;
  _ ← check (negb (bool_decide (p ∈ bq_queue q)));
  __blk_put_request p.

Definition __blk_end_request (p error nr_bytes : Z) : cmd blkq bool :=
  r ← get_rq p;
  match blk_update_request error nr_bytes r with
  | Fault => fault
  | Spin => spin
  | Ok (more, r', ended) =>
      _ ← put_rq p r'; _ ← deliver ended;
      if more : bool then mret true else _ ← blk_finish_request p; mret false
  end.

(** What a driver uses of a queue: [__blk_end_request_cur] and
    [__blk_end_request_all] come down to these. *)
Class DriverQueue (Q : Type) := {
  dq_get : Z → cmd Q request;
  dq_fetch : cmd Q (option Z);
  dq_end : Z → Z → Z → cmd Q bool;
  dq_deliver : list completion → cmd Q unit
}.

#[export] Instance blkq_driver : DriverQueue blkq := {|
  dq_get := get_rq; dq_fetch := blk_fetch_request; dq_end := __blk_end_request; dq_deliver := deliver
|}.

Definition __blk_end_request_cur `{DriverQueue Q} (p error : Z) : cmd Q bool :=
  r ← dq_get p; n ← the (blk_rq_cur_bytes r); dq_end p error n.

Definition __blk_end_request_all `{DriverQueue Q} (p error : Z) : cmd Q unit :=
  r ← dq_get p;
  pending ← dq_end p error (blk_rq_bytes r);
  check (negb pending).

(** ** Ending the current segment *)

(** The completions the bios of a request get when all goes well. *)
Definition success (r : request) : list completion := mjoin (ended_as (rq_flush_seq r) 0 <$> rq_bio r).

Lemma ended_as_same fs (bs bs' : list bio) :
  bi_private <$> bs = bi_private <$> bs' → bi_uptodate <$> bs = bi_uptodate <$> bs' →
  ended_as fs 0 <$> bs = ended_as fs 0 <$> bs'.
Proof.
  revert bs'. induction bs as [|b bs IH]; intros [|b' bs'] Hp Hu; csimpl in *; try done.
  injection Hp as Hp1 Hp. injection Hu as Hu1 Hu. f_equal; [|by apply IH].
  unfold ended_as, req_bio_endio, bio_endio. simpl. rewrite !Z.ltb_irrefl, !Z.sub_diag, Hp1, Hu1. done.
Qed.

Lemma updated_success nr r r' more ended :
  updated 0 nr r r' more ended → success r = ended ++ success r'.
Proof.
  intros U. destruct (up_ended _ _ _ _ _ _ U) as (dn & rest & Hr & Hp & Hu & ->).
  pose proof (up_same _ _ _ _ _ _ U) as Hs. injection Hs as _ _ Hf _ _.
  unfold success. rewrite Hr, fmap_app, join_app, Hf. f_equal.
  by rewrite (ended_as_same _ _ _ Hp (Hu eq_refl)).
Qed.

Lemma rq_bio_nil r : rq_ok r → rq_segs r = [] → rq_bio r = [].
Proof.
  intros [Hb _ _] Hs. unfold rq_segs in Hs. destruct (rq_bio r) as [|b bs]; [done|].
  apply Forall_cons in Hb as [[Hne _ _] _]. csimpl in Hs. by apply app_eq_nil in Hs as [? _].
Qed.

Lemma rq_cur r : rq_ok r → blk_rq_cur_bytes r = Some (default 0 (bv_len <$> head (rq_segs r))).
Proof.
  intros [Hb _ _]. unfold blk_rq_cur_bytes, rq_segs. destruct (rq_bio r) as [|b bs]; [done|].
  apply Forall_cons in Hb as [[Hne _ _] _]. csimpl. destruct (bio_segs b) as [|v vs] eqn:Es; [done|].
  by destruct (bio_cur_ok b v vs Es) as [-> _].
Qed.

Lemma rq_len r : rq_ok r → segs_ok (rq_segs r) ∧ data_len r = lens (rq_segs r).
Proof. intros [Hb -> _]. destruct (bios_segs_ok _ Hb) as [? Hl]. split; [done|]. symmetry. exact Hl. Qed.

(** Nothing is left to complete of a request that is done. *)
Lemma updated_done err n r r' e : updated err n r r' false e → success r' = [].
Proof.
  intros U. pose proof (up_ok _ _ _ _ _ _ U) as Hok'. destruct (rq_len r' Hok') as [Hso Hlen].
  unfold success. destruct (rq_segs r') as [|v vs] eqn:Es; [by rewrite (rq_bio_nil r' Hok' Es)|].
  pose proof (lens_pos _ Hso ltac:(done)). pose proof (up_len _ _ _ _ _ _ U) as Hl.
  destruct (up_more _ _ _ _ _ _ U) as [_ Hm]. discriminate Hm. lia.
Qed.

(** Dropping the only reference frees a request that is off the queue. *)
Lemma blk_finish_request_ok p q r :
  bq_reqs q !! p = Some r → p ∉ bq_queue q → ref_count r = 1 →
  blk_finish_request p q = Ok (tt, mk_blkq (bq_queue q) (delete p (bq_reqs q)) (bq_ended q)).
Proof.
  intros Hp Hq Hr. unfold blk_finish_request, __blk_put_request, get_rq, mbind, cmd_bind, gets. simpl.
  rewrite bool_decide_eq_false_2 by done. simpl. rewrite Hp. simpl. rewrite Hr. done.
Qed.

(** Ending the current segment of a request moves on to the next one, or, at
    the last one, completes and frees the request. *)
Lemma end_cur_ok p q r :
  bq_reqs q !! p = Some r → rq_ok r → p ∉ bq_queue q → ref_count r = 1 →
  match rq_segs r with
  | v :: ((_ :: _) as vs) => ∃ r' e,
      __blk_end_request_cur p 0 q = Ok (true, mk_blkq (bq_queue q) (<[p := r']> (bq_reqs q)) (bq_ended q ++ e)) ∧
      updated 0 (bv_len v) r r' true e ∧ rq_segs r' = vs
  | _ => __blk_end_request_cur p 0 q =
           Ok (false, mk_blkq (bq_queue q) (delete p (bq_reqs q)) (bq_ended q ++ success r))
  end.
Proof.
  intros Hp Hok Hq Href. unfold __blk_end_request_cur. cbn [dq_get dq_end blkq_driver]. unfold __blk_end_request, get_rq.
  rewrite !bind_assoc_cmd, (bind_ok _ _ _ _ _ (gets_ok _ _)). simpl. rewrite Hp. run_step.
  rewrite (rq_cur r Hok). run_step. rewrite !bind_assoc_cmd, (bind_ok _ _ _ _ _ (gets_ok _ _)).
  simpl. rewrite Hp. run_step. destruct (rq_len r Hok) as [Hso Hlen].
  set (n := default 0 (bv_len <$> head (rq_segs r))).
  assert (0 ≤ n) as Hn. { unfold n. destruct Hso; simpl in *; lia. }
  destruct (blk_update_ok 0 n r Hok Hn) as (more & r' & e & -> & U).
  pose proof (up_more _ _ _ _ _ _ U) as Hm. pose proof (up_segs _ _ _ _ _ _ U) as Hsg.
  pose proof (up_same _ _ _ _ _ _ U) as Hs. injection Hs as _ _ _ _ Href'.
  pose proof (updated_success n r r' more e U) as Hsucc.
  unfold put_rq, deliver. do 2 run_step. simpl.
  assert (more = false → (_ ← blk_finish_request p; mret false)
    (mk_blkq (bq_queue q) (<[p := r']> (bq_reqs q)) (bq_ended q ++ e)) =
    Ok (false, mk_blkq (bq_queue q) (delete p (bq_reqs q)) (bq_ended q ++ success r))) as Hfin.
  { intros ->. erewrite bind_ok; [|eapply blk_finish_request_ok; [apply lookup_insert_eq|done|congruence]].
    simpl. rewrite delete_insert_eq, Hsucc, (updated_done _ _ _ _ _ U), app_nil_r. done. }
  assert (data_len r ≤ n → more = false) as Hle.
  { intros ?. destruct more; [|done]. destruct Hm as [Hm _]. specialize (Hm eq_refl). lia. }
  destruct (rq_segs r) as [|v [|w vs]] eqn:Es; simpl in n.
  - assert (more = false) as -> by (apply Hle; rewrite Hlen; done). by apply Hfin.
  - assert (more = false) as -> by (apply Hle; rewrite Hlen; unfold lens, n; simpl; lia). by apply Hfin.
  - assert (more = true) as ->.
    { apply Hm. rewrite Hlen, !lens_cons. apply Forall_cons in Hso as [Hv Hso].
      pose proof (lens_pos _ Hso ltac:(done)). rewrite lens_cons in *. unfold n. lia. }
    exists r', e. split_and!; [done|done|]. rewrite Hsg.
    apply Forall_cons in Hso as [Hv Hso]. rewrite (advance_skip [v] (w :: vs)).
    + replace (n - lens [v]) with 0 by (unfold n, lens; simpl; lia). rewrite (advance_0 _ Hso). done.
    + by constructor.
    + unfold n, lens. simpl. lia.
Qed.
