(* ===== verification/OsurdReq.v ===== *)
(** * The encrypted RAM disk, requests and bios (project3/osurd.c)

    The three ways data reaches the driver: the simple request function, the
    clustering one, and the make_request function, over the block layer of
    [BlkRequest] and the data path of [Osurd].  The contents of the device are
    seen through the cipher, as a plain array of bytes; the theorems say what a
    run of a request function amounts to as copies between that array and the
    pages of memory, and which runs never come to an end. *)

From S2P Require Import Prelude BlkTypes Osurd BlkRequest.

(** ** The plain contents of the device *)

Section Plain.
Context `{CipherOk}.

(** Byte [p] of the device as a reader with cipher context [c] sees it. *)
Definition plain (c : cipher_ctx) (data : bytes) (p : Z) : option Z :=
  b ← read_at data (p / blocksize * blocksize) blocksize; byte (cia_decrypt c b) (p mod blocksize).

Lemma block_of p : 0 ≤ p mod blocksize < blocksize ∧ p = p / blocksize * blocksize + p mod blocksize.
Proof.
  pose proof blocksize_pos. split; [by apply Z.mod_pos_bound|].
  rewrite (Z.mul_comm _ blocksize). apply Z.div_mod. lia.
Qed.

(** A sector boundary is a block boundary. *)
Lemma sector_block s : ∃ k, s * 512 = k * blocksize.
Proof. exists (nblocks s). by rewrite nblocks_bytes. Qed.

(** A block lies on one side of a sector boundary. *)
Lemma block_side p s :
  (p / blocksize * blocksize + blocksize ≤ s * 512 ↔ p < s * 512) ∧
  (s * 512 ≤ p / blocksize * blocksize ↔ s * 512 ≤ p).
Proof.
  destruct (block_of p) as [Hm Hp]. destruct (sector_block s) as [k ->]. pose proof blocksize_pos.
  set (j := p / blocksize) in *. split; (split; [lia|]); intros Hlt.
  - assert (j < k) by nia. nia.
  - assert (k ≤ j) by nia. nia.
Qed.

Lemma read_at_ext l l' o n :
  0 ≤ n → length l' = length l → (∀ t, 0 ≤ t < n → byte l' (o + t) = byte l (o + t)) →
  read_at l' o n = read_at l o n.
Proof.
  intros Hn Hl Hb. destruct (read_at l o n) as [b|] eqn:E.
  - apply read_at_some in E as (? & ? & ? & Hv); [|done]. apply read_at_some; [done|].
    split_and!; [done|lia|done|]. intros t Ht. by rewrite Hb, <- Hv.
  - unfold read_at in *. rewrite Hl. by destruct (_ && _).
Qed.

(** A write shows up in the plain contents, and nowhere else. *)
Lemma plain_write c buf data data' sector nsect :
  0 ≤ nsect → nsect * 512 ≤ Z.of_nat (length buf) → length data' = length data →
  (∀ p, ¬ (sector * 512 ≤ p < (sector + nsect) * 512) → byte data' p = byte data p) →
  (∀ j b, 0 ≤ j < nblocks nsect → read_at buf (j * blocksize) blocksize = Some b →
     read_at data' (sector * 512 + j * blocksize) blocksize = Some (cia_encrypt c b)) →
  ∀ p, plain c data' p =
    if decide (sector * 512 ≤ p < (sector + nsect) * 512) then byte buf (p - sector * 512)
    else plain c data p.
Proof.
  intros Hn Hbuf Hl Hout Hblk p. destruct (block_of p) as [Hm Hp]. pose proof blocksize_pos.
  pose proof (block_side p sector). pose proof (block_side p (sector + nsect)).
  set (j := p / blocksize) in *. case_decide as Hin.
  - destruct (sector_block sector) as [k Hk]. pose proof (nblocks_bytes nsect) as Hnb.
    assert (0 ≤ j - k < nblocks nsect) as Hj by nia.
    assert ((j - k) * blocksize + blocksize ≤ nsect * 512) by nia.
    destruct (read_at buf ((j - k) * blocksize) blocksize) as [b|] eqn:E.
    2: { exfalso. unfold read_at in E. destruct (Z.leb_spec 0 ((j - k) * blocksize)); [|nia].
         destruct (Z.leb_spec ((j - k) * blocksize + blocksize) (Z.of_nat (length buf))); [done|lia]. }
    pose proof (Hblk _ _ Hj E) as E'. rewrite Hk in E'.
    replace (k * blocksize + (j - k) * blocksize) with (j * blocksize) in E' by lia.
    unfold plain. fold j. rewrite E'. simpl. apply read_at_some in E as (_ & _ & Hlb & Hbv); [|lia].
    rewrite decrypt_encrypt by done. rewrite Hbv by done. f_equal. lia.
  - unfold plain. fold j. f_equal. apply read_at_ext; [lia|done|]. intros t Ht. apply Hout. lia.
Qed.

(** A read copies the plain contents. *)
Lemma plain_read c buf buf' data sector nsect :
  0 ≤ sector → 0 ≤ nsect → (sector + nsect) * 512 ≤ Z.of_nat (length data) →
  (∀ p, ¬ (0 ≤ p < nsect * 512) → byte buf' p = byte buf p) →
  (∀ j b, 0 ≤ j < nblocks nsect → read_at data (sector * 512 + j * blocksize) blocksize = Some b →
     read_at buf' (j * blocksize) blocksize = Some (cia_decrypt c b)) →
  ∀ p, byte buf' p = if decide (0 ≤ p < nsect * 512) then plain c data (sector * 512 + p) else byte buf p.
Proof.
  intros Hs Hn Hd Hout Hblk p. case_decide as Hin; [|by apply Hout]. clear Hout.
  destruct (block_of p) as [Hm Hp]. pose proof blocksize_pos. pose proof (nblocks_bytes nsect) as Hnb.
  set (j := p / blocksize) in *. destruct (sector_block sector) as [k Hk].
  assert (0 ≤ j < nblocks nsect) as Hj by nia. assert (j * blocksize + blocksize ≤ nsect * 512) by nia.
  assert ((sector * 512 + p) / blocksize * blocksize = sector * 512 + j * blocksize ∧
          (sector * 512 + p) mod blocksize = p mod blocksize) as [Hd1 Hd2].
  { rewrite Hk, Z.add_comm, Z.div_add, Z_mod_plus_full by lia. fold j. split; [lia|done]. }
  unfold plain. rewrite Hd1, Hd2.
  destruct (read_at data (sector * 512 + j * blocksize) blocksize) as [b|] eqn:E.
  2: { exfalso. unfold read_at in E. destruct (Z.leb_spec 0 (sector * 512 + j * blocksize)); [|nia].
       destruct (Z.leb_spec (sector * 512 + j * blocksize + blocksize) (Z.of_nat (length data))); [done|lia]. }
  specialize (Hblk j b Hj E). simpl. apply read_at_some in Hblk as (_ & _ & _ & Hv); [|lia].
  rewrite (Hv _ Hm). f_equal. lia.
Qed.
End Plain.

(** ** The driver *)

Section Driver.
Context `{Cipher} {Q : Type} `{!DriverQueue Q}.

(** Everything the request functions touch: the queue, the cipher handle, the
    device and the pages of memory. *)
Record osurd_st := mk_io { io_q : Q; io_tfm : tfm; io_dev : osurd_dev; io_mem : gmap Z bytes }.

Definition on_q {A} : cmd Q A → cmd osurd_st A :=
  zoom io_q (λ q s, mk_io q (io_tfm s) (io_dev s) (io_mem s)).

(** The memory behind a buffer address (nothing behind a null pointer), and
    memory with that area replaced. *)
Definition buf_area (m : gmap Z bytes) (buf : option (Z * Z)) : bytes :=
  match buf with Some (pg, off) => drop (Z.to_nat off) (default [] (m !! pg)) | None => [] end.
Definition buf_put (m : gmap Z bytes) (buf : option (Z * Z)) (b : bytes) : gmap Z bytes :=
  match buf with
  | Some (pg, off) => match m !! pg with Some l => <[pg := take (Z.to_nat off) l ++ b]> m | None => m end
  | None => m
  end.

(** [osurd_transfer] on a buffer in memory. *)
Definition transfer_buf (sector nsect : Z) (buf : option (Z * Z)) (write : bool) : cmd osurd_st unit := λ s,
  match osurd_transfer sector nsect write (mk_xfer (io_tfm s) (io_dev s) (buf_area (io_mem s) buf)) with
  | Ok x => Ok (tt, mk_io (io_q s) (x_tfm x) (x_dev x) (buf_put (io_mem s) buf (x_buf x)))
  | Fault => Fault
  | Spin => Spin
  end.

(** [while (req != NULL)] of the simple request function. *)
Fixpoint osurd_request_loop (fuel : nat) (req : option Z) : cmd osurd_st unit :=
  match fuel with
  | O => spin
  | S fuel =>
      match req with
      | None => mret tt
      | Some p =>
          r ← on_q (dq_get p);
          if negb (cmd_fs r) then
            _ ← on_q (__blk_end_request_all p (- EIO));
            osurd_request_loop fuel (Some p)
          else
            n ← the (blk_rq_cur_sectors r);
            _ ← transfer_buf (u32 (blk_rq_pos r)) n (rq_buffer r) (rq_write r);
            more ← on_q (__blk_end_request_cur p 0);
            if more : bool then osurd_request_loop fuel (Some p)
            else req ← on_q dq_fetch; osurd_request_loop fuel req
      end
  end.

Definition osurd_request (fuel : nat) : cmd osurd_st unit :=
  req ← on_q dq_fetch; osurd_request_loop fuel req.

(** [bio_for_each_segment] of [osurd_xfer_bio], on the segments from the
    current one on; [nbytes] is [bio_cur_bytes(bio)], the same in every round. *)
Fixpoint xfer_segs (segs : list bio_vec) (sector nbytes : Z) (write : bool) : cmd osurd_st unit :=
  match segs with
  | [] => mret tt
  | v :: segs =>
      _ ← transfer_buf (u32 sector) (Z.shiftr nbytes 9) (Some (bv_page v, bv_offset v)) write;
      xfer_segs segs (u64 (sector + Z.shiftr nbytes 9)) nbytes write
  end.

Definition osurd_xfer_bio (b : bio) : cmd osurd_st Z :=
  match bio_segs b with
  | [] => mret 0
  | _ :: _ =>
      n ← the (bio_cur_bytes b);
      _ ← xfer_segs (bio_segs b) (bi_sector b) n (bi_write b); mret 0
  end.

(** The loop of [osurd_xfer_request] over the bios of a request. *)
Fixpoint xfer_bios (bios : list bio) (nsect : Z) : cmd osurd_st Z :=
  match bios with
  | [] => mret nsect
  | b :: bios => _ ← osurd_xfer_bio b; xfer_bios bios (s32 (nsect + bi_size b / KERNEL_SECTOR_SIZE))
  end.

Definition osurd_xfer_request (r : request) : cmd osurd_st Z := xfer_bios (rq_bio r) 0.

(** [while (req != NULL)] of the clustering request function; the request
    fetched at the end of a round is dropped, as in the code. *)
Fixpoint osurd_full_request_loop (fuel : nat) (req : option Z) : cmd osurd_st unit :=
  match fuel with
  | O => spin
  | S fuel =>
      match req with
      | None => mret tt
      | Some p =>
          r ← on_q (dq_get p);
          if negb (cmd_fs r) then
            _ ← on_q (__blk_end_request_all p (- EIO));
            osurd_full_request_loop fuel req
          else
            _ ← osurd_xfer_request r;
            more ← on_q (__blk_end_request_cur p 0);
            if more : bool then osurd_full_request_loop fuel req
            else _ ← on_q dq_fetch; osurd_full_request_loop fuel req
      end
  end.

Definition osurd_full_request (fuel : nat) : cmd osurd_st unit :=
  req ← on_q dq_fetch; osurd_full_request_loop fuel req.

Definition osurd_make_request (b : bio) : cmd osurd_st Z :=
  status ← osurd_xfer_bio b; _ ← on_q (dq_deliver [bio_endio b status]); mret 0.

End Driver.
#[global] Arguments osurd_st {_} _.
(** On a queue as the driver sees it. *)
Notation osurd_io := (osurd_st blkq).

(** ** Copies between disk and memory *)

(** What the driver promises: a disk of bytes and pages of bytes. *)
Record store2 := mk_store2 { p_disk : Z → option Z; p_mem : Z → Z → option Z }.

Record copy := mk_copy { cp_write : bool; cp_sector : Z; cp_seg : bio_vec }.

(** One segment copied to or from the disk. *)
Definition do_copy (c : copy) (s : store2) : store2 :=
  let '(mk_bvec pg len off) := cp_seg c in
  let at_ := cp_sector c * 512 in
  if cp_write c then
    mk_store2 (λ p, if decide (at_ ≤ p < at_ + len) then p_mem s pg (off + (p - at_)) else p_disk s p) (p_mem s)
  else
    mk_store2 (p_disk s)
      (λ g o, if decide (g = pg ∧ off ≤ o < off + len) then p_disk s (at_ + (o - off)) else p_mem s g o).

Definition do_copies (l : list copy) (s : store2) : store2 := foldl (λ s c, do_copy c s) s l.

(** Stores that hold the same bytes. *)
#[export] Instance store2_equiv : Equiv store2 := λ s s',
  (∀ p, p_disk s p = p_disk s' p) ∧ ∀ g o, p_mem s g o = p_mem s' g o.

#[export] Instance store2_equivalence : Equivalence (≡@{store2}).
Proof.
  split.
  - intros s. split; done.
  - intros s s' [H1 H2]. split; intros; by rewrite ?H1, ?H2.
  - intros s s' s'' [H1 H2] [H3 H4]. split; intros; by rewrite ?H1, ?H2, ?H3, ?H4.
Qed.

#[export] Instance do_copy_proper c : Proper ((≡) ==> (≡)) (do_copy c).
Proof.
  intros s s' [Hd Hm]. destruct c as [w sec [pg len off]]. unfold do_copy. simpl.
  destruct w; split; simpl; intros; try case_decide; auto.
Qed.

#[export] Instance do_copies_proper l : Proper ((≡) ==> (≡)) (do_copies l).
Proof.
  induction l as [|c l IH]; intros s s' Hs; [done|]. simpl. apply IH. by rewrite Hs.
Qed.

Lemma do_copies_app l k s : do_copies (l ++ k) s = do_copies k (do_copies l s).
Proof. apply foldl_app. Qed.

(** Consecutive segments from a sector on. *)
Fixpoint copies_from (w : bool) (sector : Z) (vs : list bio_vec) : list copy :=
  match vs with
  | [] => []
  | v :: vs => mk_copy w sector v :: copies_from w (sector + bv_len v / 512) vs
  end.

Definition rq_copies (r : request) : list copy := copies_from (rq_write r) (rq_sector r) (rq_segs r).

(** ** The data path as copies *)

Section Refine.
Context `{CipherOk}.

(** The disk and memory of a driver state, [data] being the device's array. *)
Definition view {Q} (data : bytes) (s : osurd_st Q) : store2 :=
  mk_store2 (plain (t_ctx (keyed (io_tfm s))) data) (λ pg o, l ← io_mem s !! pg; byte l o).

(** Memory whose pages keep their sizes. *)
Definition same_shape (m m' : gmap Z bytes) : Prop := ∀ pg, length <$> m' !! pg = length <$> m !! pg.

(** A segment of whole sectors inside a page. *)
Definition seg_ok (m : gmap Z bytes) (v : bio_vec) : Prop :=
  0 < bv_len v ∧ bv_len v mod 512 = 0 ∧ 0 ≤ bv_offset v ∧
  ∃ n, length <$> m !! bv_page v = Some n ∧ bv_offset v + bv_len v ≤ Z.of_nat n.

Lemma seg_ok_shape m m' v : same_shape m m' → seg_ok m v → seg_ok m' v.
Proof. intros Hs (? & ? & ? & n & Hn & ?). split_and!; [done..|]. exists n. by rewrite Hs. Qed.

(** What a step of the driver that leaves the queue alone establishes. *)
Record moved {Q} (data : bytes) (s : osurd_st Q) (data' : bytes) (s' : osurd_st Q) (l : list copy) : Prop := {
  mv_q : io_q s' = io_q s;
  mv_dev : dev_ok (io_dev s') data';
  mv_size : dev_size (io_dev s') = dev_size (io_dev s);
  mv_shape : same_shape (io_mem s) (io_mem s');
  mv_view : view data' s' ≡ do_copies l (view data s)
}.

Lemma moved_trans {Q} d1 (s1 : osurd_st Q) d2 s2 d3 s3 l k :
  moved d1 s1 d2 s2 l → moved d2 s2 d3 s3 k → moved d1 s1 d3 s3 (l ++ k).
Proof.
  intros [] []. split; [congruence|done|congruence| |].
  - intros pg. by rewrite mv_shape1.
  - by rewrite mv_view1, mv_view0, do_copies_app.
Qed.

Lemma byte_app_r l k p : Z.of_nat (length l) ≤ p → byte (l ++ k) p = byte k (p - Z.of_nat (length l)).
Proof.
  intros Hp. unfold byte. destruct (Z.leb_spec 0 p), (Z.leb_spec 0 (p - Z.of_nat (length l))); try lia.
  rewrite lookup_app_r by lia. f_equal. lia.
Qed.
Lemma byte_app_l l k p : p < Z.of_nat (length l) → byte (l ++ k) p = byte l p.
Proof. intros Hp. unfold byte. destruct (Z.leb_spec 0 p); [|done]. apply lookup_app_l. lia. Qed.

(** Replacing the part of a page from [off] on. *)
Lemma byte_put off l b p :
  0 ≤ off ≤ Z.of_nat (length l) →
  byte (take (Z.to_nat off) l ++ b) p = if decide (off ≤ p) then byte b (p - off) else byte l p.
Proof.
  intros Hoff. assert (Z.of_nat (length (take (Z.to_nat off) l)) = off) as Hl by (rewrite length_take; lia).
  case_decide.
  - rewrite byte_app_r by lia. by rewrite Hl.
  - rewrite byte_app_l by lia. unfold byte. destruct (Z.leb_spec 0 p); [|done]. apply lookup_take_lt. lia.
Qed.

Lemma byte_drop off l p : 0 ≤ off → 0 ≤ p → byte (drop (Z.to_nat off) l) p = byte l (off + p).
Proof.
  intros. unfold byte. destruct (Z.leb_spec 0 p), (Z.leb_spec 0 (off + p)); try lia.
  rewrite lookup_drop. f_equal. lia.
Qed.

(** A transfer of one segment is one copy. *)
Lemma transfer_seg {Q} data (s : osurd_st Q) v sector w :
  dev_ok (io_dev s) data → seg_ok (io_mem s) v → 0 ≤ sector → sector * 512 + bv_len v ≤ dev_size (io_dev s) →
  ∃ data' s', transfer_buf sector (Z.shiftr (bv_len v) 9) (Some (bv_page v, bv_offset v)) w s = Ok (tt, s') ∧
    moved data s data' s' [mk_copy w sector v].
Proof.
  intros Hd (Hlen & Hmod & Hoff & n & Hpg & Hn) Hsec Hr.
  destruct (io_mem s !! bv_page v) as [l|] eqn:El; [|done]. simpl in Hpg. injection Hpg as <-.
  rewrite Z.shiftr_div_pow2 by lia. change (2 ^ 9) with 512. set (ns := bv_len v / 512).
  assert (ns * 512 = bv_len v) as Hns. { unfold ns. pose proof (Z.div_mod (bv_len v) 512). lia. }
  assert (in_range (io_dev s) sector ns) as Hir by (split_and!; [done|lia|lia]).
  unfold transfer_buf, buf_area. rewrite El. simpl.
  set (x := mk_xfer _ _ _). assert (ns * 512 ≤ Z.of_nat (length (x_buf x))) as Hbuf.
  { simpl. rewrite length_drop. lia. }
  destruct Hd as (Hdd & Hds & Hdm). destruct v as [pg len off]; simpl in *.
  destruct w.
  - destruct (transfer_write x sector ns data) as (data' & -> & Hl' & Hout & Hblk); [done|done|done|].
    exists data'. eexists. split; [reflexivity|]. cbn [x_tfm x_dev x_buf x].
    rewrite El, take_drop, insert_id by done.
    split; cbn [io_q io_dev io_mem]; [done|split_and!; simpl; congruence|done|done|].
    split; [|done]. intros p. simpl.
    rewrite keyed_again, (plain_write _ (x_buf x) data data' sector ns) by (done || lia).
    repeat case_decide; try lia; [|done]. simpl. rewrite El. simpl. rewrite byte_drop by lia. done.
  - destruct (transfer_read x sector ns data) as (buf' & -> & Hl' & Hout & Hblk); [done|done|done|].
    exists data. eexists. split; [reflexivity|]. cbn [x_tfm x_dev x_buf x]. rewrite El.
    simpl in Hl'. rewrite length_drop in Hl'.
    split; cbn [io_q io_dev io_mem]; [done|done|done| |].
    + intros g. destruct (decide (g = pg)) as [->|]; [|by rewrite lookup_insert_ne].
      rewrite lookup_insert_eq, El. simpl. f_equal. rewrite length_app, length_take. lia.
    + split; [intros p; simpl; by rewrite keyed_again|]. intros g o. simpl.
      destruct (decide (g = pg)) as [->|]; [|rewrite lookup_insert_ne by done; case_decide; [lia|done]].
      rewrite lookup_insert_eq, El. simpl. rewrite byte_put by lia.
      case_decide; [|case_decide; [lia|done]].
      rewrite (plain_read (t_ctx (keyed (io_tfm s))) (x_buf x) buf' data sector ns) by (done || lia).
      case_decide; case_decide; try lia; [done|]. simpl. rewrite byte_drop by lia. f_equal. lia.
Qed.

(** Segments that all have the length the driver takes for each of them. *)
Lemma xfer_segs_ok {Q} n w vs : ∀ data (s : osurd_st Q) sector,
  dev_ok (io_dev s) data → Forall (seg_ok (io_mem s)) vs → Forall (λ v, bv_len v = n) vs →
  0 ≤ sector → sector * 512 + lens vs ≤ dev_size (io_dev s) →
  ∃ data' s', xfer_segs vs sector n w s = Ok (tt, s') ∧ moved data s data' s' (copies_from w sector vs).
Proof.
  induction vs as [|v vs IH]; intros data s sector Hd Hv Hn Hs Hr.
  { exists data, s. split; [done|]. by split. }
  apply Forall_cons in Hv as [Hv Hvs], Hn as [<- Hn]. rewrite lens_cons in Hr.
  assert (0 < bv_len v ∧ bv_len v mod 512 = 0) as [Hpos Hmod] by (destruct Hv as (? & ? & _); done).
  assert (0 ≤ lens vs) as Hls.
  { apply lens_nonneg. eapply Forall_impl; [exact Hvs|]. by intros x (? & _). }
  destruct Hd as (Hd1 & Hd2 & Hd3).
  destruct (transfer_seg data s v sector w) as (d1 & s1 & E1 & M1); [done|done|done|lia|].
  assert (bv_len v = 512 * (bv_len v / 512)) as Hdiv by (apply Z.div_exact; lia).
  simpl. rewrite (u32_id sector) by lia. rewrite (bind_ok _ _ _ _ _ E1).
  rewrite Z.shiftr_div_pow2 by lia. change (2 ^ 9) with 512. rewrite u64_id by lia.
  destruct (IH d1 s1 (sector + bv_len v / 512)) as (d2 & s2 & E2 & M2).
  - apply M1.
  - eapply Forall_impl; [exact Hvs|]. intros x. by apply seg_ok_shape, M1.
  - done.
  - lia.
  - rewrite (mv_size _ _ _ _ _ M1). lia.
  - exists d2, s2. split; [done|]. by eapply (moved_trans _ _ _ _ _ _ [_]).
Qed.

(** C28: a bio whose segments all have the same length is carried out as the
    copies it asks for: segment after segment, from its sector on, to the disk
    or from it, and nothing else changes; make_request then ends the bio
    without error. *)
Theorem osurd_make_request_ok data s b :
  dev_ok (io_dev s) data → bio_ok b → Forall (seg_ok (io_mem s)) (bio_segs b) →
  Forall (λ v, Some (bv_len v) = bio_cur_bytes b) (bio_segs b) →
  0 ≤ bi_sector b → bi_sector b * 512 + bi_size b ≤ dev_size (io_dev s) → bi_uptodate b = true →
  ∃ data' s', osurd_make_request b s = Ok (0, s') ∧
    dev_ok (io_dev s') data' ∧
    view data' s' ≡ do_copies (copies_from (bi_write b) (bi_sector b) (bio_segs b)) (view data s) ∧
    bq_ended (io_q s') = bq_ended (io_q s) ++ [(bi_private b, 0)].
Proof.
  intros Hd [Hne Hp Hz] Hv Hn Hs Hr Hup. unfold osurd_make_request, osurd_xfer_bio.
  destruct (bio_segs b) as [|v vs] eqn:Es; [done|]. destruct (bio_cur_ok b v vs Es) as [Hcur _].
  rewrite Hcur in *. rewrite bind_assoc_cmd. run_step. rewrite bind_assoc_cmd.
  destruct (xfer_segs_ok (bv_len v) (bi_write b) (v :: vs) data s (bi_sector b)) as (d' & s' & E & M);
    [done|done| |done|lia|].
  { eapply Forall_impl; [exact Hn|]. by intros x [= ?]. }
  rewrite (bind_ok _ _ _ _ _ E). run_step.
  eexists d', (mk_io _ _ _ _). split; [reflexivity|]. split_and!.
  - apply M.
  - apply M.
  - simpl. rewrite (mv_q _ _ _ _ _ M). unfold bio_endio. simpl. by rewrite Hup.
Qed.

(** ** The simple request function *)

(** A file system request the driver can carry out. *)
Record drv_ok {Q} (s : osurd_st Q) (r : request) : Prop := {
  do_rq : rq_ok r;
  do_fs : cmd_fs r = true;
  do_ref : ref_count r = 1;
  do_sector : 0 ≤ rq_sector r;
  do_range : rq_sector r * 512 + data_len r ≤ dev_size (io_dev s);
  do_segs : Forall (seg_ok (io_mem s)) (rq_segs r);
  do_buffer : rq_buffer r = (λ v, (bv_page v, bv_offset v)) <$> head (rq_segs r)
}.

Lemma drv_ok_mono {Q} (s s' : osurd_st Q) r :
  dev_size (io_dev s') = dev_size (io_dev s) → same_shape (io_mem s) (io_mem s') → drv_ok s r → drv_ok s' r.
Proof.
  intros Hz Hm []. split; try done; [lia|]. eapply Forall_impl; [done|]. intros v. by apply seg_ok_shape.
Qed.

(** Rounds of the loop a request takes. *)
Definition rounds (r : request) : nat := Nat.max 1 (length (rq_segs r)).

(** Copying the current segment of a request, when it has one. *)
Lemma transfer_current {Q} data (s : osurd_st Q) r :
  dev_ok (io_dev s) data → drv_ok s r →
  ∃ n data' s', blk_rq_cur_sectors r = Some n ∧
    transfer_buf (u32 (blk_rq_pos r)) n (rq_buffer r) (rq_write r) s = Ok (tt, s') ∧
    moved data s data' s' (take 1 (rq_copies r)).
Proof.
  intros Hd [Hrq Hfs Href Hsec Hrange Hsegs Hbuf]. pose proof Hd as (Hd1 & Hd2 & Hd3).
  destruct (rq_len r Hrq) as [Hso Hlen]. pose proof (lens_nonneg _ Hso).
  unfold blk_rq_cur_sectors, blk_rq_pos. rewrite (rq_cur r Hrq), Hbuf, u32_id by lia. unfold rq_copies.
  destruct (rq_segs r) as [|v vs] eqn:Es; simpl.
  - destruct (rq_write r).
    + destruct (transfer_write (mk_xfer (io_tfm s) (io_dev s) []) (rq_sector r) 0 data)
        as (d' & E & Hl & Hout & _); [done|split_and!; simpl; lia|done|].
      exists 0, d'. eexists. split; [done|]. unfold transfer_buf, buf_area. rewrite E. split; [reflexivity|].
      split; simpl; [done|split_and!; simpl; congruence|done|done|].
      split; [|done]. intros p. simpl. rewrite keyed_again. unfold plain. f_equal.
      apply read_at_ext; [pose proof blocksize_pos; lia|done|]. intros t Ht. apply Hout. lia.
    + destruct (transfer_read (mk_xfer (io_tfm s) (io_dev s) []) (rq_sector r) 0 data)
        as (b' & E & _); [done|split_and!; simpl; lia|done|].
      exists 0, data. eexists. split; [done|]. unfold transfer_buf, buf_area. rewrite E.
      split; [reflexivity|]. split; simpl; [done|done|done|done|].
      split; [|done]. intros p. simpl. by rewrite keyed_again.
  - apply Forall_cons in Hsegs as [Hv Hvs]. rewrite lens_cons in Hlen.
    assert (0 ≤ lens vs) by (apply Forall_cons in Hso as [_ ?]; by apply lens_nonneg).
    destruct (transfer_seg data s v (rq_sector r) (rq_write r)) as (d' & s' & E & M); [done|done|done|lia|].
    exists (Z.shiftr (bv_len v) 9), d', s'. done.
Qed.

(** What a run over some requests has done at its end. *)
Record drained (data : bytes) (s : osurd_io) (todo : list (Z * request)) (s' : osurd_io) : Prop := {
  dr_queue : bq_queue (io_q s') = [];
  dr_reqs : bq_reqs (io_q s') = foldr delete (bq_reqs (io_q s)) todo.*1;
  dr_ended : bq_ended (io_q s') = bq_ended (io_q s) ++ mjoin (success <$> todo.*2);
  dr_view : ∃ data', dev_ok (io_dev s') data' ∧
    view data' s' ≡ do_copies (mjoin (rq_copies <$> todo.*2)) (view data s)
}.

Lemma drained_step data s d1 s2 l e todo todo' s' :
  view d1 s2 ≡ do_copies l (view data s) → bq_ended (io_q s2) = bq_ended (io_q s) ++ e →
  foldr delete (bq_reqs (io_q s2)) todo'.*1 = foldr delete (bq_reqs (io_q s)) todo.*1 →
  mjoin (success <$> todo.*2) = e ++ mjoin (success <$> todo'.*2) →
  mjoin (rq_copies <$> todo.*2) = l ++ mjoin (rq_copies <$> todo'.*2) →
  drained d1 s2 todo' s' → drained data s todo s'.
Proof.
  intros Hv He Hr Hsu Hc [Hq Hr' He' (d' & Hd & Hv')]. split.
  - done.
  - congruence.
  - by rewrite He', He, Hsu, app_assoc.
  - exists d'. split; [done|]. by rewrite Hv', Hv, Hc, do_copies_app.
Qed.

(** The request after its current segment, as the driver finds it. *)
Lemma drv_ok_next {Q} (s s1 : osurd_st Q) r r' v w vs e :
  drv_ok s r → rq_segs r = v :: w :: vs → updated 0 (bv_len v) r r' true e → rq_segs r' = w :: vs →
  dev_size (io_dev s) < 2 ^ 31 →
  dev_size (io_dev s1) = dev_size (io_dev s) → same_shape (io_mem s) (io_mem s1) →
  drv_ok s1 r' ∧ rq_copies r = [mk_copy (rq_write r) (rq_sector r) v] ++ rq_copies r' ∧
  rounds r = S (rounds r').
Proof.
  intros Hr Es U Es' H31 Hz Hsh. apply (drv_ok_mono s s1 r Hz Hsh) in Hr.
  destruct Hr as [Hrq Hfs Href Hsec Hrange Hsegs Hbuf]. pose proof (up_same _ _ _ _ _ _ U) as Hs.
  injection Hs as Hfs' _ _ Hw' Href'. destruct (rq_len r Hrq) as [Hso Hlen].
  rewrite Es in *. apply Forall_cons in Hsegs as [(Hvp & Hvm & _) Hsegs].
  apply Forall_cons in Hso as [_ Hso]. pose proof (lens_pos _ Hso ltac:(done)) as Hlp.
  rewrite lens_cons in Hlen. assert (bv_len v = 512 * (bv_len v / 512)) as Hdiv by (apply Z.div_exact; lia).
  assert (rq_sector r' = rq_sector r + bv_len v / 512) as Hsec'.
  { rewrite (up_sector _ _ _ _ _ _ U eq_refl), Hfs. simpl. rewrite Z.shiftr_div_pow2 by lia.
    change (2 ^ 9) with 512. apply u64_id. lia. }
  split_and!.
  - split; [apply U|congruence|congruence|lia| |by rewrite Es'|].
    + rewrite (up_len _ _ _ _ _ _ U). lia.
    + apply (up_buffer _ _ _ _ _ _ U eq_refl).
  - unfold rq_copies. rewrite Es, Es', Hsec', Hw'. done.
  - unfold rounds. rewrite Es, Es'. simpl. lia.
Qed.

(** The loop is at the head of [todo], the rest being on the queue. *)
Record ready (data : bytes) (s : osurd_io) (todo : list (Z * request)) : Prop := {
  rd_dev : dev_ok (io_dev s) data;
  rd_queue : bq_queue (io_q s) = tail todo.*1;
  rd_nodup : NoDup todo.*1;
  rd_reqs : Forall (λ '(q, t), bq_reqs (io_q s) !! q = Some t ∧ drv_ok s t) todo
}.

(** Other requests are still there after a round. *)
Lemma others_kept s s2 p (todo : list (Z * request)) :
  p ∉ todo.*1 → (∀ q, q ≠ p → bq_reqs (io_q s2) !! q = bq_reqs (io_q s) !! q) →
  dev_size (io_dev s2) = dev_size (io_dev s) → same_shape (io_mem s) (io_mem s2) →
  Forall (λ '(q, t), bq_reqs (io_q s) !! q = Some t ∧ drv_ok s t) todo →
  Forall (λ '(q, t), bq_reqs (io_q s2) !! q = Some t ∧ drv_ok s2 t) todo.
Proof.
  intros Hp Hq Hz Hsh. rewrite !Forall_forall. intros Hall [q t] Hin. destruct (Hall _ Hin) as [Hl Ht].
  split; [|by apply (drv_ok_mono s)]. rewrite Hq; [done|]. intros ->. apply Hp, list_elem_of_fmap.
  by exists (p, t).
Qed.

Lemma foldr_delete_comm {A} (m : gmap Z A) p l : foldr delete (delete p m) l = delete p (foldr delete m l).
Proof. induction l as [|q l IH]; simpl; [done|]. by rewrite IH, delete_delete. Qed.

(** One round of the loop. *)
Lemma request_round data s p r todo :
  ready data s ((p, r) :: todo) →
  ∃ d1 s2 todo',
    (∀ fuel, osurd_request_loop (S fuel) (Some p) s = osurd_request_loop fuel (head todo'.*1) s2) ∧
    ready d1 s2 todo' ∧
    (sum_list (rounds <$> ((p, r) :: todo).*2) = S (sum_list (rounds <$> todo'.*2)))%nat ∧
    (∀ s', drained d1 s2 todo' s' → drained data s ((p, r) :: todo) s').
Proof.
  intros [Hd Hq Hnd Hall]. csimpl in Hq. csimpl in Hnd. apply Forall_cons in Hall as [[Hp Hr] Hall].
  apply NoDup_cons in Hnd as [Hnin Hnd].
  destruct (transfer_current data s r Hd Hr) as (n & d1 & s1 & En & Et & M).
  assert (on_q (get_rq p) s = Ok (r, s)) as Eg.
  { unfold on_q, get_rq, zoom, mbind, cmd_bind. simpl. rewrite Hp. simpl. by destruct s. }
  pose proof (end_cur_ok p (io_q s) r Hp (do_rq _ _ Hr) ltac:(by rewrite Hq) (do_ref _ _ Hr)) as Hend.
  pose proof (mv_size _ _ _ _ _ M) as Hz.
  pose proof (mv_shape _ _ _ _ _ M) as Hsh. pose proof (mv_view _ _ _ _ _ M) as Hv.
  set (s2 (q : blkq) := mk_io q (io_tfm s1) (io_dev s1) (io_mem s1)).
  assert (∀ a q, __blk_end_request_cur p 0 (io_q s) = Ok (a, q) → ∀ fuel,
    osurd_request_loop (S fuel) (Some p) s =
    (if a then osurd_request_loop fuel (Some p)
     else req ← on_q dq_fetch; osurd_request_loop fuel req) (s2 q)) as Hon.
  { intros a q E fuel. rewrite <- (mv_q _ _ _ _ _ M) in E. simpl.
    rewrite (bind_ok _ _ _ _ _ Eg), (do_fs _ _ Hr), En. simpl. run_step.
    rewrite (bind_ok _ _ _ _ _ Et). assert (on_q (__blk_end_request_cur p 0) s1 = Ok (a, s2 q)) as E'.
    { exact (zoom_ok io_q _ _ s1 a q E). }
    by rewrite (bind_ok _ _ _ _ _ E'). }
  destruct (decide (length (rq_segs r) ≤ 1)%nat) as [Hlast|Hmore].
  - set (q2 := mk_blkq todo.*1 (delete p (bq_reqs (io_q s))) (bq_ended (io_q s) ++ success r)).
    assert (__blk_end_request_cur p 0 (io_q s) = Ok (false, q2)) as E.
    { unfold q2. rewrite <- Hq. destruct (rq_segs r) as [|v [|w vs]]; [done|done|simpl in Hlast; lia]. }
    set (q3 := mk_blkq (tail todo.*1) (bq_reqs q2) (bq_ended q2)).
    exists d1, (s2 q3), todo. split_and!.
    + intros fuel. rewrite (Hon _ _ E). unfold on_q, zoom, mbind, cmd_bind, blk_fetch_request. simpl.
      by destruct todo as [|[p2 r2] todo].
    + split; [apply M|done|done|]. apply (others_kept s (s2 q3) p); [done| |done|done|done].
      intros q Hne. by apply lookup_delete_ne.
    + csimpl. assert (rounds r = 1)%nat as -> by (unfold rounds; lia). done.
    + intros s'. eapply drained_step; [exact Hv|done|apply foldr_delete_comm|by csimpl|]. csimpl.
      f_equal. unfold rq_copies. destruct (rq_segs r) as [|v [|w vs]]; [done|done|simpl in Hlast; lia].
  - destruct (rq_segs r) as [|v [|w vs]] eqn:Es; simpl in Hmore; [lia|lia|].
    destruct Hend as (r' & e & E & U & Es'). set (q2 := mk_blkq _ _ _) in E.
    destruct (drv_ok_next s (s2 q2) r r' v w vs e) as (Hr' & Hc & Hrd); [done..|apply Hd|done|done|].
    exists d1, (s2 q2), ((p, r') :: todo). split_and!.
    + intros fuel. by rewrite (Hon _ _ E).
    + split; [apply M|done|by apply NoDup_cons|]. apply Forall_cons; split.
      * split; [apply lookup_insert_eq|done].
      * apply (others_kept s (s2 q2) p); [done| |done|done|done]. intros q Hne. by apply lookup_insert_ne.
    + csimpl. lia.
    + intros s'. eapply drained_step; [exact Hv|done| | |].
      * csimpl. by rewrite <- !foldr_delete_comm, delete_insert_eq.
      * csimpl. by rewrite (updated_success _ _ _ _ _ U), app_assoc.
      * csimpl. by rewrite Hc.
Qed.

Lemma request_loop_ok fuel : ∀ data s todo,
  ready data s todo → (sum_list (rounds <$> todo.*2) < fuel)%nat →
  ∃ s', osurd_request_loop fuel (head todo.*1) s = Ok (tt, s') ∧ drained data s todo s'.
Proof.
  induction fuel as [|fuel IH]; intros data s todo Hrd Hf; [lia|].
  destruct todo as [|[p r] todo].
  { exists s. split; [done|]. destruct Hrd as [Hd Hq _ _].
    split; [done|done|by rewrite app_nil_r|by exists data]. }
  destruct (request_round data s p r todo Hrd) as (d1 & s2 & todo' & E & Hrd' & Hn & Hdr).
  rewrite Hn in Hf. destruct (IH d1 s2 todo' Hrd') as (s' & E' & Hdr'); [lia|].
  exists s'. split; [|by apply Hdr]. by etrans; [apply E|].
Qed.

(** C10: on a queue of file system requests the simple request function comes to
    an end after as many rounds as the requests have segments, and then: the
    queue is empty, every request is completed once and freed, every bio is
    ended without error, and disk and memory are as after the copies the
    requests ask for, in queue order. *)
Theorem osurd_request_ok data s (todo : list (Z * request)) :
  dev_ok (io_dev s) data → bq_queue (io_q s) = todo.*1 → NoDup todo.*1 →
  Forall (λ '(p, r), bq_reqs (io_q s) !! p = Some r ∧ drv_ok s r) todo →
  ∃ s', osurd_request (S (sum_list (rounds <$> todo.*2))) s = Ok (tt, s') ∧
    bq_queue (io_q s') = [] ∧ bq_reqs (io_q s') = foldr delete (bq_reqs (io_q s)) todo.*1 ∧
    bq_ended (io_q s') = bq_ended (io_q s) ++ mjoin (success <$> todo.*2) ∧
    ∃ data', dev_ok (io_dev s') data' ∧
      view data' s' ≡ do_copies (mjoin (rq_copies <$> todo.*2)) (view data s).
Proof.
  intros Hd Hq Hnd Hall. set (s1 := mk_io (mk_blkq (tail todo.*1) (bq_reqs (io_q s)) (bq_ended (io_q s)))
    (io_tfm s) (io_dev s) (io_mem s)).
  assert (on_q dq_fetch s = Ok (head todo.*1, s1)) as E.
  { unfold on_q, zoom. cbn [dq_fetch blkq_driver]. unfold blk_fetch_request, s1. rewrite Hq.
    destruct todo as [|[p r] todo]; [|done]. destruct s as [[]]. simpl in *. by rewrite Hq. }
  assert (ready data s1 todo) as Hrd.
  { split; [done|done|done|]. eapply Forall_impl; [exact Hall|]. intros [p r] [Hl Hr].
    split; [done|]. by apply (drv_ok_mono s). }
  destruct (request_loop_ok _ data s1 todo Hrd (Nat.lt_succ_diag_r _)) as (s' & E' & [H1 H2 H3 H4]).
  exists s'. unfold osurd_request. by rewrite (bind_ok _ _ _ _ _ E).
Qed.

(** ** Request functions that do not come back *)

(** The clustering request function never returns once there is a request
    on the queue: the request it fetches at the end of a round is dropped, so
    the loop goes on with one that is already completed and freed. *)
Theorem osurd_full_request_stuck fuel s s' :
  bq_queue (io_q s) ≠ [] → osurd_full_request fuel s ≠ Ok (tt, s').
Proof.
  intros Hq. unfold osurd_full_request, mbind, cmd_bind, on_q, zoom. cbn [dq_fetch blkq_driver]. unfold blk_fetch_request.
  destruct (bq_queue (io_q s)) as [|p ps]; [done|]. generalize (mk_io (mk_blkq ps (bq_reqs (io_q s))
    (bq_ended (io_q s))) (io_tfm s) (io_dev s) (io_mem s)). clear Hq.
  induction fuel as [|fuel IH]; intros t; [done|]. simpl. intros E.
  apply bind_inv in E as (r & t1 & _ & E). destruct (negb (cmd_fs r)).
  - apply bind_inv in E as (? & t2 & _ & E). by apply IH in E.
  - apply bind_inv in E as (? & t2 & _ & E). apply bind_inv in E as (more & t3 & _ & E).
    destruct more; [by apply IH in E|]. apply bind_inv in E as (? & t4 & _ & E). by apply IH in E.
Qed.

(** The simple request function never returns when the first request is not
    a file system request: it is completed, but the loop does not fetch the
    next one and goes on with the freed request. *)
Theorem osurd_request_nonfs fuel s s' p ps r :
  bq_queue (io_q s) = p :: ps → bq_reqs (io_q s) !! p = Some r → p ∉ ps → rq_ok r →
  ref_count r = 1 → cmd_fs r = false → osurd_request fuel s ≠ Ok (tt, s').
Proof.
  intros Hq Hp Hnin Hok Href Hfs. unfold osurd_request, mbind at 1, cmd_bind at 1, on_q, zoom. cbn [dq_fetch blkq_driver]. unfold blk_fetch_request.
  rewrite Hq. destruct fuel as [|fuel]; [done|]. set (s1 := mk_io _ _ _ _). simpl.
  assert (∃ q', __blk_end_request_all p (- EIO) (io_q s1) = Ok (tt, q') ∧ bq_reqs q' !! p = None) as (q' & E & Hn).
  { unfold __blk_end_request_all. cbn [dq_get dq_end blkq_driver]. unfold __blk_end_request, get_rq. rewrite !bind_assoc_cmd. run_step. simpl.
    rewrite Hp. run_step. rewrite !bind_assoc_cmd. run_step. simpl. rewrite Hp. run_step.
    destruct (rq_len r Hok) as [Hso Hlen]. pose proof (lens_nonneg _ Hso).
    destruct (blk_update_ok (- EIO) (blk_rq_bytes r) r Hok) as (more & r' & e & E & U);
      [unfold blk_rq_bytes; lia|]. rewrite E. pose proof (up_more _ _ _ _ _ _ U) as Hm.
    pose proof (up_same _ _ _ _ _ _ U) as Hs. injection Hs as _ _ _ _ Href'.
    destruct more; [unfold blk_rq_bytes in Hm; destruct Hm as [Hm _]; specialize (Hm eq_refl); lia|].
    unfold put_rq, deliver. rewrite !bind_assoc_cmd. run_step. rewrite !bind_assoc_cmd. run_step.
    rewrite bind_assoc_cmd. erewrite bind_ok.
    2: { eapply blk_finish_request_ok; [apply lookup_insert_eq|done|simpl; congruence]. }
    eexists. split; [reflexivity|]. apply lookup_delete_eq. }
  assert (on_q (get_rq p) s1 = Ok (r, s1)) as Eg.
  { unfold on_q, get_rq, zoom, mbind, cmd_bind. simpl. by rewrite Hp. }
  rewrite (bind_ok _ _ _ _ _ Eg), Hfs. simpl.
  rewrite (bind_ok _ _ _ _ _ (zoom_ok io_q (λ q s, mk_io q (io_tfm s) (io_dev s) (io_mem s)) _ s1 tt q' E)).
  destruct fuel as [|fuel]; [done|]. simpl. unfold on_q, get_rq, zoom, mbind, cmd_bind. simpl. by rewrite Hn.
Qed.
End Refine.

(** ** Concrete runs *)

(** A device of five sectors, two pages of 4096 sevens, and a request to write
    two sectors of page 1 in two segments, on the queue at address 100. *)
Definition no_segs : bio_seg := mk_bseg 0 0 0 false.
Definition two_segs : bio := mk_bio 1 1024 0 [mk_bvec 1 512 0; mk_bvec 1 512 512] REQ_WRITE true 77 0 no_segs.
Definition two_rq (fs : bool) : request :=
  mk_request (if fs then REQ_TYPE_FS else REQ_TYPE_SPECIAL) REQ_WRITE 1024 1 [two_segs] (Some (1, 0)) 1 0 false 2.
Definition demo_io (fs : bool) : @osurd_st (xor_cipher 5) blkq :=
  @mk_io (xor_cipher 5) blkq (mk_blkq [100] {[100 := two_rq fs]} []) (@mk_tfm (xor_cipher 5) 0 0)
    (mk_dev 2560 (Some (replicate 2560 0))) {[1 := replicate 4096 7; 2 := replicate 4096 8]}.

Lemma two_segs_ok : bio_ok two_segs.
Proof. split; [done| |done]. repeat constructor. Qed.

Lemma two_rq_ok fs : rq_ok (two_rq fs).
Proof. split; [|done|done]. repeat constructor; apply two_segs_ok. Qed.

Lemma demo_segs fs : Forall (seg_ok (io_mem (demo_io fs))) (bio_segs two_segs).
Proof.
  repeat apply Forall_cons_2; [..|apply Forall_nil_2];
    (split_and!; [vm_compute; done..|exists 4096%nat; split; [vm_compute; done|vm_compute; done]]).
Qed.

Lemma blk_update_request_ok_witness :
  ∃ more r' ended, blk_update_request 0 512 (two_rq true) = Ok (more, r', ended) ∧
    blk_rq_pos r' = 2 ∧ length (rq_addrs r') = 512%nat.
Proof.
  destruct (blk_update_request_ok 0 512 (two_rq true) (two_rq_ok true) ltac:(lia))
    as (more & r' & ended & E & _ & Ha & Hm & Hp & _).
  exists more, r', ended. split_and!; [done| |].
  - rewrite Hp; [done| |done]. apply Hm. done.
  - rewrite Ha. vm_compute. done.
Defined.

Lemma osurd_make_request_ok_witness :
  ∃ s' data', osurd_make_request two_segs (demo_io true) = Ok (0, s') ∧
    p_disk (view data' s') 512 = Some 7 ∧ bq_ended (io_q s') = [(77, 0)].
Proof.
  destruct (osurd_make_request_ok (replicate 2560 0) (demo_io true) two_segs) as (d' & s' & E & _ & Hv & He).
  - split_and!; vm_compute; done.
  - apply two_segs_ok.
  - apply demo_segs.
  - repeat constructor.
  - vm_compute; done.
  - vm_compute; done.
  - done.
  - exists s', d'. split_and!; [done| |done]. rewrite (proj1 Hv). vm_compute. done.
Defined.

Lemma osurd_request_ok_witness :
  ∃ s', osurd_request 3 (demo_io true) = Ok (tt, s') ∧ bq_reqs (io_q s') = ∅ ∧
    bq_ended (io_q s') = [(77, 0)] ∧ ∃ data', p_disk (view data' s') 1535 = Some 7.
Proof.
  destruct (osurd_request_ok (replicate 2560 0) (demo_io true) [(100, two_rq true)])
    as (s' & E & _ & Hr & He & d' & _ & Hv).
  - split_and!; vm_compute; done.
  - done.
  - apply NoDup_singleton.
  - apply Forall_singleton. split; [done|].
    split; [apply two_rq_ok|done|done|done|vm_compute; done|apply demo_segs|done].
  - exists s'. split_and!; [exact E|rewrite Hr; by vm_compute|rewrite He; by vm_compute|].
    exists d'. rewrite (proj1 Hv). by vm_compute.
Defined.

Lemma osurd_full_request_stuck_witness :
  osurd_full_request 10 (demo_io true) ≠ Ok (tt, demo_io true).
Proof. apply osurd_full_request_stuck. done. Defined.

Lemma osurd_request_nonfs_witness :
  osurd_request 10 (demo_io false) ≠ Ok (tt, demo_io false).
Proof.
  apply (osurd_request_nonfs 10 (demo_io false) (demo_io false) 100 [] (two_rq false));
    [done|done|apply not_elem_of_nil|apply two_rq_ok|done|done].
Defined.

(** A bio of three sectors from sector 0 on, in segments of 1024 and 512 bytes. *)
Definition uneven : bio := mk_bio 0 1536 0 [mk_bvec 1 1024 0; mk_bvec 2 512 0] REQ_WRITE true 78 0 no_segs.

(** [osurd_xfer_bio] takes the length of the first segment for every
    segment: writing three sectors in segments of two and one sector changes
    the sector behind them as well, and fills it with the bytes of memory
    behind the second segment. *)
Theorem osurd_xfer_bio_overrun :
  bio_ok uneven ∧ lens (bio_segs uneven) = 3 * 512 ∧
  ∃ s' data', osurd_xfer_bio uneven (demo_io true) = Ok (0, s') ∧ dev_data (io_dev s') = Some data' ∧
    p_disk (view (replicate 2560 0) (demo_io true)) (3 * 512) = Some 49 ∧
    p_disk (view data' s') (3 * 512) = Some 8.
Proof.
  split; [split; [done|repeat constructor|done]|]. split; [done|].
  eexists _, _. split; [vm_compute; reflexivity|]. split; [reflexivity|]. split; vm_compute; reflexivity.
Qed.
