(* ===== verification/OsurdDev.v ===== *)
(** * The encrypted RAM disk, its life (project3/osurd.c, block/genhd.c)

    Opening and closing the device with the simulated media change, the
    geometry it reports, and the setting up and tearing down of the module with
    the resources it takes from the kernel.  The theorems show that the data is
    safe while somebody has the device open and erased only after the idle
    time, and what loading and unloading the module leaves behind, failures of
    the allocators included. *)

From stdpp Require Import strings.
From S2P Require Import Prelude Osurd.

(** ** Open, release and the media change *)

Definition HZ : Z := 1000.
Definition INVALIDATE_DELAY : Z := 30 * HZ.

(** The fields of [struct osurd_dev] that open and release work on, with the
    clock; [l_timer] is the expiry time of the timer while it is pending. *)
Record life := mk_life {
  users : Z; media_change : Z; l_timer : option Z; l_dev : osurd_dev; jiffies : Z
}.

Definition osurd_media_changed : cmd life Z := gets media_change.

Definition osurd_revalidate : cmd life Z := λ l,
  if media_change l =? 0 then Ok (0, l)
  else
    match dev_data (l_dev l) with
    | None => Fault
    | Some d => Ok (0, mk_life (users l) 0 (l_timer l)
                         (mk_dev (dev_size (l_dev l)) (Some (replicate (Z.to_nat (dev_size (l_dev l))) 0
                            ++ drop (Z.to_nat (dev_size (l_dev l))) d))) (jiffies l))
    end.

(** [check_disk_change] for a driver with the old [media_changed] method. *)
Definition check_disk_change : cmd life Z :=
  changed ← osurd_media_changed;
  if changed =? 0 then mret 0 else _ ← osurd_revalidate; mret 1.

Definition del_timer_sync_life : cmd life unit :=
  modify (λ l, mk_life (users l) (media_change l) None (l_dev l) (jiffies l)).
Definition set_users (n : Z) : cmd life unit :=
  modify (λ l, mk_life n (media_change l) (l_timer l) (l_dev l) (jiffies l)).

Definition osurd_open : cmd life Z :=
  _ ← del_timer_sync_life;
  l ← gets id;
  _ ← (if users l =? 0 then check_disk_change else mret 0);
  l ← gets id;
  _ ← set_users (s16 (users l + 1));
  mret 0.

Definition add_timer (expires : Z) : cmd life unit := λ l,
  match l_timer l with
  | Some _ => Fault
  | None => Ok (tt, mk_life (users l) (media_change l) (Some expires) (l_dev l) (jiffies l))
  end.

Definition osurd_release : cmd life Z :=
  l ← gets id;
  _ ← set_users (s16 (users l - 1));
  l ← gets id;
  _ ← (if users l =? 0 then add_timer (jiffies l + INVALIDATE_DELAY) else mret tt);
  mret 0.

(** The timer function; the timer is no longer pending when it runs. *)
Definition osurd_invalidate : cmd life unit := λ l,
  Ok (tt, mk_life (users l)
            (if negb (users l =? 0) || bool_decide (dev_data (l_dev l) = None) then media_change l else 1)
            (l_timer l) (l_dev l) (jiffies l)).

Definition osurd_getgeo (d : osurd_dev) : Z * Z * Z * Z :=
  let size := u32 (s32 (dev_size d * (hardsect_size / KERNEL_SECTOR_SIZE))) in
  (u16 (Z.shiftr (Z.land size (Z.lnot 0x3f)) 6), 4, 16, 0).

(** *** Runs

    The number of handles on the device; the block layer serialises open and
    release, and calls release once for each open. *)
Inductive life_step : life * nat → life * nat → Prop :=
| life_open l l' n : Z.of_nat n < 32767 → osurd_open l = Ok (0, l') → life_step (l, n) (l', S n)
| life_release l l' n : osurd_release l = Ok (0, l') → life_step (l, S n) (l', n)
| life_fire l l' n e : l_timer l = Some e → e ≤ jiffies l →
    osurd_invalidate (mk_life (users l) (media_change l) None (l_dev l) (jiffies l)) = Ok (tt, l') →
    life_step (l, n) (l', n)
| life_tick l n :
    life_step (l, n) (mk_life (users l) (media_change l) (l_timer l) (l_dev l) (jiffies l + 1), n).

Definition fresh_life (l : life) : Prop :=
  users l = 0 ∧ media_change l = 0 ∧ l_timer l = None ∧ is_Some (dev_data (l_dev l)).

Definition life_reachable : life * nat → Prop := reachable (λ '(l, n), fresh_life l ∧ n = 0%nat) life_step.

(** Users are counted right, and a device in use has neither a timer running
    nor a media change pending. *)
Definition life_inv (l : life) (n : nat) : Prop :=
  users l = Z.of_nat n ∧ Z.of_nat n ≤ 32767 ∧ is_Some (dev_data (l_dev l)) ∧
  (media_change l = 0 ∨ media_change l = 1) ∧
  ((0 < n)%nat → l_timer l = None ∧ media_change l = 0).

(** The device after [check_disk_change]. *)
Definition erased (l : life) : osurd_dev :=
  match dev_data (l_dev l) with
  | Some d => if media_change l =? 0 then l_dev l
              else mk_dev (dev_size (l_dev l)) (Some (replicate (Z.to_nat (dev_size (l_dev l))) 0
                     ++ drop (Z.to_nat (dev_size (l_dev l))) d))
  | None => l_dev l
  end.

Lemma osurd_open_run l n :
  life_inv l n → Z.of_nat n < 32767 →
  osurd_open l = Ok (0, mk_life (Z.of_nat (S n)) 0 None (if decide (n = 0%nat) then erased l else l_dev l) (jiffies l)).
Proof.
  intros (Hu & Hn & [d Hd] & Hm & Hn0) Hlt. unfold osurd_open, check_disk_change, osurd_media_changed,
    osurd_revalidate, erased, set_users, mbind, cmd_bind, mret, cmd_ret, gets, modify. simpl. rewrite Hu, Hd.
  destruct (Z.eqb_spec (Z.of_nat n) 0); case_decide; try lia; simpl.
  - destruct Hm as [-> | ->]; simpl; rewrite ?Hd; simpl; rewrite s16_id by lia; do 3 f_equal; lia.
  - rewrite s16_id by lia. destruct (Hn0 ltac:(lia)) as [_ ->]. do 3 f_equal; lia.
Qed.

Lemma osurd_release_run l n :
  life_inv l (S n) →
  osurd_release l = Ok (0, mk_life (Z.of_nat n) 0
    (if decide (n = 0%nat) then Some (jiffies l + INVALIDATE_DELAY) else None) (l_dev l) (jiffies l)).
Proof.
  intros (Hu & Hn & [d Hd] & Hm & Hn0). destruct (Hn0 ltac:(lia)) as [Ht Hm0].
  unfold osurd_release, set_users, add_timer, mret, cmd_ret, mbind, cmd_bind, gets, modify. simpl. rewrite Hu, s16_id by lia.
  replace (Z.of_nat (S n) - 1) with (Z.of_nat n) by lia. rewrite Ht, Hm0.
  destruct (Z.eqb_spec (Z.of_nat n) 0); case_decide; try lia; done.
Qed.

Lemma life_inv_step l n l' n' : life_inv l n → life_step (l, n) (l', n') → life_inv l' n'.
Proof.
  intros HI Hs. pose proof HI as (Hu & Hn & [d Hd] & Hm & Hn0). inversion Hs; subst; clear Hs.
  - match goal with H : osurd_open _ = _ |- _ => rewrite (osurd_open_run _ _ HI) in H by done; injection H as <- end.
    split_and!; simpl; [done|lia| |by left|done]. case_decide; [|done].
    unfold erased. rewrite Hd. by destruct (_ =? _).
  - match goal with H : osurd_release _ = _ |- _ => rewrite (osurd_release_run _ _ HI) in H; injection H as <- end.
    split_and!; simpl; [done|lia|done|by left|]. intros. case_decide; [lia|done].
  - match goal with H : osurd_invalidate _ = _ |- _ => injection H as <- end.
    split_and!; simpl; [done|done|done| |].
    + rewrite Hd. destruct (_ || _); [done|by right].
    + intros Hp. destruct (Hn0 Hp). congruence.
  - split_and!; simpl; done.
Qed.

Lemma life_reachable_inv l n : life_reachable (l, n) → life_inv l n.
Proof.
  intros H. assert (∀ s, life_reachable s → life_inv s.1 s.2) as Hall; [|by apply (Hall _ H)].
  apply reachable_inv.
  - intros [l0 n0] [(Hu & Hm & Ht & Hd) ->]. split_and!; simpl; [done|lia|done|by left|lia].
  - intros [] [] _ HI Hs. by eapply life_inv_step.
Qed.

(** C30: in every reachable state the user count equals the number of handles,
    open and release run without a fault (in particular release never adds a
    timer that is already pending), and while the device is open no step of
    open, release or the timer changes its data. *)
Theorem osurd_open_safe l n :
  life_reachable (l, n) →
  users l = Z.of_nat n ∧
  (Z.of_nat n < 32767 → ∃ l', osurd_open l = Ok (0, l') ∧ users l' = users l + 1) ∧
  ((0 < n)%nat → ∃ l', osurd_release l = Ok (0, l') ∧ users l' = users l - 1) ∧
  ((0 < n)%nat → media_change l = 0 ∧ ∀ l' n', life_step (l, n) (l', n') → l_dev l' = l_dev l).
Proof.
  intros Hr. apply life_reachable_inv in Hr as HI. pose proof HI as (Hu & Hn & [d Hd] & Hm & Hn0). split_and!.
  - done.
  - intros Hlt. rewrite (osurd_open_run _ _ HI Hlt). eexists. split; [done|]. simpl. lia.
  - intros Hp. destruct n as [|n]; [lia|]. rewrite (osurd_release_run _ _ HI). eexists. split; [done|]. simpl. lia.
  - intros Hp. destruct (Hn0 Hp) as [Ht Hm0]. split; [done|]. intros l' n' Hs. inversion Hs; subst; clear Hs.
    + match goal with H : osurd_open _ = _ |- _ => rewrite (osurd_open_run _ _ HI) in H by done; injection H as <- end.
      simpl. case_decide; [lia|done].
    + match goal with H : osurd_release _ = _ |- _ => rewrite (osurd_release_run _ _ HI) in H; injection H as <- end.
      done.
    + congruence.
    + done.
Qed.

(** Closing the last handle starts the idle timer, thirty seconds from now;
    opening the device again before it fires cancels it and finds the data as
    it was; once it has fired, the next open finds all bytes zero. *)
Theorem osurd_idle_erase l :
  life_reachable (l, 1%nat) → 0 ≤ dev_size (l_dev l) →
  ∃ l1, osurd_release l = Ok (0, l1) ∧ l_timer l1 = Some (jiffies l + INVALIDATE_DELAY) ∧
    (∃ l2, osurd_open l1 = Ok (0, l2) ∧ l_timer l2 = None ∧ l_dev l2 = l_dev l) ∧
    ∀ t l2, life_step (mk_life (users l1) (media_change l1) (l_timer l1) (l_dev l1) t, 0%nat) (l2, 0%nat) →
      l_timer l2 = None →
      ∃ l3 d, osurd_open l2 = Ok (0, l3) ∧ dev_data (l_dev l3) = Some d ∧
        ∀ p, 0 ≤ p < dev_size (l_dev l) → byte d p = Some 0.
Proof.
  intros Hr Hz. apply life_reachable_inv in Hr as HI. pose proof HI as (Hu & Hn & [d Hd] & Hm & Hn0).
  assert (life_inv (mk_life 0 0 (Some (jiffies l + INVALIDATE_DELAY)) (l_dev l) (jiffies l)) 0) as HI1.
  { split_and!; simpl; [done|lia|done|by left|lia]. }
  set (l1 := mk_life 0 0 (Some (jiffies l + INVALIDATE_DELAY)) (l_dev l) (jiffies l)) in HI1.
  exists l1. split; [by rewrite (osurd_release_run l 0 HI)|]. split; [done|]. split.
  - rewrite (osurd_open_run _ 0 HI1) by lia. eexists. split; [reflexivity|]. simpl. split; [done|].
    unfold erased. simpl. by rewrite Hd.
  - intros t l2 Hs Ht. assert (life_inv l2 0) as HI2.
    { eapply life_inv_step; [|exact Hs]. destruct HI1 as (?&?&?&?&?). by split_and!. }
    rewrite (osurd_open_run _ 0 HI2) by lia. inversion Hs; subst; simpl in *; [|done].
    match goal with H : osurd_invalidate _ = _ |- _ => injection H as <- end.
    eexists _, _. split; [reflexivity|]. unfold erased. simpl. rewrite Hd. simpl. split; [reflexivity|].
    intros p Hp. unfold byte. destruct (Z.leb_spec 0 p); [|lia].
    rewrite lookup_app_l by (rewrite length_replicate; lia). apply lookup_replicate. lia.
Qed.

(** The reported geometry multiplies out to the size in bytes, although
    geometry is counted in sectors: for a disk of [n] sectors it is 512 times
    too large (and the cylinder count wraps from 4 MB on). *)
Theorem osurd_getgeo_bytes n d :
  0 ≤ n → n * 512 < 2 ^ 22 →
  let '(cylinders, heads, sectors, _) := osurd_getgeo (mk_dev (n * 512) d) in
  cylinders * heads * sectors = 512 * n.
Proof.
  intros Hn Hlt. unfold osurd_getgeo, hardsect_size, KERNEL_SECTOR_SIZE. simpl dev_size.
  change (512 / 512) with 1. rewrite Z.mul_1_r, s32_id, u32_id by lia.
  assert (Z.land (n * 512) (Z.lnot 63) = n * 512) as ->.
  { change 63 with (Z.ones 6). rewrite <- Z.ldiff_land, Z.ldiff_ones_r, Z.shiftr_div_pow2, Z.shiftl_mul_pow2 by lia.
    replace (n * 512) with (n * 8 * 2 ^ 6) at 1 by lia. rewrite Z.div_mul by lia. lia. }
  rewrite Z.shiftr_div_pow2 by lia. replace (n * 512) with (n * 8 * 2 ^ 6) by lia. rewrite Z.div_mul by lia.
  rewrite u16_id by lia. lia.
Qed.

(** ** Major numbers (block/genhd.c) *)

Definition BLKDEV_MAJOR_HASH_SIZE : Z := 255.
Definition major_to_index (major : Z) : Z := major mod BLKDEV_MAJOR_HASH_SIZE.

(** [major_names]: chains of majors with the names they are taken by. *)
Notation majors := (gmap Z (list (Z * string))).
Definition chain (t : majors) (index : Z) : list (Z * string) := default [] (t !! index).

(** The highest index from [k] down with an empty chain, 0 if there is none. *)
Fixpoint free_index (t : majors) (k : nat) : Z :=
  match k with
  | O => 0
  | S k' => match chain t (Z.of_nat k) with [] => Z.of_nat k | _ => free_index t k' end
  end.

(** [register_blkdev]; [mem] says whether its kmalloc succeeds. *)
Definition register_blkdev (mem : bool) (major : Z) (name : string) (t : majors) : Z * majors :=
  let '(major, ret) :=
    if major =? 0 then
      let index := free_index t 254 in
      if index =? 0 then (0, - EBUSY) else (index, index)
    else (major, 0) in
  if (ret =? - EBUSY) then (- EBUSY, t)
  else if mem then
    let l := chain t (major_to_index major) in
    if bool_decide (major ∈ l.*1) then (- EBUSY, t)
    else (ret, <[major_to_index major := l ++ [(major, name)]]> t)
  else (- ENOMEM, t).

Fixpoint unlink_major (major : Z) (name : string) (l : list (Z * string)) : list (Z * string) :=
  match l with
  | [] => []
  | (m, s) :: l' => if m =? major then (if String.eqb s name then l' else l)
                    else (m, s) :: unlink_major major name l'
  end.

Definition unregister_blkdev (major : Z) (name : string) (t : majors) : majors :=
  let i := major_to_index major in <[i := unlink_major major name (chain t i)]> t.

Lemma free_index_spec t k :
  0 ≤ free_index t k ≤ Z.of_nat k ∧ (0 < free_index t k → chain t (free_index t k) = []).
Proof.
  induction k as [|k [IH1 IH2]]; [done|]. cbn [free_index].
  destruct (chain t (Z.of_nat (S k))) eqn:E; [split; [lia|done]|]. split; [lia|done].
Qed.

Lemma unlink_snoc major name l :
  major ∉ l.*1 → unlink_major major name (l ++ [(major, name)]) = l.
Proof.
  induction l as [|[m s] l IH]; intros Hn; simpl.
  - by rewrite Z.eqb_refl, String.eqb_refl.
  - csimpl in Hn. apply not_elem_of_cons in Hn as [Hne Hn]. destruct (Z.eqb_spec m major); [congruence|].
    by rewrite IH.
Qed.

(** Asking for any major succeeds when one is free. *)
Lemma register_any name t :
  0 < free_index t 254 → ∃ ret t', register_blkdev true 0 name t = (ret, t') ∧ 0 < ret.
Proof.
  intros Hfree. unfold register_blkdev. rewrite Z.eqb_refl.
  destruct (free_index_spec t 254) as [_ Hc]. specialize (Hc Hfree).
  assert (free_index t 254 ≤ 254) as Hle by (pose proof (proj1 (free_index_spec t 254)); lia).
  generalize dependent (free_index t 254). intros idx Hpos Hc Hle.
  destruct (Z.eqb_spec idx 0); [lia|]. destruct (Z.eqb_spec idx (- EBUSY)); [unfold EBUSY in *; lia|].
  assert (major_to_index idx = idx) as -> by (apply Z.mod_small; unfold BLKDEV_MAJOR_HASH_SIZE; lia).
  rewrite Hc. rewrite bool_decide_eq_false_2 by apply not_elem_of_nil. eauto.
Qed.

Lemma register_blkdev_spec mem major name t :
  0 ≤ major →
  let '(ret, t') := register_blkdev mem major name t in
  let got := if major =? 0 then ret else major in
  (ret < 0 ∧ t' = t) ∨
  (0 ≤ ret ∧ (major = 0 → 1 ≤ ret ≤ 254) ∧ (major ≠ 0 → ret = 0) ∧
   (got, name) ∈ chain t' (major_to_index got) ∧
   ∀ i, chain (unregister_blkdev got name t') i = chain t i).
Proof.
  intros Hm. unfold register_blkdev.
  assert (∀ major ret, major ∉ (chain t (major_to_index major)).*1 → 0 ≤ ret →
    let t' := <[major_to_index major := chain t (major_to_index major) ++ [(major, name)]]> t in
    (major, name) ∈ chain t' (major_to_index major) ∧
    ∀ i, chain (unregister_blkdev major name t') i = chain t i) as Hreg.
  { intros m ret Hnin _. simpl. unfold chain at 1. rewrite lookup_insert_eq. split; [set_solver|].
    intros i. unfold unregister_blkdev. unfold chain at 2. rewrite lookup_insert_eq. simpl.
    rewrite unlink_snoc by done. unfold chain at 1. rewrite insert_insert_eq.
    destruct (decide (i = major_to_index m)) as [->|]; [by rewrite lookup_insert_eq|].
    by rewrite lookup_insert_ne. }
  destruct (Z.eqb_spec major 0) as [->|Hne].
  - destruct (free_index_spec t 254) as [Hr Hc]. set (idx := free_index t 254) in *. clearbody idx.
    change (Z.of_nat 254) with 254 in Hr.
    destruct (Z.eqb_spec idx 0); [by left|]. destruct (Z.eqb_spec idx (- EBUSY)); [unfold EBUSY in *; lia|].
    destruct mem; [|by left].
    assert (major_to_index idx = idx) as Hi by (apply Z.mod_small; unfold BLKDEV_MAJOR_HASH_SIZE; lia).
    rewrite Hi, Hc by lia. simpl.
    right. specialize (Hreg idx idx). rewrite Hi, Hc in Hreg by lia. simpl in Hreg.
    destruct Hreg as [H1 H2]; [apply not_elem_of_nil|lia|]. by split_and!; try lia; rewrite ?Hi.
  - simpl. destruct mem; [|by left]. case_bool_decide as Hin; [by left|].
    right. destruct (Hreg major 0 Hin) as [H1 H2]; [lia|]. by split_and!.
Qed.

(** [register_blkdev] returns a fresh major in 1..254 when asked for any,
    0 when given the one it asked for, and a negative error with the table
    unchanged otherwise; after success the major is taken under the name, and
    unregistering it gives back the chains as they were. *)
Theorem register_blkdev_ok mem major name t :
  0 ≤ major →
  let '(ret, t') := register_blkdev mem major name t in
  let got := if major =? 0 then ret else major in
  (ret < 0 ∧ t' = t) ∨
  (0 ≤ ret ∧ (major = 0 → 1 ≤ ret ≤ 254) ∧ (major ≠ 0 → ret = 0) ∧
   (got, name) ∈ chain t' (major_to_index got) ∧
   ∀ i, chain (unregister_blkdev got name t') i = chain t i).
Proof. apply register_blkdev_spec. Qed.

(** ** Loading and unloading the module *)

(** What the kernel's allocators answer, per device where it matters. *)
Class OsurdEnv := {
  crypto_ok : bool;             (* crypto_alloc_cipher *)
  major_mem : bool;             (* the kmalloc of register_blkdev *)
  devices_mem : bool;           (* the kmalloc of the device array *)
  vmalloc_ok : nat → bool;
  queue_ok : nat → bool;        (* blk_alloc_queue, blk_init_queue *)
  disk_ok : nat → bool          (* alloc_disk *)
}.

(** Things that are taken from the kernel and have to be given back. *)
Inductive res := RTfm | RDevices | RData (i : nat) | RQueue (i : nat) | RDisk (i : nat).

#[export] Instance res_eq_dec : EqDecision res.
Proof. solve_decision. Defined.
#[export] Instance res_countable : Countable res.
Proof.
  refine (inj_countable' (λ r, match r with
    | RTfm => inl (inl ()) | RDevices => inl (inr ())
    | RData i => inr (inl i) | RQueue i => inr (inr (inl i)) | RDisk i => inr (inr (inr i)) end)
    (λ x, match x with
    | inl (inl _) => RTfm | inl (inr _) => RDevices
    | inr (inl i) => RData i | inr (inr (inl i)) => RQueue i | inr (inr (inr i)) => RDisk i end) _).
  by intros [].
Defined.

(** A slot of the device array: the pointers that are not null, and whether the
    timer was initialised ([memset] leaves it with a null base). *)
Record slot := mk_slot { sl_data : bool; sl_timer : bool; sl_queue : bool; sl_gd : bool }.

Record osurd_mod := mk_mod {
  m_majors : majors; m_major : Z; m_devices : list slot; m_live : gset res
}.

Definition osurd_name : string := "osurd".

Definition take_res (r : res) : cmd osurd_mod unit :=
  modify (λ m, mk_mod (m_majors m) (m_major m) (m_devices m) ({[r]} ∪ m_live m)).
(** Giving back something that is not held faults. *)
Definition give_back (r : res) : cmd osurd_mod unit :=
  m ← gets id;
  _ ← check (bool_decide (r ∈ m_live m));
  modify (λ m, mk_mod (m_majors m) (m_major m) (m_devices m) (m_live m ∖ {[r]})).
Definition set_slot (i : nat) (s : slot) : cmd osurd_mod unit :=
  modify (λ m, mk_mod (m_majors m) (m_major m) (<[i := s]> (m_devices m)) (m_live m)).
Definition set_majors (t : majors) (n : Z) : cmd osurd_mod unit :=
  modify (λ m, mk_mod t n (m_devices m) (m_live m)).

(** [lock_timer_base] waits for a timer base for ever when there is none. *)
Definition del_timer_sync (s : slot) : cmd osurd_mod unit := if sl_timer s then mret tt else spin.

Section Module.
Context `{OsurdEnv}.

(** [setup_device]; the label [out_vfree] gives the array back and leaves the
    pointer to it in place. *)
Definition setup_device (i : nat) : cmd osurd_mod unit :=
  _ ← set_slot i (mk_slot false false false false);
  if vmalloc_ok i then
    _ ← take_res (RData i);
    if queue_ok i then
      _ ← take_res (RQueue i);
      if disk_ok i then
        _ ← take_res (RDisk i);
        set_slot i (mk_slot true true true true)
      else _ ← set_slot i (mk_slot true true true false); give_back (RData i)
    else _ ← set_slot i (mk_slot true true false false); give_back (RData i)
  else mret tt.

Fixpoint setup_devices (i n : nat) : cmd osurd_mod unit :=
  match n with
  | O => mret tt
  | S n => _ ← setup_device i; setup_devices (S i) n
  end.

Definition osurd_init (ndevices : nat) : cmd osurd_mod Z :=
  _ ← (if crypto_ok then take_res RTfm else mret tt);
  m ← gets id;
  let '(ret, t) := register_blkdev major_mem (m_major m) osurd_name (m_majors m) in
  _ ← set_majors t ret;
  if ret <=? 0 then mret (- EBUSY)
  else if devices_mem then
    _ ← take_res RDevices;
    _ ← modify (λ m, mk_mod (m_majors m) (m_major m) (replicate ndevices (mk_slot false false false false)) (m_live m));
    _ ← setup_devices 0 ndevices; mret 0
  else
    m ← gets id;
    _ ← set_majors (unregister_blkdev (m_major m) osurd_name (m_majors m)) (m_major m);
    mret (- ENOMEM).

Definition exit_device (i : nat) : cmd osurd_mod unit :=
  m ← gets id;
  s ← the (m_devices m !! i);
  _ ← del_timer_sync s;
  _ ← (if sl_gd s then give_back (RDisk i) else mret tt);
  _ ← (if sl_queue s then give_back (RQueue i) else mret tt);
  if sl_data s then give_back (RData i) else mret tt.

Fixpoint exit_devices (i n : nat) : cmd osurd_mod unit :=
  match n with
  | O => mret tt
  | S n => _ ← exit_device i; exit_devices (S i) n
  end.

Definition osurd_exit (ndevices : nat) : cmd osurd_mod unit :=
  _ ← give_back RTfm;
  _ ← exit_devices 0 ndevices;
  m ← gets id;
  _ ← set_majors (unregister_blkdev (m_major m) osurd_name (m_majors m)) (m_major m);
  give_back RDevices.

(** *** Setting up *)

(** What [setup_device] leaves of a device, and what it holds. *)
Definition slot_of (i : nat) : slot :=
  if vmalloc_ok i then mk_slot true true (queue_ok i) (queue_ok i && disk_ok i)
  else mk_slot false false false false.
Definition holds (i : nat) : gset res :=
  if vmalloc_ok i then
    (if queue_ok i && disk_ok i then {[RData i; RDisk i]} else ∅) ∪ (if queue_ok i then {[RQueue i]} else ∅)
  else ∅.

Definition mod_live (m : osurd_mod) (X : gset res) : osurd_mod :=
  mk_mod (m_majors m) (m_major m) (m_devices m) X.

Lemma setup_device_ok i m :
  (∀ r, r ∈ holds i ∪ {[RData i]} → r ∉ m_live m) → (i < length (m_devices m))%nat →
  setup_device i m =
    Ok (tt, mk_mod (m_majors m) (m_major m) (<[i := slot_of i]> (m_devices m)) (m_live m ∪ holds i)).
Proof.
  intros Hfr Hi. unfold setup_device, slot_of, holds, give_back, set_slot, take_res, modify, check, gets,
    mbind, cmd_bind, mret, cmd_ret in *. simpl.
  destruct (vmalloc_ok i); [|simpl; do 3 f_equal; set_solver].
  destruct (queue_ok i); simpl; [destruct (disk_ok i); simpl|];
    rewrite ?bool_decide_eq_true_2 by set_solver; simpl; rewrite ?list_insert_insert_eq; do 3 f_equal; set_solver.
Qed.

Definition held (i n : nat) : gset res := ⋃ (holds <$> seq i n).

Lemma holds_index i r : r ∈ holds i → r = RData i ∨ r = RQueue i ∨ r = RDisk i.
Proof. unfold holds. repeat case_match; set_solver. Qed.

(** No resource of a device from [i] on is held. *)
Definition clear_from (i : nat) (X : gset res) : Prop :=
  ∀ j, (i ≤ j)%nat → RData j ∉ X ∧ RQueue j ∉ X ∧ RDisk j ∉ X.

Lemma setup_devices_ok n : ∀ i m,
  clear_from i (m_live m) → length (m_devices m) = (i + n)%nat →
  setup_devices i n m =
    Ok (tt, mk_mod (m_majors m) (m_major m) (take i (m_devices m) ++ (slot_of <$> seq i n)) (m_live m ∪ held i n)).
Proof.
  induction n as [|n IH]; intros i m Hc Hl; cbn [setup_devices].
  - unfold held. simpl. rewrite mret_ok. do 2 f_equal. destruct m as [t mj ds X]. simpl in *.
    f_equal; [|set_solver]. rewrite app_nil_r, take_ge by lia. done.
  - rewrite (bind_ok _ _ _ _ _ (setup_device_ok i m ltac:(
      intros r Hr; destruct (Hc i ltac:(lia)) as (?&?&?);
      apply elem_of_union in Hr as [Hr%holds_index|Hr%elem_of_singleton]; naive_solver) ltac:(lia))).
    rewrite IH; simpl.
    + do 3 f_equal; [|unfold held; simpl; set_solver].
      rewrite (take_S_r _ _ (slot_of i)) by (apply list_lookup_insert_eq; lia).
      by rewrite take_insert_ge, <- app_assoc by lia.
    + intros j Hj. destruct (Hc j ltac:(lia)) as (?&?&?).
      split_and!; (rewrite elem_of_union; intros [?|HH%holds_index]; naive_solver lia).
    + rewrite length_insert. lia.
Qed.

(** *** Tearing down *)

(** Device [j] is set up, and exactly its own resources are held for it. *)
Definition owned (m : osurd_mod) (j : nat) : Prop :=
  m_devices m !! j = Some (slot_of j) ∧
  ∀ r, r = RData j ∨ r = RQueue j ∨ r = RDisk j → r ∈ m_live m ↔ r ∈ holds j.

Definition dev_good (i : nat) : bool := vmalloc_ok i && queue_ok i && disk_ok i.

Lemma exit_device_good i m :
  owned m i → dev_good i = true → exit_device i m = Ok (tt, mod_live m (m_live m ∖ holds i)).
Proof.
  intros [Hs Ho] Hg. unfold dev_good in Hg. apply andb_prop in Hg as [[Hv Hq]%andb_prop Hd].
  unfold slot_of, holds in *. rewrite Hv, Hq, Hd in *. simpl in *.
  assert (RData i ∈ m_live m ∧ RQueue i ∈ m_live m ∧ RDisk i ∈ m_live m) as (H1 & H2 & H3).
  { split_and!; (apply Ho; [by auto|set_solver]). }
  unfold exit_device, del_timer_sync, give_back, modify, check, gets, mbind, cmd_bind, mret, cmd_ret.
  simpl. rewrite Hs. simpl. rewrite bool_decide_eq_true_2 by done. simpl.
  rewrite bool_decide_eq_true_2 by set_solver. simpl. rewrite bool_decide_eq_true_2 by set_solver. simpl.
  do 2 f_equal. unfold mod_live. f_equal. set_solver.
Qed.

Lemma exit_device_bad i m :
  owned m i → dev_good i = false → exit_device i m = if vmalloc_ok i then Fault else Spin.
Proof.
  intros [Hs Ho] Hg. unfold dev_good in Hg.
  unfold exit_device, del_timer_sync, give_back, modify, check, gets, mbind, cmd_bind, mret, cmd_ret.
  simpl. rewrite Hs. unfold slot_of, holds in *. destruct (vmalloc_ok i); [|done]. simpl in *. rewrite Hg in *.
  assert (RData i ∉ m_live m) as Hn.
  { rewrite Ho by auto. destruct (queue_ok i); set_solver. }
  destruct (queue_ok i); simpl in *.
  - assert (RQueue i ∈ m_live m) as Hq by (apply Ho; [by auto|set_solver]).
    rewrite bool_decide_eq_true_2 by done. simpl. rewrite bool_decide_eq_false_2 by set_solver. done.
  - by rewrite bool_decide_eq_false_2.
Qed.

Lemma owned_other m i j X :
  i ≠ j → owned m j → X ⊆ holds i → owned (mod_live m (m_live m ∖ X)) j.
Proof.
  intros Hne [Hs Ho] HX. split; [done|]. intros r Hr. simpl. rewrite <- (Ho r Hr), elem_of_difference.
  split; [tauto|]. intros ?. split; [done|]. intros Hin%HX%holds_index. naive_solver.
Qed.

(** What unloading does with the devices from [i] on. *)
Definition exit_outcome (i n : nat) (m : osurd_mod) : outcome (unit * osurd_mod) :=
  match list_find (λ j, dev_good j = false) (seq i n) with
  | None => Ok (tt, mod_live m (m_live m ∖ held i n))
  | Some (_, j) => if vmalloc_ok j then Fault else Spin
  end.

Lemma exit_devices_ok n : ∀ i m,
  (∀ j, (i ≤ j < i + n)%nat → owned m j) → exit_devices i n m = exit_outcome i n m.
Proof.
  induction n as [|n IH]; intros i m Ho; unfold exit_outcome; simpl.
  - rewrite mret_ok. do 2 f_equal. unfold held. simpl. destruct m; unfold mod_live; simpl. f_equal. set_solver.
  - destruct (decide (dev_good i = false)) as [Hb|Hb%not_false_is_true].
    + unfold mbind, cmd_bind. rewrite exit_device_bad by (done || (apply Ho; lia)). by destruct (vmalloc_ok i).
    + rewrite (bind_ok _ _ _ _ _ (exit_device_good i m (Ho i ltac:(lia)) Hb)). rewrite IH.
      * unfold exit_outcome. destruct (list_find _ (seq (S i) n)) as [[? j]|]; simpl; [done|].
        do 2 f_equal. unfold mod_live. simpl. f_equal. unfold held. simpl. set_solver.
      * intros j Hj. apply (owned_other m i j); [lia|apply Ho; lia|done].
Qed.

(** The module before it is loaded: no major asked for, nothing held. *)
Definition unloaded (m : osurd_mod) : Prop := m_major m = 0 ∧ m_live m = ∅.

Lemma held_spec i n r : r ∈ held i n ↔ ∃ j, (i ≤ j < i + n)%nat ∧ r ∈ holds j.
Proof.
  unfold held. rewrite elem_of_union_list. split.
  - intros (X & (j & -> & Hj%elem_of_seq)%list_elem_of_fmap & Hr). eauto.
  - intros (j & Hj & Hr). exists (holds j). split; [|done]. apply list_elem_of_fmap_2, elem_of_seq. lia.
Qed.

(** The module after a successful load. *)
Definition loaded (n : nat) (t : majors) (ret : Z) : osurd_mod :=
  mk_mod t ret (slot_of <$> seq 0 n) ({[RDevices; RTfm]} ∪ held 0 n).

Lemma osurd_init_ok n m t ret :
  unloaded m → crypto_ok = true → major_mem = true → devices_mem = true →
  register_blkdev true 0 osurd_name (m_majors m) = (ret, t) → 0 < ret →
  osurd_init n m = Ok (0, loaded n t ret).
Proof.
  intros [Hmj Hlv] Hcr Hmm Hdm Er Hret. unfold osurd_init. rewrite Hcr. unfold take_res. do 2 run_step. simpl.
  rewrite Hmj, Hmm, Er. unfold set_majors. run_step. simpl. destruct (Z.leb_spec ret 0); [lia|]. rewrite Hdm.
  do 2 run_step. simpl. erewrite bind_ok.
  2: { apply setup_devices_ok; simpl; [|apply length_replicate]. intros j _. rewrite Hlv. set_solver. }
  rewrite mret_ok. do 2 f_equal. simpl. unfold loaded. f_equal. rewrite Hlv. set_solver.
Qed.

Lemma loaded_owned n t ret j :
  (0 ≤ j < 0 + n)%nat → owned (mod_live (loaded n t ret) (m_live (loaded n t ret) ∖ {[RTfm]})) j.
Proof.
  intros Hj. split.
  - cbn [mod_live m_devices loaded]. rewrite list_lookup_fmap, lookup_seq_lt by lia. done.
  - intros r Hr. cbn [mod_live m_live loaded]. rewrite elem_of_difference, elem_of_union, held_spec. split.
    + intros [[HH|(k & Hk & Hin)] _]; [set_solver|]. apply holds_index in Hin as Hin'.
      assert (k = j) as -> by naive_solver. done.
    + intros Hin. split; [|set_solver]. right. exists j. split; [lia|done].
Qed.

Lemma osurd_exit_ok n t ret :
  match list_find (λ j, dev_good j = false) (seq 0 n) with
  | None => osurd_exit n (loaded n t ret) =
              Ok (tt, mk_mod (unregister_blkdev ret osurd_name t) ret (slot_of <$> seq 0 n) ∅)
  | Some (_, j) => osurd_exit n (loaded n t ret) = if vmalloc_ok j then Fault else Spin
  end.
Proof.
  set (m1 := mod_live (loaded n t ret) (m_live (loaded n t ret) ∖ {[RTfm]})).
  assert (give_back RTfm (loaded n t ret) = Ok (tt, m1)) as Eg.
  { unfold give_back, check, gets, mbind, cmd_bind, modify. simpl. rewrite bool_decide_eq_true_2 by set_solver. done. }
  pose proof (exit_devices_ok n 0 m1 (loaded_owned n t ret)) as Ex. unfold osurd_exit.
  rewrite (bind_ok _ _ _ _ _ Eg). unfold exit_outcome in Ex. destruct (list_find _ (seq 0 n)) as [[? j]|].
  { unfold mbind at 1, cmd_bind at 1. rewrite Ex. by destruct (vmalloc_ok j). }
  rewrite (bind_ok _ _ _ _ _ Ex). run_step. unfold set_majors. run_step.
  assert (RDevices ∉ held 0 n) as Hn.
  { rewrite held_spec. intros (k & _ & Hk%holds_index). naive_solver. }
  unfold give_back, check, gets, mbind, cmd_bind, modify. simpl. rewrite bool_decide_eq_true_2 by set_solver.
  simpl. do 3 f_equal. set_solver.
Qed.

(** C33: loading the module and unloading it again.  When every allocation
    succeeds, unloading gives back everything that loading took, the major
    number included.  Otherwise the first device that was not set up completely
    decides: if its array was not allocated, unloading waits for ever on its
    uninitialised timer; if its queue or disk was not, unloading frees its
    array a second time. *)
Theorem osurd_load_unload n m :
  unloaded m → crypto_ok = true → major_mem = true → devices_mem = true → 0 < free_index (m_majors m) 254 →
  ∃ m1, osurd_init n m = Ok (0, m1) ∧
    match list_find (λ j, dev_good j = false) (seq 0 n) with
    | None => ∃ m2, osurd_exit n m1 = Ok (tt, m2) ∧ m_live m2 = ∅ ∧
                ∀ i, chain (m_majors m2) i = chain (m_majors m) i
    | Some (_, j) => osurd_exit n m1 = if vmalloc_ok j then Fault else Spin
    end.
Proof.
  intros Hu Hcr Hmm Hdm Hfree.
  pose proof (register_blkdev_spec true 0 osurd_name (m_majors m) (Z.le_refl 0)) as Hun.
  destruct (register_any osurd_name (m_majors m) Hfree) as (ret & t & Er & Hret). rewrite Er in Hun.
  destruct Hun as [[? _]|(_ & _ & _ & _ & Hun)]; [lia|]. rewrite Z.eqb_refl in Hun.
  exists (loaded n t ret). split; [by apply osurd_init_ok|].
  pose proof (osurd_exit_ok n t ret) as Ex. destruct (list_find _ (seq 0 n)) as [[? j]|]; [done|].
  eexists. split; [exact Ex|]. done.
Qed.

(** The failing paths of loading: the cipher handle is never given back,
    and a major number given as a module parameter is taken for a failure
    although it was registered, and stays registered. *)
Theorem osurd_init_failures n m :
  crypto_ok = true → m_live m = ∅ → 0 ≤ m_major m →
  let '(ret, t) := register_blkdev major_mem (m_major m) osurd_name (m_majors m) in
  (ret ≤ 0 → ∃ m1, osurd_init n m = Ok (- EBUSY, m1) ∧ m_live m1 = {[RTfm]} ∧ m_majors m1 = t) ∧
  (0 < ret → devices_mem = false → ∃ m1, osurd_init n m = Ok (- ENOMEM, m1) ∧ m_live m1 = {[RTfm]}) ∧
  (0 < m_major m → ret ≤ 0).
Proof.
  intros Hcr Hlv Hmj. pose proof (register_blkdev_spec major_mem (m_major m) osurd_name (m_majors m) Hmj) as Hreg.
  destruct (register_blkdev major_mem (m_major m) osurd_name (m_majors m)) as [ret t] eqn:Er. split_and!.
  - intros Hle. unfold osurd_init. rewrite Hcr. unfold take_res. run_step. run_step. simpl. rewrite Er.
    unfold set_majors. run_step. simpl. destruct (Z.leb_spec ret 0); [|lia].
    eexists. split; [reflexivity|]. simpl. split; [set_solver|done].
  - intros Hlt Hdm. unfold osurd_init. rewrite Hcr. unfold take_res. run_step. run_step. simpl. rewrite Er.
    unfold set_majors. run_step. simpl. destruct (Z.leb_spec ret 0); [lia|]. rewrite Hdm. run_step. run_step.
    eexists. split; [reflexivity|]. simpl. set_solver.
  - intros Hpos. destruct Hreg as [[? _]|(_ & _ & Hz & _)]; [lia|]. rewrite Hz; lia.
Qed.
End Module.

(** ** Concrete runs *)

Definition demo_life (n : Z) : life := mk_life n 0 None (mk_dev 4 (Some [1; 2; 3; 4])) 0.

Lemma demo_life_open : life_reachable (demo_life 1, 1%nat).
Proof.
  apply (reach_step _ _ (demo_life 0, 0%nat)); [|by apply life_open].
  apply reach_init. split; [|done]. split_and!; [done..|by eexists].
Qed.

Lemma osurd_open_safe_witness :
  users (demo_life 1) = Z.of_nat 1 ∧ ∃ l', osurd_release (demo_life 1) = Ok (0, l') ∧ users l' = 0.
Proof.
  destruct (osurd_open_safe (demo_life 1) 1 demo_life_open) as (Hu & _ & Hr & _). split; [exact Hu|].
  destruct (Hr (Nat.lt_0_succ 0)) as (l' & E & Hl). exists l'. split; [exact E|]. rewrite Hl. done.
Defined.

Lemma osurd_idle_erase_witness :
  ∃ l1 l2 l3 d, osurd_release (demo_life 1) = Ok (0, l1) ∧ media_change l2 = 1 ∧
    osurd_open l2 = Ok (0, l3) ∧ dev_data (l_dev l3) = Some d ∧ byte d 2 = Some 0.
Proof.
  destruct (osurd_idle_erase (demo_life 1) demo_life_open ltac:(simpl; lia)) as (l1 & E & Ht & _ & Hf).
  vm_compute in E. injection E as <-.
  destruct (Hf 40000 (mk_life 0 1 None (mk_dev 4 (Some [1; 2; 3; 4])) 40000)) as (l3 & d & Eo & Ed & Hz).
  - apply (life_fire _ _ _ 30000); [done|simpl; lia|done].
  - done.
  - eexists _, (mk_life 0 1 None (mk_dev 4 (Some [1; 2; 3; 4])) 40000), l3, d. split; [vm_compute; reflexivity|]. split; [reflexivity|].
    split; [exact Eo|]. split; [exact Ed|]. apply Hz. simpl. lia.
Defined.

Lemma osurd_getgeo_bytes_witness :
  let '(cylinders, heads, sectors, _) := osurd_getgeo (mk_dev (1024 * 512) None) in
  cylinders * heads * sectors = 512 * 1024.
Proof. apply (osurd_getgeo_bytes 1024 None); lia. Defined.

Lemma register_blkdev_ok_witness :
  let '(ret, t') := register_blkdev true 0 osurd_name ∅ in
  ret = 254 ∧ (254, osurd_name) ∈ chain t' 254.
Proof.
  pose proof (register_blkdev_ok true 0 osurd_name ∅ (Z.le_refl 0)) as Hr.
  destruct (register_blkdev true 0 osurd_name ∅) as [ret t'] eqn:E. vm_compute in E. injection E as <- <-.
  destruct Hr as [[? _]|(_ & _ & _ & Hin & _)]; [done|]. split; [done|exact Hin].
Defined.

(** Everything succeeds but the queue of device [bad] and the array of device [none]. *)
Definition demo_env (bad none : nat) (mem : bool) : OsurdEnv := {|
  crypto_ok := true; major_mem := true; devices_mem := mem;
  vmalloc_ok i := negb (Nat.eqb i none); queue_ok i := negb (Nat.eqb i bad); disk_ok _ := true
|}.
Definition demo_mod (major : Z) : osurd_mod := mk_mod ∅ major [] ∅.

Lemma osurd_load_unload_witness :
  ∃ m1, @osurd_init (demo_env 2 9 true) 4 (demo_mod 0) = Ok (0, m1) ∧
        @osurd_exit 4 m1 = Fault.
Proof.
  destruct (@osurd_load_unload (demo_env 2 9 true) 4 (demo_mod 0)) as (m1 & E & Hx);
    [done|done|done|done|by vm_compute|].
  exists m1. split; [exact E|]. exact Hx.
Defined.

Lemma osurd_init_failures_witness :
  ∃ m1, @osurd_init (demo_env 9 9 true) 4 (demo_mod 240) = Ok (- EBUSY, m1) ∧ m_live m1 = {[RTfm]} ∧
    chain (m_majors m1) 240 = [(240, osurd_name)].
Proof.
  pose proof (@osurd_init_failures (demo_env 9 9 true) 4 (demo_mod 240) eq_refl eq_refl ltac:(simpl; lia)) as Hf.
  destruct (register_blkdev major_mem (m_major (demo_mod 240)) osurd_name (m_majors (demo_mod 240)))
    as [ret t] eqn:Er.
  vm_compute in Er. injection Er as <- <-. destruct Hf as [Hf _]. destruct (Hf (Z.le_refl 0)) as (m1 & E & Hl & Ht).
  exists m1. split; [exact E|]. split; [exact Hl|]. rewrite Ht. by vm_compute.
Defined.
