(* ===== verification/Elevator.v ===== *)
(** * The elevator and the queue of requests (block/elevator.c, blk-merge.c, blk-core.c)

    A bio that reaches the queue is merged into a request that waits, or becomes
    a request of its own, which the elevator hands to the I/O scheduler; the
    driver fetches requests from the dispatch queue and completes them.  The
    scheduler is a record of functions, as in [struct elevator_ops]; the lists,
    the hash for merging and the fields of the queue it works on are those of
    Sstf.

    Left out: flush requests (a queue without [flush_flags], such as the one of
    the RAM disk, gets none), integrity data, tags, timeouts, preparation by the
    driver, bounce pages, the sleeping in [get_request_wait], priorities and
    statistics. *)

From stdpp Require Import functions.
From S2P Require Import Prelude BlkTypes BlkRequest ListHead Sstf.

(** ** State *)

(** [struct queue_limits], and the flags and thresholds of the queue. *)
Class QueueLimits := {
  queue_max_sectors : Z;
  queue_max_hw_sectors : Z;
  queue_max_segments : Z;
  queue_max_segment_size : Z;
  queue_segment_boundary : Z;
  queue_bounce_pfn : Z;
  blk_queue_cluster : bool;
  blk_queue_nomerges : bool;
  blk_queue_noxmerges : bool;
  blk_queue_io_stat : bool;
  blk_queue_discard : bool;
  blk_queue_secdiscard : bool;
  nr_requests : Z
}.

(** Where the list heads are, and what [list_entry] on something that is not a
    request reads. *)
Class QueuePlace := {
  nd_at : Z;                  (* &nd->queue *)
  head_at : Z;                (* &q->queue_head *)
  stray_sector : Z → Z;
  stray_flags : Z → Z;
  stray_position : Z → Z
}.

(** [struct request_list], by [is_sync], with the flags QUEUE_FLAG_SYNCFULL and
    QUEUE_FLAG_ASYNCFULL. *)
Record request_list := mk_rl {
  rl_count : bool → Z; rl_starved : bool → bool; rl_elvpriv : Z; rl_full : bool → bool
}.

(** [struct request_queue]; [q_ended] are the bios handed back so far. *)
Record rqueue := mk_rqueue {
  q_io : ioq;                 (* lists, nr_sorted, end_sector, last_merge, hash *)
  q_rqs : gmap Z request;     (* the requests, by address *)
  boundary_rq : Z;
  in_flight : bool → Z;
  q_rl : request_list;
  q_ended : list completion
}.
Notation qM := (cmd rqueue).

Definition set_io (io : ioq) (s : rqueue) : rqueue :=
  mk_rqueue io (q_rqs s) (boundary_rq s) (in_flight s) (q_rl s) (q_ended s).
Definition set_rqs (m : gmap Z request) (s : rqueue) : rqueue :=
  mk_rqueue (q_io s) m (boundary_rq s) (in_flight s) (q_rl s) (q_ended s).
Definition set_boundary (b : Z) (s : rqueue) : rqueue :=
  mk_rqueue (q_io s) (q_rqs s) b (in_flight s) (q_rl s) (q_ended s).
Definition set_in_flight (f : bool → Z) (s : rqueue) : rqueue :=
  mk_rqueue (q_io s) (q_rqs s) (boundary_rq s) f (q_rl s) (q_ended s).
Definition set_rl (rl : request_list) (s : rqueue) : rqueue :=
  mk_rqueue (q_io s) (q_rqs s) (boundary_rq s) (in_flight s) rl (q_ended s).
Definition set_ended (e : list completion) (s : rqueue) : rqueue :=
  mk_rqueue (q_io s) (q_rqs s) (boundary_rq s) (in_flight s) (q_rl s) e.

(** Fields of the queue that Sstf keeps. *)
Definition io_sorted (d : Z) (s : ioq) : ioq :=
  mk_ioq (lists_mem s) (enqueue s) (queue_count s) (u32 (nr_sorted s + d)) (end_sector s) (last_merge s) (rq_hash s).
Definition io_end (e : Z) (s : ioq) : ioq :=
  mk_ioq (lists_mem s) (enqueue s) (queue_count s) (nr_sorted s) e (last_merge s) (rq_hash s).
Definition io_last (p : Z) (s : ioq) : ioq :=
  mk_ioq (lists_mem s) (enqueue s) (queue_count s) (nr_sorted s) (end_sector s) p (rq_hash s).
Definition io_hash (h : list (Z * Z)) (s : ioq) : ioq :=
  mk_ioq (lists_mem s) (enqueue s) (queue_count s) (nr_sorted s) (end_sector s) (last_merge s) h.

Definition modify_io (f : ioq → ioq) : qM unit := modify (λ s, set_io (f (q_io s)) s).
Definition on_list {A} (c : cmd lmem A) : qM A := zoom q_io set_io (on_lists c).

Definition rq_get (p : Z) : qM request := λ s, the (q_rqs s !! p) s.
Definition rq_put (p : Z) (r : request) : qM unit := modify (λ s, set_rqs (<[p := r]> (q_rqs s)) s).
Definition rq_alter (f : request → request) (p : Z) : qM unit := r ← rq_get p; rq_put p (f r).

(** Fields of a request and of a bio. *)
Definition with_flags (f : Z) (r : request) : request :=
  mk_request (cmd_type r) f (data_len r) (rq_sector r) (rq_bio r) (rq_buffer r) (ref_count r) (rq_disk r)
    (rq_special r) (nr_phys_segments r).
Definition with_bios (bs : list bio) (r : request) : request :=
  mk_request (cmd_type r) (rq_flags r) (data_len r) (rq_sector r) bs (rq_buffer r) (ref_count r) (rq_disk r)
    (rq_special r) (nr_phys_segments r).
Definition with_len (n : Z) (r : request) : request :=
  mk_request (cmd_type r) (rq_flags r) n (rq_sector r) (rq_bio r) (rq_buffer r) (ref_count r) (rq_disk r)
    (rq_special r) (nr_phys_segments r).
Definition with_start (b : bio) (r : request) : request :=
  mk_request (cmd_type r) (rq_flags r) (data_len r) (bi_sector b) (rq_bio r) (bio_data b) (ref_count r) (rq_disk r)
    (rq_special r) (nr_phys_segments r).
Definition with_segs (n : Z) (r : request) : request :=
  mk_request (cmd_type r) (rq_flags r) (data_len r) (rq_sector r) (rq_bio r) (rq_buffer r) (ref_count r) (rq_disk r)
    (rq_special r) n.
Definition add_flags (f : Z) (r : request) : request := with_flags (Z.lor (rq_flags r) f) r.
Definition del_flags (f : Z) (r : request) : request := with_flags (Z.land (rq_flags r) (Z.lnot f)) r.
Definition with_rw (rw : Z) (b : bio) : bio :=
  mk_bio (bi_sector b) (bi_size b) (bi_idx b) (bi_io_vec b) rw (bi_uptodate b) (bi_private b) (bi_disk b) (bi_seg b).
Definition with_seg (g : bio_seg) (b : bio) : bio :=
  mk_bio (bi_sector b) (bi_size b) (bi_idx b) (bi_io_vec b) (bi_rw b) (bi_uptodate b) (bi_private b) (bi_disk b) g.

(** Change the first and the last bio of a chain. *)
Definition on_head (f : bio → bio) (bs : list bio) : list bio :=
  match bs with [] => [] | b :: bs => f b :: bs end.
Fixpoint on_last (f : bio → bio) (bs : list bio) : list bio :=
  match bs with [] => [] | [b] => [f b] | b :: bs => b :: on_last f bs end.

(** ** Macros of blkdev.h and elevator.h *)

Definition RQ_NOMERGE_FLAGS : Z := Z.lor REQ_NOMERGE (Z.lor REQ_STARTED (Z.lor REQ_SOFTBARRIER (Z.lor REQ_FLUSH REQ_FUA))).
Definition rq_mergeable (r : request) : bool := negb (flagged (rq_flags r) RQ_NOMERGE_FLAGS) && (rq_discard r || cmd_fs r).
Definition blk_account_rq (r : request) : bool := flagged (rq_flags r) REQ_STARTED && (cmd_fs r || rq_discard r).
Definition rw_is_sync (rw_flags : Z) : bool := negb (flagged rw_flags REQ_WRITE) || flagged rw_flags REQ_SYNC.
Definition rq_is_sync (r : request) : bool := rw_is_sync (rq_flags r).
Definition same_bits (mask x y : Z) : bool := Z.land x mask =? Z.land y mask.

(** [rq_end_sector] and [rq_hash_key], which are the same. *)
Definition rq_hash_key (r : request) : Z := u64 (blk_rq_pos r + blk_rq_sectors r).

Definition hash_32 (val bits : Z) : Z := Z.shiftr (u32 (u32 val * 0x9e370001)) (32 - bits).
Definition ELV_HASH_FN (sec : Z) : Z := hash_32 (Z.shiftr sec 3) 6.

Definition ELEVATOR_FRONT_MERGE : Z := 1.
Definition ELEVATOR_BACK_MERGE : Z := 2.

Inductive insert_where :=
  | ELEVATOR_INSERT_FRONT | ELEVATOR_INSERT_BACK | ELEVATOR_INSERT_SORT | ELEVATOR_INSERT_REQUEUE
  | ELEVATOR_INSERT_SORT_MERGE.

(** ** The scheduler *)

(** [struct elevator_ops], without the hooks that neither SSTF nor noop has. *)
Record elevator_ops := mk_ops {
  elevator_merge_req_fn : option (IoEnv → Z → Z → ioM unit);
  elevator_allow_merge_fn : option (Z → bio → Z);
  elevator_dispatch_fn : IoEnv → ioM Z;
  elevator_add_req_fn : IoEnv → Z → ioM unit;
  elevator_former_req_fn : option (IoEnv → Z → ioM Z);
  elevator_latter_req_fn : option (IoEnv → Z → ioM Z)
}.

(** ** Physical segments (block/blk-merge.c) *)

Section Segments.
Context `{QueueLimits}.

Definition bvec_to_phys (v : bio_vec) : Z := u64 (bv_page v * 4096 + bv_offset v).
Definition BIOVEC_PHYS_MERGEABLE (v1 v2 : bio_vec) : bool := u64 (bvec_to_phys v1 + bv_len v1) =? bvec_to_phys v2.
Definition BIOVEC_SEG_BOUNDARY (v1 v2 : bio_vec) : bool :=
  Z.lor (bvec_to_phys v1) queue_segment_boundary =?
  Z.lor (u64 (bvec_to_phys v2 + bv_len v2 - 1)) queue_segment_boundary.

(** The variables of [__blk_recalc_rq_segments]; [sc_front] is
    [fbio->bi_seg_front_size]. *)
Record scan := mk_scan { sc_nr : Z; sc_size : Z; sc_prv : option bio_vec; sc_highprv : bool; sc_front : Z }.

(** Does segment [v] go on where the one before it ends? *)
Definition seg_joins (size : Z) (prv : option bio_vec) (v : bio_vec) : bool :=
  match prv with
  | None => false
  | Some p => negb (queue_max_segment_size <? u32 (size + bv_len v)) && BIOVEC_PHYS_MERGEABLE p v && BIOVEC_SEG_BOUNDARY p v
  end.

(** One round of [bio_for_each_segment]. *)
Definition scan_seg (c : scan) (v : bio_vec) : scan :=
  let high := queue_bounce_pfn <? bv_page v in
  if negb (high || sc_highprv c) && blk_queue_cluster && seg_joins (sc_size c) (sc_prv c) v then
    mk_scan (sc_nr c) (u32 (sc_size c + bv_len v)) (Some v) (sc_highprv c) (sc_front c)
  else
    mk_scan (sc_nr c + 1) (bv_len v) (Some v) high
      (if (sc_nr c =? 1) && (sc_front c <? sc_size c) then sc_size c else sc_front c).

Definition __blk_recalc_rq_segments (segs : list bio_vec) (front : Z) : scan :=
  foldl scan_seg (mk_scan 0 0 None true front) segs.

Definition blk_recount_segments (b : bio) : bio :=
  let c := __blk_recalc_rq_segments (bio_segs b) (seg_front_size (bi_seg b)) in
  let back := seg_back_size (bi_seg b) in
  with_seg (mk_bseg (sc_nr c) (if (sc_nr c =? 1) && (sc_front c <? sc_size c) then sc_size c else sc_front c)
              (if back <? sc_size c then sc_size c else back) true) b.

(** [if (!bio_flagged(bio, BIO_SEG_VALID)) blk_recount_segments(q, bio);] *)
Definition recount (b : bio) : bio := if seg_valid (bi_seg b) then b else blk_recount_segments b.

Definition blk_phys_contig_segment {S} (b nxt : bio) : cmd S bool :=
  if negb blk_queue_cluster then mret false
  else if queue_max_segment_size <? u32 (seg_back_size (bi_seg b) + seg_front_size (bi_seg nxt)) then mret false
  else if bool_decide (bi_vcnt b = 0%nat) then mret true
  else
    v1 ← the (last (bi_io_vec b)); v2 ← the (bio_iovec nxt);
    mret (BIOVEC_PHYS_MERGEABLE v1 v2 && BIOVEC_SEG_BOUNDARY v1 v2).

(** Give up merging with request [p]. *)
Definition no_merge (p : Z) : qM unit :=
  rq_alter (add_flags REQ_NOMERGE) p ;;
  modify_io (λ io, if decide (last_merge io = p) then io_last 0 io else io).

Definition ll_new_hw_segment (p : Z) (b : bio) : qM bool :=
  r ← rq_get p;
  let n := nr_phys_segments r + seg_phys (bi_seg b) in
  if queue_max_segments <? n then no_merge p ;; mret false
  else rq_put p (with_segs (u16 n) r) ;; mret true.

(** The number of sectors a request may have, an [unsigned short]. *)
Definition merge_limit (r : request) : Z :=
  u16 (if bool_decide (cmd_type r = REQ_TYPE_BLOCK_PC) then queue_max_hw_sectors else queue_max_sectors).

(** These return the bio with its segments counted. *)
Definition ll_back_merge_fn (p : Z) (b : bio) : qM (bool * bio) :=
  r ← rq_get p;
  if merge_limit r <? u32 (blk_rq_sectors r + bio_sectors b) then no_merge p ;; mret (false, b)
  else
    rq_put p (with_bios (on_last recount (rq_bio r)) r) ;;
    ok ← ll_new_hw_segment p (recount b);
    mret (ok, recount b).

Definition ll_front_merge_fn (p : Z) (b : bio) : qM (bool * bio) :=
  r ← rq_get p;
  if merge_limit r <? u32 (blk_rq_sectors r + bio_sectors b) then no_merge p ;; mret (false, b)
  else
    rq_put p (with_bios (on_head recount (rq_bio r)) r) ;;
    ok ← ll_new_hw_segment p (recount b);
    mret (ok, recount b).

Definition set_front_size (n : Z) (b : bio) : bio :=
  with_seg (mk_bseg (seg_phys (bi_seg b)) n (seg_back_size (bi_seg b)) (seg_valid (bi_seg b))) b.
Definition set_back_size (n : Z) (b : bio) : bio :=
  with_seg (mk_bseg (seg_phys (bi_seg b)) (seg_front_size (bi_seg b)) n (seg_valid (bi_seg b))) b.

Definition ll_merge_requests_fn (req next : Z) : qM bool :=
  r ← rq_get req; n ← rq_get next;
  tail ← the (last (rq_bio r)); hd ← the (head (rq_bio n));
  let seg_size := u32 (seg_back_size (bi_seg tail) + seg_front_size (bi_seg hd)) in
  if rq_special r || rq_special n then mret false
  else if queue_max_sectors <? u32 (blk_rq_sectors r + blk_rq_sectors n) then mret false
  else
    contig ← blk_phys_contig_segment tail hd;
    let total := nr_phys_segments r + nr_phys_segments n - (if contig : bool then 1 else 0) in
    (if contig && (nr_phys_segments r =? 1)
     then rq_alter (λ r, with_bios (on_head (set_front_size seg_size) (rq_bio r)) r) req else mret tt) ;;
    (if contig && (nr_phys_segments n =? 1)
     then rq_alter (λ n, with_bios (on_last (set_back_size seg_size) (rq_bio n)) n) next else mret tt) ;;
    if queue_max_segments <? total then mret false
    else rq_alter (with_segs (u16 total)) req ;; mret true.
End Segments.

Definition blk_rq_set_mixed_merge (r : request) : request :=
  if flagged (rq_flags r) REQ_MIXED_MERGE then r
  else
    let ff := Z.land (rq_flags r) REQ_FAILFAST_MASK in
    add_flags REQ_MIXED_MERGE (with_bios ((λ b, with_rw (Z.lor (bi_rw b) ff) b) <$> rq_bio r) r).

Section Elevator.
Context `{QueueLimits} `{QueuePlace}.

(** The queue as the scheduler sees it. *)
Definition env_of (m : gmap Z request) : IoEnv := {|
  nd_queue := nd_at;
  queue_head := head_at;
  sector := λ p, match m !! p with Some r => blk_rq_pos r | None => stray_sector p end;
  cmd_flags := λ p, match m !! p with Some r => rq_flags r | None => stray_flags p end;
  position := stray_position
|}.

Definition on_sched {A} (c : IoEnv → ioM A) : qM A := λ s, zoom q_io set_io (c (env_of (q_rqs s))) s.

(** ** The hash of requests by their end (block/elevator.c) *)

Definition hashed (p : Z) (h : list (Z * Z)) : bool := bool_decide (p ∈ h.*2).
Definition hash_del (p : Z) (h : list (Z * Z)) : list (Z * Z) := filter (λ e, e.2 ≠ p) h.
Definition chain (b : Z) (h : list (Z * Z)) : list Z := (filter (λ e, e.1 = b) h).*2.

Definition __elv_rqhash_del (p : Z) : qM unit := modify_io (λ io, io_hash (hash_del p (rq_hash io)) io).

Definition elv_rqhash_add (p : Z) : qM unit :=
  r ← rq_get p; h ← gets (λ s, rq_hash (q_io s));
  check (negb (hashed p h)) ;;
  modify_io (io_hash ((ELV_HASH_FN (rq_hash_key r), p) :: h)).

Definition elv_rqhash_reposition (p : Z) : qM unit := __elv_rqhash_del p ;; elv_rqhash_add p.

(** [hlist_for_each_entry_safe] of [elv_rqhash_find]; 0 is NULL. *)
Fixpoint rqhash_walk (offset : Z) (ps : list Z) : qM Z :=
  match ps with
  | [] => mret 0
  | p :: ps =>
      h ← gets (λ s, rq_hash (q_io s));
      check (hashed p h) ;;
      r ← rq_get p;
      if negb (rq_mergeable r) then __elv_rqhash_del p ;; rqhash_walk offset ps
      else if rq_hash_key r =? offset then mret p
      else rqhash_walk offset ps
  end.

Definition elv_rqhash_find (offset : Z) : qM Z :=
  h ← gets (λ s, rq_hash (q_io s)); rqhash_walk offset (chain (ELV_HASH_FN offset) h).

(** ** Requests and their number (block/blk-core.c) *)

Definition __freed_request (sync : bool) (rl : request_list) : request_list :=
  if rl_count rl sync + 1 <=? nr_requests
  then mk_rl (rl_count rl) (rl_starved rl) (rl_elvpriv rl) (<[sync := false]> (rl_full rl)) else rl.

Definition freed_request (sync priv : bool) (rl : request_list) : request_list :=
  let rl := __freed_request sync
              (mk_rl (<[sync := rl_count rl sync - 1]> (rl_count rl)) (rl_starved rl)
                 (if priv then rl_elvpriv rl - 1 else rl_elvpriv rl) (rl_full rl)) in
  if rl_starved rl (negb sync) then __freed_request (negb sync) rl else rl.

Definition elv_completed_request (p : Z) : qM unit :=
  r ← rq_get p;
  if blk_account_rq r
  then modify (λ s, set_in_flight (<[rq_is_sync r := u32 (in_flight s (rq_is_sync r) - 1)]> (in_flight s)) s)
  else mret tt.

(** [blk_free_request]: the memory goes back to the pool. *)
Definition blk_free_request (p : Z) : qM unit :=
  modify (λ s, set_rqs (delete p (q_rqs s)) (set_io (set_mem (delete p (lists_mem (q_io s))) (q_io s)) s)).

Definition __blk_put_request (p : Z) : qM unit :=
  rq_alter (λ r, set_ref_count (s32 (ref_count r - 1)) r) p ;;
  r ← rq_get p;
  if negb (ref_count r =? 0) then mret tt
  else
    elv_completed_request p ;;
    if flagged (rq_flags r) REQ_ALLOCED then
      empty ← on_list (list_empty p);
      check empty ;;
      h ← gets (λ s, rq_hash (q_io s));
      check (negb (hashed p h)) ;;
      blk_free_request p ;;
      modify (λ s, set_rl (freed_request (rq_is_sync r) (flagged (rq_flags r) REQ_ELVPRIV) (q_rl s)) s)
    else mret tt.

(** [blk_rq_init] and the rest of [blk_alloc_request] on the memory at [p].  The
    type of the request, which is zero here and no type at all in the code, is
    set by [init_request_from_bio]. *)
Definition blk_alloc_request (p flags : Z) : qM unit :=
  modify (λ s, set_io (set_mem (<[p := mk_list_head p p]> (lists_mem (q_io s))) (q_io s)) s) ;;
  rq_put p (mk_request REQ_TYPE_FS (Z.lor (Z.lor flags REQ_ALLOCED) REQ_ELVPRIV) 0 (u64 (-1)) [] None 1 0 false 0).

Definition queue_congestion_on_threshold : Z := Z.min (nr_requests - nr_requests / 8 + 1) nr_requests.

(** [get_request] for a bio without REQ_FLUSH and REQ_FUA: [batching] is what
    [ioc_batching] answers and [mem] what the pool gives; 0 is NULL. *)
Definition get_request (rw_flags : Z) (batching : bool) (mem : option Z) : qM Z :=
  let sync := rw_is_sync rw_flags in
  rl ← gets q_rl;
  let count := rl_count rl sync in
  let fills := (queue_congestion_on_threshold <=? count + 1) && (nr_requests <=? count + 1) in
  if fills && rl_full rl sync && negb batching then mret 0
  else
    let full := if fills then <[sync := true]> (rl_full rl) else rl_full rl in
    if 3 * nr_requests / 2 <=? count then modify (set_rl (mk_rl (rl_count rl) (rl_starved rl) (rl_elvpriv rl) full)) ;; mret 0
    else
      modify (set_rl (mk_rl (<[sync := count + 1]> (rl_count rl)) (<[sync := false]> (rl_starved rl)) (rl_elvpriv rl + 1) full)) ;;
      match mem with
      | Some p => blk_alloc_request p (if blk_queue_io_stat then Z.lor rw_flags REQ_IO_STAT else rw_flags) ;; mret p
      | None =>
          modify (λ s, set_rl (freed_request sync true (q_rl s)) s) ;;
          modify (λ s, let rl := q_rl s in
                       set_rl (mk_rl (rl_count rl)
                                 (if rl_count rl sync =? 0 then <[sync := true]> (rl_starved rl) else rl_starved rl)
                                 (rl_elvpriv rl) (rl_full rl)) s) ;;
          mret 0
      end.

Definition REQ_COMMON_MASK : Z :=
  Z.lor REQ_WRITE (Z.lor REQ_FAILFAST_MASK (Z.lor REQ_SYNC (Z.lor REQ_META (Z.lor REQ_DISCARD
    (Z.lor REQ_NOIDLE (Z.lor REQ_FLUSH (Z.lor REQ_FUA REQ_SECURE))))))).

(** [blk_rq_bio_prep] *)
Definition blk_rq_bio_prep (b : bio) (r : request) : request :=
  let b' := if bool_decide (bi_vcnt b = 0%nat) then b else recount b in
  mk_request (cmd_type r) (Z.lor (rq_flags r) (Z.land (bi_rw b) REQ_WRITE)) (bi_size b) (rq_sector r) [b']
    (if bool_decide (bi_vcnt b = 0%nat) then rq_buffer r else bio_data b) (ref_count r) (bi_disk b) (rq_special r)
    (if bool_decide (bi_vcnt b = 0%nat) then nr_phys_segments r else u16 (seg_phys (bi_seg b'))).

Definition init_request_from_bio (b : bio) (r : request) : request :=
  let flags := Z.lor (rq_flags r) (Z.land (bi_rw b) REQ_COMMON_MASK) in
  let flags := if flagged (bi_rw b) REQ_RAHEAD then Z.lor flags REQ_FAILFAST_MASK else flags in
  blk_rq_bio_prep b
    (mk_request REQ_TYPE_FS flags (data_len r) (bi_sector b) (rq_bio r) (rq_buffer r) (ref_count r) (rq_disk r)
       (rq_special r) (nr_phys_segments r)).

(** [__make_request] at [get_rq], as far as it succeeds at once; 0 when the task
    has to wait for a request and try again. *)
Definition make_request_get (b : bio) (batching : bool) (mem : option Z) : qM Z :=
  let rw_flags := Z.lor (Z.land (bi_rw b) REQ_WRITE) (if flagged (bi_rw b) REQ_SYNC then REQ_SYNC else 0) in
  p ← get_request rw_flags batching mem;
  if p =? 0 then mret 0 else rq_alter (init_request_from_bio b) p ;; mret p.

(** ** Merging (block/elevator.c, blk-merge.c) *)

Variable ops : elevator_ops.

Definition elv_iosched_allow_merge (p : Z) (b : bio) : bool :=
  match elevator_allow_merge_fn ops with Some f => negb (f p b =? 0) | None => true end.

Definition elv_rq_merge_ok (p : Z) (b : bio) : qM bool :=
  r ← rq_get p;
  if negb (rq_mergeable r) then mret false
  else
    f ← the (head (rq_bio r));
    if negb (same_bits REQ_DISCARD (bi_rw b) (bi_rw f)) then mret false
    else if negb (same_bits REQ_SECURE (bi_rw b) (bi_rw f)) then mret false
    else if negb (same_bits REQ_WRITE (bi_rw b) (rq_flags r)) then mret false
    else if negb (rq_disk r =? bi_disk b) || rq_special r then mret false
    else mret (elv_iosched_allow_merge p b).

Definition elv_try_merge (p : Z) (b : bio) : qM Z :=
  ok ← elv_rq_merge_ok p b;
  r ← rq_get p;
  if negb ok then mret ELEVATOR_NO_MERGE
  else if u64 (blk_rq_pos r + blk_rq_sectors r) =? bi_sector b then mret ELEVATOR_BACK_MERGE
  else if u64 (blk_rq_pos r - bio_sectors b) =? bi_sector b then mret ELEVATOR_FRONT_MERGE
  else mret ELEVATOR_NO_MERGE.

(** The kind of merge, and the request (0 when there is none). *)
Definition elv_merge (b : bio) : qM (Z * Z) :=
  if blk_queue_nomerges then mret (ELEVATOR_NO_MERGE, 0)
  else
    last ← gets (λ s, last_merge (q_io s));
    ret ← (if last =? 0 then mret ELEVATOR_NO_MERGE else elv_try_merge last b);
    if negb (ret =? ELEVATOR_NO_MERGE) then mret (ret, last)
    else if blk_queue_noxmerges then mret (ELEVATOR_NO_MERGE, 0)
    else
      p ← elv_rqhash_find (bi_sector b);
      ok ← (if p =? 0 then mret false else elv_rq_merge_ok p b);
      mret (if ok : bool then (ELEVATOR_BACK_MERGE, p) else (ELEVATOR_NO_MERGE, 0)).

Definition elv_merged_request (p type : Z) : qM unit :=
  (if type =? ELEVATOR_BACK_MERGE then elv_rqhash_reposition p else mret tt) ;;
  modify_io (io_last p).

Definition elv_merge_requests (req next : Z) : qM unit :=
  n ← rq_get next;
  let next_sorted := flagged (rq_flags n) REQ_SORTED in
  (match elevator_merge_req_fn ops with
   | Some f => if next_sorted then on_sched (λ env, f env req next) else mret tt
   | None => mret tt
   end) ;;
  elv_rqhash_reposition req ;;
  (if next_sorted then __elv_rqhash_del next ;; modify_io (io_sorted (-1)) else mret tt) ;;
  modify_io (io_last req).

Definition attempt_merge (req next : Z) : qM bool :=
  r ← rq_get req; n ← rq_get next;
  if negb (rq_mergeable r) || negb (rq_mergeable n) then mret false
  else if negb (same_bits REQ_DISCARD (rq_flags r) (rq_flags n)) then mret false
  else if negb (same_bits REQ_SECURE (rq_flags r) (rq_flags n)) then mret false
  else if negb (u64 (blk_rq_pos r + blk_rq_sectors r) =? blk_rq_pos n) then mret false
  else if negb (same_bits REQ_WRITE (rq_flags r) (rq_flags n)) || negb (rq_disk r =? rq_disk n) || rq_special n then mret false
  else
    ok ← ll_merge_requests_fn req next;
    if negb ok then mret false
    else
      (if flagged (Z.lor (rq_flags r) (rq_flags n)) REQ_MIXED_MERGE ||
          negb (same_bits REQ_FAILFAST_MASK (rq_flags r) (rq_flags n))
       then rq_alter blk_rq_set_mixed_merge req ;; rq_alter blk_rq_set_mixed_merge next else mret tt) ;;
      n ← rq_get next;
      rq_alter (λ r, with_len (u32 (data_len r + blk_rq_bytes n)) (with_bios (rq_bio r ++ rq_bio n) r)) req ;;
      elv_merge_requests req next ;;
      rq_alter (with_bios []) next ;;
      __blk_put_request next ;;
      mret true.

Definition attempt_back_merge (p : Z) : qM bool :=
  match elevator_latter_req_fn ops with
  | None => mret false
  | Some f => next ← on_sched (λ env, f env p); if next =? 0 then mret false else attempt_merge p next
  end.

Definition attempt_front_merge (p : Z) : qM bool :=
  match elevator_former_req_fn ops with
  | None => mret false
  | Some f => prev ← on_sched (λ env, f env p); if prev =? 0 then mret false else attempt_merge prev p
  end.

Definition elv_attempt_insert_merge (p : Z) : qM bool :=
  if blk_queue_nomerges then mret false
  else
    last ← gets (λ s, last_merge (q_io s));
    ok ← (if last =? 0 then mret false else attempt_merge last p);
    if ok : bool then mret true
    else if blk_queue_noxmerges then mret false
    else
      r ← rq_get p;
      q ← elv_rqhash_find (blk_rq_pos r);
      if q =? 0 then mret false else attempt_merge q p.

(** Nothing when the bio has become part of the request, else the bio with its
    segments counted. *)
Definition bio_attempt_back_merge (p : Z) (b : bio) : qM (option bio) :=
  '(ok, b) ← ll_back_merge_fn p b;
  if negb ok then mret (Some b)
  else
    r ← rq_get p;
    (if negb (same_bits REQ_FAILFAST_MASK (rq_flags r) (bi_rw b)) then rq_alter blk_rq_set_mixed_merge p else mret tt) ;;
    rq_alter (λ r, with_len (u32 (data_len r + bi_size b)) (with_bios (rq_bio r ++ [b]) r)) p ;;
    mret None.

Definition bio_attempt_front_merge (p : Z) (b : bio) : qM (option bio) :=
  '(ok, b) ← ll_front_merge_fn p b;
  if negb ok then mret (Some b)
  else
    r ← rq_get p;
    (if negb (same_bits REQ_FAILFAST_MASK (rq_flags r) (bi_rw b)) then rq_alter blk_rq_set_mixed_merge p else mret tt) ;;
    rq_alter (λ r, with_len (u32 (data_len r + bi_size b)) (with_start b (with_bios (b :: rq_bio r) r))) p ;;
    mret None.

(** The requests the task has plugged, the last one first. *)
Fixpoint plug_walk (ps : list Z) (b : bio) : qM (option bio) :=
  match ps with
  | [] => mret (Some b)
  | p :: ps =>
      el_ret ← elv_try_merge p b;
      m ← (if el_ret =? ELEVATOR_BACK_MERGE then bio_attempt_back_merge p b
           else if el_ret =? ELEVATOR_FRONT_MERGE then bio_attempt_front_merge p b
           else mret (Some b));
      match m with None => mret None | Some b => plug_walk ps b end
  end.

Definition attempt_plug_merge (plug : list Z) (b : bio) : qM (option bio) := plug_walk (reverse plug) b.

(** [__make_request] up to [get_rq]. *)
Definition make_request_merge (plug : list Z) (b : bio) : qM (option bio) :=
  m ← attempt_plug_merge plug b;
  match m with
  | None => mret None
  | Some b =>
      '(el_ret, req) ← elv_merge b;
      if el_ret =? ELEVATOR_BACK_MERGE then
        m ← bio_attempt_back_merge req b;
        match m with
        | Some b => mret (Some b)
        | None => ok ← attempt_back_merge req; (if ok : bool then mret tt else elv_merged_request req el_ret) ;; mret None
        end
      else if el_ret =? ELEVATOR_FRONT_MERGE then
        m ← bio_attempt_front_merge req b;
        match m with
        | Some b => mret (Some b)
        | None => ok ← attempt_front_merge req; (if ok : bool then mret tt else elv_merged_request req el_ret) ;; mret None
        end
      else mret (Some b)
  end.

(** ** Insertion (block/elevator.c) *)

(** [q->request_fn], which [__blk_run_queue] calls. *)
Variable request_fn : qM unit.

Fixpoint elv_drain_elevator (fuel : nat) : qM unit :=
  match fuel with
  | O => spin
  | S fuel => r ← on_sched (elevator_dispatch_fn ops); if r =? 0 then mret tt else elv_drain_elevator fuel
  end.

(** [case ELEVATOR_INSERT_SORT] of [__elv_add_request]. *)
Definition insert_sort (p : Z) : qM unit :=
  r ← rq_get p;
  check (cmd_fs r || rq_discard r) ;;
  rq_put p (add_flags REQ_SORTED r) ;;
  modify_io (io_sorted 1) ;;
  (if rq_mergeable (add_flags REQ_SORTED r) then
     elv_rqhash_add p ;;
     modify_io (λ io, if last_merge io =? 0 then io_last p io else io)
   else mret tt) ;;
  on_sched (λ env, elevator_add_req_fn ops env p).

Definition __elv_add_request (p : Z) (where_ : insert_where) : qM unit :=
  r ← rq_get p;
  (if flagged (rq_flags r) REQ_SOFTBARRIER && (cmd_fs r || rq_discard r) then
     modify_io (io_end (rq_hash_key r)) ;; modify (set_boundary p)
   else mret tt) ;;
  let unsorted := negb (flagged (rq_flags r) REQ_SOFTBARRIER) && negb (flagged (rq_flags r) REQ_ELVPRIV) in
  let where_ := match where_ with
                | ELEVATOR_INSERT_SORT | ELEVATOR_INSERT_SORT_MERGE => if unsorted then ELEVATOR_INSERT_BACK else where_
                | _ => where_
                end in
  match where_ with
  | ELEVATOR_INSERT_REQUEUE | ELEVATOR_INSERT_FRONT =>
      rq_put p (add_flags REQ_SOFTBARRIER r) ;; on_list (list_add p head_at)
  | ELEVATOR_INSERT_BACK =>
      rq_put p (add_flags REQ_SOFTBARRIER r) ;;
      fuel ← gets (λ s, S (size (lists_mem (q_io s))));
      elv_drain_elevator fuel ;;
      on_list (list_add_tail p head_at) ;;
      request_fn
  | ELEVATOR_INSERT_SORT_MERGE =>
      merged ← elv_attempt_insert_merge p;
      if merged : bool then mret tt else insert_sort p
  | ELEVATOR_INSERT_SORT => insert_sort p
  end.

Definition elv_requeue_request (p : Z) : qM unit :=
  r ← rq_get p;
  (if blk_account_rq r
   then modify (λ s, set_in_flight (<[rq_is_sync r := u32 (in_flight s (rq_is_sync r) - 1)]> (in_flight s)) s)
   else mret tt) ;;
  rq_put p (del_flags REQ_STARTED r) ;;
  __elv_add_request p ELEVATOR_INSERT_REQUEUE.

Definition blk_requeue_request (p : Z) : qM unit :=
  empty ← on_list (list_empty p);
  check empty ;;
  elv_requeue_request p.

(** The end of [__make_request] for a task without a plug. *)
Definition make_request_add (p : Z) : qM unit := __elv_add_request p ELEVATOR_INSERT_SORT ;; request_fn.

(** The loop of [blk_flush_plug_list] over the requests of this queue. *)
Fixpoint flush_plug (ps : list Z) : qM unit :=
  match ps with
  | [] => mret tt
  | p :: ps => on_list (INIT_LIST_HEAD p) ;; __elv_add_request p ELEVATOR_INSERT_SORT_MERGE ;; flush_plug ps
  end.

(** [from_schedule] leaves it to kblockd to run the queue. *)
Definition blk_flush_plug_list (plug : list Z) (from_schedule : bool) : qM unit :=
  match plug with
  | [] => mret tt
  | _ :: _ => flush_plug plug ;; if from_schedule then mret tt else request_fn
  end.

(** ** The driver's side (block/blk.h, blk-core.c) *)

(** The loop of [__elv_next_request]: after a dispatch the queue has a request,
    so that two rounds are enough. *)
Fixpoint elv_next (fuel : nat) : qM Z :=
  match fuel with
  | O => spin
  | S fuel =>
      empty ← on_list (list_empty head_at);
      if negb empty then on_list (get_next head_at)
      else r ← on_sched (elevator_dispatch_fn ops); if r =? 0 then mret 0 else elv_next fuel
  end.

Definition __elv_next_request : qM Z := elv_next 2.

Definition blk_peek_request : qM Z :=
  p ← __elv_next_request;
  if p =? 0 then mret 0
  else
    r ← rq_get p;
    (if flagged (rq_flags r) REQ_STARTED then mret tt else rq_put p (add_flags REQ_STARTED r)) ;;
    b ← gets boundary_rq;
    (if (b =? 0) || (b =? p) then modify_io (io_end (rq_hash_key r)) ;; modify (set_boundary 0) else mret tt) ;;
    mret p.

Definition blk_dequeue_request (p : Z) : qM unit :=
  empty ← on_list (list_empty p);
  check (negb empty) ;;
  h ← gets (λ s, rq_hash (q_io s));
  check (negb (hashed p h)) ;;
  on_list (list_del_init p) ;;
  r ← rq_get p;
  if blk_account_rq r
  then modify (λ s, set_in_flight (<[rq_is_sync r := u32 (in_flight s (rq_is_sync r) + 1)]> (in_flight s)) s)
  else mret tt.

(** [blk_start_request] is [blk_dequeue_request] here: it adds the timeout. *)
Definition blk_fetch_request : qM Z :=
  p ← blk_peek_request;
  if p =? 0 then mret 0 else blk_dequeue_request p ;; mret p.

Definition blk_finish_request (p : Z) : qM unit :=
  empty ← on_list (list_empty p);
  check empty ;;
  __blk_put_request p.

Definition __blk_end_request (p error nr_bytes : Z) : qM bool :=
  r ← rq_get p;
  match blk_update_request error nr_bytes r with
  | Fault => fault
  | Spin => spin
  | Ok (more, r', ended) =>
      rq_put p r' ;; modify (λ s, set_ended (q_ended s ++ ended) s) ;;
      if more : bool then mret true else blk_finish_request p ;; mret false
  end.

(** ** Submission (block/blk-core.c) *)

Definition EOPNOTSUPP_err : Z := -95.

(** A block device: the sectors of its inode, and the start of the partition with
    the sectors of the disk behind it. *)
Record block_device := mk_bdev { bd_sectors : Z; bd_part : option (Z * Z) }.

Definition bio_check_eod (maxsector : Z) (b : bio) : bool :=
  let nr := bio_sectors b in
  if nr =? 0 then false
  else if maxsector =? 0 then false
  else (maxsector <? nr) || (maxsector - nr <? bi_sector b).

Definition with_sector (n : Z) (b : bio) : bio :=
  mk_bio n (bi_size b) (bi_idx b) (bi_io_vec b) (bi_rw b) (bi_uptodate b) (bi_private b) (bi_disk b) (bi_seg b).

Definition blk_partition_remap (d : block_device) (b : bio) : bio :=
  match bd_part d with
  | Some (start, _) => if bio_sectors b =? 0 then b else with_sector (u64 (bi_sector b + start)) b
  | None => b
  end.

(** [__generic_make_request] up to [make_request_fn], on a queue that is alive and
    has no [flush_flags]: the error the bio ends with, or the bio for the queue. *)
Definition __generic_make_request (d : block_device) (b : bio) : Z + bio :=
  if bio_check_eod (bd_sectors d) b then inl EIO_err
  else if negb (flagged (bi_rw b) REQ_DISCARD) && (queue_max_hw_sectors <? bio_sectors b) then inl EIO_err
  else
    let b := blk_partition_remap d b in
    if bio_check_eod (match bd_part d with Some (_, whole) => whole | None => bd_sectors d end) b then inl EIO_err
    else
      let flush := flagged (bi_rw b) (Z.lor REQ_FLUSH REQ_FUA) in
      let b := if flush then with_rw (Z.land (bi_rw b) (Z.lnot (Z.lor REQ_FLUSH REQ_FUA))) b else b in
      if flush && (bio_sectors b =? 0) then inl 0
      else if flagged (bi_rw b) REQ_DISCARD &&
              (negb blk_queue_discard || flagged (bi_rw b) REQ_SECURE && negb blk_queue_secdiscard) then inl EOPNOTSUPP_err
      else inr b.
End Elevator.
