(* ===== verification/ElevatorSched.v ===== *)
(** * The contract of an I/O scheduler, noop and SSTF (block/noop-iosched.c)

    The elevator asks of a scheduler that it keeps the requests it is given in a
    list and hands them, one at a time, to [elv_dispatch_sort].  The class
    [SchedOk] states this; the noop scheduler keeps it, and so does SSTF as long
    as what lies behind its list head does not look like a near request. *)

From S2P Require Import Prelude BlkTypes BlkRequest ListHead Sstf Elevator.

(** ** The noop scheduler *)

Section Noop.
Context `{IoEnv}.

Definition noop_merged_requests (rq next : Z) : ioM unit := on_lists (list_del_init next).

Definition noop_dispatch : ioM Z :=
  empty ← on_lists (list_empty nd_queue);
  if negb empty then
    rq ← on_lists (get_next nd_queue);
    on_lists (list_del_init rq) ;;
    elv_dispatch_sort rq ;;
    mret 1
  else mret 0.

Definition noop_add_request (rq : Z) : ioM unit := on_lists (list_add_tail rq nd_queue).

Definition noop_former_request (rq : Z) : ioM Z :=
  p ← on_lists (get_prev rq); mret (if p =? nd_queue then 0 else p).

Definition noop_latter_request (rq : Z) : ioM Z :=
  n ← on_lists (get_next rq); mret (if n =? nd_queue then 0 else n).

Definition noop_init_queue : ioM unit := on_lists (INIT_LIST_HEAD nd_queue).

Definition noop_exit_queue : ioM unit := empty ← on_lists (list_empty nd_queue); check empty.
End Noop.

Definition elevator_noop : elevator_ops :=
  mk_ops (Some (λ _, noop_merged_requests)) None (@noop_dispatch) (@noop_add_request)
    (Some (@noop_former_request)) (Some (@noop_latter_request)).

Definition elevator_sstf : elevator_ops :=
  mk_ops None (Some sstf_deny_merge) (@sstf_dispatch) (@sstf_add_request) None None.

(** ** What the elevator relies on *)

Section Contract.
Context `{QueuePlace}.

(** Requests [l] wait in the scheduler, [D] in the dispatch queue. *)
Record lists_ok (s : ioq) (l D : list Z) : Prop := {
  lo_sched : dll (lists_mem s) nd_at l;
  lo_disp : dll (lists_mem s) head_at D;
  lo_apart y : y ∈ nd_at :: l → y ∉ head_at :: D;
  lo_nz : 0 ∉ l
}.

(** With what the scheduler keeps in [enqueue] and [queue_count]. *)
Definition sched_rep (inv : Z → Z → list Z → Prop) (s : ioq) (l D : list Z) : Prop :=
  lists_ok s l D ∧ inv (enqueue s) (queue_count s) l.

(** A request that is in neither list. *)
Definition apart_from (s : ioq) (l D : list Z) (p : Z) : Prop :=
  p ∉ nd_at :: l ∧ p ∉ head_at :: D ∧ is_Some (lists_mem s !! p) ∧ p ≠ 0 ∧ Z.of_nat (length l) + 1 < 2 ^ 31.

Definition same_books (s s' : ioq) : Prop :=
  (nr_sorted s', end_sector s', last_merge s', rq_hash s') = (nr_sorted s, end_sector s, last_merge s, rq_hash s).

(** Nothing outside the lists changes. *)
Definition only_lists (l D : list Z) (s s' : ioq) : Prop :=
  ∀ y, y ∉ nd_at :: l → y ∉ head_at :: D → lists_mem s' !! y = lists_mem s !! y.

Definition on_device (cap : Z) (m : gmap Z request) (l : list Z) : Prop :=
  m !! nd_at = None ∧ ∀ p, p ∈ l → ∃ r, m !! p = Some r ∧ 0 ≤ blk_rq_pos r < cap.
End Contract.

(** [cap] is the number of sectors of the device. *)
Class SchedOk `{QueuePlace} (ops : elevator_ops) (cap : Z) := {
  sched_inv : Z → Z → list Z → Prop;
  sched_add m s l D p :
    sched_rep sched_inv s l D → apart_from s l D p →
    ∃ s' l1 l2, elevator_add_req_fn ops (env_of m) p s = Ok (tt, s') ∧ l = l1 ++ l2 ∧
      sched_rep sched_inv s' (l1 ++ p :: l2) D ∧ same_books s s' ∧ only_lists (p :: l) D s s';
  sched_dispatch m s l D :
    sched_rep sched_inv s l D → on_device cap m l →
    (l = [] ∧ elevator_dispatch_fn ops (env_of m) s = Ok (0, s)) ∨
    ∃ l1 e l2 s' d1 d2, l = l1 ++ e :: l2 ∧ elevator_dispatch_fn ops (env_of m) s = Ok (1, s') ∧ D = d1 ++ d2 ∧
      sched_rep sched_inv s' (l1 ++ l2) (d1 ++ e :: d2) ∧ dispatch_effect e s s' ∧ only_lists l D s s';
  sched_merged m s l1 n l2 D req :
    match elevator_merge_req_fn ops with
    | Some f =>
        sched_rep sched_inv s (l1 ++ n :: l2) D →
        ∃ s', f (env_of m) req n s = Ok (tt, s') ∧ sched_rep sched_inv s' (l1 ++ l2) D ∧ same_books s s' ∧
          dll (lists_mem s') n [] ∧ only_lists (l1 ++ n :: l2) D s s'
    | None => elevator_former_req_fn ops = None ∧ elevator_latter_req_fn ops = None
    end;
  sched_former m s l D p f :
    elevator_former_req_fn ops = Some f → sched_rep sched_inv s l D → p ∈ l →
    ∃ q, f (env_of m) p s = Ok (q, s) ∧ (q = 0 ∨ q ∈ l ∧ q ≠ p);
  sched_latter m s l D p f :
    elevator_latter_req_fn ops = Some f → sched_rep sched_inv s l D → p ∈ l →
    ∃ q, f (env_of m) p s = Ok (q, s) ∧ (q = 0 ∨ q ∈ l ∧ q ≠ p)
}.

(** ** Noop keeps it *)

Section NoopOk.
Context `{QueuePlace}.

Lemma lists_ok_ext s s' l D : lists_mem s' = lists_mem s → lists_ok s l D → lists_ok s' l D.
Proof. intros E []. by split; rewrite ?E. Qed.

Lemma noop_dispatch_ok m s l D :
  lists_ok s l D →
  (l = [] ∧ @noop_dispatch (env_of m) s = Ok (0, s)) ∨
  ∃ e l2 s' d1 d2, l = e :: l2 ∧ @noop_dispatch (env_of m) s = Ok (1, s') ∧ D = d1 ++ d2 ∧
    lists_ok s' l2 (d1 ++ e :: d2) ∧ dispatch_effect e s s' ∧ only_lists l D s s'.
Proof.
  intros [Hd HD Ha Hz]. unfold noop_dispatch. cbn [nd_queue env_of].
  rewrite (bind_ok _ _ _ _ _ (on_lists_read _ _ _ (list_empty_dll _ _ _ Hd))).
  destruct l as [|e l2]; [by left|right]. rewrite bool_decide_eq_false_2 by done. cbn [negb].
  pose proof Hd as [_ Hs]. rewrite (bind_ok _ _ _ _ _ (on_lists_read _ _ _ (get_next_ok _ _ _ (seg_first _ _ _ _ Hs)))).
  change (default nd_at (head (e :: l2))) with e.
  destruct (list_del_init_dll _ _ [] e l2 Hd) as (m1 & E1 & Hd1 & He1 & F1).
  rewrite (bind_ok _ _ _ _ _ (on_lists_ok _ _ _ _ E1)).
  assert (e ∉ head_at :: D) as HeD by (apply Ha; set_solver).
  destruct (@elv_dispatch_sort_ok (env_of m) e (set_mem m1 s) D) as (m2 & d1 & d2 & E2 & -> & HD2 & _ & _ & F2).
  { eapply dll_ext; [done|]. intros y Hy. apply F1. intros Hc. apply (Ha y); [set_solver|done]. }
  { done. }
  { eapply dll_mapped; [done|set_solver]. }
  rewrite (bind_ok _ _ _ _ _ E2). eexists e, l2, _, d1, d2. split; [done|]. split; [reflexivity|]. split; [done|].
  pose proof Hd as [[Hn1 Hn2]%NoDup_cons _]. apply NoDup_cons in Hn2 as [He2 _].
  split; [|split; [done|]].
  - split; unfold dispatched; cbn [lists_mem].
    + eapply dll_ext; [exact Hd1|]. intros y Hy. apply F2. cbn [queue_head env_of].
      pose proof (Ha y ltac:(set_solver)). set_solver.
    + exact HD2.
    + intros y Hy. pose proof (Ha y ltac:(set_solver)). set_solver.
    + set_solver.
  - intros y H1 H2. unfold dispatched. cbn [lists_mem]. rewrite F2 by (cbn [queue_head env_of]; set_solver).
    cbn [lists_mem set_mem]. apply F1. set_solver.
Qed.

#[export] Program Instance noop_ok (cap : Z) : SchedOk elevator_noop cap := {| sched_inv := λ _ _ _, True |}.
Next Obligation.
  intros cap m s l D p [[Hd HD Ha Hz] _] (H1 & H2 & H3 & H4 & _). simpl. unfold noop_add_request. cbn [nd_queue env_of].
  rewrite <- (app_nil_r l) in Hd.
  destruct (list_add_tail_dll (lists_mem s) nd_at l [] nd_at p) as (m' & E & Hd' & F); [done|done|by rewrite app_nil_r|done|].
  rewrite app_nil_r in F. rewrite (on_lists_ok _ _ _ _ E). eexists _, l, []. rewrite app_nil_r.
  split_and!; [done|done| |done|intros y Hy1 Hy2; apply F; set_solver]. split; [|done]. split; cbn [lists_mem set_mem].
  - done.
  - eapply dll_ext; [done|]. intros y Hy. apply F. intros Hc. apply elem_of_cons in Hc as [->|Hc]; [done|by apply (Ha y)].
  - intros y Hy. destruct (decide (y = p)) as [->|]; [done|]. apply Ha. set_solver.
  - set_solver.
Qed.
Next Obligation.
  intros cap m s l D [Hl _] _. destruct (noop_dispatch_ok m s l D Hl) as [?|(e & l2 & s' & d1 & d2 & ? & ? & ? & ? & ? & ?)]; [by left|].
  right. by exists [], e, l2, s', d1, d2.
Qed.
Next Obligation.
  intros cap m s l1 n l2 D req. simpl. intros [[Hd HD Ha Hz] _]. unfold noop_merged_requests.
  destruct (list_del_init_dll _ _ _ _ _ Hd) as (m' & E & Hd' & Hn & F). rewrite (on_lists_ok _ _ _ _ E). eexists.
  split; [done|]. split_and!; [|done|done|intros y H1 H2; apply F; set_solver]. split; [|done]. split; cbn [lists_mem set_mem].
  - done.
  - eapply dll_ext; [done|]. intros y Hy. apply F. intros Hc. apply (Ha y); [set_solver|done].
  - intros y Hy. apply Ha. set_solver.
  - set_solver.
Qed.
Next Obligation.
  intros cap m s l D p f [= <-] [[Hd _ _ _] _] (l1 & l2 & ->)%list_elem_of_split. unfold noop_former_request.
  rewrite (bind_ok _ _ _ _ _ (on_lists_read _ _ _ (get_prev_ok _ _ _ (dll_prev _ _ _ _ _ Hd)))).
  eexists. split; [done|]. cbn [nd_queue env_of]. destruct (Z.eqb_spec (default nd_at (last l1)) nd_at) as [|Hne]; [by left|].
  right. destruct (last_elem_or l1 nd_at) as [|Hl]; [done|]. destruct Hd as [[_ Hnd]%NoDup_cons _].
  apply nodup_middle in Hnd as [[? ?] _]. set_solver.
Qed.
Next Obligation.
  intros cap m s l D p f [= <-] [[Hd _ _ _] _] (l1 & l2 & ->)%list_elem_of_split. unfold noop_latter_request.
  rewrite (bind_ok _ _ _ _ _ (on_lists_read _ _ _ (get_next_ok _ _ _ (dll_next _ _ _ _ _ Hd)))).
  eexists. split; [done|]. cbn [nd_queue env_of]. destruct (Z.eqb_spec (default nd_at (head l2)) nd_at) as [|Hne]; [by left|].
  right. destruct (head_elem_or l2 nd_at) as [|Hl]; [done|]. destruct Hd as [[_ Hnd]%NoDup_cons _].
  apply nodup_middle in Hnd as [[? ?] _]. set_solver.
Qed.
End NoopOk.

(** ** SSTF keeps it *)

(** What SSTF needs: the undeclared [position] is the loop cursor, and what lies
    behind the list head is farther from every sector of the device than any two
    sectors of it are from each other. *)
Class SstfPlace `{QueuePlace} (cap : Z) : Prop := {
  sstf_position x : stray_position x = x;
  sstf_far a b : 0 ≤ a < cap → 0 ≤ b < cap →
    kabs (u32 (u32 a - u32 b)) < kabs (u32 (u32 a - u32 (stray_sector nd_at)))
}.

Section SstfOk.
Context `{QueuePlace} (cap : Z) `{!SstfPlace cap}.

Definition sstf_inv (e c : Z) (l : list Z) : Prop :=
  c = Z.of_nat (length l) ∧ Z.of_nat (length l) < 2 ^ 31 ∧ (l ≠ [] → e ∈ l).

Lemma sstf_queue_ok m s l D : sched_rep sstf_inv s l D ↔ @queue_ok (env_of m) s l D.
Proof.
  split.
  - intros [[] (? & ? & ?)]. by split.
  - intros []. by split; [split|].
Qed.

Lemma on_device_far m l : on_device cap m l → @far_head (env_of m) l.
Proof.
  intros [Hn Hd] x y (r1 & E1 & ?)%Hd (r2 & E2 & ?)%Hd. cbn [sector nd_queue env_of]. rewrite E1, E2, Hn. by apply sstf_far.
Qed.

Lemma sstf_dispatch_sched m s l D :
  sched_rep sstf_inv s l D → on_device cap m l →
  (l = [] ∧ @sstf_dispatch (env_of m) s = Ok (0, s)) ∨
  ∃ l1 e l2 s' d1 d2, l = l1 ++ e :: l2 ∧ @sstf_dispatch (env_of m) s = Ok (1, s') ∧ D = d1 ++ d2 ∧
    sched_rep sstf_inv s' (l1 ++ l2) (d1 ++ e :: d2) ∧ dispatch_effect e s s' ∧ only_lists l D s s'.
Proof.
  intros Hq%(sstf_queue_ok m) Hd%on_device_far. destruct l as [|x l]; [left; split; [done|by eapply dispatch_empty]|right].
  assert (enqueue s ∈ x :: l) as (l1 & l2 & Hl)%list_elem_of_split by by apply (q_enq _ _ _ Hq).
  rewrite Hl in *. destruct (dispatch_step s l1 (enqueue s) l2 D Hq eq_refl)
    as (s' & d1 & d2 & E & HD & _ & _ & He & _ & Hf & Hm & _ & Hok).
  exists l1, (enqueue s), l2, s', d1, d2. split_and!; try done. apply (sstf_queue_ok m), Hok.
  intros Hne. rewrite He. by apply far_next.
Qed.

#[export] Program Instance sstf_ok : SchedOk elevator_sstf cap := {| sched_inv := sstf_inv |}.
Next Obligation.
  intros m s l D p Hq%(sstf_queue_ok m) Hp.
  destruct (sstf_add_step p s l D Hq) as (s' & l1 & l2 & E & Hl & Hq' & [Hb Hm]); [done|intros; apply sstf_position|].
  exists s', l1, l2. split_and!; try done; [by apply (sstf_queue_ok m)|]. intros y H1 H2. apply Hm. cbn [nd_queue env_of]. set_solver.
Qed.
Next Obligation. intros m s l D. apply sstf_dispatch_sched. Qed.
Next Obligation. done. Qed.
Next Obligation. done. Qed.
Next Obligation. done. Qed.
End SstfOk.
