(* ===== verification/ElevatorInv.v ===== *)
(** * The invariant of the request queue

    What holds of the requests of a queue between operations: each is well formed
    (its bios follow each other on the device), is in exactly one place, is found
    in the hash under its end while it can be merged with, and is counted. *)

From stdpp Require Import functions.
From S2P Require Import Prelude BlkTypes BlkRequest ListHead Sstf Elevator ElevatorSched.

(** ** Running commands *)

(** [c] succeeds on [s] with a result and a state that satisfy [Q]. *)
Definition runs {S A} (c : cmd S A) (s : S) (Q : A → S → Prop) : Prop :=
  match c s with Ok (a, s') => Q a s' | _ => False end.

Lemma runs_bind {S A B} (c : cmd S A) (f : A → cmd S B) s Q :
  runs c s (λ a s', runs (f a) s' Q) → runs (c ≫= f) s Q.
Proof. unfold runs, mbind, cmd_bind. by destruct (c s) as [[a s']| |]. Qed.
Lemma runs_mono {S A} (c : cmd S A) s (P Q : A → S → Prop) : runs c s P → (∀ a s', P a s' → Q a s') → runs c s Q.
Proof. unfold runs. destruct (c s) as [[a s']| |]; auto. Qed.
Lemma runs_ok {S A} (c : cmd S A) s a s' (Q : A → S → Prop) : c s = Ok (a, s') → Q a s' → runs c s Q.
Proof. unfold runs. by intros ->. Qed.
Lemma runs_ret {S A} (a : A) (s : S) (Q : A → S → Prop) : Q a s → runs (mret a) s Q.
Proof. done. Qed.
Lemma runs_check {S} (b : bool) (s : S) (Q : unit → S → Prop) : b = true → Q tt s → runs (check b) s Q.
Proof. by intros ->. Qed.
Lemma runs_inv {S A} (c : cmd S A) s Q : runs c s Q → ∃ a s', c s = Ok (a, s') ∧ Q a s'.
Proof. unfold runs. destruct (c s) as [[a s']| |]; [|done..]. eauto. Qed.

(** [Q] holds of whatever [c] gives on [s]. *)
Definition gives {S A} (c : cmd S A) (s : S) (Q : A → S → Prop) : Prop := ∀ a s', c s = Ok (a, s') → Q a s'.

Lemma gives_bind {S A B} (c : cmd S A) (f : A → cmd S B) s Q : gives c s (λ a s', gives (f a) s' Q) → gives (c ≫= f) s Q.
Proof.
  intros Hc b s' E. unfold mbind, cmd_bind in E. destruct (c s) as [[a s1]| |] eqn:Ec; try done. by apply (Hc a s1).
Qed.
Lemma gives_ret {S A} (a : A) (s : S) (Q : A → S → Prop) : Q a s → gives (mret a) s Q.
Proof. intros HQ a' s' E. unfold mret, cmd_ret in E. by simplify_eq. Qed.
Lemma gives_any {S A} (c : cmd S A) s (Q : A → S → Prop) : (∀ a s', Q a s') → gives c s Q.
Proof. intros HQ a s' _. apply HQ. Qed.
Lemma gives_mono {S A} (c : cmd S A) s (P Q : A → S → Prop) : gives c s P → (∀ a s', P a s' → Q a s') → gives c s Q.
Proof. intros HP HPQ a s' E. by apply HPQ, HP. Qed.
Lemma runs_gives {S A} (c : cmd S A) s (P Q : A → S → Prop) : runs c s P → gives c s Q → runs c s (λ a s', P a s' ∧ Q a s').
Proof. unfold runs, gives. intros HP HQ. destruct (c s) as [[a s']| |] eqn:E; try done. auto. Qed.

Lemma runs_get p r s (Q : request → rqueue → Prop) : q_rqs s !! p = Some r → Q r s → runs (rq_get p) s Q.
Proof. intros E HQ. unfold runs, rq_get. by rewrite E. Qed.
Lemma runs_alter f p r s (Q : unit → rqueue → Prop) :
  q_rqs s !! p = Some r → Q tt (set_rqs (<[p := f r]> (q_rqs s)) s) → runs (rq_alter f p) s Q.
Proof. intros E HQ. apply runs_bind, (runs_get _ r); done. Qed.
Lemma runs_list {A} (c : cmd lmem A) s a m' (Q : A → rqueue → Prop) :
  c (lists_mem (q_io s)) = Ok (a, m') → Q a (set_io (set_mem m' (q_io s)) s) → runs (on_list c) s Q.
Proof. intros E HQ. unfold on_list. eapply runs_ok; [apply zoom_ok, on_lists_ok, E|done]. Qed.
Lemma runs_list_read {A} (c : cmd lmem A) s a (Q : A → rqueue → Prop) :
  c (lists_mem (q_io s)) = Ok (a, lists_mem (q_io s)) → Q a s → runs (on_list c) s Q.
Proof. intros E HQ. eapply runs_list; [done|]. by destruct s as [[] ? ? ? ? ?]. Qed.
Lemma runs_sched `{QueuePlace} {A} (c : IoEnv → ioM A) s a io (Q : A → rqueue → Prop) :
  c (env_of (q_rqs s)) (q_io s) = Ok (a, io) → Q a (set_io io s) → runs (on_sched c) s Q.
Proof. intros E HQ. unfold on_sched. eapply runs_ok; [apply zoom_ok, E|done]. Qed.

(** ** Requests *)

(** The flags that tell what a bio asks for. *)
Definition KIND : Z := Z.lor REQ_WRITE (Z.lor REQ_DISCARD REQ_SECURE).
(** The flags of a request that merging can change. *)
Definition SOFT : Z := Z.lor REQ_FAILFAST_MASK REQ_MIXED_MERGE.
Definition HARD : Z := Z.lnot SOFT.

(** The bios follow each other from sector [at_] on. *)
Fixpoint chain_ok (at_ : Z) (bs : list bio) : Prop :=
  match bs with
  | [] => True
  | b :: bs => bi_sector b = at_ ∧ chain_ok (at_ + bio_sectors b) bs
  end.

Definition bios_sectors (bs : list bio) : Z := sumZ (bio_sectors <$> bs).

Lemma chain_app at_ bs1 bs2 : chain_ok at_ (bs1 ++ bs2) ↔ chain_ok at_ bs1 ∧ chain_ok (at_ + bios_sectors bs1) bs2.
Proof.
  revert at_. induction bs1 as [|b bs1 IH]; intros at_; csimpl.
  - replace (at_ + bios_sectors []) with at_ by (unfold bios_sectors; simpl; lia). tauto.
  - replace (at_ + bios_sectors (b :: bs1)) with (at_ + bio_sectors b + bios_sectors bs1) by (unfold bios_sectors; csimpl; lia).
    rewrite IH. tauto.
Qed.

(** A bio as submitted: it has data, in whole sectors, on a device of [cap]
    sectors. *)
Record bio_wf (cap : Z) (b : bio) : Prop := {
  bw_ok : bio_ok b;
  bw_whole : bi_size b mod 512 = 0;
  bw_range : 0 ≤ bi_sector b ∧ bi_sector b + bio_sectors b ≤ cap;
  bw_32 : bi_size b < 2 ^ 32
}.

Definition bio_for (r : request) (b : bio) : Prop :=
  Z.land (bi_rw b) KIND = Z.land (rq_flags r) KIND ∧ bi_disk b = rq_disk r ∧ bi_size b mod 512 = 0.

Record rq_wf (cap : Z) (r : request) : Prop := {
  rw_type : cmd_type r = REQ_TYPE_FS;
  rw_alloced : flagged (rq_flags r) REQ_ALLOCED = true;
  rw_priv : flagged (rq_flags r) REQ_ELVPRIV = true;
  rw_plain : flagged (rq_flags r) (Z.lor REQ_FLUSH (Z.lor REQ_FUA REQ_FLUSH_SEQ)) = false;
  rw_special : rq_special r = false;
  rw_ref : ref_count r = 1;
  rw_ok : rq_ok r;
  rw_bios : rq_bio r ≠ [];
  rw_chain : chain_ok (rq_sector r) (rq_bio r);
  rw_for : Forall (bio_for r) (rq_bio r);
  rw_range : 0 ≤ rq_sector r ∧ rq_sector r + blk_rq_sectors r ≤ cap;
  rw_buffer : rq_buffer r = (λ v, (bv_page v, bv_offset v)) <$> head (rq_segs r)
}.

Lemma whole_sectors n : n mod 512 = 0 → Z.shiftr n 9 * 512 = n.
Proof. intros Hm. rewrite Z.shiftr_div_pow2 by done. change (2 ^ 9) with 512. pose proof (Z.div_mod n 512). lia. Qed.

Lemma sectors_add a b : a mod 512 = 0 → Z.shiftr (a + b) 9 = Z.shiftr a 9 + Z.shiftr b 9.
Proof.
  intros Hm. rewrite !Z.shiftr_div_pow2 by done. change (2 ^ 9) with 512.
  pose proof (Z.div_mod a 512 ltac:(done)) as E. rewrite Hm, Z.add_0_r in E. rewrite E at 1.
  rewrite Z.add_comm, Z.mul_comm, Z.div_add by done. lia.
Qed.

Lemma sizes_whole bs : Forall (λ b, bi_size b mod 512 = 0) bs → sumZ (bi_size <$> bs) mod 512 = 0.
Proof.
  induction 1 as [|b bs Hb _ IH]; [done|]. csimpl. rewrite Z.add_mod by done. by rewrite Hb, IH.
Qed.

Lemma bios_sectors_sum bs :
  Forall (λ b, bi_size b mod 512 = 0) bs → Z.shiftr (sumZ (bi_size <$> bs)) 9 = bios_sectors bs.
Proof.
  induction 1 as [|b bs Hb Hbs IH]; [done|]. unfold bios_sectors. csimpl.
  rewrite sectors_add by done. rewrite IH. done.
Qed.

Lemma rq_whole cap r : rq_wf cap r → Forall (λ b, bi_size b mod 512 = 0) (rq_bio r).
Proof. intros W. eapply Forall_impl; [exact (rw_for _ _ W)|]. by intros b (_ & _ & ?). Qed.

Lemma rq_sectors cap r : rq_wf cap r → blk_rq_sectors r = bios_sectors (rq_bio r).
Proof.
  intros W. unfold blk_rq_sectors, blk_rq_bytes. rewrite (ro_len _ (rw_ok _ _ W)). apply bios_sectors_sum. by eapply rq_whole.
Qed.

Lemma rq_len_pos cap r : rq_wf cap r → 0 < data_len r < 2 ^ 32 ∧ data_len r mod 512 = 0.
Proof.
  intros W. pose proof (rw_ok _ _ W) as [Hb Hl H32]. rewrite Hl in *. split; [split; [|done]|].
  - destruct (rq_bio r) as [|b bs] eqn:E; [by destruct (rw_bios _ _ W)|]. csimpl.
    apply Forall_cons in Hb as [Hb Hbs]. pose proof (bio_ok_pos _ Hb). pose proof (sizes_nonneg _ Hbs). lia.
  - apply sizes_whole. by eapply rq_whole.
Qed.

Lemma rq_sectors_pos cap r : rq_wf cap r → 0 < blk_rq_sectors r < 2 ^ 23 ∧ blk_rq_sectors r * 512 = data_len r.
Proof.
  intros W. destruct (rq_len_pos cap r W) as [Hl Hm]. pose proof (whole_sectors _ Hm) as E. unfold blk_rq_sectors, blk_rq_bytes. lia.
Qed.

Lemma bio_sectors_pos cap b : bio_wf cap b → 0 < bio_sectors b < 2 ^ 23 ∧ bio_sectors b * 512 = bi_size b.
Proof.
  intros [Hok Hw _ H32]. pose proof (whole_sectors _ Hw) as E. pose proof (bio_ok_pos _ Hok). unfold bio_sectors. lia.
Qed.

(** The current segment of a chain of bios is that of the first. *)
Lemma bio_data_head b bs bs' :
  bio_ok b → bio_data b = (λ v, (bv_page v, bv_offset v)) <$> head (mjoin (bio_segs <$> b :: bs)) ∧
  head (mjoin (bio_segs <$> b :: bs)) = head (mjoin (bio_segs <$> b :: bs')).
Proof.
  intros [Hne _ _]. csimpl. destruct (bio_segs b) as [|v vs] eqn:E; [done|]. split; [|done]. by destruct (bio_cur_ok b v vs E) as [_ ->].
Qed.

Lemma rq_plain_flags cap r : rq_wf cap r →
  flagged (rq_flags r) REQ_FLUSH = false ∧ flagged (rq_flags r) REQ_FUA = false ∧ rq_flush_seq r = false.
Proof.
  intros W. pose proof (rw_plain _ _ W) as Hp. unfold rq_flush_seq, flagged in *. apply negb_false_iff, Z.eqb_eq in Hp.
  rewrite !Z.land_lor_distr_r in Hp. apply Z.lor_eq_0_iff in Hp as [-> Hp]. apply Z.lor_eq_0_iff in Hp as [-> ->]. done.
Qed.

(** ** Changes that do not matter *)

Definition bio_alike (b b' : bio) : Prop :=
  (bi_sector b', bi_size b', bi_idx b', bi_io_vec b', bi_private b', bi_disk b', bi_uptodate b') =
  (bi_sector b, bi_size b, bi_idx b, bi_io_vec b, bi_private b, bi_disk b, bi_uptodate b) ∧
  Z.land (bi_rw b') HARD = Z.land (bi_rw b) HARD.

(** The same request but for the counts of segments and the flags in [SOFT]. *)
Record alike (r r' : request) : Prop := {
  al_fields : (cmd_type r', data_len r', rq_sector r', ref_count r', rq_disk r', rq_special r', rq_buffer r') =
              (cmd_type r, data_len r, rq_sector r, ref_count r, rq_disk r, rq_special r, rq_buffer r);
  al_flags : Z.land (rq_flags r') HARD = Z.land (rq_flags r) HARD;
  al_bios : Forall2 bio_alike (rq_bio r) (rq_bio r')
}.

#[export] Instance bio_alike_refl : Reflexive bio_alike.
Proof. done. Qed.
#[export] Instance bio_alike_trans : Transitive bio_alike.
Proof. intros a b c [E1 F1] [E2 F2]. split; [by rewrite E2, E1|by rewrite F2, F1]. Qed.
#[export] Instance alike_refl : Reflexive alike.
Proof. done. Qed.
#[export] Instance alike_trans : Transitive alike.
Proof.
  intros a b c [E1 F1 B1] [E2 F2 B2]. split; [by rewrite E2, E1|by rewrite F2, F1|by etrans].
Qed.

Lemma bio_alike_ok b b' : bio_alike b b' → bio_ok b → bio_ok b'.
Proof. intros [[= ? E ? ? ? ? ?] _] []. split; unfold bio_segs in *; congruence. Qed.

Lemma alike_map {A} (f : bio → A) bs bs' :
  (∀ b b', bio_alike b b' → f b' = f b) → Forall2 bio_alike bs bs' → f <$> bs' = f <$> bs.
Proof. intros Hf. induction 1 as [|b b' bs bs' Hb _ IH]; [done|]. csimpl. by rewrite IH, (Hf b b'). Qed.

Lemma alike_Forall (P Q : bio → Prop) bs bs' :
  (∀ b b', bio_alike b b' → P b → Q b') → Forall2 bio_alike bs bs' → Forall P bs → Forall Q bs'.
Proof.
  intros Hf. induction 1 as [|b b' bs bs' Hb _ IH]; [done|]. intros [? ?]%Forall_cons.
  apply Forall_cons. eauto.
Qed.

Lemma alike_chain at_ bs bs' : Forall2 bio_alike bs bs' → chain_ok at_ bs → chain_ok at_ bs'.
Proof.
  intros Hb. revert at_. induction Hb as [|b b' bs bs' [[= E1 E2 ? ? ? ? ?] _] _ IH]; intros at_; [done|]. simpl.
  unfold bio_sectors. rewrite E1, E2. intros [-> ?]. eauto.
Qed.

Lemma alike_flagged r r' m : alike r r' → Z.land HARD m = m → flagged (rq_flags r') m = flagged (rq_flags r) m.
Proof. intros Ha. apply flagged_agree, Ha. Qed.

Lemma alike_wf cap r r' : alike r r' → rq_wf cap r → rq_wf cap r'.
Proof.
  intros Ha [? ? ? ? ? ? [Hb Hl H32] Hne ? Hf ? Hbu]. pose proof Ha as [[= E1 E2 E3 E4 E5 E6 E7] Hfl Hbs].
  split; rewrite ?(alike_flagged _ _ _ Ha) by done; try congruence.
  - split; [| |congruence].
    + eapply (alike_Forall bio_ok bio_ok); eauto using bio_alike_ok.
    + rewrite E2, Hl. f_equal. symmetry. apply (alike_map bi_size); [|done]. by intros b b' [[= ? ? ? ? ? ? ?] _].
  - intros Hn. rewrite Hn in Hbs. by apply Forall2_nil_inv_r in Hbs.
  - rewrite E3. by eapply alike_chain.
  - eapply (alike_Forall (bio_for r)); [|done|done]. intros b b' [[= ? E ? ? ? Ed ?] Ek] (K1 & K2 & K3).
    unfold bio_for. rewrite (land_agree _ _ _ KIND Ek), Ed, E, E5, (land_agree _ _ _ KIND Hfl) by done. done.
  - unfold blk_rq_sectors, blk_rq_bytes in *. by rewrite E2, E3.
  - rewrite E7, Hbu. do 2 f_equal. unfold rq_segs. f_equal. symmetry. apply (alike_map bio_segs); [|done].
    intros b b' [[= ? ? Ei Ev ? ? ?] _]. unfold bio_segs. by rewrite Ei, Ev.
Qed.

Definition privs (r : request) : list Z := bi_private <$> rq_bio r.

(** What the rest of the queue sees of a request. *)
Definition waits (r : request) : Prop :=
  flagged (rq_flags r) REQ_SORTED = true ∧ flagged (rq_flags r) REQ_STARTED = false ∧ flagged (rq_flags r) REQ_SOFTBARRIER = false.
Definition started (r : request) : Prop := flagged (rq_flags r) REQ_STARTED = true.
Definition fresh (r : request) : Prop :=
  flagged (rq_flags r) REQ_SORTED = false ∧ flagged (rq_flags r) REQ_STARTED = false ∧ flagged (rq_flags r) REQ_SOFTBARRIER = false.

Lemma alike_view r r' : alike r r' →
  privs r' = privs r ∧ rq_is_sync r' = rq_is_sync r ∧ rq_hash_key r' = rq_hash_key r ∧ rq_mergeable r' = rq_mergeable r ∧
  (waits r → waits r') ∧ (fresh r → fresh r') ∧ (started r → started r').
Proof.
  intros Ha. pose proof Ha as [[= E1 E2 E3 E4 E5 E6] Hfl Hbs].
  unfold rq_is_sync, rw_is_sync, rq_hash_key, rq_mergeable, blk_rq_pos, blk_rq_sectors, blk_rq_bytes, rq_discard, cmd_fs, waits, fresh, started.
  rewrite E1, E2, E3, !(alike_flagged _ _ _ Ha) by done. split; [|done].
  apply alike_map; [|done]. by intros b b' [[= ? ? ? ? ? ? ?] _].
Qed.

Lemma on_head_alike f bs : (∀ b, bio_alike b (f b)) → Forall2 bio_alike bs (on_head f bs).
Proof. intros Hf. destruct bs; simpl; [done|]. by constructor. Qed.
Lemma on_last_alike f bs : (∀ b, bio_alike b (f b)) → Forall2 bio_alike bs (on_last f bs).
Proof.
  intros Hf. induction bs as [|b bs IH]; [done|]. destruct bs as [|c bs]; simpl; [by constructor|by constructor].
Qed.
Lemma with_bios_alike r bs : Forall2 bio_alike (rq_bio r) bs → alike r (with_bios bs r).
Proof. by split. Qed.
Lemma with_segs_alike r n : alike r (with_segs n r).
Proof. by split. Qed.
Lemma recount_alike `{QueueLimits} b : bio_alike b (recount b).
Proof. unfold recount. by destruct (seg_valid _). Qed.
Lemma set_size_alike n b : bio_alike b (set_front_size n b) ∧ bio_alike b (set_back_size n b).
Proof. done. Qed.

Lemma land_lor_soft f k m : Z.land k m = 0 → Z.land (Z.lor f k) m = Z.land f m.
Proof. intros E. by rewrite Z.land_lor_distr_l, E, Z.lor_0_r. Qed.

Lemma mixed_alike r : alike r (blk_rq_set_mixed_merge r).
Proof.
  unfold blk_rq_set_mixed_merge. destruct (flagged _ _); [done|]. split; [done| |].
  - apply land_lor_soft. done.
  - simpl. induction (rq_bio r) as [|b bs IH]; csimpl; constructor; [|done]. split; [done|]. apply land_lor_soft.
    by rewrite <- Z.land_assoc, Z.land_0_r.
Qed.

(** ** The requests as a list *)

Definition rq_list (m : gmap Z request) : list request := (map_to_list m).*2.
Definition n_sync (b : bool) (rs : list request) : Z := Z.of_nat (length (filter (λ r, rq_is_sync r = b) rs)).
Definition all_privs (rs : list request) : list Z := mjoin (privs <$> rs).
(** The requests at the addresses [F]. *)
Definition rqs_at (m : gmap Z request) (F : list Z) : list request := omap (λ p, m !! p) F.

Lemma rq_list_new m p r : m !! p = None → rq_list (<[p := r]> m) ≡ₚ r :: rq_list m.
Proof. intros Hn. unfold rq_list. by rewrite map_to_list_insert. Qed.
Lemma rq_list_del m p r : m !! p = Some r → rq_list m ≡ₚ r :: rq_list (delete p m).
Proof. intros Hp. rewrite <- (insert_delete_id m p r) at 1 by done. apply rq_list_new, lookup_delete_eq. Qed.
Lemma rq_list_put m p r : rq_list (<[p := r]> m) ≡ₚ r :: rq_list (delete p m).
Proof. rewrite <- insert_delete_eq. apply rq_list_new, lookup_delete_eq. Qed.

Lemma n_sync_cons b r rs : n_sync b (r :: rs) = (if decide (rq_is_sync r = b) then 1 else 0) + n_sync b rs.
Proof. unfold n_sync. rewrite filter_cons. case_decide; simpl; lia. Qed.
Lemma n_sync_nonneg b rs : 0 ≤ n_sync b rs.
Proof. unfold n_sync. lia. Qed.
Lemma n_sync_total rs : n_sync true rs + n_sync false rs = Z.of_nat (length rs).
Proof.
  induction rs as [|r rs IH]; [done|]. rewrite !n_sync_cons. simpl length. destruct (rq_is_sync r); simpl; lia.
Qed.
#[export] Instance n_sync_perm b : Proper ((≡ₚ) ==> (=)) (n_sync b).
Proof. intros rs rs' E. unfold n_sync. by rewrite E. Qed.
#[export] Instance all_privs_perm : Proper ((≡ₚ) ==> (≡ₚ)) all_privs.
Proof. intros rs rs' E. unfold all_privs. by rewrite E. Qed.

Lemma all_privs_cons r rs : all_privs (r :: rs) = privs r ++ all_privs rs.
Proof. done. Qed.

Lemma n_sync_put b m p r r' :
  m !! p = Some r → rq_is_sync r' = rq_is_sync r → n_sync b (rq_list (<[p := r']> m)) = n_sync b (rq_list m).
Proof. intros Hp Hs. by rewrite rq_list_put, (rq_list_del m p r Hp), !n_sync_cons, Hs. Qed.

Lemma rqs_at_cons m q F : rqs_at m (q :: F) = match m !! q with Some r => r :: rqs_at m F | None => rqs_at m F end.
Proof. done. Qed.

Lemma n_sync_put_at b m p r r' F :
  m !! p = Some r → rq_is_sync r' = rq_is_sync r → n_sync b (rqs_at (<[p := r']> m) F) = n_sync b (rqs_at m F).
Proof.
  intros Hp Hs. induction F as [|q F IH]; [done|]. rewrite !rqs_at_cons. destruct (decide (q = p)) as [->|Hq].
  - rewrite lookup_insert_eq, Hp, !n_sync_cons, IH, Hs. done.
  - rewrite lookup_insert_ne by done. destruct (m !! q); [by rewrite !n_sync_cons, IH|done].
Qed.

Lemma rqs_at_other m p r F : p ∉ F → rqs_at (<[p := r]> m) F = rqs_at m F.
Proof.
  intros Hp. induction F as [|q F IH]; [done|]. rewrite !rqs_at_cons. apply not_elem_of_cons in Hp as [? ?].
  by rewrite lookup_insert_ne, IH.
Qed.
Lemma rqs_at_delete m p F : p ∉ F → rqs_at (delete p m) F = rqs_at m F.
Proof.
  intros Hp. induction F as [|q F IH]; [done|]. rewrite !rqs_at_cons. apply not_elem_of_cons in Hp as [? ?].
  by rewrite lookup_delete_ne, IH.
Qed.
Lemma rqs_at_mid m F1 p F2 r : m !! p = Some r → rqs_at m (F1 ++ p :: F2) ≡ₚ r :: rqs_at m (F1 ++ F2).
Proof. intros Hp. unfold rqs_at. rewrite !omap_app. simpl. rewrite Hp. solve_Permutation. Qed.

(** ** The invariant *)

(** The requests of [m] found in the hash [h] are the ones that wait in [l], in
    the bucket of their end, but for those in [X] that are being merged with; all
    that can be merged with are there. *)
Record hash_ok (X : list Z) (h : list (Z * Z)) (m : gmap Z request) (l : list Z) : Prop := {
  ha_nodup : NoDup h.*2;
  ha_bucket b p : (b, p) ∈ h → p ∈ l ∧ ∃ r, m !! p = Some r ∧ (p ∉ X → b = ELV_HASH_FN (rq_hash_key r));
  ha_all p r : p ∈ l → m !! p = Some r → rq_mergeable r = true → p ∈ h.*2
}.

Definition last_ok (last : Z) (m : gmap Z request) (l : list Z) : Prop :=
  last = 0 ∨ last ∈ l ∧ ∃ r, m !! last = Some r ∧ rq_mergeable r = true.

Class LimitsOk `{QueueLimits} (cap : Z) : Prop := {
  lim_sectors : 0 ≤ queue_max_sectors < 2 ^ 23;
  lim_nr : 0 < nr_requests < 2 ^ 28;
  lim_cap : 0 ≤ cap < 2 ^ 63
}.

Section Inv.
Context `{QueueLimits} `{QueuePlace} (ops : elevator_ops) (cap : Z) `{!SchedOk ops cap}.

(** Requests [l] wait in the scheduler, [D] in the dispatch queue, [F] are with
    the driver and [out] with tasks. *)
Record places (io : ioq) (m : gmap Z request) (l D F out : list Z) : Prop := {
  pl_sched : sched_rep sched_inv io l D;
  pl_nodup : NoDup (l ++ D ++ F ++ out);
  pl_all p : p ∈ l ++ D ++ F ++ out ↔ is_Some (m !! p);
  pl_free p : p ∈ F ++ out → dll (lists_mem io) p [];
  pl_addr p : is_Some (m !! p) → p ≠ 0 ∧ p ≠ nd_at ∧ p ≠ head_at
}.

Record contents (m : gmap Z request) (l F out : list Z) : Prop := {
  co_wf p r : m !! p = Some r → rq_wf cap r;
  co_waits p r : p ∈ l → m !! p = Some r → waits r;
  co_started p r : p ∈ F → m !! p = Some r → started r;
  co_fresh p r : p ∈ out → m !! p = Some r → fresh r
}.

Record counted (rl : request_list) (fl : bool → Z) (m : gmap Z request) (F : list Z) : Prop := {
  cn_count b : rl_count rl b = n_sync b (rq_list m);
  cn_limit b : n_sync b (rq_list m) ≤ 3 * nr_requests / 2;
  cn_priv : rl_elvpriv rl = Z.of_nat (length (rq_list m));
  cn_flight b : fl b = n_sync b (rqs_at m F)
}.

(** [sub] are the bios submitted, but for those no request was found for yet. *)
Record queue_ok_at (X out sub : list Z) (s : rqueue) (l D F : list Z) : Prop := {
  qo_places : places (q_io s) (q_rqs s) l D F out;
  qo_contents : contents (q_rqs s) l F out;
  qo_counted : counted (q_rl s) (in_flight s) (q_rqs s) F;
  qo_hash : hash_ok X (rq_hash (q_io s)) (q_rqs s) l;
  qo_last : last_ok (last_merge (q_io s)) (q_rqs s) l;
  qo_nr : nr_sorted (q_io s) = Z.of_nat (length l);
  qo_bios : (q_ended s).*1 ++ all_privs (rq_list (q_rqs s)) ≡ₚ sub
}.

(** ** Changing one request *)

Lemma places_put io m l D F out p r r' : m !! p = Some r → places io m l D F out → places io (<[p := r']> m) l D F out.
Proof.
  intros Hp [? ? Ha ? Hz].
  assert (∀ q, is_Some (<[p := r']> m !! q) ↔ is_Some (m !! q)) as E.
  { intros q. destruct (decide (q = p)) as [->|]; [by rewrite lookup_insert_eq, Hp|by rewrite lookup_insert_ne]. }
  split; try done; intros q; rewrite E; [apply Ha|apply Hz].
Qed.

Lemma places_io io io' m l D F out :
  (lists_mem io', enqueue io', queue_count io') = (lists_mem io, enqueue io, queue_count io) →
  places io m l D F out → places io' m l D F out.
Proof.
  intros [= E1 E2 E3] [[Hl Hi] ? ? Hf ?]. split; try done; [|by rewrite E1].
  split; [by eapply lists_ok_ext|by rewrite E2, E3].
Qed.

Lemma contents_put m l F out p r' :
  contents m l F out → rq_wf cap r' → (p ∈ l → waits r') → (p ∈ F → started r') → (p ∈ out → fresh r') →
  contents (<[p := r']> m) l F out.
Proof. intros [] ? ? ? ?. split; intros q r; rewrite lookup_insert_Some; naive_solver. Qed.

Lemma counted_put rl fl m F p r r' :
  m !! p = Some r → rq_is_sync r' = rq_is_sync r → counted rl fl m F → counted rl fl (<[p := r']> m) F.
Proof.
  intros Hp Hs [Hc Hm Hv Hf]. split; [intros b; by rewrite (n_sync_put b m p r r')..| |intros b; by rewrite (n_sync_put_at b m p r r')].
  by rewrite Hv, rq_list_put, (rq_list_del m p r Hp).
Qed.

Lemma hash_put X h m l p r r' :
  m !! p = Some r → rq_hash_key r' = rq_hash_key r → (rq_mergeable r' = true → rq_mergeable r = true) →
  hash_ok X h m l → hash_ok X h (<[p := r']> m) l.
Proof.
  intros Hp Hk Hm [? Hb Ha]. split; [done| |].
  - intros b q Hq. destruct (Hb b q Hq) as (? & r0 & E & Hx). split; [done|]. destruct (decide (q = p)) as [->|].
    + exists r'. rewrite lookup_insert_eq, Hk. split; [done|]. intros Hq'. rewrite (Hx Hq'). congruence.
    + exists r0. by rewrite lookup_insert_ne.
  - intros q r0 Hq. rewrite lookup_insert_Some. intros [[-> ->]|[? ?]] ?; [by apply (Ha q r); auto|by eapply Ha].
Qed.

Lemma last_put last m l p r' :
  (last = p → rq_mergeable r' = true) → last_ok last m l → last_ok last (<[p := r']> m) l.
Proof.
  intros Hm [->|(Hl & r & E & Hr)]; [by left|right]. split; [done|]. destruct (decide (last = p)) as [->|].
  - exists r'. rewrite lookup_insert_eq. auto.
  - exists r. by rewrite lookup_insert_ne.
Qed.

Lemma privs_put m p r r' extra :
  m !! p = Some r → privs r' ≡ₚ extra ++ privs r → all_privs (rq_list (<[p := r']> m)) ≡ₚ extra ++ all_privs (rq_list m).
Proof. intros Hp Hx. by rewrite rq_list_put, (rq_list_del m p r Hp), !all_privs_cons, Hx, app_assoc. Qed.

(** Request [r'] is [r] with the bios [extra] more. *)
Record grows (extra : list Z) (r r' : request) : Prop := {
  gr_wf : rq_wf cap r';
  gr_sync : rq_is_sync r' = rq_is_sync r;
  gr_merge : rq_mergeable r' = rq_mergeable r;
  gr_waits : waits r → waits r';
  gr_started : started r → started r';
  gr_fresh : fresh r → fresh r';
  gr_privs : privs r' ≡ₚ extra ++ privs r
}.

Lemma hash_grow X X' h m l p r r' :
  m !! p = Some r → X ⊆ X' → (p ∈ X' ∨ p ∉ l ∨ rq_hash_key r' = rq_hash_key r) → rq_mergeable r' = rq_mergeable r →
  hash_ok X h m l → hash_ok X' h (<[p := r']> m) l.
Proof.
  intros Hp HX Hk Hm [? Hb Ha]. split; [done| |].
  - intros b q Hq. destruct (Hb b q Hq) as (? & r0 & E & Hx). split; [done|]. destruct (decide (q = p)) as [->|].
    + exists r'. rewrite lookup_insert_eq. split; [done|]. intros Hq'. destruct Hk as [?|[?|Hk]]; [done|done|].
      rewrite Hk, Hx by set_solver. congruence.
    + exists r0. rewrite lookup_insert_ne by done. split; [done|]. intros ?. apply Hx. set_solver.
  - intros q r0 Hq. rewrite lookup_insert_Some. intros [[-> ->]|[? ?]] ?; [by apply (Ha q r); [..|congruence]|by eapply Ha].
Qed.

Lemma last_nz io m l D F out p : places io m l D F out → is_Some (m !! p) → p ≠ 0.
Proof. intros P Hp. by apply (pl_addr _ _ _ _ _ _ P). Qed.

Lemma ok_grow X X' out sub s l D F p r r' extra :
  queue_ok_at X out sub s l D F → q_rqs s !! p = Some r → grows extra r r' → X ⊆ X' →
  (p ∈ X' ∨ p ∉ l ∨ rq_hash_key r' = rq_hash_key r) →
  queue_ok_at X' out (extra ++ sub) (set_rqs (<[p := r']> (q_rqs s)) s) l D F.
Proof.
  intros [P Co Cn Ha La Nr Bi] Hp [G1 G2 G3 G4 G5 G6 G7] HX Hk.
  split; simpl; [by eapply places_put| | |by eapply hash_grow| |done|].
  - apply contents_put; [done..| | |]; intros Hq; [apply G4|apply G5|apply G6]; by eapply Co.
  - by eapply counted_put.
  - apply last_put; [|done]. intros <-. rewrite G3. destruct La as [E|(_ & r0 & E & ?)]; [|congruence].
    exfalso. by eapply last_nz.
  - rewrite (privs_put _ p r r' extra) by done. rewrite <- Bi. solve_Permutation.
Qed.

Lemma alike_grows r r' : rq_wf cap r → alike r r' → grows [] r r'.
Proof.
  intros Hw Ha. destruct (alike_view r r' Ha) as (V1 & V2 & V3 & V4 & V5 & V6 & V7). split; try done; [by eapply alike_wf|by rewrite V1].
Qed.

Lemma ok_alike X out sub s l D F p r r' :
  queue_ok_at X out sub s l D F → q_rqs s !! p = Some r → alike r r' →
  queue_ok_at X out sub (set_rqs (<[p := r']> (q_rqs s)) s) l D F.
Proof.
  intros I Hp Ha. apply (ok_grow X X out sub s l D F p r r' []); [done|done|apply alike_grows; [by eapply co_wf, Hp; apply I|done]|done|].
  right. right. by apply alike_view.
Qed.
End Inv.
