(* ===== verification/ElevatorMerge.v ===== *)
(** * Merging keeps the invariant (block/blk-merge.c, elevator.c) *)

From stdpp Require Import functions.
From S2P Require Import Prelude BlkTypes BlkRequest ListHead Sstf Elevator ElevatorSched ElevatorInv.

(** ** Flags *)

(** Flags that say nothing about what a request is. *)
Definition plain_flag (f : Z) : Prop :=
  Z.land f KIND = 0 ∧ Z.land f (Z.lor REQ_FLUSH (Z.lor REQ_FUA REQ_FLUSH_SEQ)) = 0 ∧ Z.land f REQ_SYNC = 0.

Lemma flagged_zero f m : Z.land f m = 0 → flagged f m = false.
Proof. unfold flagged. by intros ->. Qed.

Lemma wf_add_flags cap f r : plain_flag f → rq_wf cap r → rq_wf cap (add_flags f r).
Proof.
  intros (H1 & H2 & _) []. split; try done; simpl; rewrite ?flagged_lor.
  - by rewrite rw_alloced.
  - by rewrite rw_priv.
  - by rewrite rw_plain, flagged_zero.
  - by destruct rw_ok.
  - eapply Forall_impl; [done|]. intros b (K & ? & ?). split; [|done]. simpl. by rewrite land_lor_soft.
Qed.

Lemma sync_add_flags f r : plain_flag f → rq_is_sync (add_flags f r) = rq_is_sync r.
Proof.
  intros (H1 & _ & H3). unfold rq_is_sync, rw_is_sync. simpl. rewrite !flagged_lor, (flagged_zero f REQ_SYNC) by done.
  rewrite (flagged_zero f REQ_WRITE), !orb_false_r; [done|]. unfold KIND in H1. rewrite Z.land_lor_distr_r in H1.
  by apply Z.lor_eq_0_iff in H1 as [? _].
Qed.

Lemma key_add_flags f r : rq_hash_key (add_flags f r) = rq_hash_key r.
Proof. done. Qed.

Lemma nomerge_not_mergeable r : rq_mergeable (add_flags REQ_NOMERGE r) = false.
Proof. unfold rq_mergeable. simpl. by rewrite flagged_lor, orb_true_r. Qed.

Lemma flagged_sub f m k : Z.land f m = 0 → Z.land m k = k → flagged f k = false.
Proof. intros E <-. unfold flagged. by rewrite Z.land_assoc, E. Qed.

Definition STATUS : Z := Z.lor REQ_SORTED (Z.lor REQ_STARTED REQ_SOFTBARRIER).

Lemma view_add_flags f r : Z.land f STATUS = 0 →
  (waits r → waits (add_flags f r)) ∧ (started r → started (add_flags f r)) ∧ (fresh r → fresh (add_flags f r)).
Proof.
  intros Hf. unfold waits, started, fresh. simpl. rewrite !flagged_lor.
  by rewrite !(flagged_sub f STATUS) by done; rewrite !orb_false_r.
Qed.

(** ** The hash, on its own *)

Lemma elem_hash_del p q h : q ∈ (hash_del p h).*2 ↔ q ∈ h.*2 ∧ q ≠ p.
Proof.
  unfold hash_del. rewrite !list_elem_of_fmap. setoid_rewrite list_elem_of_filter. split.
  - intros (e & -> & ? & ?). eauto.
  - intros [(e & -> & ?) ?]. eauto.
Qed.

Lemma NoDup_hash_del p h : NoDup h.*2 → NoDup (hash_del p h).*2.
Proof.
  induction h as [|[b q] h IH]; [done|]. csimpl. intros [Hq Hn]%NoDup_cons. unfold hash_del. rewrite filter_cons.
  case_decide; [|by apply IH]. csimpl. apply NoDup_cons. split; [|by apply IH]. fold (hash_del p h). rewrite elem_hash_del. tauto.
Qed.

Lemma hash_del_ok X h m l p :
  hash_ok X h m l → (∀ r, p ∈ l → m !! p = Some r → rq_mergeable r = false) → hash_ok X (hash_del p h) m l.
Proof.
  intros [Hn Hb Ha] Hp. split; [by apply NoDup_hash_del| |].
  - intros b q [_ Hq]%list_elem_of_filter. by apply Hb.
  - intros q r Hq Hr Hm. apply elem_hash_del. split; [by eapply Ha|]. intros ->. by rewrite Hp in Hm.
Qed.

Lemma hash_reposition X h m l p r :
  hash_ok X h m l → X ⊆ [p] → p ∈ l → m !! p = Some r →
  hash_ok [] ((ELV_HASH_FN (rq_hash_key r), p) :: hash_del p h) m l.
Proof.
  intros [Hn Hb Ha] HX Hp Hr. split.
  - csimpl. apply NoDup_cons. split; [rewrite elem_hash_del; naive_solver|by apply NoDup_hash_del].
  - intros b q [[= -> ->]|[Hne Hq]%list_elem_of_filter]%elem_of_cons; [eauto|].
    destruct (Hb b q Hq) as (? & r' & ? & Hx). split; [done|]. exists r'. split; [done|]. intros _. apply Hx. set_solver.
  - intros q r' Hq Hr' Hm. csimpl. apply elem_of_cons. destruct (decide (q = p)) as [|Hne]; [by left|right].
    apply elem_hash_del. split; [by eapply Ha|done].
Qed.

Lemma elem_chain b p h : p ∈ chain b h ↔ (b, p) ∈ h.
Proof.
  unfold chain. rewrite list_elem_of_fmap. setoid_rewrite list_elem_of_filter. split.
  - by intros ([b' p'] & -> & [= ->] & ?).
  - intros ?. by exists (b, p).
Qed.

Lemma NoDup_chain b h : NoDup h.*2 → NoDup (chain b h).
Proof.
  unfold chain. induction h as [|[b' p] h IH]; [done|]. csimpl. intros [Hp Hn]%NoDup_cons. rewrite filter_cons.
  case_decide; [|by apply IH]. csimpl. apply NoDup_cons. split; [|by apply IH]. change (p ∉ chain b h). rewrite elem_chain.
  intros Hc. apply Hp, list_elem_of_fmap. by exists (b, p).
Qed.

Lemma same_bits_eq m x y : same_bits m x y = true ↔ Z.land x m = Z.land y m.
Proof. apply Z.eqb_eq. Qed.

Lemma kind_eq x y :
  Z.land x KIND = Z.land y KIND ↔
  Z.land x REQ_WRITE = Z.land y REQ_WRITE ∧ Z.land x REQ_DISCARD = Z.land y REQ_DISCARD ∧ Z.land x REQ_SECURE = Z.land y REQ_SECURE.
Proof.
  split.
  - intros E. split_and!; by apply (land_agree _ _ KIND).
  - intros (E1 & E2 & E3). unfold KIND. rewrite !Z.land_lor_distr_r. congruence.
Qed.

Lemma hash_delete X h m l p : p ∉ l → hash_ok X h m l → hash_ok X h (delete p m) l.
Proof.
  intros Hp [? Hb Ha]. split; [done| |].
  - intros b q Hq. destruct (Hb b q Hq) as (? & r & ? & ?). split; [done|]. exists r. rewrite lookup_delete_ne by set_solver. done.
  - intros q r Hq. rewrite lookup_delete_Some. intros [_ ?]. by eapply Ha.
Qed.

Lemma last_delete last m l p : p ∉ l → last_ok last m l → last_ok last (delete p m) l.
Proof.
  intros Hp [?|(? & r & ? & ?)]; [by left|right]. split; [done|]. exists r. rewrite lookup_delete_ne by set_solver. done.
Qed.

Lemma hash_remove h m l1 p l2 :
  NoDup (l1 ++ p :: l2) → hash_ok [] h m (l1 ++ p :: l2) → hash_ok [] (hash_del p h) m (l1 ++ l2).
Proof.
  intros Hnd [Hn Hb Ha]. apply nodup_middle in Hnd as [[? ?] _]. split; [by apply NoDup_hash_del| |].
  - intros b q [Hne Hq]%list_elem_of_filter. simpl in Hne. destruct (Hb b q Hq) as (? & ?). split; [set_solver|done].
  - intros q r Hq Hr Hm. apply elem_hash_del. split; [eapply Ha; [set_solver|done..]|]. intros ->. set_solver.
Qed.

Lemma alike_ends r r' : alike r r' → rq_sector r' = rq_sector r ∧ blk_rq_sectors r' = blk_rq_sectors r ∧ data_len r' = data_len r.
Proof. intros [[= ? E ? ? ? ?] _ _]. unfold blk_rq_sectors, blk_rq_bytes. by rewrite E. Qed.

Lemma alike_bio_for r r' b b' : alike r r' → bio_alike b b' → bio_for r b → bio_for r' b'.
Proof.
  intros [[= ? ? ? ? Ed ?] Hf _] [[= ? Es ? ? ? Eb ?] Hk] (K1 & K2 & K3).
  split_and!; [|congruence|congruence]. by rewrite (land_agree _ _ _ KIND Hk), K1, (land_agree _ _ _ KIND Hf).
Qed.

Lemma bind_tail3 {S A B C} (c1 : cmd S A) (c2 : cmd S B) (c3 : cmd S C) {E} (k : cmd S E) s Q :
  runs (c1 ;; (c2 ;; (c3 ;; k))) s Q ↔ runs ((c1 ;; c2 ;; c3) ;; k) s Q.
Proof.
  unfold runs, mbind, cmd_bind. destruct (c1 s) as [[a s1]| |]; [|done..]. destruct (c2 s1) as [[b s2]| |]; [|done..]. done.
Qed.

Section Merge.
Context `{QueueLimits} `{QueuePlace} (ops : elevator_ops) (cap : Z) `{!SchedOk ops cap} `{!LimitsOk cap}.
Notation queue_ok_at := (queue_ok_at ops cap).

Lemma lookup_of X out sub s l D F p :
  queue_ok_at X out sub s l D F → p ∈ l ++ D ++ F ++ out → ∃ r, q_rqs s !! p = Some r ∧ rq_wf cap r.
Proof.
  intros I Hp. apply (pl_all _ _ _ _ _ _ _ _ (qo_places _ _ _ _ _ _ _ _ _ I)) in Hp as [r Hr]. exists r. split; [done|].
  by eapply co_wf; [apply I|].
Qed.

(** Changes of the books that the places do not see. *)
Lemma places_books io h last nr e m l D F out :
  places ops cap io m l D F out → places ops cap (mk_ioq (lists_mem io) (enqueue io) (queue_count io) nr e last h) m l D F out.
Proof. by apply places_io. Qed.

Lemma no_merge_ok X out sub s l D F p r :
  queue_ok_at X out sub s l D F → q_rqs s !! p = Some r →
  runs (no_merge p) s (λ _ s', queue_ok_at X out sub s' l D F).
Proof.
  intros [P Co Cn Ha La Nr Bi] Hp. apply runs_bind, (runs_alter _ _ r); [done|].
  assert (plain_flag REQ_NOMERGE) as Hf by done. set (r' := add_flags REQ_NOMERGE r).
  assert (places ops cap (q_io s) (<[p := r']> (q_rqs s)) l D F out) as P' by by eapply places_put.
  assert (hash_ok X (rq_hash (q_io s)) (<[p := r']> (q_rqs s)) l) as Ha'.
  { eapply hash_put; [done|done| |done]. unfold r'. by rewrite nomerge_not_mergeable. }
  assert (contents cap (<[p := r']> (q_rqs s)) l F out) as Co'.
  { destruct (view_add_flags REQ_NOMERGE r eq_refl) as (V1 & V2 & V3).
    apply contents_put; [done|apply wf_add_flags; [done|by eapply co_wf]|..]; intros Hq; [apply V1|apply V2|apply V3]; by eapply Co. }
  assert (counted (q_rl s) (in_flight s) (<[p := r']> (q_rqs s)) F) as Cn' by (eapply counted_put; [done|by apply sync_add_flags|done]).
  assert ((q_ended s).*1 ++ all_privs (rq_list (<[p := r']> (q_rqs s))) ≡ₚ sub) as Bi'.
  { rewrite (privs_put _ p r r' []); done. }
  unfold modify_io, runs, modify. simpl. case_decide as El.
  - split; simpl; try done; [by apply places_books|by left].
  - split; simpl; try done. apply last_put; [done|done].
Qed.

(** ** Counting segments *)

Lemma ll_new_hw_segment_ok X out sub s l D F p r b :
  queue_ok_at X out sub s l D F → q_rqs s !! p = Some r →
  runs (ll_new_hw_segment p b) s (λ ok s', queue_ok_at X out sub s' l D F ∧
    (ok = true → ∃ r', q_rqs s' !! p = Some r' ∧ alike r r')).
Proof.
  intros I Hp. apply runs_bind, (runs_get _ r); [done|]. cbv zeta. destruct (_ <? _).
  - apply runs_bind. eapply runs_mono; [by eapply no_merge_ok|]. intros [] s' I'. by apply runs_ret.
  - apply runs_bind. eapply runs_ok; [apply modify_ok|]. apply runs_ret.
    split; [eapply ok_alike; [done..|apply with_segs_alike]|]. intros _. eexists. simpl. rewrite lookup_insert_eq.
    split; [done|apply with_segs_alike].
Qed.

(** What both [ll_back_merge_fn] and [ll_front_merge_fn] promise. *)
Definition fn_post (X out sub : list Z) (s : rqueue) (l D F : list Z) (p : Z) (r : request) (b : bio) (res : bool * bio) (s' : rqueue) : Prop :=
  bio_alike b res.2 ∧ queue_ok_at X out sub s' l D F ∧
  (res.1 = true → ∃ r', q_rqs s' !! p = Some r' ∧ alike r r' ∧ u32 (blk_rq_sectors r + bio_sectors b) ≤ 65535).

Lemma ll_merge_fn_ok X out sub s l D F p r b bs :
  queue_ok_at X out sub s l D F → q_rqs s !! p = Some r → Forall2 bio_alike (rq_bio r) bs →
  runs (if merge_limit r <? u32 (blk_rq_sectors r + bio_sectors b) then no_merge p ;; mret (false, b)
        else rq_put p (with_bios bs r) ;; ok ← ll_new_hw_segment p (recount b); mret (ok, recount b)) s
    (fn_post X out sub s l D F p r b).
Proof.
  intros I Hp Hbs. destruct (Z.ltb_spec (merge_limit r) (u32 (blk_rq_sectors r + bio_sectors b))) as [|Hle].
  - apply runs_bind. eapply runs_mono; [by eapply no_merge_ok|]. intros [] s' I'. apply runs_ret. done.
  - apply runs_bind. eapply runs_ok; [apply modify_ok|]. apply runs_bind.
    pose proof (with_bios_alike r bs Hbs) as Ha. eapply runs_mono.
    { eapply ll_new_hw_segment_ok; [by eapply ok_alike|simpl; by rewrite lookup_insert_eq]. }
    intros ok s' [I' Hok]. apply runs_ret. split; [apply recount_alike|]. split; [done|]. intros [r' [Hr' Ha']]%Hok.
    exists r'. split; [done|]. split; [by etrans|].
    assert (merge_limit r < 2 ^ 16) by (unfold merge_limit, u16; apply wrap_u_range; lia). lia.
Qed.

Lemma ll_back_merge_fn_ok X out sub s l D F p r b :
  queue_ok_at X out sub s l D F → q_rqs s !! p = Some r →
  runs (ll_back_merge_fn p b) s (fn_post X out sub s l D F p r b).
Proof.
  intros I Hp. apply runs_bind, (runs_get _ r); [done|]. apply ll_merge_fn_ok; [done..|].
  apply on_last_alike. intros. apply recount_alike.
Qed.

Lemma ll_front_merge_fn_ok X out sub s l D F p r b :
  queue_ok_at X out sub s l D F → q_rqs s !! p = Some r →
  runs (ll_front_merge_fn p b) s (fn_post X out sub s l D F p r b).
Proof.
  intros I Hp. apply runs_bind, (runs_get _ r); [done|]. apply ll_merge_fn_ok; [done..|].
  apply on_head_alike. intros. apply recount_alike.
Qed.

(** ** Adding bios to a request *)

Definition append_bios (bs : list bio) (n : Z) (r : request) : request :=
  with_len (u32 (data_len r + n)) (with_bios (rq_bio r ++ bs) r).

Lemma grow_append r bs n :
  rq_wf cap r → Forall bio_ok bs → Forall (bio_for r) bs → chain_ok (rq_sector r + blk_rq_sectors r) bs →
  n = sumZ (bi_size <$> bs) → data_len r + n < 2 ^ 32 → rq_sector r + blk_rq_sectors r + bios_sectors bs ≤ cap →
  grows cap (bi_private <$> bs) r (append_bios bs n r).
Proof.
  intros W Hb Hf Hc -> H32 Hr. pose proof (sizes_nonneg _ Hb). destruct (rq_len_pos cap r W) as [Hl Hm].
  pose proof (rq_sectors cap r W) as Hs. pose proof W as [? ? ? ? ? ? [Ro1 Ro2 Ro3] Hne Hch Hfor [? ?] Hbu].
  assert (u32 (data_len r + sumZ (bi_size <$> bs)) = data_len r + sumZ (bi_size <$> bs)) as Eu by (apply u32_id; lia).
  split; try done; unfold append_bios; [split; try done; simpl|].
  - split; simpl; rewrite ?Eu; [by apply Forall_app|by rewrite fmap_app, sumZ_app, Ro2|lia].
  - by destruct (rq_bio r).
  - apply chain_app. split; [done|]. by rewrite <- Hs.
  - apply Forall_app. done.
  - split; [done|]. unfold blk_rq_sectors, blk_rq_bytes. simpl. rewrite Eu, sectors_add by done.
    rewrite bios_sectors_sum; [unfold blk_rq_sectors, blk_rq_bytes in Hr; lia|].
    eapply Forall_impl; [done|]. by intros b (_ & _ & ?).
  - rewrite Hbu. f_equal. unfold rq_segs. simpl. destruct (rq_bio r) as [|b bs0]; [done|]. apply Forall_cons in Ro1 as [Hok _].
    by apply bio_data_head.
  - unfold privs. simpl. rewrite fmap_app. solve_Permutation.
Qed.

Definition prepend_bio (b : bio) (r : request) : request :=
  with_len (u32 (data_len r + bi_size b)) (with_start b (with_bios (b :: rq_bio r) r)).

Lemma grow_prepend r b :
  rq_wf cap r → bio_wf cap b → bio_for r b → bi_sector b + bio_sectors b = rq_sector r → data_len r + bi_size b < 2 ^ 32 →
  grows cap [bi_private b] r (prepend_bio b r) ∧ rq_hash_key (prepend_bio b r) = rq_hash_key r.
Proof.
  intros W Hb Hf Hc H32. pose proof (bio_ok_pos _ (bw_ok _ _ Hb)). destruct (rq_len_pos cap r W) as [Hl Hm].
  pose proof W as [? ? ? ? ? ? [Ro1 Ro2 Ro3] Hne Hch Hfor [? ?] Hbu].
  assert (u32 (data_len r + bi_size b) = data_len r + bi_size b) as Eu by (apply u32_id; lia).
  assert (blk_rq_sectors (prepend_bio b r) = blk_rq_sectors r + bio_sectors b) as Es.
  { unfold blk_rq_sectors, blk_rq_bytes. simpl. by rewrite Eu, sectors_add. }
  destruct (bw_range _ _ Hb). split.
  - split; try done. split; try done; unfold prepend_bio; simpl.
    + split; simpl; rewrite ?Eu; [apply Forall_cons; split; [apply Hb|done]|by rewrite Ro2, Z.add_comm|lia].
    + split; [done|]. by rewrite Hc.
    + by apply Forall_cons.
    + split; [lia|]. change (bi_sector b + blk_rq_sectors (prepend_bio b r) ≤ cap). lia.
    + apply (bio_data_head b (rq_bio r) []), Hb.
  - unfold rq_hash_key. rewrite Es. f_equal. unfold blk_rq_pos. simpl. lia.
Qed.

Lemma alike_bio_wf b b' : bio_alike b b' → bio_wf cap b → bio_wf cap b'.
Proof.
  intros Ha [Hok ? ? ?]. pose proof (bio_alike_ok _ _ Ha Hok). destruct Ha as [[= E1 E2 ? ? ? ? ?] _].
  split; unfold bio_sectors in *; rewrite ?E1, ?E2; done.
Qed.

(** Bio [b] goes behind, or in front of, the bios of [r]. *)
Definition can_back (r : request) (b : bio) : Prop := bio_for r b ∧ rq_sector r + blk_rq_sectors r = bi_sector b.
Definition can_front (r : request) (b : bio) : Prop := bio_for r b ∧ bi_sector b + bio_sectors b = rq_sector r.

Lemma merged_len r b : rq_wf cap r → bio_wf cap b → u32 (blk_rq_sectors r + bio_sectors b) ≤ 65535 → data_len r + bi_size b < 2 ^ 32.
Proof.
  intros W Hb Hle. destruct (rq_sectors_pos _ _ W) as [? ?], (bio_sectors_pos _ _ Hb) as [? ?]. rewrite u32_id in Hle by lia. lia.
Qed.

Lemma mixed_ok X out sub s l D F p r (c : bool) :
  queue_ok_at X out sub s l D F → q_rqs s !! p = Some r →
  runs (if c then rq_alter blk_rq_set_mixed_merge p else mret tt) s (λ _ s',
    queue_ok_at X out sub s' l D F ∧ ∃ r', q_rqs s' !! p = Some r' ∧ alike r r').
Proof.
  intros I Hp. destruct c; [|apply runs_ret; split; [done|by exists r]]. apply (runs_alter _ _ r); [done|].
  split; [eapply ok_alike; [done..|apply mixed_alike]|]. simpl. rewrite lookup_insert_eq. eauto using mixed_alike.
Qed.

(** What is left of bio [b] after an attempt to merge it. *)
Definition attempt_post (X X' out sub : list Z) (l D F : list Z) (p : Z) (r : request) (b : bio) (m : option bio) (s' : rqueue) : Prop :=
  match m with
  | None => queue_ok_at X' out (bi_private b :: sub) s' l D F ∧
            ∃ r', q_rqs s' !! p = Some r' ∧ rq_mergeable r' = rq_mergeable r
  | Some b' => bio_alike b b' ∧ queue_ok_at X out sub s' l D F
  end.

Lemma bio_attempt_ok X X' out sub s l D F p r b (fn : qM (bool * bio)) (grow : bio → request → request) :
  queue_ok_at X out sub s l D F → q_rqs s !! p = Some r → bio_wf cap b → X ⊆ X' →
  runs fn s (fn_post X out sub s l D F p r b) →
  (∀ r' b', alike r r' → bio_alike b b' → rq_wf cap r' → bio_wf cap b' → data_len r' + bi_size b' < 2 ^ 32 →
     grows cap [bi_private b'] r' (grow b' r') ∧ (p ∈ X' ∨ p ∉ l ∨ rq_hash_key (grow b' r') = rq_hash_key r')) →
  runs ('(ok, b) ← fn;
        if negb ok then mret (Some b)
        else
          r ← rq_get p;
          (if negb (same_bits REQ_FAILFAST_MASK (rq_flags r) (bi_rw b)) then rq_alter blk_rq_set_mixed_merge p else mret tt) ;;
          rq_alter (grow b) p ;; mret None) s (attempt_post X X' out sub l D F p r b).
Proof.
  intros I Hp Hb HX Hfn Hg. apply runs_bind. eapply runs_mono; [exact Hfn|]. intros [ok b'] s1 (Hb' & I1 & Hok). simpl in *.
  destruct ok; simpl; [|by apply runs_ret]. destruct (Hok eq_refl) as (r1 & Hr1 & Ha1 & Hle).
  apply runs_bind, (runs_get _ r1); [done|]. apply runs_bind. eapply runs_mono; [by eapply mixed_ok|].
  intros [] s2 (I2 & r2 & Hr2 & Ha2). apply runs_bind, (runs_alter _ _ r2); [done|]. apply runs_ret. simpl.
  assert (alike r r2) as Ha by by etrans.
  assert (rq_wf cap r2) as W2 by (by eapply co_wf, Hr2; apply I2). pose proof (alike_bio_wf _ _ Hb' Hb) as Wb.
  assert (bi_private b' = bi_private b ∧ bi_size b' = bi_size b) as [Ep Ez] by (destruct Hb' as [[= ? ? ? ? ? ? ?] _]; done).
  destruct (Hg r2 b') as [G K]; try done.
  { destruct (alike_ends _ _ Ha) as (_ & _ & ->). rewrite Ez. eapply merged_len; [|done|done]. by eapply co_wf, Hp; apply I. }
  rewrite Ep in G. split; [by apply (ok_grow ops cap X X' out sub s2 l D F p r2 (grow b' r2) [bi_private b])|].
  exists (grow b' r2). simpl. rewrite lookup_insert_eq, (gr_merge _ _ _ _ G). split; [done|]. by apply alike_view.
Qed.

Lemma bio_attempt_back_merge_ok X X' out sub s l D F p r b :
  queue_ok_at X out sub s l D F → q_rqs s !! p = Some r → bio_wf cap b → can_back r b → X ⊆ X' → (p ∈ X' ∨ p ∉ l) →
  runs (bio_attempt_back_merge p b) s (attempt_post X X' out sub l D F p r b).
Proof.
  intros I Hp Hb [Hf Hc] HX Hx. apply (bio_attempt_ok X X' out sub s l D F p r b _ (λ b r, append_bios [b] (bi_size b) r)); try done.
  { by apply ll_back_merge_fn_ok. }
  intros r' b' Ha Hb' W' Wb' H32. destruct (alike_ends _ _ Ha) as (E1 & E2 & _). split; [|tauto].
  destruct (bw_range _ _ Wb'). assert (rq_sector r' + blk_rq_sectors r' = bi_sector b') as Es.
  { rewrite E1, E2, Hc. by destruct Hb' as [[= ? ? ? ? ? ? ?] _]. }
  apply (grow_append r' [b']); try done.
  - apply Forall_singleton, Wb'.
  - apply Forall_singleton. by eapply alike_bio_for.
  - csimpl. lia.
  - rewrite Es. unfold bios_sectors. csimpl. lia.
Qed.

Lemma bio_attempt_front_merge_ok X out sub s l D F p r b :
  queue_ok_at X out sub s l D F → q_rqs s !! p = Some r → bio_wf cap b → can_front r b →
  runs (bio_attempt_front_merge p b) s (attempt_post X X out sub l D F p r b).
Proof.
  intros I Hp Hb [Hf Hc]. apply (bio_attempt_ok X X out sub s l D F p r b _ prepend_bio); try done.
  { by apply ll_front_merge_fn_ok. }
  intros r' b' Ha Hb' W' Wb' H32. destruct (alike_ends _ _ Ha) as (E1 & E2 & _).
  destruct (grow_prepend r' b') as [G K]; try done; [by eapply alike_bio_for| |by auto].
  rewrite E1, <- Hc. unfold bio_sectors. by destruct Hb' as [[= -> -> ? ? ? ? ?] _].
Qed.

(** ** The hash *)

Lemma ok_hash X X' out sub s l D F h :
  queue_ok_at X out sub s l D F → hash_ok X' h (q_rqs s) l →
  queue_ok_at X' out sub (set_io (io_hash h (q_io s)) s) l D F.
Proof. intros [] Hh. split; simpl; try done. by apply places_books. Qed.

Lemma ok_last X out sub s l D F p :
  queue_ok_at X out sub s l D F → last_ok p (q_rqs s) l → queue_ok_at X out sub (set_io (io_last p (q_io s)) s) l D F.
Proof. intros [] Hh. split; simpl; try done. by apply places_books. Qed.

Lemma elv_rqhash_reposition_run s p r :
  q_rqs s !! p = Some r →
  runs (elv_rqhash_reposition p) s (λ _ s',
    s' = set_io (io_hash ((ELV_HASH_FN (rq_hash_key r), p) :: hash_del p (rq_hash (q_io s))) (q_io s)) s).
Proof.
  intros Hr. apply runs_bind. eapply runs_ok; [apply modify_ok|]. apply runs_bind, (runs_get _ r); [done|].
  apply runs_bind. eapply runs_ok; [apply gets_ok|]. apply runs_bind, runs_check.
  { apply negb_true_iff, bool_decide_eq_false. simpl. rewrite elem_hash_del. naive_solver. }
  by eapply runs_ok; [apply modify_ok|].
Qed.

Lemma elv_rqhash_reposition_ok X out sub s l D F p r :
  queue_ok_at X out sub s l D F → X ⊆ [p] → p ∈ l → q_rqs s !! p = Some r →
  runs (elv_rqhash_reposition p) s (λ _ s', queue_ok_at [] out sub s' l D F ∧ ∃ h, s' = set_io (io_hash h (q_io s)) s).
Proof.
  intros I HX Hp Hr. eapply runs_mono; [by apply elv_rqhash_reposition_run|]. intros [] s' ->. split; [|by eexists].
  eapply ok_hash; [done|]. by eapply hash_reposition; [apply I|..].
Qed.

(** What [elv_rqhash_find] promises of its result [q]. *)
Lemma rqhash_walk_ok out sub l D F offset ps : ∀ s,
  queue_ok_at [] out sub s l D F → NoDup ps → (∀ p, p ∈ ps → p ∈ (rq_hash (q_io s)).*2) →
  runs (rqhash_walk offset ps) s (λ q s', queue_ok_at [] out sub s' l D F ∧ (∃ h, s' = set_io (io_hash h (q_io s)) s) ∧
    if decide (q = 0) then ∀ p r, p ∈ ps → q_rqs s !! p = Some r → rq_mergeable r = true → rq_hash_key r ≠ offset
    else q ∈ l ∧ ∃ r, q_rqs s !! q = Some r ∧ rq_mergeable r = true ∧ rq_hash_key r = offset).
Proof.
  induction ps as [|p ps IH]; intros s I Hnd Hps; cbn [rqhash_walk].
  { apply runs_ret. split; [done|]. split; [by exists (rq_hash (q_io s)); destruct s as [[]]|]. rewrite decide_True by done. set_solver. }
  apply NoDup_cons in Hnd as [Hp Hnd]. pose proof (Hps p ltac:(set_solver)) as Hh. pose proof Hh as Hb.
  apply list_elem_of_fmap in Hb as ([b p'] & E & Hb). simpl in E. subst p'.
  pose proof (qo_hash _ _ _ _ _ _ _ _ _ I) as HA. destruct (ha_bucket _ _ _ _ HA b p Hb) as (Hl & r & Hr & _).
  apply runs_bind. eapply runs_ok; [apply gets_ok|]. apply runs_bind, runs_check; [by apply bool_decide_eq_true|].
  apply runs_bind, (runs_get _ r); [done|]. destruct (rq_mergeable r) eqn:Hm; simpl.
  - destruct (Z.eqb_spec (rq_hash_key r) offset) as [Hk|Hk].
    + apply runs_ret. split; [done|]. split; [by exists (rq_hash (q_io s)); destruct s as [[]]|].
      rewrite decide_False by (by eapply last_nz; [apply I|]). eauto.
    + eapply runs_mono; [apply IH; [done|done|set_solver]|]. intros q s' (I' & Hs' & HQ). split; [done|]. split; [done|].
      case_decide; [|done]. intros p0 r0 [->|?]%elem_of_cons; [congruence|by apply HQ].
  - apply runs_bind. eapply runs_ok; [apply modify_ok|]. eapply runs_mono.
    { apply IH; [|done|].
      - eapply ok_hash; [done|]. apply hash_del_ok; [done|]. intros r0 _. congruence.
      - intros q Hq. simpl. apply elem_hash_del. split; [by apply Hps; set_solver|]. set_solver. }
    intros q s' (I' & [h ->] & HQ). split; [done|]. split; [by exists h|]. simpl in HQ. case_decide; [|done].
    intros p0 r0 [->|?]%elem_of_cons; [congruence|by apply HQ].
Qed.

(** [elv_rqhash_find] finds a request that ends at [offset] and can be merged
    with, exactly when one waits. *)
Lemma elv_rqhash_find_ok out sub s l D F offset :
  queue_ok_at [] out sub s l D F →
  runs (elv_rqhash_find offset) s (λ q s', queue_ok_at [] out sub s' l D F ∧ (∃ h, s' = set_io (io_hash h (q_io s)) s) ∧
    if decide (q = 0) then ∀ p r, p ∈ l → q_rqs s !! p = Some r → rq_mergeable r = true → rq_hash_key r ≠ offset
    else q ∈ l ∧ ∃ r, q_rqs s !! q = Some r ∧ rq_mergeable r = true ∧ rq_hash_key r = offset).
Proof.
  intros I. pose proof (qo_hash _ _ _ _ _ _ _ _ _ I) as [Hn Hb Ha].
  apply runs_bind. eapply runs_ok; [apply gets_ok|]. eapply runs_mono.
  { apply (rqhash_walk_ok out sub l D F); [done|by apply NoDup_chain|]. intros p Hp%elem_chain.
    apply list_elem_of_fmap. by eexists (_, p). }
  intros q s' (I' & Hs' & HQ). split; [done|]. split; [done|]. case_decide; [|done].
  intros p r Hp Hr Hm Hk. apply (HQ p r); try done. apply elem_chain.
  pose proof (Ha p r Hp Hr Hm) as ([b p'] & Ep & Hin)%list_elem_of_fmap. simpl in Ep. subst p'.
  destruct (Hb b p Hin) as (_ & r' & Hr' & Hx). assert (r' = r) as -> by congruence.
  by rewrite (Hx ltac:(set_solver)), Hk in Hin.
Qed.

(** ** Which request a bio goes to *)

Lemma elv_rq_merge_ok_ok s p r b :
  q_rqs s !! p = Some r → rq_wf cap r → bio_wf cap b →
  runs (elv_rq_merge_ok ops p b) s (λ ok s', s' = s ∧ (ok = true → rq_mergeable r = true ∧ bio_for r b)).
Proof.
  intros Hp W Wb. apply runs_bind, (runs_get _ r); [done|]. destruct (rq_mergeable r) eqn:Hm; simpl; [|by apply runs_ret].
  destruct (rq_bio r) as [|f bs] eqn:Er; [by destruct (rw_bios _ _ W)|]. apply runs_bind. eapply runs_ok; [apply the_some|].
  pose proof (rw_for _ _ W) as Hf. rewrite Er in Hf. apply Forall_cons in Hf as [(K & _) _]. apply kind_eq in K as (K1 & K2 & K3).
  destruct (same_bits REQ_DISCARD _ _) eqn:E1; simpl; [|by apply runs_ret].
  destruct (same_bits REQ_SECURE _ _) eqn:E2; simpl; [|by apply runs_ret].
  destruct (same_bits REQ_WRITE _ _) eqn:E3; simpl; [|by apply runs_ret].
  destruct (Z.eqb_spec (rq_disk r) (bi_disk b)); simpl; [|by apply runs_ret]. destruct (rq_special r); [by apply runs_ret|].
  apply runs_ret. split; [done|]. intros _. split; [done|]. apply same_bits_eq in E1, E2, E3.
  split_and!; [|done|apply Wb]. apply kind_eq. split_and!; congruence.
Qed.

Lemma key_id r : rq_wf cap r → rq_hash_key r = rq_sector r + blk_rq_sectors r.
Proof.
  intros W. destruct (rq_sectors_pos _ _ W), (rw_range _ _ W). pose proof lim_cap. apply u64_id. unfold blk_rq_pos. lia.
Qed.

Lemma elv_try_merge_ok s p r b :
  q_rqs s !! p = Some r → rq_wf cap r → bio_wf cap b →
  runs (elv_try_merge ops p b) s (λ ret s', s' = s ∧
    (ret = ELEVATOR_NO_MERGE ∨
     rq_mergeable r = true ∧ (ret = ELEVATOR_BACK_MERGE ∧ can_back r b ∨ ret = ELEVATOR_FRONT_MERGE ∧ can_front r b))).
Proof.
  intros Hp W Wb. apply runs_bind. eapply runs_mono; [by apply elv_rq_merge_ok_ok|]. intros ok s' [-> Hok].
  apply runs_bind, (runs_get _ r); [done|]. destruct ok; simpl; [|apply runs_ret; by auto]. destruct (Hok eq_refl) as [Hm Hf].
  destruct (rw_range _ _ W), (rq_sectors_pos _ _ W), (bio_sectors_pos _ _ Wb), (bw_range _ _ Wb). pose proof lim_cap.
  change (u64 (blk_rq_pos r + blk_rq_sectors r)) with (rq_hash_key r). rewrite key_id by done.
  destruct (Z.eqb_spec (rq_sector r + blk_rq_sectors r) (bi_sector b)).
  { apply runs_ret. split; [done|]. right. split; [done|]. left. by split. }
  destruct (Z.eqb_spec (u64 (blk_rq_pos r - bio_sectors b)) (bi_sector b)) as [E|]; [|apply runs_ret; by auto].
  apply runs_ret. split; [done|]. right. split; [done|]. right. split; [done|]. split; [done|]. unfold blk_rq_pos in E.
  destruct (decide (0 ≤ rq_sector r - bio_sectors b)); [rewrite u64_id in E by lia; lia|].
  exfalso. unfold u64, wrap_u in E. rewrite <- (Z.mod_add _ 1), Z.mod_small in E by lia. lia.
Qed.

(** What [elv_merge] answers. *)
Lemma elv_merge_ok out sub s l D F b :
  queue_ok_at [] out sub s l D F → bio_wf cap b →
  runs (elv_merge ops b) s (λ res s', queue_ok_at [] out sub s' l D F ∧
    (res.1 = ELEVATOR_NO_MERGE ∨ res.2 ∈ l ∧ ∃ r, q_rqs s' !! res.2 = Some r ∧ rq_mergeable r = true ∧
       (res.1 = ELEVATOR_BACK_MERGE ∧ can_back r b ∨ res.1 = ELEVATOR_FRONT_MERGE ∧ can_front r b))).
Proof.
  intros I Wb. unfold elv_merge. destruct blk_queue_nomerges; [apply runs_ret; by auto|].
  apply runs_bind. eapply runs_ok; [apply gets_ok|]. set (last := last_merge (q_io s)). apply runs_bind.
  apply (runs_mono _ _ (λ ret s', s' = s ∧ (ret = ELEVATOR_NO_MERGE ∨ last ∈ l ∧ ∃ r, q_rqs s !! last = Some r ∧ rq_mergeable r = true ∧
       (ret = ELEVATOR_BACK_MERGE ∧ can_back r b ∨ ret = ELEVATOR_FRONT_MERGE ∧ can_front r b)))).
  { destruct (Z.eqb_spec last 0) as [|Hne]; [apply runs_ret; by auto|].
    destruct (qo_last _ _ _ _ _ _ _ _ _ I) as [?|(Hl & r & Hr & Hm)]; [done|].
    eapply runs_mono; [apply (elv_try_merge_ok s last r b); [done|by eapply co_wf, Hr; apply I|done]|].
    intros ret s' [-> Hret]. split; [done|]. naive_solver. }
  intros ret s' [-> Hret]. destruct (Z.eqb_spec ret ELEVATOR_NO_MERGE); simpl; [|apply runs_ret; split; [done|]; naive_solver].
  destruct blk_queue_noxmerges; [apply runs_ret; by auto|]. apply runs_bind.
  eapply runs_mono; [by eapply elv_rqhash_find_ok|]. intros q s1 (I1 & [h ->] & HQ). case_decide as Hq.
  { subst q. simpl. apply runs_bind, runs_ret, runs_ret. by auto. }
  destruct HQ as (Hl & r & Hr & Hm & Hk). assert (rq_wf cap r) as W by (by eapply co_wf, Hr; apply I).
  rewrite (proj2 (Z.eqb_neq q 0) Hq). apply runs_bind. eapply runs_mono; [by apply (elv_rq_merge_ok_ok _ q r b)|].
  intros ok s2 [-> Hok]. apply runs_ret. split; [done|]. destruct ok; [|by left]. right. simpl. split; [done|]. exists r.
  split; [done|]. split; [done|]. left. split; [done|]. split; [by apply Hok|]. by rewrite <- key_id.
Qed.

(** ** Giving back a request *)

Lemma freed_request_fields sync rl :
  rl_count (freed_request sync true rl) = <[sync := rl_count rl sync - 1]> (rl_count rl) ∧
  rl_elvpriv (freed_request sync true rl) = rl_elvpriv rl - 1.
Proof. unfold freed_request, __freed_request. repeat (case_match; simpl); done. Qed.

Lemma places_drop io m l D F out p :
  places ops cap io m l D F (p :: out) →
  places ops cap (set_mem (delete p (lists_mem io)) io) (delete p m) l D F out.
Proof.
  intros [[[Hd HD Ha Hz] Hi] Hn Hall Hf Hadr].
  assert (p ∉ l ++ D ++ F ++ out ∧ NoDup (l ++ D ++ F ++ out)) as [Hp Hn'].
  { apply NoDup_cons. assert (l ++ D ++ F ++ p :: out ≡ₚ p :: l ++ D ++ F ++ out) as <- by solve_Permutation. done. }
  destruct (Hadr p) as (_ & Hp1 & Hp2); [apply Hall; set_solver|].
  assert (∀ h k, dll (lists_mem io) h k → p ∉ h :: k → dll (delete p (lists_mem io)) h k) as Hx.
  { intros h k Hk Hpk. eapply dll_ext; [done|]. intros y Hy. apply lookup_delete_ne. set_solver. }
  split.
  - split; [|done]. split; simpl; [apply Hx; [done|set_solver]|apply Hx; [done|set_solver]|done|done].
  - done.
  - intros q. destruct (decide (q = p)) as [->|Hq].
    + rewrite lookup_delete_eq. split; [done|]. by intros [? ?].
    + rewrite lookup_delete_ne by done. rewrite <- Hall. set_solver.
  - intros q Hq. simpl. apply Hx; [apply Hf; set_solver|]. set_solver.
  - intros q Hq. apply Hadr. destruct (decide (q = p)) as [->|]; [by rewrite lookup_delete_eq in Hq; destruct Hq|by rewrite lookup_delete_ne in Hq].
Qed.

(** [__blk_put_request] on the last reference to a request that is in no list. *)
Lemma put_request_ok out sub s l D F p n :
  places ops cap (q_io s) (q_rqs s) l D F (p :: out) → q_rqs s !! p = Some n →
  ref_count n = 1 → flagged (rq_flags n) REQ_ALLOCED = true → flagged (rq_flags n) REQ_ELVPRIV = true →
  contents cap (delete p (q_rqs s)) l F out →
  (∀ b, rl_count (q_rl s) b = n_sync b (rq_list (q_rqs s)) ∧ n_sync b (rq_list (q_rqs s)) ≤ 3 * nr_requests / 2) →
  rl_elvpriv (q_rl s) = Z.of_nat (length (rq_list (q_rqs s))) →
  (∀ b, (if blk_account_rq n then <[rq_is_sync n := u32 (in_flight s (rq_is_sync n) - 1)]> (in_flight s) else in_flight s) b =
        n_sync b (rqs_at (delete p (q_rqs s)) F)) →
  hash_ok [] (rq_hash (q_io s)) (delete p (q_rqs s)) l → last_ok (last_merge (q_io s)) (delete p (q_rqs s)) l →
  nr_sorted (q_io s) = Z.of_nat (length l) → (q_ended s).*1 ++ all_privs (rq_list (delete p (q_rqs s))) ≡ₚ sub →
  runs (__blk_put_request p) s (λ _ s', queue_ok_at [] out sub s' l D F).
Proof.
  intros P Hp Href Hal Hpr Co Cn Cp Fl Ha La Nr Bi. apply runs_bind, (runs_alter _ _ n); [done|].
  apply runs_bind, (runs_get _ (set_ref_count (s32 (ref_count n - 1)) n)); [simpl; by rewrite lookup_insert_eq|].
  rewrite Href. set (n' := set_ref_count _ n). change (negb (ref_count n' =? 0)) with false. cbv iota.
  apply runs_bind. apply (runs_mono _ _ (λ _ s', s' = set_in_flight
    (if blk_account_rq n then <[rq_is_sync n := u32 (in_flight s (rq_is_sync n) - 1)]> (in_flight s) else in_flight s)
    (set_rqs (<[p := n']> (q_rqs s)) s))).
  { apply runs_bind, (runs_get _ n'); [simpl; by rewrite lookup_insert_eq|]. change (blk_account_rq n') with (blk_account_rq n).
    destruct (blk_account_rq n); [by eapply runs_ok; [apply modify_ok|]|]. apply runs_ret. by destruct s. }
  intros [] s1 ->. change (flagged (rq_flags n') REQ_ALLOCED) with (flagged (rq_flags n) REQ_ALLOCED). rewrite Hal.
  apply runs_bind. eapply runs_list_read; [apply list_empty_dll; simpl; eapply pl_free; [exact P|set_solver]|].
  apply runs_bind, runs_check; [done|]. apply runs_bind. eapply runs_ok; [apply gets_ok|]. apply runs_bind, runs_check.
  { apply negb_true_iff, bool_decide_eq_false. simpl. intros ([b p'] & E & Hin)%list_elem_of_fmap. simpl in E. subst p'.
    destruct (ha_bucket _ _ _ _ Ha b p Hin) as (_ & r & Hr & _). by rewrite lookup_delete_eq in Hr. }
  apply runs_bind. eapply runs_ok; [apply modify_ok|]. eapply runs_ok; [apply modify_ok|]. simpl. rewrite delete_insert_eq.
  change (rq_is_sync n') with (rq_is_sync n). change (flagged (rq_flags n') REQ_ELVPRIV) with (flagged (rq_flags n) REQ_ELVPRIV).
  rewrite Hpr. destruct (freed_request_fields (rq_is_sync n) (q_rl s)) as [Ec Ep].
  pose proof (rq_list_del _ _ _ Hp) as Hl. split; simpl; try done; [by apply places_drop|]. split.
  - intros b. rewrite Ec. destruct (Cn b) as [Hc _]. destruct (Cn (rq_is_sync n)) as [Hc' _].
    rewrite Hl, n_sync_cons in Hc, Hc'. rewrite decide_True in Hc' by done. case_decide as Hb.
    + subst b. rewrite fn_lookup_insert. lia.
    + rewrite fn_lookup_insert_ne by done. lia.
  - intros b. destruct (Cn b) as [_ Hm]. rewrite Hl, n_sync_cons in Hm. case_decide; lia.
  - rewrite Ep, Cp, Hl. simpl. lia.
  - exact Fl.
Qed.

(** ** Merging two requests *)

Lemma blk_phys_contig_ok {S} b nxt (s : S) : bio_ok nxt → runs (blk_phys_contig_segment b nxt) s (λ _ s', s' = s).
Proof.
  intros Hn. unfold blk_phys_contig_segment. destruct (negb blk_queue_cluster); [done|]. destruct (_ <? _); [done|].
  case_bool_decide as Hv; [done|]. apply runs_bind. destruct (last (bi_io_vec b)) as [v|] eqn:E; [|by apply last_None in E; unfold bi_vcnt in Hv; rewrite E in Hv].
  eapply runs_ok; [apply the_some|]. apply runs_bind. unfold bio_iovec. destruct (bi_io_vec nxt !! bi_idx nxt) as [w|] eqn:E2.
  - eapply runs_ok; [apply the_some|]. done.
  - destruct (bo_segs _ Hn). unfold bio_segs. by apply drop_ge, lookup_ge_None.
Qed.

(** The request at [p] and what became of it. *)
Definition still (p : Z) (r : request) (s : rqueue) : Prop := ∃ r', q_rqs s !! p = Some r' ∧ alike r r'.

Lemma still_put s p q r f :
  still p r s → (∀ r, alike r (f r)) → ∀ r0, q_rqs s !! q = Some r0 → still p r (set_rqs (<[q := f r0]> (q_rqs s)) s).
Proof.
  intros (r1 & E1 & A1) Hf r0 E0. unfold still. simpl. destruct (decide (p = q)) as [->|].
  - exists (f r0). rewrite lookup_insert_eq. split; [done|]. assert (r1 = r0) as -> by congruence. by etrans.
  - exists r1. by rewrite lookup_insert_ne.
Qed.

(** Changing request [q] in a way that does not matter. *)
Lemma alter_alike_ok X out sub s l D F f q (c : bool) (rs : list (Z * request)) :
  queue_ok_at X out sub s l D F → is_Some (q_rqs s !! q) → (∀ r, alike r (f r)) → Forall (λ x, still x.1 x.2 s) rs →
  runs (if c then rq_alter f q else mret tt) s (λ _ s', queue_ok_at X out sub s' l D F ∧ Forall (λ x, still x.1 x.2 s') rs).
Proof.
  intros I [r0 Hq] Hf Hrs. destruct c; [|by apply runs_ret]. apply (runs_alter _ _ r0); [done|].
  split; [by eapply ok_alike|]. eapply Forall_impl; [exact Hrs|]. intros [p r]. simpl. intros Hp. by apply still_put.
Qed.

Lemma still_Some p r s : still p r s → is_Some (q_rqs s !! p).
Proof. intros (r' & E & _). by eexists. Qed.

Lemma ll_merge_requests_fn_ok X out sub s l D F req next r n :
  queue_ok_at X out sub s l D F → q_rqs s !! req = Some r → q_rqs s !! next = Some n →
  runs (ll_merge_requests_fn req next) s (λ ok s', queue_ok_at X out sub s' l D F ∧ still req r s' ∧ still next n s' ∧
    (ok = true → u32 (blk_rq_sectors r + blk_rq_sectors n) ≤ queue_max_sectors)).
Proof.
  intros I Hr Hn. assert (still req r s ∧ still next n s) as [Sr Sn] by (split; eexists; done).
  assert (rq_wf cap r ∧ rq_wf cap n) as [Wr Wn] by (split; eapply co_wf; [apply I|done|apply I|done]).
  apply runs_bind, (runs_get _ r); [done|]. apply runs_bind, (runs_get _ n); [done|]. apply runs_bind.
  destruct (last (rq_bio r)) as [tl|] eqn:Et; [|by apply last_None in Et; destruct (rw_bios _ _ Wr)].
  eapply runs_ok; [apply the_some|]. apply runs_bind. destruct (rq_bio n) as [|hd nb] eqn:Eh; [by destruct (rw_bios _ _ Wn)|].
  eapply runs_ok; [apply the_some|]. destruct (_ || _); [by apply runs_ret|].
  destruct (Z.ltb_spec queue_max_sectors (u32 (blk_rq_sectors r + blk_rq_sectors n))); [by apply runs_ret|].
  apply runs_bind. eapply runs_mono.
  { apply blk_phys_contig_ok. pose proof (ro_bios _ (rw_ok _ _ Wn)) as Hb. rewrite Eh in Hb. by apply Forall_cons in Hb as [? _]. }
  intros contig s0 ->. cbv zeta. apply runs_bind. eapply runs_mono.
  { apply (alter_alike_ok X out sub s l D F _ req _ [(req, r); (next, n)]); [done|by eexists| |by repeat constructor].
    intros r0. apply with_bios_alike, on_head_alike. intros. apply set_size_alike. }
  intros [] s1 [I1 [Sr1 [Sn1 _]%Forall_cons]%Forall_cons]. apply runs_bind. eapply runs_mono.
  { apply (alter_alike_ok X out sub s1 l D F _ next _ [(req, r); (next, n)]); [done|by eapply still_Some| |by repeat constructor].
    intros r0. apply with_bios_alike, on_last_alike. intros. apply set_size_alike. }
  intros [] s2 [I2 [Sr2 [Sn2 _]%Forall_cons]%Forall_cons]. destruct (_ <? _); [by apply runs_ret|].
  apply runs_bind. eapply runs_mono.
  { apply (alter_alike_ok X out sub s2 l D F (with_segs _) req true [(req, r); (next, n)]); [done|by eapply still_Some| |by repeat constructor].
    intros r0. apply with_segs_alike. }
  intros [] s3 [I3 [Sr3 [Sn3 _]%Forall_cons]%Forall_cons]. by apply runs_ret.
Qed.

Lemma contents_delete m l l' F out out' p :
  contents cap m l F out → l' ⊆ l → out' ⊆ out → contents cap (delete p m) l' F out'.
Proof. intros [] Hl Ho. split; intros q r; rewrite lookup_delete_Some; naive_solver. Qed.

(** The end of [attempt_merge]: the bios of [next] are in another request, and it
    is in no list any more. *)
Lemma drop_next_ok out sub s l D F p n :
  places ops cap (q_io s) (q_rqs s) l D F (p :: out) → q_rqs s !! p = Some n → rq_wf cap n → flagged (rq_flags n) REQ_STARTED = false →
  contents cap (delete p (q_rqs s)) l F out → counted (q_rl s) (in_flight s) (q_rqs s) F →
  hash_ok [] (rq_hash (q_io s)) (q_rqs s) l → last_ok (last_merge (q_io s)) (q_rqs s) l →
  nr_sorted (q_io s) = Z.of_nat (length l) → (q_ended s).*1 ++ all_privs (rq_list (q_rqs s)) ≡ₚ privs n ++ sub →
  runs (rq_alter (with_bios []) p ;; __blk_put_request p) s (λ _ s', queue_ok_at [] out sub s' l D F).
Proof.
  intros P Hp W Hst Co Cn Ha La Nr Bi. apply runs_bind, (runs_alter _ _ n); [done|].
  assert (p ∉ l ∧ p ∉ F) as [Hpl HpF].
  { pose proof (pl_nodup _ _ _ _ _ _ _ _ P) as Hnd. apply NoDup_app in Hnd as (_ & H1 & Hnd). apply NoDup_app in Hnd as (_ & _ & Hnd).
    apply NoDup_app in Hnd as (_ & H2 & _). split; intros Hx; [by apply (H1 p Hx); set_solver|by apply (H2 p Hx); set_solver]. }
  pose proof (counted_put _ _ _ F p n (with_bios [] n) Hp eq_refl Cn) as [Cc Cl Cp Cf].
  eapply put_request_ok; simpl; rewrite ?lookup_insert_eq, ?delete_insert_eq; try done; simpl; try apply W; try done.
  - by eapply places_put.
  - intros b. unfold blk_account_rq. simpl. rewrite Hst. simpl. rewrite Cf, rqs_at_other by done. by rewrite rqs_at_delete.
  - by apply hash_delete.
  - by apply last_delete.
  - rewrite (rq_list_del _ _ _ Hp), all_privs_cons in Bi. apply (Permutation_app_inv_l (privs n)). rewrite <- Bi. solve_Permutation.
Qed.

(** [next] is a new request of a task, or one that waits as [req] does. *)
Inductive next_at (next : Z) : list Z → list Z → list Z → list Z → Prop :=
  | next_new l out : next_at next l l (next :: out) out
  | next_waits l1 l2 out : elevator_merge_req_fn ops ≠ None → next_at next (l1 ++ next :: l2) (l1 ++ l2) out out.

Lemma merge_new_ok out sub s l D F req next r n :
  queue_ok_at [req] (next :: out) (privs n ++ sub) s l D F → req ∈ l →
  q_rqs s !! req = Some r → rq_mergeable r = true → q_rqs s !! next = Some n →
  runs (elv_merge_requests ops req next ;; rq_alter (with_bios []) next ;; __blk_put_request next) s
    (λ _ s', queue_ok_at [] out sub s' l D F).
Proof.
  intros I Hl Hr Hm Hn. pose proof I as [P Co Cn Ha La Nr Bi]. apply runs_bind, runs_bind, (runs_get _ n); [done|].
  destruct (co_fresh _ _ _ _ _ Co next n) as (Hs & Hst & _); [set_solver|done|]. rewrite Hs. apply runs_bind.
  apply (runs_mono _ _ (λ _ s', s' = s)); [by destruct (elevator_merge_req_fn ops); apply runs_ret|]. intros [] s' ->.
  apply runs_bind. eapply runs_mono; [by apply elv_rqhash_reposition_run|]. intros [] s1 ->. apply runs_bind, runs_ret.
  eapply runs_ok; [apply modify_ok|].
  assert (hash_ok [] ((ELV_HASH_FN (rq_hash_key r), req) :: hash_del req (rq_hash (q_io s))) (q_rqs s) l) as Ha' by by eapply hash_reposition.
  apply (drop_next_ok out sub _ l D F next n); simpl; try done.
  - by eapply places_io; [|exact P].
  - by eapply co_wf.
  - eapply contents_delete; [done|done|set_solver].
  - right. split; [done|]. by exists r.
Qed.

(** There are not more requests than the limits allow. *)
Lemma waiting_bound io m rl fl l D F out :
  places ops cap io m l D F out → counted rl fl m F → Z.of_nat (length l) + 1 < 2 ^ 31.
Proof.
  intros P [_ Hl _ _]. pose proof lim_nr as Hnr.
  assert (length (l ++ D ++ F ++ out) ≤ length (rq_list m))%nat as Hle.
  { unfold rq_list. rewrite length_fmap. rewrite <- (length_fmap fst). apply submseteq_length, NoDup_submseteq; [apply P|].
    intros p [r Hr]%(pl_all _ _ _ _ _ _ _ _ P). apply list_elem_of_fmap. exists (p, r). by rewrite elem_of_map_to_list. }
  rewrite length_app in Hle. pose proof (n_sync_total (rq_list m)). pose proof (Hl true). pose proof (Hl false).
  assert (3 * nr_requests / 2 ≤ 2 * nr_requests) by (apply Z.div_le_upper_bound; lia). lia.
Qed.

(** Requests that are in neither list are apart from what the scheduler does. *)
Lemma free_node io io' m l D F out p :
  places ops cap io m l D F out → only_lists l D io io' → p ∈ F ++ out → dll (lists_mem io') p [].
Proof.
  intros P Ho Hp. eapply dll_ext; [by eapply pl_free|]. intros y ->%list_elem_of_singleton.
  destruct (pl_addr _ _ _ _ _ _ _ _ P p) as (_ & ? & ?); [apply (pl_all _ _ _ _ _ _ _ _ P); set_solver|].
  pose proof (pl_nodup _ _ _ _ _ _ _ _ P) as Hnd. apply NoDup_app in Hnd as (_ & Hq1 & Hnd). apply NoDup_app in Hnd as (_ & Hq2 & _).
  apply Ho; apply not_elem_of_cons; split; try done; intros Hx; [by apply (Hq1 p Hx); set_solver|by apply (Hq2 p Hx); set_solver].
Qed.

Lemma places_merged io io' m l1 p l2 D F out :
  places ops cap io m (l1 ++ p :: l2) D F out → sched_rep sched_inv io' (l1 ++ l2) D → dll (lists_mem io') p [] →
  only_lists (l1 ++ p :: l2) D io io' → places ops cap io' m (l1 ++ l2) D F (p :: out).
Proof.
  intros P Hs Hp Ho. assert ((l1 ++ l2) ++ D ++ F ++ p :: out ≡ₚ (l1 ++ p :: l2) ++ D ++ F ++ out) as E by solve_Permutation.
  split; [done|rewrite E; apply P|intros q; rewrite E; apply P| |apply P].
  intros q Hq. destruct (decide (q = p)) as [->|]; [done|]. eapply free_node; [done..|set_solver].
Qed.

Lemma merge_waiting_ok out sub s l1 l2 D F req next r n :
  queue_ok_at [req] out (privs n ++ sub) s (l1 ++ next :: l2) D F → req ∈ l1 ++ l2 → elevator_merge_req_fn ops ≠ None →
  q_rqs s !! req = Some r → rq_mergeable r = true → q_rqs s !! next = Some n →
  runs (elv_merge_requests ops req next ;; rq_alter (with_bios []) next ;; __blk_put_request next) s
    (λ _ s', queue_ok_at [] out sub s' (l1 ++ l2) D F).
Proof.
  intros I Hl Hf Hr Hm Hn. pose proof I as [P Co Cn Ha La Nr Bi]. apply runs_bind, runs_bind, (runs_get _ n); [done|].
  destruct (co_waits _ _ _ _ _ Co next n) as (Hs & Hst & _); [set_solver|done|]. rewrite Hs. apply runs_bind.
  pose proof (sched_merged (q_rqs s) (q_io s) l1 next l2 D req) as Hlaw. destruct (elevator_merge_req_fn ops) as [f|]; [|done].
  destruct Hlaw as (io & E & Hrep & [= E1 E2 E3 E4] & Hd & Ho); [apply P|]. eapply runs_sched; [exact E|].
  apply runs_bind. eapply runs_mono; [by apply elv_rqhash_reposition_run|]. intros [] s1 ->.
  apply runs_bind, runs_bind. eapply runs_ok; [apply modify_ok|]. eapply runs_ok; [apply modify_ok|]. eapply runs_ok; [apply modify_ok|].
  simpl. rewrite E4. assert (NoDup (l1 ++ next :: l2)) as Hnd by (pose proof (pl_nodup _ _ _ _ _ _ _ _ P) as Hx; by apply NoDup_app in Hx as (? & _)).
  pose proof (waiting_bound _ _ _ _ _ _ _ _ P Cn) as Hb. pose proof (places_merged _ _ _ _ _ _ _ _ _ P Hrep Hd Ho) as P'.
  assert (length (l1 ++ next :: l2) = S (length (l1 ++ l2))) as El by (rewrite !length_app; simpl; lia).
  apply (drop_next_ok out sub _ (l1 ++ l2) D F next n); simpl; try done.
  - by eapply places_io; [|exact P'].
  - by eapply co_wf.
  - eapply contents_delete; [done|set_solver|done].
  - apply hash_remove; [done|]. eapply hash_reposition; [done|done|set_solver|done].
  - right. split; [done|]. by exists r.
  - rewrite E1, Nr, El, u32_id by lia. lia.
Qed.

(** The bios of [n] go behind those of [r]. *)
Lemma grow_next r n :
  rq_wf cap r → rq_wf cap n → Z.land (rq_flags r) KIND = Z.land (rq_flags n) KIND → rq_disk r = rq_disk n →
  rq_sector r + blk_rq_sectors r = rq_sector n → blk_rq_sectors r + blk_rq_sectors n < 2 ^ 23 →
  grows cap (privs n) r (append_bios (rq_bio n) (blk_rq_bytes n) r).
Proof.
  intros Wr Wn Hk Hd Hc Hz. destruct (rq_sectors_pos _ _ Wr), (rq_sectors_pos _ _ Wn), (rw_range _ _ Wn).
  pose proof (rq_sectors _ _ Wn) as Hs. apply grow_append; try done.
  - apply (rw_ok _ _ Wn).
  - eapply Forall_impl; [exact (rw_for _ _ Wn)|]. intros b (? & ? & ?). split_and!; congruence.
  - rewrite Hc. apply Wn.
  - apply (rw_ok _ _ Wn).
  - unfold blk_rq_bytes. lia.
  - lia.
Qed.

Lemma mixed_both_ok X out sub s l D F req next r n (c : bool) :
  queue_ok_at X out sub s l D F → still req r s → still next n s →
  runs (if c then rq_alter blk_rq_set_mixed_merge req ;; rq_alter blk_rq_set_mixed_merge next else mret tt) s
    (λ _ s', queue_ok_at X out sub s' l D F ∧ still req r s' ∧ still next n s').
Proof.
  intros I Sr Sn. destruct c; [|by apply runs_ret]. apply runs_bind. eapply runs_mono.
  { apply (alter_alike_ok X out sub s l D F blk_rq_set_mixed_merge req true [(req, r); (next, n)]);
      [done|by eapply still_Some|apply mixed_alike|by repeat constructor]. }
  intros [] s1 [I1 [Sr1 [Sn1 _]%Forall_cons]%Forall_cons]. eapply runs_mono.
  { apply (alter_alike_ok X out sub s1 l D F blk_rq_set_mixed_merge next true [(req, r); (next, n)]);
      [done|by eapply still_Some|apply mixed_alike|by repeat constructor]. }
  by intros [] s2 [I2 [Sr2 [Sn2 _]%Forall_cons]%Forall_cons].
Qed.

Lemma attempt_merge_ok X out out' sub s l l' D F req next r n :
  queue_ok_at X out sub s l D F → X ⊆ [req] → req ∈ l → req ≠ next → next_at next l l' out out' →
  q_rqs s !! req = Some r → q_rqs s !! next = Some n →
  runs (attempt_merge ops req next) s (λ ok s',
    if ok then queue_ok_at [] out' sub s' l' D F else queue_ok_at X out sub s' l D F ∧ still req r s' ∧ still next n s').
Proof.
  intros I HX Hl Hne Hnx Hr Hn. assert (still req r s ∧ still next n s) as [Sr Sn] by (split; eexists; done).
  assert (rq_wf cap r ∧ rq_wf cap n) as [Wr Wn] by (split; eapply co_wf; [apply I|done|apply I|done]).
  apply runs_bind, (runs_get _ r); [done|]. apply runs_bind, (runs_get _ n); [done|].
  destruct (rq_mergeable r) eqn:Hm; simpl; [|by apply runs_ret]. destruct (rq_mergeable n); simpl; [|by apply runs_ret].
  destruct (same_bits REQ_DISCARD _ _) eqn:E1; simpl; [|by apply runs_ret].
  destruct (same_bits REQ_SECURE _ _) eqn:E2; simpl; [|by apply runs_ret].
  destruct (Z.eqb_spec (u64 (blk_rq_pos r + blk_rq_sectors r)) (blk_rq_pos n)) as [Hc|]; simpl; [|by apply runs_ret].
  destruct (same_bits REQ_WRITE _ _) eqn:E3; simpl; [|by apply runs_ret].
  destruct (Z.eqb_spec (rq_disk r) (rq_disk n)) as [Hd|]; simpl; [|by apply runs_ret]. destruct (rq_special n); [by apply runs_ret|].
  apply same_bits_eq in E1, E2, E3. change (rq_hash_key r = rq_sector n) in Hc. rewrite key_id in Hc by done.
  apply runs_bind. eapply runs_mono; [by eapply ll_merge_requests_fn_ok|]. intros ok s1 (I1 & Sr1 & Sn1 & Hle).
  destruct ok; simpl; [|by apply runs_ret]. specialize (Hle eq_refl).
  apply runs_bind. eapply runs_mono; [by apply (mixed_both_ok X out sub s1 l D F req next r n)|].
  intros [] s2 (I2 & (r2 & Hr2 & Ar) & (n2 & Hn2 & An)). apply runs_bind, (runs_get _ n2); [done|].
  apply runs_bind, (runs_alter _ _ r2); [done|]. fold (append_bios (rq_bio n2) (blk_rq_bytes n2) r2).
  assert (grows cap (privs n2) r2 (append_bios (rq_bio n2) (blk_rq_bytes n2) r2)) as G.
  { destruct (alike_ends _ _ Ar) as (R1 & R2 & _), (alike_ends _ _ An) as (N1 & N2 & _).
    pose proof (al_fields _ _ Ar) as [= ? ? ? ? Er ?]. pose proof (al_fields _ _ An) as [= ? ? ? ? En ?].
    pose proof (al_flags _ _ Ar) as Fr. pose proof (al_flags _ _ An) as Fn.
    destruct (rq_sectors_pos _ _ Wr), (rq_sectors_pos _ _ Wn). rewrite u32_id in Hle by lia. pose proof lim_sectors.
    apply grow_next; [by eapply co_wf, Hr2; apply I2|by eapply co_wf, Hn2; apply I2| |congruence|lia|lia].
    rewrite (land_agree _ _ _ KIND Fr), (land_agree _ _ _ KIND Fn) by done. by apply kind_eq. }
  pose proof (ok_grow ops cap X [req] out sub s2 l D F req r2 _ _ I2 Hr2 G HX (or_introl (list_elem_of_here _ _))) as I3.
  apply bind_tail3.
  assert (rq_mergeable (append_bios (rq_bio n2) (blk_rq_bytes n2) r2) = true) as Hm2.
  { rewrite (gr_merge _ _ _ _ G). by destruct (alike_view _ _ Ar) as (_ & _ & _ & -> & _). }
  apply runs_bind. destruct Hnx as [l out'|l1 l2 out Hfn].
  - eapply runs_mono; [eapply merge_new_ok; [exact I3|done|simpl; by rewrite lookup_insert_eq|done|simpl; by rewrite lookup_insert_ne]|].
    intros [] s4 I4. by apply runs_ret.
  - eapply runs_mono; [eapply merge_waiting_ok; [exact I3|set_solver|done|simpl; by rewrite lookup_insert_eq|done|simpl; by rewrite lookup_insert_ne]|].
    intros [] s4 I4. by apply runs_ret.
Qed.
End Merge.
