(* ===== verification/RqHash.v ===== *)
(** * The request hash, pointer by pointer (block/elevator.c)

    Elevator.v keeps the hash of requests by end sector as one association
    list, newest first.  Here is the same code on the hash lists the kernel
    uses: the 64 heads of [e->hash] and the [hash] node inside each request,
    in the memory of HList.v.  The theorem is a simulation: adding, deleting
    and looking up (which also drops requests that can no longer be merged)
    give the same results, hit the same assertions, and keep each bucket equal
    to the chain of the association list. *)

From S2P Require Import Prelude BlkTypes Sstf Elevator ListHead HList ElevatorInv ElevatorMerge.

(** Where [e->hash] is, and the offset of [hash] in [struct request]. *)
Class HashPlace := { e_hash : Z; hash_offset : Z }.

Section RqHash.
Context `{HashPlace}.

Definition hash_head (b : Z) : Z := e_hash + 4 * b.
Definition hash_node (p : Z) : Z := p + hash_offset.

Definition hl_rqhash_add (p : Z) (r : request) : cmd hmem unit :=
  u ← hlist_unhashed (hash_node p);
  check u ;;
  hlist_add_head (hash_node p) (hash_head (ELV_HASH_FN (rq_hash_key r))).

(** [hlist_for_each_entry_safe]: the next node is read before the body. *)
Fixpoint hl_rqhash_walk (rqs : gmap Z request) (fuel : nat) (offset entry : Z) : cmd hmem Z :=
  match fuel with
  | O => spin
  | S fuel =>
      if entry =? 0 then mret 0 else
      next ← get_slot entry;
      let rq := entry - hash_offset in
      u ← hlist_unhashed (hash_node rq);
      check (negb u) ;;
      r ← the (rqs !! rq);
      if negb (rq_mergeable r) then hlist_del_init (hash_node rq) ;; hl_rqhash_walk rqs fuel offset next
      else if rq_hash_key r =? offset then mret rq
      else hl_rqhash_walk rqs fuel offset next
  end.

Definition hl_rqhash_find (rqs : gmap Z request) (fuel : nat) (offset : Z) : cmd hmem Z :=
  first ← get_slot (hash_head (ELV_HASH_FN offset)); hl_rqhash_walk rqs fuel offset first.

(** ** What the heads and nodes say *)

Definition bucket (b : Z) : Prop := 0 ≤ b < 64.

(** The nodes of the requests and the heads are apart, and none is NULL. *)
Record placed (rqs : gmap Z request) : Prop := {
  pc_head b : bucket b → hash_head b ≠ 0;
  pc_node p : p ∈ dom rqs → hash_node p ≠ 0;
  pc_apart b p : bucket b → p ∈ dom rqs → hash_node p ≠ hash_head b
}.

Record hash_rep (m : hmem) (h : list (Z * Z)) (rqs : gmap Z request) : Prop := {
  hr_chain b : bucket b → hseg m (hash_head b) (hash_node <$> chain b h);
  hr_nodup : NoDup h.*2;
  hr_in b p : (b, p) ∈ h → bucket b ∧ p ∈ dom rqs;
  hr_idle p : p ∈ dom rqs → p ∉ h.*2 → hidle m (hash_node p)
}.

Lemma ELV_HASH_FN_bucket sec : bucket (ELV_HASH_FN sec).
Proof.
  unfold bucket, ELV_HASH_FN, hash_32. rewrite Z.shiftr_div_pow2 by lia.
  unfold u32 at 1 3, wrap_u. pose proof (Z.mod_pos_bound (u32 (Z.shiftr sec 3) * 0x9e370001) (2 ^ 32)) as Hr.
  split; [apply Z.div_pos; lia|apply Z.div_lt_upper_bound; lia].
Qed.

#[global] Instance hash_node_inj : Inj (=) (=) hash_node.
Proof. intros x y. unfold hash_node. lia. Qed.

Lemma hash_head_inj b b' : hash_head b = hash_head b' → b = b'.
Proof. unfold hash_head. lia. Qed.

(** ** The chains of the association list *)

Lemma chain_add b b' p h : chain b ((b', p) :: h) = if decide (b' = b) then p :: chain b h else chain b h.
Proof. unfold chain. rewrite filter_cons. simpl. by case_decide. Qed.

Lemma chain_del b p h : chain b (hash_del p h) = filter (λ q, q ≠ p) (chain b h).
Proof.
  unfold chain, hash_del. induction h as [|[b' q] h IH]; [done|].
  rewrite (filter_cons (λ e, e.2 ≠ p)), (filter_cons (λ e, e.1 = b) _ h). simpl.
  destruct (decide (q ≠ p)), (decide (b' = b)); rewrite ?filter_cons; simpl;
    repeat case_decide; csimpl; rewrite ?filter_cons; repeat case_decide; naive_solver congruence.
Qed.

Lemma filter_ne_id (p : Z) (l : list Z) : p ∉ l → filter (λ q, q ≠ p) l = l.
Proof. intros Hp. apply filter_id. by intros q ? ->. Qed.

Lemma elem_hashed (b p : Z) h : (b, p) ∈ h → p ∈ h.*2.
Proof. intros Hin. apply list_elem_of_fmap. by exists (b, p). Qed.

Lemma hashed_chain (p : Z) (h : list (Z * Z)) : p ∈ h.*2 → ∃ b, (b, p) ∈ h.
Proof. intros ([b q] & -> & Hin)%list_elem_of_fmap. by exists b. Qed.

Lemma one_bucket (b b' p : Z) h : NoDup h.*2 → (b, p) ∈ h → (b', p) ∈ h → b = b'.
Proof.
  induction h as [|[c q] h IH]; [set_solver|]. csimpl. intros [Hq Hnd]%NoDup_cons.
  intros [E1|H1]%elem_of_cons [E2|H2]%elem_of_cons; simplify_eq; [done|..|by eauto].
  - by apply elem_hashed in H2.
  - by apply elem_hashed in H1.
Qed.

(** ** One change of one bucket *)

Lemma rep_change m m' h h' rqs b p :
  placed rqs → hash_rep m h rqs → bucket b → p ∈ dom rqs → (∀ c, (c, p) ∈ h → c = b) →
  hseg m' (hash_head b) (hash_node <$> chain b h') →
  (∀ y, y ∉ hash_node p :: hash_head b :: (hash_node <$> chain b h) → hsame m m' y) →
  (∀ c, c ≠ b → chain c h' = chain c h) →
  NoDup h'.*2 → (∀ c q, (c, q) ∈ h' → bucket c ∧ q ∈ dom rqs) →
  (∀ q, q ≠ p → q ∈ h.*2 → q ∈ h'.*2) → (p ∉ h'.*2 → hidle m' (hash_node p)) →
  hash_rep m' h' rqs.
Proof.
  intros P R Hb Hp Hpb Hseg Hsame Hch Hnd Hin Hsub Hidle.
  assert (∀ q, q ∈ dom rqs → q ≠ p → (b, q) ∉ h → hsame m m' (hash_node q)) as Hnode.
  { intros q Hq Hne Hqb. apply Hsame. rewrite !elem_of_cons. intros [E|[E|E]].
    - by apply (inj hash_node) in E.
    - by apply (pc_apart _ P b q).
    - apply list_elem_of_fmap in E as (q' & E & Hq'). apply (inj hash_node) in E as <-. by apply elem_chain in Hq'. }
  split; [|done|done|].
  - intros c Hc. destruct (decide (c = b)) as [->|Hne]; [done|]. rewrite Hch by done.
    assert (∀ q, q ∈ chain c h → hsame m m' (hash_node q)) as Hq.
    { intros q Hq%elem_chain. apply Hnode.
      - by eapply (hr_in _ _ _ R).
      - intros ->. by apply Hne, Hpb.
      - intros Hq'. apply Hne. by eapply one_bucket; [apply R|..]. }
    eapply hseg_ext; [| |by apply R].
    + intros y [->|(q & -> & ?)%list_elem_of_fmap]%elem_of_cons; [|by apply Hq].
      apply Hsame. rewrite !elem_of_cons. intros [E|[E|(q & E & Hq')%list_elem_of_fmap]].
      * by apply (pc_apart _ P c p).
      * by apply hash_head_inj in E.
      * apply elem_chain, (hr_in _ _ _ R) in Hq' as [_ ?]. by apply (pc_apart _ P c q).
    + intros y (q & -> & ?)%list_elem_of_fmap. by apply Hq.
  - intros q Hq Hqh. destruct (decide (q = p)) as [->|Hne]; [by apply Hidle|].
    assert (q ∉ h.*2) as Hqh' by auto. destruct (Hnode q) as [Es Ep]; [done..|by intros ?%elem_hashed|].
    destruct (hr_idle _ _ _ R q) as [? ?]; [done..|]. split; [by rewrite Es|by rewrite Ep].
Qed.

(** The nodes of a bucket and its head are distinct. *)
Lemma bucket_nodup m h rqs b : placed rqs → hash_rep m h rqs → bucket b → NoDup (hash_head b :: (hash_node <$> chain b h)).
Proof.
  intros P R Hb. apply NoDup_cons. split.
  - intros (q & E & [_ Hq]%elem_chain%(hr_in _ _ _ R))%list_elem_of_fmap. by apply (pc_apart _ P b q).
  - apply (NoDup_fmap_2 _), NoDup_chain, R.
Qed.

Lemma add_rep m h rqs b p :
  placed rqs → hash_rep m h rqs → bucket b → p ∈ dom rqs → p ∉ h.*2 →
  ∃ m', hlist_add_head (hash_node p) (hash_head b) m = Ok (tt, m') ∧ hash_rep m' ((b, p) :: h) rqs.
Proof.
  intros P R Hb Hp Hph. assert (∀ c, (c, p) ∉ h) as Hc by (by intros c ?%elem_hashed).
  destruct (hlist_add_head_ok m (hash_head b) (hash_node <$> chain b h) (hash_node p)) as (m' & E & Hs & F).
  - by apply R.
  - by eapply bucket_nodup.
  - by apply R.
  - by apply P.
  - intros [E|(q & E%(inj hash_node) & Hq%elem_chain)%list_elem_of_fmap]%elem_of_cons.
    + by apply (pc_apart _ P b p).
    + subst q. by apply (Hc b).
  - exists m'. split; [done|]. eapply (rep_change m m' h _ rqs b p); try done.
    + intros c Hcp. by destruct (Hc c).
    + rewrite chain_add, decide_True by done. exact Hs.
    + intros c Hne. by rewrite chain_add, decide_False.
    + csimpl. apply NoDup_cons. split; [done|apply R].
    + intros c q [[= -> ->]|Hq]%elem_of_cons; [done|by eapply R].
    + intros q _ Hq. csimpl. by right.
    + intros []. left.
Qed.

Lemma del_rep m h rqs p :
  placed rqs → hash_rep m h rqs → p ∈ dom rqs →
  ∃ m', hlist_del_init (hash_node p) m = Ok (tt, m') ∧ hash_rep m' (hash_del p h) rqs.
Proof.
  intros P R Hp. destruct (decide (p ∈ h.*2)) as [Hph|Hph].
  - pose proof Hph as (b & Hbp)%hashed_chain. pose proof (hr_in _ _ _ R b p Hbp) as [Hb _].
    assert (p ∈ chain b h) as Hin by by apply elem_chain.
    pose proof (bucket_nodup _ _ _ _ P R Hb) as Hnd. pose proof (hr_chain _ _ _ R b Hb) as Hs.
    pose proof (chain_del b p h) as Hd. pose proof (NoDup_chain b h (hr_nodup _ _ _ R)) as Hndc.
    apply list_elem_of_split in Hin as (l1 & l2 & El).
    rewrite El in Hnd, Hs, Hd, Hndc. apply nodup_middle in Hndc as [[Hn1 Hn2] _].
    rewrite filter_app, filter_cons, decide_False, !filter_ne_id in Hd by (done || (by intros [])).
    rewrite fmap_app, fmap_cons in Hnd, Hs.
    destruct (hlist_del_init_ok _ _ _ _ _ Hs Hnd (pc_head _ P b Hb)) as (m' & E & Hs' & Hi & F).
    exists m'. split; [done|]. eapply (rep_change m m' h _ rqs b p); try done.
    + intros c Hc. symmetry. by eapply one_bucket; [apply R|..].
    + rewrite Hd, fmap_app. exact Hs'.
    + intros y Hy. apply F. rewrite El, fmap_app, fmap_cons in Hy. set_solver.
    + intros c Hne. rewrite chain_del. apply filter_ne_id. intros Hc%elem_chain.
      apply Hne. symmetry. by eapply one_bucket; [apply R|..].
    + by apply NoDup_hash_del, R.
    + intros c q [_ Hq]%list_elem_of_filter. by eapply R.
    + intros q Hne Hq. by apply elem_hash_del.
  - exists m. rewrite hlist_del_init_idle by by apply R. split; [done|].
    assert (hash_del p h = h) as ->; [|done]. apply filter_id. intros [b q] Hq. simpl. intros ->.
    by apply elem_hashed in Hq.
Qed.

(** ** The simulation *)

Definition with_hash (h : list (Z * Z)) (s : rqueue) : rqueue := set_io (io_hash h (q_io s)) s.

Lemma with_hash_id s : with_hash (rq_hash (q_io s)) s = s.
Proof. by destruct s as [[]]. Qed.

Lemma rq_get_ok s p r : q_rqs s !! p = Some r → rq_get p s = Ok (r, s).
Proof. intros Hr. unfold rq_get. by rewrite Hr. Qed.

Lemma unhashed_rep m h rqs p :
  placed rqs → hash_rep m h rqs → p ∈ dom rqs → hlist_unhashed (hash_node p) m = Ok (negb (hashed p h), m).
Proof.
  intros P R Hp. unfold hashed. case_bool_decide as Hh.
  - pose proof Hh as (b & Hin)%hashed_chain. destruct (hr_in _ _ _ R b p Hin) as [Hb _].
    destruct (hseg_node _ _ _ (hash_node p) (hr_chain _ _ _ R b Hb)) as (H0 & q & Hq & Hqi).
    { apply list_elem_of_fmap. exists p. by rewrite elem_chain. }
    rewrite (hlist_unhashed_ok _ _ _ Hq), (proj2 (Z.eqb_neq q 0)); [done|].
    apply elem_of_cons in Hqi as [->|(p' & -> & Hp'%elem_chain)%list_elem_of_fmap]; [by apply P|].
    apply P. by eapply R.
  - destruct (hr_idle _ _ _ R p Hp Hh) as [_ Hi]. by rewrite (hlist_unhashed_ok _ _ _ Hi).
Qed.

Lemma walk_sim offset b pre ps : ∀ s m fuel,
  placed (q_rqs s) → hash_rep m (rq_hash (q_io s)) (q_rqs s) → bucket b →
  chain b (rq_hash (q_io s)) = pre ++ ps → (length ps < fuel)%nat →
  ∃ q h' m', rqhash_walk offset ps s = Ok (q, with_hash h' s) ∧
    hl_rqhash_walk (q_rqs s) fuel offset (default 0 (head (hash_node <$> ps))) m = Ok (q, m') ∧
    hash_rep m' h' (q_rqs s).
Proof.
  revert pre. induction ps as [|p ps IH]; intros pre s m fuel P R Hb Hch Hf;
    (destruct fuel as [|fuel]; [simpl in Hf; lia|]); cbn [rqhash_walk hl_rqhash_walk].
  { exists 0, (rq_hash (q_io s)), m. split_and!; [by rewrite with_hash_id|done|done]. }
  assert ((b, p) ∈ rq_hash (q_io s)) as Hin by (apply elem_chain; rewrite Hch; set_solver).
  pose proof (hr_in _ _ _ R _ _ Hin) as [_ Hp]. pose proof Hp as [r Hr]%elem_of_dom.
  pose proof (hr_chain _ _ _ R b Hb) as Hs. rewrite Hch, fmap_app in Hs. apply hseg_app in Hs as (_ & H0 & _ & Hs).
  apply hseg_first in Hs. simpl. rewrite (proj2 (Z.eqb_neq _ 0) H0).
  rewrite (bind_ok _ _ _ _ _ (get_slot_ok _ _ _ Hs)).
  replace (hash_node p - hash_offset) with p by (unfold hash_node; lia).
  rewrite (bind_ok _ _ _ _ _ (unhashed_rep _ _ _ _ P R Hp)), (bind_ok _ _ _ _ _ (gets_ok _ _)).
  unfold hashed. rewrite bool_decide_eq_true_2 by (by eapply elem_hashed). cbn [negb].
  rewrite !(bind_ok _ _ _ _ _ (check_true true _ eq_refl)).
  rewrite (bind_ok _ _ _ _ _ (rq_get_ok _ _ _ Hr)), Hr, (bind_ok _ _ _ _ _ (the_some r _)).
  destruct (rq_mergeable r); simpl.
  - destruct (rq_hash_key r =? offset).
    + exists p, (rq_hash (q_io s)), m. split_and!; [by rewrite with_hash_id|done|done].
    + eapply (IH (pre ++ [p])); [done..| |simpl in Hf; lia]. by rewrite <- app_assoc.
  - destruct (del_rep m _ _ p P R Hp) as (m1 & E1 & R1).
    unfold __elv_rqhash_del, modify_io. rewrite (bind_ok _ _ _ _ _ E1), (bind_ok _ _ _ _ _ (modify_ok _ _)).
    destruct (IH pre (with_hash (hash_del p (rq_hash (q_io s))) s) m1 fuel) as (q & h' & m' & E & E' & R');
      [done..| |simpl in Hf; lia|].
    + simpl. rewrite chain_del, Hch, filter_app, filter_cons, decide_False by (by intros []).
      pose proof (NoDup_chain b _ (hr_nodup _ _ _ R)) as Hnd. rewrite Hch in Hnd.
      apply nodup_middle in Hnd as [[? ?] _]. by rewrite !filter_ne_id.
    + by exists q, h', m'.
Qed.

(** C23: The hash of requests by end sector that the rest of the development
    uses, an association list, is implemented by the kernel's hash lists.  When
    the 64 heads and the nodes in the requests represent the association list,
    then deleting a request, adding one, and looking one up by its end sector
    succeed on the pointers, with the same result, exactly when they do on the
    list (adding a request that is already hashed is the BUG on both sides),
    change nothing else of the queue, and leave pointers that represent the
    resulting list; the lookup, which unlinks requests that can no longer be
    merged while it walks, ends. *)
Theorem rqhash_refines (s : rqueue) (m : hmem) :
  placed (q_rqs s) → hash_rep m (rq_hash (q_io s)) (q_rqs s) →
  (∀ p r, q_rqs s !! p = Some r →
    (∃ h' m', __elv_rqhash_del p s = Ok (tt, with_hash h' s) ∧
       hlist_del_init (hash_node p) m = Ok (tt, m') ∧ hash_rep m' h' (q_rqs s)) ∧
    (if hashed p (rq_hash (q_io s))
     then elv_rqhash_add p s = Fault ∧ hl_rqhash_add p r m = Fault
     else ∃ h' m', elv_rqhash_add p s = Ok (tt, with_hash h' s) ∧
       hl_rqhash_add p r m = Ok (tt, m') ∧ hash_rep m' h' (q_rqs s))) ∧
  (∀ offset fuel, (length (rq_hash (q_io s)) < fuel)%nat →
    ∃ q h' m', elv_rqhash_find offset s = Ok (q, with_hash h' s) ∧
      hl_rqhash_find (q_rqs s) fuel offset m = Ok (q, m') ∧ hash_rep m' h' (q_rqs s)).
Proof.
  intros P R. split.
  - intros p r Hr. assert (p ∈ dom (q_rqs s)) as Hp by (apply elem_of_dom; eauto). split.
    + destruct (del_rep m _ _ p P R Hp) as (m' & E & R'). by eexists _, m'.
    + unfold elv_rqhash_add, hl_rqhash_add. rewrite (bind_ok _ _ _ _ _ (rq_get_ok _ _ _ Hr)).
      rewrite (bind_ok _ _ _ _ _ (gets_ok _ _)), (bind_ok _ _ _ _ _ (unhashed_rep _ _ _ _ P R Hp)).
      unfold hashed. case_bool_decide as Hh; [done|]. cbn [negb].
      rewrite !(bind_ok _ _ _ _ _ (check_true true _ eq_refl)).
      destruct (add_rep m _ _ (ELV_HASH_FN (rq_hash_key r)) p P R (ELV_HASH_FN_bucket _) Hp Hh) as (m' & E & R').
      by eexists _, m'.
  - intros offset fuel Hf. unfold elv_rqhash_find, hl_rqhash_find.
    rewrite (bind_ok _ _ _ _ _ (gets_ok _ _)).
    pose proof (hr_chain _ _ _ R _ (ELV_HASH_FN_bucket offset)) as Hs%hseg_first.
    rewrite (bind_ok _ _ _ _ _ (get_slot_ok _ _ _ Hs)).
    apply (walk_sim offset (ELV_HASH_FN offset) []); [done..|apply ELV_HASH_FN_bucket|done|].
    unfold chain. rewrite length_fmap. eapply Nat.le_lt_trans; [apply length_filter|done].
Qed.

End RqHash.

(** ** A table with one request *)

Section Example.

#[local] Instance sample_place : HashPlace := {| e_hash := 5000; hash_offset := 16 |}.

(** Reads of eight sectors that end at sectors 24 and 32. *)
Definition sample_rqs : gmap Z request :=
  {[ 100 := mk_request REQ_TYPE_FS 0 4096 16 [] None 1 0 false 1;
     200 := mk_request REQ_TYPE_FS 0 4096 24 [] None 1 0 false 1 ]}.

Definition sample_queue : rqueue :=
  mk_rqueue (mk_ioq ∅ 0 0 0 0 0 []) sample_rqs 0 (λ _, 0) (mk_rl (λ _, 0) (λ _, false) 0 (λ _, false)) [].

(** The heads as [elevator_alloc] leaves them, and two nodes on no list. *)
Definition sample_hmem : hmem :=
  mk_hmem (list_to_map ((λ b, (hash_head b, 0)) <$> seqZ 0 64) ∪ {[ 116 := 0; 216 := 0 ]}) {[ 116 := 0; 216 := 0 ]}.

Lemma sample_dom p : p ∈ dom sample_rqs ↔ p = 100 ∨ p = 200.
Proof. unfold sample_rqs. rewrite dom_insert, dom_singleton. set_solver. Qed.

Lemma sample_placed : placed sample_rqs.
Proof.
  split; unfold bucket, hash_head, hash_node; simpl; [lia|..].
  - intros p Hp%sample_dom. lia.
  - intros b p Hb Hp%sample_dom. lia.
Qed.

Lemma sample_rep : hash_rep sample_hmem [] sample_rqs.
Proof.
  split.
  - intros b Hb. assert (Forall (λ b, slots sample_hmem !! hash_head b = Some 0) (seqZ 0 64)) as Ha
      by (by apply (bool_decide_unpack _); vm_compute).
    rewrite Forall_forall in Ha. apply Ha, elem_of_seqZ. exact Hb.
  - constructor.
  - intros b p []%not_elem_of_nil.
  - intros p [-> | ->]%sample_dom _; (split; [by eexists; vm_compute|done]).
Qed.

Lemma rqhash_refines_witness :
  ∃ m q m', hash_rep m [(ELV_HASH_FN 24, 100)] sample_rqs ∧
    hl_rqhash_find sample_rqs 2 24 m = Ok (q, m') ∧ q = 100.
Proof.
  destruct (rqhash_refines sample_queue sample_hmem sample_placed sample_rep) as [Hadd _].
  destruct (Hadd 100 _ eq_refl) as [_ (h & m & Ea & _ & R)].
  assert (h = [(ELV_HASH_FN 24, 100)]) as -> by (injection Ea; intros <-; reflexivity).
  destruct (rqhash_refines (with_hash [(ELV_HASH_FN 24, 100)] sample_queue) m sample_placed R) as [_ Hfind].
  destruct (Hfind 24 2%nat) as (q & h' & m' & Ef & Eh & _); [simpl; lia|].
  exists m, q, m'. split; [exact R|]. split; [exact Eh|].
  assert (elv_rqhash_find 24 (with_hash [(ELV_HASH_FN 24, 100)] sample_queue) =
          Ok (100, with_hash [(ELV_HASH_FN 24, 100)] sample_queue)) as E by (vm_compute; reflexivity).
  rewrite E in Ef. by injection Ef.
Defined.

End Example.
