(* ===== verification/ElevatorOps.v ===== *)
(** * The operations of the request queue keep its invariant *)

From stdpp Require Import functions.
From S2P Require Import Prelude BlkTypes BlkRequest ListHead Sstf Elevator ElevatorSched ElevatorInv ElevatorMerge.

Section Ops.
Context `{QueueLimits} `{QueuePlace} (ops : elevator_ops) (cap : Z) `{!SchedOk ops cap} `{!LimitsOk cap}.
Notation queue_ok_at := (queue_ok_at ops cap).

(** ** Submitting a bio *)

Lemma merge_fn_there f : elevator_latter_req_fn ops = Some f ∨ elevator_former_req_fn ops = Some f → elevator_merge_req_fn ops ≠ None.
Proof.
  intros Hf Hn. pose proof (sched_merged (ops := ops) (cap := cap) ∅ (mk_ioq ∅ 0 0 0 0 0 []) [] 0 [] [] 0) as Hl. rewrite Hn in Hl.
  destruct Hl, Hf; congruence.
Qed.

Lemma still_refl p r s : q_rqs s !! p = Some r → still p r s.
Proof. by exists r. Qed.

Lemma attempt_back_merge_ok X out sub s l D F p r :
  queue_ok_at X out sub s l D F → X ⊆ [p] → p ∈ l → q_rqs s !! p = Some r →
  runs (attempt_back_merge ops p) s (λ ok s',
    if ok then ∃ l', queue_ok_at [] out sub s' l' D F else queue_ok_at X out sub s' l D F ∧ still p r s').
Proof.
  intros I HX Hp Hr. unfold attempt_back_merge. destruct (elevator_latter_req_fn ops) as [f|] eqn:Ef; [|apply runs_ret; eauto using still_refl].
  destruct (sched_latter (q_rqs s) (q_io s) l D p f Ef) as (q & E & Hq); [apply I|done|].
  apply runs_bind. eapply runs_sched; [exact E|]. replace (set_io (q_io s) s) with s by by destruct s.
  destruct (Z.eqb_spec q 0) as [|Hnz]; [apply runs_ret; eauto using still_refl|]. destruct Hq as [?|[Hq Hne]]; [done|].
  apply list_elem_of_split in Hq as (l1 & l2 & ->). destruct (lookup_of ops cap _ _ _ _ _ _ _ q I) as (n & Hn & _); [set_solver|].
  eapply runs_mono; [by eapply (attempt_merge_ok ops cap X out out sub s _ (l1 ++ l2)); [..|apply next_waits, (merge_fn_there f); auto| |]|].
  intros [] s' HQ; [by exists (l1 ++ l2)|by destruct HQ as (? & ? & _)].
Qed.

Lemma attempt_front_merge_ok out sub s l D F p r :
  queue_ok_at [] out sub s l D F → p ∈ l → q_rqs s !! p = Some r →
  runs (attempt_front_merge ops p) s (λ ok s',
    if ok then ∃ l', queue_ok_at [] out sub s' l' D F else queue_ok_at [] out sub s' l D F ∧ still p r s').
Proof.
  intros I Hp Hr. unfold attempt_front_merge. destruct (elevator_former_req_fn ops) as [f|] eqn:Ef; [|apply runs_ret; eauto using still_refl].
  destruct (sched_former (q_rqs s) (q_io s) l D p f Ef) as (q & E & Hq); [apply I|done|].
  apply runs_bind. eapply runs_sched; [exact E|]. replace (set_io (q_io s) s) with s by by destruct s.
  destruct (Z.eqb_spec q 0) as [|Hnz]; [apply runs_ret; eauto using still_refl|]. destruct Hq as [?|[Hq Hne]]; [done|].
  destruct (lookup_of ops cap _ _ _ _ _ _ _ q I) as (n & Hn & _); [set_solver|]. apply list_elem_of_split in Hp as (l1 & l2 & ->).
  eapply runs_mono; [by eapply (attempt_merge_ok ops cap [] out out sub s _ (l1 ++ l2)); [|set_solver|..|apply next_waits, (merge_fn_there f); auto| |]|].
  intros [] s' HQ; [by exists (l1 ++ l2)|by destruct HQ as (? & _ & ?)].
Qed.

Lemma elv_merged_request_ok X out sub s l D F p r type :
  queue_ok_at X out sub s l D F → X ⊆ [p] → (type = ELEVATOR_BACK_MERGE ∨ X = []) → p ∈ l →
  q_rqs s !! p = Some r → rq_mergeable r = true →
  runs (elv_merged_request p type) s (λ _ s', queue_ok_at [] out sub s' l D F).
Proof.
  intros I HX Ht Hp Hr Hm. apply runs_bind.
  apply (runs_mono _ _ (λ _ s', queue_ok_at [] out sub s' l D F ∧ q_rqs s' = q_rqs s)).
  - destruct (Z.eqb_spec type ELEVATOR_BACK_MERGE); [|apply runs_ret; by destruct Ht as [?| ->]].
    eapply runs_mono; [by eapply elv_rqhash_reposition_ok|]. by intros [] s' (? & h & ->).
  - intros [] s' [I' E]. eapply runs_ok; [apply modify_ok|]. apply ok_last; [done|]. rewrite E. right. split; [done|]. by exists r.
Qed.

(** The requests of the tasks are not in the scheduler. *)
Lemma out_not_waiting X out sub s l D F p : queue_ok_at X out sub s l D F → p ∈ out → p ∉ l.
Proof.
  intros I Hp Hl. pose proof (pl_nodup _ _ _ _ _ _ _ _ (qo_places _ _ _ _ _ _ _ _ _ I)) as Hn.
  apply NoDup_app in Hn as (_ & Hn & _). apply (Hn p Hl). set_solver.
Qed.

Lemma plug_walk_ok out sub l D F ps : ∀ s b,
  queue_ok_at [] out sub s l D F → ps ⊆ out → bio_wf cap b →
  runs (plug_walk ops ps b) s (λ m s', match m with
    | None => queue_ok_at [] out (bi_private b :: sub) s' l D F
    | Some b' => bio_alike b b' ∧ queue_ok_at [] out sub s' l D F end).
Proof.
  induction ps as [|p ps IH]; intros s b I Hps Wb; cbn [plug_walk]; [by apply runs_ret|].
  assert (p ∈ out) as Hp by set_solver. pose proof (out_not_waiting _ _ _ _ _ _ _ p I Hp) as Hpl.
  destruct (lookup_of ops cap _ _ _ _ _ _ _ p I) as (r & Hr & W); [set_solver|].
  apply runs_bind. eapply runs_mono; [by apply (elv_try_merge_ok ops cap s p r b)|]. intros ret s' [-> Hret].
  apply runs_bind. apply (runs_mono _ _ (λ m s', match m with
    | None => queue_ok_at [] out (bi_private b :: sub) s' l D F
    | Some b' => bio_alike b b' ∧ queue_ok_at [] out sub s' l D F end)).
  - destruct Hret as [->|[Hm [[-> Hc]|[-> Hc]]]]; [by apply runs_ret|..]; simpl.
    + eapply runs_mono; [by eapply (bio_attempt_back_merge_ok ops cap [] []); [..|right]|]. by intros [b'|] s'; [|intros [? _]].
    + eapply runs_mono; [by eapply (bio_attempt_front_merge_ok ops cap [])|]. by intros [b'|] s'; [|intros [? _]].
  - intros [b'|] s' HQ; [|by apply runs_ret]. destruct HQ as [Ha I'].
    eapply runs_mono; [apply (IH s' b'); [done|set_solver|by eapply alike_bio_wf]|]. intros m s2 HQ.
    assert (bi_private b' = bi_private b) as Ep by (destruct Ha as [[= ? ? ? ? ? ? ?] _]; done).
    destruct m; [destruct HQ; split; [by etrans|done]|by rewrite <- Ep].
Qed.

(** [__make_request] up to [get_rq]: the bio has become part of a request, or is
    still as it was. *)
Lemma make_request_merge_ok out sub s l D F plug b :
  queue_ok_at [] out sub s l D F → plug ⊆ out → bio_wf cap b →
  runs (make_request_merge ops plug b) s (λ m s', match m with
    | None => ∃ l', queue_ok_at [] out (bi_private b :: sub) s' l' D F
    | Some b' => bio_alike b b' ∧ queue_ok_at [] out sub s' l D F end).
Proof.
  intros I Hpl Wb. apply runs_bind. eapply runs_mono; [apply (plug_walk_ok out sub l D F); [done|set_solver|done]|].
  intros [b1|] s1 HQ; [|apply runs_ret; by exists l]. destruct HQ as [Ha1 I1]. pose proof (alike_bio_wf _ _ _ Ha1 Wb) as Wb1.
  assert (bi_private b1 = bi_private b) as Ep by (destruct Ha1 as [[= ? ? ? ? ? ? ?] _]; done).
  apply runs_bind. eapply runs_mono; [by apply (elv_merge_ok ops cap out sub s1 l D F b1)|].
  intros [ret q] s2 (I2 & Hret). simpl in Hret. destruct Hret as [->|(Hq & r & Hr & Hm & [[-> Hc]|[-> Hc]])]; simpl; [by apply runs_ret|..].
  - apply runs_bind. eapply runs_mono; [by eapply (bio_attempt_back_merge_ok ops cap [] [q]); [..|set_solver|left; set_solver]|].
    intros [b2|] s3 HQ; [destruct HQ; apply runs_ret; split; [by etrans|done]|]. destruct HQ as (I3 & r3 & Hr3 & Hm3).
    apply runs_bind. eapply runs_mono; [by eapply attempt_back_merge_ok|]. intros [] s4 HQ.
    + apply runs_bind, runs_ret, runs_ret. by rewrite <- Ep.
    + destruct HQ as (I4 & r4 & Hr4 & A4). apply runs_bind.
      eapply runs_mono; [eapply (elv_merged_request_ok [q]); [done|set_solver|by left|done|done|]|].
      { destruct (alike_view _ _ A4) as (_ & _ & _ & -> & _). congruence. }
      intros [] s5 I5. apply runs_ret. exists l. by rewrite <- Ep.
  - apply runs_bind. eapply runs_mono; [by eapply (bio_attempt_front_merge_ok ops cap [])|].
    intros [b2|] s3 HQ; [destruct HQ; apply runs_ret; split; [by etrans|done]|]. destruct HQ as (I3 & r3 & Hr3 & Hm3).
    apply runs_bind. eapply runs_mono; [by eapply attempt_front_merge_ok|]. intros [] s4 HQ.
    + apply runs_bind, runs_ret, runs_ret. by rewrite <- Ep.
    + destruct HQ as (I4 & r4 & Hr4 & A4). apply runs_bind.
      eapply runs_mono; [eapply (elv_merged_request_ok []); [done|set_solver|by right|done|done|]|].
      { destruct (alike_view _ _ A4) as (_ & _ & _ & -> & _). congruence. }
      intros [] s5 I5. apply runs_ret. exists l. by rewrite <- Ep.
Qed.

(** ** Inserting a request *)

Lemma elv_attempt_insert_merge_ok out sub s l D F p r :
  queue_ok_at [] (p :: out) sub s l D F → q_rqs s !! p = Some r →
  runs (elv_attempt_insert_merge ops p) s (λ ok s',
    if ok then queue_ok_at [] out sub s' l D F else queue_ok_at [] (p :: out) sub s' l D F ∧ still p r s').
Proof.
  intros I Hr. pose proof (out_not_waiting _ _ _ _ _ _ _ p I ltac:(set_solver)) as Hpl.
  unfold elv_attempt_insert_merge. destruct blk_queue_nomerges; [apply runs_ret; eauto using still_refl|].
  apply runs_bind. eapply runs_ok; [apply gets_ok|]. set (last := last_merge (q_io s)). apply runs_bind.
  apply (runs_mono _ _ (λ ok s', if ok : bool then queue_ok_at [] out sub s' l D F else queue_ok_at [] (p :: out) sub s' l D F ∧ still p r s')).
  { destruct (Z.eqb_spec last 0); [apply runs_ret; eauto using still_refl|].
    destruct (qo_last _ _ _ _ _ _ _ _ _ I) as [?|(Hl & r0 & Hr0 & _)]; [done|]. fold last in Hl, Hr0. eapply runs_mono.
    { eapply (attempt_merge_ok ops cap []); [done|set_solver|done|set_solver|apply next_new|done|done]. }
    intros [] s' HQ; [done|by destruct HQ as (? & _ & ?)]. }
  intros [] s1 HQ; [by apply runs_ret|]. destruct HQ as (I1 & r1 & Hr1 & A1).
  destruct blk_queue_noxmerges; [apply runs_ret; split; [done|by exists r1]|]. apply runs_bind, (runs_get _ r1); [done|].
  apply runs_bind. eapply runs_mono; [by eapply elv_rqhash_find_ok|]. intros q s2 (I2 & [h ->] & HQ). case_decide as Hq.
  { subst q. simpl. apply runs_ret. split; [done|by exists r1]. }
  destruct HQ as (Hl & r2 & Hr2 & _). rewrite (proj2 (Z.eqb_neq q 0) Hq). eapply runs_mono.
  { eapply (attempt_merge_ok ops cap []); [done|set_solver|done|set_solver|apply next_new|done|done]. }
  intros [] s' HQ; [done|]. destruct HQ as (? & _ & r3 & ? & ?). split; [done|]. exists r3. split; [done|by etrans].
Qed.

Lemma hash_insert h m l l' p r :
  hash_ok [] h m l → p ∉ l → (∀ q, q ∈ l' ↔ q = p ∨ q ∈ l) →
  hash_ok [] (if rq_mergeable r then (ELV_HASH_FN (rq_hash_key r), p) :: h else h) (<[p := r]> m) l'.
Proof.
  intros [Hn Hb Ha] Hp Hl'.
  assert (∀ b q, (b, q) ∈ h → q ≠ p ∧ q ∈ l' ∧ ∃ r0, <[p := r]> m !! q = Some r0 ∧ (q ∉ [] → b = ELV_HASH_FN (rq_hash_key r0))) as Hb'.
  { intros b q Hq. destruct (Hb b q Hq) as (Hl & r0 & ? & ?). assert (q ≠ p) by set_solver. split; [done|]. split; [apply Hl'; by right|].
    exists r0. by rewrite lookup_insert_ne. }
  assert (∀ q r0, q ∈ l' → q ≠ p → <[p := r]> m !! q = Some r0 → rq_mergeable r0 = true → q ∈ h.*2) as Ha'.
  { intros q r0 [->|?]%Hl' ?; [done|]. rewrite lookup_insert_ne by done. by apply Ha. }
  destruct (rq_mergeable r) eqn:Hm; split.
  - csimpl. apply NoDup_cons. split; [|done]. intros ([b q] & E & Hq)%list_elem_of_fmap. simpl in E. subst q. by destruct (Hb' b p Hq).
  - intros b q [[= -> ->]|Hq]%elem_of_cons; [|by apply Hb']. split; [apply Hl'; by left|]. exists r. by rewrite lookup_insert_eq.
  - intros q r0 Hq Hr0 Hm0. csimpl. apply elem_of_cons. destruct (decide (q = p)); [by left|right; by eapply Ha'].
  - done.
  - intros b q Hq. by apply Hb'.
  - intros q r0 Hq Hr0 Hm0. destruct (decide (q = p)) as [->|]; [|by eapply Ha']. rewrite lookup_insert_eq in Hr0. congruence.
Qed.

Lemma places_added io io' m l1 l2 D F out p :
  places ops cap io m (l1 ++ l2) D F (p :: out) → sched_rep sched_inv io' (l1 ++ p :: l2) D →
  only_lists (p :: l1 ++ l2) D io io' → places ops cap io' m (l1 ++ p :: l2) D F out.
Proof.
  intros P Hs Ho. assert ((l1 ++ p :: l2) ++ D ++ F ++ out ≡ₚ (l1 ++ l2) ++ D ++ F ++ p :: out) as E by solve_Permutation.
  split; [done|rewrite E; apply P|intros q; rewrite E; apply P| |apply P].
  intros q Hq. eapply dll_ext; [eapply pl_free; [exact P|set_solver]|]. intros y ->%list_elem_of_singleton.
  destruct (pl_addr _ _ _ _ _ _ _ _ P q) as (_ & ? & ?); [apply (pl_all _ _ _ _ _ _ _ _ P); set_solver|].
  pose proof (pl_nodup _ _ _ _ _ _ _ _ P) as Hnd.
  assert ((l1 ++ l2) ++ D ++ F ++ p :: out ≡ₚ (p :: (l1 ++ l2) ++ D) ++ F ++ out) as E2 by solve_Permutation.
  rewrite E2 in Hnd. apply NoDup_app in Hnd as (_ & Hx & _).
  assert (q ∉ p :: (l1 ++ l2) ++ D) as Hq' by (intros Hc; by apply (Hx q Hc)). apply Ho; set_solver.
Qed.

Lemma out_apart X out sub s l D F p :
  queue_ok_at X (p :: out) sub s l D F → apart_from (q_io s) l D p.
Proof.
  intros I. pose proof (qo_places _ _ _ _ _ _ _ _ _ I) as P. pose proof (pl_nodup _ _ _ _ _ _ _ _ P) as Hnd.
  assert (l ++ D ++ F ++ p :: out ≡ₚ p :: (l ++ D) ++ F ++ out) as E by solve_Permutation. rewrite E in Hnd.
  apply NoDup_cons in Hnd as [Hp _]. destruct (pl_addr _ _ _ _ _ _ _ _ P p) as (? & ? & ?); [apply (pl_all _ _ _ _ _ _ _ _ P); set_solver|].
  split_and!; [set_solver|set_solver| |done|exact (waiting_bound ops cap _ _ _ _ _ _ _ _ P (qo_counted _ _ _ _ _ _ _ _ _ I))].
  eapply (dll_mapped _ p []); [eapply pl_free; [done|set_solver]|set_solver].
Qed.

Lemma contents_move m l l' F F' out out' p r' :
  contents cap m l F out → rq_wf cap r' →
  (∀ q, q ∈ l' → q = p ∨ q ∈ l) → (∀ q, q ∈ F' → q = p ∨ q ∈ F) → (∀ q, q ∈ out' → q = p ∨ q ∈ out) →
  (p ∈ l' → waits r') → (p ∈ F' → started r') → (p ∈ out' → fresh r') → contents cap (<[p := r']> m) l' F' out'.
Proof. intros [] ? ? ? ? ? ? ?. split; intros q r; rewrite lookup_insert_Some; naive_solver. Qed.

Lemma last_mono last m l l' : l ⊆ l' → last_ok last m l → last_ok last m l'.
Proof. intros Hl [?|[? ?]]; [by left|right]. split; [set_solver|done]. Qed.

(** A request of a task is in no other place. *)
Lemma out_only X out sub s l D F p :
  queue_ok_at X (p :: out) sub s l D F → p ∉ l ++ D ∧ p ∉ F ∧ p ∉ out.
Proof.
  intros I. pose proof (pl_nodup _ _ _ _ _ _ _ _ (qo_places _ _ _ _ _ _ _ _ _ I)) as Hnd.
  assert (l ++ D ++ F ++ p :: out ≡ₚ p :: (l ++ D) ++ F ++ out) as E by solve_Permutation. rewrite E in Hnd.
  apply NoDup_cons in Hnd as [Hp _]. set_solver.
Qed.

Lemma insert_sort_ok out sub s l D F p r :
  queue_ok_at [] (p :: out) sub s l D F → q_rqs s !! p = Some r →
  runs (insert_sort ops p) s (λ _ s', ∃ l', queue_ok_at [] out sub s' l' D F).
Proof.
  intros I Hr. pose proof (out_apart _ _ _ _ _ _ _ _ I) as Hap. pose proof I as [P Co Cn Ha La Nr Bi].
  pose proof (out_not_waiting _ _ _ _ _ _ _ p I ltac:(set_solver)) as Hpl. pose proof (co_wf _ _ _ _ _ Co p r Hr) as W.
  destruct (co_fresh _ _ _ _ _ Co p r) as (F1 & F2 & F3); [set_solver|done|].
  apply runs_bind, (runs_get _ r); [done|]. apply runs_bind, runs_check; [unfold cmd_fs; by rewrite (rw_type _ _ W)|].
  apply runs_bind. eapply runs_ok; [apply modify_ok|]. apply runs_bind. eapply runs_ok; [apply modify_ok|]. simpl.
  set (r' := add_flags REQ_SORTED r). set (m := <[p := r']> (q_rqs s)).
  set (h := if rq_mergeable r' then (ELV_HASH_FN (rq_hash_key r'), p) :: rq_hash (q_io s) else rq_hash (q_io s)).
  set (last := if rq_mergeable r' && (last_merge (q_io s) =? 0) then p else last_merge (q_io s)).
  apply runs_bind. apply (runs_mono _ _ (λ _ s', s' = set_rqs m (set_io (mk_ioq (lists_mem (q_io s)) (enqueue (q_io s)) (queue_count (q_io s))
    (u32 (nr_sorted (q_io s) + 1)) (end_sector (q_io s)) last h) s))).
  { unfold last, h. destruct (rq_mergeable r'); [|by apply runs_ret]. apply runs_bind, runs_bind, (runs_get _ r'); [simpl; unfold m; by rewrite lookup_insert_eq|].
    apply runs_bind. eapply runs_ok; [apply gets_ok|]. apply runs_bind, runs_check.
    { apply negb_true_iff, bool_decide_eq_false. simpl. intros ([b q] & E & Hq)%list_elem_of_fmap. simpl in E. subst q.
      by destruct (ha_bucket _ _ _ _ Ha b p Hq). }
    eapply runs_ok; [apply modify_ok|]. eapply runs_ok; [apply modify_ok|]. simpl. by destruct (last_merge (q_io s) =? 0). }
  intros [] s1 ->. destruct (sched_add (ops := ops) (cap := cap) m (mk_ioq (lists_mem (q_io s)) (enqueue (q_io s)) (queue_count (q_io s))
    (u32 (nr_sorted (q_io s) + 1)) (end_sector (q_io s)) last h) l D p) as (io & l1 & l2 & E & -> & Hrep & [= E1 E2 E3 E4] & Ho).
  { by apply (places_io ops cap (q_io s) _ (q_rqs s) l D F (p :: out)). }
  { done. }
  eapply runs_sched; [exact E|]. exists (l1 ++ p :: l2). pose proof (waiting_bound _ _ _ _ _ _ _ _ _ _ P Cn) as Hb.
  assert (plain_flag REQ_SORTED) as Hf by done. split; simpl.
  - eapply places_added; [|done|exact Ho]. eapply places_put; [done|]. by eapply places_io; [|exact P].
  - destruct (out_only _ _ _ _ _ _ _ _ I) as (_ & HF & Hout). apply (contents_move (q_rqs s) (l1 ++ l2) _ F _ (p :: out)); try done.
    + by apply wf_add_flags.
    + clear. set_solver.
    + auto.
    + clear. set_solver.
    + intros _. unfold waits, r'. simpl. by rewrite !flagged_lor, F2, F3, orb_true_r.
  - eapply counted_put; [done|by apply sync_add_flags|done].
  - rewrite E4. unfold h, m. apply (hash_insert _ _ (l1 ++ l2)); [done|done|set_solver].
  - rewrite E3. unfold last, m. assert (last_ok (last_merge (q_io s)) (<[p := r']> (q_rqs s)) (l1 ++ p :: l2)) as La'.
    { eapply (last_mono _ _ (l1 ++ l2)); [set_solver|]. apply last_put; [|done]. intros <-. by destruct La as [E0|[? _]]; [destruct Hap; naive_solver|]. }
    destruct (rq_mergeable r') eqn:Hm; [simpl; case_match|]; try done. right. split; [set_solver|]. exists r'. by rewrite lookup_insert_eq.
  - rewrite E1, Nr. rewrite length_app in Hb |- *. rewrite length_app. simpl. rewrite u32_id by lia. lia.
  - unfold m. rewrite (privs_put _ p r r' []) by done. done.
Qed.

(** ** Dispatching *)

Lemma on_device_ok X out sub s l D F : queue_ok_at X out sub s l D F → on_device cap (q_rqs s) l.
Proof.
  intros I. pose proof (qo_places _ _ _ _ _ _ _ _ _ I) as P. split.
  - destruct (q_rqs s !! nd_at) eqn:E; [|done]. by destruct (pl_addr _ _ _ _ _ _ _ _ P nd_at) as (_ & ? & _); [eexists|].
  - intros p Hp. destruct (lookup_of ops cap _ _ _ _ _ _ _ p I) as (r & Hr & W); [set_solver|]. exists r. split; [done|].
    destruct (rw_range _ _ W), (rq_sectors_pos _ _ W). unfold blk_rq_pos. lia.
Qed.

(** [e] leaves the scheduler for the dispatch queue. *)
Lemma places_dispatched io io' m l1 e l2 d1 d2 F out :
  places ops cap io m (l1 ++ e :: l2) (d1 ++ d2) F out → sched_rep sched_inv io' (l1 ++ l2) (d1 ++ e :: d2) →
  only_lists (l1 ++ e :: l2) (d1 ++ d2) io io' → places ops cap io' m (l1 ++ l2) (d1 ++ e :: d2) F out.
Proof.
  intros P Hs Ho. assert ((l1 ++ l2) ++ (d1 ++ e :: d2) ++ F ++ out ≡ₚ (l1 ++ e :: l2) ++ (d1 ++ d2) ++ F ++ out) as E by solve_Permutation.
  split; [done|rewrite E; apply P|intros q; rewrite E; apply P| |apply P].
  intros q Hq. by eapply free_node.
Qed.

Lemma dispatch_ok out sub s l D F :
  queue_ok_at [] out sub s l D F →
  runs (on_sched (elevator_dispatch_fn ops)) s (λ ret s',
    ret = 0 ∧ l = [] ∧ s' = s ∨
    ret = 1 ∧ ∃ l1 e l2 d1 d2, l = l1 ++ e :: l2 ∧ D = d1 ++ d2 ∧ q_rqs s' = q_rqs s ∧ queue_ok_at [] out sub s' (l1 ++ l2) (d1 ++ e :: d2) F).
Proof.
  intros I. pose proof I as [P Co Cn Ha La Nr Bi].
  destruct (sched_dispatch (q_rqs s) (q_io s) l D) as [[-> E]|(l1 & e & l2 & io & d1 & d2 & -> & E & -> & Hrep & (E1 & _ & E3 & E4) & Ho)].
  { apply P. } { by eapply on_device_ok. }
  { eapply runs_sched; [exact E|]. left. by destruct s. }
  eapply runs_sched; [exact E|]. right. split; [done|]. exists l1, e, l2, d1, d2. split_and!; [done..|].
  assert (NoDup (l1 ++ e :: l2)) as Hnd by (pose proof (pl_nodup _ _ _ _ _ _ _ _ P) as Hx; by apply NoDup_app in Hx as (? & _)).
  pose proof (waiting_bound _ _ _ _ _ _ _ _ _ _ P Cn) as Hb. split; simpl; try done.
  - by eapply places_dispatched.
  - destruct Co. split; try done. intros q r Hq. apply co_waits. set_solver.
  - rewrite E4. by apply hash_remove.
  - rewrite E3. case_decide as He; [by left|]. destruct La as [?|(Hl & ?)]; [by left|]. right. split; [set_solver|done].
  - rewrite E1, Nr. rewrite length_app in Hb |- *. rewrite length_app. simpl in *. rewrite u32_id by lia. lia.
Qed.

Lemma drain_ok out sub F fuel : ∀ s l D,
  queue_ok_at [] out sub s l D F → (length l < fuel)%nat →
  runs (elv_drain_elevator ops fuel) s (λ _ s', ∃ D', queue_ok_at [] out sub s' [] D' F ∧ D' ≡ₚ l ++ D).
Proof.
  induction fuel as [|fuel IH]; intros s l D I Hf; [lia|]. cbn [elv_drain_elevator]. apply runs_bind.
  eapply runs_mono; [by eapply dispatch_ok|]. intros ret s' [(-> & -> & ->)|(-> & l1 & e & l2 & d1 & d2 & -> & -> & _ & I')]; simpl.
  - apply runs_ret. by exists D.
  - eapply runs_mono; [eapply IH; [done|]|].
    { rewrite length_app in Hf |- *. simpl in Hf. lia. }
    intros [] s2 (D' & I2 & Hp). exists D'. split; [done|]. rewrite Hp. solve_Permutation.
Qed.
End Ops.
