(* ===== verification/ElevatorDrv.v ===== *)
(** * New requests, the plug and the driver *)

From stdpp Require Import functions.
From S2P Require Import Prelude BlkTypes BlkRequest ListHead Sstf Elevator ElevatorSched ElevatorInv ElevatorMerge ElevatorOps.

(** A list head that is alone is as [INIT_LIST_HEAD] makes it. *)
Lemma dll_alone m p : dll m p [] ↔ m !! p = Some (mk_list_head p p).
Proof.
  split.
  - intros [_ [Hn Hp]]. unfold nxt, prv in *. destruct (m !! p) as [[n v]|]; simpl in *; congruence.
  - intros E. apply dll_singleton; unfold nxt, prv; by rewrite E.
Qed.

Lemma INIT_LIST_HEAD_alone m p : dll m p [] → INIT_LIST_HEAD p m = Ok (tt, m).
Proof.
  intros E%dll_alone. unfold INIT_LIST_HEAD, set_next, set_prev, rd_list, mbind, cmd_bind, the, modify, mret, cmd_ret. rewrite E. simpl.
  rewrite lookup_insert_eq. simpl. rewrite insert_insert_eq, insert_id; done.
Qed.

Section Drv.
Context `{QueueLimits} `{QueuePlace} (ops : elevator_ops) (cap : Z) `{!SchedOk ops cap} `{!LimitsOk cap}.
Notation queue_ok_at := (queue_ok_at ops cap).

(** The queue is in order; [out] are the requests of the tasks, [sub] the bios
    that were submitted. *)
Definition queue_inv (out sub : list Z) (s : rqueue) : Prop := ∃ l D F, queue_ok_at [] out sub s l D F.

(** What the request function of the driver has to keep. *)
Definition request_fn_ok (request_fn : qM unit) : Prop :=
  ∀ out sub s, queue_inv out sub s → runs request_fn s (λ _ s', queue_inv out sub s').

Lemma ok_out_perm X out out' sub sub' s l D F :
  out ≡ₚ out' → sub ≡ₚ sub' → queue_ok_at X out sub s l D F → queue_ok_at X out' sub' s l D F.
Proof.
  intros Ho Hs [P Co Cn Ha La Nr Bi]. split; try done; [| |by rewrite <- Hs].
  - destruct P as [? ? Hal Hfr ?]. split; try done; [by rewrite <- Ho|intros p; by rewrite <- Ho|intros p; rewrite <- Ho; apply Hfr].
  - destruct Co. split; try done. intros p r. rewrite <- Ho. apply co_fresh.
Qed.

(** ** Insertion *)

Lemma add_new_ok rf out sub s l D F p w :
  queue_ok_at [] (p :: out) sub s l D F → w = ELEVATOR_INSERT_SORT ∨ w = ELEVATOR_INSERT_SORT_MERGE →
  runs (__elv_add_request ops rf p w) s (λ _ s', ∃ l', queue_ok_at [] out sub s' l' D F).
Proof.
  intros I Hw. destruct (lookup_of ops cap _ _ _ _ _ _ _ p I) as (r & Hr & W); [set_solver|].
  destruct (co_fresh _ _ _ _ _ (qo_contents _ _ _ _ _ _ _ _ _ I) p r) as (_ & _ & F3); [set_solver|done|].
  apply runs_bind, (runs_get _ r); [done|]. rewrite F3. simpl. apply runs_bind, runs_ret. rewrite (rw_priv _ _ W). simpl.
  destruct Hw as [-> | ->]; [by eapply insert_sort_ok|]. apply runs_bind.
  eapply runs_mono; [by eapply elv_attempt_insert_merge_ok|]. intros [] s' HQ; [apply runs_ret; by exists l|].
  destruct HQ as (I' & r' & Hr' & _). by eapply insert_sort_ok.
Qed.

Lemma flush_plug_ok rf out sub D F ps : ∀ s l,
  queue_ok_at [] (ps ++ out) sub s l D F → runs (flush_plug ops rf ps) s (λ _ s', ∃ l', queue_ok_at [] out sub s' l' D F).
Proof.
  induction ps as [|p ps IH]; intros s l I; cbn [flush_plug]; [apply runs_ret; by exists l|].
  apply runs_bind. eapply runs_list_read.
  { apply INIT_LIST_HEAD_alone. eapply pl_free; [apply I|set_solver]. }
  apply runs_bind. eapply runs_mono; [eapply (add_new_ok rf (ps ++ out)); [done|by right]|].
  intros [] s' (l' & I'). by eapply IH.
Qed.

Lemma blk_flush_plug_list_ok rf out sub s ps fs :
  request_fn_ok rf → queue_inv (ps ++ out) sub s →
  runs (blk_flush_plug_list ops rf ps fs) s (λ _ s', queue_inv out sub s').
Proof.
  intros Hrf (l & D & F & I). unfold blk_flush_plug_list. destruct ps as [|p ps]; [apply runs_ret; by exists l, D, F|].
  apply runs_bind. eapply runs_mono; [by eapply flush_plug_ok|]. intros [] s' (l' & I').
  destruct fs; [apply runs_ret; by exists l', D, F|]. apply Hrf. by exists l', D, F.
Qed.

Lemma make_request_add_ok rf out sub s p :
  request_fn_ok rf → queue_inv (p :: out) sub s → runs (make_request_add ops rf p) s (λ _ s', queue_inv out sub s').
Proof.
  intros Hrf (l & D & F & I). apply runs_bind. eapply runs_mono; [eapply add_new_ok; [done|by left]|].
  intros [] s' (l' & I'). apply Hrf. by exists l', D, F.
Qed.

(** ** Fetching *)

Lemma dispatch_queue_only X out sub s l D F p :
  queue_ok_at X out sub s l D F → p ∈ D → p ∉ l ∧ p ∉ F ++ out.
Proof.
  intros I Hp. pose proof (pl_nodup _ _ _ _ _ _ _ _ (qo_places _ _ _ _ _ _ _ _ _ I)) as Hnd.
  apply NoDup_app in Hnd as (_ & Hl & Hnd). apply NoDup_app in Hnd as (_ & Hd & _). split.
  - intros Hc. apply (Hl p Hc). set_solver.
  - by apply Hd.
Qed.

Lemma elv_next_ok out sub s l D F :
  queue_ok_at [] out sub s l D F →
  runs (__elv_next_request ops) s (λ p s', p = 0 ∧ l = [] ∧ D = [] ∧ s' = s ∨
    p ≠ 0 ∧ ∃ l' D', queue_ok_at [] out sub s' l' (p :: D') F ∧ l' ++ p :: D' ≡ₚ l ++ D).
Proof.
  intros I. unfold __elv_next_request. cbn [elv_next].
  assert (∀ s l D, queue_ok_at [] out sub s l D F → dll (lists_mem (q_io s)) head_at D) as Hdll.
  { intros s' l' D' I'. apply (lo_disp _ _ _ (proj1 (pl_sched _ _ _ _ _ _ _ _ (qo_places _ _ _ _ _ _ _ _ _ I')))). }
  assert (∀ s l p D, queue_ok_at [] out sub s l (p :: D) F → p ≠ 0) as Hnz.
  { intros s' l' p D' I'. by apply (pl_addr _ _ _ _ _ _ _ _ (qo_places _ _ _ _ _ _ _ _ _ I')), (pl_all _ _ _ _ _ _ _ _ (qo_places _ _ _ _ _ _ _ _ _ I')); set_solver. }
  apply runs_bind. eapply runs_list_read; [apply list_empty_dll; by eapply Hdll|]. destruct D as [|p D].
  - rewrite bool_decide_eq_true_2 by done. simpl. apply runs_bind. eapply runs_mono; [by eapply dispatch_ok|].
    intros ret s' [(-> & -> & ->)|(-> & l1 & e & l2 & d1 & d2 & -> & E & _ & I')]; simpl; [apply runs_ret; by left|].
    destruct d1, d2; try done. simpl in I'. apply runs_bind. eapply runs_list_read; [apply list_empty_dll; by eapply Hdll|].
    rewrite bool_decide_eq_false_2 by done. simpl. pose proof (Hdll _ _ _ I') as [_ Hs].
    eapply runs_list_read; [apply get_next_ok, (seg_first _ _ _ _ Hs)|]. right. split; [by eapply Hnz|]. exists (l1 ++ l2), [].
    split; [done|]. solve_Permutation.
  - rewrite bool_decide_eq_false_2 by done. simpl. pose proof (Hdll _ _ _ I) as [_ Hs].
    eapply runs_list_read; [apply get_next_ok, (seg_first _ _ _ _ Hs)|]. right. split; [by eapply Hnz|]. by exists l, D.
Qed.

(** Requests that do not wait in the scheduler are in no hash. *)
Lemma hash_outside X h m m' l : hash_ok X h m l → (∀ q, q ∈ l → m' !! q = m !! q) → hash_ok X h m' l.
Proof.
  intros [? Hb Ha] E. split; [done| |].
  - intros b q Hq. destruct (Hb b q Hq) as (? & r & ? & ?). split; [done|]. exists r. by rewrite E.
  - intros q r Hq. rewrite E by done. by apply Ha.
Qed.

Lemma last_outside x m m' l : last_ok x m l → (∀ q, q ∈ l → m' !! q = m !! q) → last_ok x m' l.
Proof. intros [?|(? & r & ? & ?)] E; [by left|right]. split; [done|]. exists r. by rewrite E. Qed.

(** Changing such a request, and ending the bios [e] of it. *)
Lemma ok_outside out sub s l D F p r r' e :
  queue_ok_at [] out sub s l D F → q_rqs s !! p = Some r → p ∉ l → (p ∈ F → started r') → (p ∈ out → fresh r') →
  rq_wf cap r' → rq_is_sync r' = rq_is_sync r → privs r ≡ₚ e.*1 ++ privs r' →
  queue_ok_at [] out sub (set_ended (q_ended s ++ e) (set_rqs (<[p := r']> (q_rqs s)) s)) l D F.
Proof.
  intros [P Co Cn Ha La Nr Bi] Hr Hl HF Ho W Hs Hp. assert (∀ q, q ∈ l → <[p := r']> (q_rqs s) !! q = q_rqs s !! q) as E.
  { intros q Hq. apply lookup_insert_ne. by intros ->. }
  split; simpl; try done.
  - by eapply places_put.
  - apply contents_put; try done.
  - by eapply counted_put.
  - by eapply hash_outside.
  - by eapply last_outside.
  - rewrite rq_list_put, all_privs_cons. rewrite (rq_list_del _ _ _ Hr), all_privs_cons, Hp in Bi. rewrite <- Bi, fmap_app. solve_Permutation.
Qed.

Lemma ok_flags out sub s l D F p r r' :
  queue_ok_at [] out sub s l D F → q_rqs s !! p = Some r → p ∉ l → p ∉ F ++ out → rq_wf cap r' → rq_is_sync r' = rq_is_sync r →
  privs r' = privs r → queue_ok_at [] out sub (set_rqs (<[p := r']> (q_rqs s)) s) l D F.
Proof.
  intros I Hr Hl HFo W Hs Hp. pose proof (ok_outside out sub s l D F p r r' [] I Hr Hl) as I'.
  rewrite app_nil_r in I'. apply I'; try done; [set_solver..|by rewrite Hp].
Qed.

Lemma ok_boundary X out sub s l D F e b :
  queue_ok_at X out sub s l D F → queue_ok_at X out sub (set_boundary b (set_io (io_end e (q_io s)) s)) l D F.
Proof. intros []. split; simpl; try done. by apply places_books. Qed.

Lemma blk_peek_ok out sub s l D F :
  queue_ok_at [] out sub s l D F →
  runs (blk_peek_request ops) s (λ p s', p = 0 ∧ l = [] ∧ D = [] ∧ s' = s ∨
    p ≠ 0 ∧ ∃ l' D' r, queue_ok_at [] out sub s' l' (p :: D') F ∧ l' ++ p :: D' ≡ₚ l ++ D ∧ q_rqs s' !! p = Some r ∧ started r).
Proof.
  intros I. apply runs_bind. eapply runs_mono; [by eapply elv_next_ok|]. intros p s1 [(-> & -> & -> & ->)|(Hp & l' & D' & I1 & Hperm)].
  { apply runs_ret. by left. }
  rewrite (proj2 (Z.eqb_neq p 0) Hp). destruct (lookup_of ops cap _ _ _ _ _ _ _ p I1) as (r & Hr & W); [set_solver|].
  destruct (dispatch_queue_only _ _ _ _ _ _ _ p I1) as [Hpl HpF]; [set_solver|].
  apply runs_bind, (runs_get _ r); [done|]. apply runs_bind.
  apply (runs_mono _ _ (λ _ s', queue_ok_at [] out sub s' l' (p :: D') F ∧ ∃ r', q_rqs s' !! p = Some r' ∧ started r')).
  { destruct (flagged (rq_flags r) REQ_STARTED) eqn:Hst; [apply runs_ret; split; [done|by exists r]|]. eapply runs_ok; [apply modify_ok|]. split.
    - eapply ok_flags; try done; [by apply wf_add_flags|by apply sync_add_flags].
    - eexists. simpl. rewrite lookup_insert_eq. split; [done|]. unfold started. simpl. by rewrite flagged_lor, orb_true_r. }
  intros [] s2 (I2 & r2 & Hr2 & Hst). apply runs_bind. eapply runs_ok; [apply gets_ok|]. apply runs_bind.
  apply (runs_mono _ _ (λ _ s', queue_ok_at [] out sub s' l' (p :: D') F ∧ q_rqs s' = q_rqs s2)).
  { case_match; [|by apply runs_ret]. apply runs_bind. eapply runs_ok; [apply modify_ok|]. eapply runs_ok; [apply modify_ok|].
    split; [by apply ok_boundary|done]. }
  intros [] s3 (I3 & E). apply runs_ret. right. split; [done|]. exists l', D', r2. by rewrite E.
Qed.

(** The queue with [p] handed to the driver. *)
Lemma places_fetched io io' m l p D F out :
  places ops cap io m l (p :: D) F out → lists_ok io' l D → enqueue io' = enqueue io → queue_count io' = queue_count io →
  dll (lists_mem io') p [] → (∀ y, y ∉ p :: head_at :: D → lists_mem io' !! y = lists_mem io !! y) →
  places ops cap io' m l D (p :: F) out.
Proof.
  intros P Hlo E1 E2 Hp Ho. assert (l ++ D ++ (p :: F) ++ out ≡ₚ l ++ (p :: D) ++ F ++ out) as E by solve_Permutation.
  split; [|rewrite E; apply P|intros q; rewrite E; apply P| |apply P].
  - split; [done|]. rewrite E1, E2. apply P.
  - intros q Hq. destruct (decide (q = p)) as [->|]; [done|]. eapply dll_ext; [eapply pl_free; [exact P|set_solver]|].
    intros y ->%list_elem_of_singleton. destruct (pl_addr _ _ _ _ _ _ _ _ P q) as (_ & ? & ?); [apply (pl_all _ _ _ _ _ _ _ _ P); set_solver|].
    pose proof (pl_nodup _ _ _ _ _ _ _ _ P) as Hnd. apply NoDup_app in Hnd as (_ & _ & Hnd). apply NoDup_app in Hnd as (_ & Hd & _).
    apply Ho. assert (q ∉ p :: D) by (intros Hc; apply (Hd q Hc); set_solver). set_solver.
Qed.

Lemma n_sync_bound out sub s l D F X b F' : queue_ok_at X out sub s l D F → NoDup F' → 0 ≤ n_sync b (rqs_at (q_rqs s) F') < 2 ^ 31.
Proof.
  intros I Hnd. split; [apply n_sync_nonneg|]. pose proof lim_nr. destruct (qo_counted _ _ _ _ _ _ _ _ _ I) as [_ Hl _ _].
  assert (length (rqs_at (q_rqs s) F') ≤ length (rq_list (q_rqs s)))%nat as Hle.
  { assert (∀ m : gmap Z request, length (rqs_at m F') ≤ length (rq_list m))%nat as Hx; [|apply Hx]. induction Hnd as [|q F' Hq Hnd IH]; intros m; [simpl; lia|].
    rewrite rqs_at_cons. destruct (m !! q) as [r|] eqn:E; [|apply IH]. rewrite (rq_list_del _ _ _ E). simpl.
    rewrite <- (rqs_at_delete m q F') by done. specialize (IH (delete q m)). lia. }
  assert (n_sync b (rqs_at (q_rqs s) F') ≤ Z.of_nat (length (rqs_at (q_rqs s) F'))) as Hn.
  { unfold n_sync. apply inj_le. apply length_filter. }
  pose proof (n_sync_total (rq_list (q_rqs s))). pose proof (Hl true). pose proof (Hl false).
  assert (3 * nr_requests / 2 ≤ 2 * nr_requests) by (apply Z.div_le_upper_bound; lia). lia.
Qed.

Lemma head_outside out sub s l D F X : queue_ok_at X out sub s l D F → head_at ∉ l ++ D ++ F ++ out ∧ nd_at ∉ l ++ D ++ F ++ out.
Proof.
  intros I. split; intros Hq; apply (pl_all _ _ _ _ _ _ _ _ (qo_places _ _ _ _ _ _ _ _ _ I)) in Hq;
    by apply (pl_addr _ _ _ _ _ _ _ _ (qo_places _ _ _ _ _ _ _ _ _ I)) in Hq as (? & ? & ?).
Qed.

(** The count of the requests with the driver when [p] joins them. *)
Lemma flight_more m F p r fl b :
  m !! p = Some r → (∀ b, fl b = n_sync b (rqs_at m F)) → n_sync (rq_is_sync r) (rqs_at m F) < 2 ^ 31 →
  (<[rq_is_sync r := u32 (fl (rq_is_sync r) + 1)]> fl) b = n_sync b (rqs_at m (p :: F)).
Proof.
  intros Hp Hf Hb. rewrite rqs_at_cons, Hp, n_sync_cons. case_decide as E.
  - rewrite <- E, fn_lookup_insert, Hf. pose proof (n_sync_nonneg (rq_is_sync r) (rqs_at m F)). rewrite u32_id by lia. lia.
  - rewrite fn_lookup_insert_ne, Hf by done. lia.
Qed.

(** And when it leaves them. *)
Lemma flight_less m F1 p F2 r fl b :
  m !! p = Some r → (∀ b, fl b = n_sync b (rqs_at m (F1 ++ p :: F2))) → n_sync (rq_is_sync r) (rqs_at m (F1 ++ F2)) < 2 ^ 31 →
  (<[rq_is_sync r := u32 (fl (rq_is_sync r) - 1)]> fl) b = n_sync b (rqs_at m (F1 ++ F2)).
Proof.
  intros Hp Hf Hb. assert (∀ b, fl b = (if decide (rq_is_sync r = b) then 1 else 0) + n_sync b (rqs_at m (F1 ++ F2))) as E.
  { intros b'. by rewrite Hf, (rqs_at_mid _ _ _ _ _ Hp), n_sync_cons. }
  destruct (decide (rq_is_sync r = b)) as [<-|Hn].
  - rewrite fn_lookup_insert, E, decide_True by done. pose proof (n_sync_nonneg (rq_is_sync r) (rqs_at m (F1 ++ F2))). rewrite u32_id by lia. lia.
  - rewrite fn_lookup_insert_ne, E, decide_False by done. lia.
Qed.

Lemma started_accounted r : rq_wf cap r → started r → blk_account_rq r = true.
Proof. intros W Hs. unfold blk_account_rq, cmd_fs. by rewrite Hs, (rw_type _ _ W). Qed.

Lemma blk_dequeue_ok out sub s l p D F r :
  queue_ok_at [] out sub s l (p :: D) F → q_rqs s !! p = Some r → started r →
  runs (blk_dequeue_request p) s (λ _ s', queue_ok_at [] out sub s' l D (p :: F)).
Proof.
  intros I Hr Hst. pose proof I as [P Co Cn Ha La Nr Bi]. pose proof (co_wf _ _ _ _ _ Co _ _ Hr) as W.
  destruct (pl_sched _ _ _ _ _ _ _ _ P) as [[Hl HD Hap Hz] Hsi]. destruct (head_outside _ _ _ _ _ _ _ I) as [Hh Hn].
  destruct (dispatch_queue_only _ _ _ _ _ _ _ p I) as [Hpl HpF]; [set_solver|].
  assert (bool_decide (p = head_at) = false) by (apply bool_decide_eq_false; set_solver).
  destruct (list_del_init_dll _ _ [] _ _ HD) as (m' & E & HD' & Hp' & Hm').
  apply runs_bind. eapply runs_list_read.
  { unfold list_empty. rewrite (bind_ok _ _ _ _ _ (get_next_ok _ _ _ (dll_next _ _ [] _ _ HD))). done. }
  apply runs_bind, runs_check.
  { apply negb_true_iff, bool_decide_eq_false. pose proof HD as [Hnd _]. destruct D as [|d D]; simpl; [set_solver|]. apply NoDup_cons in Hnd as [? Hnd].
    apply NoDup_cons in Hnd as [? ?]. set_solver. }
  apply runs_bind. eapply runs_ok; [apply gets_ok|]. apply runs_bind, runs_check.
  { apply negb_true_iff, bool_decide_eq_false. intros ([b p'] & -> & Hin)%list_elem_of_fmap. by destruct (ha_bucket _ _ _ _ Ha b _ Hin) as [? _]. }
  apply runs_bind. eapply runs_list; [exact E|]. apply runs_bind, (runs_get _ r); [done|]. rewrite (started_accounted r) by done.
  eapply runs_ok; [apply modify_ok|]. split; simpl; try done.
  - eapply places_fetched; [exact P|..]; simpl; try done.
    split; simpl; [|done|intros y Hy ?; apply (Hap y Hy); set_solver|done].
    eapply dll_ext; [exact Hl|]. intros y Hy. apply Hm'. pose proof (Hap y Hy). set_solver.
  - destruct Co. split; try done. intros q r' [->|?]%elem_of_cons ?; [|by eapply co_started]. by simplify_eq.
  - destruct Cn. split; try done. intros b. apply flight_more; [done..|]. eapply n_sync_bound; [exact I|].
    pose proof (pl_nodup _ _ _ _ _ _ _ _ P) as Hnd. apply NoDup_app in Hnd as (_ & _ & Hnd). apply NoDup_app in Hnd as (_ & _ & Hnd).
    by apply NoDup_app in Hnd as (? & _).
Qed.

(** The driver is given a request as long as there is one. *)
Lemma blk_fetch_ok out sub s l D F :
  queue_ok_at [] out sub s l D F →
  runs (blk_fetch_request ops) s (λ p s', p = 0 ∧ l = [] ∧ D = [] ∧ s' = s ∨
    p ≠ 0 ∧ ∃ l' D', queue_ok_at [] out sub s' l' D' (p :: F) ∧ l' ++ p :: D' ≡ₚ l ++ D).
Proof.
  intros I. apply runs_bind. eapply runs_mono; [by eapply blk_peek_ok|]. intros p s' [(-> & ?)|(Hp & l' & D' & r & I' & Hperm & Hr & Hst)].
  { apply runs_ret. by left. }
  rewrite (proj2 (Z.eqb_neq p 0) Hp). apply runs_bind. eapply runs_mono; [by eapply blk_dequeue_ok|]. intros [] s2 I2. apply runs_ret. right.
  split; [done|]. by exists l', D'.
Qed.
End Drv.
