(* ===== verification/ElevatorEnd.v ===== *)
(** * Completed, requeued and new requests

    [__blk_end_request] keeps what is left of a request in order and gives the
    request back when nothing is left, [blk_requeue_request] puts one back at the
    head of the dispatch queue, and [make_request_get] makes one for a bio. *)

From stdpp Require Import functions.
From S2P Require Import Prelude BlkTypes BlkRequest ListHead Sstf Elevator ElevatorSched ElevatorInv ElevatorMerge ElevatorOps ElevatorDrv.

(** ** What a completion leaves *)

Lemma ended_privs err bs : (mjoin (ended_as false err <$> bs)).*1 = bi_private <$> bs.
Proof.
  induction bs as [|b bs IH]; [done|]. csimpl. rewrite fmap_app, IH. unfold ended_as, req_bio_endio. simpl.
  by rewrite Z.ltb_irrefl, Z.sub_diag.
Qed.

Lemma updated_flag err nr r r' more ended m :
  updated err nr r r' more ended → Z.land (Z.lnot REQ_FAILFAST_MASK) m = m → flagged (rq_flags r') m = flagged (rq_flags r) m.
Proof. intros U. apply flagged_agree, U. Qed.

(** The sectors that are left follow each other. *)
Lemma updated_chain cap err nr r r' ended :
  rq_wf cap r → cap < 2 ^ 63 → nr mod 512 = 0 → updated err nr r r' true ended →
  0 ≤ rq_sector r + Z.shiftr nr 9 ∧ rq_sector r' = rq_sector r + Z.shiftr nr 9 ∧ chain_ok (rq_sector r') (rq_bio r') ∧ Forall (bio_for r) (rq_bio r').
Proof.
  intros W Hcap Hnr U. destruct (up_cut _ _ _ _ _ _ U) as (dn & b & rest & b2 & n & E & E' & En & Hn & Hs & Hz & Hrw & Hdk).
  pose proof (rq_whole _ _ W) as Hw. pose proof (rw_chain _ _ W) as Hc. pose proof (rw_for _ _ W) as Hf.
  rewrite E in Hw, Hc, Hf. apply Forall_app in Hw as [Hw Hwb]. apply Forall_cons in Hwb as [Hwb _].
  apply chain_app in Hc as [_ [Hb Hc]]. apply Forall_app in Hf as [_ Hf]. apply Forall_cons in Hf as [Hfb Hf].
  pose proof (sizes_whole _ Hw) as Hsd. assert (n mod 512 = 0) as Hnm.
  { replace n with (nr - sumZ (bi_size <$> dn)) by lia. by rewrite Zminus_mod, Hnr, Hsd. }
  assert (Z.shiftr nr 9 = bios_sectors dn + Z.shiftr n 9) as Esh.
  { rewrite En, sectors_add, <- bios_sectors_sum by done. done. }
  pose proof (rw_range _ _ W) as [Hr0 Hr1]. pose proof (rq_sectors_pos _ _ W) as [_ Hlen].
  assert (nr < data_len r) as Hlt by (by apply (up_more _ _ _ _ _ _ U)).
  pose proof (whole_sectors _ Hnr). pose proof (whole_sectors _ Hnm). pose proof (sizes_nonneg dn) as Hd0.
  assert (Forall bio_ok dn) as Hok by (pose proof (ro_bios _ (rw_ok _ _ W)) as Hok; rewrite E in Hok; by apply Forall_app in Hok as [? _]).
  specialize (Hd0 Hok). pose proof (whole_sectors _ Hsd) as Hsh. rewrite bios_sectors_sum in Hsh by done.
  assert (rq_sector r' = rq_sector r + Z.shiftr nr 9) as Es.
  { rewrite (up_sector _ _ _ _ _ _ U eq_refl). unfold cmd_fs. rewrite (rw_type _ _ W). simpl. rewrite u64_id by lia. done. }
  split_and!; [lia|done|rewrite E'; split|rewrite E'; constructor; [|done]].
  - rewrite Hs, Es, Hb, Esh. destruct (Z.eqb_spec n 0) as [->|]; [simpl; lia|]. rewrite u64_id by lia. lia.
  - assert (bio_sectors b = Z.shiftr n 9 + bio_sectors b2) as Eb.
    { unfold bio_sectors. rewrite Hz. rewrite <- sectors_add by done. f_equal. lia. }
    replace (rq_sector r' + bio_sectors b2) with (rq_sector r + bios_sectors dn + bio_sectors b) by lia. done.
  - destruct Hfb as (? & ? & ?). split_and!; [by rewrite Hrw|by rewrite Hdk|]. rewrite Hz. rewrite Zminus_mod, Hnm, Hwb. done.
Qed.

Lemma updated_wf cap err nr r r' ended :
  rq_wf cap r → cap < 2 ^ 63 → 0 ≤ nr → nr mod 512 = 0 → updated err nr r r' true ended → rq_wf cap r'.
Proof.
  intros W Hcap Hn0 Hnr U. destruct (updated_chain _ _ _ _ _ _ W Hcap Hnr U) as (H0 & Es & Hc & Hf).
  pose proof (up_kept _ _ _ _ _ _ U) as [= Ek1 Ek2 Ek3]. pose proof (up_same _ _ _ _ _ _ U) as [= _ _ _ _ Ek4].
  assert (nr < data_len r) as Hlt by (by apply (up_more _ _ _ _ _ _ U)). pose proof (up_len _ _ _ _ _ _ U) as El.
  split.
  - by rewrite Ek1, (rw_type _ _ W).
  - rewrite (updated_flag _ _ _ _ _ _ _ U) by done. apply W.
  - rewrite (updated_flag _ _ _ _ _ _ _ U) by done. apply W.
  - rewrite (updated_flag _ _ _ _ _ _ _ U) by done. apply W.
  - rewrite Ek3. apply W.
  - rewrite Ek4. apply W.
  - apply U.
  - destruct (up_cut _ _ _ _ _ _ U) as (dn & b & rest & b2 & n & _ & -> & _). done.
  - done.
  - eapply Forall_impl; [exact Hf|]. intros b (E1 & E2 & ?). split_and!; [|by rewrite E2, Ek2|done].
    rewrite E1. symmetry. eapply land_agree; [apply U|done].
  - destruct (rw_range _ _ W) as [? Hle]. rewrite Es. split; [done|]. unfold blk_rq_sectors, blk_rq_bytes in *. rewrite El, Z.max_r by lia.
    assert (Z.shiftr (data_len r) 9 = Z.shiftr nr 9 + Z.shiftr (data_len r - nr) 9); [|lia]. rewrite <- sectors_add by done. f_equal. lia.
  - by apply (up_buffer _ _ _ _ _ _ U).
Qed.

Lemma updated_privs err nr r r' more ended :
  rq_flush_seq r = false → updated err nr r r' more ended → privs r = ended.*1 ++ privs r'.
Proof.
  intros Hf U. destruct (up_ended _ _ _ _ _ _ U) as (dn & rest & E & Ep & _ & ->). unfold privs. by rewrite E, fmap_app, Hf, ended_privs, Ep.
Qed.

(** ** A request for a bio *)

(** The flags [get_request] and [init_request_from_bio] give a request. *)
Definition new_flags (stat : bool) (rw : Z) : Z :=
  let rw_flags := Z.lor (Z.land rw REQ_WRITE) (if flagged rw REQ_SYNC then REQ_SYNC else 0) in
  let flags := Z.lor (Z.lor (Z.lor (if stat then Z.lor rw_flags REQ_IO_STAT else rw_flags) REQ_ALLOCED) REQ_ELVPRIV) (Z.land rw REQ_COMMON_MASK) in
  Z.lor (if flagged rw REQ_RAHEAD then Z.lor flags REQ_FAILFAST_MASK else flags) (Z.land rw REQ_WRITE).

(** They have what [rw] has of a mask without REQ_SYNC and the flags of the request. *)
Lemma new_flags_of stat rw m :
  Z.land (Z.lor REQ_SYNC (Z.lor REQ_IO_STAT (Z.lor REQ_ALLOCED (Z.lor REQ_ELVPRIV REQ_FAILFAST_MASK)))) m = 0 →
  Z.land (new_flags stat rw) m = Z.land rw (Z.land REQ_COMMON_MASK m).
Proof.
  intros Hm. apply Z.bits_inj'. intros i Hi.
  assert (Z.testbit REQ_WRITE i = true → Z.testbit REQ_COMMON_MASK i = true) as Hw.
  { intros Hw. assert (Z.testbit (Z.land REQ_COMMON_MASK REQ_WRITE) i = true) as E by (by change (Z.land REQ_COMMON_MASK REQ_WRITE) with REQ_WRITE).
    rewrite Z.land_spec in E. by apply andb_prop in E as [? _]. }
  apply (f_equal (λ x, Z.testbit x i)) in Hm. rewrite Z.bits_0 in Hm. unfold new_flags.
  destruct stat, (flagged rw REQ_RAHEAD), (flagged rw REQ_SYNC); revert Hm; rewrite ?Z.lor_0_r; repeat rewrite ?Z.land_spec, ?Z.lor_spec;
    destruct (Z.testbit m i); rewrite ?andb_true_r, ?andb_false_r; try done; rewrite !orb_false_iff; intros (E1 & E2 & E3 & E4 & E5); rewrite ?E1, ?E2, ?E3, ?E4, ?E5;
    destruct (Z.testbit rw i), (Z.testbit REQ_WRITE i); try rewrite Hw by done; rewrite ?orb_true_r, ?orb_false_r; done.
Qed.

Lemma new_flags_flag stat rw m :
  Z.land (Z.lor REQ_SYNC (Z.lor REQ_IO_STAT (Z.lor REQ_ALLOCED (Z.lor REQ_ELVPRIV REQ_FAILFAST_MASK)))) m = 0 →
  flagged (new_flags stat rw) m = flagged rw (Z.land REQ_COMMON_MASK m).
Proof. intros Hm. unfold flagged. by rewrite new_flags_of. Qed.

Lemma new_flags_own stat rw :
  flagged (new_flags stat rw) REQ_ALLOCED = true ∧ flagged (new_flags stat rw) REQ_ELVPRIV = true ∧
  flagged (new_flags stat rw) REQ_SYNC = flagged rw REQ_SYNC.
Proof.
  unfold new_flags. destruct stat, (flagged rw REQ_RAHEAD), (flagged rw REQ_SYNC) eqn:E; rewrite !flagged_lor, !flagged_land;
    change (flagged rw (Z.land REQ_COMMON_MASK REQ_SYNC)) with (flagged rw REQ_SYNC); rewrite E;
    change (flagged REQ_ALLOCED REQ_ALLOCED) with true; change (flagged REQ_ELVPRIV REQ_ELVPRIV) with true;
    change (Z.land REQ_WRITE REQ_SYNC) with 0; unfold flagged; rewrite ?Z.land_0_r, ?orb_true_r; done.
Qed.

Section End_.
Context `{QueueLimits} `{QueuePlace} (ops : elevator_ops) (cap : Z) `{!SchedOk ops cap} `{!LimitsOk cap}.
Notation queue_ok_at := (queue_ok_at ops cap).

Lemma driver_only X out sub s l D F1 p F2 :
  queue_ok_at X out sub s l D (F1 ++ p :: F2) → p ∉ l ∧ p ∉ D ∧ p ∉ F1 ++ F2 ∧ p ∉ out ∧ NoDup (F1 ++ F2).
Proof.
  intros I. pose proof (pl_nodup _ _ _ _ _ _ _ _ (qo_places _ _ _ _ _ _ _ _ _ I)) as Hnd.
  assert (l ++ D ++ (F1 ++ p :: F2) ++ out ≡ₚ p :: (F1 ++ F2) ++ l ++ D ++ out) as E by solve_Permutation.
  rewrite E in Hnd. apply NoDup_cons in Hnd as [Hp Hnd]. apply NoDup_app in Hnd as (? & _). set_solver.
Qed.

Lemma driver_has X out sub s l D F1 p F2 :
  queue_ok_at X out sub s l D (F1 ++ p :: F2) →
  ∃ r, q_rqs s !! p = Some r ∧ rq_wf cap r ∧ started r ∧ dll (lists_mem (q_io s)) p [].
Proof.
  intros I. assert (p ∈ F1 ++ p :: F2) as Hp by set_solver. destruct (lookup_of ops cap _ _ _ _ _ _ _ p I) as (r & Hr & W); [set_solver|].
  exists r. split_and!; [done..| |]; [by eapply (co_started _ _ _ _ _ (qo_contents _ _ _ _ _ _ _ _ _ I))|].
  eapply pl_free; [apply I|set_solver].
Qed.

(** Request [p] of the driver, all of whose bios have ended, is given back. *)
Lemma finish_ok out sub s l D F1 p F2 r r' e :
  queue_ok_at [] out sub s l D (F1 ++ p :: F2) → q_rqs s !! p = Some r →
  ref_count r' = 1 → flagged (rq_flags r') REQ_ALLOCED = true → flagged (rq_flags r') REQ_ELVPRIV = true →
  blk_account_rq r' = true → rq_is_sync r' = rq_is_sync r → privs r = e.*1 →
  runs (blk_finish_request p) (set_ended (q_ended s ++ e) (set_rqs (<[p := r']> (q_rqs s)) s)) (λ _ s', queue_ok_at [] out sub s' l D (F1 ++ F2)).
Proof.
  intros I Hr Href Hal Hpr Hac Hsy Hpe. pose proof I as [P Co Cn Ha La Nr Bi].
  destruct (driver_only _ _ _ _ _ _ _ _ _ I) as (Hpl & HpD & HpF & Hpo & HndF).
  assert (l ++ D ++ (F1 ++ F2) ++ p :: out ≡ₚ l ++ D ++ (F1 ++ p :: F2) ++ out) as E by solve_Permutation.
  assert (∀ q, q ∈ l → delete p (q_rqs s) !! q = q_rqs s !! q) as El by (intros q Hq; apply lookup_delete_ne; by intros ->).
  pose proof (counted_put _ _ _ _ _ _ _ Hr Hsy Cn) as [Cn1 Cn2 Cn3 Cn4].
  apply runs_bind. eapply runs_list_read; [apply list_empty_dll; simpl; eapply pl_free; [exact P|set_solver]|].
  apply runs_bind, runs_check; [done|].
  eapply (put_request_ok ops cap out sub _ _ _ _ _ r'); simpl; rewrite ?lookup_insert_eq, ?delete_insert_eq; try done.
  - eapply places_put; [done|]. destruct P as [? ? Hall Hfr ?]. split; try done; [by rewrite E|intros q; by rewrite E|].
    intros q Hq. apply Hfr. clear -Hq. set_solver.
  - destruct Co as [Hwf Hwt Hst Hfr]. split; [intros q r0 [_ Hq]%lookup_delete_Some|intros q r0 Hq0 [_ Hq]%lookup_delete_Some..]; [by eauto..| |by eauto].
    eapply Hst; [|done]. clear -Hq0. set_solver.
  - intros b. rewrite Hac. rewrite (flight_less (<[p:=r']> (q_rqs s)) F1 p F2 r'); [|by rewrite lookup_insert_eq|done|].
    + by rewrite rqs_at_other, rqs_at_delete.
    + rewrite rqs_at_other by done. by eapply n_sync_bound.
  - by eapply hash_outside.
  - by eapply last_outside.
  - rewrite (rq_list_del _ _ _ Hr), all_privs_cons, Hpe in Bi. rewrite <- Bi, fmap_app. solve_Permutation.
Qed.

(** A completion of whole sectors ends the bios it covers and keeps the rest of the
    request with the driver, or gives the request back when nothing is left. *)
Lemma __blk_end_request_ok out sub s l D F1 p F2 err nr :
  queue_ok_at [] out sub s l D (F1 ++ p :: F2) → 0 ≤ nr → nr mod 512 = 0 →
  runs (__blk_end_request p err nr) s (λ more s', queue_ok_at [] out sub s' l D (if more then F1 ++ p :: F2 else F1 ++ F2) ∧
    ∀ r, q_rqs s !! p = Some r → more = true ↔ nr < data_len r).
Proof.
  intros I Hn Hm. pose proof I as [P Co _ _ _ _ _]. destruct (driver_only _ _ _ _ _ _ _ _ _ I) as (Hpl & HpD & HpF & Hpo & _).
  destruct (driver_has _ _ _ _ _ _ _ _ _ I) as (r & Hr & W & Hst & _).
  destruct (rq_plain_flags _ _ W) as (_ & _ & Hf). pose proof lim_cap.
  apply runs_bind, (runs_get _ r); [done|].
  destruct (blk_update_ok err nr r (rw_ok _ _ W) Hn) as (more & r' & ended & -> & U).
  pose proof (updated_privs _ _ _ _ _ _ Hf U) as Hp. pose proof (up_kept _ _ _ _ _ _ U) as [= Ek1 _ _]. pose proof (up_same _ _ _ _ _ _ U) as [= _ _ _ _ Ek4].
  assert (rq_is_sync r' = rq_is_sync r) as Hsy.
  { unfold rq_is_sync, rw_is_sync. by rewrite !(updated_flag _ _ _ _ _ _ _ U) by done. }
  assert (started r') as Hst' by (unfold started; by rewrite (updated_flag _ _ _ _ _ _ _ U)).
  apply runs_bind. eapply runs_ok; [apply modify_ok|]. apply runs_bind. eapply runs_ok; [apply modify_ok|]. simpl. destruct more.
  - apply runs_ret. split; [|intros r0 ?; simplify_eq; apply U]. eapply ok_outside; try done; [eapply (updated_wf cap err nr r); [done|lia|done..]|by rewrite Hp].
  - apply runs_bind. apply (runs_mono _ _ (λ _ s', queue_ok_at [] out sub s' l D (F1 ++ F2))); [|intros [] s' I'; apply runs_ret; split; [done|intros r0 ?; simplify_eq; apply U]].
    pose proof (up_cut _ _ _ _ _ _ U) as Hb. simpl in Hb. eapply finish_ok; try done.
    + by rewrite Ek4, (rw_ref _ _ W).
    + rewrite (updated_flag _ _ _ _ _ _ _ U) by done. apply W.
    + rewrite (updated_flag _ _ _ _ _ _ _ U) by done. apply W.
    + unfold blk_account_rq, cmd_fs. by rewrite Hst', Ek1, (rw_type _ _ W).
    + rewrite Hp. unfold privs at 1. rewrite Hb. apply app_nil_r.
Qed.

(** ** Requeueing *)

Lemma wf_del_flags f r : Z.land (Z.lnot f) (Z.lor KIND (Z.lor REQ_ALLOCED REQ_ELVPRIV)) = Z.lor KIND (Z.lor REQ_ALLOCED REQ_ELVPRIV) →
  rq_wf cap r → rq_wf cap (del_flags f r).
Proof.
  intros Hf []. assert (∀ m, Z.land (Z.lor KIND (Z.lor REQ_ALLOCED REQ_ELVPRIV)) m = m → Z.land (Z.lnot f) m = m) as Hm.
  { intros m <-. by rewrite Z.land_assoc, Hf. }
  split; try done; simpl; rewrite ?flagged_land.
  - by rewrite Hm.
  - by rewrite Hm.
  - unfold flagged in *. apply negb_false_iff, Z.eqb_eq. apply negb_false_iff, Z.eqb_eq in rw_plain.
    rewrite (Z.land_comm (Z.lnot f)), Z.land_assoc, rw_plain. done.
  - by destruct rw_ok.
  - eapply Forall_impl; [done|]. intros b (K & ? & ?). split; [|done]. simpl. by rewrite <- Z.land_assoc, Hm.
Qed.

(** The queue with [p] taken back from the driver. *)
Lemma places_requeued io io' m l D F1 p F2 out :
  places ops cap io m l D (F1 ++ p :: F2) out → lists_ok io' l (p :: D) → enqueue io' = enqueue io → queue_count io' = queue_count io →
  (∀ y, y ∉ p :: head_at :: D → lists_mem io' !! y = lists_mem io !! y) → places ops cap io' m l (p :: D) (F1 ++ F2) out.
Proof.
  intros P Hlo E1 E2 Ho. assert (l ++ (p :: D) ++ (F1 ++ F2) ++ out ≡ₚ l ++ D ++ (F1 ++ p :: F2) ++ out) as E by solve_Permutation.
  split; [|rewrite E; apply P|intros q; rewrite E; apply P| |apply P].
  - split; [done|]. rewrite E1, E2. apply P.
  - intros q Hq. eapply dll_ext; [eapply pl_free; [exact P|clear -Hq; set_solver]|].
    intros y ->%list_elem_of_singleton. destruct (pl_addr _ _ _ _ _ _ _ _ P q) as (_ & ? & ?); [apply (pl_all _ _ _ _ _ _ _ _ P); clear -Hq; set_solver|].
    pose proof (pl_nodup _ _ _ _ _ _ _ _ P) as Hnd. rewrite <- E in Hnd. apply NoDup_app in Hnd as (_ & _ & Hnd). apply NoDup_app in Hnd as (_ & Hd & _).
    apply Ho. assert (q ∉ p :: D) as Hc by (intros Hc; by apply (Hd q Hc)). clear Hd. set_solver.
Qed.

Lemma blk_requeue_ok rf out sub s l D F1 p F2 :
  queue_ok_at [] out sub s l D (F1 ++ p :: F2) →
  runs (blk_requeue_request ops rf p) s (λ _ s', queue_ok_at [] out sub s' l (p :: D) (F1 ++ F2)).
Proof.
  intros I. pose proof I as [P Co Cn Ha La Nr Bi]. destruct (driver_only _ _ _ _ _ _ _ _ _ I) as (Hpl & HpD & HpF & Hpo & HndF).
  destruct (driver_has _ _ _ _ _ _ _ _ _ I) as (r & Hr & W & Hst & Halone).
  destruct (pl_sched _ _ _ _ _ _ _ _ P) as [[Hl HD Hap Hz] Hsi]. destruct (head_outside _ _ _ _ _ _ _ _ _ I) as [Hh Hn].
  destruct (list_add_dll _ _ [] D head_at p HD eq_refl) as (m' & E & HD' & Hm').
  { clear -Hh HpD. set_solver. } { eapply dll_mapped; [exact Halone|clear; set_solver]. }
  apply runs_bind. eapply runs_list_read; [by apply list_empty_dll|]. apply runs_bind, runs_check; [done|].
  apply runs_bind, (runs_get _ r); [done|]. rewrite (started_accounted cap r) by done. apply runs_bind. eapply runs_ok; [apply modify_ok|].
  apply runs_bind. eapply runs_ok; [apply modify_ok|]. apply runs_bind. eapply runs_get; [simpl; by rewrite lookup_insert_eq|].
  apply runs_bind. match goal with |- runs _ ?s1 _ => apply (runs_mono _ _ (λ _ s2, ∃ e b, s2 = set_boundary b (set_io (io_end e (q_io s1)) s1))) end.
  { case_match; [|apply runs_ret; exists (end_sector (q_io s)), (boundary_rq s); by destruct s as [[]]].
    apply runs_bind. eapply runs_ok; [apply modify_ok|]. eapply runs_ok; [apply modify_ok|]. by eexists _, _. }
  intros [] s2 (e & b & ->). apply runs_bind. eapply runs_ok; [apply modify_ok|]. eapply runs_list; [exact E|]. simpl. rewrite insert_insert_eq.
  set (r' := add_flags REQ_SOFTBARRIER (del_flags REQ_STARTED r)).
  assert (rq_wf cap r') as W' by by apply wf_add_flags, wf_del_flags.
  assert (rq_is_sync r' = rq_is_sync r) as Hs'.
  { unfold r'. rewrite sync_add_flags by done. unfold rq_is_sync, rw_is_sync. simpl. by rewrite !flagged_land. }
  pose proof (counted_put _ _ _ _ _ _ _ Hr Hs' Cn) as [Cn1 Cn2 Cn3 Cn4].
  assert (∀ q, q ∈ l → <[p := r']> (q_rqs s) !! q = q_rqs s !! q) as El by (intros q Hq; apply lookup_insert_ne; by intros ->).
  split; simpl; try done; [..|by rewrite (privs_put _ p r r' [])].
  - eapply places_put; [done|]. eapply places_requeued; [exact P|..]; simpl; try done.
    assert (∀ y, y ∈ nd_at :: l → y ∉ p :: head_at :: D) as Hy.
    { intros y Hy. pose proof (Hap y Hy). clear -Hy H1 Hpl Hn. set_solver. }
    split; simpl; [|done| |done].
    + eapply dll_ext; [exact Hl|]. intros y Hyl. apply Hm'. by apply Hy.
    + intros y Hyl. pose proof (Hy y Hyl) as Hy'. clear -Hy'. set_solver.
  - eapply (contents_move cap _ l l (F1 ++ p :: F2) (F1 ++ F2) out out); try done; [by right|clear; set_solver|by right].
  - split; try done. intros b'. rewrite <- Hs'. apply (flight_less _ F1 p F2 r'); [by rewrite lookup_insert_eq|done|]. rewrite rqs_at_other by done. eapply (n_sync_bound ops cap); [exact I|done].
  - eapply hash_outside; [exact Ha|done].
  - eapply last_outside; [exact La|done].
Qed.

(** ** New requests *)

Definition new_request (b : bio) : request :=
  let rw_flags := Z.lor (Z.land (bi_rw b) REQ_WRITE) (if flagged (bi_rw b) REQ_SYNC then REQ_SYNC else 0) in
  init_request_from_bio b
    (mk_request REQ_TYPE_FS (Z.lor (Z.lor (if blk_queue_io_stat then Z.lor rw_flags REQ_IO_STAT else rw_flags) REQ_ALLOCED) REQ_ELVPRIV)
       0 (u64 (-1)) [] None 1 0 false 0).

Lemma new_request_flags b : rq_flags (new_request b) = new_flags blk_queue_io_stat (bi_rw b).
Proof. done. Qed.

Lemma new_request_bios b : ∃ b', rq_bio (new_request b) = [b'] ∧ bio_alike b b'.
Proof. eexists. split; [done|]. simpl. case_match; [done|apply recount_alike]. Qed.

Definition plain_bio (b : bio) : Prop := bio_wf cap b ∧ flagged (bi_rw b) (Z.lor REQ_FLUSH REQ_FUA) = false.

Lemma new_request_wf b : plain_bio b → rq_wf cap (new_request b).
Proof.
  intros [[Hok Hw Hr H32] Hfl]. destruct (new_flags_own blk_queue_io_stat (bi_rw b)) as (F1 & F2 & _).
  destruct (new_request_bios b) as (b' & Eb & Hal). pose proof Hal as [[= E1 E2 E3 E4 E5 E6 E7] E8].
  split; rewrite ?new_request_flags, ?Eb; try done.
  - rewrite new_flags_flag by done. exact Hfl.
  - split; rewrite ?Eb; csimpl; [|change (data_len (new_request b)) with (bi_size b); lia|done].
    constructor; [by eapply bio_alike_ok|done].
  - constructor; [|done]. split_and!; [|by rewrite E6|by rewrite E2]. rewrite new_request_flags, new_flags_of, (land_agree _ _ _ KIND E8) by done. done.
  - unfold rq_segs. rewrite Eb. csimpl. assert (bio_segs b' = bio_segs b) as -> by (unfold bio_segs; by rewrite E3, E4).
    assert (bi_vcnt b ≠ 0%nat) as Hv by (intros Hv%nil_length_inv; pose proof (bo_segs _ Hok) as Hx; unfold bio_segs in Hx; by rewrite Hv, drop_nil in Hx).
    simpl. rewrite bool_decide_eq_false_2 by done. apply (bio_data_head b [] []), Hok.
Qed.

Lemma new_request_fresh b : fresh (new_request b).
Proof. unfold fresh. rewrite new_request_flags, !new_flags_flag by done. unfold flagged. by rewrite !Z.land_0_r. Qed.

Lemma new_request_sync b :
  rq_is_sync (new_request b) = rw_is_sync (Z.lor (Z.land (bi_rw b) REQ_WRITE) (if flagged (bi_rw b) REQ_SYNC then REQ_SYNC else 0)).
Proof.
  unfold rq_is_sync, rw_is_sync. rewrite new_request_flags, new_flags_flag by done. destruct (new_flags_own blk_queue_io_stat (bi_rw b)) as (_ & _ & ->).
  rewrite !flagged_lor, !flagged_land. change (Z.land REQ_WRITE REQ_SYNC) with 0. change (Z.land REQ_WRITE REQ_WRITE) with REQ_WRITE.
  change (Z.land REQ_COMMON_MASK REQ_WRITE) with REQ_WRITE. destruct (flagged (bi_rw b) REQ_SYNC), (flagged (bi_rw b) REQ_WRITE); unfold flagged; rewrite ?Z.land_0_r; done.
Qed.

Lemma ok_rl X out sub s l D F rl :
  queue_ok_at X out sub s l D F → (∀ b, rl_count rl b = rl_count (q_rl s) b) → rl_elvpriv rl = rl_elvpriv (q_rl s) →
  queue_ok_at X out sub (set_rl rl s) l D F.
Proof. intros [? ? [] ? ? ? ?] Hc Hp. split; try done. simpl. split; try done; [intros b; by rewrite Hc|by rewrite Hp]. Qed.

(** Memory at [p] that the queue does not know. *)
Definition new_at (s : rqueue) (p : Z) : Prop :=
  p ≠ 0 ∧ p ≠ nd_at ∧ p ≠ head_at ∧ q_rqs s !! p = None ∧ lists_mem (q_io s) !! p = None.

Lemma ok_new out sub s l D F p b rl :
  queue_ok_at [] out sub s l D F → new_at s p → plain_bio b →
  (∀ b', rl_count rl b' = (if decide (rq_is_sync (new_request b) = b') then 1 else 0) + rl_count (q_rl s) b') →
  rl_count rl (rq_is_sync (new_request b)) ≤ 3 * nr_requests / 2 → rl_elvpriv rl = rl_elvpriv (q_rl s) + 1 →
  queue_ok_at [] (p :: out) (bi_private b :: sub)
    (set_rqs (<[p := new_request b]> (q_rqs s)) (set_io (set_mem (<[p := mk_list_head p p]> (lists_mem (q_io s))) (q_io s)) (set_rl rl s))) l D F.
Proof.
  intros [P Co Cn Ha La Nr Bi] (Hp0 & Hp1 & Hp2 & Hpn & Hpm) Hb Hc Hm He.
  assert (p ∉ l ++ D ++ F ++ out) as Hpa by (intros [? Hx]%(pl_all _ _ _ _ _ _ _ _ P); congruence).
  assert (∀ q, q ∈ l → <[p := new_request b]> (q_rqs s) !! q = q_rqs s !! q) as El.
  { intros q Hq. apply lookup_insert_ne. intros ->. clear -Hpa Hq. set_solver. }
  assert (∀ h k, dll (lists_mem (q_io s)) h k → dll (<[p := mk_list_head p p]> (lists_mem (q_io s))) h k) as Hd.
  { intros h k Hd. eapply dll_ext; [exact Hd|]. intros y Hy. apply lookup_insert_ne. intros ->. destruct (dll_mapped _ _ _ _ Hd Hy) as [? ?]. congruence. }
  assert (l ++ D ++ F ++ p :: out ≡ₚ p :: l ++ D ++ F ++ out) as E by solve_Permutation.
  split; simpl; try done.
  - destruct P as [[[? ? ? ?] ?] ? Hall Hfr Had]. split; simpl.
    + split; [split; simpl; try done; by apply Hd|done].
    + rewrite E. by apply NoDup_cons.
    + intros q. rewrite E, elem_of_cons, Hall. destruct (decide (q = p)) as [->|]; [rewrite lookup_insert_eq; naive_solver|].
      rewrite lookup_insert_ne by done. naive_solver.
    + intros q Hq. destruct (decide (q = p)) as [->|]; [apply dll_alone; by rewrite lookup_insert_eq|]. apply Hd, Hfr. clear -Hq n. set_solver.
    + intros q. destruct (decide (q = p)) as [->|]; [done|]. rewrite lookup_insert_ne by done. apply Had.
  - eapply (contents_move cap _ l l F F out (p :: out)); try done; [by apply new_request_wf|by right|by right|intros q; clear; set_solver|clear -Hpa; set_solver|clear -Hpa; set_solver|].
    intros _. apply new_request_fresh.
  - pose proof (rq_list_new _ _ (new_request b) Hpn) as Ep. destruct Cn as [C1 C2 C3 C4]. split.
    + intros b'. by rewrite Ep, n_sync_cons, Hc, C1.
    + intros b'. rewrite Ep, n_sync_cons, <- C1. case_decide as Eb; [|rewrite C1; apply C2]. rewrite Hc, decide_True, Eb in Hm by done. done.
    + rewrite He, C3, Ep. simpl. lia.
    + intros b'. rewrite C4, rqs_at_other; [done|]. clear -Hpa. set_solver.
  - eapply hash_outside; [exact Ha|done].
  - eapply last_outside; [exact La|done].
  - rewrite (rq_list_new _ _ _ Hpn), all_privs_cons. destruct (new_request_bios b) as (b' & Eb & [[= _ _ _ _ Ev _ _] _]).
    unfold privs. rewrite Eb. csimpl. rewrite Ev, <- Bi. solve_Permutation.
Qed.

(** A task gets a request for its bio, or nothing and the queue is as it was. *)
Lemma make_request_get_ok out sub s l D F b batching mem :
  queue_ok_at [] out sub s l D F → plain_bio b → (∀ p, mem = Some p → new_at s p) →
  runs (make_request_get b batching mem) s (λ p s', p = 0 ∧ queue_ok_at [] out sub s' l D F ∨
    p ≠ 0 ∧ mem = Some p ∧ queue_ok_at [] (p :: out) (bi_private b :: sub) s' l D F).
Proof.
  intros I Hb Hmem. unfold make_request_get, get_request. rewrite <- new_request_sync. set (sync := rq_is_sync (new_request b)).
  apply runs_bind. apply runs_bind. eapply runs_ok; [apply gets_ok|]. cbv zeta.
  case_match; [apply runs_ret, runs_ret; by left|]. destruct (Z.leb_spec (3 * nr_requests / 2) (rl_count (q_rl s) sync)).
  { apply runs_bind. eapply runs_ok; [apply modify_ok|]. apply runs_ret, runs_ret. left. split; [done|]. by apply ok_rl. }
  apply runs_bind. eapply runs_ok; [apply modify_ok|]. destruct mem as [p|].
  - destruct (Hmem p eq_refl) as (Hp0 & Hn). apply runs_bind, runs_bind. eapply runs_ok; [apply modify_ok|]. eapply runs_ok; [apply modify_ok|].
    apply runs_ret. rewrite (proj2 (Z.eqb_neq p 0) Hp0). apply runs_bind. eapply runs_alter; [simpl; by rewrite lookup_insert_eq|].
    apply runs_ret. right. split_and!; [done..|]. simpl. rewrite insert_insert_eq. apply (ok_new out sub s l D F p b); simpl; try done.
    + intros b'. fold sync. case_decide as E; [subst b'; rewrite fn_lookup_insert; lia|by rewrite fn_lookup_insert_ne].
    + fold sync. rewrite fn_lookup_insert. lia.
  - apply runs_bind. eapply runs_ok; [apply modify_ok|]. apply runs_bind. eapply runs_ok; [apply modify_ok|]. apply runs_ret, runs_ret. left.
    split; [done|]. simpl. match goal with |- context [freed_request sync true ?rl] => destruct (freed_request_fields sync rl) as [E1 E2] end.
    eapply (ok_rl [] out sub s); simpl; [done| |by rewrite E2; simpl; lia].
    intros b'. rewrite E1. simpl. destruct (decide (b' = sync)) as [->|]; [rewrite !fn_lookup_insert; lia|by rewrite !fn_lookup_insert_ne].
Qed.
End End_.
