(* ===== verification/ElevatorRun.v ===== *)
(** * Tasks, the queue and the driver

    The tasks submit bios, get requests for them and plug them or hand them to the
    elevator; the driver fetches requests, completes them in parts or gives them
    back.  Whatever the order, with any I/O scheduler that does its part, the queue
    stays in order, nothing faults and no bio is lost or ended twice. *)

From stdpp Require Import functions.
From S2P Require Import Prelude BlkTypes BlkRequest ListHead Sstf Elevator ElevatorSched ElevatorInv ElevatorMerge ElevatorOps ElevatorDrv ElevatorEnd.

(** ** Tasks *)

(** Where a task is in [__make_request]: before it, at [get_rq] with a bio, or with
    the request it got. *)
Inductive doing := Idle | Wants (b : bio) | Holds (p : Z).
(** [current->plug], when the task has one, is the list of its plugged requests. *)
Record task := mk_task { t_doing : doing; t_plug : option (list Z) }.

(** [w_submitted] are the bios passed to [generic_make_request] so far, and
    [w_refused] the ones it ended itself. *)
Record world := mk_world {
  w_queue : rqueue; w_tasks : list task; w_submitted : list Z; w_refused : list completion
}.

Inductive action :=
  | Submit (i : nat) (d : block_device) (b : bio)
  | Get (i : nat) (batching : bool) (mem : option Z)
  | Add (i : nat)
  | StartPlug (i : nat)
  | FlushPlug (i : nat) (from_schedule : bool)
  | FinishPlug (i : nat)
  | RunQueue
  | Fetch
  | End (p error nr_bytes : Z)
  | Requeue (p : Z).

Definition set_queue (q : rqueue) (w : world) : world := mk_world q (w_tasks w) (w_submitted w) (w_refused w).
Definition set_task (i : nat) (t : task) (w : world) : world :=
  mk_world (w_queue w) (<[i := t]> (w_tasks w)) (w_submitted w) (w_refused w).
Definition log_submitted (p : Z) (w : world) : world := mk_world (w_queue w) (w_tasks w) (p :: w_submitted w) (w_refused w).
Definition log_refused (c : completion) (w : world) : world := mk_world (w_queue w) (w_tasks w) (w_submitted w) (c :: w_refused w).

Definition task_at (i : nat) : cmd world task := λ w, the (w_tasks w !! i) w.
Definition on_queue {A} (c : qM A) : cmd world A := zoom w_queue set_queue c.
Definition plugged (t : task) : list Z := default [] (t_plug t).

(** Whether request [p] has been handed to the driver: it was started, and is in no
    list any more. *)
Definition with_driver (s : rqueue) (p : Z) : bool :=
  match q_rqs s !! p with
  | Some r => flagged (rq_flags r) REQ_STARTED && bool_decide (nxt (lists_mem (q_io s)) p = Some p)
  | None => false
  end.

Section Run.
Context `{QueueLimits} `{QueuePlace} (ops : elevator_ops) (request_fn : qM unit).

(** [generic_make_request] and [__make_request] up to [get_rq]. *)
Definition submit (i : nat) (d : block_device) (b : bio) : cmd world unit :=
  t ← task_at i;
  modify (log_submitted (bi_private b)) ;;
  match __generic_make_request d b with
  | inl e => modify (log_refused (bio_endio b e))
  | inr b =>
      m ← on_queue (make_request_merge ops (plugged t) b);
      match m with None => mret tt | Some b => modify (set_task i (mk_task (Wants b) (t_plug t))) end
  end.

(** The end of [__make_request]. *)
Definition plug_or_add (i : nat) (p : Z) : cmd world unit :=
  t ← task_at i;
  match t_plug t with
  | Some ps => modify (set_task i (mk_task Idle (Some (ps ++ [p]))))
  | None => modify (set_task i (mk_task Idle None)) ;; on_queue (make_request_add ops request_fn p)
  end.

Definition blk_start_plug (i : nat) : cmd world unit :=
  t ← task_at i;
  modify (set_task i (mk_task (t_doing t) (Some (plugged t)))).

Definition blk_flush_plug (i : nat) (from_schedule : bool) : cmd world unit :=
  t ← task_at i;
  match t_plug t with
  | None => mret tt
  | Some ps => modify (set_task i (mk_task (t_doing t) (Some []))) ;; on_queue (blk_flush_plug_list ops request_fn ps from_schedule)
  end.

Definition blk_finish_plug (i : nat) : cmd world unit :=
  t ← task_at i;
  match t_plug t with
  | None => mret tt
  | Some ps => on_queue (blk_flush_plug_list ops request_fn ps false) ;; modify (set_task i (mk_task (t_doing t) None))
  end.

Definition exec (a : action) : cmd world unit :=
  match a with
  | Submit i d b => submit i d b
  | Get i batching mem =>
      t ← task_at i;
      match t_doing t with
      | Wants b =>
          p ← on_queue (make_request_get b batching mem);
          if p =? 0 then mret tt else modify (set_task i (mk_task (Holds p) (t_plug t)))
      | _ => mret tt
      end
  | Add i => t ← task_at i; match t_doing t with Holds p => plug_or_add i p | _ => mret tt end
  | StartPlug i => blk_start_plug i
  | FlushPlug i from_schedule => blk_flush_plug i from_schedule
  | FinishPlug i => blk_finish_plug i
  | RunQueue => on_queue request_fn
  | Fetch => on_queue (blk_fetch_request ops) ;; mret tt
  | End p error nr_bytes => on_queue (__blk_end_request p error nr_bytes) ;; mret tt
  | Requeue p => on_queue (blk_requeue_request ops request_fn p)
  end.

(** ** A driver that completes what it fetches *)

Fixpoint drive (fuel : nat) : qM unit :=
  match fuel with
  | O => spin
  | S fuel =>
      p ← blk_fetch_request ops;
      if p =? 0 then mret tt
      else r ← rq_get p; __blk_end_request p 0 (data_len r) ;; drive fuel
  end.

Definition drive_all : qM unit := n ← gets (λ s, S (size (q_rqs s))); drive n.
End Run.

(** ** What may happen *)

(** A bio with data in whole sectors, or a flush without data. *)
Definition submittable (b : bio) : Prop :=
  0 ≤ bi_sector b < 2 ^ 64 ∧
  (bio_ok b ∧ bi_size b mod 512 = 0 ∧ bi_size b < 2 ^ 32 ∨
   bi_size b = 0 ∧ flagged (bi_rw b) (Z.lor REQ_FLUSH REQ_FUA) = true).

(** The disk of [cap] sectors, or a partition that lies on it. *)
Definition device_on (cap : Z) (d : block_device) : Prop :=
  0 < bd_sectors d ∧
  match bd_part d with
  | None => bd_sectors d = cap
  | Some (start, whole) => whole = cap ∧ 0 ≤ start ∧ start + bd_sectors d ≤ cap
  end.

Definition allowed `{QueuePlace} (cap : Z) (w : world) (a : action) : Prop :=
  match a with
  | Submit i d b => (∃ t, w_tasks w !! i = Some t ∧ t_doing t = Idle) ∧ device_on cap d ∧ submittable b
  | Get i _ mem => is_Some (w_tasks w !! i) ∧ (∀ p, mem = Some p → new_at (w_queue w) p)
  | Add i | StartPlug i | FlushPlug i _ | FinishPlug i => is_Some (w_tasks w !! i)
  | RunQueue | Fetch => True
  | End p _ nr => with_driver (w_queue w) p = true ∧ 0 ≤ nr ∧ nr mod 512 = 0
  | Requeue p => with_driver (w_queue w) p = true
  end.

(** An allowed step, with request function [rf]. *)
Definition run_step `{QueueLimits} `{QueuePlace} (ops : elevator_ops) (rf : qM unit) (cap : Z) (w w' : world) : Prop :=
  ∃ a, allowed cap w a ∧ exec ops rf a w = Ok (tt, w').

(** The queue and its elevator as [blk_init_queue] leaves them; [e] is what the
    memory for [nd->enqueue] held. *)
Definition new_queue `{QueuePlace} (e : Z) : rqueue :=
  mk_rqueue (mk_ioq (<[nd_at := mk_list_head nd_at nd_at]> (<[head_at := mk_list_head head_at head_at]> ∅)) e 0 0 0 0 [])
    ∅ 0 (λ _, 0) (mk_rl (λ _, 0) (λ _, false) 0 (λ _, false)) [].

Definition new_world `{QueuePlace} (e : Z) (n : nat) : world := mk_world (new_queue e) (replicate n (mk_task Idle None)) [] [].

(** ** Submission *)

Definition part_start (d : block_device) : Z := match bd_part d with Some (start, _) => start | None => 0 end.

Lemma check_eod_false maxs b :
  0 < bio_sectors b → 0 ≤ bi_sector b → 0 < maxs → bio_check_eod maxs b = false ↔ bi_sector b + bio_sectors b ≤ maxs.
Proof.
  intros Hb Hs Hm. unfold bio_check_eod. destruct (Z.eqb_spec (bio_sectors b) 0); [lia|]. destruct (Z.eqb_spec maxs 0); [lia|].
  rewrite orb_false_iff, !Z.ltb_ge. lia.
Qed.

Lemma with_sector_ok n b : bio_ok b → bio_ok (with_sector n b).
Proof. by intros []. Qed.
Lemma with_rw_ok n b : bio_ok b → bio_ok (with_rw n b).
Proof. by intros []. Qed.

Lemma remap_sector cap d b :
  device_on cap d → 0 < bio_sectors b → 0 ≤ bi_sector b → bi_sector b + bio_sectors b ≤ bd_sectors d → cap < 2 ^ 63 →
  blk_partition_remap d b = with_sector (bi_sector b + part_start d) b ∧
  0 ≤ bi_sector b + part_start d ∧ bi_sector b + part_start d + bio_sectors b ≤ cap.
Proof.
  intros [Hd Hp] Hb Hs Hle Hcap. unfold blk_partition_remap, part_start. destruct (bd_part d) as [[start whole]|].
  - destruct Hp as (-> & ? & ?). destruct (Z.eqb_spec (bio_sectors b) 0); [lia|]. rewrite u64_id by lia. split_and!; (done || lia).
  - split_and!; [|lia..]. rewrite Z.add_0_r. by destruct b.
Qed.

(** A bio that is not refused lies on the device it was submitted to, and goes to
    the same sectors of the disk behind it. *)
Lemma generic_make_request_ok `{QueueLimits} cap d b b' :
  device_on cap d → submittable b → cap < 2 ^ 63 → __generic_make_request d b = inr b' →
  plain_bio cap b' ∧ bi_private b' = bi_private b ∧ bi_sector b' = bi_sector b + part_start d ∧
  bi_size b' = bi_size b ∧ bio_segs b' = bio_segs b ∧ bi_sector b + bio_sectors b ≤ bd_sectors d.
Proof.
  intros Hd [[Hs _] Hb] Hcap. unfold __generic_make_request.
  destruct (decide (bi_size b = 0)) as [Hz|Hnz].
  { assert (bio_sectors b = 0) as E by (unfold bio_sectors; by rewrite Hz). destruct Hb as [(Hok & _)|[_ Hf]]; [by apply bio_ok_pos in Hok; lia|].
    unfold blk_partition_remap, bio_check_eod. rewrite E. change (0 =? 0) with true. cbv iota. case_match; [done|].
    destruct (bd_part d) as [[? ?]|]; rewrite E; change (0 =? 0) with true; cbv iota; rewrite Hf; simpl; unfold with_rw, bio_sectors in *; simpl; by rewrite E. }
  destruct Hb as [(Hok & Hw & H32)|[? _]]; [|done]. pose proof (bio_ok_pos _ Hok). pose proof (whole_sectors _ Hw) as Hx.
  assert (0 < bio_sectors b) as Hb by (unfold bio_sectors; lia).
  destruct (bio_check_eod (bd_sectors d) b) eqn:Eod; [done|]. apply check_eod_false in Eod; [|done|done|apply Hd]. case_match; [done|].
  destruct (remap_sector _ _ _ Hd Hb Hs Eod Hcap) as (-> & Hs0 & Hs1). case_match; [done|]. cbn [bi_rw with_sector].
  destruct (flagged (bi_rw b) (Z.lor REQ_FLUSH REQ_FUA)) eqn:Hf;
    repeat match goal with |- (if ?c then inl _ else _) = _ → _ => destruct c; [done|] end.
  - intros [= <-]. split_and!; try done. split; [split; simpl; try done; by apply with_rw_ok, with_sector_ok|].
    simpl. rewrite flagged_land. change (Z.land (Z.lnot (Z.lor REQ_FLUSH REQ_FUA)) (Z.lor REQ_FLUSH REQ_FUA)) with 0. unfold flagged. by rewrite Z.land_0_r.
  - intros [= <-]. split_and!; try done. split; [split; simpl; try done; by apply with_sector_ok|done].
Qed.

(** ** The invariant *)

Definition task_out (t : task) : list Z := (match t_doing t with Holds p => [p] | _ => [] end) ++ plugged t.
Definition task_bios (t : task) : list bio := match t_doing t with Wants b => [b] | _ => [] end.
(** The requests of the tasks, and the bios that wait for one. *)
Definition outs (ts : list task) : list Z := mjoin (task_out <$> ts).
Definition wanted (ts : list task) : list bio := mjoin (task_bios <$> ts).

Lemma join_delete {A} (f : task → list A) ts i t :
  ts !! i = Some t → mjoin (f <$> ts) ≡ₚ f t ++ mjoin (f <$> delete i ts).
Proof. intros Ht. by rewrite (delete_Permutation _ _ _ Ht) at 1. Qed.
Lemma join_insert {A} (f : task → list A) ts i t t' :
  ts !! i = Some t → mjoin (f <$> <[i := t']> ts) ≡ₚ f t' ++ mjoin (f <$> delete i ts).
Proof.
  intros Ht. rewrite insert_take_drop, delete_take_drop by (by eapply lookup_lt_Some). rewrite !fmap_app, !join_app. csimpl. solve_Permutation.
Qed.

Lemma join_idle {A} (f : task → list A) n : f (mk_task Idle None) = [] → mjoin (f <$> replicate n (mk_task Idle None)) = [].
Proof. intros Hf. induction n as [|n IH]; [done|]. csimpl. by rewrite Hf, IH. Qed.

Lemma runs_queue {A} (c : qM A) w (Q : A → world → Prop) :
  runs c (w_queue w) (λ a q, Q a (set_queue q w)) → runs (on_queue c) w Q.
Proof. unfold runs, on_queue, zoom. by destruct (c (w_queue w)) as [[a q]| |]. Qed.

Lemma runs_task i t w (Q : task → world → Prop) : w_tasks w !! i = Some t → Q t w → runs (task_at i) w Q.
Proof. intros E HQ. unfold runs, task_at, the. by rewrite E. Qed.

Lemma runs_modify {S} (f : S → S) s (Q : unit → S → Prop) : Q tt (f s) → runs (modify f) s Q.
Proof. done. Qed.

Section Safe.
Context `{QueueLimits} `{QueuePlace} (ops : elevator_ops) (cap : Z) `{!SchedOk ops cap} `{!LimitsOk cap}.

(** Every bio submitted was refused, waits for a request, is in a request, or has
    ended. *)
Definition world_inv (w : world) : Prop :=
  ∃ sub, queue_inv ops cap (outs (w_tasks w)) sub (w_queue w) ∧ Forall (plain_bio cap) (wanted (w_tasks w)) ∧
    w_submitted w ≡ₚ sub ++ (bi_private <$> wanted (w_tasks w)) ++ (w_refused w).*1.

Lemma queue_inv_perm out out' sub sub' s : out ≡ₚ out' → sub ≡ₚ sub' → queue_inv ops cap out sub s → queue_inv ops cap out' sub' s.
Proof. intros Ho Hs (l & D & F & I). exists l, D, F. by eapply ok_out_perm. Qed.

(** Changing one task and the queue. *)
Lemma inv_task w i t t' q subm refd sub :
  w_tasks w !! i = Some t → Forall (plain_bio cap) (wanted (w_tasks w)) → Forall (plain_bio cap) (task_bios t') →
  queue_inv ops cap (task_out t' ++ outs (delete i (w_tasks w))) sub q →
  subm ≡ₚ sub ++ (bi_private <$> task_bios t' ++ wanted (delete i (w_tasks w))) ++ refd.*1 →
  world_inv (mk_world q (<[i := t']> (w_tasks w)) subm refd).
Proof.
  intros Ht Hw Hb Hq Hs.
  exists sub. simpl. split_and!.
  - eapply queue_inv_perm; [|done|exact Hq]. symmetry. by eapply join_insert.
  - unfold wanted in *. rewrite (join_insert _ _ _ _ _ Ht), Forall_app. split; [done|]. rewrite (join_delete _ _ _ _ Ht), Forall_app in Hw. apply Hw.
  - unfold wanted. by rewrite (join_insert _ _ _ _ _ Ht).
Qed.

Lemma inv_open w i t :
  w_tasks w !! i = Some t → world_inv w → ∃ sub,
    queue_inv ops cap (task_out t ++ outs (delete i (w_tasks w))) sub (w_queue w) ∧
    Forall (plain_bio cap) (wanted (w_tasks w)) ∧ Forall (plain_bio cap) (task_bios t) ∧
    w_submitted w ≡ₚ sub ++ (bi_private <$> task_bios t ++ wanted (delete i (w_tasks w))) ++ (w_refused w).*1.
Proof.
  intros Ht (sub & Hq & Hw & Hs). exists sub.
  split_and!; [|done| |by rewrite Hs; unfold wanted; rewrite (join_delete _ _ _ _ Ht)].
  - eapply queue_inv_perm; [|done|exact Hq]. by apply join_delete.
  - unfold wanted in Hw. rewrite (join_delete _ _ _ _ Ht), Forall_app in Hw. apply Hw.
Qed.

Lemma inv_queue w q : (∀ out sub, queue_inv ops cap out sub (w_queue w) → queue_inv ops cap out sub q) → world_inv w → world_inv (set_queue q w).
Proof. intros Hq (sub & ? & ? & ?). exists sub. auto. Qed.

Lemma set_task_same i t w : w_tasks w !! i = Some t → set_task i t w = w.
Proof. intros Ht. unfold set_task. rewrite list_insert_id by done. by destruct w. Qed.

Lemma alike_plain b b' : bio_alike b b' → plain_bio cap b → plain_bio cap b' ∧ bi_private b' = bi_private b.
Proof.
  intros Ha [W Hx]. pose proof Ha as [[= ? ? ? ? ? ? ?] Hf]. split; [|done].
  split; [by eapply alike_bio_wf|]. by rewrite (flagged_agree _ _ _ _ Hf).
Qed.

(** ** The steps of a task *)

Lemma submit_inv w i d b t :
  world_inv w → w_tasks w !! i = Some t → t_doing t = Idle → device_on cap d → submittable b →
  runs (submit ops i d b) w (λ _ w', world_inv w').
Proof.
  intros I Ht Hi Hd Hb. destruct (inv_open _ _ _ Ht I) as (sub & Hq & Hw & _ & Hs). pose proof lim_cap.
  unfold task_out, task_bios in *. rewrite Hi in *. simpl in *. apply runs_bind, (runs_task _ t); [done|]. apply runs_bind, runs_modify.
  destruct (__generic_make_request d b) as [e|b1] eqn:E.
  { apply runs_modify. destruct I as (sub' & Hq' & Hw' & Hs'). exists sub'. split_and!; [done..|]. simpl. rewrite Hs'. solve_Permutation. }
  destruct (generic_make_request_ok _ _ _ _ Hd Hb ltac:(lia) E) as (Hpl & Ep & _). destruct Hq as (l & D & F & Hq).
  apply runs_bind, runs_queue. simpl. eapply runs_mono; [apply (make_request_merge_ok ops cap _ _ _ _ _ _ (plugged t) b1 Hq); [set_solver|apply Hpl]|].
  intros [b2|] s2 HQ; simpl.
  - destruct HQ as [Ha I2]. destruct (alike_plain _ _ Ha Hpl) as [Hpl2 Ep2].
    apply runs_modify. apply (inv_task (log_submitted (bi_private b) w) i t _ _ _ _ sub); simpl; [done|done|by constructor|by exists l, D, F|].
    rewrite Hs, Ep2, Ep. solve_Permutation.
  - destruct HQ as (l' & I2). apply runs_ret. rewrite <- (set_task_same i t w) by done.
    apply (inv_task (log_submitted (bi_private b) w) i t _ _ _ _ (bi_private b :: sub)); simpl; unfold task_bios, task_out; rewrite ?Hi; [done..| |].
    + exists l', D, F. by rewrite <- Ep.
    + rewrite Hs. solve_Permutation.
Qed.

Lemma get_inv w i b t batching mem :
  world_inv w → w_tasks w !! i = Some t → t_doing t = Wants b → (∀ p, mem = Some p → new_at (w_queue w) p) →
  runs (p ← on_queue (make_request_get b batching mem);
        if p =? 0 then mret tt else modify (set_task i (mk_task (Holds p) (t_plug t)))) w (λ _ w', world_inv w').
Proof.
  intros I Ht Hi Hm. destruct (inv_open _ _ _ Ht I) as (sub & Hq & Hw & Hpl & Hs).
  unfold task_out, task_bios in *. rewrite Hi in *. simpl in *. apply Forall_cons in Hpl as [Hpl _]. destruct Hq as (l & D & F & Hq).
  apply runs_bind, runs_queue. eapply runs_mono; [by apply (make_request_get_ok ops cap _ _ _ _ _ _ b batching mem Hq)|].
  intros p s' [(-> & I')|(Hp & -> & I')].
  - apply runs_ret. rewrite <- (set_task_same i t w) by done.
    apply (inv_task w i t _ _ _ _ sub); unfold task_bios, task_out; rewrite ?Hi; [done|done|by constructor|by exists l, D, F|done].
  - rewrite (proj2 (Z.eqb_neq p 0) Hp). apply runs_modify.
    apply (inv_task w i t _ _ _ _ (bi_private b :: sub)); unfold task_bios, task_out; simpl; [done|done|done|by exists l, D, F|].
    rewrite Hs. solve_Permutation.
Qed.

Lemma add_inv rf w i p t :
  request_fn_ok ops cap rf → world_inv w → w_tasks w !! i = Some t → t_doing t = Holds p → runs (plug_or_add ops rf i p) w (λ _ w', world_inv w').
Proof.
  intros Hrf I Ht Hi. destruct (inv_open _ _ _ Ht I) as (sub & Hq & Hw & _ & Hs).
  unfold task_out, task_bios, plugged in *. rewrite Hi in *. apply runs_bind, (runs_task _ t); [done|]. destruct (t_plug t) as [ps|]; simpl in *.
  - apply runs_modify. apply (inv_task w i t _ _ _ _ sub); unfold task_bios, task_out; simpl; try done.
    eapply queue_inv_perm; [|done|exact Hq]. solve_Permutation.
  - apply runs_bind, runs_modify, runs_queue. eapply runs_mono; [by eapply (make_request_add_ok ops cap)|]. intros [] s' Hq'.
    by apply (inv_task w i t _ _ _ _ sub).
Qed.

Lemma flush_inv rf w i t ps fs :
  request_fn_ok ops cap rf → world_inv w → w_tasks w !! i = Some t → t_plug t = Some ps →
  runs (blk_flush_plug_list ops rf ps fs) (w_queue w) (λ _ q, ∀ plug, plug = None ∨ plug = Some [] →
    world_inv (mk_world q (<[i := mk_task (t_doing t) plug]> (w_tasks w)) (w_submitted w) (w_refused w))).
Proof.
  intros Hrf I Ht Hp. destruct (inv_open _ _ _ Ht I) as (sub & Hq & Hw & Hb & Hs). unfold task_out, plugged in Hq. rewrite Hp in Hq. simpl in Hq.
  set (h := match t_doing t with Holds p => [p] | _ => [] end) in *. eapply runs_mono.
  { apply (blk_flush_plug_list_ok ops cap rf (h ++ outs (delete i (w_tasks w))) sub); [done|]. eapply queue_inv_perm; [|done|exact Hq]. solve_Permutation. }
  intros [] q Hq' plug Hplug. apply (inv_task w i t _ _ _ _ sub); try done.
  unfold task_out, plugged. simpl. fold h. destruct Hplug as [-> | ->]; simpl; by rewrite app_nil_r.
Qed.

(** ** The steps of the driver *)

Lemma with_driver_in out sub s l D F p :
  queue_ok_at ops cap [] out sub s l D F → with_driver s p = true → ∃ F1 F2, F = F1 ++ p :: F2.
Proof.
  intros I Hd. pose proof I as [P Co _ _ _ _ _]. unfold with_driver in Hd. destruct (q_rqs s !! p) as [r|] eqn:Hr; [|done].
  apply andb_prop in Hd as [Hst Hnx%bool_decide_eq_true_1]. destruct (pl_sched _ _ _ _ _ _ _ _ P) as [[Hl HD _ _] _].
  assert (p ∈ l ++ D ++ F ++ out) as Hp by (by apply (pl_all _ _ _ _ _ _ _ _ P)).
  apply elem_of_app in Hp as [Hp|Hp]; [by destruct (co_waits _ _ _ _ _ Co _ _ Hp Hr) as (_ & Hn & _); congruence|].
  apply elem_of_app in Hp as [Hp|Hp].
  { apply list_elem_of_split in Hp as (d1 & d2 & ->). rewrite (dll_next _ _ _ _ _ HD) in Hnx. injection Hnx as Hnx.
    destruct HD as [Hnd _]. apply NoDup_cons in Hnd as [Hh Hnd]. apply NoDup_app in Hnd as (_ & _ & Hnd). apply NoDup_cons in Hnd as [Hp _].
    destruct d2 as [|x d2]; simpl in Hnx; subst; set_solver. }
  apply elem_of_app in Hp as [Hp|Hp]; [by apply list_elem_of_split|]. destruct (co_fresh _ _ _ _ _ Co _ _ Hp Hr) as (_ & Hn & _). congruence.
Qed.

Lemma with_driver_has out sub s l D F p : queue_ok_at ops cap [] out sub s l D F → p ∈ F → with_driver s p = true.
Proof.
  intros I (F1 & F2 & ->)%list_elem_of_split. destruct (driver_has ops cap _ _ _ _ _ _ _ _ _ I) as (r & Hr & _ & Hst & [_ [Hn _]]).
  unfold with_driver. rewrite Hr, Hst. simpl. by apply bool_decide_eq_true_2.
Qed.

Lemma queue_step {A} (c : qM A) w :
  world_inv w → (∀ out sub l D F, queue_ok_at ops cap [] out sub (w_queue w) l D F → runs c (w_queue w) (λ _ s', queue_inv ops cap out sub s')) →
  runs (on_queue c) w (λ _ w', world_inv w').
Proof.
  intros (sub & (l & D & F & Hq) & Hw & Hs) Hc. apply runs_queue. eapply runs_mono; [by eapply Hc|]. intros a s' Hq'. by exists sub.
Qed.

Lemma fetch_inv w : world_inv w → runs (on_queue (blk_fetch_request ops)) w (λ _ w', world_inv w').
Proof.
  intros I. apply queue_step; [done|]. intros out sub l D F Hq. eapply runs_mono; [by apply (blk_fetch_ok ops cap)|].
  intros p s' [(-> & -> & -> & ->)|(_ & l' & D' & I' & _)]; [by exists [], [], F|by exists l', D', (p :: F)].
Qed.

Lemma end_inv w p err nr : world_inv w → with_driver (w_queue w) p = true → 0 ≤ nr → nr mod 512 = 0 →
  runs (on_queue (__blk_end_request p err nr)) w (λ _ w', world_inv w').
Proof.
  intros I Hd Hn Hm. apply queue_step; [done|]. intros out sub l D F Hq. destruct (with_driver_in _ _ _ _ _ _ _ Hq Hd) as (F1 & F2 & ->).
  eapply runs_mono; [by apply (__blk_end_request_ok ops cap out sub _ l D F1 p F2)|]. intros more s' [I' _]. by eexists _, _, _.
Qed.

Lemma requeue_inv rf w p : world_inv w → with_driver (w_queue w) p = true → runs (on_queue (blk_requeue_request ops rf p)) w (λ _ w', world_inv w').
Proof.
  intros I Hd. apply queue_step; [done|]. intros out sub l D F Hq. destruct (with_driver_in _ _ _ _ _ _ _ Hq Hd) as (F1 & F2 & ->).
  eapply runs_mono; [by apply (blk_requeue_ok ops cap)|]. intros [] s' I'. by eexists _, _, _.
Qed.

(** Every allowed step succeeds and keeps the invariant. *)
Lemma exec_inv rf w a : request_fn_ok ops cap rf → world_inv w → allowed cap w a → runs (exec ops rf a) w (λ _ w', world_inv w').
Proof.
  intros Hrf I Ha. destruct a as [i d b|i batching mem|i|i|i fs|i| | |p err nr|p]; simpl in *.
  - destruct Ha as ((t & Ht & Hi) & Hd & Hb). by eapply submit_inv.
  - destruct Ha as [[t Ht] Hm]. apply runs_bind, (runs_task _ t); [done|]. destruct (t_doing t) eqn:E; [by apply runs_ret|by eapply get_inv|by apply runs_ret].
  - destruct Ha as [t Ht]. apply runs_bind, (runs_task _ t); [done|]. destruct (t_doing t) eqn:E; [by apply runs_ret..|by eapply add_inv].
  - destruct Ha as [t Ht]. apply runs_bind, (runs_task _ t), runs_modify; [done|]. destruct (inv_open _ _ _ Ht I) as (sub & Hq & Hw & Hb & Hs).
    by apply (inv_task w i t _ _ _ _ sub).
  - destruct Ha as [t Ht]. apply runs_bind, (runs_task _ t); [done|]. destruct (t_plug t) as [ps|] eqn:E; [|by apply runs_ret].
    apply runs_bind, runs_modify, runs_queue. eapply runs_mono; [by apply (flush_inv rf w i t ps fs)|]. intros [] q Hq. apply Hq. by right.
  - destruct Ha as [t Ht]. apply runs_bind, (runs_task _ t); [done|]. destruct (t_plug t) as [ps|] eqn:E; [|by apply runs_ret].
    apply runs_bind, runs_queue. eapply runs_mono; [by eapply flush_inv|]. intros [] q Hq. apply runs_modify, Hq. by left.
  - apply queue_step; [done|]. intros out sub l D F Hq. apply Hrf. by exists l, D, F.
  - apply runs_bind. eapply runs_mono; [by apply fetch_inv|]. intros p w' I'. by apply runs_ret.
  - destruct Ha as (Hd & Hn & Hm). apply runs_bind. eapply runs_mono; [by apply end_inv|]. intros more w' I'. by apply runs_ret.
  - by apply requeue_inv.
Qed.

(** ** The driver that completes what it fetches *)

Lemma drive_ok out sub F fuel : ∀ s l D,
  queue_ok_at ops cap [] out sub s l D F → (length (l ++ D) < fuel)%nat →
  runs (drive ops fuel) s (λ _ s', queue_ok_at ops cap [] out sub s' [] [] F).
Proof.
  induction fuel as [|fuel IH]; intros s l D I Hf; [lia|]. cbn [drive]. apply runs_bind.
  eapply runs_mono; [by apply (blk_fetch_ok ops cap)|]. intros p s1 [(-> & -> & -> & ->)|(Hp & l1 & D1 & I1 & Hperm)]; [by apply runs_ret|].
  rewrite (proj2 (Z.eqb_neq p 0) Hp). destruct (driver_has ops cap _ _ _ _ _ _ [] _ _ I1) as (r & Hr & W & _).
  destruct (rq_len_pos _ _ W) as [Hl Hm]. apply runs_bind, (runs_get _ r); [done|]. apply runs_bind.
  eapply runs_mono; [apply (__blk_end_request_ok ops cap out sub s1 l1 D1 [] p F 0 (data_len r)); [done|lia|done]|].
  intros more s2 [I2 Hmore]. specialize (Hmore r Hr). destruct more; [lia|]. apply (IH _ l1 D1); [done|].
  apply Permutation_length in Hperm. rewrite !length_app in *. simpl in *. lia.
Qed.

Lemma drive_all_ok out sub s l D F :
  queue_ok_at ops cap [] out sub s l D F → runs (drive_all ops) s (λ _ s', queue_ok_at ops cap [] out sub s' [] [] F).
Proof.
  intros I. apply runs_bind. eapply runs_ok; [apply gets_ok|]. eapply drive_ok; [done|].
  assert (length (l ++ D) ≤ size (q_rqs s))%nat; [|lia]. rewrite <- size_dom. rewrite <- (size_list_to_set (C := gset Z)).
  - apply subseteq_size. intros q. rewrite elem_of_list_to_set, elem_of_dom. intros Hq. apply (pl_all _ _ _ _ _ _ _ _ (qo_places _ _ _ _ _ _ _ _ _ I)). set_solver.
  - pose proof (pl_nodup _ _ _ _ _ _ _ _ (qo_places _ _ _ _ _ _ _ _ _ I)) as Hnd. rewrite app_assoc in Hnd. by apply NoDup_app in Hnd as (? & _).
Qed.

Lemma drive_request_fn : request_fn_ok ops cap (drive_all ops).
Proof. intros out sub s (l & D & F & I). eapply runs_mono; [by eapply drive_all_ok|]. intros [] s' I'. by exists [], [], F. Qed.

(** ** Reachable states *)

Lemma new_queue_ok e : nd_at ≠ head_at → sched_inv e 0 [] → queue_ok_at ops cap [] [] [] (new_queue e) [] [] [].
Proof.
  intros Hne Hi. split; simpl.
  - split; simpl; [|apply NoDup_nil_2|intros p; rewrite lookup_empty; split; [by intros ?%not_elem_of_nil|by intros [? ?]]|by intros p ?%not_elem_of_nil|by intros p [? ?]]. split; [|done]. split; simpl; [..|set_solver].
    + apply dll_alone. by rewrite lookup_insert_eq.
    + apply dll_alone. by rewrite lookup_insert_ne, lookup_insert_eq.
    + set_solver.
  - split; intros p r; [|set_solver..]. by rewrite lookup_empty.
  - pose proof lim_nr. assert (0 ≤ 3 * nr_requests / 2) by (apply Z.div_pos; lia). split; try done.
  - split; simpl; [apply NoDup_nil_2|set_solver|set_solver].
  - by left.
  - done.
  - done.
Qed.

Lemma world_reachable_inv rf e n w :
  request_fn_ok ops cap rf → nd_at ≠ head_at → sched_inv e 0 [] → rtc (run_step ops rf cap) (new_world e n) w → world_inv w.
Proof.
  intros Hrf Hne Hi. remember (new_world e n) as w0 eqn:E0. intros Hr. assert (world_inv w0) as I0.
  { subst w0. exists []. simpl. unfold outs, wanted.
    rewrite !join_idle by done. split_and!; [|done|done]. exists [], [], []. by apply new_queue_ok. }
  clear E0. induction Hr as [w|w w1 w2 (a & Ha & E) _ IH]; [done|]. apply IH. pose proof (exec_inv rf w a Hrf I0 Ha) as Hx.
  unfold runs in Hx. by rewrite E in Hx.
Qed.

(** Nothing is under way but what waits in the queue. *)
Lemma idle_world w :
  world_inv w → Forall (λ t, t_doing t = Idle ∧ plugged t = []) (w_tasks w) → (∀ p, with_driver (w_queue w) p = false) →
  ∃ sub l D, queue_ok_at ops cap [] [] sub (w_queue w) l D [] ∧ w_submitted w ≡ₚ (w_refused w).*1 ++ sub.
Proof.
  intros (sub & (l & D & F & I) & _ & Hs) Ht Hd. assert (outs (w_tasks w) = [] ∧ wanted (w_tasks w) = []) as [Eo Ew].
  { unfold outs, wanted. clear -Ht. induction Ht as [|t ts [H1 H2] _ [IH1 IH2]]; [done|]. csimpl. unfold task_out, task_bios. by rewrite H1, H2. }
  assert (F = []) as -> by (destruct F as [|p F]; [done|]; pose proof (with_driver_has _ _ _ _ _ _ p I) as Hx; rewrite Hd in Hx; set_solver).
  rewrite Eo, Ew in *. exists sub, l, D. split; [done|]. rewrite Hs. solve_Permutation.
Qed.

(** A queue with nothing in it. *)
Lemma empty_queue sub s :
  queue_ok_at ops cap [] [] sub s [] [] [] → q_rqs s = ∅ ∧ (∀ sync, in_flight s sync = 0) ∧ (q_ended s).*1 ≡ₚ sub.
Proof.
  intros I. assert (q_rqs s = ∅) as E.
  { apply map_empty. intros p. destruct (q_rqs s !! p) eqn:Ep; [|done].
    assert (p ∈ [] ++ [] ++ [] ++ []) as Hp by (by apply (pl_all _ _ _ _ _ _ _ _ (qo_places _ _ _ _ _ _ _ _ _ I))). by apply not_elem_of_nil in Hp. }
  split_and!; [done| |].
  - intros sync. by rewrite (cn_flight _ _ _ _ (qo_counted _ _ _ _ _ _ _ _ _ I)).
  - pose proof (qo_bios _ _ _ _ _ _ _ _ _ I) as Bi. unfold rq_list in Bi. by rewrite E, map_to_list_empty, app_nil_r in Bi.
Qed.
End Safe.
