(* ===== verification/ElevatorSpec.v ===== *)
(** * What the request queue promises

    The properties of the block layer above the driver: every step of tasks and
    driver succeeds, no bio is lost, the requests stay within the device and the
    limits, a driver that works empties the queue, the hash finds what can be
    merged with; and what the SSTF scheduler's refusal to merge covers. *)

From stdpp Require Import functions.
From S2P Require Import Prelude BlkTypes BlkRequest ListHead Sstf Elevator ElevatorSched ElevatorInv ElevatorMerge ElevatorOps ElevatorDrv ElevatorEnd ElevatorRun.

(** ** A scheduler that allows no merging with bios *)

Section Deny.
Context `{QueueLimits} `{QueuePlace} (ops : elevator_ops) (f : Z → bio → Z).
Hypothesis denies : elevator_allow_merge_fn ops = Some f ∧ ∀ p b, f p b = 0.

Lemma merge_ok_denied p b s : gives (elv_rq_merge_ok ops p b) s (λ ok _, ok = false).
Proof.
  apply gives_bind, gives_any. intros r s1. case_match; [by apply gives_ret|]. apply gives_bind, gives_any. intros b' s2.
  repeat (case_match; [by apply gives_ret|]). apply gives_ret. unfold elv_iosched_allow_merge. destruct denies as [-> Hf]. by rewrite Hf.
Qed.

Lemma try_merge_denied p b s : gives (elv_try_merge ops p b) s (λ ret _, ret = ELEVATOR_NO_MERGE).
Proof.
  apply gives_bind. eapply gives_mono; [apply merge_ok_denied|]. intros ok s1 ->. apply gives_bind, gives_any. intros r s2. by apply gives_ret.
Qed.

Lemma elv_merge_denied b s : gives (elv_merge ops b) s (λ res _, res.1 = ELEVATOR_NO_MERGE).
Proof.
  unfold elv_merge. case_match; [by apply gives_ret|]. apply gives_bind, gives_any. intros last s1. apply gives_bind.
  apply (gives_mono _ _ (λ ret _, ret = ELEVATOR_NO_MERGE)); [case_match; [by apply gives_ret|apply try_merge_denied]|]. intros ret s2 ->. simpl.
  case_match; [by apply gives_ret|]. apply gives_bind, gives_any. intros p s3. apply gives_bind.
  apply (gives_mono _ _ (λ ok _, ok = false)); [case_match; [by apply gives_ret|apply merge_ok_denied]|]. intros ok s4 ->. by apply gives_ret.
Qed.

Lemma plug_denied ps b : ∀ s, gives (plug_walk ops ps b) s (λ m _, m = Some b).
Proof.
  induction ps as [|p ps IH]; intros s; cbn [plug_walk]; [by apply gives_ret|]. apply gives_bind.
  eapply gives_mono; [apply try_merge_denied|]. intros ret s1 ->. simpl. apply gives_bind, gives_ret. apply IH.
Qed.

Lemma make_request_denied ps b s : gives (make_request_merge ops ps b) s (λ m _, m = Some b).
Proof.
  apply gives_bind. eapply gives_mono; [apply plug_denied|]. intros m s1 ->. apply gives_bind. eapply gives_mono; [apply elv_merge_denied|].
  intros [ret req] s2 E. simpl in E. subst ret. by apply gives_ret.
Qed.
End Deny.

(** ** The properties *)

Section Props.
Context `{QueueLimits} `{QueuePlace} (ops : elevator_ops) (cap : Z) `{!SchedOk ops cap} `{!LimitsOk cap}.

(** C5: Start with an empty queue and let tasks submit bios, merge them, get
    requests, plug and unplug them, and the driver fetch, complete (in parts, of
    whole sectors, with any error) and requeue requests, in any order, under any
    scheduler that keeps its side and with any request function that keeps the
    queue in order: each further step that is allowed succeeds, so no BUG_ON is
    hit, no list is walked off and no loop goes on. *)
Theorem queue_never_faults (rf : qM unit) (e : Z) (n : nat) (w : world) (a : action) :
  request_fn_ok ops cap rf → nd_at ≠ head_at → sched_inv e 0 [] → rtc (run_step ops rf cap) (new_world e n) w →
  allowed cap w a → ∃ w', exec ops rf a w = Ok (tt, w').
Proof.
  intros Hrf Hne Hi Hr Ha. pose proof (world_reachable_inv ops cap rf e n w Hrf Hne Hi Hr) as I.
  destruct (runs_inv _ _ _ (exec_inv ops cap rf w a Hrf I Ha)) as ([] & w' & E & _). by exists w'.
Qed.

(** C6: In every state so reached each bio submitted is, once, among those refused,
    those that have ended, those in a request and those that wait for one; the bios
    of a request have data, follow each other on the disk and ask for the same kind
    of transfer, and its buffer is the segment to do next; and the requests, reads and synchronous ones apart from the others,
    are counted and at most one and a half times [nr_requests]. *)
Theorem queue_keeps_bios (rf : qM unit) (e : Z) (n : nat) (w : world) :
  request_fn_ok ops cap rf → nd_at ≠ head_at → sched_inv e 0 [] → rtc (run_step ops rf cap) (new_world e n) w →
  w_submitted w ≡ₚ (w_refused w).*1 ++ (q_ended (w_queue w)).*1 ++ all_privs (rq_list (q_rqs (w_queue w))) ++ (bi_private <$> wanted (w_tasks w)) ∧
  (∀ p r, q_rqs (w_queue w) !! p = Some r →
     chain_ok (rq_sector r) (rq_bio r) ∧ Forall bio_ok (rq_bio r) ∧ data_len r = sumZ (bi_size <$> rq_bio r) ∧
     0 ≤ rq_sector r ∧ rq_sector r + blk_rq_sectors r ≤ cap ∧
     Forall (λ b, Z.land (bi_rw b) KIND = Z.land (rq_flags r) KIND ∧ bi_disk b = rq_disk r) (rq_bio r) ∧
     rq_buffer r = (λ v, (bv_page v, bv_offset v)) <$> head (rq_segs r)) ∧
  (∀ sync, rl_count (q_rl (w_queue w)) sync = n_sync sync (rq_list (q_rqs (w_queue w))) ∧
           n_sync sync (rq_list (q_rqs (w_queue w))) ≤ 3 * nr_requests / 2).
Proof.
  intros Hrf Hne Hi Hr. destruct (world_reachable_inv ops cap rf e n w Hrf Hne Hi Hr) as (sub & (l & D & F & [P Co Cn _ _ _ Bi]) & _ & Hs).
  split_and!.
  - rewrite Hs, <- Bi. solve_Permutation.
  - intros p r Hp. destruct (co_wf _ _ _ _ _ Co _ _ Hp) as [_ _ _ _ _ _ [Hb Hl _] _ Hc Hf [? ?] Hbu]. split_and!; try done.
    eapply Forall_impl; [exact Hf|]. by intros b (? & ? & _).
  - intros sync. split; [apply (cn_count _ _ _ _ Cn)|apply (cn_limit _ _ _ _ Cn)].
Qed.

(** C7: When no task has anything under way and the driver has no request, a driver
    that fetches requests and completes each of them comes to an end, and then every
    request is freed and every bio submitted has been refused or has ended, once. *)
Theorem queue_drains (rf : qM unit) (e : Z) (n : nat) (w : world) :
  request_fn_ok ops cap rf → nd_at ≠ head_at → sched_inv e 0 [] → rtc (run_step ops rf cap) (new_world e n) w →
  Forall (λ t, t_doing t = Idle ∧ plugged t = []) (w_tasks w) → (∀ p, with_driver (w_queue w) p = false) →
  ∃ s', drive_all ops (w_queue w) = Ok (tt, s') ∧ q_rqs s' = ∅ ∧ (∀ sync, in_flight s' sync = 0) ∧
    w_submitted w ≡ₚ (w_refused w).*1 ++ (q_ended s').*1.
Proof.
  intros Hrf Hne Hi Hr Ht Hd. destruct (idle_world ops cap w (world_reachable_inv ops cap rf e n w Hrf Hne Hi Hr) Ht Hd) as (sub & l & D & I & Hs).
  destruct (runs_inv _ _ _ (drive_all_ok ops cap _ _ _ _ _ _ I)) as ([] & s' & E & I').
  destruct (empty_queue ops cap _ _ I') as (? & ? & Bi). exists s'. by rewrite Hs, Bi.
Qed.

(** C22: In a queue that is in order, looking up a sector in the hash finds a waiting
    request that can be merged with and ends at that sector, and finds none only when
    no such request waits; the lookup changes nothing but the hash, which stays in
    order. *)
Theorem rqhash_find_exact (out sub : list Z) (s : rqueue) (l D F : list Z) (offset : Z) :
  queue_ok_at ops cap [] out sub s l D F →
  ∃ q h, elv_rqhash_find offset s = Ok (q, set_io (io_hash h (q_io s)) s) ∧
    queue_ok_at ops cap [] out sub (set_io (io_hash h (q_io s)) s) l D F ∧
    (q = 0 ↔ ¬ ∃ p r, p ∈ l ∧ q_rqs s !! p = Some r ∧ rq_mergeable r = true ∧ rq_hash_key r = offset) ∧
    (q ≠ 0 → q ∈ l ∧ ∃ r, q_rqs s !! q = Some r ∧ rq_mergeable r = true ∧ rq_hash_key r = offset).
Proof.
  intros I. destruct (runs_inv _ _ _ (elv_rqhash_find_ok ops cap _ _ _ _ _ _ offset I)) as (q & s' & E & I' & (h & ->) & HQ).
  exists q, h. split_and!; [done..| |]; case_decide as Hq; [split; [intros _ (p & r & Hp & Hr & Hm & Hk); by eapply HQ|done]|split; [done|]|done|done].
  destruct HQ as (Hl & r & HQ). intros []. by exists q, r.
Qed.
End Props.

(** C24: A bio that [__generic_make_request] passes on lies within the device it was
    submitted to, and goes with the same data to the sectors of the disk behind it,
    counted from the start of the partition, without REQ_FLUSH and REQ_FUA; one that
    reaches past the end of the device is ended with an I/O error. *)
Theorem submission_on_device `{QueueLimits} (cap : Z) (d : block_device) (b : bio) :
  device_on cap d → cap < 2 ^ 63 → submittable b →
  (∀ b', __generic_make_request d b = inr b' →
     plain_bio cap b' ∧ bi_sector b' = bi_sector b + part_start d ∧ bio_segs b' = bio_segs b ∧ bi_private b' = bi_private b ∧
     bi_sector b + bio_sectors b ≤ bd_sectors d) ∧
  (0 < bio_sectors b → bd_sectors d < bi_sector b + bio_sectors b → __generic_make_request d b = inl EIO_err).
Proof.
  intros Hd Hcap Hb. split.
  - intros b' E. destruct (generic_make_request_ok _ _ _ _ Hd Hb Hcap E) as (? & ? & ? & _ & ? & ?). done.
  - intros Hp Hlt. unfold __generic_make_request. destruct (bio_check_eod (bd_sectors d) b) eqn:E; [done|].
    apply check_eod_false in E; [lia|done|apply Hb|apply Hd].
Qed.

(** ** A disk *)

Section Disk.
#[local] Instance disk_limits : QueueLimits :=
  Build_QueueLimits 1024 1024 128 65536 4294967295 1048576 true false false true false false 128.
(** The list heads lie apart, and the list head taken for a request has a sector
    beyond the disk. *)
#[local] Instance disk_place : QueuePlace := Build_QueuePlace 1 2 (λ _, 1048576) (λ _, 0) (λ x, x).
#[local] Instance disk_ok : LimitsOk 2048.
Proof. by split. Qed.

#[local] Instance disk_far : SstfPlace 2048.
Proof.
  split; [done|]. intros a b Ha Hb. rewrite !kabs_dist by (simpl; lia). simpl. lia.
Qed.

(** Reads of eight sectors from sector [at_] on. *)
Definition disk_read (n at_ : Z) : bio := mk_bio at_ 4096 0 [mk_bvec n 4096 0] 0 true n 0 (mk_bseg 0 0 0 false).
Definition whole_disk : block_device := mk_bdev 2048 None.

Lemma disk_read_ok n at_ : 0 ≤ at_ < 2048 → submittable (disk_read n at_).
Proof.
  intros Ha. split; [simpl; lia|left]. split_and!; [|done|done]. split; [done| |done].
  constructor; [|done]. done.
Qed.

Lemma idle_request_fn ops `{!SchedOk ops 2048} : request_fn_ok ops 2048 (mret tt).
Proof. intros out sub s I. by apply runs_ret. Qed.

Ltac allow :=
  simpl; repeat match goal with
  | |- True => exact I
  | |- _ ∧ _ => split
  | |- is_Some _ => eexists; reflexivity
  | |- ∃ t, _ => eexists; split; [reflexivity|reflexivity]
  | |- device_on _ _ => done
  | |- submittable _ => apply disk_read_ok; lia
  | |- ∀ p, _ = Some p → _ => by intros ? [= <-]
  | |- _ => done
  end.
Ltac step a := eapply rtc_l; [exists a; split; [allow|vm_compute; reflexivity]|].

Lemma none_with_driver s :
  bool_decide (map_Forall (λ _ r, flagged (rq_flags r) REQ_STARTED = false) (q_rqs s)) = true → ∀ p, with_driver s p = false.
Proof.
  intros Hm%bool_decide_eq_true p. unfold with_driver. destruct (q_rqs s !! p) as [r|] eqn:E; [|done]. by rewrite (Hm p r E).
Qed.

(** Task 0 plugs reads of sectors 8 to 15 and 16 to 23 and unplugs them. *)
Lemma sstf_reads :
  ∃ w, rtc (run_step elevator_sstf (mret tt) 2048) (new_world 0 2) w ∧ w_tasks w = [mk_task Idle None; mk_task Idle None] ∧
    (prod_map id privs <$> map_to_list (q_rqs (w_queue w))) = [(100, [1; 2])] ∧ (∀ p, with_driver (w_queue w) p = false) ∧
    runs (elv_rqhash_find 24) (w_queue w) (λ q _, q = 100) ∧
    rq_segs <$> rq_list (q_rqs (w_queue w)) = [[mk_bvec 1 4096 0; mk_bvec 2 4096 0]].
Proof.
  eexists. split.
  { step (StartPlug 0). step (Submit 0 whole_disk (disk_read 1 8)). step (Get 0 false (Some 100)). step (Add 0).
    step (Submit 0 whole_disk (disk_read 2 16)). step (Get 0 false (Some 200)). step (Add 0). step (FinishPlug 0). apply rtc_refl. }
  split_and!; [vm_compute; reflexivity..| |vm_compute; reflexivity|vm_compute; reflexivity]. apply none_with_driver. vm_compute. reflexivity.
Qed.

(** The same reads with noop, and the driver has fetched the request. *)
Lemma noop_reads :
  ∃ w, rtc (run_step elevator_noop (mret tt) 2048) (new_world 0 2) w ∧
    (prod_map id privs <$> map_to_list (q_rqs (w_queue w))) = [(100, [1; 2])] ∧ with_driver (w_queue w) 100 = true.
Proof.
  eexists. split.
  { step (StartPlug 0). step (Submit 0 whole_disk (disk_read 1 8)). step (Get 0 false (Some 100)). step (Add 0).
    step (Submit 0 whole_disk (disk_read 2 16)). step (FinishPlug 0). step Fetch. apply rtc_refl. }
  split_and!; vm_compute; reflexivity.
Qed.

(** C39: Under SSTF no bio is ever merged into a request, plugged or waiting: its
    [sstf_deny_merge] sees to that.  Requests are merged all the same: two plugged
    requests that follow each other become one when they are unplugged, since
    [attempt_merge] does not ask the scheduler. *)
Theorem sstf_merging :
  (∀ (lim : QueueLimits) (pl : QueuePlace) plug b s m s', make_request_merge elevator_sstf plug b s = Ok (m, s') → m = Some b) ∧
  ∃ w, rtc (run_step elevator_sstf (mret tt) 2048) (new_world 0 2) w ∧
    (prod_map id privs <$> map_to_list (q_rqs (w_queue w))) = [(100, [1; 2])].
Proof.
  split; [|destruct sstf_reads as (w & ? & _ & ? & _); by exists w].
  intros lim pl plug b s m s' E. by apply (make_request_denied elevator_sstf sstf_deny_merge (conj eq_refl (λ _ _, eq_refl)) plug b s m s').
Qed.

Lemma queue_never_faults_witness :
  ∃ w w', with_driver (w_queue w) 100 = true ∧ exec elevator_noop (mret tt) (End 100 (-5) 4608) w = Ok (tt, w').
Proof.
  destruct noop_reads as (w & Hr & _ & Hd). exists w.
  destruct (queue_never_faults elevator_noop 2048 (mret tt) 0 2 w (End 100 (-5) 4608)) as (w' & E);
    [apply idle_request_fn|done|exact Logic.I|exact Hr|by split_and!|]. by exists w'.
Defined.

Lemma queue_keeps_bios_witness :
  ∃ w, rtc (run_step elevator_sstf (mret tt) 2048) (new_world 0 2) w ∧
    w_submitted w ≡ₚ (w_refused w).*1 ++ (q_ended (w_queue w)).*1 ++ all_privs (rq_list (q_rqs (w_queue w))) ++ (bi_private <$> wanted (w_tasks w)).
Proof.
  destruct sstf_reads as (w & Hr & _). exists w. split; [exact Hr|].
  apply (queue_keeps_bios elevator_sstf 2048 (mret tt) 0 2 w); [apply idle_request_fn|done|done|exact Hr].
Defined.

Lemma queue_drains_witness : ∃ w s', w_tasks w ≠ [] ∧ drive_all elevator_sstf (w_queue w) = Ok (tt, s') ∧ q_rqs s' = ∅.
Proof.
  destruct sstf_reads as (w & Hr & Ht & _ & Hd & _). exists w.
  destruct (queue_drains elevator_sstf 2048 (mret tt) 0 2 w) as (s' & E & E0 & _); [apply idle_request_fn|done|done|exact Hr| |exact Hd|].
  - rewrite Ht. repeat constructor.
  - exists s'. split_and!; [by rewrite Ht|done|done].
Defined.

Lemma rqhash_find_exact_witness : ∃ out sub s l D F, queue_ok_at elevator_sstf 2048 [] out sub s l D F ∧ 100 ∈ l.
Proof.
  destruct sstf_reads as (w & Hr & _ & _ & _ & Hf & _).
  destruct (world_reachable_inv elevator_sstf 2048 (mret tt) 0 2 w) as (sub & (l & D & F & I) & _); [apply idle_request_fn|done|done|exact Hr|].
  exists (outs (w_tasks w)), sub, (w_queue w), l, D, F. split; [exact I|].
  destruct (rqhash_find_exact elevator_sstf 2048 _ _ _ _ _ _ 24 I) as (q & h & E & _ & _ & Hq). unfold runs in Hf. rewrite E in Hf.
  subst q. by apply Hq.
Defined.

Lemma submission_on_device_witness :
  ∃ b', __generic_make_request (mk_bdev 1024 (Some (512, 2048))) (disk_read 1 8) = inr b' ∧ plain_bio 2048 b' ∧ bi_sector b' = 520.
Proof.
  eexists. split; [vm_compute; reflexivity|].
  destruct (submission_on_device 2048 (mk_bdev 1024 (Some (512, 2048))) (disk_read 1 8)) as [Hs _]; [by split_and!|done|by apply disk_read_ok|].
  by destruct (Hs _ eq_refl) as (? & ? & _).
Defined.
End Disk.
