(* ===== verification/OsurdElv.v ===== *)
(** * The RAM disk below the request queue (project3/osurd.c on block/elevator.c)

    The simple request function of the driver run on the queue of [Elevator], with
    whatever I/O scheduler: it empties the queue, and disk and memory are as after
    the copies all waiting requests ask for, one request after the other in the
    order the elevator hands them over. *)

From stdpp Require Import functions.
From S2P Require Import Prelude BlkTypes Osurd BlkRequest OsurdReq ListHead Sstf Elevator ElevatorSched ElevatorInv ElevatorMerge ElevatorOps ElevatorDrv ElevatorEnd ElevatorRun ElevatorSpec.

(** The queue as the driver uses it. *)
Definition elv_driver `{QueueLimits} `{QueuePlace} (ops : elevator_ops) : DriverQueue rqueue := {|
  dq_get := rq_get;
  dq_fetch := p ← blk_fetch_request ops; mret (if p =? 0 then None else Some p);
  dq_end := __blk_end_request;
  dq_deliver := λ e, modify (λ s, set_ended (q_ended s ++ e) s)
|}.

(** ** What fetching and completing change *)

(** A request but for the mark that the driver has seen it. *)
Definition unmarked (r : request) : request := del_flags REQ_STARTED r.
Definition works (m : gmap Z request) (L : list Z) : list request := rqs_at (unmarked <$> m) L.

(** The requests are the same but for the marks, and no bio has ended. *)
Definition only_marks (s s' : rqueue) : Prop := unmarked <$> q_rqs s' = unmarked <$> q_rqs s ∧ q_ended s' = q_ended s.

#[export] Instance only_marks_preorder : PreOrder only_marks.
Proof. split; [done|]. intros a b c [E1 E2] [E3 E4]. split; congruence. Qed.

Lemma unmarked_fields r :
  success (unmarked r) = success r ∧ rq_copies (unmarked r) = rq_copies r ∧ rounds (unmarked r) = rounds r ∧ rq_segs (unmarked r) = rq_segs r.
Proof.
  assert (rq_flush_seq (unmarked r) = rq_flush_seq r ∧ rq_write (unmarked r) = rq_write r) as [E1 E2].
  { unfold rq_flush_seq, rq_write. simpl. by rewrite !flagged_land. }
  unfold success, rq_copies. by rewrite E1, E2.
Qed.

(** The requests are the same. *)
Definition only_io (s s' : rqueue) : Prop := q_rqs s' = q_rqs s ∧ q_ended s' = q_ended s.
#[export] Instance only_io_preorder : PreOrder only_io.
Proof. split; [done|]. intros a b c [E1 E2] [E3 E4]. split; congruence. Qed.

(** Ways in which commands can keep the requests. *)
Class Keeps (R : relation rqueue) := { keeps_preorder :: PreOrder R; io_R s s' : only_io s s' → R s s' }.
#[export] Instance keeps_same : Keeps only_io.
Proof. split; [apply _|done]. Qed.
#[export] Instance keeps_marks : Keeps only_marks.
Proof. split; [apply _|]. intros s s' [E1 E2]. split; [by rewrite E1|done]. Qed.

Section Frames.
Context `{QueueLimits} `{QueuePlace} (ops : elevator_ops) (R : relation rqueue) `{!Keeps R}.

Lemma keeps_then {A B} (c : cmd rqueue A) (f : A → cmd rqueue B) s :
  gives c s (λ _ s', R s s') → (∀ a s', gives (f a) s' (λ _ s2, R s' s2)) → gives (c ≫= f) s (λ _ s', R s s').
Proof.
  intros Hc Hf. apply gives_bind. eapply gives_mono; [exact Hc|]. intros a s1 H1. eapply gives_mono; [apply Hf|]. intros b s2 H2. by transitivity s1.
Qed.

Lemma keeps_zoom {A} (c : ioM A) s : gives (zoom q_io set_io c) s (λ _ s', R s s').
Proof. intros a s' E. unfold zoom in E. destruct (c (q_io s)) as [[x t]| |]; [|done..]. injection E as <- <-. by apply io_R. Qed.
Lemma keeps_list {A} (c : cmd lmem A) s : gives (on_list c) s (λ _ s', R s s').
Proof. apply keeps_zoom. Qed.
Lemma keeps_sched {A} (c : IoEnv → ioM A) s : gives (on_sched c) s (λ _ s', R s s').
Proof. apply keeps_zoom. Qed.
Lemma keeps_gets {A} (f : rqueue → A) s : gives (gets f) s (λ _ s', R s s').
Proof. by intros a s' [= <- <-]. Qed.
Lemma keeps_the {A} (o : option A) s : gives (the o) s (λ _ s', R s s').
Proof. intros a s' E. destruct o; [|done]. by injection E as <- <-. Qed.
Lemma keeps_read p s : gives (rq_get p) s (λ _ s', R s s').
Proof. apply keeps_the. Qed.
Lemma keeps_check b s : gives (check b) s (λ _ s', R s s').
Proof. intros a s' E. unfold check in E. destruct b; [|done]. by injection E as <- <-. Qed.
Lemma keeps_unit {A} (a : A) s : gives (mret a) s (λ _ s', R s s').
Proof. by apply gives_ret. Qed.
Lemma keeps_modify f s : only_io s (f s) → gives (modify f) s (λ _ s', R s s').
Proof. intros Hf a s' [= <- <-]. by apply io_R. Qed.

Lemma keeps_next fuel : ∀ s, gives (elv_next ops fuel) s (λ _ s', R s s').
Proof.
  induction fuel as [|fuel IH]; intros s; cbn [elv_next]; [by intros a s' [=]|]. apply keeps_then; [apply keeps_list|]. intros empty s1.
  case_match; [apply keeps_list|]. apply keeps_then; [apply keeps_sched|]. intros ret s2. case_match; [apply keeps_unit|apply IH].
Qed.

Lemma keeps_dequeue p s : gives (blk_dequeue_request p) s (λ _ s', R s s').
Proof.
  apply keeps_then; [apply keeps_list|]. intros empty s2. apply keeps_then; [apply keeps_check|]. intros [] s3.
  apply keeps_then; [apply keeps_gets|]. intros h s4. apply keeps_then; [apply keeps_check|]. intros [] s5.
  apply keeps_then; [apply keeps_list|]. intros [] s6. apply keeps_then; [apply keeps_read|]. intros r s7.
  case_match; [by apply keeps_modify|apply keeps_unit].
Qed.
End Frames.

Lemma unmarked_marked r : unmarked (add_flags REQ_STARTED r) = unmarked r.
Proof.
  unfold unmarked, add_flags, del_flags, with_flags. simpl. f_equal. rewrite Z.land_lor_distr_l.
  change (Z.land REQ_STARTED (Z.lnot REQ_STARTED)) with 0. apply Z.lor_0_r.
Qed.

Section Driver.
Context `{QueueLimits} `{QueuePlace} (ops : elevator_ops).

Lemma gives_peek s : gives (blk_peek_request ops) s (λ _ s', only_marks s s').
Proof.
  apply (keeps_then _); [apply (keeps_next ops only_marks 2)|]. intros p s1. case_match; [by apply (keeps_unit _)|]. apply gives_bind. intros r s2 E.
  unfold rq_get, the in E. destruct (q_rqs s1 !! p) as [r0|] eqn:Hp; [|done]. injection E as <- <-. apply (keeps_then _).
  - case_match; [apply (keeps_unit _)|]. intros [] s2 [= <-]. split; [|done]. simpl. rewrite fmap_insert, unmarked_marked. apply insert_id. by rewrite lookup_fmap, Hp.
  - intros [] s2. apply (keeps_then _); [apply (keeps_gets _)|]. intros b s3. apply (keeps_then _); [|intros; apply (keeps_unit _)].
    case_match; [|apply (keeps_unit _)]. apply (keeps_then _); [by apply (keeps_modify _)|]. intros [] s4. by apply (keeps_modify _).
Qed.

Lemma gives_fetch s : gives (blk_fetch_request ops) s (λ _ s', only_marks s s').
Proof.
  apply (keeps_then _); [apply gives_peek|]. intros p s1. case_match; [apply (keeps_unit _)|].
  apply (keeps_then _); [apply (keeps_dequeue only_marks)|intros; apply (keeps_unit _)].
Qed.

(** Dropping the last reference to a request. *)
Lemma gives_finish p r s :
  q_rqs s !! p = Some r → ref_count r = 1 → flagged (rq_flags r) REQ_ALLOCED = true →
  gives (blk_finish_request p) s (λ _ s', q_rqs s' = delete p (q_rqs s) ∧ q_ended s' = q_ended s).
Proof.
  intros Hp Href Hal. apply gives_bind. eapply gives_mono; [apply (keeps_list only_io)|]. intros empty s1 [E1 E1'].
  apply gives_bind. eapply gives_mono; [apply (keeps_check only_io)|]. intros [] s2 [E2 E2'].
  rewrite <- E1, <- E2 in Hp. apply gives_bind. intros [] s3 E. unfold rq_alter, rq_get, the, mbind, cmd_bind in E. rewrite Hp in E. injection E as <-.
  apply gives_bind. intros r' s4 E. unfold rq_get, the in E. simpl in E. rewrite lookup_insert_eq in E. injection E as <- <-. simpl.
  rewrite Href. change (negb (s32 (1 - 1) =? 0)) with false. cbv iota. apply gives_bind.
  eapply gives_mono.
  { apply (keeps_then only_io); [apply (keeps_read only_io)|]. intros r3 s5. case_match; [by apply (keeps_modify only_io)|apply (keeps_unit only_io)]. }
  intros [] s6 [E6 E6']. simpl in E6, E6'. rewrite Hal. apply gives_bind. eapply gives_mono; [apply (keeps_list only_io)|]. intros empty' s7 [E7 E7'].
  apply gives_bind. eapply gives_mono; [apply (keeps_check only_io)|]. intros [] s8 [E8 E8'].
  apply gives_bind. eapply gives_mono; [apply (keeps_gets only_io)|]. intros h s9 [E9 E9'].
  apply gives_bind. eapply gives_mono; [apply (keeps_check only_io)|]. intros [] s10 [E10 E10'].
  intros [] s' [= <-]. simpl. rewrite E10, E9, E8, E7, E6, E2, E1, delete_insert_eq. split; [done|]. congruence.
Qed.

(** Completing a part of a request, or all of it. *)
Lemma gives_end p r err nr more r' e s :
  q_rqs s !! p = Some r → blk_update_request err nr r = Ok (more, r', e) → ref_count r' = 1 → flagged (rq_flags r') REQ_ALLOCED = true →
  gives (__blk_end_request p err nr) s (λ m s', m = more ∧ q_ended s' = q_ended s ++ e ∧
    q_rqs s' = if more then <[p := r']> (q_rqs s) else delete p (q_rqs s)).
Proof.
  intros Hp E Href Hal. apply gives_bind. intros r0 s1 E0. unfold rq_get, the in E0. rewrite Hp in E0. injection E0 as <- <-. rewrite E.
  apply gives_bind. intros [] s2 [= <-]. apply gives_bind. intros [] s3 [= <-]. simpl. destruct more; [by apply gives_ret|].
  apply gives_bind. eapply gives_mono; [by eapply gives_finish; [simpl; apply lookup_insert_eq|..]|]. intros [] s4 [E1 E2]. simpl in *.
  apply gives_ret. by rewrite E1, E2, delete_insert_eq.
Qed.
End Driver.

(** ** The request function *)

Lemma works_marks s s' L : only_marks s s' → works (q_rqs s') L = works (q_rqs s) L.
Proof. intros [E _]. unfold works. by rewrite E. Qed.
Lemma works_delete m p L : p ∉ L → works (delete p m) L = works m L.
Proof. intros Hp. unfold works. rewrite fmap_delete. by apply rqs_at_delete. Qed.
Lemma works_other m p r L : p ∉ L → works (<[p := r]> m) L = works m L.
Proof. intros Hp. unfold works. rewrite fmap_insert. by apply rqs_at_other. Qed.
Lemma works_mid m L1 p L2 r : m !! p = Some r → works m (L1 ++ p :: L2) ≡ₚ unmarked r :: works m (L1 ++ L2).
Proof. intros Hp. apply rqs_at_mid. by rewrite lookup_fmap, Hp. Qed.
#[export] Instance works_perm m : Proper ((≡ₚ) ==> (≡ₚ)) (works m).
Proof. intros L L' E. unfold works, rqs_at. by rewrite E. Qed.

(** The requests at all the addresses. *)
Lemma rqs_at_all m L : NoDup L → (∀ p, p ∈ L ↔ is_Some (m !! p)) → rqs_at m L ≡ₚ rq_list m.
Proof.
  intros Hnd Hall. unfold rqs_at, rq_list. assert (L ≡ₚ (map_to_list m).*1) as ->.
  { apply NoDup_Permutation; [done|apply NoDup_fst_map_to_list|]. intros p. rewrite Hall, list_elem_of_fmap. split.
    - intros [r Hr]. exists (p, r). by rewrite elem_of_map_to_list.
    - intros ([p' r] & -> & Hr%elem_of_map_to_list). by exists r. }
  assert (∀ k : list (Z * request), (∀ p r, (p, r) ∈ k → m !! p = Some r) → omap (λ p, m !! p) k.*1 = k.*2) as Hk.
  { induction k as [|[p r] k IH]; intros Hk; [done|]. csimpl. rewrite (Hk p r) by set_solver. f_equal. apply IH. intros q t Hq. apply Hk. set_solver. }
  rewrite Hk; [done|]. intros p r. by rewrite elem_of_map_to_list.
Qed.

Section Stack.
Context `{CipherOk} `{QueueLimits} `{QueuePlace} (ops : elevator_ops) (cap : Z) `{!SchedOk ops cap} `{!LimitsOk cap}.
Notation dq := (elv_driver ops).
Notation queue_ok_at := (queue_ok_at ops cap).

(** The pages the requests at [L] transfer from and to are there. *)
Definition memory_for (s : osurd_st rqueue) (L : list Z) : Prop :=
  ∀ q t, q ∈ L → q_rqs (io_q s) !! q = Some t → Forall (seg_ok (io_mem s)) (rq_segs t).

Lemma drv_of_wf (s : osurd_st rqueue) r :
  rq_wf cap r → cap * 512 ≤ dev_size (io_dev s) → Forall (seg_ok (io_mem s)) (rq_segs r) → drv_ok s r.
Proof.
  intros W Hc Hs. destruct (rw_range _ _ W), (rq_sectors_pos _ _ W). split; try done; [apply W|by unfold cmd_fs; rewrite (rw_type _ _ W)|apply W|lia|apply W].
Qed.

Lemma wf_segs r : rq_wf cap r → rq_segs r ≠ [].
Proof. intros W Hs. by apply (rw_bios _ _ W), rq_bio_nil; [apply W|]. Qed.

Lemma end_cur_run out sub q l D F p r v vs :
  queue_ok_at [] out sub q l D (p :: F) → q_rqs q !! p = Some r → rq_segs r = v :: vs → 0 < bv_len v → bv_len v mod 512 = 0 →
  ∃ more r' e q', @__blk_end_request_cur _ dq p 0 q = Ok (more, q') ∧ updated 0 (bv_len v) r r' more e ∧
    queue_ok_at [] out sub q' l D (if more then p :: F else F) ∧ q_ended q' = q_ended q ++ e ∧
    q_rqs q' = if more then <[p := r']> (q_rqs q) else delete p (q_rqs q).
Proof.
  intros I Hr Hs Hv Hm. destruct (driver_has ops cap _ _ _ _ _ _ [] _ _ I) as (r0 & Hr0 & W & _). simplify_eq.
  destruct (blk_update_ok 0 (bv_len v) r (rw_ok _ _ W)) as (more & r' & e & E & U); [lia|].
  pose proof (up_same _ _ _ _ _ _ U) as [= _ _ _ _ Ek4].
  pose proof (gives_end p r 0 (bv_len v) more r' e q Hr E) as Hg.
  rewrite Ek4, (updated_flag _ _ _ _ _ _ _ U) in Hg by done. specialize (Hg (rw_ref _ _ W) (rw_alloced _ _ W)).
  pose proof (runs_gives _ _ _ _ (__blk_end_request_ok ops cap out sub q l D [] p F 0 (bv_len v) I ltac:(lia) Hm) Hg) as Hx.
  apply runs_inv in Hx as (m & q' & Ee & [I' _] & -> & E1 & E2). exists more, r', e, q'. split_and!; try done.
  unfold __blk_end_request_cur. cbn [dq_get dq_end elv_driver]. unfold rq_get, mbind, cmd_bind, the at 1. rewrite Hr. cbn.
  rewrite (rq_cur r (rw_ok _ _ W)), Hs. cbn. exact Ee.
Qed.

Lemma fetch_run out sub q l D F :
  queue_ok_at [] out sub q l D F →
  ∃ req q', @dq_fetch _ dq q = Ok (req, q') ∧ only_marks q q' ∧
    match req with
    | None => l = [] ∧ D = [] ∧ queue_ok_at [] out sub q' [] [] F
    | Some p => ∃ l' D', queue_ok_at [] out sub q' l' D' (p :: F) ∧ l' ++ p :: D' ≡ₚ l ++ D
    end.
Proof.
  intros I. pose proof (runs_gives _ _ _ _ (blk_fetch_ok ops cap _ _ _ _ _ _ I) (gives_fetch ops q)) as Hx.
  apply runs_inv in Hx as (p & q' & E & HQ & Hm). exists (if p =? 0 then None else Some p), q'. split_and!; [|done|].
  - cbn [dq_fetch elv_driver]. by rewrite (bind_ok _ _ _ _ _ E).
  - destruct HQ as [(-> & -> & -> & ->)|(Hp & l' & D' & I' & Hperm)]; [done|]. rewrite (proj2 (Z.eqb_neq p 0) Hp). by exists l', D'.
Qed.

(** What is done when the driver has done the current segment of [p]: [more] says
    whether [r'] is left of the request. *)
Record round_done (out sub : list Z) (data : bytes) (s : osurd_st rqueue) (l D F : list Z) (p : Z) (r : request)
    (data' : bytes) (s' : osurd_st rqueue) (more : bool) (r' : request) : Prop := {
  rd_data : dev_ok (io_dev s') data';
  rd_size : dev_size (io_dev s') = dev_size (io_dev s);
  rd_shape : same_shape (io_mem s) (io_mem s');
  rd_view : ∃ k, view data' s' ≡ do_copies k (view data s) ∧ rq_copies r = k ++ if more then rq_copies r' else [];
  rd_ended : ∃ e, q_ended (io_q s') = q_ended (io_q s) ++ e ∧ success r = e ++ if more then success r' else [];
  rd_rounds : rounds r = S (if more then rounds r' else 0);
  rd_q : queue_ok_at [] out sub (io_q s') l D (if more then p :: F else F);
  rd_rqs : q_rqs (io_q s') = if more then <[p := r']> (q_rqs (io_q s)) else delete p (q_rqs (io_q s));
  rd_segs : more = true → ∀ v, v ∈ rq_segs r' → v ∈ rq_segs r
}.

(** The request after its current segment. *)
Lemma updated_round (s : osurd_st rqueue) r r' v vs more e :
  drv_ok s r → dev_size (io_dev s) < 2 ^ 31 → rq_segs r = v :: vs → 0 < bv_len v → updated 0 (bv_len v) r r' more e →
  rq_segs r' = vs ∧ rq_copies r = take 1 (rq_copies r) ++ (if more then rq_copies r' else []) ∧
  success r = e ++ (if more then success r' else []) ∧ rounds r = S (if more then rounds r' else 0).
Proof.
  intros Hdrv H31 Es Hv U. destruct (rq_len r (do_rq _ _ Hdrv)) as [Hso Hlen]. pose proof (up_segs _ _ _ _ _ _ U) as Hse. rewrite Es in Hso, Hlen, Hse.
  apply Forall_cons in Hso as [_ Hso]. rewrite lens_cons in Hlen. pose proof (up_more _ _ _ _ _ _ U) as Hm.
  rewrite (advance_skip [v] vs) in Hse; [|by constructor|unfold lens; simpl; lia].
  replace (bv_len v - lens [v]) with 0 in Hse by (unfold lens; simpl; lia). rewrite advance_0 in Hse by done.
  split; [done|]. rewrite (updated_success _ _ _ _ _ U). destruct vs as [|w vs].
  - assert (more = false) as -> by (destruct more; [|done]; unfold lens in Hlen; simpl in Hlen; destruct Hm as [Hm _]; specialize (Hm eq_refl); lia).
    rewrite (updated_done _ _ _ _ _ U). unfold rq_copies, rounds. by rewrite Es.
  - pose proof (lens_pos _ Hso ltac:(done)). assert (more = true) as -> by (apply Hm; lia).
    destruct (drv_ok_next s s r r' v w vs e Hdrv Es U Hse H31 eq_refl (λ _, eq_refl)) as (_ & Hcp & Hrd). split_and!; [|done|done].
    rewrite Hcp at 1. unfold rq_copies at 2. by rewrite Es.
Qed.

Lemma stack_round out sub data s l D F p r :
  dev_ok (io_dev s) data → cap * 512 ≤ dev_size (io_dev s) → queue_ok_at [] out sub (io_q s) l D (p :: F) → q_rqs (io_q s) !! p = Some r →
  Forall (seg_ok (io_mem s)) (rq_segs r) →
  ∃ data' s' more r', round_done out sub data s l D F p r data' s' more r' ∧
    ∀ fuel, @osurd_request_loop _ _ dq (S fuel) (Some p) s =
      (if more : bool then @osurd_request_loop _ _ dq fuel (Some p)
       else req ← on_q (@dq_fetch _ dq); @osurd_request_loop _ _ dq fuel req) s'.
Proof.
  intros Hd Hc I Hr Hsg. destruct (driver_has ops cap _ _ _ _ _ _ [] _ _ I) as (r0 & Hr0 & W & _). simplify_eq.
  pose proof (drv_of_wf s r W Hc Hsg) as Hdrv. destruct (transfer_current data s r Hd Hdrv) as (n & d1 & s1 & En & Et & M).
  destruct (rq_segs r) as [|v vs] eqn:Es; [by destruct (wf_segs r W)|]. apply Forall_cons in Hsg as [(Hv & Hvm & _) Hsg].
  destruct (end_cur_run out sub (io_q s) l D F p r v vs I Hr Es Hv Hvm) as (more & r' & e & q' & Ee & U & I' & He & Hq).
  destruct (updated_round s r r' v vs more e Hdrv (proj2 (proj2 Hd)) Es Hv U) as (Hse & Hcp & Hsu & Hrd).
  set (s2 := mk_io q' (io_tfm s1) (io_dev s1) (io_mem s1)). exists d1, s2, more, r'. split.
  - split; simpl; try apply M; try done; [by exists (take 1 (rq_copies r)); split; [apply M|]|by exists e|]. intros _ x. rewrite Hse, Es. set_solver.
  - intros fuel. cbn [osurd_request_loop]. assert (on_q (@dq_get _ dq p) s = Ok (r, s)) as Eg.
    { unfold on_q, zoom. cbn [dq_get elv_driver]. unfold rq_get, the. rewrite Hr. simpl. by destruct s. }
    rewrite (bind_ok _ _ _ _ _ Eg), (do_fs _ _ Hdrv), En. cbn [negb]. rewrite (bind_ok _ _ _ _ _ (the_some _ _)), (bind_ok _ _ _ _ _ Et).
    assert (on_q (@__blk_end_request_cur _ dq p 0) s1 = Ok (more, s2)) as Ec.
    { unfold on_q, zoom. by rewrite (mv_q _ _ _ _ _ M), Ee. }
    by rewrite (bind_ok _ _ _ _ _ Ec).
Qed.

(** The requests [ws] have been done, one after the other, and the queue is empty but
    for the requests of the tasks and those at [F]. *)
Record stack_done (out sub : list Z) (F : list Z) (data : bytes) (s : osurd_st rqueue) (ws : list request)
    (data' : bytes) (s' : osurd_st rqueue) : Prop := {
  sd_dev : dev_ok (io_dev s') data';
  sd_q : queue_ok_at [] out sub (io_q s') [] [] F;
  sd_ended : q_ended (io_q s') = q_ended (io_q s) ++ mjoin (success <$> ws);
  sd_view : view data' s' ≡ do_copies (mjoin (rq_copies <$> ws)) (view data s)
}.

Lemma memory_ext (s s' : osurd_st rqueue) L :
  same_shape (io_mem s) (io_mem s') → (∀ q, q ∈ L → unmarked <$> q_rqs (io_q s') !! q = unmarked <$> q_rqs (io_q s) !! q) →
  memory_for s L → memory_for s' L.
Proof.
  intros Hsh E Hm q t Hq Ht. specialize (E q Hq). rewrite Ht in E. destruct (q_rqs (io_q s) !! q) as [t0|] eqn:E0; [|done]. apply (inj Some) in E.
  eapply Forall_impl; [|intros v; by apply seg_ok_shape]. pose proof (Hm q t0 Hq E0) as Hs.
  destruct (unmarked_fields t) as (_ & _ & _ & <-). destruct (unmarked_fields t0) as (_ & _ & _ & Ex). by rewrite E, Ex.
Qed.

Lemma done_step out sub F data s l D p r d1 s1 more r' ws d2 s2 :
  round_done out sub data s l D F p r d1 s1 more r' → stack_done out sub F d1 s1 ((if more then [r'] else []) ++ ws) d2 s2 →
  stack_done out sub F data s (r :: ws) d2 s2.
Proof.
  intros [_ _ _ (k & Hv & Hk) (e & He & Hs) _ _ _ _] [Hd Hq Hen Hvi]. split; [done|done|..]; csimpl.
  - rewrite Hen, He, Hs, <- !app_assoc. do 2 f_equal. destruct more; [by csimpl|done].
  - rewrite Hvi, Hv, <- do_copies_app, Hk, <- app_assoc. destruct more; by csimpl.
Qed.

(** The driver working at request [p] does it and all that wait. *)
Lemma stack_loop out sub F fuel : ∀ data s l D p r,
  dev_ok (io_dev s) data → cap * 512 ≤ dev_size (io_dev s) → queue_ok_at [] out sub (io_q s) l D (p :: F) → q_rqs (io_q s) !! p = Some r →
  memory_for s (p :: l ++ D) → (rounds r + sum_list (rounds <$> works (q_rqs (io_q s)) (l ++ D)) < fuel)%nat →
  ∃ data' s' order, @osurd_request_loop _ _ dq fuel (Some p) s = Ok (tt, s') ∧ order ≡ₚ works (q_rqs (io_q s)) (l ++ D) ∧
    stack_done out sub F data s (r :: order) data' s'.
Proof.
  induction fuel as [|fuel IH]; intros data s l D p r Hd Hc I Hr Hmem Hf; [lia|].
  assert (p ∉ l ++ D) as Hpl by (destruct (driver_only ops cap _ _ _ _ _ _ [] _ _ I) as (? & ? & _); set_solver).
  destruct (stack_round out sub data s l D F p r Hd Hc I Hr) as (d1 & s1 & more & r1 & R & El); [by apply (Hmem p); [set_solver|]|].
  pose proof R as [Hd1 Hz1 Hsh1 _ _ Hrd I1 Hq1 Hsg]. rewrite El.
  assert (memory_for s1 (l ++ D)) as Hmem1.
  { eapply (memory_ext s); [done| |intros q t Hq; apply Hmem; set_solver]. intros q Hq. rewrite Hq1. f_equal. assert (p ≠ q) by set_solver.
    destruct more; [by rewrite lookup_insert_ne|by rewrite lookup_delete_ne]. }
  assert (works (q_rqs (io_q s1)) (l ++ D) = works (q_rqs (io_q s)) (l ++ D)) as Ew.
  { rewrite Hq1. destruct more; [by apply works_other|by apply works_delete]. }
  destruct more.
  - destruct (IH d1 s1 l D p r1) as (d2 & s2 & order & E & Hp & Hdone); [done|lia|done|by rewrite Hq1, lookup_insert_eq| |rewrite Ew; lia|].
    { intros q t [->|Hq]%elem_of_cons Ht; [|by eapply Hmem1]. rewrite Hq1, lookup_insert_eq in Ht. injection Ht as <-.
      apply Forall_forall. intros v Hv. eapply seg_ok_shape; [exact Hsh1|]. pose proof (Hmem p r) as Hx. rewrite Forall_forall in Hx.
      apply Hx; [set_solver|done|by apply Hsg]. }
    exists d2, s2, order. rewrite Ew in Hp. split_and!; [done..|]. by eapply (done_step _ _ _ _ _ _ _ _ _ _ _ true).
  - destruct (fetch_run out sub (io_q s1) l D F I1) as (req & q2 & Ef & Hmk & HQ).
    set (s2 := mk_io q2 (io_tfm s1) (io_dev s1) (io_mem s1)).
    assert (on_q (@dq_fetch _ dq) s1 = Ok (req, s2)) as Eq by (unfold on_q, zoom; by rewrite Ef). rewrite (bind_ok _ _ _ _ _ Eq).
    destruct req as [p2|].
    + destruct HQ as (l2 & D2 & I2 & Hperm). destruct (driver_has ops cap _ _ _ _ _ _ [] _ _ I2) as (r2 & Hr2 & _).
      assert (works (q_rqs q2) (l ++ D) ≡ₚ unmarked r2 :: works (q_rqs q2) (l2 ++ D2)) as Ew2 by (rewrite <- Hperm; by apply works_mid).
      rewrite (works_marks _ _ _ Hmk), Ew in Ew2. destruct (unmarked_fields r2) as (Eu1 & Eu2 & Eu3 & _).
      destruct (IH d1 s2 l2 D2 p2 r2) as (d3 & s3 & order & E & Hp & [Hd3 Hq3 He3 Hv3]); [done|simpl; lia|done|done| | |].
      * assert (memory_for s2 (l ++ D)) as Hm2 by (eapply (memory_ext s1); [done| |done]; intros q _; rewrite <- !lookup_fmap; simpl; by destruct Hmk as [-> _]).
        intros q t Hq. apply Hm2. rewrite <- Hperm. set_solver.
      * rewrite Ew2 in Hf. csimpl in Hf. rewrite Eu3, Hrd in Hf. change (io_q s2) with q2. lia.
      * exists d3, s3, (unmarked r2 :: order). split_and!; [done|by rewrite Ew2, Hp|]. eapply (done_step _ _ _ _ _ _ _ _ _ d1 s1 false r1); [done|].
        destruct Hmk as [_ Hen]. split; [done|done|..]; csimpl in *; [by rewrite He3, Hen, Eu1|by rewrite Hv3, Eu2].
    + destruct HQ as (-> & -> & I2). destruct fuel as [|fuel]; [simpl in Hrd; lia|]. exists d1, s2, []. split_and!; [done|done|].
      eapply (done_step _ _ _ _ _ _ _ _ _ d1 s1 false r1); [done|]. destruct Hmk as [_ Hen]. split; simpl; [done|done|by rewrite Hen, app_nil_r|done].
Qed.

Lemma stack_request out sub F data s l D :
  dev_ok (io_dev s) data → cap * 512 ≤ dev_size (io_dev s) → queue_ok_at [] out sub (io_q s) l D F → memory_for s (l ++ D) →
  ∃ data' s' order, @osurd_request _ _ dq (S (sum_list (rounds <$> works (q_rqs (io_q s)) (l ++ D)))) s = Ok (tt, s') ∧
    order ≡ₚ works (q_rqs (io_q s)) (l ++ D) ∧ stack_done out sub F data s order data' s'.
Proof.
  intros Hd Hc I Hmem. destruct (fetch_run out sub (io_q s) l D F I) as (req & q2 & Ef & Hmk & HQ).
  set (s2 := mk_io q2 (io_tfm s) (io_dev s) (io_mem s)). unfold osurd_request.
  assert (on_q (@dq_fetch _ dq) s = Ok (req, s2)) as Eq by (unfold on_q, zoom; by rewrite Ef). rewrite (bind_ok _ _ _ _ _ Eq).
  pose proof Hmk as [_ Hen]. destruct req as [p|].
  - destruct HQ as (l2 & D2 & I2 & Hperm). destruct (driver_has ops cap _ _ _ _ _ _ [] _ _ I2) as (r2 & Hr2 & _).
    assert (works (q_rqs q2) (l ++ D) ≡ₚ unmarked r2 :: works (q_rqs q2) (l2 ++ D2)) as Ew2 by (rewrite <- Hperm; by apply works_mid).
    rewrite (works_marks _ _ _ Hmk) in Ew2. destruct (unmarked_fields r2) as (Eu1 & Eu2 & Eu3 & _).
    destruct (stack_loop out sub F (S (sum_list (rounds <$> works (q_rqs (io_q s)) (l ++ D)))) data s2 l2 D2 p r2) as (d3 & s3 & order & E & Hp & [Hd3 Hq3 He3 Hv3]); [done..| | |].
    + assert (memory_for s2 (l ++ D)) as Hm2 by (eapply (memory_ext s); [done| |done]; intros q _; rewrite <- !lookup_fmap; simpl; by destruct Hmk as [-> _]).
      intros q t Hq. apply Hm2. rewrite <- Hperm. set_solver.
    + rewrite Ew2. csimpl. rewrite Eu3. change (io_q s2) with q2. lia.
    + exists d3, s3, (unmarked r2 :: order). split_and!; [done|by rewrite Ew2, Hp|]. split; [done|done|..]; csimpl in *; [by rewrite He3, Hen, Eu1|by rewrite Hv3, Eu2].
  - destruct HQ as (-> & -> & I2). exists data, s2, []. split_and!; [done|done|]. split; simpl; [done|done|by rewrite Hen, app_nil_r|done].
Qed.

(** C8: The whole way from submission to disk.  In a state that tasks, any
    scheduler and driver reach, with no request plugged, held by a task or with the
    driver, and the pages of the waiting requests in memory: the simple request
    function of the RAM disk comes to an end within as many rounds as the requests
    have segments; every request is freed and every bio submitted has been refused
    or has ended, once; and disk and memory are as after the copies the requests
    ask for, one request after the other in some order. *)
Theorem osurd_on_elevator (rf : qM unit) (e : Z) (n : nat) (w : world) (data : bytes) (s : osurd_st rqueue) :
  request_fn_ok ops cap rf → nd_at ≠ head_at → sched_inv e 0 [] → rtc (run_step ops rf cap) (new_world e n) w →
  Forall (λ t, t_doing t = Idle ∧ plugged t = []) (w_tasks w) → (∀ p, with_driver (w_queue w) p = false) →
  io_q s = w_queue w → dev_ok (io_dev s) data → cap * 512 ≤ dev_size (io_dev s) →
  (∀ p r, q_rqs (w_queue w) !! p = Some r → Forall (seg_ok (io_mem s)) (rq_segs r)) →
  ∃ data' s' order, @osurd_request _ _ dq (S (sum_list (rounds <$> rq_list (q_rqs (w_queue w))))) s = Ok (tt, s') ∧
    order ≡ₚ unmarked <$> rq_list (q_rqs (w_queue w)) ∧ q_rqs (io_q s') = ∅ ∧
    w_submitted w ≡ₚ (w_refused w).*1 ++ (q_ended (io_q s')).*1 ∧
    q_ended (io_q s') = q_ended (w_queue w) ++ mjoin (success <$> order) ∧
    dev_ok (io_dev s') data' ∧ view data' s' ≡ do_copies (mjoin (rq_copies <$> order)) (view data s).
Proof.
  intros Hrf Hne Hi Hr Ht Hd Hq Hdev Hc Hmem.
  destruct (idle_world ops cap w (world_reachable_inv ops cap rf e n w Hrf Hne Hi Hr) Ht Hd) as (sub & l & D & I & Hs). rewrite <- Hq in I.
  destruct (stack_request [] sub [] data s l D Hdev Hc I) as (d' & s' & order & E & Hp & [Hd' Hq' He Hv]).
  { intros q t _. rewrite Hq. apply Hmem. }
  destruct (empty_queue ops cap _ _ Hq') as (E0 & _ & Bi).
  assert (works (q_rqs (io_q s)) (l ++ D) ≡ₚ unmarked <$> rq_list (q_rqs (w_queue w))) as Ew.
  { pose proof (qo_places _ _ _ _ _ _ _ _ _ I) as P. unfold works. rewrite rqs_at_all.
    - unfold rq_list. rewrite map_to_list_fmap, Hq, <- list_fmap_compose. by rewrite <- list_fmap_compose.
    - pose proof (pl_nodup _ _ _ _ _ _ _ _ P) as Hnd. by rewrite !app_nil_r in Hnd.
    - intros p. rewrite lookup_fmap, fmap_is_Some, <- (pl_all _ _ _ _ _ _ _ _ P). by rewrite !app_nil_r. }
  exists d', s', order. rewrite Ew in Hp, E. rewrite Hq in He. split_and!; try done; [|by rewrite Hs, Bi].
  rewrite <- list_fmap_compose in E. exact E.
Qed.
End Stack.

(** ** A run *)

(** A device of 2048 sectors of zeros and two pages, under the queue [q]. *)
Definition disk_io (q : rqueue) : @osurd_st (xor_cipher 5) rqueue :=
  @mk_io (xor_cipher 5) rqueue q (@mk_tfm (xor_cipher 5) 0 0)
    (mk_dev 1048576 (Some (replicate (Z.to_nat 1048576) 0))) {[1 := replicate 4096 7; 2 := replicate 4096 8]}.

Lemma disk_segs q : Forall (seg_ok (io_mem (disk_io q))) [mk_bvec 1 4096 0; mk_bvec 2 4096 0].
Proof.
  repeat apply Forall_cons_2; [..|apply Forall_nil_2]; (split_and!; [done..|exists 4096%nat; split; [vm_compute; done|done]]).
Qed.

Section Disk.
#[local] Existing Instances disk_limits disk_place disk_ok disk_far.

Lemma osurd_on_elevator_witness :
  ∃ w s', w_tasks w ≠ [] ∧ @osurd_request _ _ (elv_driver elevator_sstf) 3 (disk_io (w_queue w)) = Ok (tt, s') ∧ q_rqs (io_q s') = ∅.
Proof.
  destruct sstf_reads as (w & Hr & Ht & _ & Hd & _ & Hs). exists w.
  destruct (osurd_on_elevator elevator_sstf 2048 (mret tt) 0 2 w (replicate (Z.to_nat 1048576) 0) (disk_io (w_queue w))) as (d' & s' & order & E & _ & E0 & _).
  - apply idle_request_fn.
  - done.
  - done.
  - exact Hr.
  - rewrite Ht. repeat constructor.
  - exact Hd.
  - done.
  - split; [done|]. split; [|done]. rewrite length_replicate. by rewrite Z2Nat.id.
  - done.
  - intros p r Hp. assert (rq_segs r ∈ rq_segs <$> rq_list (q_rqs (w_queue w))) as Hin.
    { apply list_elem_of_fmap. exists r. split; [done|]. apply list_elem_of_fmap. exists (p, r). by rewrite elem_of_map_to_list. }
    rewrite Hs in Hin. apply list_elem_of_singleton in Hin. rewrite Hin. apply disk_segs.
  - exists s'. split_and!; [by rewrite Ht| |done]. rewrite <- E. do 2 f_equal.
    change (rounds <$> rq_list (q_rqs (w_queue w))) with ((λ vs : list bio_vec, Nat.max 1 (length vs)) ∘ rq_segs <$> rq_list (q_rqs (w_queue w))).
    by rewrite list_fmap_compose, Hs.
Defined.
End Disk.
