(* ===== verification/Threads.v ===== *)
(** * Threads and semaphores

    The concurrent programs are pools of threads over a shared state: each
    thread is at a program point, and a step of the pool is one atomic action
    of one thread.  Semaphores and mutexes are part of the shared state; an
    action that would block has no step.  The file has the lemmas the programs
    share: counting the threads at given points, and the exploration of finite
    pools, by which a property of all reachable states is checked by
    evaluation. *)

From S2P Require Import Prelude.

(** ** Semaphores and mutexes

    A semaphore is its value; [sem_wait] is possible when it is positive. *)

Definition sem_wait (n : nat) : option nat := match n with O => None | S n => Some n end.
Definition sem_post (n : nat) : nat := S n.

(** A mutex holds the thread that has it. *)
Definition mutex_lock (t : nat) (m : option nat) : option (option nat) :=
  match m with None => Some (Some t) | Some _ => None end.
Definition mutex_unlock (m : option nat) : option nat := None.

Lemma sem_wait_some n n' : sem_wait n = Some n' ↔ n = S n'.
Proof. destruct n; simpl; split; congruence. Qed.

Lemma mutex_lock_some t m m' : mutex_lock t m = Some m' ↔ m = None ∧ m' = Some t.
Proof. destruct m; simpl; naive_solver. Qed.

(** ** Pools *)

Section Pool.
Context {PC Sh : Type} (tstep : nat → PC → Sh → PC → Sh → Prop).

Definition pool : Type := list PC * Sh.

Inductive pstep : pool → pool → Prop :=
| pstep_at i pcs sh p p' sh' :
    pcs !! i = Some p → tstep i p sh p' sh' → pstep (pcs, sh) (<[i := p']> pcs, sh').

(** A pool in which no thread can move. *)
Definition stuck (s : pool) : Prop := ∀ s', ¬ pstep s s'.
End Pool.

(** ** Counting threads *)

Section Count.
Context {A : Type}.
Implicit Types (P : A → bool) (l : list A).

Fixpoint count P l : nat :=
  match l with [] => 0%nat | x :: l => ((if P x then 1 else 0) + count P l)%nat end.

Definition b2n (b : bool) : nat := if b then 1%nat else 0%nat.

Lemma count_insert P l i x y :
  l !! i = Some x → (count P (<[i := y]> l) + b2n (P x) = count P l + b2n (P y))%nat.
Proof.
  revert i. induction l as [|z l IH]; intros [|i] Hi; simpl in *; [done..| |].
  - injection Hi as ->. unfold b2n. lia.
  - specialize (IH i Hi). lia.
Qed.

Lemma count_pos P l i x : l !! i = Some x → P x = true → (0 < count P l)%nat.
Proof.
  revert i. induction l as [|z l IH]; intros [|i] Hi Hp; simpl in *; [done..| |].
  - injection Hi as ->. rewrite Hp. lia.
  - specialize (IH i Hi Hp). lia.
Qed.

Lemma count_ex P l : (0 < count P l)%nat → ∃ i x, l !! i = Some x ∧ P x = true.
Proof.
  induction l as [|z l IH]; simpl; [lia|]. destruct (P z) eqn:E; intros Hc.
  - by exists 0%nat, z.
  - destruct IH as (i & x & Hi & Hx); [lia|]. by exists (S i), x.
Qed.

Lemma count_le P l : (count P l ≤ length l)%nat.
Proof. induction l as [|z l IH]; simpl; [lia|]. destruct (P z); lia. Qed.

Lemma count_all P l : (∀ x, x ∈ l → P x = true) → count P l = length l.
Proof.
  induction l as [|z l IH]; intros H; [done|]. simpl. rewrite (H z) by left.
  rewrite IH; [done|]. intros x Hx. apply H. by right.
Qed.

Lemma count_full P l i x : count P l = length l → l !! i = Some x → P x = true.
Proof.
  revert i. induction l as [|z l IH]; intros [|i] Hc Hi; simpl in *; try done.
  - injection Hi as ->. pose proof (count_le P l). destruct (P x); [done|lia].
  - pose proof (count_le P l). destruct (P z); [|lia]. apply (IH i); [lia|done].
Qed.

Lemma count_zero P l i x : count P l = 0%nat → l !! i = Some x → P x = false.
Proof.
  intros Hc Hi. destruct (P x) eqn:E; [|done]. pose proof (count_pos P l i x Hi E). lia.
Qed.

Lemma count_two P l i j x y :
  i ≠ j → l !! i = Some x → l !! j = Some y → P x = true → P y = true → (2 ≤ count P l)%nat.
Proof.
  revert i j. induction l as [|z l IH]; intros [|i] [|j] Hne Hi Hj Hx Hy; simpl in *; try done.
  - injection Hi as ->. rewrite Hx. pose proof (count_pos P l j y Hj Hy). lia.
  - injection Hj as ->. rewrite Hy. pose proof (count_pos P l i x Hi Hx). lia.
  - specialize (IH i j ltac:(congruence) Hi Hj Hx Hy). lia.
Qed.

Lemma count_replicate P n x : count P (replicate n x) = (if P x then n else 0)%nat.
Proof. induction n; simpl; [by destruct (P x)|]. rewrite IHn. destruct (P x); lia. Qed.

Lemma count_split P Q l : (∀ x, P x = true → Q x = true) → (count P l ≤ count Q l)%nat.
Proof.
  intros H. induction l as [|z l IH]; simpl; [lia|]. specialize (H z). destruct (P z), (Q z); lia || naive_solver.
Qed.
End Count.

(** Sums of a measure over the threads. *)
Section Measure.
Context {A : Type} (f : A → nat).

Definition total (l : list A) : nat := sum_list (f <$> l).

Lemma total_insert l i x y :
  l !! i = Some x → (total (<[i := y]> l) + f x = total l + f y)%nat.
Proof.
  unfold total. revert i. induction l as [|z l IH]; intros [|i] Hi; csimpl; try done.
  - simpl in Hi. injection Hi as ->. lia.
  - specialize (IH i Hi). lia.
Qed.

Lemma total_pos l i x : l !! i = Some x → (f x ≤ total l)%nat.
Proof.
  unfold total. revert i. induction l as [|z l IH]; intros [|i] Hi; csimpl; try done.
  - simpl in Hi. injection Hi as ->. lia.
  - specialize (IH i Hi). lia.
Qed.

Lemma total_ex l : (0 < total l)%nat → ∃ j y, l !! j = Some y ∧ (0 < f y)%nat.
Proof.
  unfold total. induction l as [|z l IH]; csimpl; [lia|]. intros Ht.
  destruct (decide (0 < f z)%nat) as [Hz|Hz]; [by exists 0%nat, z|].
  destruct IH as (j & y & Hj & Hy); [lia|]. by exists (S j), y.
Qed.

Lemma total_other l i x :
  l !! i = Some x → (f x < total l)%nat → ∃ j y, j ≠ i ∧ l !! j = Some y ∧ (0 < f y)%nat.
Proof.
  unfold total. revert i. induction l as [|z l IH]; intros [|i] Hi; csimpl; try done; intros Ht.
  - simpl in Hi. injection Hi as ->. destruct (total_ex l) as (j & y & Hj & Hy); [unfold total; lia|].
    by exists (S j), y.
  - destruct (decide (0 < f z)%nat) as [Hz|Hz]; [by exists 0%nat, z|].
    destruct (IH i Hi) as (j & y & Hne & Hj & Hy); [lia|]. exists (S j), y. split; [lia|done].
Qed.

Lemma total_two l i j x y :
  i ≠ j → l !! i = Some x → l !! j = Some y → (f x + f y ≤ total l)%nat.
Proof.
  revert i j. induction l as [|z l IH]; intros [|i] [|j] Hne Hi Hj; simpl in Hi, Hj; try done.
  - injection Hi as ->. pose proof (total_pos l j y Hj). unfold total in *. csimpl. lia.
  - injection Hj as ->. pose proof (total_pos l i x Hi). unfold total in *. csimpl. lia.
  - specialize (IH i j ltac:(congruence) Hi Hj). unfold total in *. csimpl. lia.
Qed.
End Measure.

(** ** Termination *)

Section Terminate.
Context {S : Type} (step : S → S → Prop) (mu : S → nat).

(** Every run from [s] comes to an end. *)
Definition terminates (s : S) : Prop := Acc (λ t s, step s t) s.

Lemma measure_terminates (I : S → Prop) :
  (∀ s t, I s → step s t → I t) → (∀ s t, I s → step s t → (mu t < mu s)%nat) → ∀ s, I s → terminates s.
Proof.
  intros Hi Hm s Hs. remember (mu s) as n eqn:En. revert s Hs En.
  induction (lt_wf n) as [n _ IH]. intros s Hs ->. constructor. intros t Ht.
  apply (IH (mu t)); [by apply Hm|by eapply Hi|done].
Qed.

(** A run that comes to an end does so in a state without steps. *)
Lemma terminates_final (P : S → Prop) s :
  (∀ t, rtc step s t → P t ∨ ∃ t', step t t') → terminates s → ∃ t, rtc step s t ∧ P t.
Proof.
  intros Hp Ht. induction Ht as [s _ IH]. destruct (Hp s (rtc_refl _ _)) as [HP|[t Hst]]; [by exists s; split|].
  destruct (IH t Hst) as (u & Hu & HPu).
  - intros v Hv. apply Hp. by eapply rtc_l.
  - exists u. split; [by eapply rtc_l|done].
Qed.
End Terminate.

(** ** Exploration of finite systems *)

Section Explore.
Context {S : Type} `{Countable S} (succs : S → list S).

(** Breadth-first search: the states found, or [None] if the fuel was too
    small. *)
Fixpoint explore (fuel : nat) (todo : list S) (seen : gset S) : option (gset S) :=
  match todo with
  | [] => Some seen
  | s :: todo =>
      match fuel with
      | O => None
      | Datatypes.S fuel =>
          if decide (s ∈ seen) then explore fuel todo seen
          else explore fuel (succs s ++ todo) ({[s]} ∪ seen)
      end
  end.

(** The result contains everything it started from and is closed. *)
Lemma explore_closed fuel : ∀ todo seen X,
  explore fuel todo seen = Some X →
  (∀ s, s ∈ seen → ∀ t, t ∈ succs s → t ∈ seen ∨ t ∈ todo) →
  (∀ s, s ∈ todo → s ∈ X) ∧ seen ⊆ X ∧ ∀ s, s ∈ X → ∀ t, t ∈ succs s → t ∈ X.
Proof.
  induction fuel as [|fuel IH]; intros [|s todo] seen X E Hc; simpl in E; simplify_eq.
  - split_and!; [set_solver|done|]. intros s Hs t Ht. destruct (Hc s Hs t Ht); set_solver.
  - split_and!; [set_solver|done|]. intros s Hs t Ht. destruct (Hc s Hs t Ht); set_solver.
  - case_decide as Hin.
    + destruct (IH _ _ _ E) as (H1 & H2 & H3).
      { intros u Hu t Ht. destruct (Hc u Hu t Ht) as [|[->|]%elem_of_cons]; auto. }
      split_and!; [|done|done]. intros u [->|Hu]%elem_of_cons; auto.
    + destruct (IH _ _ _ E) as (H1 & H2 & H3).
      { intros u Hu t Ht. apply elem_of_union in Hu as [->%elem_of_singleton|Hu].
        - right. apply elem_of_app. by left.
        - destruct (Hc u Hu t Ht) as [?|[->|?]%elem_of_cons]; [left; set_solver|left; set_solver|].
          right. apply elem_of_app. by right. }
      split_and!; [|set_solver|done]. intros u [->|Hu]%elem_of_cons; [set_solver|].
      apply H1, elem_of_app. by right.
Qed.

(** Every state reachable by successors is among the states explored. *)
Lemma explore_reachable fuel init X s :
  explore fuel [init] ∅ = Some X → reachable (λ s, s = init) (λ s t, t ∈ succs s) s → s ∈ X.
Proof.
  intros E Hr. destruct (explore_closed _ _ _ _ E) as (H1 & _ & H3); [set_solver|].
  induction Hr as [s ->|s t _ IH Hs]; [apply H1; set_solver|by eapply H3].
Qed.

(** A property checked on the states explored holds of all reachable states. *)
Lemma explore_inv fuel init (P : S → bool) s :
  match explore fuel [init] ∅ with Some X => forallb P (elements X) | None => false end = true →
  reachable (λ s, s = init) (λ s t, t ∈ succs s) s → P s = true.
Proof.
  intros E Hr. destruct (explore fuel [init] ∅) as [X|] eqn:Ex; [|done].
  rewrite forallb_forall in E. apply E, list_elem_of_In, elem_of_elements. by eapply explore_reachable.
Qed.
End Explore.
