(* ===== verification/Buffer.v ===== *)
(** * Producer and consumer (concurrency1/buffer_lib.c, concurrency1/model.c)

    The bounded buffer is a stack in an array; the program runs a producer and
    a consumer of it, each for a fixed number of rounds, under a mutex.  The
    theorems show that the buffer implements a bounded stack, and that in every
    interleaving no element is lost or made up, the buffer never overflows, and
    the program comes to its end. *)

From S2P Require Import Prelude Threads.

Record Element := mk_element { value : Z; wait_time : Z }.

(** [array] is absent for a null pointer; [size] and [used] are [size_t]. *)
Record Buffer := mk_buffer { array : option (list Element); size : Z; used : Z }.

#[export] Instance Element_eq_dec : EqDecision Element.
Proof. solve_decision. Defined.

(** ** The buffer *)

(** [mem] is what [malloc] returned: nothing, or [init_size] elements of
    unknown contents. *)
Definition init_b (mem : option (list Element)) (init_size : Z) : Buffer := mk_buffer mem (u64 init_size) 0.

Definition free_b (b : Buffer) : Buffer := mk_buffer None 0 0.

(** The lines printed, one per element: its number and its fields. *)
Fixpoint print_from (fuel : nat) (b : Buffer) (i : Z) : outcome (list (Z * Element)) :=
  match fuel with
  | O => Spin
  | S fuel =>
      if i <? used b then
        match array b with
        | None => Fault
        | Some a =>
            match a !! Z.to_nat i, print_from fuel b (i + 1) with
            | Some e, Ok l => Ok ((i + 1, e) :: l)
            | None, _ => Fault
            | _, o => o
            end
        end
      else Ok []
  end.
Definition print_b (b : Buffer) : outcome (list (Z * Element)) :=
  if used b =? 0 then Ok [] else print_from (S (Z.to_nat (used b))) b 0.

Definition insert_b (b : Buffer) (e : Element) : outcome (bool * Buffer) :=
  if used b =? size b then Ok (false, b)
  else
    match array b with
    | None => Fault
    | Some a =>
        if used b <? Z.of_nat (length a)
        then Ok (true, mk_buffer (Some (<[Z.to_nat (used b) := e]> a)) (size b) (u64 (used b + 1)))
        else Fault
    end.

(** [e] is the caller's element, overwritten when there is one to remove. *)
Definition remove_b (b : Buffer) (e : Element) : outcome (bool * Buffer * Element) :=
  if used b =? 0 then Ok (false, b, e)
  else
    match array b with
    | None => Fault
    | Some a =>
        let i := Z.to_nat (used b - 1) in
        match a !! i with
        | None => Fault
        | Some e => Ok (true, mk_buffer (Some (<[i := mk_element 0 0]> a)) (size b) (used b - 1), e)
        end
    end.

(** A buffer with its array, and the elements in it from the bottom up. *)
Definition buffer_ok (b : Buffer) : Prop :=
  ∃ a, array b = Some a ∧ size b = Z.of_nat (length a) ∧ 0 ≤ used b ≤ size b ∧ size b < 2 ^ 32.
Definition contents (b : Buffer) : list Element := take (Z.to_nat (used b)) (default [] (array b)).

Lemma init_b_ok mem n :
  0 ≤ n < 2 ^ 31 → length mem = Z.to_nat n →
  buffer_ok (init_b (Some mem) n) ∧ contents (init_b (Some mem) n) = [] ∧ size (init_b (Some mem) n) = n.
Proof.
  intros Hn Hl. unfold init_b, contents, buffer_ok. simpl. rewrite u64_id by lia.
  split_and!; [|done|done]. exists mem. split_and!; [done|lia|lia|lia|lia].
Qed.

Lemma contents_length b : buffer_ok b → length (contents b) = Z.to_nat (used b).
Proof.
  intros (a & Ha & Hs & Hu & _). unfold contents. rewrite Ha. simpl. rewrite length_take. lia.
Qed.

Lemma insert_b_ok b e :
  buffer_ok b →
  if decide (used b = size b) then insert_b b e = Ok (false, b)
  else ∃ b', insert_b b e = Ok (true, b') ∧ buffer_ok b' ∧ size b' = size b ∧ contents b' = contents b ++ [e].
Proof.
  intros (a & Ha & Hs & Hu & H32). unfold insert_b. case_decide as Hd.
  - by rewrite (proj2 (Z.eqb_eq _ _) Hd).
  - destruct (Z.eqb_spec (used b) (size b)); [done|]. rewrite Ha.
    destruct (Z.ltb_spec (used b) (Z.of_nat (length a))); [|lia]. rewrite u64_id by lia.
    eexists. split; [reflexivity|]. split_and!.
    + eexists. split; [reflexivity|]. simpl. rewrite length_insert. lia.
    + done.
    + unfold contents. simpl. rewrite Ha. simpl.
      replace (Z.to_nat (used b + 1)) with (S (Z.to_nat (used b))) by lia.
      rewrite (take_S_r _ _ e) by (apply list_lookup_insert_eq; lia). by rewrite take_insert_ge by lia.
Qed.

Lemma remove_b_ok b e :
  buffer_ok b →
  match last (contents b) with
  | None => remove_b b e = Ok (false, b, e)
  | Some x => ∃ b', remove_b b e = Ok (true, b', x) ∧ buffer_ok b' ∧ size b' = size b ∧
                contents b = contents b' ++ [x]
  end.
Proof.
  intros Hok. pose proof (contents_length b Hok) as Hl. destruct Hok as (a & Ha & Hs & Hu & H32).
  unfold remove_b. destruct (Z.eqb_spec (used b) 0) as [H0|H0].
  - rewrite H0 in Hl. by apply nil_length_inv in Hl as ->.
  - assert (is_Some (a !! Z.to_nat (used b - 1))) as [x Hx] by (apply lookup_lt_is_Some; lia).
    assert (contents b = take (Z.to_nat (used b - 1)) a ++ [x]) as Hc.
    { unfold contents. rewrite Ha. simpl. rewrite <- (take_S_r _ _ _ Hx). f_equal. lia. }
    rewrite Hc, last_snoc, Ha, Hx. eexists. split; [reflexivity|]. split_and!.
    + eexists. split; [reflexivity|]. simpl. rewrite length_insert. lia.
    + done.
    + unfold contents. simpl. by rewrite take_insert_ge by lia.
Qed.

(** Bounded stacks: what the buffer promises. *)
Definition push (n : Z) (l : list Element) (e : Element) : bool * list Element :=
  if Z.of_nat (length l) <? n then (true, l ++ [e]) else (false, l).
Definition pop (l : list Element) (e : Element) : bool * list Element * Element :=
  match last l with Some x => (true, removelast l, x) | None => (false, l, e) end.

(** The buffer is a bounded stack: inserting and removing never fault on a
    buffer that was initialised, keep it well formed, and are push and pop on
    its contents, a full buffer refusing the insertion and an empty one leaving
    the caller's element alone. *)
Theorem buffer_refines_stack b e :
  buffer_ok b →
  (∃ b', insert_b b e = Ok ((push (size b) (contents b) e).1, b') ∧ buffer_ok b' ∧ size b' = size b ∧
     contents b' = (push (size b) (contents b) e).2) ∧
  (∃ b', remove_b b e = Ok ((pop (contents b) e).1.1, b', (pop (contents b) e).2) ∧ buffer_ok b' ∧
     size b' = size b ∧ contents b' = (pop (contents b) e).1.2).
Proof.
  intros Hok. pose proof (contents_length b Hok) as Hl. pose proof Hok as (a & _ & _ & Hu & _). split.
  - pose proof (insert_b_ok b e Hok) as Hi. unfold push.
    case_decide as Hd; destruct (Z.ltb_spec (Z.of_nat (length (contents b))) (size b)); try lia.
    + by exists b.
    + destruct Hi as (b' & E & ? & ? & ?). by exists b'.
  - pose proof (remove_b_ok b e Hok) as Hr. unfold pop. destruct (last (contents b)) as [x|].
    + destruct Hr as (b' & E & ? & ? & Hc). exists b'. split_and!; [done|done|done|]. simpl.
      by rewrite Hc, removelast_last.
    + by exists b.
Qed.

(** The lines [print_b] prints are the contents, numbered from one. *)
Lemma print_b_ok b :
  buffer_ok b → print_b b = Ok (imap (λ i e, (Z.of_nat i + 1, e)) (contents b)).
Proof.
  intros Hok. pose proof Hok as (a & Ha & Hs & Hu & H32). unfold print_b, contents. rewrite Ha.
  change (default [] (Some a)) with a.
  assert (∀ k fuel, (k < fuel)%nat → (k ≤ Z.to_nat (used b))%nat →
    print_from fuel b (used b - Z.of_nat k) =
    Ok (imap (λ i e, (used b - Z.of_nat k + Z.of_nat i + 1, e)) (drop (Z.to_nat (used b) - k) (take (Z.to_nat (used b)) a))))
    as Hp.
  { induction k as [|k IH]; intros [|fuel] Hf Hk; try lia; simpl.
    - rewrite Z.sub_0_r. rewrite Z.ltb_irrefl, Nat.sub_0_r, drop_ge by (rewrite length_take; lia). done.
    - destruct (Z.ltb_spec (used b - Z.of_nat (S k)) (used b)); [|lia]. rewrite Ha.
      assert (is_Some (a !! Z.to_nat (used b - Z.of_nat (S k)))) as [e He] by (apply lookup_lt_is_Some; lia).
      rewrite He. replace (used b - Z.of_nat (S k) + 1) with (used b - Z.of_nat k) by lia.
      rewrite IH by lia. f_equal.
      rewrite (drop_S _ e (Z.to_nat (used b) - S k)).
      2: { rewrite lookup_take_lt by lia. rewrite <- He. f_equal. lia. }
      rewrite imap_cons. f_equal; [f_equal; lia|].
      replace (S (Z.to_nat (used b) - S k))%nat with (Z.to_nat (used b) - k)%nat by lia.
      apply imap_ext. intros i x _. simpl. f_equal. lia. }
  destruct (Z.eqb_spec (used b) 0) as [H0|H0]; [by rewrite H0|].
  specialize (Hp (Z.to_nat (used b)) (S (Z.to_nat (used b))) ltac:(lia) ltac:(lia)).
  rewrite Z2Nat.id, Z.sub_diag, Nat.sub_diag, drop_0 in Hp by lia. rewrite Hp. f_equal.
Qed.

(** ** The program *)

Definition LIMITER : Z := 20.
Definition BUF_SIZE : Z := 32.

(** [abs] of the C library on [int]: the most negative value is its own. *)
Definition c_abs (x : Z) : Z := s32 (Z.abs x).
Definition int_range (x : Z) : Prop := - 2 ^ 31 ≤ x < 2 ^ 31.

(** The element a producer makes of two random numbers. *)
Definition new_element (v w : Z) : Element := mk_element v (Z.rem (c_abs w) 9 + 2).

Inductive main_pc := M_create_p | M_create_c | M_join_p | M_join_c | M_print | M_free | M_ret (code : Z).
Inductive prod_pc :=
| P_start | P_loop (step : Z) | P_lock (step : Z) (e : Element) | P_insert (step : Z) (e : Element)
| P_unlock (step : Z) | P_done.
Inductive cons_pc :=
| C_start | C_loop (step : Z) | C_lock (step : Z) (e : Element) | C_remove (step : Z) (e : Element)
| C_unlock (step : Z) (e : Element) | C_use (step : Z) (e : Element) | C_done.

#[export] Instance prod_pc_eq_dec : EqDecision prod_pc.
Proof. solve_decision. Defined.
#[export] Instance cons_pc_eq_dec : EqDecision cons_pc.
Proof. solve_decision. Defined.

(** The buffer, the mutex with its holder, and the history: the elements
    produced, refused by a full buffer, and removed; the lines printed at the
    end. *)
Record shared := mk_shared {
  s_buf : Buffer; s_mutex : option nat;
  produced : list Element; refused : list Element; removed : list Element; printed : list (Z * Element)
}.

Record state := mk_state { s_main : main_pc; s_prod : prod_pc; s_cons : cons_pc; s_sh : shared }.

Definition set_mutex (m : option nat) (s : shared) : shared :=
  mk_shared (s_buf s) m (produced s) (refused s) (removed s) (printed s).

(** The producer. *)
Inductive prod_step : prod_pc → shared → prod_pc → shared → Prop :=
| P_enter step v w s :
    step < LIMITER → int_range v → int_range w →
    prod_step (P_loop step) s (P_lock (step + 1) (new_element v w)) s
| P_leave step s : LIMITER ≤ step → prod_step (P_loop step) s P_done s
| P_take step e s m : mutex_lock 1 (s_mutex s) = Some m → prod_step (P_lock step e) s (P_insert step e) (set_mutex m s)
| P_put step e s ok b : insert_b (s_buf s) e = Ok (ok, b) →
    prod_step (P_insert step e) s (P_unlock step)
      (mk_shared b (s_mutex s) (produced s ++ [e]) (if ok : bool then refused s else refused s ++ [e]) (removed s) (printed s))
| P_release step s : prod_step (P_unlock step) s (P_loop step) (set_mutex (mutex_unlock (s_mutex s)) s).

(** The consumer; its element starts with the value -1. *)
Inductive cons_step : cons_pc → shared → cons_pc → shared → Prop :=
| C_enter step w s : step < LIMITER → cons_step (C_loop step) s (C_lock (step + 1) (mk_element (-1) w)) s
| C_leave step s : LIMITER ≤ step → cons_step (C_loop step) s C_done s
| C_take step e s m : mutex_lock 2 (s_mutex s) = Some m → cons_step (C_lock step e) s (C_remove step e) (set_mutex m s)
| C_get step e s ok b x : remove_b (s_buf s) e = Ok (ok, b, x) →
    cons_step (C_remove step e) s (C_unlock step x)
      (mk_shared b (s_mutex s) (produced s) (refused s) (if ok : bool then removed s ++ [x] else removed s) (printed s))
| C_release step e s : cons_step (C_unlock step e) s (C_use step e) (set_mutex (mutex_unlock (s_mutex s)) s)
| C_sleep step e s : cons_step (C_use step e) s (C_loop step) s.

(** The whole program; when [main] returns, the process ends. *)
Inductive step : state → state → Prop :=
| S_create_p p c s : p = P_start → step (mk_state M_create_p p c s) (mk_state M_create_c (P_loop 0) c s)
| S_create_p_err p c s : step (mk_state M_create_p p c s) (mk_state (M_ret 1) p c s)
| S_create_c p c s : c = C_start → step (mk_state M_create_c p c s) (mk_state M_join_p p (C_loop 0) s)
| S_create_c_err p c s : step (mk_state M_create_c p c s) (mk_state (M_ret 2) p c s)
| S_join_p c s : step (mk_state M_join_p P_done c s) (mk_state M_join_c P_done c s)
| S_join_c p s : step (mk_state M_join_c p C_done s) (mk_state M_print p C_done s)
| S_print p c s l : print_b (s_buf s) = Ok l →
    step (mk_state M_print p c s)
         (mk_state M_free p c (mk_shared (s_buf s) (s_mutex s) (produced s) (refused s) (removed s) l))
| S_free p c s :
    step (mk_state M_free p c s)
         (mk_state (M_ret 0) p c (mk_shared (free_b (s_buf s)) (s_mutex s) (produced s) (refused s) (removed s) (printed s)))
| S_prod m p c s p' s' : (∀ k, m ≠ M_ret k) → prod_step p s p' s' → step (mk_state m p c s) (mk_state m p' c s')
| S_cons m p c s c' s' : (∀ k, m ≠ M_ret k) → cons_step c s c' s' → step (mk_state m p c s) (mk_state m p c' s').

(** [main] has called [init_b]; [mem] is the array [malloc] gave it (the runs in
    which it gave none are not considered). *)
Definition initial (s : state) : Prop :=
  ∃ mem, length mem = 32%nat ∧
    s = mk_state M_create_p P_start C_start (mk_shared (init_b (Some mem) BUF_SIZE) None [] [] [] []).

(** ** Every interleaving *)

(** Rounds a producer has completed. *)
Definition rounds_done (p : prod_pc) : Z :=
  match p with
  | P_start => 0 | P_loop k => k | P_lock k _ => k - 1 | P_insert k _ => k - 1 | P_unlock k => k | P_done => LIMITER
  end.

Definition prod_range (p : prod_pc) : Prop :=
  match p with
  | P_loop k => 0 ≤ k ≤ LIMITER
  | P_lock k _ | P_insert k _ | P_unlock k => 1 ≤ k ≤ LIMITER
  | _ => True
  end.
Definition cons_range (c : cons_pc) : Prop :=
  match c with
  | C_loop k => 0 ≤ k ≤ LIMITER
  | C_lock k _ | C_remove k _ | C_unlock k _ | C_use k _ => 1 ≤ k ≤ LIMITER
  | _ => True
  end.

Definition prod_crit (p : prod_pc) : bool := match p with P_insert _ _ | P_unlock _ => true | _ => false end.
Definition cons_crit (c : cons_pc) : bool := match c with C_remove _ _ | C_unlock _ _ => true | _ => false end.

(** Threads exist once [main] has created them, and are done when joined. *)
Definition phase (m : main_pc) (p : prod_pc) (c : cons_pc) : Prop :=
  match m with
  | M_create_p => p = P_start ∧ c = C_start
  | M_create_c => p ≠ P_start ∧ c = C_start
  | M_join_p => p ≠ P_start ∧ c ≠ C_start
  | M_join_c => p = P_done ∧ c ≠ C_start
  | M_print | M_free => p = P_done ∧ c = C_done
  | M_ret k => k = 0 → p = P_done ∧ c = C_done
  end.

Definition locks (p : prod_pc) (c : cons_pc) (m : option nat) : Prop :=
  match m with
  | None => prod_crit p = false ∧ cons_crit c = false
  | Some i => (i = 1%nat ∧ prod_crit p = true ∧ cons_crit c = false) ∨ (i = 2%nat ∧ prod_crit p = false ∧ cons_crit c = true)
  end.

(** What the program keeps true while it runs. *)
Record running (s : shared) (p : prod_pc) : Prop := {
  ru_buf : buffer_ok (s_buf s);
  ru_size : size (s_buf s) = BUF_SIZE;
  ru_refused : refused s = [];
  ru_count : Z.of_nat (length (produced s)) = rounds_done p;
  ru_perm : produced s ≡ₚ contents (s_buf s) ++ removed s
}.

Definition at_end (s : state) : Prop := ∃ k, s_main s = M_ret k.

(** At the normal end the lines printed are what was in the buffer. *)
Definition result_ok (s : shared) : Prop :=
  Z.of_nat (length (produced s)) = LIMITER ∧ refused s = [] ∧
  ∃ l, produced s ≡ₚ l ++ removed s ∧ printed s = imap (λ i e, (Z.of_nat i + 1, e)) l.

Record inv (s : state) : Prop := {
  in_prod : prod_range (s_prod s);
  in_cons : cons_range (s_cons s);
  in_phase : phase (s_main s) (s_prod s) (s_cons s);
  in_locks : locks (s_prod s) (s_cons s) (s_mutex (s_sh s));
  in_run : s_main s ≠ M_ret 0 → running (s_sh s) (s_prod s);
  in_free : s_main s = M_free → printed (s_sh s) = imap (λ i e, (Z.of_nat i + 1, e)) (contents (s_buf (s_sh s)));
  in_result : s_main s = M_ret 0 → result_ok (s_sh s)
}.

Lemma prod_step_inv m p c s p' s' :
  (∀ k, m ≠ M_ret k) → inv (mk_state m p c s) → prod_step p s p' s' → inv (mk_state m p' c s').
Proof.
  intros Hm [Hp Hc Hph Hl Hr Hf _] Hs. assert (m ≠ M_ret 0) as Hm0 by done. specialize (Hr Hm0). simpl in *.
  assert (p ≠ P_start ∧ (m = M_create_c ∨ m = M_join_p) → phase m p' c) as Hph'.
  { intros [? [-> | ->]]; simpl in *; (split; [|tauto]); by inversion Hs. }
  assert (m = M_create_c ∨ m = M_join_p) as Hmm.
  { destruct m; simpl in *; try tauto; [|destruct Hph as [-> _]..|by specialize (Hm code)]; try by inversion Hs.
    destruct Hph as [-> _]. by inversion Hs. }
  assert (∀ q : Prop, m = M_free → q) as Hnf by (intros q ->; destruct Hmm; done).
  assert (phase m p' c) as Hph2. { apply Hph'. split; [intros ->; by inversion Hs|done]. }
  pose proof Hr as [Hb Hsz Href Hcnt Hperm].
  inversion Hs; subst; simpl in *; unfold LIMITER in *;
    (split; simpl; [try unfold LIMITER; lia || done|done|done| | |by apply Hnf|done]).
  - done.
  - intros _. split; simpl; [done..|lia|done].
  - done.
  - intros _. split; simpl; [done..|unfold LIMITER; lia|done].
  - destruct (s_mutex s); simpl in *; simplify_eq. left. tauto.
  - intros _. by split.
  - destruct (s_mutex s); simpl in *; tauto.
  - intros _. pose proof (insert_b_ok (s_buf s) e Hb) as Hi. pose proof (contents_length _ Hb) as Hlen.
    assert (length (contents (s_buf s)) ≤ length (produced s))%nat as Hle by (rewrite Hperm, length_app; lia).
    case_decide as Hd; [exfalso; pose proof Hb as (? & _ & _ & ? & _); unfold BUF_SIZE in *; lia|].
    destruct Hi as (b' & E & Hb' & Hs' & Hc'). rewrite E in *. simplify_eq. split; simpl; [done|congruence|done| |].
    + rewrite length_app. simpl. lia.
    + rewrite Hc', Hperm. by rewrite <- !app_assoc, (Permutation_app_comm (removed s)).
  - destruct (s_mutex s) as [i|]; simpl in *; naive_solver.
  - intros _. by split.
Qed.

Lemma cons_step_inv m p c s c' s' :
  (∀ k, m ≠ M_ret k) → inv (mk_state m p c s) → cons_step c s c' s' → inv (mk_state m p c' s').
Proof.
  intros Hm [Hp Hc Hph Hl Hr Hf _] Hs. assert (m ≠ M_ret 0) as Hm0 by done. specialize (Hr Hm0). simpl in *.
  assert (c ≠ C_start ∧ c ≠ C_done ∧ c' ≠ C_start) as (Hc1 & Hc2 & Hc3) by (by inversion Hs).
  assert (phase m p c') as Hph2 by (destruct m; simpl in *; try tauto; by specialize (Hm code)).
  assert (∀ q : Prop, m = M_free → q) as Hnf by (intros q ->; simpl in *; tauto).
  pose proof Hr as [Hb Hsz Href Hcnt Hperm].
  inversion Hs; subst; simpl in *; unfold LIMITER in *;
    (split; simpl; [done|try unfold LIMITER; lia || done|done| | |by apply Hnf|done]).
  - done.
  - done.
  - done.
  - done.
  - destruct (s_mutex s); simpl in *; simplify_eq. right. tauto.
  - intros _. by split.
  - destruct (s_mutex s); simpl in *; tauto.
  - intros _. pose proof (remove_b_ok (s_buf s) e Hb) as Hi.
    destruct (last (contents (s_buf s))) as [y|] eqn:El.
    + destruct Hi as (b' & E & Hb' & Hs' & Hc'). rewrite E in *. simplify_eq. split; simpl; [done|congruence|done|done|].
      rewrite Hperm, Hc', <- app_assoc. f_equiv. apply Permutation_cons_append.
    + rewrite Hi in *. simplify_eq. by split.
  - destruct (s_mutex s) as [i|]; simpl in *; naive_solver.
  - intros _. by split.
  - done.
  - done.
Qed.

Lemma inv_step s s' : inv s → step s s' → inv s'.
Proof.
  intros HI Hs. inversion Hs; subst; clear Hs; try (by eapply prod_step_inv); try (by eapply cons_step_inv);
    destruct HI as [Hp Hc Hph Hl Hr Hf Hres]; simpl in *.
  - split; simpl; [unfold LIMITER; lia|done|naive_solver|done| |done|done].
    intros _. destruct (Hr ltac:(done)) as []. split; try done.
  - split; simpl; try done. intros _. by apply Hr.
  - split; simpl; [done|unfold LIMITER; lia|naive_solver|done| |done|done]. intros _. by apply Hr.
  - split; simpl; try done. intros _. by apply Hr.
  - split; simpl; try done; [naive_solver|]. intros _. by apply Hr.
  - split; simpl; try done; [naive_solver|]. intros _. by apply Hr.
  - destruct (Hr ltac:(done)) as [Hb Hsz Href Hcnt Hperm]. split; simpl; try done.
    intros _. rewrite print_b_ok in * by done. by simplify_eq.
  - destruct (Hr ltac:(done)) as [Hb Hsz Href Hcnt Hperm]. destruct Hph as [-> ->].
    split; simpl; try done. intros _. split_and!; [done|done|]. eexists. split; [exact Hperm|]. by apply Hf.
Qed.

Lemma reachable_inv_ok s : reachable initial step s → inv s.
Proof.
  apply reachable_inv; [|intros t t' _; apply inv_step]. intros t (mem & Hl & ->).
  destruct (init_b_ok mem BUF_SIZE) as (Hb & Hc & Hz); [unfold BUF_SIZE; lia|by rewrite Hl|].
  split; simpl; done.
Qed.

(** *** Progress and termination *)

Definition prod_left (p : prod_pc) : nat :=
  match p with
  | P_start => 100 | P_loop k => 4 * Z.to_nat (LIMITER - k) + 1
  | P_lock k _ => 4 * Z.to_nat (LIMITER - k) + 4 | P_insert k _ => 4 * Z.to_nat (LIMITER - k) + 3
  | P_unlock k => 4 * Z.to_nat (LIMITER - k) + 2 | P_done => 0
  end.
Definition cons_left (c : cons_pc) : nat :=
  match c with
  | C_start => 110 | C_loop k => 5 * Z.to_nat (LIMITER - k) + 1
  | C_lock k _ => 5 * Z.to_nat (LIMITER - k) + 5 | C_remove k _ => 5 * Z.to_nat (LIMITER - k) + 4
  | C_unlock k _ => 5 * Z.to_nat (LIMITER - k) + 3 | C_use k _ => 5 * Z.to_nat (LIMITER - k) + 2 | C_done => 0
  end.
Definition main_left (m : main_pc) : nat :=
  match m with
  | M_create_p => 6 | M_create_c => 5 | M_join_p => 4 | M_join_c => 3 | M_print => 2 | M_free => 1 | M_ret _ => 0
  end.
Definition left (s : state) : nat := (main_left (s_main s) + prod_left (s_prod s) + cons_left (s_cons s))%nat.

Lemma step_left s s' : inv s → step s s' → (left s' < left s)%nat.
Proof.
  intros [Hp Hc _ _ _ _ _] Hs. unfold left. inversion Hs; subst; simpl in *; try (unfold LIMITER; lia).
  - match goal with H : prod_step _ _ _ _ |- _ => inversion H; subst; simpl in *; unfold LIMITER in *; lia end.
  - match goal with H : cons_step _ _ _ _ |- _ => inversion H; subst; simpl in *; unfold LIMITER in *; lia end.
Qed.

(** A thread that has been created and is not done can move, unless it waits
    for the mutex. *)
Lemma prod_moves m p c s :
  inv (mk_state m p c s) → (∀ k, m ≠ M_ret k) → p ≠ P_start → p ≠ P_done →
  (∃ s', step (mk_state m p c s) s') ∨ (s_mutex s = Some 2%nat).
Proof.
  intros [Hp _ _ Hl Hr _ _] Hm H1 H2. specialize (Hr (Hm 0)). simpl in *. destruct p as [|k|k e|k e|k|]; [done|..|done].
  - left. destruct (Z.le_gt_cases LIMITER k); eexists; (apply S_prod; [done|]); [by apply P_leave|].
    apply (P_enter _ 0 0); [done|unfold int_range; lia|unfold int_range; lia].
  - destruct (s_mutex s) as [i|] eqn:Em; [right; simpl in *; naive_solver|].
    left. eexists. apply S_prod; [done|]. eapply P_take. by rewrite Em.
  - left. pose proof (insert_b_ok (s_buf s) e (ru_buf _ _ Hr)) as Hi.
    case_decide; [|destruct Hi as (b' & E & _)]; eexists; (apply S_prod; [done|]); eapply P_put; eassumption.
  - left. eexists. apply S_prod; [done|]. apply P_release.
Qed.

Lemma cons_moves m p c s :
  inv (mk_state m p c s) → (∀ k, m ≠ M_ret k) → c ≠ C_start → c ≠ C_done →
  (∃ s', step (mk_state m p c s) s') ∨ (s_mutex s = Some 1%nat).
Proof.
  intros [_ Hc _ Hl Hr _ _] Hm H1 H2. specialize (Hr (Hm 0)). simpl in *. destruct c as [|k|k e|k e|k e|k e|]; [done|..|done].
  - left. destruct (Z.le_gt_cases LIMITER k); eexists; (apply S_cons; [done|]); [by apply C_leave|].
    by apply (C_enter _ 0).
  - destruct (s_mutex s) as [i|] eqn:Em; [right; simpl in *; naive_solver|].
    left. eexists. apply S_cons; [done|]. eapply C_take. by rewrite Em.
  - left. pose proof (remove_b_ok (s_buf s) e (ru_buf _ _ Hr)) as Hi.
    destruct (last (contents (s_buf s))); [destruct Hi as (b' & E & _)|];
      eexists; (apply S_cons; [done|]); eapply C_get; eassumption.
  - left. eexists. apply S_cons; [done|]. apply C_release.
  - left. eexists. apply S_cons; [done|]. apply C_sleep.
Qed.

Lemma progress s : inv s → at_end s ∨ ∃ s', step s s'.
Proof.
  intros HI. destruct s as [m p c s]. pose proof HI as [_ _ Hph Hl Hr _ _]. simpl in *.
  destruct m as [| | | | | |k]; simpl in *.
  - right. destruct Hph as [-> ->]. eexists. by apply S_create_p.
  - right. destruct Hph as [_ ->]. eexists. by apply S_create_c.
  - right. destruct (decide (p = P_done)) as [->|Hp]; [eexists; apply S_join_p|].
    destruct (prod_moves M_join_p p c s HI) as [?|Em]; [done|tauto|done|done|].
    destruct (cons_moves M_join_p p c s HI) as [?|Em']; [done|tauto| |done|congruence].
    intros ->. rewrite Em in Hl. simpl in Hl. naive_solver.
  - right. destruct (decide (c = C_done)) as [->|Hc]; [eexists; apply S_join_c|].
    destruct (cons_moves M_join_c p c s HI) as [?|Em]; [done|tauto|done|done|].
    destruct Hph as [-> _]. rewrite Em in Hl. simpl in Hl. naive_solver.
  - right. eexists. eapply S_print. apply print_b_ok. by apply Hr.
  - right. eexists. apply S_free.
  - left. by exists k.
Qed.

(** C36: in every interleaving of the producer and the consumer: the two are
    never in their critical sections together, the buffer stays well formed, no
    insertion is ever refused, and the elements produced so far are exactly
    those in the buffer and those removed; every run comes to an end, no run
    gets stuck before it, and at a normal end twenty elements were produced and
    the lines printed are the ones never removed. *)
Theorem producer_consumer_ok s :
  reachable initial step s →
  ¬ (prod_crit (s_prod s) = true ∧ cons_crit (s_cons s) = true) ∧
  (s_main s ≠ M_ret 0 → buffer_ok (s_buf (s_sh s)) ∧ refused (s_sh s) = [] ∧
     produced (s_sh s) ≡ₚ contents (s_buf (s_sh s)) ++ removed (s_sh s)) ∧
  terminates step s ∧ (at_end s ∨ ∃ s', step s s') ∧
  (s_main s = M_ret 0 → result_ok (s_sh s)).
Proof.
  intros Hr%reachable_inv_ok. pose proof Hr as [_ _ _ Hl Hrun _ Hres]. split_and!.
  - intros [H1 H2]. destruct (s_mutex (s_sh s)); [destruct Hl as [(_ & _ & ?)|(_ & ? & _)]|destruct Hl]; congruence.
  - intros Hm. destruct (Hrun Hm). done.
  - apply (measure_terminates step left inv); [by apply inv_step|by apply step_left|done].
  - by apply progress.
  - done.
Qed.

(** ** Concrete runs *)

Lemma buffer_refines_stack_witness :
  let b := init_b (Some (replicate 2 (mk_element 9 9))) 2 in
  ∃ b', insert_b b (mk_element 5 3) = Ok (true, b') ∧ contents b' = [mk_element 5 3].
Proof.
  destruct (buffer_refines_stack (init_b (Some (replicate 2 (mk_element 9 9))) 2) (mk_element 5 3)) as [Hi _].
  - apply (init_b_ok (replicate 2 (mk_element 9 9)) 2); [lia|done].
  - destruct Hi as (b' & E & _ & _ & Hc). exists b'. split; [exact E|]. rewrite Hc. done.
Defined.

Definition first_state : state :=
  mk_state M_create_p P_start C_start
    (mk_shared (init_b (Some (replicate 32 (mk_element 0 0))) BUF_SIZE) None [] [] [] []).

Lemma producer_consumer_ok_witness : terminates step first_state ∧ ∃ s', step first_state s'.
Proof.
  destruct (producer_consumer_ok first_state) as (_ & _ & Ht & Hp & _).
  - apply reach_init. exists (replicate 32 (mk_element 0 0)). split; reflexivity.
  - split; [exact Ht|]. destruct Hp as [[k Hk]|Hp]; [discriminate Hk|exact Hp].
Defined.
