(* ===== verification/Philosophers.v ===== *)
(** * Dining philosophers (concurrency2/philosophers.c)

    Five threads think and eat in turn; a semaphore of two stands for the forks.
    The theorems show that at most two eat at a time, that the program never
    deadlocks and no philosopher is shut out for good, and that the semaphore
    does not keep two neighbours, who share a fork, from eating together. *)

From S2P Require Import Prelude Threads.

Definition NUM_THREADS : nat := 5.

(** Where a philosopher's thread is: before each of the calls of [table]. *)
Inductive phil := Think | Get_forks | Eat | Put_forks.

(** One round of the loop of [table]; [n] is the semaphore. *)
Inductive phil_step : phil → nat → phil → nat → Prop :=
| ph_think n : phil_step Think n Get_forks n
| ph_get n n' : sem_wait n = Some n' → phil_step Get_forks n Eat n'
| ph_eat n : phil_step Eat n Put_forks n
| ph_put n : phil_step Put_forks n Think (sem_post n).

(** [main] creating the [k]-th thread, gone with [pthread_exit], or the process
    ended by an error. *)
Inductive dmain := Creating (k : nat) | Gone | Exited.

Record dining := mk_dining { d_main : dmain; d_phils : list phil; d_sem : nat }.

Inductive dstep : dining → dining → Prop :=
| d_create k l n : (k < NUM_THREADS)%nat →
    dstep (mk_dining (Creating k) l n) (mk_dining (Creating (S k)) (l ++ [Think]) n)
| d_error k l n : (k < NUM_THREADS)%nat → dstep (mk_dining (Creating k) l n) (mk_dining Exited l n)
| d_gone l n : dstep (mk_dining (Creating NUM_THREADS) l n) (mk_dining Gone l n)
| d_phil m i l n p p' n' : m ≠ Exited → l !! i = Some p → phil_step p n p' n' →
    dstep (mk_dining m l n) (mk_dining m (<[i := p']> l) n').

(** [sem_init(&mutex, 0, 2)]. *)
Definition table_laid : dining := mk_dining (Creating 0) [] 2.

Definition dining_reachable : dining → Prop := reachable (λ s, s = table_laid) dstep.

Definition has_forks (p : phil) : bool := match p with Eat | Put_forks => true | _ => false end.

(** Forks are conserved, and there are as many philosophers as were created. *)
Definition dining_inv (s : dining) : Prop :=
  (d_sem s + count has_forks (d_phils s) = 2)%nat ∧
  (length (d_phils s) ≤ NUM_THREADS)%nat ∧
  match d_main s with
  | Creating k => length (d_phils s) = k
  | Gone => length (d_phils s) = NUM_THREADS
  | Exited => True
  end.

Lemma count_snoc {A} (P : A → bool) l x : count P (l ++ [x]) = (count P l + b2n (P x))%nat.
Proof. induction l as [|y l IH]; simpl; [by unfold b2n; destruct (P x)|]. rewrite IH. lia. Qed.

Lemma phil_step_inv m i l n p p' n' :
  dining_inv (mk_dining m l n) → l !! i = Some p → phil_step p n p' n' →
  dining_inv (mk_dining m (<[i := p']> l) n').
Proof.
  intros (Hs & Hl & Hm) Hi Hp. pose proof (count_insert has_forks l i p p' Hi) as Hc.
  split; [|simpl in *; by rewrite length_insert]. simpl in *.
  inversion Hp; subst; simpl in *; try lia.
  apply sem_wait_some in H. lia.
Qed.

Lemma dining_inv_step s s' : dining_inv s → dstep s s' → dining_inv s'.
Proof.
  intros HI Hs. inversion Hs; subst; [| | |by eapply phil_step_inv];
    destruct HI as (H1 & H2 & H3); simpl in *; (split; [|split]); simpl; try done.
  - rewrite count_snoc. simpl. lia.
  - rewrite length_app. simpl. lia.
  - rewrite length_app. simpl. lia.
Qed.

Lemma dining_reachable_inv s : dining_reachable s → dining_inv s.
Proof.
  apply reachable_inv; [|intros t t' _; apply dining_inv_step].
  intros t ->. unfold dining_inv, NUM_THREADS. simpl. lia.
Qed.

(** A philosopher can take steps of its own until it wants the forks. *)
Lemma phil_runs m l n i p :
  m ≠ Exited → l !! i = Some p →
  ∃ n', rtc dstep (mk_dining m l n) (mk_dining m (<[i := Get_forks]> l) n') ∧
    n' = (n + b2n (has_forks p))%nat.
Proof.
  intros Hm Hi.
  assert (∀ n, rtc dstep (mk_dining m (<[i := Think]> l) n) (mk_dining m (<[i := Get_forks]> l) n)) as Ht.
  { intros k. apply rtc_once. rewrite <- (list_insert_insert_eq l i Get_forks Think).
    eapply d_phil; [done| |apply ph_think]. apply list_lookup_insert_eq. by eapply lookup_lt_Some. }
  destruct p; simpl.
  - exists n. split; [|lia]. rewrite <- (list_insert_id l i Think Hi) at 1. apply Ht.
  - exists n. split; [|lia]. by rewrite (list_insert_id l i Get_forks Hi).
  - exists (sem_post n). split; [|unfold sem_post; lia].
    eapply rtc_l; [eapply d_phil; [done|exact Hi|apply ph_eat]|].
    eapply rtc_l; [eapply d_phil; [done|apply list_lookup_insert_eq; by eapply lookup_lt_Some|apply ph_put]|].
    rewrite list_insert_insert_eq. apply Ht.
  - exists (sem_post n). split; [|unfold sem_post; lia].
    eapply rtc_l; [eapply d_phil; [done|exact Hi|apply ph_put]|]. apply Ht.
Qed.

(** C38: at most two philosophers hold forks at any time, the semaphore counting
    the pairs that are left; as long as the process lives and a philosopher is
    at the table some thread can move; and from every reachable state every
    philosopher at the table can come to eat. *)
Theorem dining_ok s :
  dining_reachable s →
  (d_sem s + count has_forks (d_phils s) = 2)%nat ∧
  (d_main s ≠ Exited → (∃ s', dstep s s') ∧
   ∀ i, (i < length (d_phils s))%nat → ∃ s', rtc dstep s s' ∧ d_phils s' !! i = Some Eat).
Proof.
  intros Hr. pose proof (dining_reachable_inv s Hr) as HI. destruct s as [m l n]. pose proof HI as (H1 & H2 & H3).
  simpl in *. split; [done|]. intros Hm.
  assert (∀ i, (i < length l)%nat → ∃ s', rtc dstep (mk_dining m l n) s' ∧ d_phils s' !! i = Some Eat) as Heat.
  { intros i Hi. destruct (lookup_lt_is_Some_2 l i Hi) as [p Hp].
    destruct (phil_runs m l n i p Hm Hp) as (n1 & R1 & ->).
    pose proof (count_insert has_forks l i p Get_forks Hp) as Hc. simpl in Hc.
    set (l1 := <[i := Get_forks]> l) in *. set (n1 := (n + b2n (has_forks p))%nat) in *.
    assert (l1 !! i = Some Get_forks) as Hi1 by (by apply list_lookup_insert_eq).
    assert (∃ l2 n2, rtc dstep (mk_dining m l1 n1) (mk_dining m l2 n2) ∧ l2 !! i = Some Get_forks ∧ (0 < n2)%nat)
      as (l2 & n2 & R2 & Hi2 & Hn2).
    { destruct n1 as [|n1'] eqn:En1; [|exists l1, (S n1'); split_and!; [done|done|lia]].
      destruct (count_ex has_forks l1) as (j & q & Hj & Hq); [lia|].
      destruct (phil_runs m l1 0 j q Hm Hj) as (n2 & R2 & ->).
      eexists _, _. split_and!; [exact R2| |rewrite Hq; simpl; lia].
      rewrite list_lookup_insert_ne; [done|]. intros ->. rewrite Hi1 in Hj. by simplify_eq. }
    destruct n2 as [|n2]; [lia|]. eexists. split.
    - etrans; [exact R1|]. etrans; [exact R2|]. apply rtc_once. eapply d_phil; [done|exact Hi2|by apply ph_get].
    - simpl. apply list_lookup_insert_eq. by eapply lookup_lt_Some. }
  split; [|done]. destruct m as [k| |]; [| |done].
  - destruct (decide (k = NUM_THREADS)) as [->|]; eexists; [apply d_gone|apply d_create; lia].
  - destruct (Heat 0%nat) as (s' & R & He); [unfold NUM_THREADS in *; lia|].
    apply rtc_inv in R as [<-|(s1 & Hs & _)]; [|by exists s1].
    eexists. eapply d_phil; [done|exact He|apply ph_eat].
Qed.

(** Two neighbours, who share a fork, can eat at the same time. *)
Theorem dining_neighbours :
  ∃ s, dining_reachable s ∧ d_phils s !! 0%nat = Some Eat ∧ d_phils s !! 1%nat = Some Eat.
Proof.
  exists (mk_dining (Creating 2) [Eat; Eat] 0). split; [|done].
  apply (reach_step _ _ (mk_dining (Creating 2) [Eat; Get_forks] 1));
    [|by apply (d_phil _ 1 [Eat; Get_forks] _ Get_forks); [done|done|apply ph_get]].
  apply (reach_step _ _ (mk_dining (Creating 2) [Eat; Think] 1));
    [|by apply (d_phil _ 1 [Eat; Think] _ Think); [done|done|apply ph_think]].
  apply (reach_step _ _ (mk_dining (Creating 1) [Eat] 1)); [|apply (d_create 1); unfold NUM_THREADS; lia].
  apply (reach_step _ _ (mk_dining (Creating 1) [Get_forks] 2));
    [|by apply (d_phil _ 0 [Get_forks] _ Get_forks); [done|done|apply ph_get]].
  apply (reach_step _ _ (mk_dining (Creating 1) [Think] 2));
    [|by apply (d_phil _ 0 [Think] _ Think); [done|done|apply ph_think]].
  apply (reach_step _ _ table_laid); [|apply (d_create 0); unfold NUM_THREADS; lia].
  by apply reach_init.
Qed.

Lemma dining_ok_witness :
  ∃ s', rtc dstep (mk_dining (Creating 1) [Think] 2) s' ∧ d_phils s' !! 0%nat = Some Eat.
Proof.
  destruct (dining_ok (mk_dining (Creating 1) [Think] 2)) as (_ & Hp).
  - apply (reach_step _ _ table_laid); [by apply reach_init|]. apply (d_create 0). unfold NUM_THREADS. lia.
  - destruct (Hp ltac:(done)) as [_ He]. apply He. simpl. lia.
Defined.
