(* ===== verification/SharedList.v ===== *)
(** * A list shared by searchers, inserters and deleters (concurrency3)

    The singly linked list of concurrency3/lib.c over a heap of nodes, and the
    threads of concurrency3/list.c that use it: searchers walk the list while an
    inserter may be appending to it; a deleter has the list to itself.  The
    theorems show what the list operations do to the list, that no interleaving
    of the threads reads a freed node, and that the threads never deadlock. *)

From S2P Require Import Prelude Threads.

Record node := mk_node { data : Z; next : Z }.
Notation nodes := (gmap Z node).

(** [malloc] of a node: the address it returns, nothing when memory is out. *)
Class NodeMalloc := malloc : nodes → option Z.
Class NodeMallocOk `{NodeMalloc} := malloc_fresh h p : malloc h = Some p → p ≠ 0 ∧ h !! p = None.

(** ** The list (lib.c) *)

Definition load (p : Z) : cmd nodes node := h ← gets id; the (h !! p).
Definition set_next (p q : Z) : cmd nodes unit :=
  n ← load p; modify (<[p := mk_node (data n) q]>).

Section Lib.
Context `{NodeMalloc}.

(** The test of the pointer only prints a message; the stores that follow
    fault on a null pointer. *)
Definition create_node (val : Z) : cmd nodes Z :=
  h ← gets id;
  p ← the (malloc h);
  _ ← modify (<[p := mk_node val 0]>);
  mret p.

(** [while (temp->next) temp = temp->next] *)
Fixpoint walk_end (fuel : nat) (temp : Z) : cmd nodes Z :=
  match fuel with
  | O => spin
  | S fuel => n ← load temp; if next n =? 0 then mret temp else walk_end fuel (next n)
  end.

Definition insert_node (fuel : nat) (head val : Z) : cmd nodes Z :=
  if head =? 0 then create_node val
  else
    temp ← walk_end fuel head;
    p ← create_node val;
    _ ← set_next temp p;
    mret head.

Fixpoint remove_node (fuel : nat) (curr val : Z) : cmd nodes Z :=
  match fuel with
  | O => spin
  | S fuel =>
      if curr =? 0 then mret 0
      else
        n ← load curr;
        if data n =? val then _ ← modify (delete curr); mret (next n)
        else r ← remove_node fuel (next n) val; _ ← set_next curr r; mret curr
  end.

Fixpoint search_by_value (fuel : nat) (temp val : Z) : cmd nodes Z :=
  match fuel with
  | O => spin
  | S fuel =>
      if temp =? 0 then mret 0
      else n ← load temp; if data n =? val then mret 1 else search_by_value fuel (next n) val
  end.

(** The values printed. *)
Fixpoint print_list (fuel : nat) (current : Z) : cmd nodes (list Z) :=
  match fuel with
  | O => spin
  | S fuel =>
      if current =? 0 then mret []
      else n ← load current; l ← print_list fuel (next n); mret (data n :: l)
  end.

Fixpoint free_list (fuel : nat) (head : Z) : cmd nodes unit :=
  match fuel with
  | O => spin
  | S fuel =>
      if head =? 0 then mret tt
      else n ← load head; _ ← modify (delete head); free_list fuel (next n)
  end.
End Lib.

(** ** Lists in the heap *)

(** From address [p] on, the nodes at the given addresses with the given
    values. *)
Fixpoint is_list (h : nodes) (p : Z) (l : list (Z * Z)) : Prop :=
  match l with
  | [] => p = 0
  | (a, d) :: l => p = a ∧ a ≠ 0 ∧ ∃ q, h !! a = Some (mk_node d q) ∧ is_list h q l
  end.

(** A list none of whose nodes occurs twice. *)
Definition good_list (h : nodes) (p : Z) (l : list (Z * Z)) : Prop := is_list h p l ∧ NoDup l.*1.

(** [l] without its first node of value [v]. *)
Fixpoint remove1 (v : Z) (l : list (Z * Z)) : list (Z * Z) :=
  match l with
  | [] => []
  | (a, d) :: l => if d =? v then l else (a, d) :: remove1 v l
  end.

Lemma is_list_frame h h' p l :
  (∀ a, a ∈ l.*1 → h' !! a = h !! a) → is_list h p l → is_list h' p l.
Proof.
  revert p. induction l as [|[a d] l IH]; intros p Hf; simpl; [done|].
  intros (-> & Ha & q & Hq & Hl). split_and!; [done|done|]. exists q. split.
  - rewrite Hf; [done|]. by left.
  - apply IH; [|done]. intros b Hb. apply Hf. by right.
Qed.

Lemma is_list_load h p l : is_list h p l → p ≠ 0 → ∃ d q, h !! p = Some (mk_node d q) ∧ p ∈ l.*1.
Proof.
  destruct l as [|[a d] l]; simpl; [done|]. intros (-> & _ & q & Hq & _) _. exists d, q. split; [done|by left].
Qed.

(** The nodes of a list, and where they lead. *)
Lemma is_list_next h p l a : is_list h p l → a ∈ l.*1 →
  a ≠ 0 ∧ ∃ d q, h !! a = Some (mk_node d q) ∧ (q = 0 ∨ q ∈ l.*1).
Proof.
  revert p. induction l as [|[b d] l IH]; intros p Hl Hin; [by apply not_elem_of_nil in Hin|].
  simpl in Hl. destruct Hl as (-> & Hb & q & Hq & Hl). csimpl in Hin. apply elem_of_cons in Hin as [->|Hin].
  - split; [done|]. exists d, q. split; [done|]. destruct (decide (q = 0)); [by left|right].
    destruct (is_list_load h q l Hl n) as (_ & _ & _ & Hin). csimpl. by right.
  - destruct (IH q Hl Hin) as (Ha & d' & q' & Hq' & Hor). split; [done|]. exists d', q'. split; [done|].
    destruct Hor; [by left|right]. csimpl. by right.
Qed.

Lemma remove1_sub v l a : a ∈ (remove1 v l).*1 → a ∈ l.*1.
Proof.
  induction l as [|[b d] l IH]; simpl; [done|]. destruct (d =? v); csimpl; rewrite !elem_of_cons; [auto|].
  intros [->|Hin]; [by left|]. right. by apply IH.
Qed.

Lemma list_search_ok h fuel p l v :
  is_list h p l → (length l < fuel)%nat →
  search_by_value fuel p v h = Ok (if bool_decide (v ∈ l.*2) then 1 else 0, h).
Proof.
  revert fuel p. induction l as [|[a d] l IH]; intros [|fuel] p Hl Hf; simpl in Hf; try lia; simpl in *.
  - by rewrite Hl.
  - destruct Hl as (-> & Ha & q & Hq & Hl). destruct (Z.eqb_spec a 0); [done|].
    unfold load, mbind, cmd_bind, gets. simpl. rewrite Hq. simpl. destruct (Z.eqb_spec d v) as [->|Hne].
    + rewrite bool_decide_eq_true_2; [done|]. by left.
    + rewrite (IH fuel q Hl) by lia. do 2 f_equal.
      assert (v ∈ l.*2 ↔ v ∈ d :: l.*2) as Hiff by (rewrite elem_of_cons; naive_solver).
      by rewrite (bool_decide_ext _ _ Hiff).
Qed.

Lemma list_print_ok h fuel p l :
  is_list h p l → (length l < fuel)%nat → print_list fuel p h = Ok (l.*2, h).
Proof.
  revert fuel p. induction l as [|[a d] l IH]; intros [|fuel] p Hl Hf; simpl in Hf; try lia; simpl in *.
  - by rewrite Hl.
  - destruct Hl as (-> & Ha & q & Hq & Hl). destruct (Z.eqb_spec a 0); [done|].
    unfold load, mbind, cmd_bind, gets. simpl. rewrite Hq. simpl. by rewrite (IH fuel q Hl) by lia.
Qed.

Lemma remove_ok fuel h p l v :
  good_list h p l → (length l < fuel)%nat →
  ∃ p' h', remove_node fuel p v h = Ok (p', h') ∧ good_list h' p' (remove1 v l) ∧
    (∀ a, a ∉ l.*1 → h' !! a = h !! a) ∧ (∀ a, a ∈ l.*1 → a ∉ (remove1 v l).*1 → h' !! a = None) ∧
    (p' = 0 ∨ p' ∈ l.*1).
Proof.
  revert h p l. induction fuel as [|fuel IH]; intros h p l [Hl Hnd] Hf; [lia|].
  destruct l as [|[a d] l]; simpl in Hl.
  { subst p. exists 0, h. split_and!; [done| |done|done|by left]. split; [done|by constructor]. }
  destruct Hl as (-> & Ha & q & Hq & Hl). apply NoDup_cons in Hnd as [Hnin Hnd]. simpl in Hf.
  cbn [remove_node remove1]. destruct (Z.eqb_spec a 0); [done|].
  assert (load a h = Ok (mk_node d q, h)) as El by (unfold load, mbind, cmd_bind, gets; simpl; by rewrite Hq).
  rewrite (bind_ok _ _ _ _ _ El). simpl. destruct (Z.eqb_spec d v) as [->|Hne].
  - exists q, (delete a h). split; [done|]. split_and!.
    + split; [|done]. apply (is_list_frame h); [|done]. intros b Hb. rewrite lookup_delete_ne; [done|].
      intros ->. done.
    + intros b Hb. apply lookup_delete_ne. intros ->. apply Hb. csimpl. by left.
    + intros b [->|Hb]%elem_of_cons Hn; [by rewrite lookup_delete_eq|done].
    + destruct (decide (q = 0)); [by left|right]. destruct (is_list_load h q l Hl n0) as (_ & _ & _ & ?).
      csimpl. by right.
  - destruct (IH h q l) as (q' & h' & E & [Hl' Hnd'] & Hout & Hfr & Hq'); [by split|lia|].
    rewrite (bind_ok _ _ _ _ _ E). unfold set_next.
    assert (load a h' = Ok (mk_node d q, h')) as El'.
    { unfold load, mbind, cmd_bind, gets. simpl. rewrite Hout by done. by rewrite Hq. }
    rewrite bind_assoc_cmd, (bind_ok _ _ _ _ _ El'). simpl.
    exists a, (<[a := mk_node d q']> h'). split; [done|]. split_and!.
    + split.
      * simpl. split_and!; [done|done|]. exists q'. split; [apply lookup_insert_eq|].
        apply (is_list_frame h'); [|done]. intros b Hb. rewrite lookup_insert_ne; [done|].
        intros ->. by apply Hnin, (remove1_sub v).
      * csimpl. apply NoDup_cons. split; [|done]. intros Hin. by apply Hnin, (remove1_sub v).
    + intros b Hb. csimpl in Hb. apply not_elem_of_cons in Hb as [Hb1 Hb2].
      rewrite lookup_insert_ne by done. by apply Hout.
    + intros b Hb Hn. csimpl in Hn. apply not_elem_of_cons in Hn as [Hn1 Hn2].
      rewrite lookup_insert_ne by done. apply elem_of_cons in Hb as [->|Hb]; [done|]. by apply Hfr.
    + right. csimpl. by left.
Qed.

Lemma list_free_ok fuel h p l :
  good_list h p l → (length l < fuel)%nat → free_list fuel p h = Ok (tt, foldr delete h l.*1).
Proof.
  assert (∀ a (m : nodes) k, foldr delete (delete a m) k = delete a (foldr delete m k)) as Hcomm.
  { intros a m k. induction k as [|b k IHk]; simpl; [done|]. by rewrite IHk, delete_delete. }
  revert h p l. induction fuel as [|fuel IH]; intros h p l [Hl Hnd] Hf; [lia|].
  destruct l as [|[a d] l]; simpl in Hl; [by subst p|].
  destruct Hl as (-> & Ha & q & Hq & Hl). apply NoDup_cons in Hnd as [Hnin Hnd]. simpl in Hf.
  cbn [free_list]. destruct (Z.eqb_spec a 0); [done|].
  assert (load a h = Ok (mk_node d q, h)) as El by (unfold load, mbind, cmd_bind, gets; simpl; by rewrite Hq).
  rewrite (bind_ok _ _ _ _ _ El). run_step. simpl. rewrite (IH _ q l).
  - csimpl. by rewrite Hcomm.
  - split; [|done]. apply (is_list_frame h); [|done]. intros b Hb. rewrite lookup_delete_ne; [done|].
    intros ->. done.
  - lia.
Qed.

(** The list with a node linked behind its last one. *)
Lemma is_list_snoc h p l t d a v :
  is_list h p (l ++ [(t, d)]) → NoDup (l ++ [(t, d)]).*1 → a ≠ 0 → a ∉ (l ++ [(t, d)]).*1 →
  h !! a = Some (mk_node v 0) → is_list (<[t := mk_node d a]> h) p ((l ++ [(t, d)]) ++ [(a, v)]).
Proof.
  revert p. induction l as [|[b c] l IH]; intros p Hl Hnd Ha Hnin Hh; simpl in *.
  - destruct Hl as (-> & Ht & q & Hq & ->). split_and!; [done|done|]. exists a.
    split; [apply lookup_insert_eq|]. split_and!; [done|done|]. exists 0. split; [|done].
    rewrite lookup_insert_ne; [done|]. intros ->. apply Hnin. by left.
  - destruct Hl as (-> & Hb & q & Hq & Hl). split_and!; [done|done|].
    apply not_elem_of_cons in Hnin as [Hnb Hnin]. apply NoDup_cons in Hnd as [Hnbt Hnd].
    exists q. split; [|by apply IH]. rewrite lookup_insert_ne; [done|]. intros ->. apply Hnbt.
    change (b ∈ (l ++ [(b, d)]).*1). rewrite fmap_app. set_solver.
Qed.

Lemma good_list_snoc h p l t d a v :
  good_list h p (l ++ [(t, d)]) → a ≠ 0 → a ∉ (l ++ [(t, d)]).*1 → h !! a = Some (mk_node v 0) →
  good_list (<[t := mk_node d a]> h) p ((l ++ [(t, d)]) ++ [(a, v)]).
Proof.
  intros [Hl Hnd] Ha Hnin Hh. split; [by apply is_list_snoc|].
  rewrite fmap_app. apply NoDup_app. split_and!; [done| |apply NoDup_singleton].
  intros b Hb Hs. csimpl in Hs. apply list_elem_of_singleton in Hs as ->. done.
Qed.

(** The walk to the end finds the last node. *)
Lemma is_list_last h p l t d : is_list h p (l ++ [(t, d)]) → t ≠ 0 ∧ h !! t = Some (mk_node d 0).
Proof.
  revert p. induction l as [|[b c] l IH]; intros p; simpl.
  - intros (-> & Ht & q & Hq & ->). done.
  - intros (-> & _ & q & _ & Hl). by eapply IH.
Qed.

Lemma walk_end_ok h fuel p l t d :
  is_list h p (l ++ [(t, d)]) → (length l < fuel)%nat → walk_end fuel p h = Ok (t, h).
Proof.
  revert fuel p. induction l as [|[b c] l IH]; intros [|fuel] p Hl Hf; simpl in Hf; try lia; simpl in Hl.
  - destruct Hl as (-> & Ht & q & Hq & ->). simpl. unfold load, mbind, cmd_bind, gets. simpl. by rewrite Hq.
  - destruct Hl as (-> & Hb & q & Hq & Hl). simpl. unfold load, mbind, cmd_bind, gets. simpl. rewrite Hq. simpl.
    destruct (Z.eqb_spec q 0) as [->|]; [|apply IH; [done|lia]].
    exfalso. destruct l as [|[? ?] l]; simpl in Hl; destruct Hl as (<- & ? & _); done.
Qed.

Section LibOk.
Context `{NodeMallocOk}.

Lemma create_ok h a v : malloc h = Some a → create_node v h = Ok (a, <[a := mk_node v 0]> h).
Proof. intros Ha. unfold create_node, mbind, cmd_bind, gets. simpl. by rewrite Ha. Qed.

Lemma insert_ok fuel h p l v :
  good_list h p l → (length l < fuel)%nat → is_Some (malloc h) →
  (∀ a, a ∈ l.*1 → is_Some (h !! a)) →
  ∃ p' h' a, insert_node fuel p v h = Ok (p', h') ∧ good_list h' p' (l ++ [(a, v)]) ∧
    h !! a = None ∧ (∀ b, b ∉ (l ++ [(a, v)]).*1 → h' !! b = h !! b).
Proof.
  intros Hg Hf [a Ha] Hdom. pose proof Hg as [Hl Hnd]. destruct (malloc_fresh h a Ha) as [Ha0 Hfresh].
  unfold insert_node. destruct (last_cases l) as [->|(l' & [t d] & ->)].
  - simpl in Hl. subst p. simpl. exists a, (<[a := mk_node v 0]> h), a. split_and!; [by apply create_ok| |done|].
    + split; [|by apply NoDup_singleton]. simpl. split_and!; [done|done|]. exists 0.
      split; [apply lookup_insert_eq|done].
    + intros b Hb. apply lookup_insert_ne. csimpl in Hb. set_solver.
  - assert (a ∉ (l' ++ [(t, d)]).*1) as Hnin by (intros Hin; destruct (Hdom a Hin); congruence).
    destruct (is_list_last _ _ _ _ _ Hl) as [Ht Htd].
    assert (t ∈ (l' ++ [(t, d)]).*1) as Htin by (rewrite fmap_app; set_solver).
    assert (a ≠ t) as Hat by (intros ->; done).
    destruct (Z.eqb_spec p 0) as [->|Hp].
    { exfalso. destruct l' as [|[? ?] ?]; simpl in Hl; destruct Hl as (<- & ? & _); done. }
    rewrite length_app in Hf. simpl in Hf. rewrite (bind_ok _ _ _ _ _ (walk_end_ok h fuel p l' t d Hl ltac:(lia))).
    rewrite (bind_ok _ _ _ _ _ (create_ok h a v Ha)).
    unfold set_next, load. rewrite !bind_assoc_cmd. run_step. simpl. rewrite lookup_insert_ne by done.
    rewrite Htd. run_step. run_step. simpl.
    exists p, (<[t := mk_node d a]> (<[a := mk_node v 0]> h)), a. split; [done|]. split_and!; [|done|].
    + apply good_list_snoc; [|done|done|apply lookup_insert_eq]. split; [|done].
      apply (is_list_frame h); [|done]. intros b Hb. apply lookup_insert_ne. intros ->. done.
    + intros b Hb. rewrite !fmap_app in Hb. rewrite !lookup_insert_ne by set_solver. done.
Qed.

(** The operations of the list: searching finds a value exactly when it is
    in the list, inserting appends a new node (when [malloc] gives one),
    removing takes out the first node with the value and frees that node and no
    other, and freeing the list frees exactly its nodes; none of them reads
    memory that is not allocated. *)
Theorem list_lib_ok fuel h p l v :
  good_list h p l → (length l < fuel)%nat →
  search_by_value fuel p v h = Ok (if bool_decide (v ∈ l.*2) then 1 else 0, h) ∧
  print_list fuel p h = Ok (l.*2, h) ∧
  (is_Some (malloc h) → ∃ p' h' a, insert_node fuel p v h = Ok (p', h') ∧ good_list h' p' (l ++ [(a, v)]) ∧
     h !! a = None ∧ ∀ b, b ∉ (l ++ [(a, v)]).*1 → h' !! b = h !! b) ∧
  (∃ p' h', remove_node fuel p v h = Ok (p', h') ∧ good_list h' p' (remove1 v l) ∧
     (∀ a, a ∉ l.*1 → h' !! a = h !! a) ∧ ∀ a, a ∈ l.*1 → a ∉ (remove1 v l).*1 → h' !! a = None) ∧
  free_list fuel p h = Ok (tt, foldr delete h l.*1).
Proof.
  intros Hg Hf. pose proof Hg as [Hl Hnd]. split_and!.
  - by apply list_search_ok.
  - by apply list_print_ok.
  - intros Hm. apply insert_ok; [done|done|done|]. intros a Ha.
    destruct (is_list_next h p l a Hl Ha) as (_ & d & q & Hq & _). by eexists.
  - destruct (remove_ok fuel h p l v Hg Hf) as (p' & h' & E & Hg' & Ho & Hfr & _). eauto 10.
  - by apply list_free_ok.
Qed.
End LibOk.

(** ** The threads (list.c) *)

Definition NUM_SEARCHERS : nat := 12.
Definition NUM_INSERTERS : nat := 4.
Definition NUM_DELETERS : nat := 2.

(** The global list, the nodes, and the two semaphores. *)
Record lshared := mk_lshared { list_head : Z; heap : nodes; read_sem : nat; write_sem : nat }.

(** Program points.  A searcher walks the list twice, to search and to print;
    an inserter appends five values, walking to the end, allocating and linking
    a node, and printing the list for each; a deleter collects all the read
    tokens one by one, removes a value, prints, and gives the tokens back. *)
Inductive lpc :=
| S_wait | S_start | S_scan (temp v : Z) | S_list | S_print (temp : Z) | S_post
| I_wait | I_loop (t : nat) | I_walk (t : nat) (v hd temp : Z) | I_new (t : nat) (v hd temp : Z)
| I_link (t : nat) (v hd temp p : Z) | I_list (t : nat) | I_print (t : nat) (temp : Z) | I_post
| D_wait (v : Z) | D_take (k : nat) (v : Z) | D_remove (v : Z) | D_list | D_print (temp : Z)
| D_give (k : nat) | D_post
| L_done.

#[global] Instance lpc_eq_dec : EqDecision lpc.
Proof. solve_decision. Defined.

Definition set_list (p : Z) (h : nodes) (s : lshared) : lshared := mk_lshared p h (read_sem s) (write_sem s).
Definition set_read (n : nat) (s : lshared) : lshared := mk_lshared (list_head s) (heap s) n (write_sem s).
Definition set_write (n : nat) (s : lshared) : lshared := mk_lshared (list_head s) (heap s) (read_sem s) n.

(** What [rand()%100] can be. *)
Definition rand100 (v : Z) : Prop := 0 ≤ v < 100.

Section Threads.
Context `{NodeMallocOk}.

Inductive lstep : nat → lpc → lshared → lpc → lshared → Prop :=
(* searcher *)
| s_wait i s n : sem_wait (read_sem s) = Some n → lstep i S_wait s S_start (set_read n s)
| s_start i s v : rand100 v → lstep i S_start s (S_scan (list_head s) v) s
| s_end i s v : lstep i (S_scan 0 v) s S_list s
| s_found i s p v n : p ≠ 0 → heap s !! p = Some n → data n = v → lstep i (S_scan p v) s S_list s
| s_next i s p v n : p ≠ 0 → heap s !! p = Some n → data n ≠ v → lstep i (S_scan p v) s (S_scan (next n) v) s
| s_list i s : lstep i S_list s (S_print (list_head s)) s
| s_print i s p n : p ≠ 0 → heap s !! p = Some n → lstep i (S_print p) s (S_print (next n)) s
| s_printed i s : lstep i (S_print 0) s S_post s
| s_post i s : lstep i S_post s L_done (set_read (sem_post (read_sem s)) s)
(* inserter *)
| i_wait i s n : sem_wait (write_sem s) = Some n → lstep i I_wait s (I_loop 0) (set_write n s)
| i_empty i s t v : (t < 5)%nat → rand100 v → list_head s = 0 → lstep i (I_loop t) s (I_new t v 0 0) s
| i_enter i s t v : (t < 5)%nat → rand100 v → list_head s ≠ 0 →
    lstep i (I_loop t) s (I_walk t v (list_head s) (list_head s)) s
| i_walk i s t v hd p n : heap s !! p = Some n → next n ≠ 0 →
    lstep i (I_walk t v hd p) s (I_walk t v hd (next n)) s
| i_last i s t v hd p n : heap s !! p = Some n → next n = 0 → lstep i (I_walk t v hd p) s (I_new t v hd p) s
| i_new i s t v hd p a : malloc (heap s) = Some a →
    lstep i (I_new t v hd p) s (I_link t v hd p a) (set_list (list_head s) (<[a := mk_node v 0]> (heap s)) s)
| i_first i s t v p a : lstep i (I_link t v 0 p a) s (I_list t) (set_list a (heap s) s)
| i_link i s t v hd p a n : hd ≠ 0 → heap s !! p = Some n →
    lstep i (I_link t v hd p a) s (I_list t) (set_list hd (<[p := mk_node (data n) a]> (heap s)) s)
| i_list i s t : lstep i (I_list t) s (I_print t (list_head s)) s
| i_print i s t p n : p ≠ 0 → heap s !! p = Some n → lstep i (I_print t p) s (I_print t (next n)) s
| i_printed i s t : lstep i (I_print t 0) s (I_loop (S t)) s
| i_end i s t : (5 ≤ t)%nat → lstep i (I_loop t) s I_post s
| i_post i s : lstep i I_post s L_done (set_write (sem_post (write_sem s)) s)
(* deleter *)
| d_wait i s v n : sem_wait (write_sem s) = Some n → lstep i (D_wait v) s (D_take 0 v) (set_write n s)
| d_take i s k v n : (k < NUM_SEARCHERS)%nat → sem_wait (read_sem s) = Some n →
    lstep i (D_take k v) s (D_take (S k) v) (set_read n s)
| d_taken i s v : lstep i (D_take NUM_SEARCHERS v) s (D_remove v) s
| d_remove i s v p h : remove_node (S (size (heap s))) (list_head s) v (heap s) = Ok (p, h) →
    lstep i (D_remove v) s D_list (set_list p h s)
| d_list i s : lstep i D_list s (D_print (list_head s)) s
| d_print i s p n : p ≠ 0 → heap s !! p = Some n → lstep i (D_print p) s (D_print (next n)) s
| d_printed i s : lstep i (D_print 0) s (D_give 0) s
| d_give i s k : (k < NUM_SEARCHERS)%nat → lstep i (D_give k) s (D_give (S k)) (set_read (sem_post (read_sem s)) s)
| d_given i s : lstep i (D_give NUM_SEARCHERS) s D_post s
| d_post i s : lstep i D_post s L_done (set_write (sem_post (write_sem s)) s).

(** A thread about to use memory that is not there. *)
Definition faulting (s : lshared) (p : lpc) : Prop :=
  match p with
  | S_scan q _ | S_print q | I_print _ q | D_print q => q ≠ 0 ∧ heap s !! q = None
  | I_walk _ _ _ q => heap s !! q = None
  | I_new _ _ _ _ => malloc (heap s) = None
  | I_link _ _ hd q _ => hd ≠ 0 ∧ heap s !! q = None
  | D_remove v => ∀ r, remove_node (S (size (heap s))) (list_head s) v (heap s) ≠ Ok r
  | _ => False
  end.

(** All threads created, the list empty. *)
Definition list_start (s : pool) : Prop :=
  ∃ vs, length vs = NUM_DELETERS ∧
  s = (replicate NUM_INSERTERS I_wait ++ replicate NUM_SEARCHERS S_wait ++ (D_wait <$> vs),
       mk_lshared 0 ∅ NUM_SEARCHERS 1).

Definition lreach : pool → Prop := reachable list_start (pstep lstep).

(** *** The invariant *)

(** Threads that have the write token, and the read tokens a thread has. *)
Definition writer (p : lpc) : bool :=
  match p with
  | I_loop _ | I_walk _ _ _ _ | I_new _ _ _ _ | I_link _ _ _ _ _ | I_list _ | I_print _ _ | I_post
  | D_take _ _ | D_remove _ | D_list | D_print _ | D_give _ | D_post => true
  | _ => false
  end.
Definition readers (p : lpc) : nat :=
  match p with
  | S_start | S_scan _ _ | S_list | S_print _ | S_post => 1
  | D_take k _ => k
  | D_remove _ | D_list | D_print _ => NUM_SEARCHERS
  | D_give k => NUM_SEARCHERS - k
  | _ => 0
  end.

(** The pointers a thread holds lead into the list [l]. *)
Definition ptr_ok (l : list (Z * Z)) (q : Z) : Prop := q = 0 ∨ q ∈ l.*1.
Definition at_last (l : list (Z * Z)) (hd q : Z) : Prop :=
  (hd = 0 ∧ l = []) ∨ (hd ≠ 0 ∧ ∃ l' d, l = l' ++ [(q, d)]).
Definition pc_ok (s : lshared) (l : list (Z * Z)) (p : lpc) : Prop :=
  match p with
  | S_scan q _ | S_print q | I_print _ q | D_print q => ptr_ok l q
  | I_walk _ _ hd q => hd = list_head s ∧ hd ≠ 0 ∧ q ∈ l.*1
  | I_new _ _ hd q => hd = list_head s ∧ at_last l hd q
  | I_link _ v hd q a =>
      hd = list_head s ∧ at_last l hd q ∧ a ≠ 0 ∧ a ∉ l.*1 ∧ heap s !! a = Some (mk_node v 0)
  | D_take k _ | D_give k => (k ≤ NUM_SEARCHERS)%nat
  | _ => True
  end.

Record linv (s : pool) (l : list (Z * Z)) : Prop := {
  li_list : good_list (heap s.2) (list_head s.2) l;
  li_write : (write_sem s.2 + count writer s.1 = 1)%nat;
  li_read : (read_sem s.2 + total readers s.1 = NUM_SEARCHERS)%nat;
  li_pcs : ∀ i p, s.1 !! i = Some p → pc_ok s.2 l p
}.

(** Updating one thread, the tokens conserved. *)
Lemma linv_update pcs sh l i p p' sh' l' :
  linv (pcs, sh) l → pcs !! i = Some p →
  good_list (heap sh') (list_head sh') l' →
  (write_sem sh' + b2n (writer p') = write_sem sh + b2n (writer p))%nat →
  (read_sem sh' + readers p' = read_sem sh + readers p)%nat →
  pc_ok sh' l' p' →
  (∀ j q, j ≠ i → pcs !! j = Some q → pc_ok sh l q → pc_ok sh' l' q) →
  linv (<[i := p']> pcs, sh') l'.
Proof.
  intros [Hl Hw Hr Hp] Hi Hl' Hw' Hr' Hp' Ho. simpl in *.
  pose proof (count_insert writer pcs i p p' Hi). pose proof (total_insert readers pcs i p p' Hi).
  split; simpl; [done|lia|lia|]. intros j q Hj. destruct (decide (j = i)) as [->|Hne].
  - rewrite list_lookup_insert_eq in Hj by (by eapply lookup_lt_Some). by simplify_eq.
  - rewrite list_lookup_insert_ne in Hj by done. eapply Ho; eauto.
Qed.

(** Steps that leave list and heap alone. *)
Lemma linv_local pcs sh l i p p' sh' :
  linv (pcs, sh) l → pcs !! i = Some p →
  list_head sh' = list_head sh → heap sh' = heap sh →
  (write_sem sh' + b2n (writer p') = write_sem sh + b2n (writer p))%nat →
  (read_sem sh' + readers p' = read_sem sh + readers p)%nat →
  pc_ok sh' l p' → ∃ l', linv (<[i := p']> pcs, sh') l'.
Proof.
  intros HI Hi Hh Hp Hw Hr Hok. exists l. eapply linv_update; [exact HI|exact Hi| |done|done|done|].
  - rewrite Hh, Hp. apply HI.
  - intros j q _ _. unfold pc_ok. by rewrite Hh, Hp.
Qed.

(** While a thread is writing, the others hold no pointers but a searcher's. *)
Lemma other_readers pcs sh l i p j q :
  linv (pcs, sh) l → pcs !! i = Some p → writer p = true → j ≠ i → pcs !! j = Some q → writer q = false.
Proof.
  intros HI Hi Hp Hne Hj. destruct (writer q) eqn:Hq; [|done].
  pose proof (count_two writer pcs j i q p Hne Hj Hi Hq Hp). pose proof (li_write _ _ HI). simpl in *. lia.
Qed.

Lemma pc_ok_mono sh l sh' l' q :
  writer q = false → (∀ a, a ∈ l.*1 → a ∈ l'.*1) → pc_ok sh l q → pc_ok sh' l' q.
Proof. intros Hw Hl. destruct q; simpl in *; try done; unfold ptr_ok; naive_solver. Qed.

Lemma pc_ok_idle sh l q : writer q = false → readers q = 0%nat → pc_ok sh l q.
Proof. intros Hw Hr. destruct q; simpl in *; done. Qed.

Lemma ptr_ok_head sh l : good_list (heap sh) (list_head sh) l → ptr_ok l (list_head sh).
Proof.
  intros [Hl _]. destruct (decide (list_head sh = 0)) as [|Hne]; [by left|right].
  by destruct (is_list_load _ _ _ Hl Hne) as (_ & _ & _ & ?).
Qed.

(** Following a pointer of the list stays on it. *)
Lemma ptr_ok_next sh l q n :
  good_list (heap sh) (list_head sh) l → q ≠ 0 → ptr_ok l q → heap sh !! q = Some n → ptr_ok l (next n).
Proof.
  intros [Hl _] Hq [?|Hin] Hn; [done|]. destruct (is_list_next _ _ _ _ Hl Hin) as (_ & d & q' & Hq' & Hor).
  rewrite Hn in Hq'. by simplify_eq.
Qed.

Lemma good_list_dom h p l a : good_list h p l → a ∈ l.*1 → is_Some (h !! a).
Proof. intros [Hl _] Ha. destruct (is_list_next _ _ _ _ Hl Ha) as (_ & d & q & Hq & _). by eexists. Qed.

(** The node whose successor is null is the last one. *)
Lemma last_node h p l q n :
  good_list h p l → q ∈ l.*1 → h !! q = Some n → next n = 0 → ∃ l' d, l = l' ++ [(q, d)].
Proof.
  intros [Hl Hnd] Hq Hn Hz. revert p Hl Hnd. induction l as [|[a d] l IH]; intros p Hl Hnd;
    [by apply not_elem_of_nil in Hq|]. simpl in Hl. destruct Hl as (-> & Ha & q' & Hq' & Hl).
  csimpl in Hq. csimpl in Hnd. apply NoDup_cons in Hnd as [Hnin Hnd]. apply elem_of_cons in Hq as [->|Hq].
  - rewrite Hn in Hq'. injection Hq' as ->. simpl in Hz. subst q'.
    destruct l as [|[b e] l]; [by exists [], d|]. simpl in Hl. destruct Hl as (<- & ? & _). done.
  - destruct (IH Hq q' Hl Hnd) as (l' & e & ->). by exists ((a, d) :: l'), e.
Qed.

Lemma good_list_size h p l : good_list h p l → (length l ≤ size h)%nat.
Proof.
  intros Hg. pose proof Hg as [_ Hnd]. rewrite <- (length_fmap fst l), <- (size_dom h).
  rewrite <- (size_list_to_set (C := gset Z) _ Hnd). apply subseteq_size.
  intros a Ha. apply elem_of_list_to_set in Ha. apply elem_of_dom. by eapply good_list_dom.
Qed.

(** Allocating a node does not touch the list. *)
Lemma linv_new pcs sh l i t v hd q a :
  linv (pcs, sh) l → pcs !! i = Some (I_new t v hd q) → malloc (heap sh) = Some a →
  ∃ l', linv (<[i := I_link t v hd q a]> pcs, set_list (list_head sh) (<[a := mk_node v 0]> (heap sh)) sh) l'.
Proof.
  intros HI Hi Ha. destruct (malloc_fresh _ _ Ha) as [Ha0 Hfr]. pose proof (li_list _ _ HI) as Hg. simpl in Hg.
  assert (a ∉ l.*1) as Hnin by (intros Hin; destruct (good_list_dom _ _ _ _ Hg Hin); congruence).
  destruct (li_pcs _ _ HI _ _ Hi) as [Hhd Hlast].
  exists l. eapply linv_update; [exact HI|exact Hi| |done|done| |].
  - destruct Hg as [Hl Hnd]. split; [|done]. apply (is_list_frame (heap sh)); [|done].
    intros b Hb. apply lookup_insert_ne. intros ->. done.
  - simpl. split_and!; [done|done|done|done|]. apply lookup_insert_eq.
  - intros j r Hne Hj. apply pc_ok_mono; [|done]. by eapply (other_readers pcs sh l i).
Qed.

(** Linking the node makes it the last one of the list. *)
Lemma linv_link pcs sh l i t v hd q a sh' :
  linv (pcs, sh) l → pcs !! i = Some (I_link t v hd q a) →
  (hd = 0 ∧ sh' = set_list a (heap sh) sh ∨
   hd ≠ 0 ∧ ∃ n, heap sh !! q = Some n ∧ sh' = set_list hd (<[q := mk_node (data n) a]> (heap sh)) sh) →
  ∃ l', linv (<[i := I_list t]> pcs, sh') l'.
Proof.
  intros HI Hi Hsh. pose proof (li_list _ _ HI) as Hg. simpl in Hg.
  destruct (li_pcs _ _ HI _ _ Hi) as (Hhd & Hlast & Ha0 & Hnin & Hha).
  exists (l ++ [(a, v)]).
  assert (good_list (heap sh') (list_head sh') (l ++ [(a, v)]) ∧ read_sem sh' = read_sem sh ∧
    write_sem sh' = write_sem sh) as (Hg' & Hr & Hw).
  { destruct Hsh as [(-> & ->)|(Hne & n & Hn & ->)]; destruct Hlast as [(Hz & ->)|(Hz & l1 & d & ->)]; try done.
    - split; [|done]. split; [|apply NoDup_singleton]. simpl. split_and!; [done|done|]. by exists 0.
    - split; [|done]. destruct (is_list_last _ _ _ _ _ (proj1 Hg)) as [_ Hq]. rewrite Hn in Hq. simplify_eq. simpl.
      by apply good_list_snoc. }
  eapply linv_update; [exact HI|exact Hi|exact Hg'|simpl; lia|simpl; lia|done|].
  intros j r Hne Hj. apply pc_ok_mono; [by eapply (other_readers pcs sh l i)|].
  intros b Hb. rewrite fmap_app. set_solver.
Qed.

(** A deleter with all the tokens is alone with the list. *)
Lemma deleter_alone pcs sh l i v j q :
  linv (pcs, sh) l → pcs !! i = Some (D_remove v) → j ≠ i → pcs !! j = Some q →
  writer q = false ∧ readers q = 0%nat.
Proof.
  intros HI Hi Hne Hj. split; [by eapply (other_readers pcs sh l i)|].
  pose proof (total_two readers pcs i j _ _ (not_eq_sym Hne) Hi Hj). pose proof (li_read _ _ HI).
  unfold NUM_SEARCHERS in *. simpl in *. lia.
Qed.

(** It removes a node nobody else points to. *)
Lemma linv_remove pcs sh l i v p h :
  linv (pcs, sh) l → pcs !! i = Some (D_remove v) →
  remove_node (S (size (heap sh))) (list_head sh) v (heap sh) = Ok (p, h) →
  ∃ l', linv (<[i := D_list]> pcs, set_list p h sh) l'.
Proof.
  intros HI Hi E. pose proof (li_list _ _ HI) as Hg. simpl in Hg. pose proof (good_list_size _ _ _ Hg).
  destruct (remove_ok (S (size (heap sh))) _ _ _ v Hg ltac:(lia)) as (p' & h' & E' & Hg' & _).
  rewrite E in E'. injection E' as <- <-. exists (remove1 v l).
  eapply linv_update; [exact HI|exact Hi|done|done|done|done|].
  intros j q Hne Hj _. by apply pc_ok_idle; eapply (deleter_alone pcs sh l i).
Qed.

Lemma linv_step pcs sh l i p p' sh' :
  linv (pcs, sh) l → pcs !! i = Some p → lstep i p sh p' sh' → ∃ l', linv (<[i := p']> pcs, sh') l'.
Proof.
  intros HI Hi Hs. pose proof (li_list _ _ HI) as Hg. pose proof (li_pcs _ _ HI _ _ Hi) as Hok. simpl in Hg.
  pose proof (ptr_ok_head _ _ Hg) as Hhead.
  inversion Hs; subst; simpl in Hok;
    try match goal with H : sem_wait _ = Some _ |- _ => apply sem_wait_some in H end;
    try (eapply linv_new; eassumption); try (eapply linv_remove; eassumption);
    try (eapply linv_link; [exact HI|exact Hi|]; naive_solver);
    (eapply linv_local; [exact HI|exact Hi|done|done|simpl; unfold sem_post, NUM_SEARCHERS in *; lia|simpl; unfold sem_post, NUM_SEARCHERS in *; lia|]);
    simpl; try done; try (by eapply ptr_ok_next).
  - unfold at_last. split; [done|]. left. split; [done|]. destruct Hg as [Hl _]. destruct l as [|[a d] l]; [done|].
    simpl in Hl. destruct Hl as (? & ? & _). congruence.
  - split_and!; [done|done|]. by destruct Hhead.
  - destruct Hok as (-> & Hne & Hin). split_and!; [done|done|].
    eassert (ptr_ok l (next _)) as [?|?]; [eapply ptr_ok_next; [exact Hg| |by right|eassumption]|done|done].
    by destruct (is_list_next _ _ _ _ (proj1 Hg) Hin) as (? & _).
  - destruct Hok as (-> & Hne & Hin). split; [done|]. right. split; [done|]. by eapply last_node.
  - unfold NUM_SEARCHERS in *. lia.
  - unfold NUM_SEARCHERS in *. lia.
Qed.

Lemma lreach_inv s : lreach s → ∃ l, linv s l.
Proof.
  apply (reachable_inv _ _ (λ s, ∃ l, linv s l)).
  - intros t (vs & Hv & ->). exists [].
    assert (∀ ws, count writer (D_wait <$> ws) = 0%nat ∧ total readers (D_wait <$> ws) = 0%nat) as Hd.
    { intros ws. unfold total. induction ws as [|w ws [IH1 IH2]]; csimpl; [done|]. by rewrite IH1, IH2. }
    assert (∀ A B, count writer (A ++ B) = (count writer A + count writer B)%nat) as Hc.
    { intros A B. induction A as [|x A IH]; simpl; [done|]. rewrite IH. lia. }
    split; simpl.
    + split; [done|by constructor].
    + destruct (Hd vs) as [Hd1 _]. simpl. rewrite Hd1. done.
    + destruct (Hd vs) as [_ Hd2]. unfold total in *. csimpl. rewrite Hd2. unfold NUM_SEARCHERS. lia.
    + intros i p Hi. apply list_elem_of_lookup_2 in Hi.
      assert (p = I_wait ∨ p = S_wait ∨ ∃ v, p = D_wait v) as [->|[->|[v ->]]]; [|done..].
      repeat (apply elem_of_cons in Hi as [->|Hi]; [by auto|]).
      apply list_elem_of_fmap in Hi as (v & -> & _). eauto.
  - intros t t' _ [l HI] Hs. inversion Hs; subst. by eapply linv_step.
Qed.

(** An inserter whose [malloc] fails: it is about to store through the null
    pointer. *)
Definition out_of_memory (s : lshared) (p : lpc) : Prop :=
  match p with I_new _ _ _ _ => malloc (heap s) = None | _ => False end.

(** A thread can move unless it is done, waits for a semaphore that is used up,
    or is out of memory. *)
Lemma thread_moves pcs sh l i p :
  linv (pcs, sh) l → pcs !! i = Some p → p ≠ L_done →
  (∃ p' sh', lstep i p sh p' sh') ∨
  match p with
  | S_wait => read_sem sh = 0%nat
  | I_wait | D_wait _ => write_sem sh = 0%nat
  | D_take k _ => (k < NUM_SEARCHERS)%nat ∧ read_sem sh = 0%nat
  | _ => out_of_memory sh p
  end.
Proof.
  intros HI Hi Hd. pose proof (li_list _ _ HI) as Hg. pose proof (li_pcs _ _ HI _ _ Hi) as Hok. simpl in Hg.
  assert (∀ q, ptr_ok l q → q = 0 ∨ q ≠ 0 ∧ ∃ n, heap sh !! q = Some n) as Hptr.
  { intros q [?|Hq]; [by left|right]. destruct (is_list_next _ _ _ _ (proj1 Hg) Hq) as (? & d & r & ? & _). eauto. }
  assert (∀ n, n = 0%nat ∨ ∃ m, sem_wait n = Some m) as Hsem by (intros [|m]; simpl; eauto).
  destruct p; simpl in Hok; try (left; eauto using lstep; fail).
  - destruct (Hsem (read_sem sh)) as [?|[m ?]]; [by right|left; eauto using lstep].
  - left. do 2 eexists. by apply (s_start _ _ 0).
  - left. destruct (Hptr _ Hok) as [->|(? & n & ?)]; [eauto using lstep|].
    destruct (decide (data n = v)); eauto using lstep.
  - left. destruct (Hptr _ Hok) as [->|(? & n & ?)]; eauto using lstep.
  - destruct (Hsem (write_sem sh)) as [?|[m ?]]; [by right|left; eauto using lstep].
  - left. destruct (decide (t < 5)%nat); [|do 2 eexists; apply i_end; lia].
    destruct (decide (list_head sh = 0)); do 2 eexists; [by apply (i_empty _ _ _ 0)|by apply (i_enter _ _ _ 0)].
  - left. destruct Hok as (-> & Hne & Hq). destruct (good_list_dom _ _ _ _ Hg Hq) as [n Hn].
    destruct (decide (next n = 0)); eauto using lstep.
  - simpl. destruct (malloc (heap sh)) as [a|] eqn:Ha; [left; eauto using lstep|by right].
  - left. destruct Hok as (-> & Hlast & _). destruct Hlast as [[-> _]|(Hne & l' & d & ->)]; [eauto using lstep|].
    destruct (is_list_last _ _ _ _ _ (proj1 Hg)) as [_ Hq]. eauto using lstep.
  - left. destruct (Hptr _ Hok) as [->|(? & n & ?)]; eauto using lstep.
  - destruct (Hsem (write_sem sh)) as [?|[m ?]]; [by right|left; eauto using lstep].
  - destruct (decide (k = NUM_SEARCHERS)) as [->|]; [left; eauto using lstep|].
    destruct (Hsem (read_sem sh)) as [?|[m ?]]; [right; split; [lia|done]|left].
    do 2 eexists. apply d_take; [lia|done].
  - left. pose proof (good_list_size _ _ _ Hg).
    destruct (remove_ok (S (size (heap sh))) _ _ _ v Hg ltac:(lia)) as (p' & h' & E' & _). eauto using lstep.
  - left. destruct (Hptr _ Hok) as [->|(? & n & ?)]; eauto using lstep.
  - left. destruct (decide (k = NUM_SEARCHERS)) as [->|]; [eauto using lstep|]. do 2 eexists. apply d_give. lia.
  - done.
Qed.

(** When the read tokens are used up and no deleter is collecting them, the
    thread that has one moves. *)
Lemma searcher_moves pcs sh l j q :
  linv (pcs, sh) l → pcs !! j = Some q → writer q = false → (0 < readers q)%nat →
  ∃ s', pstep lstep (pcs, sh) s'.
Proof.
  intros HI Hj Hw Hr. assert (q ≠ L_done) as Hd by (intros ->; simpl in Hr; lia).
  destruct (thread_moves _ _ _ _ _ HI Hj Hd) as [(q' & sh' & Hs)|Hb]; [eexists; by eapply pstep_at|].
  destruct q; simpl in *; done || lia.
Qed.

(** The thread with the write token moves, or a searcher does, or it is an
    inserter out of memory. *)
Lemma writer_moves pcs sh l i p :
  linv (pcs, sh) l → pcs !! i = Some p → writer p = true →
  (∃ s', pstep lstep (pcs, sh) s') ∨ out_of_memory sh p.
Proof.
  intros HI Hi Hw. assert (p ≠ L_done) as Hd by (by intros ->).
  destruct (thread_moves _ _ _ _ _ HI Hi Hd) as [(q' & sh' & Hs)|Hb]; [left; eexists; by eapply pstep_at|].
  destruct p as [| | | | | | | | | | | | | | |k v| | | | | |]; try done; [by right|left]. destruct Hb as [Hk Hr].
  pose proof (li_read _ _ HI) as Ht. simpl in Ht.
  destruct (total_other readers pcs i (D_take k v) Hi) as (j & q & Hne & Hj & Hq); [simpl; lia|].
  eapply searcher_moves; [done|exact Hj| |done]. by eapply (other_readers pcs sh l i).
Qed.

Lemma pool_moves pcs sh l i p :
  linv (pcs, sh) l → pcs !! i = Some p → p ≠ L_done →
  (∃ s', pstep lstep (pcs, sh) s') ∨ ∃ j q, pcs !! j = Some q ∧ out_of_memory sh q.
Proof.
  intros HI Hi Hd. pose proof (li_write _ _ HI) as Hw. pose proof (li_read _ _ HI) as Ht. simpl in *.
  destruct (count writer pcs) eqn:Hc.
  - left. destruct (thread_moves _ _ _ _ _ HI Hi Hd) as [(q' & sh' & Hs)|Hb]; [eexists; by eapply pstep_at|].
    pose proof (count_zero _ _ _ _ Hc Hi) as Hp. destruct p; try done; try (simpl in Hb; lia).
    destruct (total_ex readers pcs) as (j & q & Hj & Hq); [unfold NUM_SEARCHERS in Ht; lia|].
    eapply searcher_moves; [done|exact Hj| |done]. by eapply count_zero.
  - destruct (count_ex writer pcs) as (j & q & Hj & Hq); [lia|].
    destruct (writer_moves _ _ _ j q HI Hj Hq); eauto.
Qed.

(** C31: whatever the interleaving of searchers, inserters and deleters, the list
    stays a well-formed list; a thread about to use memory that is not allocated
    is an inserter whose [malloc] failed, never a thread at a node of the list; a
    deleter that removes a node is the only thread that holds a token; and as
    long as a thread is not done some thread can move, unless an inserter's
    [malloc] failed.  So walking the list while another thread appends to it is
    safe, and collecting the read tokens one by one does not deadlock. *)
Theorem shared_list_safe pcs sh :
  lreach (pcs, sh) →
  (∃ l, good_list (heap sh) (list_head sh) l) ∧
  (∀ i p, pcs !! i = Some p → faulting sh p → out_of_memory sh p) ∧
  (∀ i j v q, pcs !! i = Some (D_remove v) → j ≠ i → pcs !! j = Some q → writer q = false ∧ readers q = 0%nat) ∧
  ((∀ i p, pcs !! i = Some p → p = L_done) ∨ (∃ s', pstep lstep (pcs, sh) s') ∨
   ∃ i p, pcs !! i = Some p ∧ out_of_memory sh p).
Proof.
  intros Hr. destruct (lreach_inv _ Hr) as [l HI]. pose proof (thread_moves pcs sh l) as Hmove. split_and!.
  - exists l. apply HI.
  - intros i p Hi Hf. destruct (decide (p = L_done)) as [->|Hd]; [done|].
    destruct (Hmove i p HI Hi Hd) as [(p' & sh' & Hs)|Hw]; [|by destruct p].
    inversion Hs; subst; simpl in *; naive_solver.
  - intros i j v q. by apply (deleter_alone pcs sh l).
  - destruct (decide (Forall (λ p, p = L_done) pcs)) as [Hall|Hex].
    { left. intros i p Hi. by eapply Forall_lookup_1 in Hall. }
    right. apply not_Forall_Exists, Exists_exists in Hex as (p & (i & Hi)%list_elem_of_lookup & Hd); [|apply _].
    by eapply pool_moves.
Qed.
End Threads.

(** ** Instances *)

(** An allocator that always finds an address. *)
Definition any_malloc : NodeMalloc := λ h, Some (fresh ({[0]} ∪ dom h : gset Z)).

Lemma any_malloc_ok : @NodeMallocOk any_malloc.
Proof.
  intros h p [= <-]. pose proof (is_fresh ({[0]} ∪ dom h : gset Z)) as Hf.
  apply not_elem_of_union in Hf as [H0 Hd]. split; [set_solver|by apply not_elem_of_dom].
Qed.

Definition two_nodes : nodes := {[ 8 := mk_node 3 16; 16 := mk_node 7 0 ]}.

Lemma list_lib_ok_witness :
  search_by_value 3 8 7 two_nodes = Ok (1, two_nodes) ∧
  (∃ p h, remove_node 3 8 7 two_nodes = Ok (p, h) ∧ good_list h p [(8, 3)]) ∧
  free_list 3 8 two_nodes = Ok (tt, ∅).
Proof.
  destruct (@list_lib_ok any_malloc any_malloc_ok 3 two_nodes 8 [(8, 3); (16, 7)] 7)
    as (Hs & _ & _ & (p & h & Hr & Hg & _) & Hf).
  - split; [|apply (bool_decide_unpack _); vm_compute; reflexivity].
    simpl. split_and!; [done|done|]. exists 16. split; [reflexivity|]. split_and!; [done|done|].
    exists 0. split; reflexivity.
  - simpl. lia.
  - split_and!; [exact Hs|exists p, h; split; [exact Hr|exact Hg]|exact Hf].
Defined.

Definition list_threads : list lpc :=
  replicate NUM_INSERTERS I_wait ++ replicate NUM_SEARCHERS S_wait ++ (D_wait <$> [5; 9]).

Lemma shared_list_safe_witness :
  ∃ s', pstep (@lstep any_malloc) (<[0%nat := I_loop 0]> list_threads, mk_lshared 0 ∅ NUM_SEARCHERS 0) s'.
Proof.
  destruct (@shared_list_safe any_malloc any_malloc_ok (<[0%nat := I_loop 0]> list_threads)
    (mk_lshared 0 ∅ NUM_SEARCHERS 0)) as (_ & _ & _ & [Hd|[Hs|(i & p & _ & Ho)]]).
  - apply (reach_step _ _ (list_threads, mk_lshared 0 ∅ NUM_SEARCHERS 1)).
    + apply reach_init. exists [5; 9]. split; reflexivity.
    + apply (pstep_at _ 0 list_threads _ I_wait); [reflexivity|]. by apply (i_wait 0 (mk_lshared 0 ∅ NUM_SEARCHERS 1) 0).
  - discriminate (Hd 0%nat (I_loop 0) eq_refl).
  - exact Hs.
  - destruct p; simpl in Ho; try contradiction. discriminate Ho.
Defined.
