(* ===== verification/Barber.v ===== *)
(** * The sleeping barber (concurrency4/barber.c)

    The main thread, the barber and the customers over four semaphores and the
    flag [end_of_day].  A step is one semaphore operation, one test of the flag,
    or one action of [main]. *)

From S2P Require Import Prelude Threads.

(** A customer: not yet created, on the way to the shop, and before each of the
    semaphore operations of [get_hair_cut]. *)
Inductive cust := C_new | Arrive | Room | Chair | Leave_room | Wake | Cut | Rise | Away.
#[global] Instance cust_eq_dec : EqDecision cust.
Proof. solve_decision. Defined.

(** The barber: before the test of the loop, before [sem_wait(&nap_time)], and
    in [cut_hair] before its test, cutting, and before
    [sem_post(&in_progress)]. *)
Inductive barber := B_loop | B_sleep | B_test | B_cutting | B_done_cut | B_home.
#[global] Instance barber_eq_dec : EqDecision barber.
Proof. solve_decision. Defined.

(** [main]: creating customer [i], joining customer [i], and the end of the
    day. *)
Inductive bmain := M_create (i : nat) | M_join (i : nat) | M_post | M_join_barber | M_exit.

(** The semaphores and the flag; [haircuts] counts the haircuts finished. *)
Record sems := mk_sems {
  waiting_room : nat; barber_chair : nat; in_progress : nat; nap_time : nat; end_of_day : bool; haircuts : nat
}.

Record shop := mk_shop { b_main : bmain; b_barber : barber; customers : list cust; b_sems : sems }.

(** [customer_proc] and [get_hair_cut]. *)
Inductive customer_step : cust → sems → cust → sems → Prop :=
| c_arrive s : customer_step Arrive s Room s
| c_room w c p n e h w' : sem_wait w = Some w' →
    customer_step Room (mk_sems w c p n e h) Chair (mk_sems w' c p n e h)
| c_chair w c p n e h c' : sem_wait c = Some c' →
    customer_step Chair (mk_sems w c p n e h) Leave_room (mk_sems w c' p n e h)
| c_leave w c p n e h : customer_step Leave_room (mk_sems w c p n e h) Wake (mk_sems (sem_post w) c p n e h)
| c_wake w c p n e h : customer_step Wake (mk_sems w c p n e h) Cut (mk_sems w c p (sem_post n) e h)
| c_cut w c p n e h p' : sem_wait p = Some p' →
    customer_step Cut (mk_sems w c p n e h) Rise (mk_sems w c p' n e h)
| c_rise w c p n e h : customer_step Rise (mk_sems w c p n e h) Away (mk_sems w (sem_post c) p n e h).

(** [barber_proc] and [cut_hair]. *)
Inductive barber_step : barber → sems → barber → sems → Prop :=
| b_open s : end_of_day s = false → barber_step B_loop s B_sleep s
| b_close s : end_of_day s = true → barber_step B_loop s B_home s
| b_woken w c p n e h n' : sem_wait n = Some n' →
    barber_step B_sleep (mk_sems w c p n e h) B_test (mk_sems w c p n' e h)
| b_cut s : end_of_day s = false → barber_step B_test s B_cutting s
| b_late s : end_of_day s = true → barber_step B_test s B_loop s
| b_finish s : barber_step B_cutting s B_done_cut s
| b_post w c p n e h : barber_step B_done_cut (mk_sems w c p n e h) B_loop (mk_sems w c (sem_post p) n e (S h)).

(** [main] and the threads it created; the process lives until [main] exits. *)
Inductive shop_step : shop → shop → Prop :=
| m_create i b l s : l !! i = Some C_new →
    shop_step (mk_shop (M_create i) b l s) (mk_shop (M_create (S i)) b (<[i := Arrive]> l) s)
| m_created b l s : shop_step (mk_shop (M_create (length l)) b l s) (mk_shop (M_join 0) b l s)
| m_join i b l s : l !! i = Some Away → shop_step (mk_shop (M_join i) b l s) (mk_shop (M_join (S i)) b l s)
| m_joined b l w c p n e h :
    shop_step (mk_shop (M_join (length l)) b l (mk_sems w c p n e h)) (mk_shop M_post b l (mk_sems w c p n true h))
| m_post b l w c p n e h :
    shop_step (mk_shop M_post b l (mk_sems w c p n e h)) (mk_shop M_join_barber b l (mk_sems w c p (sem_post n) e h))
| m_exit l s : shop_step (mk_shop M_join_barber B_home l s) (mk_shop M_exit B_home l s)
| s_barber m b l s b' s' : m ≠ M_exit → barber_step b s b' s' → shop_step (mk_shop m b l s) (mk_shop m b' l s')
| s_customer m b l s i x x' s' : m ≠ M_exit → l !! i = Some x → customer_step x s x' s' →
    shop_step (mk_shop m b l s) (mk_shop m b (<[i := x']> l) s').

(** The shop with [chairs] chairs in the waiting room and [k] customers to
    come, the barber's thread created. *)
Definition shop_opens (chairs k : nat) : shop :=
  mk_shop (M_create 0) B_loop (replicate k C_new) (mk_sems chairs 1 0 0 false 0).

Definition shop_reachable (chairs k : nat) : shop → Prop := reachable (λ s, s = shop_opens chairs k) shop_step.

(** ** The invariant *)

Definition in_room (x : cust) : bool := match x with Chair | Leave_room => true | _ => false end.
Definition in_chair (x : cust) : bool := match x with Leave_room | Wake | Cut | Rise => true | _ => false end.
Definition being_cut (x : cust) : bool := match x with Cut => true | _ => false end.
Definition was_cut (x : cust) : bool := match x with Rise | Away => true | _ => false end.
Definition serving (b : barber) : nat := match b with B_test | B_cutting | B_done_cut => 1 | _ => 0 end.

(** Where the barber is, [main] having ended the day; a barber who sleeps has
    been called. *)
Definition closing (m : bmain) (b : barber) (n : nat) : Prop :=
  match m, b with
  | M_post, (B_loop | B_sleep | B_home) => n = 0%nat
  | M_join_barber, B_sleep => n = 1%nat
  | M_join_barber, (B_test | B_loop | B_home) => True
  | M_exit, B_home => True
  | _, _ => False
  end.

Record shop_inv (chairs k : nat) (s : shop) : Prop := {
  si_len : length (customers s) = k;
  si_room : (waiting_room (b_sems s) + count in_room (customers s) = chairs)%nat;
  si_chair : (barber_chair (b_sems s) + count in_chair (customers s) = 1)%nat;
  si_cuts : haircuts (b_sems s) = (count was_cut (customers s) + in_progress (b_sems s))%nat;
  si_open : end_of_day (b_sems s) = false →
    (nap_time (b_sems s) + serving (b_barber s) + in_progress (b_sems s) = count being_cut (customers s))%nat ∧
    b_barber s ≠ B_home;
  si_closed : end_of_day (b_sems s) = true →
    in_progress (b_sems s) = 0%nat ∧ closing (b_main s) (b_barber s) (nap_time (b_sems s));
  si_main : match b_main s with
    | M_create i => end_of_day (b_sems s) = false ∧ (i ≤ k)%nat ∧
        ∀ j x, customers s !! j = Some x → (x = C_new ↔ (i ≤ j)%nat)
    | M_join i => end_of_day (b_sems s) = false ∧ (i ≤ k)%nat ∧
        ∀ j x, customers s !! j = Some x → x ≠ C_new ∧ ((j < i)%nat → x = Away)
    | _ => end_of_day (b_sems s) = true ∧ ∀ j x, customers s !! j = Some x → x = Away
    end
}.

(** How a change of customer [i] changes the counts. *)
Lemma counts_insert l i x x' :
  l !! i = Some x →
  (count in_room (<[i := x']> l) + b2n (in_room x) = count in_room l + b2n (in_room x'))%nat ∧
  (count in_chair (<[i := x']> l) + b2n (in_chair x) = count in_chair l + b2n (in_chair x'))%nat ∧
  (count being_cut (<[i := x']> l) + b2n (being_cut x) = count being_cut l + b2n (being_cut x'))%nat ∧
  (count was_cut (<[i := x']> l) + b2n (was_cut x) = count was_cut l + b2n (was_cut x'))%nat.
Proof. intros Hi. split_and!; by apply count_insert. Qed.

Lemma lookup_insert_cases {A} (l : list A) i x j y :
  <[i := x]> l !! j = Some y → (j = i ∧ y = x) ∨ (j ≠ i ∧ l !! j = Some y).
Proof. rewrite list_lookup_insert_Some. naive_solver. Qed.

Lemma customer_inv chairs k m b l s i x x' s' :
  shop_inv chairs k (mk_shop m b l s) → l !! i = Some x → customer_step x s x' s' →
  shop_inv chairs k (mk_shop m b (<[i := x']> l) s').
Proof.
  intros [Hlen Hr Hc Hh Ho Hcl Hm] Hi Hs. destruct (counts_insert l i x x' Hi) as (R & C & B & W). simpl in *.
  assert (x ≠ C_new ∧ x' ≠ C_new ∧ x ≠ Away ∧ end_of_day s' = end_of_day s) as (Hx & Hx' & Hxa & He)
    by (by inversion Hs).
  assert (end_of_day s = false) as Hday.
  { destruct m; try apply Hm; destruct Hm as [_ Hall]; by destruct Hxa; apply (Hall i). }
  split; simpl; rewrite ?length_insert, ?He; [done|..| |].
  1-5: inversion Hs; subst; simpl in *;
    repeat match goal with H : sem_wait _ = Some _ |- _ => apply sem_wait_some in H end;
    unfold sem_post; try (intros Hd; destruct (Ho Hd) as [Ho1 Ho2]; split; [lia|done]); try lia; congruence.
  destruct m as [i0|i0| | |]; [| |by destruct Hm as [_ Hall]; destruct Hxa; apply (Hall i)..].
  - destruct Hm as (? & ? & Hall). split_and!; [done|done|].
    intros j y [[-> ->]|[Hne Hj]]%lookup_insert_cases; [|by apply Hall]. rewrite <- (Hall i x Hi). done.
  - destruct Hm as (? & ? & Hall). split_and!; [done|done|].
    intros j y [[-> ->]|[Hne Hj]]%lookup_insert_cases; [|by apply Hall]. split; [done|].
    intros Hlt. destruct (Hall i x Hi) as [_ Ha]. by destruct Hxa; apply Ha.
Qed.

Lemma barber_inv chairs k m b l s b' s' :
  shop_inv chairs k (mk_shop m b l s) → barber_step b s b' s' → shop_inv chairs k (mk_shop m b' l s').
Proof.
  intros [Hlen Hr Hc Hh Ho Hcl Hm] Hs. simpl in *.
  assert (end_of_day s' = end_of_day s) as He by (by inversion Hs).
  split; simpl; rewrite ?He; [done|..|exact Hm].
  all: inversion Hs; subst; simpl in *;
    repeat match goal with H : sem_wait _ = Some _ |- _ => apply sem_wait_some in H end;
    unfold sem_post; try lia;
    try (intros Hd; first [destruct (Ho Hd) as [Ho1 Ho2]; split; [lia|done]
      |destruct (Hcl Hd) as [Hcl1 Hcl2]; split; [lia|]; destruct m; simpl in *; done || lia|congruence]).
  intros Hd. destruct (Hcl Hd) as [_ Hx]. by destruct m.
Qed.

Lemma shop_inv_step chairs k s s' : shop_inv chairs k s → shop_step s s' → shop_inv chairs k s'.
Proof.
  intros HI Hs. inversion Hs; subst; try (by eapply customer_inv); try (by eapply barber_inv);
    destruct HI as [Hlen Hr Hc Hh Ho Hcl Hm]; simpl in *.
  - destruct (counts_insert l i C_new Arrive H) as (R & C & B & W). simpl in *.
    destruct Hm as (He & Hi & Hall). apply lookup_lt_Some in H as Hlt.
    split; simpl; rewrite ?length_insert; try done; try lia.
    + intros Hd. destruct (Ho Hd). split; [lia|done].
    + split_and!; [done|lia|]. intros j x [[-> ->]|[Hne Hj]]%lookup_insert_cases; [split; [done|lia]|].
      rewrite (Hall j x Hj). lia.
  - destruct Hm as (He & Hi & Hall). split; simpl; try done. split_and!; [done|lia|].
    intros j x Hj. split; [|lia]. intros ->. apply lookup_lt_Some in Hj as Hlt. pose proof (proj1 (Hall _ _ Hj) eq_refl). lia.
  - destruct Hm as (He & Hi & Hall). split; simpl; try done. apply lookup_lt_Some in H as Hlt.
    split_and!; [done|lia|]. intros j x Hj. split; [by eapply Hall|]. intros Hji.
    destruct (decide (j = i)) as [->|]; [congruence|]. eapply Hall; [done|lia].
  - destruct Hm as (He & Hi & Hall).
    assert (∀ j x, l !! j = Some x → x = Away) as Haway.
    { intros j x Hj. eapply Hall; [done|by eapply lookup_lt_Some]. }
    assert (count being_cut l = 0%nat) as Hz.
    { destruct (count being_cut l) eqn:E; [done|]. destruct (count_ex being_cut l) as (j & x & Hj & Hx); [lia|].
      by rewrite (Haway j x Hj) in Hx. }
    destruct (Ho He) as [Ho1 Ho2]. split; simpl; try done. intros _. split; [lia|].
    destruct b; simpl in *; done || lia.
  - destruct Hm as (-> & Hall). destruct (Hcl eq_refl) as [Hcl1 Hcl2]. split; simpl; try done. intros _. split; [done|].
    destruct b; simpl in *; done || (unfold sem_post; lia).
  - destruct Hm as (He & Hall). destruct (Hcl He) as [Hcl1 Hcl2]. by split.
Qed.

Lemma shop_reachable_inv chairs k s : shop_reachable chairs k s → shop_inv chairs k s.
Proof.
  apply (reachable_inv _ _ (shop_inv chairs k)).
  - intros t ->. split; simpl; rewrite ?length_replicate, ?count_replicate; simpl; try done; try lia.
    split_and!; [done|lia|]. intros j x [-> _]%lookup_replicate. split; [lia|done].
  - intros t t' _. apply shop_inv_step.
Qed.

(** ** Progress *)

(** A barber with a call to answer moves; so does one whose day has ended. *)
Lemma barber_moves chairs k m b l s :
  shop_inv chairs k (mk_shop m b l s) → m ≠ M_exit → (0 < nap_time s + serving b)%nat → b ≠ B_home →
  ∃ s', shop_step (mk_shop m b l s) s'.
Proof.
  intros HI Hm Hn Hb. destruct s as [w c p n e h]. simpl in Hn.
  assert (∃ b' t, barber_step b (mk_sems w c p n e h) b' t) as (b' & t & Hs); [|eexists; by apply s_barber].
  destruct b; try done; try (by eexists _, _; constructor).
  - destruct e; eexists _, _; by constructor.
  - destruct n; simpl in Hn; [lia|]. eexists _, _. by constructor.
  - destruct e; eexists _, _; by constructor.
Qed.

(** Somebody in the chair gets up in the end: a thread moves. *)
Lemma chair_moves chairs k m b l s i x :
  shop_inv chairs k (mk_shop m b l s) → m ≠ M_exit → l !! i = Some x → in_chair x = true →
  ∃ s', shop_step (mk_shop m b l s) s'.
Proof.
  intros HI Hm Hi Hx. destruct s as [w c p n e h]. pose proof HI as [_ _ _ _ Ho _ Hmain]. simpl in *.
  assert (e = false) as ->.
  { destruct m; try apply Hmain; destruct Hmain as [_ Hall]; by rewrite (Hall i x Hi) in Hx. }
  destruct x; try done; try (by eexists; eapply s_customer; [done|exact Hi|constructor]).
  destruct (Ho eq_refl) as [Hn Hb]. pose proof (count_pos being_cut l i Cut Hi eq_refl).
  destruct p as [|p]; [|by eexists; eapply s_customer; [done|exact Hi|constructor]].
  eapply barber_moves; [exact HI|done|simpl; lia|done].
Qed.

Lemma customer_moves chairs k m b l s i x :
  (0 < chairs)%nat → shop_inv chairs k (mk_shop m b l s) → m ≠ M_exit → l !! i = Some x → x ≠ C_new → x ≠ Away →
  ∃ s', shop_step (mk_shop m b l s) s'.
Proof.
  intros Hch HI Hm Hi Hn Ha. pose proof HI as [_ Hr Hc _ _ _ _]. simpl in *.
  destruct (count in_chair l) eqn:E.
  2:{ destruct (count_ex in_chair l) as (j & y & Hj & Hy); [lia|]. by eapply chair_moves. }
  destruct s as [w c p n e h]. simpl in *. assert (c = 1%nat) as -> by lia.
  destruct x; try done; try (by pose proof (count_zero _ _ _ _ E Hi));
    try (by eexists; eapply s_customer; [done|exact Hi|constructor]).
  destruct w as [|w]; [|by eexists; eapply s_customer; [done|exact Hi|constructor]].
  destruct (count_ex in_room l) as (j & y & Hj & Hy); [lia|]. destruct y; try done.
  - by eexists; eapply s_customer; [done|exact Hj|constructor].
  - by pose proof (count_zero _ _ _ _ E Hj).
Qed.

Lemma shop_progress chairs k s :
  (0 < chairs)%nat → shop_inv chairs k s → b_main s = M_exit ∨ ∃ s', shop_step s s'.
Proof.
  intros Hch HI. destruct s as [m b l s]. pose proof HI as [Hlen _ _ _ _ Hcl Hm]. simpl in *. subst k.
  destruct m as [i|i| | |]; [right..|by left].
  - destruct Hm as (He & Hi & Hall). destruct (decide (i = length l)) as [->|Hne]; [eexists; apply m_created|].
    destruct (lookup_lt_is_Some_2 l i ltac:(lia)) as [x Hx]. eexists. apply m_create. rewrite Hx. f_equal.
    by apply (Hall i x Hx).
  - destruct Hm as (He & Hi & Hall). destruct (decide (i = length l)) as [->|Hne].
    { destruct s. eexists. apply m_joined. }
    destruct (lookup_lt_is_Some_2 l i ltac:(lia)) as [x Hx]. destruct (Hall i x Hx) as [Hnew _].
    destruct (decide (x = Away)) as [->|]; [eexists; by apply m_join|]. by eapply customer_moves.
  - destruct s. eexists. apply m_post.
  - destruct (decide (b = B_home)) as [->|Hb]; [eexists; apply m_exit|].
    destruct Hm as [He _]. destruct (Hcl He) as [_ Hc].
    destruct (decide (b = B_loop)) as [->|Hl]; [eexists; apply s_barber; [done|by apply b_close]|].
    eapply barber_moves; [exact HI|done| |done]. destruct b; simpl in *; done || lia.
Qed.

(** ** Termination *)

(** Steps left: a call to the barber costs him a round. *)
Definition cust_left (x : cust) : nat :=
  match x with C_new => 15 | Arrive => 14 | Room => 13 | Chair => 12 | Leave_room => 11 | Wake => 10
  | Cut => 2 | Rise => 1 | Away => 0 end.
Definition barber_left (b : barber) : nat :=
  match b with B_loop => 2 | B_sleep => 1 | B_test => 5 | B_cutting => 4 | B_done_cut => 3 | B_home => 0 end.
Definition bmain_left (k : nat) (m : bmain) : nat :=
  match m with M_create i => 10 + 2 * k + (k - i) | M_join i => 9 + (k - i) | M_post => 8 | M_join_barber => 1
  | M_exit => 0 end.
Definition shop_left (s : shop) : nat :=
  (bmain_left (length (customers s)) (b_main s) + barber_left (b_barber s) + total cust_left (customers s)
   + 5 * nap_time (b_sems s))%nat.

Lemma shop_step_left chairs k s s' : shop_inv chairs k s → shop_step s s' → (shop_left s' < shop_left s)%nat.
Proof.
  intros HI Hs. unfold shop_left.
  inversion Hs; subst; simpl; rewrite ?length_insert; unfold sem_post;
    try match goal with H : ?l !! ?i = Some _ |- context [<[?i := ?y]> _] =>
      pose proof (total_insert cust_left l i _ y H) end;
    try match goal with H : ?l !! ?i = Some _ |- _ => apply lookup_lt_Some in H as ? end;
    try match goal with H : customer_step _ _ _ _ |- _ => inversion H; subst end;
    try match goal with H : barber_step _ _ _ _ |- _ => inversion H; subst end;
    repeat match goal with H : sem_wait _ = Some _ |- _ => apply sem_wait_some in H end; subst;
    simpl in *; unfold sem_post; lia.
Qed.

(** C34: with at least one chair in the waiting room, in every interleaving of
    [main], the barber and the customers: at most one customer sits in the
    barber's chair and at most as many in the waiting room as it has chairs;
    every run ends and none gets stuck before [main] exits; and when it has
    exited the barber is home and every customer got exactly one haircut. *)
Theorem barber_shop_ok chairs k s :
  (0 < chairs)%nat → shop_reachable chairs k s →
  (count in_chair (customers s) ≤ 1)%nat ∧ (count in_room (customers s) ≤ chairs)%nat ∧
  terminates shop_step s ∧ (b_main s = M_exit ∨ ∃ s', shop_step s s') ∧
  (b_main s = M_exit → b_barber s = B_home ∧ customers s = replicate k Away ∧ haircuts (b_sems s) = k).
Proof.
  intros Hch HI%shop_reachable_inv. split_and!.
  - pose proof (si_chair _ _ _ HI). lia.
  - pose proof (si_room _ _ _ HI). lia.
  - apply (measure_terminates shop_step shop_left (shop_inv chairs k));
      [by apply shop_inv_step|by apply shop_step_left|done].
  - by eapply shop_progress.
  - intros Hm. destruct HI as [Hlen _ _ Hh _ Hcl Hmain]. rewrite Hm in *. destruct Hmain as [He Hall].
    destruct (Hcl He) as [Hp Hc]. assert (customers s = replicate k Away) as Hcs.
    { apply list_eq. intros j. destruct (customers s !! j) as [x|] eqn:Hj.
      - rewrite (Hall j x Hj). symmetry. apply lookup_replicate. split; [done|]. rewrite <- Hlen. by eapply lookup_lt_Some.
      - symmetry. apply lookup_replicate_None. rewrite <- Hlen. by apply lookup_ge_None. }
    split_and!; [by destruct (b_barber s)|done|]. rewrite Hh, Hp, Hcs, count_replicate. simpl. lia.
Qed.

(** The shop with one chair and two customers runs and ends. *)
Lemma barber_shop_ok_witness :
  terminates shop_step (shop_opens 1 2) ∧ ∃ s', shop_step (shop_opens 1 2) s'.
Proof.
  destruct (barber_shop_ok 1 2 (shop_opens 1 2)) as (_ & _ & Ht & [Hm|Hs] & _).
  - lia.
  - apply reach_init. reflexivity.
  - discriminate Hm.
  - split; [exact Ht|exact Hs].
Defined.
