(* ===== verification/Resource.v ===== *)
(** * A resource shared by three threads (concurrency5/prob1/prob1.c)

    [main] creates threads that take one of three units of a resource, count
    themselves in [threads_active] under a mutex, meet at a barrier for three,
    count themselves out and give the unit back; [main] waits on a condition
    variable before it creates a thread while [set_lock] is set.  A step of the
    program is a function of the thread that is scheduled and of what
    [pthread_create] returns.  [pthread_cond_wait] may also return without a
    signal: such a wake-up is a step of its own, [spurious_wake]. *)

From S2P Require Import Prelude Threads.

(** [thread_task]: before the semaphore, the two critical sections (before
    [pthread_mutex_lock] and inside), the use of the resource, the barrier, and
    the final [sem_post].  A thread that has arrived at the barrier remembers
    the round it arrived in. *)
Inductive task :=
| T_new | T_sem | T_lock | T_enter | T_use | T_barrier | T_wait (round : nat) | T_lock2 | T_leave | T_post | T_exit.

(** [main] with the thread it is about to create: before the mutex, testing the
    condition inside, in [pthread_cond_wait], about to get the mutex again,
    before [pthread_create]; then joining thread [i]; the two exits, [R_failed]
    with [EXIT_FAILURE]. *)
Inductive rmain :=
| R_lock (i : nat) | R_test (i : nat) | R_wait (i : nat) | R_relock (i : nat) | R_create (i : nat)
| R_join (i : nat) | R_exit | R_failed.

#[global] Instance task_eq_dec : EqDecision task.
Proof. solve_decision. Defined.
#[global] Instance rmain_eq_dec : EqDecision rmain.
Proof. solve_decision. Defined.

(** The globals; a mutex remembers its holder (0 is [main]), the barrier counts
    the arrivals of its current round, [cond_waiting] is whether [main] sleeps on
    [cond]. *)
Record rshared := mk_rshared {
  resource : nat; arrived : nat; round : nat;
  threads_active : Z; set_lock : Z; cond_waiting : bool; lock : option nat
}.

Record rstate := mk_rstate { r_main : rmain; r_tasks : list task; r_sh : rshared }.

Definition with_lock (m : option nat) (s : rshared) : rshared :=
  mk_rshared (resource s) (arrived s) (round s) (threads_active s) (set_lock s) (cond_waiting s) m.
Definition with_resource (n : nat) (s : rshared) : rshared :=
  mk_rshared n (arrived s) (round s) (threads_active s) (set_lock s) (cond_waiting s) (lock s).

(** Lines 82-87 and 97-102, to the release of the mutex: [main], if it waits, is
    woken by the signal. *)
Definition count_in (s : rshared) : rshared :=
  let a := s32 (threads_active s + 1) in
  mk_rshared (resource s) (arrived s) (round s) a (if 3 <=? a then 1 else set_lock s) false (mutex_unlock (lock s)).
Definition count_out (s : rshared) : rshared :=
  let a := s32 (threads_active s - 1) in
  mk_rshared (resource s) (arrived s) (round s) a (if a =? 0 then 0 else set_lock s) false (mutex_unlock (lock s)).

(** [pthread_barrier_wait] of a barrier for three: the third one to arrive goes
    on and starts the next round, which lets the others go. *)
Definition arrive (s : rshared) : task * rshared :=
  if decide (S (arrived s) < 3)%nat then
    (T_wait (round s), mk_rshared (resource s) (S (arrived s)) (round s) (threads_active s) (set_lock s)
                         (cond_waiting s) (lock s))
  else (T_lock2, mk_rshared (resource s) 0 (S (round s)) (threads_active s) (set_lock s) (cond_waiting s) (lock s)).

(** One action of thread [i], [None] if it cannot move. *)
Definition thread_task (i : nat) (t : task) (s : rshared) : option (task * rshared) :=
  match t with
  | T_new | T_exit => None
  | T_sem => n ← sem_wait (resource s); Some (T_lock, with_resource n s)
  | T_lock => m ← mutex_lock (S i) (lock s); Some (T_enter, with_lock m s)
  | T_enter => Some (T_use, count_in s)
  | T_use => Some (T_barrier, s)
  | T_barrier => Some (arrive s)
  | T_wait r => if decide (r < round s)%nat then Some (T_lock2, s) else None
  | T_lock2 => m ← mutex_lock (S i) (lock s); Some (T_leave, with_lock m s)
  | T_leave => Some (T_post, count_out s)
  | T_post => Some (T_exit, with_resource (sem_post (resource s)) s)
  end.

(** One action of [main]; [rc] is what [pthread_create] returns, and creating a
    thread makes it runnable. *)
Definition main_step (rc : Z) (s : rstate) : option rstate :=
  let '(mk_rstate m ts sh) := s in
  match m with
  | R_lock i =>
      if decide (i = length ts) then Some (mk_rstate (R_join 0) ts sh)
      else l ← mutex_lock 0 (lock sh); Some (mk_rstate (R_test i) ts (with_lock l sh))
  | R_test i =>
      if negb (set_lock sh =? 0) || (3 <=? threads_active sh) then
        Some (mk_rstate (R_wait i) ts
          (mk_rshared (resource sh) (arrived sh) (round sh) (threads_active sh) (set_lock sh) true (mutex_unlock (lock sh))))
      else Some (mk_rstate (R_create i) ts (with_lock (mutex_unlock (lock sh)) sh))
  | R_wait i => if cond_waiting sh then None else Some (mk_rstate (R_relock i) ts sh)
  | R_relock i => l ← mutex_lock 0 (lock sh); Some (mk_rstate (R_test i) ts (with_lock l sh))
  | R_create i =>
      if rc =? 0 then Some (mk_rstate (R_lock (S i)) (<[i := T_sem]> ts) sh) else Some (mk_rstate R_failed ts sh)
  | R_join i =>
      if decide (i = length ts) then Some (mk_rstate R_exit ts sh)
      else match ts !! i with Some T_exit => Some (mk_rstate (R_join (S i)) ts sh) | _ => None end
  | R_exit | R_failed => None
  end.

(** The scheduler picks [main] or a thread. *)
Definition sched_step (rc : Z) (who : option nat) (s : rstate) : option rstate :=
  match who with
  | None => main_step rc s
  | Some i =>
      match r_main s with
      | R_exit | R_failed => None
      | _ => t ← r_tasks s !! i; r ← thread_task i t (r_sh s);
             Some (mk_rstate (r_main s) (<[i := r.1]> (r_tasks s)) r.2)
      end
  end.

Definition rstep (s s' : rstate) : Prop := ∃ rc who, sched_step rc who s = Some s'.

(** [main] leaves [pthread_cond_wait] though nobody signalled. *)
Definition spurious_wake (s s' : rstate) : Prop :=
  ∃ i, r_main s = R_wait i ∧ cond_waiting (r_sh s) = true ∧
    s' = mk_rstate (R_relock i) (r_tasks s)
           (mk_rshared (resource (r_sh s)) (arrived (r_sh s)) (round (r_sh s)) (threads_active (r_sh s))
              (set_lock (r_sh s)) false (lock (r_sh s))).
Definition any_step (s s' : rstate) : Prop := rstep s s' ∨ spurious_wake s s'.

Fixpoint run_schedule (l : list (option nat)) (s : rstate) : option rstate :=
  match l with [] => Some s | who :: l => s' ← sched_step 0 who s; run_schedule l s' end.

(** The start with [n] threads to create. *)
Definition resource_start (n : nat) : rstate :=
  mk_rstate (R_lock 0) (replicate n T_new) (mk_rshared 3 0 0 0 0 false None).


(** ** The invariant *)













(** A step of thread [i]. *)
Lemma thread_sched rc m ts sh i s' :
  sched_step rc (Some i) (mk_rstate m ts sh) = Some s' →
  ∃ t t' sh', ts !! i = Some t ∧ thread_task i t sh = Some (t', sh') ∧ s' = mk_rstate m (<[i := t']> ts) sh'.
Proof.
  simpl. intros E. destruct m; try done; apply bind_Some in E as (t & ? & E);
    apply bind_Some in E as ([t' sh'] & ? & E); simplify_eq; eauto 10.
Qed.






(** ** Three threads: progress *)

(** A thread that cannot move. *)
Definition blocked (s : rstate) : Prop := ∀ rc who, sched_step rc who s = None.





(** ** Termination *)







(** ** Six threads *)

(** [main] creates four threads before the first three have counted themselves
    in; the fourth takes the unit the first gave back while the other two are
    still active, and waits at the barrier. *)
Definition early_fourth : list (option nat) :=
  replicate 12 None ++ replicate 3 (Some 0%nat) ++ replicate 3 (Some 1%nat) ++ replicate 3 (Some 2%nat) ++
  [None; None] ++ [Some 0; Some 0; Some 1; Some 1; Some 2; Some 2; Some 0; Some 1]%nat ++
  replicate 3 (Some 0%nat) ++ replicate 5 (Some 3%nat) ++ replicate 3 (Some 1%nat) ++ replicate 3 (Some 2%nat) ++
  replicate 3 None.

(** Four threads were created, three of them done, the fourth at the barrier;
    [main] is waiting, or it was woken and is about to wait again. *)
Definition stuck_six (s : rstate) : Prop :=
  r_tasks s = [T_exit; T_exit; T_exit; T_wait 1; T_new; T_new] ∧
  set_lock (r_sh s) = 1 ∧ threads_active (r_sh s) = 1 ∧ round (r_sh s) = 1%nat ∧
  (r_main s = R_wait 4 ∨ r_main s = R_relock 4 ∨ r_main s = R_test 4).

Lemma stuck_six_step s s' : stuck_six s → any_step s s' → stuck_six s'.
Proof.
  destruct s as [m ts [? ? ? ? ? cw l]]. intros (E1 & E2 & E3 & E4 & E5) Hs. simpl in *. subst.
  destruct Hs as [(rc & [i|] & E)|(i & Hm & _ & ->)].
  - apply thread_sched in E as (t & t' & sh' & Hi & Et & _).
    do 6 (destruct i as [|i]; [by simpl in Hi; injection Hi as <-; vm_compute in Et|]). done.
  - destruct E5 as [->|[->| ->]]; simpl in E.
    + destruct cw; simplify_eq. by split_and!; try (right; left).
    + apply bind_Some in E as (? & _ & E). simplify_eq. by split_and!; try (right; right).
    + simplify_eq. by split_and!; try left.
  - simpl in Hm. destruct E5 as [->|[->| ->]]; simplify_eq. by split_and!; try (right; left).
Qed.

(** With six threads the program can come to a state in which no thread can
    move and [main] has not exited: [set_lock] is still set, because the fourth
    thread got in before the first three were all out, and it waits at the
    barrier for threads that [main] will not create.  A spurious wake-up does not
    help: whatever happens then, [main] neither exits nor creates a thread. *)
Theorem resource_six_deadlock :
  ∃ l s, run_schedule l (resource_start 6) = Some s ∧ blocked s ∧ r_main s = R_wait 4 ∧
    r_tasks s = [T_exit; T_exit; T_exit; T_wait 1; T_new; T_new] ∧
    set_lock (r_sh s) = 1 ∧ threads_active (r_sh s) = 1 ∧
    ∀ s', reachable (λ t, t = s) any_step s' → r_main s' ≠ R_exit ∧ r_tasks s' = r_tasks s.
Proof.
  exists early_fourth. destruct (run_schedule early_fourth (resource_start 6)) as [s|] eqn:E; [|by vm_compute in E].
  exists s. vm_compute in E. injection E as <-. split_and!; try done.
  - intros rc [i|]; [|done]. do 6 (destruct i as [|i]; [done|]). done.
  - intros s' Hr. assert (stuck_six s') as (Ht & _ & _ & _ & Hm).
    { revert s' Hr. apply reachable_inv; [|intros ? ? _; apply stuck_six_step]. intros t ->. by split_and!; try left. }
    split; [|done]. by destruct Hm as [->|[->| ->]].
Qed.
