(* ===== verification/Bitmap.v ===== *)
(** * Bitmaps

    Bitmaps as arrays of 32-bit words and the searches in them:
    [find_next_bit] (lib/find_next_bit.c), [for_each_set_bit]
    (include/linux/bitops.h) and the search of the scheduler's 100-bit bitmap
    (include/asm-generic/bitops/sched.h).  The searches work a word at a time;
    they are shown to find the first bit that is set. *)

From Stdlib Require Import Sorting.Sorted.
From S2P Require Import Prelude.

Definition BITS_PER_LONG : Z := 32.

(** The words of a bitmap; bits outside of it read as clear. *)
Notation bitmap := (list Z).
Definition word (b : bitmap) (n : Z) : Z := default 0 (b !! Z.to_nat n).
Definition test_bit (nr : Z) (b : bitmap) : bool := Z.testbit (word b (nr / 32)) (nr mod 32).
Definition __set_bit (nr : Z) (b : bitmap) : bitmap :=
  <[Z.to_nat (nr / 32) := Z.setbit (word b (nr / 32)) (nr mod 32)]> b.
Definition __clear_bit (nr : Z) (b : bitmap) : bitmap :=
  <[Z.to_nat (nr / 32) := Z.clearbit (word b (nr / 32)) (nr mod 32)]> b.

(** The index of the lowest bit set ([bsf]). *)
Fixpoint ffs_from (fuel : nat) (i w : Z) : Z :=
  match fuel with O => i | S fuel => if Z.testbit w i then i else ffs_from fuel (i + 1) w end.
Definition __ffs (w : Z) : Z := ffs_from 32 0 w.

(** The labels [found_first] and [found_middle]. *)
Definition found_middle (result tmp : Z) : Z := result + __ffs tmp.
Definition found_first (size result tmp : Z) : Z :=
  let tmp := Z.land tmp (Z.shiftr (2 ^ 32 - 1) (BITS_PER_LONG - size)) in
  if tmp =? 0 then result + size else found_middle result tmp.

(** The loop over whole words, and the rest of the last one. *)
Fixpoint find_words (fuel : nat) (b : bitmap) (p size result : Z) : Z :=
  match fuel with
  | O => result + size
  | S fuel =>
      if 32 <=? size then
        if word b p =? 0 then find_words fuel b (p + 1) (size - 32) (result + 32) else found_middle result (word b p)
      else if size =? 0 then result
      else found_first size result (word b p)
  end.

Definition find_next_bit (b : bitmap) (size offset : Z) : Z :=
  if size <=? offset then size
  else
    let p := offset / 32 in
    let result := Z.land offset (Z.lnot 31) in
    let size := size - result in
    let offset := offset mod 32 in
    let fuel := S (Z.to_nat size) in
    if offset =? 0 then find_words fuel b p size result
    else
      let tmp := Z.land (word b p) (u32 (Z.shiftl (2 ^ 32 - 1) offset)) in
      if size <? 32 then found_first size result tmp
      else if tmp =? 0 then find_words fuel b (p + 1) (size - 32) (result + 32)
      else found_middle result tmp.

(** [for_each_set_bit]: the bits visited. *)
Fixpoint for_each_set_bit (fuel : nat) (b : bitmap) (size bit : Z) : list Z :=
  match fuel with
  | O => []
  | S fuel => if bit <? size then bit :: for_each_set_bit fuel b size (find_next_bit b size (bit + 1)) else []
  end.
Definition set_bits (b : bitmap) (size : Z) : list Z :=
  for_each_set_bit (S (Z.to_nat size)) b size (find_next_bit b size 0).

Definition sched_find_first_bit (b : bitmap) : Z :=
  if negb (word b 0 =? 0) then __ffs (word b 0)
  else if negb (word b 1 =? 0) then __ffs (word b 1) + 32
  else if negb (word b 2 =? 0) then __ffs (word b 2) + 64
  else __ffs (word b 3) + 96.

(** ** Words *)

Definition words_ok (b : bitmap) : Prop := Forall (λ w, 0 ≤ w < 2 ^ 32) b.

Lemma word_range b n : words_ok b → 0 ≤ word b n < 2 ^ 32.
Proof.
  intros Hb. unfold word. destruct (b !! Z.to_nat n) eqn:E; simpl; [|lia].
  by eapply Forall_lookup_1 in Hb.
Qed.

Lemma ffs_from_spec fuel : ∀ i w,
  0 ≤ i → (∃ j, i ≤ j < i + Z.of_nat fuel ∧ Z.testbit w j = true) →
  i ≤ ffs_from fuel i w < i + Z.of_nat fuel ∧ Z.testbit w (ffs_from fuel i w) = true ∧
  ∀ j, i ≤ j < ffs_from fuel i w → Z.testbit w j = false.
Proof.
  induction fuel as [|fuel IH]; intros i w Hi (j & Hj & Hb); [lia|]. cbn [ffs_from].
  destruct (Z.testbit w i) eqn:E; [split_and!; [lia|lia|done|lia]|].
  destruct (IH (i + 1) w) as (H1 & H2 & H3); [lia|exists j; split; [|done]|].
  - destruct (decide (j = i)) as [->|]; [congruence|lia].
  - split_and!; [lia|lia|done|]. intros k Hk. destruct (decide (k = i)) as [->|]; [done|apply H3; lia].
Qed.

Lemma testbit_high w j : 0 ≤ w < 2 ^ 32 → 32 ≤ j → Z.testbit w j = false.
Proof.
  intros Hw Hj. destruct (decide (w = 0)) as [->|]; [apply Z.testbit_0_l|].
  apply Z.bits_above_log2; [lia|]. assert (Z.log2 w < 32); [apply Z.log2_lt_pow2; lia|lia].
Qed.

Lemma ffs_spec w :
  0 < w < 2 ^ 32 →
  0 ≤ __ffs w < 32 ∧ Z.testbit w (__ffs w) = true ∧ ∀ j, 0 ≤ j < __ffs w → Z.testbit w j = false.
Proof.
  intros Hw. apply (ffs_from_spec 32 0 w); [lia|]. exists (Z.log2 w). split; [|apply Z.bit_log2; lia].
  pose proof (Z.log2_nonneg w). assert (Z.log2 w < 32); [apply Z.log2_lt_pow2; lia|lia].
Qed.

(** ** What the searches find *)

(** [r] is the first bit set among those from [lo] on, [hi] if there is none. *)
Definition first_set (b : bitmap) (lo hi r : Z) : Prop :=
  lo ≤ r ≤ hi ∧ (∀ i, lo ≤ i < r → test_bit i b = false) ∧ (r < hi → test_bit r b = true).

Lemma first_set_unique b lo hi r r' : first_set b lo hi r → first_set b lo hi r' → r = r'.
Proof.
  intros (Hr & Hn & Hb) (Hr' & Hn' & Hb').
  destruct (Z.lt_trichotomy r r') as [?|[?|?]]; [|done|].
  - rewrite (Hn' r) in Hb by lia. by specialize (Hb ltac:(lia)).
  - rewrite (Hn r') in Hb' by lia. by specialize (Hb' ltac:(lia)).
Qed.

(** The bits of word [p]. *)
Lemma test_bit_word b p j : 0 ≤ p → 0 ≤ j < 32 → test_bit (32 * p + j) b = Z.testbit (word b p) j.
Proof.
  intros Hp Hj. unfold test_bit. replace ((32 * p + j) / 32) with p by (apply Z.div_unique with j; lia).
  by replace ((32 * p + j) mod 32) with j by (apply Z.mod_unique with p; lia).
Qed.

(** A word masked to the bits from [lo] up to [hi]. *)
Definition masked (w lo hi tmp : Z) : Prop :=
  0 ≤ tmp < 2 ^ 32 ∧ ∀ j, 0 ≤ j < 32 → Z.testbit tmp j = Z.testbit w j && bool_decide (lo ≤ j < hi).

Lemma masked_first b p lo hi tmp top :
  0 ≤ p → 0 ≤ lo → lo ≤ hi ≤ 32 → masked (word b p) lo hi tmp → tmp ≠ 0 → 32 * p + hi ≤ top →
  first_set b (32 * p + lo) top (32 * p + __ffs tmp).
Proof.
  intros Hp Hlo Hhi [Ht Hm] Hne Htop. destruct (ffs_spec tmp ltac:(lia)) as (Hf & Hb & Hn).
  rewrite Hm in Hb by lia. apply andb_true_iff in Hb as [Hb Hin%bool_decide_eq_true]. split_and!; [lia|lia| |].
  - intros i Hi. replace i with (32 * p + (i - 32 * p)) by lia. rewrite test_bit_word by lia.
    specialize (Hn (i - 32 * p) ltac:(lia)). rewrite Hm in Hn by lia.
    apply andb_false_iff in Hn as [Hn|Hn%bool_decide_eq_false]; [done|lia].
  - intros _. by rewrite test_bit_word by lia.
Qed.

Lemma masked_none b p lo hi tmp i :
  0 ≤ p → 0 ≤ lo → hi ≤ 32 → masked (word b p) lo hi tmp → tmp = 0 → 32 * p + lo ≤ i < 32 * p + hi → test_bit i b = false.
Proof.
  intros Hp Hlo Hhi [Ht Hm] -> Hi. replace i with (32 * p + (i - 32 * p)) by lia. rewrite test_bit_word by lia.
  specialize (Hm (i - 32 * p) ltac:(lia)). rewrite Z.testbit_0_l, bool_decide_eq_true_2, andb_true_r in Hm by lia. done.
Qed.

Lemma masked_id b p : words_ok b → masked (word b p) 0 32 (word b p).
Proof.
  intros Hb. split; [by apply word_range|]. intros j Hj. by rewrite bool_decide_eq_true_2, andb_true_r by lia.
Qed.

Lemma masked_low w lo hi tmp size :
  0 ≤ size < 32 → hi = 32 → masked w lo hi tmp →
  masked w lo size (Z.land tmp (Z.shiftr (2 ^ 32 - 1) (BITS_PER_LONG - size))).
Proof.
  intros Hs -> [Ht Hm]. unfold BITS_PER_LONG. split.
  - split; [apply Z.land_nonneg; lia|]. destruct (decide (Z.land tmp (Z.shiftr (2 ^ 32 - 1) (32 - size)) = 0)) as [->|]; [lia|].
    assert (0 ≤ Z.land tmp (Z.shiftr (2 ^ 32 - 1) (32 - size))) by (apply Z.land_nonneg; lia).
    apply Z.log2_lt_cancel. rewrite Z.log2_pow2 by lia. apply Z.nle_gt. intros Hl.
    assert (Z.testbit (Z.land tmp (Z.shiftr (2 ^ 32 - 1) (32 - size))) (Z.log2 (Z.land tmp (Z.shiftr (2 ^ 32 - 1) (32 - size)))) = true)
      as Hb by (apply Z.bit_log2; lia).
    rewrite Z.land_spec, (testbit_high tmp) in Hb by lia. done.
  - intros j Hj. rewrite Z.land_spec, Hm, Z.shiftr_spec by lia. change (2 ^ 32 - 1) with (Z.ones 32).
    destruct (decide (j < size)) as [Hlt|Hge].
    + rewrite Z.ones_spec_low by lia. rewrite andb_true_r. f_equal. apply bool_decide_ext. lia.
    + rewrite Z.ones_spec_high by lia. rewrite andb_false_r, bool_decide_eq_false_2 by lia. by rewrite andb_false_r.
Qed.

Lemma masked_high w off :
  0 ≤ w < 2 ^ 32 → 0 ≤ off < 32 → masked w off 32 (Z.land w (u32 (Z.shiftl (2 ^ 32 - 1) off))).
Proof.
  intros Hw Ho. assert (∀ j, 0 ≤ j < 32 → Z.testbit (u32 (Z.shiftl (2 ^ 32 - 1) off)) j = bool_decide (off ≤ j)) as Hm.
  { intros j Hj. unfold u32, wrap_u. rewrite Z.mod_pow2_bits_low, Z.shiftl_spec by lia. change (2 ^ 32 - 1) with (Z.ones 32).
    case_bool_decide; [by rewrite Z.ones_spec_low by lia|]. by rewrite Z.testbit_neg_r by lia. }
  assert (0 ≤ u32 (Z.shiftl (2 ^ 32 - 1) off) < 2 ^ 32) as Hr by (apply wrap_u_range; lia). split.
  - split; [apply Z.land_nonneg; lia|].
    assert (Z.land w (u32 (Z.shiftl (2 ^ 32 - 1) off)) ≤ w); [|lia].
    apply Z.ldiff_le; [lia|]. apply Z.bits_inj'. intros n Hn. rewrite Z.ldiff_spec, Z.land_spec, Z.testbit_0_l.
    by destruct (Z.testbit w n), (Z.testbit (u32 _) n).
  - intros j Hj. rewrite Z.land_spec, Hm by lia. f_equal. apply bool_decide_ext. lia.
Qed.

Lemma found_first_ok b p lo tmp size :
  0 ≤ p → 0 ≤ lo ≤ size → size < 32 → masked (word b p) lo 32 tmp →
  first_set b (32 * p + lo) (32 * p + size) (found_first size (32 * p) tmp).
Proof.
  intros Hp Hlo Hs Hm. unfold found_first, found_middle.
  pose proof (masked_low _ _ _ _ size ltac:(lia) eq_refl Hm) as Hm'.
  destruct (Z.eqb_spec (Z.land tmp (Z.shiftr (2 ^ 32 - 1) (BITS_PER_LONG - size))) 0) as [E|E].
  - split_and!; [lia|lia| |lia]. intros i Hi. eapply (masked_none b p lo size); [lia|lia|lia|exact Hm'|done|lia].
  - eapply (masked_first b p lo size); [lia|lia|lia|exact Hm'|done|lia].
Qed.

(** Clear bits in front do not matter. *)
Lemma first_set_skip b lo mid hi r :
  lo ≤ mid → (∀ i, lo ≤ i < mid → test_bit i b = false) → first_set b mid hi r → first_set b lo hi r.
Proof.
  intros Hl Hz (Hr & Hn & Hb). split_and!; [lia|lia| |done]. intros i Hi.
  destruct (decide (i < mid)); [apply Hz; lia|apply Hn; lia].
Qed.

Lemma find_words_ok b : words_ok b → ∀ fuel p size,
  0 ≤ p → 0 ≤ size < Z.of_nat fuel →
  first_set b (32 * p) (32 * p + size) (find_words fuel b p size (32 * p)).
Proof.
  intros Hb fuel. induction fuel as [|fuel IH]; intros p size Hp Hs; [lia|]. cbn [find_words].
  pose proof (masked_id b p Hb) as Hm. destruct (Z.leb_spec 32 size) as [Hge|Hlt].
  - destruct (Z.eqb_spec (word b p) 0) as [E|E].
    + apply (first_set_skip _ _ (32 * (p + 1))); [lia| |].
      * intros i Hi. eapply (masked_none b p 0 32); [lia|lia|lia|exact Hm|done|lia].
      * replace (32 * p + size) with (32 * (p + 1) + (size - 32)) by lia.
        replace (32 * p + 32) with (32 * (p + 1)) by lia. apply IH; lia.
    + replace (32 * p) with (32 * p + 0) at 1 by lia. eapply (masked_first b p 0 32); [lia|lia|lia|exact Hm|done|lia].
  - destruct (Z.eqb_spec size 0) as [->|]; [split_and!; lia|].
    replace (32 * p) with (32 * p + 0) at 1 by lia. apply found_first_ok; [lia|lia|lia|exact Hm].
Qed.

Lemma word_base off : 0 ≤ off → Z.land off (Z.lnot 31) = 32 * (off / 32).
Proof.
  intros Ho. rewrite <- Z.ldiff_land. change 31 with (Z.ones 5). rewrite Z.ldiff_ones_r by lia.
  rewrite Z.shiftl_mul_pow2, Z.shiftr_div_pow2 by lia. change (2 ^ 5) with 32. lia.
Qed.

Lemma find_next_bit_first b size off :
  words_ok b → 0 ≤ off ≤ size → first_set b off size (find_next_bit b size off).
Proof.
  intros Hb Ho. unfold find_next_bit. destruct (Z.leb_spec size off); [split_and!; lia|].
  rewrite word_base by lia. set (p := off / 32). pose proof (Z.div_mod off 32 ltac:(lia)) as Hdiv.
  pose proof (Z.mod_pos_bound off 32 ltac:(lia)) as Hmod. fold p in Hdiv.
  assert (0 ≤ p) as Hp by (apply Z.div_pos; lia).
  destruct (Z.eqb_spec (off mod 32) 0) as [E|E].
  { pose proof (find_words_ok b Hb (S (Z.to_nat (size - 32 * p))) p (size - 32 * p) Hp ltac:(lia)) as H1.
    replace (32 * p + (size - 32 * p)) with size in H1 by lia. by replace off with (32 * p) at 1 by lia. }
  pose proof (masked_high (word b p) (off mod 32) (word_range b p Hb) ltac:(lia)) as Hm.
  destruct (Z.ltb_spec (size - 32 * p) 32) as [Hlt|Hge].
  { pose proof (found_first_ok b p (off mod 32) _ (size - 32 * p) Hp ltac:(lia) Hlt Hm) as H1.
    replace (32 * p + (size - 32 * p)) with size in H1 by lia.
    by replace (32 * p + off mod 32) with off in H1 by lia. }
  destruct (Z.eqb_spec (Z.land (word b p) (u32 (Z.shiftl (2 ^ 32 - 1) (off mod 32)))) 0) as [E0|E0].
  - apply (first_set_skip _ _ (32 * (p + 1))); [lia| |].
    + intros i Hi. eapply (masked_none b p (off mod 32) 32); [lia|lia|lia|exact Hm|done|lia].
    + pose proof (find_words_ok b Hb (S (Z.to_nat (size - 32 * p))) (p + 1) (size - 32 * p - 32) ltac:(lia) ltac:(lia)) as H1.
      replace (32 * (p + 1) + (size - 32 * p - 32)) with size in H1 by lia.
      by replace (32 * p + 32) with (32 * (p + 1)) by lia.
  - pose proof (masked_first b p (off mod 32) 32 _ size Hp ltac:(lia) ltac:(lia) Hm E0 ltac:(lia)) as H1.
    by replace (32 * p + off mod 32) with off in H1 by lia.
Qed.

(** The unrolled search finds the same bit as a scan of all 128. *)
Lemma sched_find_first_first b :
  words_ok b → (∃ i, 0 ≤ i < 128 ∧ test_bit i b = true) → first_set b 0 128 (sched_find_first_bit b).
Proof.
  intros Hb (i & Hi & Hbit). unfold sched_find_first_bit.
  assert (∀ p, 0 ≤ p → word b p ≠ 0 → 32 * p + 32 ≤ 128 →
    first_set b (32 * p) 128 (32 * p + __ffs (word b p))) as Hhit.
  { intros p Hp E Ht. pose proof (masked_first b p 0 32 _ 128 Hp ltac:(lia) ltac:(lia) (masked_id b p Hb) E ltac:(lia)) as H1.
    by replace (32 * p + 0) with (32 * p) in H1 by lia. }
  assert (∀ p j, 0 ≤ p → word b p = 0 → 32 * p ≤ j < 32 * p + 32 → test_bit j b = false) as Hmiss.
  { intros p j Hp E Hj. eapply (masked_none b p 0 32); [lia|lia|lia|by apply masked_id|done|lia]. }
  destruct (Z.eqb_spec (word b 0) 0) as [E0|E0]; simpl; [|exact (Hhit 0 ltac:(lia) E0 ltac:(lia))].
  apply (first_set_skip _ _ (32 * 1)); [lia|intros; apply (Hmiss 0); done || lia|].
  destruct (Z.eqb_spec (word b 1) 0) as [E1|E1]; simpl; [|rewrite Z.add_comm; exact (Hhit 1 ltac:(lia) E1 ltac:(lia))].
  apply (first_set_skip _ _ (32 * 2)); [lia|intros; apply (Hmiss 1); done || lia|].
  destruct (Z.eqb_spec (word b 2) 0) as [E2|E2]; simpl; [|rewrite Z.add_comm; exact (Hhit 2 ltac:(lia) E2 ltac:(lia))].
  apply (first_set_skip _ _ (32 * 3)); [lia|intros; apply (Hmiss 2); done || lia|].
  rewrite Z.add_comm. apply (Hhit 3); [lia| |lia]. intros E3.
  assert (i < 32 ∨ 32 ≤ i < 64 ∨ 64 ≤ i < 96 ∨ 96 ≤ i) as [?|[?|[?|?]]] by lia;
    [rewrite (Hmiss 0) in Hbit|rewrite (Hmiss 1) in Hbit|rewrite (Hmiss 2) in Hbit|rewrite (Hmiss 3) in Hbit]; done || lia.
Qed.

(** The word-wise searches find what a scan bit by bit finds: [find_next_bit]
    the first bit set from the offset on (the size if there is none), and the
    scheduler's unrolled search the first of the 128 bits of its bitmap, which
    is also what [find_next_bit] gives there. *)
Theorem bit_search_ok b size off :
  words_ok b → 0 ≤ off ≤ size →
  first_set b off size (find_next_bit b size off) ∧
  ((∃ i, 0 ≤ i < 128 ∧ test_bit i b = true) →
   first_set b 0 128 (sched_find_first_bit b) ∧ sched_find_first_bit b = find_next_bit b 128 0).
Proof.
  intros Hb Ho. split; [by apply find_next_bit_first|]. intros Hex.
  pose proof (sched_find_first_first b Hb Hex) as H1. split; [done|].
  eapply first_set_unique; [exact H1|]. by apply find_next_bit_first; [|lia].
Qed.

Lemma bit_search_ok_witness :
  find_next_bit [0; 16; 0; 32] 100 40 = 100 ∧ sched_find_first_bit [0; 16; 0; 32] = 36.
Proof.
  destruct (bit_search_ok [0; 16; 0; 32] 100 40) as [H1 H2].
  - repeat (constructor; [lia|]). constructor.
  - lia.
  - split; [reflexivity|]. destruct H2 as [_ H2]; [exists 36; split; [lia|reflexivity]|].
    rewrite H2. reflexivity.
Defined.

(** ** Setting and clearing *)

Lemma test_set_bit nr i b :
  0 ≤ nr → 0 ≤ i → nr / 32 < Z.of_nat (length b) → test_bit i (__set_bit nr b) = bool_decide (i = nr) || test_bit i b.
Proof.
  intros Hn Hi Hl. unfold test_bit, __set_bit, word. pose proof (Z.div_mod nr 32 ltac:(lia)). pose proof (Z.div_mod i 32 ltac:(lia)).
  pose proof (Z.mod_pos_bound nr 32 ltac:(lia)). pose proof (Z.mod_pos_bound i 32 ltac:(lia)).
  assert (0 ≤ nr / 32 ∧ 0 ≤ i / 32) as [? ?] by (split; apply Z.div_pos; lia).
  destruct (decide (i / 32 = nr / 32)) as [E|E].
  - rewrite E, list_lookup_insert_eq by lia. simpl. rewrite Z.setbit_eqb by lia. f_equal.
    rewrite Z.eqb_sym. apply eq_true_iff_eq. rewrite Z.eqb_eq, bool_decide_eq_true. lia.
  - rewrite list_lookup_insert_ne by lia. rewrite bool_decide_eq_false_2 by (intros ->; done). done.
Qed.

Lemma test_clear_bit nr i b :
  0 ≤ nr → 0 ≤ i → nr / 32 < Z.of_nat (length b) →
  test_bit i (__clear_bit nr b) = negb (bool_decide (i = nr)) && test_bit i b.
Proof.
  intros Hn Hi Hl. unfold test_bit, __clear_bit, word. pose proof (Z.div_mod nr 32 ltac:(lia)). pose proof (Z.div_mod i 32 ltac:(lia)).
  pose proof (Z.mod_pos_bound nr 32 ltac:(lia)). pose proof (Z.mod_pos_bound i 32 ltac:(lia)).
  assert (0 ≤ nr / 32 ∧ 0 ≤ i / 32) as [? ?] by (split; apply Z.div_pos; lia).
  destruct (decide (i / 32 = nr / 32)) as [E|E].
  - rewrite E, list_lookup_insert_eq by lia. simpl. rewrite Z.clearbit_eqb, andb_comm by lia. f_equal. f_equal.
    apply eq_true_iff_eq. rewrite Z.eqb_eq, bool_decide_eq_true. lia.
  - rewrite list_lookup_insert_ne by lia. rewrite bool_decide_eq_false_2 by (intros ->; done). done.
Qed.

Lemma below_32 x : 0 ≤ x → (∀ j, 32 ≤ j → Z.testbit x j = false) → 0 ≤ x < 2 ^ 32.
Proof.
  intros Hx Hh. split; [done|]. destruct (decide (x = 0)) as [->|]; [lia|]. apply Z.log2_lt_pow2; [lia|].
  apply Z.nle_gt. intros Hl. specialize (Hh _ Hl). rewrite Z.bit_log2 in Hh by lia. done.
Qed.

Lemma set_bit_words nr b : 0 ≤ nr → words_ok b → words_ok (__set_bit nr b).
Proof.
  intros Hn Hb. apply Forall_insert; [done|]. pose proof (word_range b (nr / 32) Hb) as Hw.
  pose proof (Z.mod_pos_bound nr 32 ltac:(lia)). apply below_32.
  - unfold Z.setbit. apply Z.lor_nonneg. rewrite Z.shiftl_nonneg. lia.
  - intros j Hj. rewrite Z.setbit_eqb by lia. rewrite testbit_high, orb_false_r by lia. apply Z.eqb_neq. lia.
Qed.

Lemma clear_bit_words nr b : 0 ≤ nr → words_ok b → words_ok (__clear_bit nr b).
Proof.
  intros Hn Hb. apply Forall_insert; [done|]. pose proof (word_range b (nr / 32) Hb) as Hw.
  pose proof (Z.mod_pos_bound nr 32 ltac:(lia)). apply below_32.
  - unfold Z.clearbit. apply Z.ldiff_nonneg. lia.
  - intros j Hj. rewrite Z.clearbit_eqb, testbit_high by lia. done.
Qed.

(** ** Iterating over the bits *)

Lemma for_each_spec b size : words_ok b → 0 ≤ size → ∀ fuel off,
  0 ≤ off → size - off < Z.of_nat fuel → off ≤ size → 
  let l := for_each_set_bit fuel b size (find_next_bit b size off) in
  Sorted Z.lt l ∧ ∀ i, i ∈ l ↔ off ≤ i < size ∧ test_bit i b = true.
Proof.
  intros Hb Hs fuel. induction fuel as [|fuel IH]; intros off Ho Hf Hle; [lia|].
  destruct (find_next_bit_first b size off Hb ltac:(lia)) as (Hr & Hn & Ht). cbn [for_each_set_bit].
  set (r := find_next_bit b size off) in *. destruct (Z.ltb_spec r size) as [Hlt|Hge].
  - destruct (IH (r + 1)) as [Hsort Hmem]; [lia|lia|lia|]. split.
    + constructor; [done|]. destruct (for_each_set_bit _ _ _ _) as [|x l] eqn:El; constructor.
      destruct (Hmem x) as [Hx _]. destruct Hx as [Hx _]; [left|lia].
    + intros i. rewrite elem_of_cons, Hmem. split.
      * intros [->|[? ?]]; [split; [lia|by apply Ht]|split; [lia|done]].
      * intros [Hi Hbit]. destruct (decide (i = r)) as [->|Hne]; [by left|right]. split; [|done].
        destruct (decide (i < r)); [|lia]. rewrite Hn in Hbit by lia. done.
  - split; [constructor|]. intros i. split; [by intros ?%not_elem_of_nil|].
    intros [Hi Hbit]. rewrite Hn in Hbit by lia. done.
Qed.

(** The bits set below [size], in ascending order. *)
Lemma set_bits_spec b size :
  words_ok b → 0 ≤ size →
  Sorted Z.lt (set_bits b size) ∧ ∀ i, i ∈ set_bits b size ↔ 0 ≤ i < size ∧ test_bit i b = true.
Proof. intros Hb Hs. apply (for_each_spec b size Hb Hs (S (Z.to_nat size)) 0); lia. Qed.
