(* ===== verification/CpuPri.v ===== *)
(** * CPU priorities (kernel/sched_cpupri.c)

    The scheduler keeps, for every CPU, the class of the highest priority that
    runs or waits there, and for every class the set of its CPUs with a bitmap
    of the classes in use; a task that needs a CPU looks for one of the lowest
    class.  The file models the structure and its operations and shows that the
    search gives exactly the allowed CPUs of the lowest class. *)

From Stdlib Require Import Sorting.Sorted.
From stdpp Require Import functions.
From S2P Require Import Prelude Bitmap.

Definition MAX_RT_PRIO : Z := 100.
Definition MAX_PRIO : Z := 140.
Definition CPUPRI_NR_PRIORITIES : Z := MAX_RT_PRIO + 2.
Definition CPUPRI_INVALID : Z := -1.
Definition CPUPRI_IDLE : Z := 0.
Definition CPUPRI_NORMAL : Z := 1.

Definition NR_CPUS : nat := 32.

Notation cpumask := (gset nat).

Record cpupri_vec := mk_vec { count : Z; mask : cpumask }.
Record cpupri := mk_cpupri {
  pri_to_cpu : Z → cpupri_vec;
  pri_active : bitmap;
  cpu_to_pri : nat → Z
}.

Definition convert_prio (prio : Z) : Z :=
  if prio =? CPUPRI_INVALID then CPUPRI_INVALID
  else if prio =? MAX_PRIO then CPUPRI_IDLE
  else if MAX_RT_PRIO <=? prio then CPUPRI_NORMAL
  else MAX_RT_PRIO - prio + 1.

(** The loop of [cpupri_find] over the classes in use; [None] when no CPU was
    found, else the mask of the CPUs recommended. *)
Fixpoint cpupri_scan (cp : cpupri) (task_pri : Z) (cpus_allowed : cpumask) (idxs : list Z) : option cpumask :=
  match idxs with
  | [] => None
  | idx :: idxs =>
      if task_pri <=? idx then None
      else
        let lowest_mask := cpus_allowed ∩ mask (pri_to_cpu cp idx) in
        if decide (lowest_mask = ∅) then cpupri_scan cp task_pri cpus_allowed idxs else Some lowest_mask
  end.
Definition cpupri_find (cp : cpupri) (prio : Z) (cpus_allowed : cpumask) : option cpumask :=
  cpupri_scan cp (convert_prio prio) cpus_allowed (set_bits (pri_active cp) CPUPRI_NR_PRIORITIES).

(** The two halves of [cpupri_set]. *)
Definition pri_add (cpu : nat) (newpri : Z) (cp : cpupri) : cpupri :=
  let vec := pri_to_cpu cp newpri in
  let c := s32 (count vec + 1) in
  mk_cpupri (<[newpri := mk_vec c ({[cpu]} ∪ mask vec)]> (pri_to_cpu cp))
    (if c =? 1 then __set_bit newpri (pri_active cp) else pri_active cp) (cpu_to_pri cp).
Definition pri_remove (cpu : nat) (oldpri : Z) (cp : cpupri) : cpupri :=
  let vec := pri_to_cpu cp oldpri in
  let c := s32 (count vec - 1) in
  mk_cpupri (<[oldpri := mk_vec c (mask vec ∖ {[cpu]})]> (pri_to_cpu cp))
    (if c =? 0 then __clear_bit oldpri (pri_active cp) else pri_active cp) (cpu_to_pri cp).

(** [None] when the assertion of the class fails. *)
Definition cpupri_set (cpu : nat) (newpri : Z) (cp : cpupri) : option cpupri :=
  let oldpri := cpu_to_pri cp cpu in
  let newpri := convert_prio newpri in
  if CPUPRI_NR_PRIORITIES <=? newpri then None
  else if newpri =? oldpri then Some cp
  else
    let cp := if newpri =? CPUPRI_INVALID then cp else pri_add cpu newpri cp in
    let cp := if oldpri =? CPUPRI_INVALID then cp else pri_remove cpu oldpri cp in
    Some (mk_cpupri (pri_to_cpu cp) (pri_active cp) (<[cpu := newpri]> (cpu_to_pri cp))).

(** [cpupri_init], all masks allocated. *)
Definition cpupri_init : cpupri := mk_cpupri (λ _, mk_vec 0 ∅) [0; 0; 0; 0] (λ _, CPUPRI_INVALID).

(** ** The invariant *)

(** The CPUs of a class are those mapped to it, the count is their number, and
    the class is in use when there are some. *)
Record cpupri_ok (cp : cpupri) : Prop := {
  cp_mask : ∀ pri cpu, 0 ≤ pri < CPUPRI_NR_PRIORITIES → cpu ∈ mask (pri_to_cpu cp pri) ↔ cpu_to_pri cp cpu = pri;
  cp_count : ∀ pri, 0 ≤ pri < CPUPRI_NR_PRIORITIES → count (pri_to_cpu cp pri) = Z.of_nat (size (mask (pri_to_cpu cp pri)));
  cp_active : ∀ pri, 0 ≤ pri < CPUPRI_NR_PRIORITIES → test_bit pri (pri_active cp) = bool_decide (mask (pri_to_cpu cp pri) ≠ ∅);
  cp_bits : length (pri_active cp) = 4%nat ∧ words_ok (pri_active cp);
  cp_range : ∀ cpu, CPUPRI_INVALID ≤ cpu_to_pri cp cpu < CPUPRI_NR_PRIORITIES ∧
    (cpu_to_pri cp cpu ≠ CPUPRI_INVALID → (cpu < NR_CPUS)%nat)
}.

Lemma cpupri_init_ok : cpupri_ok cpupri_init.
Proof.
  split; simpl.
  - intros pri cpu Hp. unfold CPUPRI_INVALID. split; [set_solver|lia].
  - done.
  - intros pri Hp. rewrite bool_decide_eq_false_2 by (by intros []). unfold test_bit, word.
    assert (∀ n, default 0 ([0; 0; 0; 0] !! n) = 0) as -> by (by intros [|[|[|[|n]]]]). apply Z.testbit_0_l.
  - split; [done|]. repeat constructor; lia.
  - intros cpu. split; [unfold CPUPRI_INVALID, CPUPRI_NR_PRIORITIES, MAX_RT_PRIO; lia|done].
Qed.

Lemma convert_prio_range prio : -1 ≤ prio ≤ MAX_PRIO → CPUPRI_INVALID ≤ convert_prio prio < CPUPRI_NR_PRIORITIES.
Proof.
  unfold convert_prio, CPUPRI_INVALID, MAX_PRIO, CPUPRI_NR_PRIORITIES, CPUPRI_IDLE, CPUPRI_NORMAL, MAX_RT_PRIO. intros Hp.
  destruct (Z.eqb_spec prio (-1)), (Z.eqb_spec prio 140), (Z.leb_spec 100 prio); lia.
Qed.

(** A higher priority is a greater class. *)
Lemma convert_prio_rt p q : 0 ≤ p < MAX_RT_PRIO → 0 ≤ q ≤ MAX_RT_PRIO → q < p ↔ convert_prio p < convert_prio q.
Proof.
  unfold convert_prio, CPUPRI_INVALID, MAX_PRIO, CPUPRI_IDLE, CPUPRI_NORMAL, MAX_RT_PRIO. intros Hp Hq.
  destruct (Z.eqb_spec p (-1)), (Z.eqb_spec p 140), (Z.leb_spec 100 p), (Z.eqb_spec q (-1)), (Z.eqb_spec q 140), (Z.leb_spec 100 q); lia.
Qed.

(** Counts and bitmap agree with the masks. *)
Definition vecs_ok (cp : cpupri) : Prop :=
  (∀ pri, 0 ≤ pri < CPUPRI_NR_PRIORITIES →
     count (pri_to_cpu cp pri) = Z.of_nat (size (mask (pri_to_cpu cp pri))) ∧
     test_bit pri (pri_active cp) = bool_decide (mask (pri_to_cpu cp pri) ≠ ∅) ∧
     ∀ cpu, cpu ∈ mask (pri_to_cpu cp pri) → (cpu < NR_CPUS)%nat) ∧
  length (pri_active cp) = 4%nat ∧ words_ok (pri_active cp).

Lemma size_zero_empty (X : cpumask) : Z.of_nat (size X) = 0 ↔ X = ∅.
Proof.
  split; [|intros ->; by rewrite size_empty]. intros Hs. apply leibniz_equiv, size_empty_iff. lia.
Qed.

Lemma mask_small (X : cpumask) : (∀ cpu, cpu ∈ X → (cpu < NR_CPUS)%nat) → (size X ≤ NR_CPUS)%nat.
Proof.
  intros H. transitivity (size (list_to_set (seq 0 NR_CPUS) : cpumask)).
  - apply subseteq_size. intros c Hc. apply elem_of_list_to_set, elem_of_seq. specialize (H c Hc). lia.
  - rewrite size_list_to_set by apply NoDup_seq. by rewrite length_seq.
Qed.

Lemma pri_add_ok cpu new cp :
  vecs_ok cp → (cpu < NR_CPUS)%nat → 0 ≤ new < CPUPRI_NR_PRIORITIES → cpu ∉ mask (pri_to_cpu cp new) →
  vecs_ok (pri_add cpu new cp).
Proof.
  intros (Hv & Hl & Hw) Hcpu Hn Hnin. unfold pri_add. set (vec := pri_to_cpu cp new) in *.
  destruct (Hv new Hn) as (Hc & Ha & Hs). fold vec in Hc, Ha, Hs. pose proof (mask_small _ Hs) as Hlt. unfold NR_CPUS in Hlt.
  assert (Z.of_nat (size ({[cpu]} ∪ mask vec)) = count vec + 1) as Hsz.
  { rewrite size_union by set_solver. rewrite size_singleton. lia. }
  rewrite s32_id by lia. assert (new / 32 < Z.of_nat (length (pri_active cp))) as Hd.
  { rewrite Hl. apply Z.div_lt_upper_bound; unfold CPUPRI_NR_PRIORITIES, MAX_RT_PRIO in Hn; lia. }
  split_and!; simpl.
  - intros pri Hp. destruct (decide (pri = new)) as [->|Hne].
    + rewrite fn_lookup_insert. simpl. split_and!; [lia| |set_solver]. rewrite (bool_decide_eq_true_2 ({[cpu]} ∪ mask vec ≠ ∅)) by set_solver.
      destruct (Z.eqb_spec (count vec + 1) 1) as [E|E].
      * rewrite test_set_bit by lia. by rewrite bool_decide_eq_true_2.
      * rewrite Ha. apply bool_decide_eq_true_2. rewrite <- size_zero_empty. lia.
    + rewrite fn_lookup_insert_ne by done. destruct (Hv pri Hp) as (Hc' & Ha' & Hs'). split_and!; [done| |done].
      destruct (Z.eqb_spec (count vec + 1) 1) as [E|E]; [|done].
      rewrite test_set_bit, bool_decide_eq_false_2 by lia || done. done.
  - destruct (_ =? 1); [|done]. unfold __set_bit. by rewrite length_insert.
  - destruct (_ =? 1); [|done]. apply set_bit_words; [lia|done].
Qed.

Lemma pri_remove_ok cpu old cp :
  vecs_ok cp → 0 ≤ old < CPUPRI_NR_PRIORITIES → cpu ∈ mask (pri_to_cpu cp old) →
  vecs_ok (pri_remove cpu old cp).
Proof.
  intros (Hv & Hl & Hw) Hn Hin. unfold pri_remove. set (vec := pri_to_cpu cp old) in *.
  destruct (Hv old Hn) as (Hc & Ha & Hs). fold vec in Hc, Ha, Hs. pose proof (mask_small _ Hs) as Hlt. unfold NR_CPUS in Hlt.
  assert (Z.of_nat (size (mask vec ∖ {[cpu]})) = count vec - 1) as Hsz.
  { rewrite size_difference by set_solver. rewrite size_singleton.
    pose proof (subseteq_size {[cpu]} (mask vec) ltac:(set_solver)) as Hsub. rewrite size_singleton in Hsub. lia. }
  rewrite s32_id by lia. assert (old / 32 < Z.of_nat (length (pri_active cp))) as Hd.
  { rewrite Hl. apply Z.div_lt_upper_bound; unfold CPUPRI_NR_PRIORITIES, MAX_RT_PRIO in Hn; lia. }
  split_and!; simpl.
  - intros pri Hp. destruct (decide (pri = old)) as [->|Hne].
    + rewrite fn_lookup_insert. simpl. split_and!; [lia| |set_solver]. destruct (Z.eqb_spec (count vec - 1) 0) as [E|E].
      * rewrite test_clear_bit, bool_decide_eq_true_2 by lia || done. symmetry. apply bool_decide_eq_false_2.
        rewrite <- size_zero_empty. lia.
      * rewrite Ha, bool_decide_eq_true_2 by set_solver. symmetry. apply bool_decide_eq_true_2.
        rewrite <- size_zero_empty. lia.
    + rewrite fn_lookup_insert_ne by done. destruct (Hv pri Hp) as (Hc' & Ha' & Hs'). split_and!; [done| |done].
      destruct (Z.eqb_spec (count vec - 1) 0) as [E|E]; [|done].
      rewrite test_clear_bit, bool_decide_eq_false_2 by lia || done. done.
  - destruct (_ =? 0); [|done]. unfold __clear_bit. by rewrite length_insert.
  - destruct (_ =? 0); [|done]. apply clear_bit_words; [lia|done].
Qed.

Lemma pri_add_mask cpu new cp pri c :
  c ∈ mask (pri_to_cpu (pri_add cpu new cp) pri) ↔ c ∈ mask (pri_to_cpu cp pri) ∨ (pri = new ∧ c = cpu).
Proof.
  unfold pri_add. simpl. destruct (decide (pri = new)) as [->|Hne]; [rewrite fn_lookup_insert; simpl; set_solver|].
  rewrite fn_lookup_insert_ne by done. naive_solver.
Qed.
Lemma pri_remove_mask cpu old cp pri c :
  c ∈ mask (pri_to_cpu (pri_remove cpu old cp) pri) ↔ c ∈ mask (pri_to_cpu cp pri) ∧ ¬ (pri = old ∧ c = cpu).
Proof.
  unfold pri_remove. simpl. destruct (decide (pri = old)) as [->|Hne]; [rewrite fn_lookup_insert; simpl; set_solver|].
  rewrite fn_lookup_insert_ne by done. naive_solver.
Qed.

(** [cpupri_set] moves the CPU to its new class and no other. *)
Lemma cpupri_set_ok cpu prio cp :
  cpupri_ok cp → (cpu < NR_CPUS)%nat → -1 ≤ prio ≤ MAX_PRIO →
  ∃ cp', cpupri_set cpu prio cp = Some cp' ∧ cpupri_ok cp' ∧
    ∀ c, cpu_to_pri cp' c = if decide (c = cpu) then convert_prio prio else cpu_to_pri cp c.
Proof.
  intros [Hm Hc Ha Hb Hr] Hcpu Hprio. pose proof (convert_prio_range prio Hprio) as Hn. unfold cpupri_set.
  set (new := convert_prio prio) in *. set (old := cpu_to_pri cp cpu). destruct (Hr cpu) as [Hold _]. fold old in Hold.
  destruct (Z.leb_spec CPUPRI_NR_PRIORITIES new); [lia|]. unfold CPUPRI_INVALID in *.
  destruct (Z.eqb_spec new old) as [E|E].
  { exists cp. split_and!; [done|by split|]. intros c. case_decide as Hcc; [by subst c|done]. }
  assert (vecs_ok cp) as Hv.
  { split; [|exact Hb]. intros pri Hp. split_and!; [by apply Hc|by apply Ha|]. intros c Hin%Hm; [|done].
    apply (Hr c). unfold CPUPRI_INVALID. lia. }
  set (cp1 := if new =? -1 then cp else pri_add cpu new cp).
  set (cp2 := if old =? -1 then cp1 else pri_remove cpu old cp1).
  assert (vecs_ok cp1 ∧ (∀ pri c, c ∈ mask (pri_to_cpu cp1 pri) ↔ c ∈ mask (pri_to_cpu cp pri) ∨ (new ≠ -1 ∧ pri = new ∧ c = cpu))) as [Hv1 Hm1].
  { unfold cp1. destruct (Z.eqb_spec new (-1)); [split; [done|naive_solver]|]. split.
    - apply pri_add_ok; [done|done|lia|]. rewrite Hm by lia. done.
    - intros pri c. rewrite pri_add_mask. naive_solver. }
  assert (vecs_ok cp2 ∧ (∀ pri c, c ∈ mask (pri_to_cpu cp2 pri) ↔ c ∈ mask (pri_to_cpu cp1 pri) ∧ ¬ (old ≠ -1 ∧ pri = old ∧ c = cpu))) as [Hv2 Hm2].
  { unfold cp2. destruct (Z.eqb_spec old (-1)); [split; [done|naive_solver]|]. split.
    - apply pri_remove_ok; [done|lia|]. apply Hm1. left. by apply Hm; [lia|].
    - intros pri c. rewrite pri_remove_mask. naive_solver. }
  assert (cpu_to_pri cp2 = cpu_to_pri cp) as Hc2.
  { unfold cp2, cp1. by destruct (old =? -1), (new =? -1). }
  eexists. split_and!; [done| |].
  - destruct Hv2 as [Hv2 Hb2]. split; simpl; [|by apply Hv2|by apply Hv2|done|].
    + intros pri c Hp. rewrite Hm2, Hm1, Hm, Hc2 by done. destruct (decide (c = cpu)) as [->|Hne].
      * rewrite fn_lookup_insert. fold old. naive_solver lia.
      * rewrite fn_lookup_insert_ne by done. naive_solver.
    + intros c. rewrite Hc2. destruct (decide (c = cpu)) as [->|Hne].
      * rewrite fn_lookup_insert. unfold CPUPRI_INVALID. split; [lia|done].
      * rewrite fn_lookup_insert_ne by done. apply Hr.
  - simpl. intros c. rewrite Hc2. case_decide as Hd; [by subst c; rewrite fn_lookup_insert|by rewrite fn_lookup_insert_ne].
Qed.

(** The scan over classes in ascending order. *)
Lemma cpupri_scan_ok cp task_pri allowed idxs :
  Sorted Z.lt idxs →
  match cpupri_scan cp task_pri allowed idxs with
  | Some m => ∃ pri, pri ∈ idxs ∧ pri < task_pri ∧ m = allowed ∩ mask (pri_to_cpu cp pri) ∧ m ≠ ∅ ∧
      ∀ q, q ∈ idxs → q < pri → allowed ∩ mask (pri_to_cpu cp q) = ∅
  | None => ∀ q, q ∈ idxs → q < task_pri → allowed ∩ mask (pri_to_cpu cp q) = ∅
  end.
Proof.
  intros Hs%Sorted_StronglySorted; [|intros ? ? ?; lia]. induction Hs as [|x idxs Hs IH Hx]; simpl; [set_solver|].
  rewrite Forall_forall in Hx. destruct (Z.leb_spec task_pri x).
  - intros q [->|Hq]%elem_of_cons Hlt; [lia|]. specialize (Hx _ Hq). lia.
  - case_decide as He.
    + destruct (cpupri_scan _ _ _ _).
      * destruct IH as (pri & Hin & Hlt & -> & Hne & Hlow). exists pri. split_and!; [by right|done|done|done|].
        intros q [->|Hq]%elem_of_cons Hqlt; [done|by apply Hlow].
      * intros q [->|Hq]%elem_of_cons Hqlt; [done|by apply IH].
    + exists x. split_and!; [left|done|done|done|]. intros q [->|Hq]%elem_of_cons Hqlt; [lia|]. specialize (Hx _ Hq). lia.
Qed.

(** What [cpupri_find] promises, for a task of priority [prio] that may run on
    [allowed]. *)
Definition found_lowest (cp : cpupri) (prio : Z) (allowed : cpumask) (r : option cpumask) : Prop :=
  match r with
  | Some m => m ≠ ∅ ∧ ∃ pri, 0 ≤ pri < convert_prio prio ∧ (∀ c, c ∈ m ↔ c ∈ allowed ∧ cpu_to_pri cp c = pri) ∧
      ∀ c, c ∈ allowed → cpu_to_pri cp c = CPUPRI_INVALID ∨ pri ≤ cpu_to_pri cp c
  | None => ∀ c, c ∈ allowed → cpu_to_pri cp c = CPUPRI_INVALID ∨ convert_prio prio ≤ cpu_to_pri cp c
  end.

Lemma cpupri_find_ok cp prio allowed : cpupri_ok cp → found_lowest cp prio allowed (cpupri_find cp prio allowed).
Proof.
  intros [Hm Hc Ha [Hb Hw] Hr]. unfold cpupri_find.
  destruct (set_bits_spec (pri_active cp) CPUPRI_NR_PRIORITIES Hw ltac:(done)) as [Hs Hin].
  assert (∀ c, cpu_to_pri cp c ≠ CPUPRI_INVALID → cpu_to_pri cp c ∈ set_bits (pri_active cp) CPUPRI_NR_PRIORITIES) as Hclass.
  { intros c Hne. destruct (Hr c) as [Hrc _]. unfold CPUPRI_INVALID in *. apply Hin. split; [lia|].
    rewrite Ha by lia. apply bool_decide_eq_true_2. intros E. assert (c ∈ (∅ : cpumask)) as Hc0; [|set_solver].
    rewrite <- E. by apply Hm; [lia|]. }
  pose proof (cpupri_scan_ok cp (convert_prio prio) allowed _ Hs) as H. destruct (cpupri_scan _ _ _ _) as [m|]; simpl.
  - destruct H as (pri & Hpri & Hlt & -> & Hne & Hlow). apply Hin in Hpri as [Hpr _]. split; [done|]. exists pri. split_and!; [lia|lia| |].
    + intros c. rewrite elem_of_intersection, Hm by done. done.
    + intros c Hcin. destruct (decide (cpu_to_pri cp c = CPUPRI_INVALID)) as [|Hi]; [by left|right].
      destruct (decide (cpu_to_pri cp c < pri)) as [Hl|]; [|lia]. exfalso.
      specialize (Hlow _ (Hclass c Hi) Hl). destruct (Hr c) as [Hrc _]. unfold CPUPRI_INVALID in *.
      assert (c ∈ mask (pri_to_cpu cp (cpu_to_pri cp c))) by (apply Hm; [lia|done]). set_solver.
  - intros c Hcin. destruct (decide (cpu_to_pri cp c = CPUPRI_INVALID)) as [|Hi]; [by left|right].
    destruct (decide (cpu_to_pri cp c < convert_prio prio)) as [Hl|]; [|lia]. exfalso.
    specialize (H _ (Hclass c Hi) Hl). destruct (Hr c) as [Hrc _]. unfold CPUPRI_INVALID in *.
    assert (c ∈ mask (pri_to_cpu cp (cpu_to_pri cp c))) by (apply Hm; [lia|done]). set_solver.
Qed.

(** A history of [cpupri_set]s, and the classes it should lead to. *)
Fixpoint cpupri_sets (l : list (nat * Z)) (cp : cpupri) : option cpupri :=
  match l with [] => Some cp | (cpu, prio) :: l => cp' ← cpupri_set cpu prio cp; cpupri_sets l cp' end.
Fixpoint last_class (l : list (nat * Z)) (f : nat → Z) : nat → Z :=
  match l with [] => f | (cpu, prio) :: l => last_class l (<[cpu := convert_prio prio]> f) end.

Lemma last_class_ext l : ∀ f g, (∀ c, f c = g c) → ∀ c, last_class l f c = last_class l g c.
Proof.
  induction l as [|[cpu prio] l IH]; intros f g H c; simpl; [done|]. apply IH. intros d.
  destruct (decide (d = cpu)) as [->|]; [by rewrite !fn_lookup_insert|by rewrite !fn_lookup_insert_ne].
Qed.

Lemma cpupri_sets_ok l : ∀ cp,
  cpupri_ok cp → Forall (λ x, (x.1 < NR_CPUS)%nat ∧ -1 ≤ x.2 ≤ MAX_PRIO) l →
  ∃ cp', cpupri_sets l cp = Some cp' ∧ cpupri_ok cp' ∧ ∀ c, cpu_to_pri cp' c = last_class l (cpu_to_pri cp) c.
Proof.
  induction l as [|[cpu prio] l IH]; intros cp Hok Hl; simpl; [by exists cp|].
  inversion Hl as [|? ? [Hc Hp] Hl']; subst. simpl in *.
  destruct (cpupri_set_ok cpu prio cp Hok Hc Hp) as (cp1 & -> & Hok1 & Hpri). simpl.
  destruct (IH cp1 Hok1 Hl') as (cp2 & E & Hok2 & Hpri2). exists cp2. split_and!; [done|done|]. intros c.
  rewrite Hpri2. apply last_class_ext. intros d. rewrite Hpri.
  case_decide as Hd; [by subst d; rewrite fn_lookup_insert|by rewrite fn_lookup_insert_ne].
Qed.

(** After any sequence of priority changes of the CPUs no assertion has
    failed, every CPU has the class of its last change, and the search for a
    task gives exactly the allowed CPUs of the lowest class in use, if that is
    below the task's, and nothing otherwise. *)
Theorem cpupri_correct l prio allowed :
  Forall (λ x, (x.1 < NR_CPUS)%nat ∧ -1 ≤ x.2 ≤ MAX_PRIO) l →
  ∃ cp, cpupri_sets l cpupri_init = Some cp ∧ (∀ c, cpu_to_pri cp c = last_class l (λ _, CPUPRI_INVALID) c) ∧
    found_lowest cp prio allowed (cpupri_find cp prio allowed).
Proof.
  intros Hl. destruct (cpupri_sets_ok l cpupri_init cpupri_init_ok Hl) as (cp & E & Hok & Hc).
  exists cp. split_and!; [done|done|by apply cpupri_find_ok].
Qed.

Lemma cpupri_correct_witness :
  ∃ cp, cpupri_sets [(0%nat, 140); (1%nat, 50); (1%nat, 140); (0%nat, 20)] cpupri_init = Some cp ∧
    cpu_to_pri cp 0 = 81 ∧ cpu_to_pri cp 1 = CPUPRI_IDLE ∧
    found_lowest cp 60 {[0%nat; 1%nat]} (cpupri_find cp 60 {[0%nat; 1%nat]}).
Proof.
  destruct (cpupri_correct [(0%nat, 140); (1%nat, 50); (1%nat, 140); (0%nat, 20)] 60 {[0%nat; 1%nat]})
    as (cp & E & Hc & Hf).
  - repeat (constructor; [unfold NR_CPUS, MAX_PRIO; simpl; lia|]). constructor.
  - exists cp. split; [exact E|]. split; [rewrite Hc; reflexivity|]. split; [rewrite Hc; reflexivity|exact Hf].
Defined.
