(* ===== verification/Plist.v ===== *)
(** * Priority lists (lib/plist.c)

    A priority list links all its nodes in the order of their priorities
    ([node_list]) and the first node of every priority in a list of its own
    ([prio_list]).  It is modelled as the list of its priorities with the nodes
    of each: the heads of the groups are the nodes on [prio_list], the groups
    one after the other are [node_list]. *)

From Stdlib Require Import Sorting.Sorted.
From S2P Require Import Prelude.

Notation plist := (list (Z * list nat)).

(** [plist_add]: the walk over [prio_list] stops at the first greater priority;
    the node goes in front of it, behind the nodes of its own priority. *)
Fixpoint plist_add (node : nat) (prio : Z) (head : plist) : plist :=
  match head with
  | [] => [(prio, [node])]
  | (iter, g) :: rest =>
      if prio <? iter then (prio, [node]) :: head
      else if iter =? prio then (iter, g ++ [node]) :: rest
      else (iter, g) :: plist_add node prio rest
  end.

(** [plist_del]: a node that is not on a list is left alone; when the first of
    its priority goes the next one takes its place on [prio_list]. *)
Fixpoint plist_del (node : nat) (head : plist) : plist :=
  match head with
  | [] => []
  | (iter, g) :: rest =>
      match filter (λ n, n ≠ node) g with
      | [] => plist_del node rest
      | g' => (iter, g') :: plist_del node rest
      end
  end.

Definition plist_nodes (head : plist) : list nat := mjoin (snd <$> head).
Definition plist_head_empty (head : plist) : bool := match head with [] => true | _ => false end.
Definition plist_first (head : plist) : option nat := hd_error (plist_nodes head).

(** ** As a list of nodes with their priorities *)

Definition entries (head : plist) : list (Z * nat) := head ≫= λ g, pair g.1 <$> g.2.
#[global] Arguments entries : simpl never.

Definition plist_ok (head : plist) : Prop :=
  StronglySorted Z.lt head.*1 ∧ Forall (λ g, g.2 ≠ []) head.

Lemma entries_cons p g l : entries ((p, g) :: l) = (pair p <$> g) ++ entries l.
Proof. done. Qed.

Lemma plist_nodes_entries head : plist_nodes head = (entries head).*2.
Proof.
  unfold plist_nodes. induction head as [|[p g] l IH]; [done|]. csimpl. rewrite IH, entries_cons, fmap_app. f_equal.
  induction g as [|n g IHg]; csimpl; [done|]. by f_equal.
Qed.

Lemma entries_ge q l : Forall (Z.lt q) l.*1 → Forall (λ e, q < e.1) (entries l).
Proof.
  induction l as [|[p g] l IH]; csimpl; intros Hf; [constructor|]. inversion Hf; subst.
  rewrite entries_cons. apply Forall_app. split; [|by apply IH]. apply Forall_fmap, Forall_true. done.
Qed.

Lemma filter_all {A} (P : A → Prop) `{∀ x, Decision (P x)} l : Forall P l → filter P l = l.
Proof. induction 1; [done|]. rewrite filter_cons_True by done. by f_equal. Qed.
Lemma filter_none {A} (P : A → Prop) `{∀ x, Decision (P x)} l : Forall (λ x, ¬ P x) l → filter P l = [].
Proof. induction 1; [done|]. by rewrite filter_cons_False. Qed.

(** Adding puts the node behind everything of its own or a higher priority. *)
Lemma plist_add_entries n p l :
  plist_ok l →
  entries (plist_add n p l) = filter (λ e, e.1 ≤ p) (entries l) ++ (p, n) :: filter (λ e, p < e.1) (entries l).
Proof.
  intros [Hs Hn]. induction l as [|[q g] l IH]; [done|]. inversion Hs as [|? ? Hs' Hq]; subst. inversion Hn; subst.
  simpl. destruct (Z.ltb_spec p q) as [Hlt|Hge].
  - rewrite !entries_cons. csimpl.
    assert (Forall (λ e, p < e.1) ((pair q <$> g) ++ entries l)) as Hgt.
    { apply Forall_app. split; [apply Forall_fmap, Forall_true; done|].
      eapply Forall_impl; [by apply entries_ge|]. simpl. intros. lia. }
    rewrite filter_none, (filter_all (λ e, p < e.1)); [done|done|]. eapply Forall_impl; [exact Hgt|]. simpl. lia.
  - rewrite !entries_cons, !filter_app.
    rewrite (filter_all (λ e, e.1 ≤ p) (pair q <$> g)) by (apply Forall_fmap, Forall_true; done).
    rewrite (filter_none (λ e, p < e.1) (pair q <$> g)) by (apply Forall_fmap, Forall_true; simpl; lia).
    destruct (Z.eqb_spec q p) as [->|Hne].
    + rewrite entries_cons, fmap_app. csimpl. pose proof (entries_ge p l Hq) as Hgt.
      rewrite (filter_none (λ e, e.1 ≤ p)), (filter_all (λ e, p < e.1)); [|done|].
      * rewrite app_nil_r, <- app_assoc. done.
      * eapply Forall_impl; [exact Hgt|]. simpl. lia.
    + rewrite entries_cons, IH by done. by rewrite <- app_assoc.
Qed.

Lemma plist_add_fst n p l q : q ∈ (plist_add n p l).*1 → q = p ∨ q ∈ l.*1.
Proof.
  induction l as [|[r g] l IH]; simpl; [set_solver|]. destruct (p <? r), (Z.eqb_spec r p); csimpl; set_solver.
Qed.

Lemma plist_add_ok n p l : plist_ok l → plist_ok (plist_add n p l).
Proof.
  intros [Hs Hn]. induction l as [|[q g] l IH]; [split; repeat constructor; done|].
  inversion Hs as [|? ? Hs' Hq]; subst. inversion Hn; subst. simpl.
  destruct (Z.ltb_spec p q) as [Hlt|Hge].
  - split; [|by constructor]. csimpl. constructor; [done|]. constructor; [done|]. eapply Forall_impl; [exact Hq|]. lia.
  - destruct (Z.eqb_spec q p) as [->|Hne].
    + split; [done|]. constructor; [|done]. simpl. by destruct g.
    + destruct IH as [IHs IHn]; [done|done|]. split; [|by constructor]. csimpl. constructor; [done|].
      apply Forall_forall. intros r [->|Hr]%plist_add_fst; [lia|]. by eapply Forall_forall in Hq.
Qed.

Lemma plist_del_entries n l : entries (plist_del n l) = filter (λ e, e.2 ≠ n) (entries l).
Proof.
  induction l as [|[q g] l IH]; [done|]. simpl. rewrite entries_cons, filter_app, <- IH.
  assert (filter (λ e : Z * nat, e.2 ≠ n) (pair q <$> g) = pair q <$> filter (λ m, m ≠ n) g) as ->.
  { clear. induction g as [|m g IH]; [done|]. csimpl. destruct (decide (m = n)) as [->|Hne].
    - rewrite !filter_cons_False by (simpl; tauto). done.
    - rewrite !filter_cons_True by done. by rewrite IH. }
  by destruct (filter (λ m, m ≠ n) g).
Qed.

Lemma plist_del_fst n l q : q ∈ (plist_del n l).*1 → q ∈ l.*1.
Proof. induction l as [|[r g] l IH]; simpl; [done|]. destruct (filter _ g); csimpl; set_solver. Qed.

Lemma plist_del_ok n l : plist_ok l → plist_ok (plist_del n l).
Proof.
  intros [Hs Hn]. induction l as [|[q g] l IH]; [done|]. inversion Hs as [|? ? Hs' Hq]; subst. inversion Hn; subst. simpl.
  destruct IH as [IHs IHn]; [done|done|]. destruct (filter _ g) as [|m g'] eqn:E; [done|].
  split; [|by constructor]. csimpl. constructor; [done|]. apply Forall_forall. intros r Hr%plist_del_fst.
  by eapply Forall_forall in Hq.
Qed.

(** The first node has the highest priority of all. *)
Lemma plist_first_ok l :
  plist_ok l →
  match plist_first l with
  | None => plist_head_empty l = true ∧ entries l = []
  | Some n => plist_head_empty l = false ∧ ∃ p es, entries l = (p, n) :: es ∧ Forall (λ e, p ≤ e.1) es
  end.
Proof.
  intros [Hs Hn]. destruct l as [|[q g] l]; [done|]. inversion Hs as [|? ? Hs' Hq]; subst. inversion Hn as [|? ? Hg _]; subst.
  simpl in Hg. destruct g as [|n g]; [done|]. simpl. split; [done|]. exists q, ((pair q <$> g) ++ entries l).
  split; [done|]. apply Forall_app. split; [apply Forall_fmap, Forall_true; simpl; lia|].
  eapply Forall_impl; [by apply entries_ge|]. simpl. lia.
Qed.

(** The nodes after adding and deleting. *)
Lemma plist_del_nodes n l x : x ∈ plist_nodes (plist_del n l) ↔ x ≠ n ∧ x ∈ plist_nodes l.
Proof.
  rewrite !plist_nodes_entries, plist_del_entries, !list_elem_of_fmap. setoid_rewrite list_elem_of_filter. split.
  - intros ([q m] & -> & Hne & Hin). eauto.
  - intros (Hne & [q m] & -> & Hin). eauto.
Qed.
Lemma plist_add_nodes n p l x : plist_ok l → x ∈ plist_nodes (plist_add n p l) ↔ x = n ∨ x ∈ plist_nodes l.
Proof.
  intros Hl. rewrite !plist_nodes_entries, plist_add_entries, fmap_app, elem_of_app by done. csimpl. rewrite elem_of_cons, !list_elem_of_fmap.
  setoid_rewrite list_elem_of_filter. split.
  - intros [([q m] & -> & _ & Hin)|[->|([q m] & -> & _ & Hin)]]; eauto.
  - intros [->|([q m] & -> & Hin)]; [auto|]. destruct (decide (q ≤ p)); [left|right; right]; exists (q, m); split_and!; try done. simpl. lia.
Qed.
