(* ===== verification/RtRq.v ===== *)
(** * Run queues of the real-time class (project1/sched_rt.c)

    The state of the real-time scheduling class, with group scheduling and
    several CPUs as the kernel is configured, and the operations that put
    entities on run queues and take them off.  Structures are reached through
    numbers that stand for their addresses: an entity of a task has the number
    of the task, a group has an entity and a run queue for every CPU.  An
    entity records the queue its [run_list] is linked in, and a queue is the
    list of its entities.  A [WARN_ON] or [BUG_ON] whose condition holds sets
    [bugs].  Counters are unbounded (there are far fewer entities than 2^32). *)

From stdpp Require Import functions.
From S2P Require Import Prelude Bitmap CpuPri Plist.

Definition RUNTIME_INF : Z := 2 ^ 64 - 1.

(** ** Data *)

Record rt_prio_array := mk_array { bits : bitmap; queue : Z → list nat }.

Record rt_rq := mk_rt_rq {
  active : rt_prio_array; rt_nr_running : Z; hp_curr : Z; hp_next : Z;
  rt_nr_migratory : Z; rt_nr_total : Z; overloaded : bool; pushable_tasks : plist;
  rt_throttled : bool; rt_time : Z; rt_runtime : Z; rt_nr_boosted : Z;
  rt_cpu : nat; rt_tg : option nat
}.

Record sched_rt_entity := mk_se {
  run_list : option Z; timeout : Z; time_slice : Z; nr_cpus_allowed : Z;
  parent : option nat; se_rt_rq : nat; my_q : option nat
}.

Record task_struct := mk_task {
  prio : Z; normal_prio : Z; policy : Z; on_rq : bool; on_cpu : bool; cpus_allowed : cpumask;
  task_cpu : nat; task_tg : nat; rt_class : bool; exec_start : Z; sum_exec_runtime : Z; need_resched : bool;
  rttime_soft : Z; rttime_hard : Z; sched_exp : Z
}.

Record rq := mk_rq {
  curr : nat; idle : nat; rt : nat; online : bool; clock_task : Z; post_schedule : bool;
  skip_clock_update : Z; leaf_rt_rq_list : list nat
}.

Record task_group := mk_tg { tg_rt_se : nat → option nat; tg_rt_rq : nat → nat; rt_period : Z; tg_rt_runtime : Z }.

Record root_domain := mk_rd { span : list nat; rto_mask : cpumask; rto_count : Z; rd_cpupri : cpupri }.

(** [levels] bounds the depth of the groups, [timers] are the period timers
    that are active, [this_cpu] is [smp_processor_id()]. *)
Record sys := mk_sys {
  ent : nat → sched_rt_entity; task : nat → task_struct; rtq : nat → rt_rq; cpu_rq : nat → rq;
  tgs : nat → task_group; task_groups : list nat; rd : root_domain; timers : nat → bool;
  bandwidth_enabled : bool; scheduler_running : bool; this_cpu : nat; levels : nat; bugs : bool
}.

Definition upd_ent (e : nat) (f : sched_rt_entity → sched_rt_entity) (s : sys) : sys :=
  mk_sys (<[e := f (ent s e)]> (ent s)) (task s) (rtq s) (cpu_rq s) (tgs s) (task_groups s) (rd s) (timers s)
    (bandwidth_enabled s) (scheduler_running s) (this_cpu s) (levels s) (bugs s).
Definition upd_task (p : nat) (f : task_struct → task_struct) (s : sys) : sys :=
  mk_sys (ent s) (<[p := f (task s p)]> (task s)) (rtq s) (cpu_rq s) (tgs s) (task_groups s) (rd s) (timers s)
    (bandwidth_enabled s) (scheduler_running s) (this_cpu s) (levels s) (bugs s).
Definition upd_rt (r : nat) (f : rt_rq → rt_rq) (s : sys) : sys :=
  mk_sys (ent s) (task s) (<[r := f (rtq s r)]> (rtq s)) (cpu_rq s) (tgs s) (task_groups s) (rd s) (timers s)
    (bandwidth_enabled s) (scheduler_running s) (this_cpu s) (levels s) (bugs s).
Definition upd_rq (c : nat) (f : rq → rq) (s : sys) : sys :=
  mk_sys (ent s) (task s) (rtq s) (<[c := f (cpu_rq s c)]> (cpu_rq s)) (tgs s) (task_groups s) (rd s) (timers s)
    (bandwidth_enabled s) (scheduler_running s) (this_cpu s) (levels s) (bugs s).
Definition upd_rd (f : root_domain → root_domain) (s : sys) : sys :=
  mk_sys (ent s) (task s) (rtq s) (cpu_rq s) (tgs s) (task_groups s) (f (rd s)) (timers s)
    (bandwidth_enabled s) (scheduler_running s) (this_cpu s) (levels s) (bugs s).
Definition start_timer (g : nat) (s : sys) : sys :=
  mk_sys (ent s) (task s) (rtq s) (cpu_rq s) (tgs s) (task_groups s) (rd s) (<[g := true]> (timers s))
    (bandwidth_enabled s) (scheduler_running s) (this_cpu s) (levels s) (bugs s).
(** [WARN_ON (b)] and [BUG_ON (b)]. *)
Definition BUG_ON (b : bool) (s : sys) : sys :=
  mk_sys (ent s) (task s) (rtq s) (cpu_rq s) (tgs s) (task_groups s) (rd s) (timers s)
    (bandwidth_enabled s) (scheduler_running s) (this_cpu s) (levels s) (bugs s || b).

(** Fields of a run queue. *)
Definition with_active (a : rt_prio_array) (r : rt_rq) : rt_rq :=
  mk_rt_rq a (rt_nr_running r) (hp_curr r) (hp_next r) (rt_nr_migratory r) (rt_nr_total r) (overloaded r)
    (pushable_tasks r) (rt_throttled r) (rt_time r) (rt_runtime r) (rt_nr_boosted r) (rt_cpu r) (rt_tg r).
Definition with_running (n : Z) (r : rt_rq) : rt_rq :=
  mk_rt_rq (active r) n (hp_curr r) (hp_next r) (rt_nr_migratory r) (rt_nr_total r) (overloaded r)
    (pushable_tasks r) (rt_throttled r) (rt_time r) (rt_runtime r) (rt_nr_boosted r) (rt_cpu r) (rt_tg r).
Definition with_hp (c n : Z) (r : rt_rq) : rt_rq :=
  mk_rt_rq (active r) (rt_nr_running r) c n (rt_nr_migratory r) (rt_nr_total r) (overloaded r)
    (pushable_tasks r) (rt_throttled r) (rt_time r) (rt_runtime r) (rt_nr_boosted r) (rt_cpu r) (rt_tg r).
Definition with_migration (m t : Z) (o : bool) (r : rt_rq) : rt_rq :=
  mk_rt_rq (active r) (rt_nr_running r) (hp_curr r) (hp_next r) m t o
    (pushable_tasks r) (rt_throttled r) (rt_time r) (rt_runtime r) (rt_nr_boosted r) (rt_cpu r) (rt_tg r).
Definition with_pushable (l : plist) (r : rt_rq) : rt_rq :=
  mk_rt_rq (active r) (rt_nr_running r) (hp_curr r) (hp_next r) (rt_nr_migratory r) (rt_nr_total r) (overloaded r)
    l (rt_throttled r) (rt_time r) (rt_runtime r) (rt_nr_boosted r) (rt_cpu r) (rt_tg r).
Definition with_bandwidth (th : bool) (t rn : Z) (r : rt_rq) : rt_rq :=
  mk_rt_rq (active r) (rt_nr_running r) (hp_curr r) (hp_next r) (rt_nr_migratory r) (rt_nr_total r) (overloaded r)
    (pushable_tasks r) th t rn (rt_nr_boosted r) (rt_cpu r) (rt_tg r).
Definition with_boosted (n : Z) (r : rt_rq) : rt_rq :=
  mk_rt_rq (active r) (rt_nr_running r) (hp_curr r) (hp_next r) (rt_nr_migratory r) (rt_nr_total r) (overloaded r)
    (pushable_tasks r) (rt_throttled r) (rt_time r) (rt_runtime r) n (rt_cpu r) (rt_tg r).
Definition with_run_list (l : option Z) (e : sched_rt_entity) : sched_rt_entity :=
  mk_se l (timeout e) (time_slice e) (nr_cpus_allowed e) (parent e) (se_rt_rq e) (my_q e).
Definition with_leaves (l : list nat) (q : rq) : rq :=
  mk_rq (curr q) (idle q) (rt q) (online q) (clock_task q) (post_schedule q) (skip_clock_update q) l.

(** [init_rt_rq] (kernel/sched.c). *)
Definition empty_array : rt_prio_array := mk_array (__set_bit MAX_RT_PRIO [0; 0; 0; 0]) (λ _, []).
Definition init_rt_rq (cpu : nat) (tg : option nat) (runtime : Z) : rt_rq :=
  mk_rt_rq empty_array 0 MAX_RT_PRIO MAX_RT_PRIO 0 0 false [] false 0 runtime 0 cpu tg.

(** ** Reading *)

Definition rt_entity_is_task (s : sys) (e : nat) : bool := match my_q (ent s e) with None => true | _ => false end.
Definition rt_rq_of_se (s : sys) (e : nat) : nat := se_rt_rq (ent s e).
Definition group_rt_rq (s : sys) (e : nat) : option nat := my_q (ent s e).
Definition on_rt_rq (s : sys) (e : nat) : bool := match run_list (ent s e) with Some _ => true | None => false end.
Definition rt_rq_throttled (s : sys) (r : nat) : bool := rt_throttled (rtq s r) && (rt_nr_boosted (rtq s r) =? 0).
Definition rt_se_boosted (s : sys) (e : nat) : bool :=
  match group_rt_rq s e with
  | Some g => negb (rt_nr_boosted (rtq s g) =? 0)
  | None => negb (prio (task s e) =? normal_prio (task s e))
  end.
Definition rt_se_prio (s : sys) (e : nat) : Z :=
  match group_rt_rq s e with Some g => hp_curr (rtq s g) | None => prio (task s e) end.
Definition rt_prio (p : Z) : bool := p <? MAX_RT_PRIO.
Definition rt_task (s : sys) (p : nat) : bool := rt_prio (prio (task s p)).

(** [for_each_sched_rt_entity]: the entity and its parents. *)
Fixpoint sched_rt_entities (fuel : nat) (s : sys) (e : option nat) : list nat :=
  match fuel, e with
  | S fuel, Some e => e :: sched_rt_entities fuel s (parent (ent s e))
  | _, _ => []
  end.
Definition for_each_sched_rt_entity (s : sys) (e : nat) : list nat := sched_rt_entities (levels s) s (Some e).

(** ** Overload and pushable tasks *)

Definition rt_overloaded (s : sys) : bool := negb (rto_count (rd s) =? 0).
Definition rt_set_overload (c : nat) (s : sys) : sys :=
  if negb (online (cpu_rq s c)) then s
  else upd_rd (λ d, mk_rd (span d) ({[c]} ∪ rto_mask d) (rto_count d + 1) (rd_cpupri d)) s.
Definition rt_clear_overload (c : nat) (s : sys) : sys :=
  if negb (online (cpu_rq s c)) then s
  else upd_rd (λ d, mk_rd (span d) (rto_mask d ∖ {[c]}) (rto_count d - 1) (rd_cpupri d)) s.

Definition set_overloaded (b : bool) (r : nat) : sys → sys :=
  upd_rt r (λ q, with_migration (rt_nr_migratory q) (rt_nr_total q) b q).
Definition update_rt_migration (r : nat) (s : sys) : sys :=
  let q := rtq s r in
  if negb (rt_nr_migratory q =? 0) && (1 <? rt_nr_total q) then
    if overloaded q then s else set_overloaded true r (rt_set_overload (rt_cpu q) s)
  else if overloaded q then set_overloaded false r (rt_clear_overload (rt_cpu q) s)
  else s.

(** [d] is 1 to count a task in and -1 to count it out. *)
Definition count_migration (d : Z) (e : nat) (r : nat) (s : sys) : sys :=
  let m := if 1 <? nr_cpus_allowed (ent s e) then d else 0 in
  upd_rt r (λ q, with_migration (rt_nr_migratory q + m) (rt_nr_total q + d) (overloaded q) q) s.
Definition inc_rt_migration (e r : nat) (s : sys) : sys :=
  if negb (rt_entity_is_task s e) then s
  else let r := rt (cpu_rq s (rt_cpu (rtq s r))) in update_rt_migration r (count_migration 1 e r s).
Definition dec_rt_migration (e r : nat) (s : sys) : sys :=
  if negb (rt_entity_is_task s e) then s
  else let r := rt (cpu_rq s (rt_cpu (rtq s r))) in update_rt_migration r (count_migration (-1) e r s).

Definition enqueue_pushable_task (c p : nat) (s : sys) : sys :=
  upd_rt (rt (cpu_rq s c)) (λ q, with_pushable (plist_add p (prio (task s p)) (plist_del p (pushable_tasks q))) q) s.
Definition dequeue_pushable_task (c p : nat) (s : sys) : sys :=
  upd_rt (rt (cpu_rq s c)) (λ q, with_pushable (plist_del p (pushable_tasks q)) q) s.
Definition has_pushable_tasks (c : nat) (s : sys) : bool :=
  negb (plist_head_empty (pushable_tasks (rtq s (rt (cpu_rq s c))))).

(** ** The second highest task *)

(** [cpu] is [None] when any will do. *)
Definition pick_rt_task (s : sys) (p : nat) (cpu : option nat) : bool :=
  negb (on_cpu (task s p)) &&
  match cpu with None => true | Some c => bool_decide (c ∈ cpus_allowed (task s p)) end &&
  (1 <? nr_cpus_allowed (ent s p)).

(** The first task of a queue that may be picked. *)
Definition pick_from (s : sys) (cpu : option nat) (q : list nat) : option nat :=
  hd_error (filter (λ e, rt_entity_is_task s e && pick_rt_task s e cpu = true) q).

(** The search of one run queue from index [idx] on, [next] being the best so
    far. *)
Fixpoint pick_in_array (fuel : nat) (s : sys) (cpu : option nat) (a : rt_prio_array) (next : option nat) (idx : Z) :
    option nat :=
  match fuel with
  | O => next
  | S fuel =>
      if MAX_RT_PRIO <=? idx then next
      else if match next with Some n => prio (task s n) <? idx | None => false end then next
      else
        match pick_from s cpu (queue a idx) with
        | Some p => Some p
        | None =>
            match next with
            | Some _ => next
            | None => pick_in_array fuel s cpu a None (find_next_bit (bits a) MAX_RT_PRIO (idx + 1))
            end
        end
  end.
Definition pick_next_highest_task_rt (s : sys) (c : nat) (cpu : option nat) : option nat :=
  foldl (λ next r, let a := active (rtq s r) in
                   pick_in_array 101 s cpu a next (sched_find_first_bit (bits a)))
    None (leaf_rt_rq_list (cpu_rq s c)).

Definition next_prio (s : sys) (c : nat) : Z :=
  match pick_next_highest_task_rt s c (Some c) with
  | Some n => if rt_prio (prio (task s n)) then prio (task s n) else MAX_RT_PRIO
  | None => MAX_RT_PRIO
  end.

(** ** Priorities of a run queue *)

Definition set_cpupri (c : nat) (p : Z) (s : sys) : sys :=
  match cpupri_set c p (rd_cpupri (rd s)) with
  | Some cp => upd_rd (λ d, mk_rd (span d) (rto_mask d) (rto_count d) cp) s
  | None => BUG_ON true s
  end.

Definition set_curr (p : Z) (r : nat) : sys → sys := upd_rt r (λ q, with_hp p (hp_next q) q).
Definition set_next (p : Z) (r : nat) : sys → sys := upd_rt r (λ q, with_hp (hp_curr q) p q).

Definition inc_rt_prio_smp (r : nat) (p prev : Z) (s : sys) : sys :=
  let c := rt_cpu (rtq s r) in
  if p <? prev then
    let s := set_next prev r s in
    if online (cpu_rq s c) then set_cpupri c p s else s
  else if p =? hp_curr (rtq s r) then set_next p r s
  else if p <? hp_next (rtq s r) then set_next (next_prio s c) r s
  else s.

Definition dec_rt_prio_smp (r : nat) (p prev : Z) (s : sys) : sys :=
  let c := rt_cpu (rtq s r) in
  let s :=
    if negb (rt_nr_running (rtq s r) =? 0) && (p <=? hp_next (rtq s r)) then set_next (next_prio s c) r s else s in
  if online (cpu_rq s c) && negb (hp_curr (rtq s r) =? prev) then set_cpupri c (hp_curr (rtq s r)) s else s.

Definition inc_rt_prio (r : nat) (p : Z) (s : sys) : sys :=
  let prev := hp_curr (rtq s r) in
  inc_rt_prio_smp r p prev (if p <? prev then set_curr p r s else s).

Definition dec_rt_prio (r : nat) (p : Z) (s : sys) : sys :=
  let prev := hp_curr (rtq s r) in
  let s :=
    if negb (rt_nr_running (rtq s r) =? 0) then
      let s := BUG_ON (p <? prev) s in
      if p =? prev then set_curr (sched_find_first_bit (bits (active (rtq s r)))) r s else s
    else set_curr MAX_RT_PRIO r s in
  dec_rt_prio_smp r p prev s.

Definition add_boosted (d : Z) (r : nat) : sys → sys := upd_rt r (λ q, with_boosted (rt_nr_boosted q + d) q).

(** [start_rt_bandwidth] (kernel/sched.c): the period timer is made to run. *)
Definition start_rt_bandwidth (g : nat) (s : sys) : sys :=
  if negb (bandwidth_enabled s) || (tg_rt_runtime (tgs s g) =? RUNTIME_INF) then s else start_timer g s.

Definition inc_rt_group (e r : nat) (s : sys) : sys :=
  let s := if rt_se_boosted s e then add_boosted 1 r s else s in
  match rt_tg (rtq s r) with Some g => start_rt_bandwidth g s | None => s end.
Definition dec_rt_group (e r : nat) (s : sys) : sys :=
  let s := if rt_se_boosted s e then add_boosted (-1) r s else s in
  BUG_ON ((rt_nr_running (rtq s r) =? 0) && negb (rt_nr_boosted (rtq s r) =? 0)) s.

Definition inc_rt_tasks (e r : nat) (s : sys) : sys :=
  let p := rt_se_prio s e in
  let s := BUG_ON (negb (rt_prio p)) s in
  let s := upd_rt r (λ q, with_running (rt_nr_running q + 1) q) s in
  inc_rt_group e r (inc_rt_migration e r (inc_rt_prio r p s)).
Definition dec_rt_tasks (e r : nat) (s : sys) : sys :=
  let s := BUG_ON (negb (rt_prio (rt_se_prio s e))) s in
  let s := BUG_ON (rt_nr_running (rtq s r) =? 0) s in
  let s := upd_rt r (λ q, with_running (rt_nr_running q - 1) q) s in
  dec_rt_group e r (dec_rt_migration e r (dec_rt_prio r (rt_se_prio s e) s)).

(** ** Entities on run queues *)

Definition list_add_leaf_rt_rq (r : nat) (s : sys) : sys :=
  upd_rq (rt_cpu (rtq s r)) (λ c, with_leaves (r :: leaf_rt_rq_list c) c) s.
Definition list_del_leaf_rt_rq (r : nat) (s : sys) : sys :=
  upd_rq (rt_cpu (rtq s r)) (λ c, with_leaves (filter (λ x, x ≠ r) (leaf_rt_rq_list c)) c) s.

(** [list_add], [list_add_tail] on queue [p], with the bit; [list_del_init] of
    the entity, wherever it is linked. *)
Definition link_entity (e : nat) (head : bool) (p : Z) (r : nat) (s : sys) : sys :=
  let s := upd_ent e (with_run_list (Some p)) s in
  upd_rt r (λ q, let a := active q in
    with_active (mk_array (bits a)
      (<[p := if head then e :: queue a p else queue a p ++ [e]]> (queue a))) q) s.
Definition unlink_entity (e : nat) (r : nat) (s : sys) : sys :=
  match run_list (ent s e) with
  | None => s
  | Some p =>
      let s := upd_ent e (with_run_list None) s in
      upd_rt r (λ q, let a := active q in
        with_active (mk_array (bits a) (<[p := filter (λ x, x ≠ e) (queue a p)]> (queue a))) q) s
  end.
Definition mark (set : bool) (p : Z) (r : nat) : sys → sys :=
  upd_rt r (λ q, let a := active q in
    with_active (mk_array (if set then __set_bit p (bits a) else __clear_bit p (bits a)) (queue a)) q).

Definition __enqueue_rt_entity (head : bool) (e : nat) (s : sys) : sys :=
  let r := rt_rq_of_se s e in
  let skip :=
    match group_rt_rq s e with
    | Some g => rt_rq_throttled s g || (rt_nr_running (rtq s g) =? 0)
    | None => false
    end in
  if skip then s
  else
    let s := if rt_nr_running (rtq s r) =? 0 then list_add_leaf_rt_rq r s else s in
    let s := link_entity e head (rt_se_prio s e) r s in
    let s := mark true (rt_se_prio s e) r s in
    inc_rt_tasks e r s.

Definition __dequeue_rt_entity (e : nat) (s : sys) : sys :=
  let r := rt_rq_of_se s e in
  let s := unlink_entity e r s in
  let s :=
    match queue (active (rtq s r)) (rt_se_prio s e) with
    | [] => mark false (rt_se_prio s e) r s
    | _ => s
    end in
  let s := dec_rt_tasks e r s in
  if rt_nr_running (rtq s r) =? 0 then list_del_leaf_rt_rq r s else s.

(** The [back] pointers lead from the topmost parent down. *)
Definition dequeue_rt_stack (e : nat) (s : sys) : sys :=
  foldl (λ s e, if on_rt_rq s e then __dequeue_rt_entity e s else s) s (reverse (for_each_sched_rt_entity s e)).

Definition enqueue_rt_entity (e : nat) (head : bool) (s : sys) : sys :=
  let s := dequeue_rt_stack e s in
  foldl (λ s e, __enqueue_rt_entity head e s) s (for_each_sched_rt_entity s e).

Definition requeue_parent (e : nat) (s : sys) : sys :=
  match group_rt_rq s e with
  | Some g => if rt_nr_running (rtq s g) =? 0 then s else __enqueue_rt_entity false e s
  | None => s
  end.
Definition dequeue_rt_entity (e : nat) (s : sys) : sys :=
  let s := dequeue_rt_stack e s in
  foldl (λ s e, requeue_parent e s) s (for_each_sched_rt_entity s e).
