(* ===== verification/RtInv.v ===== *)
(** * The invariant of the real-time run queues

    What holds of every run queue between the operations of sched_rt.c: bitmap,
    counters and highest priority agree with the queues, every entity is in the
    queue of its priority, and an entity of a group is queued exactly when the
    group has something to run and is not throttled.  Enqueueing and dequeueing
    an entity keep the invariant, although the priority of a group's entity
    changes with what is queued below it: the walk takes entities off from the
    top down and puts them back from the bottom up. *)

From stdpp Require Import functions.
From S2P Require Import Prelude Bitmap CpuPri Plist RtRq.

(** ** Sums over the queues of an array *)

Definition lsum (f : nat → Z) (l : list nat) : Z := sumZ (f <$> l).
Definition prios : list Z := Z.of_nat <$> seq 0 100.
Definition qsum (f : nat → Z) (q : Z → list nat) : Z := sumZ ((λ p, lsum f (q p)) <$> prios).

Lemma elem_prios p : p ∈ prios ↔ 0 ≤ p < MAX_RT_PRIO.
Proof.
  unfold prios, MAX_RT_PRIO. rewrite list_elem_of_fmap. setoid_rewrite elem_of_seq. split.
  - intros (n & -> & Hn). lia.
  - intros Hp. exists (Z.to_nat p). lia.
Qed.

Lemma nodup_prios : NoDup prios.
Proof. apply NoDup_fmap; [intros ? ? ?; lia|apply NoDup_seq]. Qed.

Lemma lsum_app f l k : lsum f (l ++ k) = lsum f l + lsum f k.
Proof. unfold lsum. rewrite fmap_app. apply sumZ_app. Qed.

Lemma lsum_cons f x l : lsum f (x :: l) = f x + lsum f l.
Proof. done. Qed.

Lemma lsum_ext f g l : (∀ x, x ∈ l → f x = g x) → lsum f l = lsum g l.
Proof. intros H. unfold lsum. f_equal. by apply list_fmap_ext_in || (apply Forall_fmap_ext, Forall_forall; done). Qed.

Lemma lsum_nonneg f l : (∀ x, 0 ≤ f x) → 0 ≤ lsum f l.
Proof. intros H. unfold lsum. apply sumZ_nonneg. apply Forall_fmap, Forall_true. done. Qed.

Lemma lsum_remove f e l : NoDup l → e ∈ l → lsum f (filter (λ x, x ≠ e) l) = lsum f l - f e.
Proof.
  induction 1 as [|x l Hx Hnd IH]; [by intros ?%not_elem_of_nil|]. intros [->|Hin]%elem_of_cons.
  - rewrite filter_cons_False by tauto. rewrite lsum_cons, filter_all; [lia|]. apply Forall_forall. by intros y Hy ->.
  - rewrite filter_cons_True by (intros ->; done). rewrite !lsum_cons, IH by done. lia.
Qed.

Lemma qsum_ext f g q : (∀ p x, 0 ≤ p < MAX_RT_PRIO → x ∈ q p → f x = g x) → qsum f q = qsum g q.
Proof.
  intros H. unfold qsum. f_equal. apply Forall_fmap_ext, Forall_forall. intros p Hp%elem_prios. apply lsum_ext. eauto.
Qed.

Lemma qsum_insert f q p l : 0 ≤ p < MAX_RT_PRIO → qsum f (<[p := l]> q) = qsum f q - lsum f (q p) + lsum f l.
Proof.
  intros Hp%elem_prios. unfold qsum. pose proof nodup_prios as Hnd. induction prios as [|x ps IH]; [by apply not_elem_of_nil in Hp|].
  csimpl. inversion Hnd as [|? ? Hx Hnd']; subst. apply elem_of_cons in Hp as [->|Hp].
  - rewrite fn_lookup_insert. assert ((λ p0, lsum f (<[x:=l]> q p0)) <$> ps = (λ p0, lsum f (q p0)) <$> ps) as ->; [|lia].
    apply Forall_fmap_ext, Forall_forall. intros y Hy. rewrite fn_lookup_insert_ne; [done|]. intros ->. done.
  - rewrite fn_lookup_insert_ne by (intros ->; done). rewrite IH by done. lia.
Qed.

Lemma qsum_one q : qsum (λ _, 1) q = 0 ↔ ∀ p, 0 ≤ p < MAX_RT_PRIO → q p = [].
Proof.
  unfold qsum. setoid_rewrite <- elem_prios. assert (∀ l, lsum (λ _, 1) l = Z.of_nat (length l)) as Hl.
  { induction l as [|x l IH]; [done|]. rewrite lsum_cons, IH. simpl. lia. }
  induction prios as [|x ps IH]; csimpl; [split; [by intros _ p ?%not_elem_of_nil|done]|].
  assert (0 ≤ sumZ ((λ p, lsum (λ _, 1) (q p)) <$> ps)).
  { apply sumZ_nonneg, Forall_fmap, Forall_true. intros p. simpl. rewrite Hl. lia. }
  rewrite Hl. split.
  - intros E p [->|Hp]%elem_of_cons; [apply length_zero_iff_nil; lia|apply IH; [lia|done]].
  - intros H0. rewrite (H0 x) by left. simpl. rewrite Z.add_0_l. apply IH. intros p Hp. apply H0. by right.
Qed.

(** ** The invariant *)

Definition zb (b : bool) : Z := if b then 1 else 0.

(** What rests between operations on run queue [r]. *)
Record rq_ok (s : sys) (r : nat) : Prop := {
  q_words : length (bits (active (rtq s r))) = 4%nat ∧ words_ok (bits (active (rtq s r)));
  q_bits : ∀ p, 0 ≤ p < MAX_RT_PRIO →
    test_bit p (bits (active (rtq s r))) = bool_decide (queue (active (rtq s r)) p ≠ []);
  q_delimiter : test_bit MAX_RT_PRIO (bits (active (rtq s r))) = true;
  q_linked : ∀ e p, e ∈ queue (active (rtq s r)) p ↔ se_rt_rq (ent s e) = r ∧ run_list (ent s e) = Some p;
  q_nodup : ∀ p, NoDup (queue (active (rtq s r)) p);
  q_prio : ∀ e p, e ∈ queue (active (rtq s r)) p → rt_se_prio s e = p ∧ 0 ≤ p < MAX_RT_PRIO;
  q_running : rt_nr_running (rtq s r) = qsum (λ _, 1) (queue (active (rtq s r)));
  q_curr : first_set (bits (active (rtq s r))) 0 MAX_RT_PRIO (hp_curr (rtq s r));
  q_boosted : rt_nr_boosted (rtq s r) = qsum (λ e, zb (rt_se_boosted s e)) (queue (active (rtq s r)))
}.

(** The walk over the parents comes to an end. *)
Fixpoint complete (s : sys) (fuel : nat) (e : option nat) : Prop :=
  match e, fuel with
  | None, _ => True
  | Some e, S fuel => complete s fuel (parent (ent s e))
  | Some e, O => False
  end.

(** The groups form a tree: the parent of an entity is the entity that owns the
    queue it is for. *)
Record tree (s : sys) : Prop := {
  t_parent : ∀ e o, parent (ent s e) = Some o ↔ my_q (ent s o) = Some (se_rt_rq (ent s e));
  t_complete : ∀ e, complete s (levels s) (Some e)
}.

(** An entity of a group is queued when the group is to run. *)
Definition group_ready (s : sys) (g : nat) : bool := negb (rt_nr_running (rtq s g) =? 0) && negb (rt_rq_throttled s g).
Definition group_ok (s : sys) (e : nat) : Prop :=
  ∀ g, my_q (ent s e) = Some g → on_rt_rq s e = group_ready s g.

Record rt_inv (s : sys) : Prop := {
  i_tree : tree s;
  i_rq : ∀ r, rq_ok s r;
  i_group : ∀ e, group_ok s e
}.

(** ** What the invariant depends on *)

Definition core (q : rt_rq) : rt_prio_array * Z * Z * Z * bool * nat :=
  (active q, rt_nr_running q, hp_curr q, rt_nr_boosted q, rt_throttled q, rt_cpu q).

Lemma core_inv q a n c b t k :
  core q = (a, n, c, b, t, k) →
  active q = a ∧ rt_nr_running q = n ∧ hp_curr q = c ∧ rt_nr_boosted q = b ∧ rt_throttled q = t ∧ rt_cpu q = k.
Proof. by intros [= <- <- <- <- <- <-]. Qed.

(** Same entities, tasks and core of every run queue, no new warning. *)
Record same_core (s s' : sys) : Prop := {
  sc_ent : ent s' = ent s;
  sc_task : task s' = task s;
  sc_levels : levels s' = levels s;
  sc_bugs : bugs s' = bugs s;
  sc_root : ∀ c, rt (cpu_rq s' c) = rt (cpu_rq s c) ∧ online (cpu_rq s' c) = online (cpu_rq s c);
  sc_rt : ∀ r, core (rtq s' r) = core (rtq s r)
}.

#[global] Instance same_core_preorder : PreOrder same_core.
Proof.
  split.
  - intros s. by split.
  - intros s t u [] []. split; try congruence. intros c. specialize (sc_root0 c). specialize (sc_root1 c). intuition congruence.
Qed.

Lemma upd_rt_same r f s : (∀ q, core (f q) = core q) → same_core s (upd_rt r f s).
Proof.
  intros Hf. split; simpl; try done. intros r'. destruct (decide (r' = r)) as [->|].
  - by rewrite fn_lookup_insert, Hf.
  - by rewrite fn_lookup_insert_ne.
Qed.
Lemma upd_rd_same f s : same_core s (upd_rd f s).
Proof. by split. Qed.
Lemma upd_rq_same c f s : (∀ q, rt (f q) = rt q ∧ online (f q) = online q) → same_core s (upd_rq c f s).
Proof.
  intros Hf. split; simpl; try done. intros c'. destruct (decide (c' = c)) as [->|].
  - rewrite fn_lookup_insert. apply Hf.
  - by rewrite fn_lookup_insert_ne.
Qed.
#[export] Hint Resolve upd_rd_same : rt.
#[export] Hint Extern 1 (same_core _ (upd_rt _ _ _)) => apply upd_rt_same; done : rt.
#[export] Hint Extern 1 (same_core _ (upd_rq _ _ _)) => apply upd_rq_same; done : rt.
#[export] Hint Extern 2 (same_core ?s ?s) => reflexivity : rt.

Lemma set_cpupri_same c p s : 0 ≤ p ≤ MAX_PRIO → same_core s (set_cpupri c p s).
Proof.
  intros Hp. unfold set_cpupri. pose proof (convert_prio_range p ltac:(lia)).
  unfold cpupri_set. destruct (Z.leb_spec CPUPRI_NR_PRIORITIES (convert_prio p)); [lia|].
  destruct (_ =? _); auto with rt.
Qed.

Lemma update_rt_migration_same r s : same_core s (update_rt_migration r s).
Proof.
  unfold update_rt_migration, set_overloaded, rt_set_overload, rt_clear_overload.
  destruct (_ && _), (overloaded _); auto with rt; destruct (negb _); auto with rt;
    (etrans; [apply upd_rd_same|auto with rt]).
Qed.
Lemma inc_rt_migration_same e r s : same_core s (inc_rt_migration e r s).
Proof.
  unfold inc_rt_migration. destruct (negb _); [reflexivity|]. etrans; [|apply update_rt_migration_same].
  unfold count_migration. auto with rt.
Qed.
Lemma dec_rt_migration_same e r s : same_core s (dec_rt_migration e r s).
Proof.
  unfold dec_rt_migration. destruct (negb _); [reflexivity|]. etrans; [|apply update_rt_migration_same].
  unfold count_migration. auto with rt.
Qed.
Lemma start_rt_bandwidth_same g s : same_core s (start_rt_bandwidth g s).
Proof. unfold start_rt_bandwidth. destruct (_ || _); by split. Qed.

Lemma inc_rt_prio_smp_same r p prev s : 0 ≤ p < MAX_RT_PRIO → same_core s (inc_rt_prio_smp r p prev s).
Proof.
  intros Hp. unfold inc_rt_prio_smp, set_next, MAX_RT_PRIO in *. destruct (p <? prev).
  - assert (same_core s (upd_rt r (λ q, with_hp (hp_curr q) prev q) s)) as H1 by auto with rt.
    destruct (online _); [|done]. etrans; [exact H1|]. apply set_cpupri_same. unfold MAX_PRIO. lia.
  - destruct (p =? _); [auto with rt|]. destruct (p <? _); auto with rt.
Qed.
Lemma dec_rt_prio_smp_same r p prev s : 0 ≤ hp_curr (rtq s r) ≤ MAX_RT_PRIO → same_core s (dec_rt_prio_smp r p prev s).
Proof.
  intros Hp. unfold dec_rt_prio_smp, set_next. set (s1 := if _ && _ then _ else s).
  assert (same_core s s1) as H1 by (unfold s1; destruct (_ && _); auto with rt).
  destruct (_ && negb _); [|done]. etrans; [exact H1|]. apply set_cpupri_same.
  pose proof (sc_rt _ _ H1 r) as Hc. injection Hc as _ _ -> _ _ _. unfold MAX_RT_PRIO, MAX_PRIO in *. lia.
Qed.

(** The invariant only looks at the core. *)
Lemma se_prio_same s s' e : same_core s s' → rt_se_prio s' e = rt_se_prio s e.
Proof.
  intros H. unfold rt_se_prio, group_rt_rq. rewrite (sc_ent _ _ H), (sc_task _ _ H). destruct (my_q _) as [g|]; [|done].
  pose proof (sc_rt _ _ H g) as Hc. by injection Hc.
Qed.
Lemma se_boosted_same s s' e : same_core s s' → rt_se_boosted s' e = rt_se_boosted s e.
Proof.
  intros H. unfold rt_se_boosted, group_rt_rq. rewrite (sc_ent _ _ H), (sc_task _ _ H). destruct (my_q _) as [g|]; [|done].
  pose proof (sc_rt _ _ H g) as Hc. injection Hc as _ _ _ -> _ _. done.
Qed.
Lemma throttled_same s s' r : same_core s s' → rt_rq_throttled s' r = rt_rq_throttled s r.
Proof.
  intros H. unfold rt_rq_throttled. pose proof (sc_rt _ _ H r) as Hc. injection Hc as _ _ _ -> -> _. done.
Qed.
Lemma running_same s s' r : same_core s s' → rt_nr_running (rtq s' r) = rt_nr_running (rtq s r).
Proof. intros H. pose proof (sc_rt _ _ H r) as Hc. by injection Hc. Qed.

(** ** The effect of one entity coming or going *)

(** [s'] is [s] with the core of [r] changed to [c]. *)
Record core_set (s s' : sys) (r : nat) (c : rt_prio_array * Z * Z * Z * bool * nat) : Prop := {
  cs_ent : ent s' = ent s;
  cs_task : task s' = task s;
  cs_levels : levels s' = levels s;
  cs_bugs : bugs s' = bugs s;
  cs_root : ∀ c, rt (cpu_rq s' c) = rt (cpu_rq s c) ∧ online (cpu_rq s' c) = online (cpu_rq s c);
  cs_rt : ∀ r', core (rtq s' r') = if decide (r' = r) then c else core (rtq s r')
}.

Lemma core_set_upd r f s : core_set s (upd_rt r f s) r (core (f (rtq s r))).
Proof.
  split; simpl; try done. intros r'. case_decide as E; [subst; by rewrite fn_lookup_insert|by rewrite fn_lookup_insert_ne].
Qed.
Lemma core_set_same s s' s'' r c : core_set s s' r c → same_core s' s'' → core_set s s'' r c.
Proof.
  intros H H'. pose proof H as [E1 E2 E3 E4 E5 E6]. pose proof H' as [F1 F2 F3 F4 F5 F6]. split; try congruence.
  - intros x. specialize (E5 x). specialize (F5 x). intuition congruence.
  - intros r'. by rewrite F6.
Qed.
Lemma same_core_set s s' s'' r c : same_core s s' → core_set s' s'' r c → core_set s s'' r c.
Proof.
  intros H H'. pose proof H as [E1 E2 E3 E4 E5 E6]. pose proof H' as [F1 F2 F3 F4 F5 F6]. split; try congruence.
  - intros x. specialize (E5 x). specialize (F5 x). intuition congruence.
  - intros r'. rewrite F6. by case_decide.
Qed.
Lemma core_set_trans s s' s'' r c c' : core_set s s' r c → core_set s' s'' r c' → core_set s s'' r c'.
Proof.
  intros H H'. pose proof H as [E1 E2 E3 E4 E5 E6]. pose proof H' as [F1 F2 F3 F4 F5 F6]. split; try congruence.
  - intros x. specialize (E5 x). specialize (F5 x). intuition congruence.
  - intros r'. rewrite F6. case_decide as Hd; [done|]. by rewrite E6, decide_False.
Qed.

Lemma core_set_at s s' r c : core_set s s' r c → core (rtq s' r) = c.
Proof. intros H. rewrite (cs_rt _ _ _ _ H). by rewrite decide_True. Qed.

Lemma core_set_prio s s' r c e : core_set s s' r c → my_q (ent s e) ≠ Some r → rt_se_prio s' e = rt_se_prio s e.
Proof.
  intros H Hne. unfold rt_se_prio, group_rt_rq. rewrite (cs_ent _ _ _ _ H), (cs_task _ _ _ _ H).
  destruct (my_q (ent s e)) as [g|]; [|done]. pose proof (cs_rt _ _ _ _ H g) as Hc. rewrite decide_False in Hc by congruence. by injection Hc.
Qed.
Lemma core_set_boosted s s' r c e : core_set s s' r c → my_q (ent s e) ≠ Some r → rt_se_boosted s' e = rt_se_boosted s e.
Proof.
  intros H Hne. unfold rt_se_boosted, group_rt_rq. rewrite (cs_ent _ _ _ _ H), (cs_task _ _ _ _ H).
  destruct (my_q (ent s e)) as [g|]; [|done]. pose proof (cs_rt _ _ _ _ H g) as Hc. rewrite decide_False in Hc by congruence.
  injection Hc as _ _ _ -> _ _. done.
Qed.

Lemma BUG_ON_false s : BUG_ON false s = s.
Proof. destruct s. unfold BUG_ON. simpl. by rewrite orb_false_r. Qed.

Lemma inc_rt_prio_set r p s :
  0 ≤ p < MAX_RT_PRIO → let q := rtq s r in
  core_set s (inc_rt_prio r p s) r
    (active q, rt_nr_running q, Z.min p (hp_curr q), rt_nr_boosted q, rt_throttled q, rt_cpu q).
Proof.
  intros Hp q. unfold inc_rt_prio. eapply core_set_same; [|by apply inc_rt_prio_smp_same].
  destruct (Z.ltb_spec p (hp_curr (rtq s r))) as [Hlt|Hge].
  - unfold set_curr. rewrite Z.min_l by (unfold q; lia). apply core_set_upd.
  - rewrite Z.min_r by (unfold q; lia). split; try done. intros r'. by case_decide; subst.
Qed.

Lemma dec_rt_prio_set r p s :
  let q := rtq s r in
  hp_curr q ≤ p → 0 ≤ hp_curr q ≤ MAX_RT_PRIO → 0 ≤ sched_find_first_bit (bits (active q)) ≤ MAX_RT_PRIO →
  core_set s (dec_rt_prio r p s) r
    (active q, rt_nr_running q,
     if rt_nr_running q =? 0 then MAX_RT_PRIO
     else if p =? hp_curr q then sched_find_first_bit (bits (active q)) else hp_curr q,
     rt_nr_boosted q, rt_throttled q, rt_cpu q).
Proof.
  intros q Hle Hc Hf. unfold dec_rt_prio. fold q. set (s1 := if negb _ then _ else _).
  assert (core_set s s1 r
    (active q, rt_nr_running q,
     if rt_nr_running q =? 0 then MAX_RT_PRIO
     else if p =? hp_curr q then sched_find_first_bit (bits (active q)) else hp_curr q,
     rt_nr_boosted q, rt_throttled q, rt_cpu q)) as H1.
  { unfold s1. destruct (Z.eqb_spec (rt_nr_running q) 0) as [E|E]; simpl; [unfold set_curr; apply core_set_upd|].
    replace (p <? hp_curr q) with false by lia. rewrite BUG_ON_false. destruct (Z.eqb_spec p (hp_curr q)).
    - unfold set_curr. apply core_set_upd.
    - split; try done. intros r'. by case_decide; subst. }
  eapply core_set_same; [exact H1|]. apply dec_rt_prio_smp_same. pose proof (core_set_at _ _ _ _ H1) as Hat.
  injection Hat as _ _ -> _ _ _. destruct (_ =? 0), (p =? hp_curr q); unfold MAX_RT_PRIO in *; lia.
Qed.

Lemma add_boosted_if_set r b d s :
  let q := rtq s r in
  core_set s (if b : bool then add_boosted d r s else s) r
    (active q, rt_nr_running q, hp_curr q, rt_nr_boosted q + zb b * d, rt_throttled q, rt_cpu q).
Proof.
  intros q. destruct b; simpl.
  - unfold add_boosted. rewrite (Z.mul_1_l d) || (replace (1 * d) with d by lia). apply core_set_upd.
  - rewrite Z.add_0_r. split; try done. intros r'. by case_decide; subst.
Qed.

Lemma inc_rt_tasks_set e r s :
  my_q (ent s e) ≠ Some r → 0 ≤ rt_se_prio s e < MAX_RT_PRIO → let q := rtq s r in
  core_set s (inc_rt_tasks e r s) r
    (active q, rt_nr_running q + 1, Z.min (rt_se_prio s e) (hp_curr q), rt_nr_boosted q + zb (rt_se_boosted s e),
     rt_throttled q, rt_cpu q).
Proof.
  intros Hne Hp q. unfold inc_rt_tasks, rt_prio. replace (rt_se_prio s e <? MAX_RT_PRIO) with true by lia.
  rewrite BUG_ON_false. set (s1 := upd_rt r _ s). pose proof (core_set_upd r (λ q, with_running (rt_nr_running q + 1) q) s) as H1.
  fold s1 in H1. pose proof (inc_rt_prio_set r _ s1 Hp) as H2. cbv zeta in H2.
  pose proof (core_set_at _ _ _ _ H1) as A1. apply core_inv in A1 as (A11 & A12 & A13 & A14 & A15 & A16).
  rewrite A11, A12, A13, A14, A15, A16 in H2. pose proof (core_set_trans _ _ _ _ _ _ H1 H2) as H12.
  set (s2 := inc_rt_prio _ _ s1) in *.
  pose proof (core_set_same _ _ _ _ _ H12 (inc_rt_migration_same e r s2)) as H3. set (s3 := inc_rt_migration e r s2) in *.
  unfold inc_rt_group. pose proof (add_boosted_if_set r (rt_se_boosted s3 e) 1 s3) as H4. cbv zeta in H4.
  pose proof (core_set_at _ _ _ _ H3) as A3. apply core_inv in A3 as (A31 & A32 & A33 & A34 & A35 & A36). rewrite A31, A32, A33, A34, A35, A36 in H4.
  rewrite (core_set_boosted _ _ _ _ _ H3 Hne) in *. pose proof (core_set_trans _ _ _ _ _ _ H3 H4) as H34. simpl in H34.
  rewrite Z.mul_1_r in H34. destruct (rt_tg _); [|exact H34]. eapply core_set_same; [exact H34|apply start_rt_bandwidth_same].
Qed.

Lemma dec_rt_tasks_set e r s :
  let q := rtq s r in let p := rt_se_prio s e in
  my_q (ent s e) ≠ Some r → 0 ≤ p < MAX_RT_PRIO → 0 < rt_nr_running q → hp_curr q ≤ p → 0 ≤ hp_curr q ≤ MAX_RT_PRIO →
  0 ≤ sched_find_first_bit (bits (active q)) ≤ MAX_RT_PRIO →
  (rt_nr_running q = 1 → rt_nr_boosted q = zb (rt_se_boosted s e)) →
  core_set s (dec_rt_tasks e r s) r
    (active q, rt_nr_running q - 1,
     if rt_nr_running q - 1 =? 0 then MAX_RT_PRIO
     else if p =? hp_curr q then sched_find_first_bit (bits (active q)) else hp_curr q,
     rt_nr_boosted q - zb (rt_se_boosted s e), rt_throttled q, rt_cpu q).
Proof.
  intros q p Hne Hp Hrun Hle Hc Hf Hlast. unfold dec_rt_tasks, rt_prio. fold p.
  replace (p <? MAX_RT_PRIO) with true by lia. rewrite BUG_ON_false. fold q.
  replace (rt_nr_running q =? 0) with false by lia. rewrite BUG_ON_false. set (s1 := upd_rt r _ s).
  pose proof (core_set_upd r (λ q, with_running (rt_nr_running q - 1) q) s) as H1. fold s1 in H1. fold q in H1.
  rewrite (core_set_prio _ _ _ _ _ H1 Hne). fold p. pose proof (core_set_at _ _ _ _ H1) as A1. apply core_inv in A1 as (A11 & A12 & A13 & A14 & A15 & A16).
  pose proof (dec_rt_prio_set r p s1) as H2. cbv zeta in H2. rewrite A11, A12, A13, A14, A15, A16 in H2. specialize (H2 Hle Hc Hf).
  pose proof (core_set_trans _ _ _ _ _ _ H1 H2) as H12. set (s2 := dec_rt_prio _ _ s1) in *.
  pose proof (core_set_same _ _ _ _ _ H12 (dec_rt_migration_same e r s2)) as H3. set (s3 := dec_rt_migration e r s2) in *.
  unfold dec_rt_group. pose proof (add_boosted_if_set r (rt_se_boosted s3 e) (-1) s3) as H4. cbv zeta in H4.
  pose proof (core_set_at _ _ _ _ H3) as A3. apply core_inv in A3 as (A31 & A32 & A33 & A34 & A35 & A36). rewrite A31, A32, A33, A34, A35, A36 in H4.
  rewrite (core_set_boosted _ _ _ _ _ H3 Hne) in *. pose proof (core_set_trans _ _ _ _ _ _ H3 H4) as H34.
  pose proof (core_set_at _ _ _ _ H34) as A4. apply core_inv in A4 as (A41 & A42 & A43 & A44 & A45 & A46).
  rewrite A42, A44. simpl.
  replace ((rt_nr_running q - 1 =? 0) && negb (rt_nr_boosted q + zb (rt_se_boosted s e) * -1 =? 0)) with false.
  - rewrite BUG_ON_false. by replace (rt_nr_boosted q - zb (rt_se_boosted s e)) with (rt_nr_boosted q + zb (rt_se_boosted s e) * -1) by lia.
  - symmetry. apply andb_false_iff. destruct (Z.eqb_spec (rt_nr_running q - 1) 0); [right|by left].
    apply negb_false_iff, Z.eqb_eq. rewrite Hlast by lia. lia.
Qed.

(** [s'] is [s] with entity [e] linked as [l] and the core of [r] changed. *)
Record entity_set (s s' : sys) (e : nat) (l : option Z) (r : nat) (c : rt_prio_array * Z * Z * Z * bool * nat) : Prop := {
  es_ent : ∀ x, ent s' x = if decide (x = e) then with_run_list l (ent s e) else ent s x;
  es_task : task s' = task s;
  es_levels : levels s' = levels s;
  es_bugs : bugs s' = bugs s;
  es_root : ∀ c, rt (cpu_rq s' c) = rt (cpu_rq s c) ∧ online (cpu_rq s' c) = online (cpu_rq s c);
  es_rt : ∀ r', core (rtq s' r') = if decide (r' = r) then c else core (rtq s r')
}.

Lemma entity_set_upd s e l r f :
  entity_set s (upd_rt r f (upd_ent e (with_run_list l) s)) e l r (core (f (rtq s r))).
Proof.
  split; simpl; try done.
  - intros x. case_decide as E; [subst; by rewrite fn_lookup_insert|by rewrite fn_lookup_insert_ne].
  - intros r'. case_decide as E; [subst; by rewrite fn_lookup_insert|by rewrite fn_lookup_insert_ne].
Qed.
Lemma entity_set_same s s' s'' e l r c : entity_set s s' e l r c → same_core s' s'' → entity_set s s'' e l r c.
Proof.
  intros H H'. pose proof H as [E1 E2 E3 E4 E5 E6]. pose proof H' as [F1 F2 F3 F4 F5 F6]. split; try congruence.
  - intros x. by rewrite F1.
  - intros x. specialize (E5 x). specialize (F5 x). intuition congruence.
  - intros r'. by rewrite F6.
Qed.
Lemma entity_set_set s s' s'' e l r c c' : entity_set s s' e l r c → core_set s' s'' r c' → entity_set s s'' e l r c'.
Proof.
  intros H H'. pose proof H as [E1 E2 E3 E4 E5 E6]. pose proof H' as [F1 F2 F3 F4 F5 F6]. split; try congruence.
  - intros x. by rewrite F1.
  - intros x. specialize (E5 x). specialize (F5 x). intuition congruence.
  - intros r'. rewrite F6. case_decide as Hd; [done|]. by rewrite E6, decide_False.
Qed.
Lemma same_entity_set s s' s'' e l r c : same_core s s' → entity_set s' s'' e l r c → entity_set s s'' e l r c.
Proof.
  intros H H'. pose proof H as [E1 E2 E3 E4 E5 E6]. pose proof H' as [F1 F2 F3 F4 F5 F6]. split; try congruence.
  - intros x. rewrite F1, E1. done.
  - intros x. specialize (E5 x). specialize (F5 x). intuition congruence.
  - intros r'. rewrite F6. by case_decide.
Qed.
Lemma entity_set_at s s' e l r c : entity_set s s' e l r c → core (rtq s' r) = c.
Proof. intros H. rewrite (es_rt _ _ _ _ _ _ H). by rewrite decide_True. Qed.
Lemma entity_set_static s s' e l r c x :
  entity_set s s' e l r c →
  my_q (ent s' x) = my_q (ent s x) ∧ parent (ent s' x) = parent (ent s x) ∧ se_rt_rq (ent s' x) = se_rt_rq (ent s x).
Proof. intros H. rewrite (es_ent _ _ _ _ _ _ H). case_decide as E; [by subst|done]. Qed.
Lemma entity_set_prio s s' e l r c x :
  entity_set s s' e l r c → my_q (ent s x) ≠ Some r → rt_se_prio s' x = rt_se_prio s x.
Proof.
  intros H Hne. unfold rt_se_prio, group_rt_rq. destruct (entity_set_static _ _ _ _ _ _ x H) as (-> & _ & _).
  rewrite (es_task _ _ _ _ _ _ H). destruct (my_q (ent s x)) as [g|]; [|done].
  pose proof (es_rt _ _ _ _ _ _ H g) as Hc. rewrite decide_False in Hc by congruence. by injection Hc.
Qed.
Lemma entity_set_boosted s s' e l r c x :
  entity_set s s' e l r c → my_q (ent s x) ≠ Some r → rt_se_boosted s' x = rt_se_boosted s x.
Proof.
  intros H Hne. unfold rt_se_boosted, group_rt_rq. destruct (entity_set_static _ _ _ _ _ _ x H) as (-> & _ & _).
  rewrite (es_task _ _ _ _ _ _ H). destruct (my_q (ent s x)) as [g|]; [|done].
  pose proof (es_rt _ _ _ _ _ _ H g) as Hc. rewrite decide_False in Hc by congruence. injection Hc as _ _ _ -> _ _. done.
Qed.

(** The guard of [__enqueue_rt_entity]. *)
Definition enqueues (s : sys) (e : nat) : bool :=
  match my_q (ent s e) with Some g => group_ready s g | None => true end.

Lemma link_entity_set e head p r s :
  let q := rtq s r in
  entity_set s (link_entity e head p r s) e (Some p) r
    (mk_array (bits (active q)) (<[p := if head then e :: queue (active q) p else queue (active q) p ++ [e]]> (queue (active q))),
     rt_nr_running q, hp_curr q, rt_nr_boosted q, rt_throttled q, rt_cpu q).
Proof. intros q. apply (entity_set_upd s e (Some p) r). Qed.
Lemma unlink_entity_set e p r s :
  run_list (ent s e) = Some p → let q := rtq s r in
  entity_set s (unlink_entity e r s) e None r
    (mk_array (bits (active q)) (<[p := filter (λ x, x ≠ e) (queue (active q) p)]> (queue (active q))),
     rt_nr_running q, hp_curr q, rt_nr_boosted q, rt_throttled q, rt_cpu q).
Proof. intros E q. unfold unlink_entity. rewrite E. apply (entity_set_upd s e None r). Qed.
Lemma mark_set b p r s :
  let q := rtq s r in
  core_set s (mark b p r s) r
    (mk_array (if b then __set_bit p (bits (active q)) else __clear_bit p (bits (active q))) (queue (active q)),
     rt_nr_running q, hp_curr q, rt_nr_boosted q, rt_throttled q, rt_cpu q).
Proof. intros q. apply (core_set_upd r). Qed.

Lemma enqueue_effect head e s :
  let r := se_rt_rq (ent s e) in let q := rtq s r in let p := rt_se_prio s e in
  enqueues s e = true → my_q (ent s e) ≠ Some r → 0 ≤ p < MAX_RT_PRIO →
  entity_set s (__enqueue_rt_entity head e s) e (Some p) r
    (mk_array (__set_bit p (bits (active q)))
       (<[p := if head then e :: queue (active q) p else queue (active q) p ++ [e]]> (queue (active q))),
     rt_nr_running q + 1, Z.min p (hp_curr q), rt_nr_boosted q + zb (rt_se_boosted s e), rt_throttled q, rt_cpu q).
Proof.
  intros r q p Hen Hne Hp. unfold __enqueue_rt_entity, rt_rq_of_se. fold r.
  replace (match group_rt_rq s e with Some g => _ | None => false end) with false; cycle 1.
  { unfold enqueues, group_ready, group_rt_rq in *. destruct (my_q (ent s e)); [|done].
    destruct (rt_rq_throttled s n), (rt_nr_running (rtq s n) =? 0); done. }
  set (s1 := if rt_nr_running (rtq s r) =? 0 then _ else s).
  assert (same_core s s1) as H1.
  { unfold s1, list_add_leaf_rt_rq. destruct (_ =? 0); auto with rt. }
  rewrite (se_prio_same _ _ e H1). fold p. pose proof (link_entity_set e head p r s1) as H2. cbv zeta in H2.
  pose proof (sc_rt _ _ H1 r) as Hq. fold q in Hq. apply core_inv in Hq as (Q1 & Q2 & Q3 & Q4 & Q5 & Q6).
  rewrite Q1, Q2, Q3, Q4, Q5, Q6 in H2. set (s2 := link_entity _ _ _ _ _) in *.
  pose proof (same_entity_set _ _ _ _ _ _ _ H1 H2) as H12. rewrite (entity_set_prio _ _ _ _ _ _ e H12 Hne). fold p.
  pose proof (mark_set true p r s2) as H3. cbv zeta in H3. set (s3 := mark _ _ _ _) in *.
  pose proof (entity_set_at _ _ _ _ _ _ H12) as A. apply core_inv in A as (A1 & A2 & A3 & A4 & A5 & A6).
  rewrite A1, A2, A3, A4, A5, A6 in H3. simpl in H3.
  pose proof (entity_set_set _ _ _ _ _ _ _ _ H12 H3) as H13.
  destruct (entity_set_static _ _ _ _ _ _ e H13) as (Hmy & _ & _).
  pose proof (inc_rt_tasks_set e r s3) as H4. rewrite Hmy, (entity_set_prio _ _ _ _ _ _ e H13 Hne) in H4.
  specialize (H4 Hne Hp). cbv zeta in H4. rewrite (entity_set_boosted _ _ _ _ _ _ e H13 Hne) in H4.
  pose proof (entity_set_at _ _ _ _ _ _ H13) as B. apply core_inv in B as (B1 & B2 & B3 & B4 & B5 & B6).
  rewrite B1, B2, B3, B4, B5, B6 in H4. fold p in H4. exact (entity_set_set _ _ _ _ _ _ _ _ H13 H4).
Qed.

(** ** Keeping the invariant of the queues *)

(** The entity that owns [r] is off. *)
Definition owner_off (s : sys) (r : nat) : Prop := ∀ o, my_q (ent s o) = Some r → run_list (ent s o) = None.

(** A queued entity does not own [r]. *)
Lemma queued_not_owner s r r' x p :
  owner_off s r → rq_ok s r' → x ∈ queue (active (rtq s r')) p → my_q (ent s x) ≠ Some r.
Proof. intros Ho H Hx Hmy. apply (q_linked _ _ H) in Hx as [_ Hx]. by rewrite (Ho x Hmy) in Hx. Qed.

Lemma entity_set_other s s' e l r c r' :
  entity_set s s' e l r c → se_rt_rq (ent s e) = r → owner_off s r → r' ≠ r → rq_ok s r' → rq_ok s' r'.
Proof.
  intros H He Ho Hne Hok. pose proof (es_rt _ _ _ _ _ _ H r') as Hc. rewrite decide_False in Hc by done.
  apply core_inv in Hc as (C1 & C2 & C3 & C4 & C5 & C6). pose proof Hok as [H1 H2 H3 H4 H5 H6 H7 H8 H9].
  split; rewrite ?C1, ?C2, ?C3, ?C4; try done.
  - intros x p. rewrite H4. destruct (entity_set_static _ _ _ _ _ _ x H) as (_ & _ & ->).
    rewrite (es_ent _ _ _ _ _ _ H x). case_decide as E; [subst x; naive_solver|done].
  - intros x p Hx. rewrite (entity_set_prio _ _ _ _ _ _ x H) by (by eapply queued_not_owner). by apply H6.
  - rewrite H9. apply qsum_ext. intros p x _ Hx. rewrite (entity_set_boosted _ _ _ _ _ _ x H); [done|]. by eapply queued_not_owner.
Qed.

Lemma first_set_min b p c :
  length b = 4%nat → 0 ≤ p < MAX_RT_PRIO → first_set b 0 MAX_RT_PRIO c → first_set (__set_bit p b) 0 MAX_RT_PRIO (Z.min p c).
Proof.
  intros Hl Hp (Hr & Hn & Hb). unfold MAX_RT_PRIO in *.
  assert (∀ i, 0 ≤ i → test_bit i (__set_bit p b) = bool_decide (i = p) || test_bit i b) as Ht.
  { intros i Hi. apply test_set_bit; [lia|lia|]. rewrite Hl. apply Z.div_lt_upper_bound; lia. }
  split_and!; [lia|lia| |].
  - intros i Hi. rewrite Ht, bool_decide_eq_false_2, Hn by lia. done.
  - intros Hm. rewrite Ht by lia. destruct (decide (p ≤ c)).
    + rewrite Z.min_l by lia. by rewrite bool_decide_eq_true_2.
    + rewrite Z.min_r, Hb by lia. by rewrite orb_true_r.
Qed.

Lemma add_elem (head : bool) (e : nat) l x : x ∈ (if head then e :: l else l ++ [e]) ↔ x = e ∨ x ∈ l.
Proof. destruct head; set_solver. Qed.
Lemma add_lsum (head : bool) f e l : lsum f (if head then e :: l else l ++ [e]) = f e + lsum f l.
Proof. destruct head; [done|]. rewrite lsum_app. unfold lsum at 2. simpl. lia. Qed.
Lemma add_nodup (head : bool) (e : nat) l : e ∉ l → NoDup l → NoDup (if head then e :: l else l ++ [e]).
Proof.
  intros He Hl. destruct head; [by constructor|]. apply NoDup_app. split_and!; [done| |apply NoDup_singleton].
  intros x Hx ->%list_elem_of_singleton. done.
Qed.

Lemma queue_insert_elem (q : Z → list nat) p l p' x :
  x ∈ (<[p := l]> q) p' ↔ (p' = p ∧ x ∈ l) ∨ (p' ≠ p ∧ x ∈ q p').
Proof.
  destruct (decide (p' = p)) as [->|Hne]; [rewrite fn_lookup_insert|rewrite fn_lookup_insert_ne by done]; naive_solver.
Qed.

Lemma enqueue_rq_ok head e s :
  (∀ r, rq_ok s r) → owner_off s (se_rt_rq (ent s e)) → run_list (ent s e) = None → my_q (ent s e) ≠ Some (se_rt_rq (ent s e)) →
  0 ≤ rt_se_prio s e < MAX_RT_PRIO → enqueues s e = true → ∀ r, rq_ok (__enqueue_rt_entity head e s) r.
Proof.
  intros Hok Ho Hoff Hne Hp Hen r'. pose proof (enqueue_effect head e s Hen Hne Hp) as H. cbv zeta in H.
  set (r := se_rt_rq (ent s e)) in *. set (p := rt_se_prio s e) in *. set (s' := __enqueue_rt_entity head e s) in *.
  destruct (decide (r' = r)) as [->|Hr]; [|by eapply entity_set_other].
  pose proof (Hok r) as Hr. pose proof Hr as [[H1l H1w] H2 H3 H4 H5 H6 H7 H8 H9].
  pose proof (entity_set_at _ _ _ _ _ _ H) as C. apply core_inv in C as (C1 & C2 & C3 & C4 & C5 & C6).
  set (q := queue (active (rtq s r))) in *. set (b := bits (active (rtq s r))) in *.
  assert (∀ i, 0 ≤ i → test_bit i (__set_bit p b) = bool_decide (i = p) || test_bit i b) as Ht.
  { intros i Hi. apply test_set_bit; [lia|lia|]. rewrite H1l. apply Z.div_lt_upper_bound; unfold MAX_RT_PRIO in *; lia. }
  assert (e ∉ q p) as Hnin by (intros [_ Hl]%H4; congruence).
  assert (∀ x p', x ∈ q p' → my_q (ent s x) ≠ Some r) as Hown by (intros; by eapply queued_not_owner).
  split; rewrite ?C1, ?C2, ?C3, ?C4; simpl.
  - split; [unfold __set_bit; by rewrite length_insert|apply set_bit_words; [lia|done]].
  - intros i Hi. rewrite Ht, H2 by lia. destruct (decide (i = p)) as [->|Hip].
    + rewrite fn_lookup_insert, (bool_decide_eq_true_2 (p = p)) by done. symmetry. apply bool_decide_eq_true_2.
      destruct head; [done|]. by destruct (q p).
    + rewrite fn_lookup_insert_ne, (bool_decide_eq_false_2 (i = p)) by done. done.
  - rewrite Ht, H3 by (unfold MAX_RT_PRIO; lia). by rewrite orb_true_r.
  - intros x p'. rewrite queue_insert_elem, add_elem. destruct (entity_set_static _ _ _ _ _ _ x H) as (_ & _ & ->).
    rewrite (es_ent _ _ _ _ _ _ H x). destruct (decide (x = e)) as [->|Hx]; simpl.
    + assert (∀ p0, e ∉ q p0) as Hno by (intros p0 [_ Hl]%H4; congruence). split.
      * intros [[-> _]|[_ Hq]]; [done|]. by apply Hno in Hq.
      * intros [_ [= ->]]. left. split; [done|by left].
    + rewrite <- H4. destruct (decide (p' = p)) as [->|]; tauto.
  - intros p'. destruct (decide (p' = p)) as [->|]; [rewrite fn_lookup_insert; by apply add_nodup|by rewrite fn_lookup_insert_ne].
  - intros x p' [[-> [->|Hx]%add_elem]|[_ Hx]]%queue_insert_elem.
    + rewrite (entity_set_prio _ _ _ _ _ _ e H Hne). done.
    + rewrite (entity_set_prio _ _ _ _ _ _ x H) by eauto. by apply H6.
    + rewrite (entity_set_prio _ _ _ _ _ _ x H) by eauto. by apply H6.
  - rewrite H7, qsum_insert, add_lsum by done. lia.
  - by apply first_set_min.
  - rewrite qsum_insert, add_lsum, (entity_set_boosted _ _ _ _ _ _ e H Hne), H9 by done.
    rewrite (qsum_ext (λ x, zb (rt_se_boosted s' x)) (λ x, zb (rt_se_boosted s x)) q);
      [lia|]. intros p' x _ Hx. rewrite (entity_set_boosted _ _ _ _ _ _ x H); [done|eauto].
Qed.

Lemma sched_first b :
  words_ok b → test_bit MAX_RT_PRIO b = true → first_set b 0 MAX_RT_PRIO (sched_find_first_bit b).
Proof.
  intros Hw Hd. unfold MAX_RT_PRIO in *. destruct (sched_find_first_first b Hw) as (Hr & Hn & Hb); [exists 100; split; [lia|done]|].
  assert (sched_find_first_bit b ≤ 100).
  { destruct (decide (sched_find_first_bit b ≤ 100)); [done|]. rewrite Hn in Hd by lia. done. }
  split_and!; [lia|lia|done|]. intros Hlt. apply Hb. lia.
Qed.

(** What the counters of a queue say about an entity in it. *)
Lemma qsum_elem f q e p :
  (∀ x, 0 ≤ f x) → (∀ p', NoDup (q p')) → e ∈ q p → 0 ≤ p < MAX_RT_PRIO → f e ≤ qsum f q.
Proof.
  intros Hf Hnd He Hp. pose proof (qsum_insert f q p (filter (λ x, x ≠ e) (q p)) Hp) as H.
  rewrite lsum_remove in H by done.
  assert (0 ≤ qsum f (<[p := filter (λ x, x ≠ e) (q p)]> q)); [|lia].
  unfold qsum. apply sumZ_nonneg, Forall_fmap, Forall_true. intros p'. by apply lsum_nonneg.
Qed.

Lemma one_left s r e p :
  rq_ok s r → e ∈ queue (active (rtq s r)) p →
  0 < rt_nr_running (rtq s r) ∧
  (rt_nr_running (rtq s r) = 1 → rt_nr_boosted (rtq s r) = zb (rt_se_boosted s e)).
Proof.
  intros [_ _ _ _ H5 H6 H7 _ H9] He. destruct (H6 e p He) as [_ Hp]. set (q := queue (active (rtq s r))) in *. split.
  - rewrite H7. pose proof (qsum_elem (λ _, 1) q e p ltac:(by intros; apply Z.le_0_1) H5 He Hp) as Hq1. cbv beta in Hq1. lia.
  - rewrite H7, H9. intros E. set (q' := <[p := filter (λ x, x ≠ e) (q p)]> q).
    pose proof (qsum_insert (λ _, 1) q p (filter (λ x, x ≠ e) (q p)) Hp) as Hr. rewrite lsum_remove in Hr by done. fold q' in Hr.
    assert (qsum (λ _, 1) q' = 0) as H0 by lia. rewrite qsum_one in H0.
    pose proof (qsum_insert (λ x, zb (rt_se_boosted s x)) q p (filter (λ x, x ≠ e) (q p)) Hp) as Hb.
    rewrite lsum_remove in Hb by done. fold q' in Hb.
    assert (qsum (λ x, zb (rt_se_boosted s x)) q' = 0); [|lia]. unfold qsum.
    assert (∀ l, Forall (λ p', 0 ≤ p' < MAX_RT_PRIO) l → sumZ ((λ p', lsum (λ x, zb (rt_se_boosted s x)) (q' p')) <$> l) = 0) as Hz.
    { induction 1 as [|p' l Hp' _ IH]; csimpl; [done|]. rewrite H0, IH by done. done. }
    apply Hz, Forall_forall. intros p'. apply elem_prios.
Qed.

(** The bitmap after entity [e] left queue [p]. *)
Definition cleared (p : Z) (l : list nat) (b : bitmap) : bitmap := match l with [] => __clear_bit p b | _ => b end.

Lemma cleared_ok p l b :
  length b = 4%nat → words_ok b → 0 ≤ p < MAX_RT_PRIO →
  length (cleared p l b) = 4%nat ∧ words_ok (cleared p l b) ∧
  ∀ i, 0 ≤ i → test_bit i (cleared p l b) = test_bit i b && negb (bool_decide (i = p ∧ l = [])).
Proof.
  intros Hl Hw Hp. unfold cleared. destruct l as [|x l].
  - split_and!; [unfold __clear_bit; by rewrite length_insert|apply clear_bit_words; [lia|done]|].
    intros i Hi. rewrite test_clear_bit; [|lia|lia|rewrite Hl; apply Z.div_lt_upper_bound; unfold MAX_RT_PRIO in *; lia].
    rewrite andb_comm. f_equal. f_equal. apply bool_decide_ext. naive_solver.
  - split_and!; [done|done|]. intros i Hi. rewrite bool_decide_eq_false_2 by naive_solver. by rewrite andb_true_r.
Qed.

Lemma cleared_bits (q : Z → list nat) b e p :
  length b = 4%nat → words_ok b → 0 ≤ p < MAX_RT_PRIO → e ∈ q p →
  (∀ i, 0 ≤ i < MAX_RT_PRIO → test_bit i b = bool_decide (q i ≠ [])) →
  let l := filter (λ x, x ≠ e) (q p) in
  ∀ i, 0 ≤ i < MAX_RT_PRIO → test_bit i (cleared p l b) = bool_decide ((<[p := l]> q) i ≠ []).
Proof.
  intros Hl Hw Hp He Hb l i Hi. destruct (cleared_ok p l b Hl Hw Hp) as (_ & _ & L3). rewrite L3, Hb by lia.
  destruct (decide (i = p)) as [->|Hip].
  - rewrite fn_lookup_insert, (bool_decide_eq_true_2 (q p ≠ [])) by (intros E; rewrite E in He; by apply not_elem_of_nil in He).
    destruct l; [by rewrite bool_decide_eq_true_2|]. rewrite (bool_decide_eq_false_2 (_ ∧ _)) by (by intros [_ ?]). done.
  - rewrite fn_lookup_insert_ne, (bool_decide_eq_false_2 (_ ∧ _)) by (done || by intros [? _]). by rewrite andb_true_r.
Qed.

Lemma dequeue_effect e p s :
  let r := se_rt_rq (ent s e) in let q := rtq s r in
  let l := filter (λ x, x ≠ e) (queue (active q) p) in let b := cleared p l (bits (active q)) in
  (∀ r, rq_ok s r) → run_list (ent s e) = Some p → my_q (ent s e) ≠ Some r →
  entity_set s (__dequeue_rt_entity e s) e None r
    (mk_array b (<[p := l]> (queue (active q))), rt_nr_running q - 1,
     if rt_nr_running q - 1 =? 0 then MAX_RT_PRIO else if p =? hp_curr q then sched_find_first_bit b else hp_curr q,
     rt_nr_boosted q - zb (rt_se_boosted s e), rt_throttled q, rt_cpu q).
Proof.
  intros r q l b Hok Hl Hne. pose proof (Hok r) as Hr. pose proof Hr as [[H1l H1w] H2 H3 H4 H5 H6 H7 H8 H9]. fold q in H1l, H1w, H2, H3, H4, H5, H6, H7, H8, H9.
  assert (e ∈ queue (active q) p) as Hin by (apply H4; done). destruct (H6 e p Hin) as [Hpr Hp].
  unfold __dequeue_rt_entity, rt_rq_of_se. fold r. pose proof (unlink_entity_set e p r s Hl) as U. cbv zeta in U. fold q in U. fold l in U.
  set (s1 := unlink_entity e r s) in *. rewrite (entity_set_prio _ _ _ _ _ _ e U Hne), Hpr.
  pose proof (entity_set_at _ _ _ _ _ _ U) as A. apply core_inv in A as (A1 & A2 & A3 & A4 & A5 & A6).
  rewrite A1. cbn [queue]. rewrite fn_lookup_insert. set (s2 := match l with [] => _ | _ => s1 end).
  assert (entity_set s s2 e None r (mk_array b (<[p := l]> (queue (active q))), rt_nr_running q, hp_curr q, rt_nr_boosted q, rt_throttled q, rt_cpu q)) as H12.
  { unfold s2, b, cleared. destruct l; [|exact U]. pose proof (mark_set false p r s1) as M. cbv zeta in M.
    rewrite A1, A2, A3, A4, A5, A6 in M. exact (entity_set_set _ _ _ _ _ _ _ _ U M). }
  pose proof (entity_set_at _ _ _ _ _ _ H12) as B. apply core_inv in B as (B1 & B2 & B3 & B4 & B5 & B6).
  destruct (cleared_ok p l (bits (active q)) H1l H1w Hp) as (L1 & L2 & L3). fold b in L1, L2, L3.
  destruct (sched_first b L2) as (F1 & _ & _).
  { rewrite L3 by (unfold MAX_RT_PRIO; lia). rewrite H3, bool_decide_eq_false_2 by (unfold MAX_RT_PRIO in *; lia). done. }
  destruct (entity_set_static _ _ _ _ _ _ e H12) as (Hmy & _ & _).
  assert (0 < rt_nr_running q ∧ (rt_nr_running q = 1 → rt_nr_boosted q = zb (rt_se_boosted s e))) as [Hrun Hlast] by (by eapply (one_left s r e p)).
  pose proof (dec_rt_tasks_set e r s2) as D. cbv zeta in D.
  rewrite Hmy, (entity_set_prio _ _ _ _ _ _ e H12 Hne), (entity_set_boosted _ _ _ _ _ _ e H12 Hne), B1, B2, B3, B4, B5, B6, Hpr in D.
  cbn [bits queue] in D. destruct H8 as (Hc & Hcn & Hcb).
  assert (hp_curr q ≤ p) as Hle.
  { destruct (decide (hp_curr q ≤ p)); [done|]. specialize (H2 p Hp). rewrite Hcn in H2 by lia. symmetry in H2.
    apply bool_decide_eq_false in H2. destruct H2. intros E. rewrite E in Hin. by apply not_elem_of_nil in Hin. }
  specialize (D Hne Hp Hrun Hle Hc F1 Hlast). pose proof (entity_set_set _ _ _ _ _ _ _ _ H12 D) as H13.
  destruct (rt_nr_running (rtq (dec_rt_tasks e r s2) r) =? 0); [|exact H13]. eapply entity_set_same; [exact H13|]. unfold list_del_leaf_rt_rq. auto with rt.
Qed.

Lemma remove_elem (e : nat) (l : list nat) x : x ∈ filter (λ y, y ≠ e) l ↔ x ≠ e ∧ x ∈ l.
Proof. by rewrite list_elem_of_filter. Qed.

(** The highest priority left. *)
Lemma dequeue_curr s r e p :
  let q := rtq s r in let l := filter (λ x, x ≠ e) (queue (active q) p) in let b := cleared p l (bits (active q)) in
  rq_ok s r → e ∈ queue (active q) p →
  first_set b 0 MAX_RT_PRIO
    (if rt_nr_running q - 1 =? 0 then MAX_RT_PRIO else if p =? hp_curr q then sched_find_first_bit b else hp_curr q).
Proof.
  intros q l b [[H1l H1w] H2 H3 H4 H5 H6 H7 H8 H9] He. fold q in H1l, H1w, H2, H3, H4, H5, H6, H7, H8, H9.
  destruct (H6 e p He) as [_ Hp]. destruct (cleared_ok p l (bits (active q)) H1l H1w Hp) as (L1 & L2 & L3). fold b in L1, L2, L3.
  assert (∀ i, 0 ≤ i < MAX_RT_PRIO → test_bit i b = bool_decide ((<[p := l]> (queue (active q))) i ≠ [])) as Hbits.
  { by apply (cleared_bits (queue (active q)) _ e p). }
  destruct (Z.eqb_spec (rt_nr_running q - 1) 0) as [E|E].
  - pose proof (qsum_insert (λ _, 1) (queue (active q)) p l Hp) as Hs. unfold l in Hs at 2. rewrite lsum_remove in Hs by done.
    assert (qsum (λ _, 1) (<[p := l]> (queue (active q))) = 0) as H0 by lia. rewrite qsum_one in H0.
    unfold MAX_RT_PRIO in *. split_and!; [lia|lia| |lia]. intros i Hi. rewrite Hbits, H0 by lia. done.
  - destruct (Z.eqb_spec p (hp_curr q)) as [E'|E'].
    + apply sched_first; [done|]. rewrite L3, H3, bool_decide_eq_false_2 by (unfold MAX_RT_PRIO in *; lia). done.
    + destruct H8 as (Hc & Hcn & Hcb). assert (hp_curr q < p) as Hlt.
      { destruct (decide (hp_curr q ≤ p)); [lia|]. specialize (H2 p Hp). rewrite Hcn in H2 by lia. symmetry in H2.
        apply bool_decide_eq_false in H2. destruct H2. intros E0. rewrite E0 in He. by apply not_elem_of_nil in He. }
      split_and!; [lia|lia| |].
      * intros i Hi. rewrite L3, Hcn by lia. done.
      * intros _. rewrite L3, Hcb, bool_decide_eq_false_2 by lia. done.
Qed.

Lemma dequeue_rq_ok e p s :
  (∀ r, rq_ok s r) → owner_off s (se_rt_rq (ent s e)) → run_list (ent s e) = Some p →
  my_q (ent s e) ≠ Some (se_rt_rq (ent s e)) → ∀ r, rq_ok (__dequeue_rt_entity e s) r.
Proof.
  intros Hok Ho Hl Hne r'. pose proof (dequeue_effect e p s Hok Hl Hne) as H. cbv zeta in H.
  set (r := se_rt_rq (ent s e)) in *. set (s' := __dequeue_rt_entity e s) in *.
  destruct (decide (r' = r)) as [->|Hr]; [|by eapply entity_set_other].
  pose proof (Hok r) as Hr. pose proof Hr as [[H1l H1w] H2 H3 H4 H5 H6 H7 H8 H9].
  pose proof (entity_set_at _ _ _ _ _ _ H) as C. apply core_inv in C as (C1 & C2 & C3 & C4 & C5 & C6).
  set (q := queue (active (rtq s r))) in *. set (b := bits (active (rtq s r))) in *.
  assert (e ∈ q p) as Hin by (apply H4; done). destruct (H6 e p Hin) as [Hpr Hp].
  set (l := filter (λ x, x ≠ e) (q p)) in *. destruct (cleared_ok p l b H1l H1w Hp) as (L1 & L2 & L3).
  assert (∀ x p', x ∈ q p' → my_q (ent s x) ≠ Some r) as Hown by (intros; by eapply queued_not_owner).
  split; rewrite ?C1, ?C2, ?C3, ?C4; cbn [bits queue].
  - done.
  - by apply (cleared_bits q b e p).
  - rewrite L3, H3, bool_decide_eq_false_2 by (unfold MAX_RT_PRIO in *; lia). done.
  - intros x p'. rewrite queue_insert_elem. unfold l. rewrite remove_elem. destruct (entity_set_static _ _ _ _ _ _ x H) as (_ & _ & ->).
    rewrite (es_ent _ _ _ _ _ _ H x). destruct (decide (x = e)) as [->|Hx]; simpl.
    + split; [|by intros [_ ?]]. intros [[_ [? _]]|[Hne' Hq]]; [done|]. apply H4 in Hq as [_ Hq]. congruence.
    + rewrite <- H4. destruct (decide (p' = p)) as [->|]; tauto.
  - intros p'. destruct (decide (p' = p)) as [->|]; [rewrite fn_lookup_insert; by apply NoDup_filter|by rewrite fn_lookup_insert_ne].
  - assert (∀ x p', x ∈ q p' → rt_se_prio s' x = p' ∧ 0 ≤ p' < MAX_RT_PRIO) as Hall.
    { intros x p' Hx. rewrite (entity_set_prio _ _ _ _ _ _ x H) by eauto. by apply H6. }
    intros x p' [[-> [_ Hx]%remove_elem]|[_ Hx]]%queue_insert_elem; by apply Hall.
  - rewrite H7, qsum_insert by done. unfold l. rewrite lsum_remove by done. lia.
  - by apply (dequeue_curr s r e p).
  - rewrite qsum_insert by done. unfold l. rewrite lsum_remove, H9 by done.
    rewrite (qsum_ext (λ x, zb (rt_se_boosted s' x)) (λ x, zb (rt_se_boosted s x)) q).
    + rewrite (entity_set_boosted _ _ _ _ _ _ e H Hne). lia.
    + intros p' x _ Hx. rewrite (entity_set_boosted _ _ _ _ _ _ x H); [done|eauto].
Qed.
