(* ===== verification/RtWalk.v ===== *)
(** * The walks of the real-time class over an entity and its parents

    [dequeue_rt_stack], [enqueue_rt_entity] and [dequeue_rt_entity] keep the
    invariant of the run queues; the queues along the way and nothing else
    change. *)

From stdpp Require Import functions.
From S2P Require Import Prelude Bitmap CpuPri Plist RtRq RtInv.

(** What the walks leave alone. *)
Record static (s s' : sys) : Prop := {
  st_parent : ∀ x, parent (ent s' x) = parent (ent s x);
  st_my_q : ∀ x, my_q (ent s' x) = my_q (ent s x);
  st_rt_rq : ∀ x, se_rt_rq (ent s' x) = se_rt_rq (ent s x);
  st_task : task s' = task s;
  st_levels : levels s' = levels s;
  st_bugs : bugs s' = bugs s;
  st_root : ∀ c, rt (cpu_rq s' c) = rt (cpu_rq s c) ∧ online (cpu_rq s' c) = online (cpu_rq s c);
  st_throttled : ∀ r, rt_throttled (rtq s' r) = rt_throttled (rtq s r);
  st_cpu : ∀ r, rt_cpu (rtq s' r) = rt_cpu (rtq s r)
}.

#[global] Instance static_preorder : PreOrder static.
Proof.
  split.
  - intros s. by split.
  - intros s t u [] []. split; try (intros; congruence); try congruence. intros c. specialize (st_root0 c). specialize (st_root1 c). intuition congruence.
Qed.

Lemma entity_set_keeps s s' e l r c :
  entity_set s s' e l r c → c.1.2 = rt_throttled (rtq s r) → c.2 = rt_cpu (rtq s r) → static s s'.
Proof.
  intros H Ht Hc. destruct c as [[[[[a n] k] bo] th] cpu]. simpl in *.
  assert (∀ r', rt_throttled (rtq s' r') = rt_throttled (rtq s r') ∧ rt_cpu (rtq s' r') = rt_cpu (rtq s r')) as Hr.
  { intros r'. pose proof (es_rt _ _ _ _ _ _ H r') as E. case_decide as Ed.
    - subst r'. apply core_inv in E as (_ & _ & _ & _ & -> & ->). done.
    - apply core_inv in E as (_ & _ & _ & _ & -> & ->). done. }
  split; try apply H; try (intros x; by destruct (entity_set_static _ _ _ _ _ _ x H) as (? & ? & ?)); intros r'; apply Hr.
Qed.

(** ** Paths *)

Notation path := sched_rt_entities.

Lemma path_static s s' fuel oe : static s s' → path fuel s' oe = path fuel s oe.
Proof.
  intros H. revert oe. induction fuel as [|fuel IH]; intros [e|]; simpl; try done. by rewrite IH, (st_parent _ _ H).
Qed.
Lemma complete_static s s' fuel oe : static s s' → complete s fuel oe → complete s' fuel oe.
Proof.
  intros H. revert oe. induction fuel as [|fuel IH]; intros [e|]; simpl; try done. rewrite (st_parent _ _ H). apply IH.
Qed.
Lemma tree_static s s' : static s s' → tree s → tree s'.
Proof.
  intros H [Hp Hc]. split.
  - intros e o. rewrite (st_parent _ _ H), (st_my_q _ _ H), (st_rt_rq _ _ H). apply Hp.
  - intros e. rewrite (st_levels _ _ H). by eapply complete_static.
Qed.

Lemma complete_more s fuel fuel' oe : complete s fuel oe → (fuel ≤ fuel')%nat → complete s fuel' oe.
Proof.
  revert fuel' oe. induction fuel as [|fuel IH]; intros fuel' [e|]; simpl; try done.
  - intros _ _. by destruct fuel'.
  - intros Hc Hl. destruct fuel' as [|fuel']; [lia|]. simpl. apply IH; [done|lia].
  - intros _ _. by destruct fuel'.
Qed.

(** The least fuel that suffices. *)
Lemma path_length s fuel oe : complete s fuel oe → complete s (length (path fuel s oe)) oe.
Proof.
  revert oe. induction fuel as [|fuel IH]; intros [e|]; simpl; try done. intros Hc. by apply IH.
Qed.
Lemma complete_length s fuel k oe : complete s fuel oe → complete s k oe → (length (path fuel s oe) ≤ k)%nat.
Proof.
  revert k oe. induction fuel as [|fuel IH]; intros k [e|]; simpl; try done; try lia.
  intros Hc Hk. destruct k as [|k]; [done|]. simpl in Hk. specialize (IH k _ Hc Hk). lia.
Qed.

(** The path of a member is the end of the path. *)
Lemma path_member s fuel oe x :
  complete s fuel oe → x ∈ path fuel s oe →
  ∃ k l, path fuel s oe = l ++ path k s (Some x) ∧ complete s k (Some x) ∧ (k ≤ fuel)%nat.
Proof.
  revert oe. induction fuel as [|fuel IH]; intros [e|] Hc; simpl; try (by intros ?%not_elem_of_nil).
  intros [->|Hx]%elem_of_cons.
  - exists (S fuel), []. split_and!; [done|done|lia].
  - destruct (IH _ Hc Hx) as (k & l & E & Hk & Hle). exists k, (e :: l). rewrite E. split_and!; [done|done|lia].
Qed.

Lemma path_nodup s fuel oe : complete s fuel oe → NoDup (path fuel s oe).
Proof.
  revert oe. induction fuel as [|fuel IH]; intros [e|] Hc; simpl; try by constructor.
  simpl in Hc. constructor; [|by apply IH]. intros Hin. destruct (path_member s fuel _ e Hc Hin) as (k & l & E & Hk & Hle).
  pose proof (path_length _ _ _ Hc) as Hlen.
  assert (complete s (S (length (path fuel s (parent (ent s e))))) (Some e)) as H1 by done.
  pose proof (complete_length s k (length (path k s (Some e))) (Some e) Hk (path_length _ _ _ Hk)).
  (* the path of [e] is one longer than the path of its parent, and is part of it *)
  assert (length (path k s (Some e)) = S (length (path fuel s (parent (ent s e))))) as Heq.
  { destruct k as [|k]; [done|]. simpl in Hk |- *. f_equal. apply Nat.le_antisymm.
    - apply complete_length; [done|]. by apply path_length.
    - apply complete_length; [done|]. by apply path_length. }
  rewrite E, length_app in Heq. lia.
Qed.

Lemma path_parent s fuel oe x o :
  complete s fuel oe → x ∈ path fuel s oe → parent (ent s x) = Some o → o ∈ path fuel s oe.
Proof.
  intros Hc Hx Ho. destruct (path_member _ _ _ _ Hc Hx) as (k & l & -> & Hk & _). apply elem_of_app. right.
  destruct k as [|k]; [done|]. simpl in Hk |- *. rewrite Ho in Hk |- *. destruct k as [|k]; [done|]. simpl. right. left.
Qed.

Section Tree.
Context (s : sys) (Ht : tree s).

Lemma no_self e : my_q (ent s e) ≠ Some (se_rt_rq (ent s e)).
Proof.
  intros E. apply (t_parent _ Ht) in E. pose proof (t_complete _ Ht e) as Hc. revert Hc.
  generalize (levels s). intros n. induction n as [|n IH]; simpl; [done|]. by rewrite E.
Qed.

Lemma path_unique_rq fuel oe x y :
  complete s fuel oe → x ∈ path fuel s oe → y ∈ path fuel s oe → se_rt_rq (ent s x) = se_rt_rq (ent s y) → x = y.
Proof.
  intros Hc Hx Hy E.
  assert (parent (ent s x) = parent (ent s y)) as Hp.
  { destruct (parent (ent s x)) as [o|] eqn:Ex.
    - symmetry. apply (t_parent _ Ht). rewrite <- E. by apply (t_parent _ Ht).
    - destruct (parent (ent s y)) as [o|] eqn:Ey; [|done]. apply (t_parent _ Ht) in Ey. rewrite <- E in Ey.
      apply (t_parent _ Ht) in Ey. congruence. }
  revert oe Hc Hx Hy. induction fuel as [|fuel IH]; intros [e|] Hc; simpl; try (by intros ?%not_elem_of_nil).
  simpl in Hc. pose proof (path_nodup s (S fuel) (Some e) Hc) as Hnd. simpl in Hnd. inversion Hnd as [|? ? Hnin _]; subst.
  assert (∀ z, z ∈ path fuel s (parent (ent s e)) → parent (ent s z) = parent (ent s e) → False) as Hup.
  { intros z Hz Hpz. destruct (parent (ent s e)) as [o|] eqn:Eo; [|destruct fuel; by apply not_elem_of_nil in Hz].
    destruct (path_member s fuel (Some o) z Hc Hz) as (k & l & El & Hk & _).
    pose proof (path_nodup _ _ _ Hc) as Hnd'. rewrite El in Hnd'.
    destruct k as [|k]; [done|]. simpl in Hk, Hnd', El. rewrite Hpz in Hk, Hnd', El.
    destruct k as [|k]; [done|]. simpl in Hnd', El. destruct fuel as [|fuel]; [done|]. simpl in El.
    destruct l as [|a l]; simpl in El; injection El as E1 E2.
    - subst z. simpl in Hnd'. apply NoDup_cons in Hnd' as [Hn _]. destruct Hn. left.
    - subst a. simpl in Hnd'. apply NoDup_cons in Hnd' as [Hn _]. destruct Hn. apply elem_of_app. right. right. left. }
  intros [->|Hx]%elem_of_cons [->|Hy]%elem_of_cons; [done| | |].
  - by destruct (Hup y Hy).
  - by destruct (Hup x Hx).
  - by apply (IH (parent (ent s e))).
Qed.
End Tree.

(** ** Taking off *)

Lemma on_rt_rq_true s e : on_rt_rq s e = true ↔ ∃ p, run_list (ent s e) = Some p.
Proof. unfold on_rt_rq. destruct (run_list (ent s e)); naive_solver. Qed.
Lemma on_rt_rq_false s e : on_rt_rq s e = false ↔ run_list (ent s e) = None.
Proof. unfold on_rt_rq. destruct (run_list (ent s e)); naive_solver. Qed.

(** [s'] is [s] with the entities of [l] off their queues. *)
Record taken_off (l : list nat) (s s' : sys) : Prop := {
  to_rq : ∀ r, rq_ok s' r;
  to_static : static s s';
  to_list : ∀ x, run_list (ent s' x) = if decide (x ∈ l) then None else run_list (ent s x);
  to_queue : ∀ r p, queue (active (rtq s' r)) p = filter (λ x, x ∉ l) (queue (active (rtq s r)) p);
  to_other : ∀ r, (∀ x, x ∈ l → se_rt_rq (ent s x) ≠ r) → core (rtq s' r) = core (rtq s r)
}.

Definition take_off (s : sys) (e : nat) : sys := if on_rt_rq s e then __dequeue_rt_entity e s else s.

Lemma take_off_ok s e :
  tree s → (∀ r, rq_ok s r) → owner_off s (se_rt_rq (ent s e)) → taken_off [e] s (take_off s e).
Proof.
  intros Ht Hok Ho. pose proof (no_self s Ht e) as Hne. unfold take_off. destruct (on_rt_rq s e) eqn:Hon.
  - apply on_rt_rq_true in Hon as [p Hp]. pose proof (dequeue_effect e p s Hok Hp Hne) as H. cbv zeta in H.
    split.
    + by eapply dequeue_rq_ok.
    + by eapply entity_set_keeps.
    + intros x. rewrite (es_ent _ _ _ _ _ _ H). destruct (decide (x = e)) as [->|Hx].
      * by rewrite decide_True by (apply list_elem_of_singleton; done).
      * by rewrite decide_False by (intros ?%list_elem_of_singleton; done).
    + intros r p'. pose proof (es_rt _ _ _ _ _ _ H r) as Hc.
      assert (∀ l : list nat, filter (λ x, x ∉ [e]) l = filter (λ x, x ≠ e) l) as Hf.
      { intros l. apply list_filter_iff. intros x. rewrite list_elem_of_singleton. done. }
      rewrite Hf. case_decide as Er.
      * apply core_inv in Hc as (-> & _). cbn [queue]. subst r. destruct (decide (p' = p)) as [->|Hpp].
        { by rewrite fn_lookup_insert. }
        rewrite fn_lookup_insert_ne by done. symmetry. apply filter_all. apply Forall_forall. intros x Hx ->.
        apply (q_linked _ _ (Hok _)) in Hx as [_ Hx]. congruence.
      * apply core_inv in Hc as (-> & _). symmetry. apply filter_all. apply Forall_forall. intros x Hx ->.
        apply (q_linked _ _ (Hok _)) in Hx as [Hx _]. done.
    + intros r Hr. pose proof (es_rt _ _ _ _ _ _ H r) as Hc. rewrite decide_False in Hc; [done|].
      intros ->. apply (Hr e); [|done]. by apply list_elem_of_singleton.
  - apply on_rt_rq_false in Hon. split; [done|reflexivity| | |done].
    + intros x. case_decide as Hx; [|done]. apply list_elem_of_singleton in Hx as ->. done.
    + intros r p. symmetry. apply filter_all, Forall_forall. intros x Hx ->%list_elem_of_singleton.
      apply (q_linked _ _ (Hok r)) in Hx as [_ Hx]. congruence.
Qed.

Lemma taken_off_trans l k s s' s'' : taken_off l s s' → taken_off k s' s'' → taken_off (l ++ k) s s''.
Proof.
  intros H H'. split.
  - apply H'.
  - etrans; [apply H|apply H'].
  - intros x. rewrite (to_list _ _ _ H'), (to_list _ _ _ H). destruct (decide (x ∈ k)) as [Hk|Hk].
    + by rewrite decide_True by (apply elem_of_app; by right).
    + destruct (decide (x ∈ l)) as [Hl|Hl].
      * by rewrite decide_True by (apply elem_of_app; by left).
      * by rewrite decide_False by (intros [?|?]%elem_of_app; done).
  - intros r p. rewrite (to_queue _ _ _ H'), (to_queue _ _ _ H), list_filter_filter. apply list_filter_iff.
    intros x. rewrite elem_of_app. naive_solver.
  - intros r Hr. rewrite (to_other _ _ _ H'), (to_other _ _ _ H).
    + done.
    + intros x Hx. apply Hr. apply elem_of_app. by left.
    + intros x Hx. rewrite (st_rt_rq _ _ (to_static _ _ _ H)). apply Hr. apply elem_of_app. by right.
Qed.

(** From the top down, the owner of a queue is off before its entities are. *)
Lemma dequeue_stack_path fuel : ∀ oe s,
  tree s → (∀ r, rq_ok s r) → complete s fuel oe →
  taken_off (reverse (path fuel s oe)) s (foldl take_off s (reverse (path fuel s oe))).
Proof.
  induction fuel as [|fuel IH]; intros [e|] s Ht Hok Hc; simpl in Hc |- *; try done.
  - split; [done|reflexivity|intros x; by rewrite decide_False by (by intros ?%not_elem_of_nil)| |done].
    intros r p. symmetry. apply filter_all, Forall_forall. by intros x _ ?%not_elem_of_nil.
  - rewrite reverse_cons, foldl_app. pose proof (IH (parent (ent s e)) s Ht Hok Hc) as H1.
    set (s1 := foldl take_off s _) in *. eapply taken_off_trans; [exact H1|]. simpl.
    pose proof (to_static _ _ _ H1) as Hst. apply take_off_ok; [by eapply tree_static|apply H1|].
    intros o Ho. rewrite (to_list _ _ _ H1). rewrite (st_my_q _ _ Hst), (st_rt_rq _ _ Hst) in Ho.
    apply (t_parent _ Ht) in Ho. rewrite Ho in Hc |- *. destruct fuel as [|fuel]; [done|].
    rewrite decide_True; [done|]. rewrite elem_of_reverse. simpl. left.
  - split; [done|reflexivity|intros x; by rewrite decide_False by (by intros ?%not_elem_of_nil)| |done].
    intros r p. symmetry. apply filter_all, Forall_forall. by intros x _ ?%not_elem_of_nil.
Qed.

Lemma dequeue_rt_stack_ok s e :
  tree s → (∀ r, rq_ok s r) → let l := for_each_sched_rt_entity s e in taken_off l s (dequeue_rt_stack e s).
Proof.
  intros Ht Hok l. pose proof (dequeue_stack_path (levels s) (Some e) s Ht Hok (t_complete _ Ht e)) as H.
  change (taken_off (reverse l) s (dequeue_rt_stack e s)) in H. split; try apply H.
  - intros x. rewrite (to_list _ _ _ H).
    destruct (decide (x ∈ reverse l)) as [Hr|Hr], (decide (x ∈ l)); rewrite elem_of_reverse in Hr; done.
  - intros r p. rewrite (to_queue _ _ _ H). apply list_filter_iff. intros x. by rewrite elem_of_reverse.
  - intros r Hr. apply (to_other _ _ _ H). intros x. rewrite elem_of_reverse. apply Hr.
Qed.

(** ** Putting on *)

Definition added (head : bool) (e : nat) (l : list nat) : list nat := if head then e :: l else l ++ [e].

(** [s'] is [s] with the entities of [l], which were off, back on their queues
    where the guard allows it. *)
Record put_on (head : bool) (l : list nat) (s s' : sys) : Prop := {
  po_rq : ∀ r, rq_ok s' r;
  po_static : static s s';
  po_list : ∀ x, x ∉ l → run_list (ent s' x) = run_list (ent s x);
  po_on : ∀ x, x ∈ l → on_rt_rq s' x = match my_q (ent s x) with Some g => group_ready s' g | None => true end;
  po_queue : ∀ x, x ∈ l → ∀ p, queue (active (rtq s' (se_rt_rq (ent s x)))) p =
    if on_rt_rq s' x && bool_decide (p = rt_se_prio s' x)
    then added head x (queue (active (rtq s (se_rt_rq (ent s x)))) p)
    else queue (active (rtq s (se_rt_rq (ent s x)))) p;
  po_other : ∀ r, (∀ x, x ∈ l → se_rt_rq (ent s x) ≠ r) → core (rtq s' r) = core (rtq s r)
}.

(** A group that is to run has a highest priority. *)
Lemma ready_prio s g : rq_ok s g → group_ready s g = true → 0 ≤ hp_curr (rtq s g) < MAX_RT_PRIO.
Proof.
  intros Hok Hr. apply andb_true_iff in Hr as [Hr _]. apply negb_true_iff, Z.eqb_neq in Hr.
  destruct (q_curr _ _ Hok) as (Hc & Hn & _). split; [lia|].
  destruct (decide (hp_curr (rtq s g) = MAX_RT_PRIO)) as [E|]; [|lia]. destruct Hr.
  rewrite (q_running _ _ Hok), qsum_one. intros p Hp. specialize (Hn p ltac:(lia)). rewrite (q_bits _ _ Hok) in Hn by done.
  apply bool_decide_eq_false in Hn. by apply dec_stable.
Qed.

Lemma core_prio s s' x g : my_q (ent s x) = Some g → my_q (ent s' x) = Some g → core (rtq s' g) = core (rtq s g) → rt_se_prio s' x = rt_se_prio s x.
Proof. intros E E' Hc. unfold rt_se_prio, group_rt_rq. rewrite E, E'. by injection Hc. Qed.
Lemma core_ready s s' g : core (rtq s' g) = core (rtq s g) → group_ready s' g = group_ready s g.
Proof. intros Hc. apply core_inv in Hc as (_ & H2 & _ & H4 & H5 & _). unfold group_ready, rt_rq_throttled. by rewrite H2, H4, H5. Qed.

Lemma put_one head s e :
  tree s → (∀ r, rq_ok s r) → owner_off s (se_rt_rq (ent s e)) → run_list (ent s e) = None →
  (my_q (ent s e) = None → 0 ≤ prio (task s e) < MAX_RT_PRIO) →
  put_on head [e] s (__enqueue_rt_entity head e s).
Proof.
  intros Ht Hok Ho Hoff Htask. pose proof (no_self s Ht e) as Hne. destruct (enqueues s e) eqn:Hen.
  - assert (0 ≤ rt_se_prio s e < MAX_RT_PRIO) as Hp.
    { unfold rt_se_prio, group_rt_rq, enqueues in *. destruct (my_q (ent s e)) as [g|]; [by apply ready_prio|by apply Htask]. }
    pose proof (enqueue_effect head e s Hen Hne Hp) as H. cbv zeta in H. set (s' := __enqueue_rt_entity head e s) in *.
    assert (∀ g, my_q (ent s e) = Some g → core (rtq s' g) = core (rtq s g)) as Hg.
    { intros g Hg. rewrite (es_rt _ _ _ _ _ _ H), decide_False; [done|congruence]. }
    assert (on_rt_rq s' e = true) as Hon by (unfold on_rt_rq; rewrite (es_ent _ _ _ _ _ _ H); by rewrite decide_True).
    split.
    + by apply enqueue_rq_ok.
    + by eapply entity_set_keeps.
    + intros x Hx. rewrite (es_ent _ _ _ _ _ _ H), decide_False; [done|]. intros ->. apply Hx. by apply list_elem_of_singleton.
    + intros x ->%list_elem_of_singleton. rewrite Hon. unfold enqueues in Hen. destruct (my_q (ent s e)) as [g|] eqn:Em; [|done].
      by rewrite (core_ready s s' g (Hg g eq_refl)).
    + intros x ->%list_elem_of_singleton p. rewrite Hon, (entity_set_prio _ _ _ _ _ _ e H Hne). simpl.
      pose proof (entity_set_at _ _ _ _ _ _ H) as Hc. apply core_inv in Hc as (-> & _). cbn [queue].
      case_bool_decide as Hpp; [subst p; by rewrite fn_lookup_insert|by rewrite fn_lookup_insert_ne].
    + intros r Hr. rewrite (es_rt _ _ _ _ _ _ H), decide_False; [done|]. intros ->. apply (Hr e); [|done]. by apply list_elem_of_singleton.
  - assert (__enqueue_rt_entity head e s = s) as ->.
    { unfold __enqueue_rt_entity, enqueues, group_ready, group_rt_rq in *. destruct (my_q (ent s e)) as [g|]; [|done].
      by destruct (rt_rq_throttled s g), (rt_nr_running (rtq s g) =? 0). }
    unfold enqueues in Hen. destruct (my_q (ent s e)) as [g|] eqn:Em; [|done].
    split; [done|reflexivity|done| | |done].
    + intros x ->%list_elem_of_singleton. rewrite Em, Hen. by apply on_rt_rq_false.
    + intros x ->%list_elem_of_singleton p. by rewrite (proj2 (on_rt_rq_false s e) Hoff).
Qed.

(** Nothing above [e] on the path is queued on the queue [e] owns. *)
Lemma above_not_owned s fuel e x g :
  tree s → complete s (S fuel) (Some e) → x ∈ path fuel s (parent (ent s e)) → my_q (ent s e) = Some g → se_rt_rq (ent s x) ≠ g.
Proof.
  intros Ht Hc Hx Hg E. subst g. apply (t_parent _ Ht) in Hg. pose proof (path_nodup s (S fuel) (Some e) Hc) as Hnd.
  simpl in Hc, Hnd. apply NoDup_cons in Hnd as [Hn _]. apply Hn. by eapply path_parent.
Qed.

Lemma put_on_cons head s s1 s' fuel e :
  tree s → complete s (S fuel) (Some e) → put_on head [e] s s1 → put_on head (path fuel s (parent (ent s e))) s1 s' →
  put_on head (e :: path fuel s (parent (ent s e))) s s'.
Proof.
  intros Ht Hc H1 H2. set (l := path fuel s (parent (ent s e))) in *. pose proof (po_static _ _ _ _ H1) as St1.
  pose proof (po_static _ _ _ _ H2) as St2. pose proof (path_nodup s (S fuel) (Some e) Hc) as Hnd. simpl in Hnd. fold l in Hnd.
  apply NoDup_cons in Hnd as [Hnin _].
  assert (∀ x, x ∈ l → se_rt_rq (ent s x) ≠ se_rt_rq (ent s e)) as Hrq.
  { intros x Hx E. apply Hnin. rewrite <- (path_unique_rq s Ht (S fuel) (Some e) x e Hc); [done| |by left|done]. by right. }
  assert (core (rtq s' (se_rt_rq (ent s e))) = core (rtq s1 (se_rt_rq (ent s e)))) as Hr.
  { apply (po_other _ _ _ _ H2). intros x Hx. rewrite (st_rt_rq _ _ St1). by apply Hrq. }
  assert (∀ g, my_q (ent s e) = Some g → core (rtq s' g) = core (rtq s1 g)) as Hg.
  { intros g Hg. apply (po_other _ _ _ _ H2). intros x Hx. rewrite (st_rt_rq _ _ St1). by eapply above_not_owned. }
  assert (run_list (ent s' e) = run_list (ent s1 e)) as He by (by apply (po_list _ _ _ _ H2)).
  assert (on_rt_rq s' e = on_rt_rq s1 e) as Hon by (unfold on_rt_rq; by rewrite He).
  assert (rt_se_prio s' e = rt_se_prio s1 e) as Hpr.
  { unfold rt_se_prio, group_rt_rq. rewrite (st_my_q _ _ St2), (st_my_q _ _ St1), (st_task _ _ St2).
    destruct (my_q (ent s e)) as [g|] eqn:Em; [|done]. specialize (Hg g eq_refl). by injection Hg. }
  split.
  - apply H2.
  - by etrans.
  - intros x [Hx Hx']%not_elem_of_cons. rewrite (po_list _ _ _ _ H2) by done. apply (po_list _ _ _ _ H1).
    by intros ?%list_elem_of_singleton.
  - intros x [->|Hx]%elem_of_cons.
    + rewrite Hon, (po_on _ _ _ _ H1) by (by apply list_elem_of_singleton). destruct (my_q (ent s e)) as [g|] eqn:Em; [|done].
      symmetry. apply core_ready. by apply Hg.
    + rewrite (po_on _ _ _ _ H2) by done. by rewrite (st_my_q _ _ St1).
  - intros x [->|Hx]%elem_of_cons p.
    + apply core_inv in Hr as (-> & _). rewrite (po_queue _ _ _ _ H1) by (by apply list_elem_of_singleton). by rewrite Hon, Hpr.
    + pose proof (po_queue _ _ _ _ H2 x Hx p) as Hq. rewrite (st_rt_rq _ _ St1) in Hq. rewrite Hq.
      assert (core (rtq s1 (se_rt_rq (ent s x))) = core (rtq s (se_rt_rq (ent s x)))) as Hc1.
      { apply (po_other _ _ _ _ H1). intros y ->%list_elem_of_singleton E. by apply (Hrq x). }
      apply core_inv in Hc1 as (-> & _). done.
  - intros r Hall. rewrite (po_other _ _ _ _ H2), (po_other _ _ _ _ H1).
    + done.
    + intros x ->%list_elem_of_singleton. apply Hall. left.
    + intros x Hx. rewrite (st_rt_rq _ _ St1). apply Hall. by right.
Qed.

Lemma put_walk head fuel : ∀ oe s,
  tree s → (∀ r, rq_ok s r) → complete s fuel oe → (∀ x, x ∈ path fuel s oe → run_list (ent s x) = None) →
  (∀ x, x ∈ path fuel s oe → my_q (ent s x) = None → 0 ≤ prio (task s x) < MAX_RT_PRIO) →
  put_on head (path fuel s oe) s (foldl (λ s e, __enqueue_rt_entity head e s) s (path fuel s oe)).
Proof.
  assert (∀ s, (∀ r, rq_ok s r) → put_on head [] s s) as Hnil.
  { intros s Hok. split; try done; by intros x ?%not_elem_of_nil. }
  induction fuel as [|fuel IH]; intros [e|] s Ht Hok Hc Hoff Htask; simpl in Hoff, Htask |- *; try by apply Hnil.
  assert (put_on head [e] s (__enqueue_rt_entity head e s)) as H1.
  { apply put_one; [done|done| |apply Hoff; left|apply Htask; left]. intros o Ho. apply (t_parent _ Ht) in Ho.
    apply Hoff. right. simpl in Hc. rewrite Ho in Hc |- *. destruct fuel; [done|]. simpl. left. }
  pose proof (po_static _ _ _ _ H1) as St1. set (s1 := __enqueue_rt_entity head e s) in *.
  pose proof (path_nodup s (S fuel) (Some e) Hc) as Hnd. simpl in Hnd. apply NoDup_cons in Hnd as [Hnin _].
  eapply put_on_cons; [done|done|exact H1|]. rewrite <- (path_static s s1) by done. apply IH.
  - by eapply tree_static.
  - apply H1.
  - eapply complete_static; [exact St1|]. exact Hc.
  - intros x Hx. rewrite (path_static s s1) in Hx by done. rewrite (po_list _ _ _ _ H1); [apply Hoff; by right|].
    intros ->%list_elem_of_singleton. done.
  - intros x Hx. rewrite (path_static s s1) in Hx by done. rewrite (st_my_q _ _ St1), (st_task _ _ St1). apply Htask. by right.
Qed.

(** ** The whole operations *)

Lemma path_tail_group s fuel e x :
  tree s → complete s fuel (parent (ent s e)) → x ∈ path fuel s (parent (ent s e)) → ∃ g, my_q (ent s x) = Some g.
Proof.
  intros Ht. revert e. induction fuel as [|fuel IH]; intros e Hc Hx; [by destruct (parent (ent s e)); apply not_elem_of_nil in Hx|].
  destruct (parent (ent s e)) as [o|] eqn:Eo; [|by apply not_elem_of_nil in Hx]. simpl in Hc, Hx.
  apply elem_of_cons in Hx as [->|Hx]; [|by eapply IH]. apply (t_parent _ Ht) in Eo. eauto.
Qed.

(** The invariant, but for entity [e], whose group may just have been throttled
    or released. *)
Record rt_inv_but (e : nat) (s : sys) : Prop := {
  b_tree : tree s;
  b_rq : ∀ r, rq_ok s r;
  b_group : ∀ x, x ≠ e → group_ok s x
}.

Lemma rt_inv_but_of e s : rt_inv s → rt_inv_but e s.
Proof. intros [H1 H2 H3]. by split. Qed.

(** The queues the walk does not pass are as before, so the other groups are
    still all right. *)
Lemma groups_ok s s' l fuel e0 :
  rt_inv_but e0 s → complete s fuel (Some e0) → l = path fuel s (Some e0) → e0 ∈ l → static s s' →
  (∀ x, x ∉ l → run_list (ent s' x) = run_list (ent s x)) →
  (∀ r, (∀ x, x ∈ l → se_rt_rq (ent s x) ≠ r) → core (rtq s' r) = core (rtq s r)) →
  (∀ x g, x ∈ l → my_q (ent s x) = Some g → on_rt_rq s' x = group_ready s' g) →
  ∀ e, group_ok s' e.
Proof.
  intros [Ht _ Hg] Hc -> He0 St Hl Hcore Hon e g Hmy. rewrite (st_my_q _ _ St) in Hmy.
  destruct (decide (e ∈ path fuel s (Some e0))) as [He|He]; [by apply Hon|].
  assert (core (rtq s' g) = core (rtq s g)) as Hsame.
  { apply Hcore. intros x Hx <-. apply He. apply (t_parent _ Ht) in Hmy. by eapply path_parent. }
  rewrite (core_ready s s' g Hsame), <- (Hg e ltac:(by intros ->) g Hmy). unfold on_rt_rq. by rewrite Hl.
Qed.

(** Only [e] itself is on the path and on its queue. *)
Lemma filter_path s fuel e (l : list nat) :
  tree s → complete s (S fuel) (Some e) → (∀ x, x ∈ l → se_rt_rq (ent s x) = se_rt_rq (ent s e)) →
  filter (λ x, x ∉ path (S fuel) s (Some e)) l = filter (λ x, x ≠ e) l.
Proof.
  intros Ht Hc Hl. induction l as [|x l IH]; [done|]. assert (x ∈ path (S fuel) s (Some e) ↔ x = e) as Hx.
  { split; [|intros ->; left]. intros Hin. apply (path_unique_rq s Ht (S fuel) (Some e) x e Hc Hin); [by left|]. apply Hl. left. }
  specialize (IH ltac:(intros y Hy; apply Hl; by right)).
  destruct (decide (x = e)) as [->|Hne].
  - rewrite !filter_cons_False; [done|tauto|]. rewrite Hx. tauto.
  - rewrite !filter_cons_True; [by rewrite IH|done|]. by rewrite Hx.
Qed.

(** What enqueueing or dequeueing entity [e] does: [on] tells whether [e] is a
    task that ends up on its queue. *)
Record moved (on head : bool) (e : nat) (s s' : sys) : Prop := {
  mv_inv : rt_inv s';
  mv_static : static s s';
  mv_others : ∀ x, x ∉ for_each_sched_rt_entity s e → run_list (ent s' x) = run_list (ent s x);
  mv_task : my_q (ent s e) = None → on_rt_rq s' e = on;
  mv_queue : my_q (ent s e) = None → ∀ p,
    queue (active (rtq s' (se_rt_rq (ent s e)))) p =
    let q := filter (λ x, x ≠ e) (queue (active (rtq s (se_rt_rq (ent s e)))) p) in
    if on && bool_decide (p = prio (task s e)) then added head e q else q;
  mv_filter : ∀ r p, filter (λ x, x ∉ for_each_sched_rt_entity s e) (queue (active (rtq s' r)) p) =
    filter (λ x, x ∉ for_each_sched_rt_entity s e) (queue (active (rtq s r)) p)
}.

(** The others keep their order. *)
Lemma walk_filter head l k s s1 s2 :
  taken_off l s s1 → put_on head k s1 s2 → (∀ x, x ∈ k → x ∈ l) → ∀ r p,
  filter (λ x, x ∉ l) (queue (active (rtq s2 r)) p) = filter (λ x, x ∉ l) (queue (active (rtq s r)) p).
Proof.
  intros H1 H2 Hk r p.
  assert (filter (λ x, x ∉ l) (queue (active (rtq s1 r)) p) = filter (λ x, x ∉ l) (queue (active (rtq s r)) p)) as E.
  { rewrite (to_queue _ _ _ H1), list_filter_filter. apply list_filter_iff. tauto. }
  rewrite <- E. destruct (decide (Exists (λ x, se_rt_rq (ent s1 x) = r) k)) as [(x & Hx & <-)%Exists_exists|Hn].
  - rewrite (po_queue _ _ _ _ H2 x Hx). destruct (_ && _); [|done]. unfold added. destruct head.
    + rewrite filter_cons_False; [done|]. intros Hn. by apply Hn, Hk.
    + rewrite filter_app, (filter_cons_False _ x []); [by rewrite filter_nil, app_nil_r|]. intros Hn. by apply Hn, Hk.
  - assert (core (rtq s2 r) = core (rtq s1 r)) as Hc.
    { apply (po_other _ _ _ _ H2). intros x Hx Hr. apply Hn, Exists_exists. eauto. }
    by apply core_inv in Hc as (-> & _).
Qed.

Lemma levels_pos s (e : nat) : tree s → ∃ n, levels s = S n.
Proof. intros Ht. pose proof (t_complete _ Ht e) as H. destruct (levels s); [done|eauto]. Qed.

Lemma enqueue_rt_entity_ok s e head :
  rt_inv_but e s → (my_q (ent s e) = None → 0 ≤ prio (task s e) < MAX_RT_PRIO) →
  moved true head e s (enqueue_rt_entity e head s).
Proof.
  intros HI Hprio. pose proof HI as [Ht Hok _]. destruct (levels_pos s e Ht) as [n En]. pose proof (t_complete _ Ht e) as Hc.
  pose proof (dequeue_rt_stack_ok s e Ht Hok) as H1. cbv zeta in H1. unfold enqueue_rt_entity, for_each_sched_rt_entity in *.
  set (s1 := dequeue_rt_stack e s) in *. pose proof (to_static _ _ _ H1) as St1. rewrite (st_levels _ _ St1), (path_static s s1) by done.
  set (l := path (levels s) s (Some e)) in *.
  assert (∀ x, x ∈ l → my_q (ent s x) = None → x = e) as Hbottom.
  { unfold l. rewrite En in Hc |- *. simpl in Hc |- *. intros x [->|Hx]%elem_of_cons Hmy; [done|].
    destruct (path_tail_group s n e x Ht Hc Hx). congruence. }
  pose proof (put_walk head (levels s) (Some e) s1) as H2. rewrite (path_static s s1) in H2 by done. fold l in H2.
  specialize (H2 (tree_static _ _ St1 Ht) (to_rq _ _ _ H1) (complete_static _ _ _ _ St1 Hc)).
  specialize (H2 ltac:(intros x Hx; rewrite (to_list _ _ _ H1); by rewrite decide_True)).
  specialize (H2 ltac:(intros x Hx Hmy; rewrite (st_my_q _ _ St1) in Hmy; pose proof (Hbottom x Hx Hmy) as ->; rewrite (st_task _ _ St1); by apply Hprio)).
  set (s2 := foldl _ s1 l) in *. pose proof (po_static _ _ _ _ H2) as St2. assert (static s s2) as St by (by etrans).
  assert (e ∈ l) as Hel by (unfold l; rewrite En; left).
  split.
  - split; [by eapply tree_static|apply H2|]. eapply (groups_ok s s2 l); [done|exact Hc|done|done|done| | |].
    + intros x Hx. rewrite (po_list _ _ _ _ H2), (to_list _ _ _ H1) by done. by rewrite decide_False.
    + intros r Hr. rewrite (po_other _ _ _ _ H2), (to_other _ _ _ H1); [done|done|]. intros x Hx. rewrite (st_rt_rq _ _ St1). by apply Hr.
    + intros x g Hx Hg. rewrite (po_on _ _ _ _ H2) by done. by rewrite (st_my_q _ _ St1), Hg.
  - done.
  - intros x Hx. rewrite (po_list _ _ _ _ H2), (to_list _ _ _ H1) by done. by rewrite decide_False.
  - intros Hmy. rewrite (po_on _ _ _ _ H2) by done. by rewrite (st_my_q _ _ St1), Hmy.
  - intros Hmy p. pose proof (po_queue _ _ _ _ H2 e Hel p) as Hq. rewrite (st_rt_rq _ _ St1) in Hq. rewrite Hq.
    rewrite (po_on _ _ _ _ H2), (st_my_q _ _ St1), Hmy by done.
    assert (rt_se_prio s2 e = prio (task s e)) as ->.
    { unfold rt_se_prio, group_rt_rq. by rewrite (st_my_q _ _ St), Hmy, (st_task _ _ St). }
    rewrite (to_queue _ _ _ H1). unfold l. rewrite En in Hc |- *.
    rewrite (filter_path s n e); [done|done|done|]. intros x Hx. by apply (q_linked _ _ (Hok _)) in Hx as [Hx _].
  - by apply (walk_filter head l l s s1 s2).
Qed.

(** Counting leaves the entities alone. *)
Lemma inc_rt_tasks_ent e r s : ent (inc_rt_tasks e r s) = ent s.
Proof.
  assert (∀ c p t, ent (set_cpupri c p t) = ent t) as H1 by (intros c p t; unfold set_cpupri; by destruct (cpupri_set _ _ _)).
  assert (∀ r p t, ent (inc_rt_prio r p t) = ent t) as H2.
  { intros r0 p t. unfold inc_rt_prio, inc_rt_prio_smp. destruct (p <? _); simpl; [|destruct (p =? _); [done|by destruct (p <? _)]].
    destruct (online _); [by rewrite H1|done]. }
  assert (∀ r t, ent (update_rt_migration r t) = ent t) as H3.
  { intros r0 t. unfold update_rt_migration, rt_set_overload, rt_clear_overload.
    destruct (_ && _), (overloaded _); simpl; try done; by destruct (negb _). }
  assert (∀ e r t, ent (inc_rt_migration e r t) = ent t) as H4.
  { intros e0 r0 t. unfold inc_rt_migration. destruct (negb _); [done|]. by rewrite H3. }
  unfold inc_rt_tasks, inc_rt_group, start_rt_bandwidth.
  destruct (rt_se_boosted _ _); simpl; destruct (rt_tg _); simpl; try (destruct (_ || _)); simpl; by rewrite H4, H2.
Qed.

Lemma enqueue_my_q head e s x : my_q (ent (__enqueue_rt_entity head e s) x) = my_q (ent s x).
Proof.
  unfold __enqueue_rt_entity. destruct (match group_rt_rq s e with Some _ => _ | None => _ end); [done|]. rewrite inc_rt_tasks_ent.
  destruct (_ =? 0); simpl; destruct (decide (x = e)) as [->|]; by rewrite ?fn_lookup_insert, ?fn_lookup_insert_ne.
Qed.

Lemma requeue_parent_group e s g : my_q (ent s e) = Some g → requeue_parent e s = __enqueue_rt_entity false e s.
Proof.
  intros E. unfold requeue_parent, __enqueue_rt_entity, group_rt_rq. rewrite E.
  destruct (rt_nr_running (rtq s g) =? 0); [by rewrite orb_true_r|done].
Qed.

Lemma requeue_parents l : ∀ s, (∀ x, x ∈ l → ∃ g, my_q (ent s x) = Some g) →
  foldl (λ s e, requeue_parent e s) s l = foldl (λ s e, __enqueue_rt_entity false e s) s l.
Proof.
  induction l as [|e l IH]; intros s Hl; simpl; [done|]. destruct (Hl e ltac:(left)) as [g Hg].
  rewrite (requeue_parent_group e s g Hg). apply IH. intros x Hx. rewrite enqueue_my_q. apply Hl. by right.
Qed.

(** Dequeueing a task: it is off, its parents are requeued. *)
Lemma dequeue_task_entity_ok s e :
  rt_inv s → my_q (ent s e) = None → moved false false e s (dequeue_rt_entity e s).
Proof.
  intros HI Hmy. pose proof HI as [Ht Hok _]. destruct (levels_pos s e Ht) as [n En]. pose proof (t_complete _ Ht e) as Hc.
  pose proof (dequeue_rt_stack_ok s e Ht Hok) as H1. cbv zeta in H1. unfold dequeue_rt_entity, for_each_sched_rt_entity in *.
  set (s1 := dequeue_rt_stack e s) in *. pose proof (to_static _ _ _ H1) as St1. rewrite (st_levels _ _ St1), (path_static s s1) by done.
  rewrite En in Hc. simpl in Hc. set (l := path n s (parent (ent s e))).
  assert (path (levels s) s (Some e) = e :: l) as El by (by rewrite En). rewrite El in H1 |- *. cbn [foldl].
  assert (requeue_parent e s1 = s1) as ->.
  { unfold requeue_parent, group_rt_rq. by rewrite (st_my_q _ _ St1), Hmy. }
  assert (NoDup (e :: l)) as Hnd by (rewrite <- El; apply path_nodup; rewrite En; exact Hc). apply NoDup_cons in Hnd as [Hnin _].
  rewrite requeue_parents.
  2:{ intros x Hx. rewrite (st_my_q _ _ St1). by eapply path_tail_group. }
  pose proof (put_walk false n (parent (ent s e)) s1) as H2. rewrite (path_static s s1) in H2 by done. fold l in H2.
  specialize (H2 (tree_static _ _ St1 Ht) (to_rq _ _ _ H1) (complete_static _ _ _ _ St1 Hc)).
  specialize (H2 ltac:(intros x Hx; rewrite (to_list _ _ _ H1), decide_True; [done|by right])).
  specialize (H2 ltac:(intros x Hx Hm; rewrite (st_my_q _ _ St1) in Hm; destruct (path_tail_group s n e x Ht Hc Hx); congruence)).
  set (s2 := foldl _ s1 l) in *. pose proof (po_static _ _ _ _ H2) as St2. assert (static s s2) as St by (by etrans).
  assert (run_list (ent s2 e) = None) as Hoff.
  { rewrite (po_list _ _ _ _ H2), (to_list _ _ _ H1) by done. rewrite decide_True; [done|left]. }
  assert (∀ x, x ∉ e :: l → run_list (ent s2 x) = run_list (ent s x)) as Hothers.
  { intros x Hx. rewrite (po_list _ _ _ _ H2), (to_list _ _ _ H1), decide_False; [done|done|]. intros Hin. apply Hx. by right. }
  split.
  - split; [by eapply tree_static|apply H2|]. eapply (groups_ok s s2 (e :: l) (levels s) e);
      [by apply rt_inv_but_of|exact (t_complete _ Ht e)|done|left|done|done| |].
    + intros r Hr. rewrite (po_other _ _ _ _ H2), (to_other _ _ _ H1); [done|done|]. intros x Hx. rewrite (st_rt_rq _ _ St1).
      apply Hr. by right.
    + intros x g [->|Hx]%elem_of_cons Hg; [congruence|]. rewrite (po_on _ _ _ _ H2) by done. by rewrite (st_my_q _ _ St1), Hg.
  - done.
  - intros x Hx. apply Hothers. unfold for_each_sched_rt_entity in Hx. by rewrite El in Hx.
  - intros _. by apply on_rt_rq_false.
  - intros _ p. simpl. assert (core (rtq s2 (se_rt_rq (ent s e))) = core (rtq s1 (se_rt_rq (ent s e)))) as Hr.
    { apply (po_other _ _ _ _ H2). intros x Hx E. rewrite (st_rt_rq _ _ St1) in E. apply Hnin.
      rewrite <- (path_unique_rq s Ht (levels s) (Some e) x e (t_complete _ Ht e)); [done| | |done]; rewrite El; [by right|left]. }
    apply core_inv in Hr as (-> & _). rewrite (to_queue _ _ _ H1), <- El, En.
    apply (filter_path s n e); [done|exact Hc|]. intros x Hx. by apply (q_linked _ _ (Hok _)) in Hx as [Hx _].
  - unfold for_each_sched_rt_entity. rewrite El. apply (walk_filter false (e :: l) l s s1 s2); [done|done|]. intros x Hx. by right.
Qed.

(** Dequeueing the entity of a group requeues it as well, if it may run. *)
Lemma dequeue_group_entity s e g :
  tree s → (∀ r, rq_ok s r) → my_q (ent s e) = Some g → dequeue_rt_entity e s = enqueue_rt_entity e false s.
Proof.
  intros Ht Hok Hmy. unfold dequeue_rt_entity, enqueue_rt_entity. apply requeue_parents.
  pose proof (to_static _ _ _ (dequeue_rt_stack_ok s e Ht Hok)) as St. intros x.
  unfold for_each_sched_rt_entity. rewrite (st_levels _ _ St), (path_static _ _ _ _ St), (st_my_q _ _ St).
  destruct (levels_pos s e Ht) as [n En]. pose proof (t_complete _ Ht e) as Hc. rewrite En in Hc |- *. simpl in Hc |- *.
  intros [->|Hx]%elem_of_cons; [eauto|by eapply path_tail_group].
Qed.
