(* ===== verification/RtFrame.v ===== *)
(** * What queueing leaves alone

    Enqueueing and dequeueing entities changes the queues, their counters and
    what is derived from them (the list of leaves, the overload mask, the CPU
    priorities), and nothing else; this holds in every state, well formed or
    not. *)

From stdpp Require Import functions.
From S2P Require Import Prelude Bitmap CpuPri Plist RtRq.

Record frame (s s' : sys) : Prop := {
  fr_tgs : tgs s' = tgs s;
  fr_groups : task_groups s' = task_groups s;
  fr_enabled : bandwidth_enabled s' = bandwidth_enabled s ∧ scheduler_running s' = scheduler_running s;
  fr_this : this_cpu s' = this_cpu s ∧ levels s' = levels s;
  fr_task : task s' = task s;
  fr_span : span (rd s') = span (rd s);
  fr_ent : ∀ e, with_run_list None (ent s' e) = with_run_list None (ent s e);
  fr_rq : ∀ c, with_leaves [] (cpu_rq s' c) = with_leaves [] (cpu_rq s c);
  fr_rt : ∀ r, (rt_tg (rtq s' r), rt_cpu (rtq s' r), pushable_tasks (rtq s' r),
                rt_throttled (rtq s' r), rt_time (rtq s' r), rt_runtime (rtq s' r)) =
               (rt_tg (rtq s r), rt_cpu (rtq s r), pushable_tasks (rtq s r),
                rt_throttled (rtq s r), rt_time (rtq s r), rt_runtime (rtq s r));
  fr_leaves : ∀ c r, r ∈ leaf_rt_rq_list (cpu_rq s' c) → r ∈ leaf_rt_rq_list (cpu_rq s c) ∨ rt_cpu (rtq s r) = c
}.

#[global] Instance frame_preorder : PreOrder frame.
Proof.
  split.
  - intros s. split; auto.
  - intros s t u [] []. split; try (intros; congruence); try congruence; try (intuition congruence).
    intros c r Hr. destruct (fr_leaves1 c r Hr) as [?|?]; [auto|]. right. specialize (fr_rt0 r). congruence.
Qed.

Lemma upd_rt_frame r f s :
  (∀ q, (rt_tg (f q), rt_cpu (f q), pushable_tasks (f q), rt_throttled (f q), rt_time (f q), rt_runtime (f q)) =
        (rt_tg q, rt_cpu q, pushable_tasks q, rt_throttled q, rt_time q, rt_runtime q)) → frame s (upd_rt r f s).
Proof.
  intros Hf. split; simpl; try done; [|auto]. intros r'. destruct (decide (r' = r)) as [->|].
  - by rewrite fn_lookup_insert, Hf.
  - by rewrite fn_lookup_insert_ne.
Qed.
Lemma upd_ent_frame e l s : frame s (upd_ent e (with_run_list l) s).
Proof.
  split; simpl; try done; [|auto]. intros x. destruct (decide (x = e)) as [->|]; [by rewrite fn_lookup_insert|by rewrite fn_lookup_insert_ne].
Qed.
Lemma upd_rd_frame f s : (∀ d, span (f d) = span d) → frame s (upd_rd f s).
Proof. intros Hf. split; simpl; auto. Qed.
Lemma upd_rq_frame c f s :
  (∀ q, with_leaves [] (f q) = with_leaves [] q) →
  (∀ q r, r ∈ leaf_rt_rq_list (f q) → r ∈ leaf_rt_rq_list q ∨ rt_cpu (rtq s r) = c) → frame s (upd_rq c f s).
Proof.
  intros Hf Hl. split; simpl; try done.
  - intros c'. destruct (decide (c' = c)) as [->|]; [by rewrite fn_lookup_insert|by rewrite fn_lookup_insert_ne].
  - intros c' r. destruct (decide (c' = c)) as [->|]; [rewrite fn_lookup_insert; apply Hl|rewrite fn_lookup_insert_ne by done; auto].
Qed.
Lemma leaf_frame r s : frame s (list_add_leaf_rt_rq r s) ∧ frame s (list_del_leaf_rt_rq r s).
Proof.
  split; apply upd_rq_frame; try done; intros q x; simpl.
  - intros [->|?]%elem_of_cons; auto.
  - intros [_ ?]%list_elem_of_filter. auto.
Qed.
Lemma BUG_ON_frame b s : frame s (BUG_ON b s).
Proof. split; auto. Qed.
Lemma start_timer_frame g s : frame s (start_timer g s).
Proof. split; auto. Qed.

Create HintDb frame.
#[export] Hint Resolve upd_ent_frame BUG_ON_frame start_timer_frame : frame.
#[export] Hint Extern 1 (frame _ (upd_rt _ _ _)) => apply upd_rt_frame; done : frame.
#[export] Hint Extern 1 (frame _ (upd_rd _ _)) => apply upd_rd_frame; done : frame.
#[export] Hint Extern 1 (frame _ (upd_rq _ _ _)) => apply upd_rq_frame; [done|auto] : frame.
#[export] Hint Extern 2 (frame ?s ?s) => reflexivity : frame.

Lemma set_cpupri_frame c p s : frame s (set_cpupri c p s).
Proof. unfold set_cpupri. destruct (cpupri_set _ _ _); auto with frame. Qed.
Lemma set_hp_frame r p s : frame s (set_curr p r s) ∧ frame s (set_next p r s).
Proof. split; unfold set_curr, set_next; auto with frame. Qed.

Lemma inc_rt_prio_frame r p s : frame s (inc_rt_prio r p s).
Proof.
  unfold inc_rt_prio. set (s1 := if p <? _ then _ else s). transitivity s1.
  - unfold s1. destruct (p <? _); [apply set_hp_frame|reflexivity].
  - unfold inc_rt_prio_smp. destruct (p <? _); [|destruct (p =? _); [apply set_hp_frame|destruct (p <? _); [apply set_hp_frame|reflexivity]]].
    destruct (online _); [|apply set_hp_frame]. etrans; [apply set_hp_frame|apply set_cpupri_frame].
Qed.

Lemma dec_rt_prio_frame r p s : frame s (dec_rt_prio r p s).
Proof.
  unfold dec_rt_prio. set (s1 := if negb _ then _ else _). transitivity s1.
  - unfold s1. destruct (negb _); [|apply set_hp_frame]. etrans; [apply BUG_ON_frame|]. destruct (p =? _); [apply set_hp_frame|reflexivity].
  - unfold dec_rt_prio_smp. set (s2 := if _ && (p <=? _) then _ else s1). transitivity s2.
    + unfold s2. destruct (_ && _); [apply set_hp_frame|reflexivity].
    + clearbody s2. destruct (_ && _); [apply set_cpupri_frame|reflexivity].
Qed.

Lemma overload_frame c s : frame s (rt_set_overload c s) ∧ frame s (rt_clear_overload c s).
Proof. unfold rt_set_overload, rt_clear_overload. destruct (negb _); split; auto with frame. Qed.
Lemma update_rt_migration_frame r s : frame s (update_rt_migration r s).
Proof.
  unfold update_rt_migration, set_overloaded. set (c := rt_cpu _). destruct (_ && _), (overloaded _); try reflexivity.
  - transitivity (rt_set_overload c s); [apply overload_frame|auto with frame].
  - transitivity (rt_clear_overload c s); [apply overload_frame|auto with frame].
Qed.
Lemma rt_migration_frame e r s : frame s (inc_rt_migration e r s) ∧ frame s (dec_rt_migration e r s).
Proof.
  unfold inc_rt_migration, dec_rt_migration. destruct (negb _); [split; reflexivity|].
  split; (etrans; [|apply update_rt_migration_frame]); unfold count_migration; auto with frame.
Qed.

Lemma rt_group_frame e r s : frame s (inc_rt_group e r s) ∧ frame s (dec_rt_group e r s).
Proof.
  assert (∀ d, frame s (if rt_se_boosted s e then add_boosted d r s else s)) as H1.
  { intros d. unfold add_boosted. destruct (rt_se_boosted s e); auto with frame. }
  unfold inc_rt_group, dec_rt_group. split.
  - etrans; [apply (H1 1)|]. destruct (rt_tg _); [|reflexivity]. unfold start_rt_bandwidth. destruct (_ || _); auto with frame.
  - etrans; [apply (H1 (-1))|]. apply BUG_ON_frame.
Qed.

Lemma rt_tasks_frame e r s : frame s (inc_rt_tasks e r s) ∧ frame s (dec_rt_tasks e r s).
Proof.
  unfold inc_rt_tasks, dec_rt_tasks. split.
  - etrans; [apply BUG_ON_frame|]. etrans; [|apply rt_group_frame]. etrans; [|apply rt_migration_frame].
    etrans; [|apply inc_rt_prio_frame]. auto with frame.
  - etrans; [apply BUG_ON_frame|]. etrans; [apply BUG_ON_frame|]. etrans; [|apply rt_group_frame].
    etrans; [|apply rt_migration_frame]. etrans; [|apply dec_rt_prio_frame]. auto with frame.
Qed.

Lemma enqueue1_frame head e s : frame s (__enqueue_rt_entity head e s).
Proof.
  unfold __enqueue_rt_entity. destruct (match group_rt_rq s e with Some _ => _ | None => _ end); [reflexivity|].
  etrans; [|apply rt_tasks_frame]. unfold mark, link_entity.
  etrans; [|apply upd_rt_frame; done]. etrans; [|apply upd_rt_frame; done]. etrans; [|apply upd_ent_frame].
  destruct (_ =? 0); [apply leaf_frame|reflexivity].
Qed.

Lemma dequeue1_frame e s : frame s (__dequeue_rt_entity e s).
Proof.
  unfold __dequeue_rt_entity. set (s1 := unlink_entity _ _ s). set (s2 := match queue _ _ with [] => _ | _ => s1 end).
  transitivity s2.
  - transitivity s1.
    + unfold s1, unlink_entity. destruct (run_list _); [|reflexivity]. etrans; [apply upd_ent_frame|]. auto with frame.
    + unfold s2, mark. destruct (queue _ _); auto with frame.
  - etrans; [apply rt_tasks_frame|]. destruct (_ =? 0); [|reflexivity]. apply leaf_frame.
Qed.

Lemma foldl_frame {A} (f : sys → A → sys) l s : (∀ s a, frame s (f s a)) → frame s (foldl f s l).
Proof. intros Hf. revert s. induction l as [|a l IH]; intros s; simpl; [reflexivity|]. etrans; [apply Hf|apply IH]. Qed.

Lemma dequeue_rt_stack_frame e s : frame s (dequeue_rt_stack e s).
Proof. apply foldl_frame. intros t x. destruct (on_rt_rq t x); [apply dequeue1_frame|reflexivity]. Qed.

Lemma enqueue_rt_entity_frame e head s : frame s (enqueue_rt_entity e head s).
Proof. etrans; [apply dequeue_rt_stack_frame|]. apply foldl_frame. intros t x. apply enqueue1_frame. Qed.

Lemma dequeue_rt_entity_frame e s : frame s (dequeue_rt_entity e s).
Proof.
  etrans; [apply dequeue_rt_stack_frame|]. apply foldl_frame. intros t x. unfold requeue_parent.
  destruct (group_rt_rq t x); [|reflexivity]. destruct (_ =? 0); [reflexivity|apply enqueue1_frame].
Qed.
