(* ===== verification/RtExample.v ===== *)
(** * A small system

    Systems with nothing queued satisfy the invariant.  The example has a root
    group 0 and a group 1 in it, and its run queue [2 c + g] is that of group
    [g] on CPU [c].  Odd entities are those of group 1, entity [2 c + 1] the one
    of CPU [c]; task [4 c], for [c] less than 32, is the idle task of CPU [c];
    the other tasks are real-time tasks on CPU 0, those that are multiples of 4
    in the root group and the others in group 1. *)

From stdpp Require Import functions.
From S2P Require Import Prelude Bitmap CpuPri Plist RtRq RtInv RtWalk RtFrame.

Lemma empty_array_ok :
  length (bits empty_array) = 4%nat ∧ words_ok (bits empty_array) ∧ test_bit MAX_RT_PRIO (bits empty_array) = true ∧
  (∀ p, 0 ≤ p < MAX_RT_PRIO → test_bit p (bits empty_array) = false).
Proof.
  assert (words_ok [0; 0; 0; 0]) as Hz by (repeat constructor; lia). unfold empty_array, MAX_RT_PRIO. simpl bits.
  split; [done|]. split; [apply set_bit_words; [lia|done]|]. split; [done|]. intros p Hp.
  rewrite test_set_bit, bool_decide_eq_false_2; [|lia|lia|lia|done]. simpl. unfold test_bit.
  assert (word [0; 0; 0; 0] (p / 32) = 0) as ->; [|by rewrite Z.bits_0].
  unfold word. by destruct (Z.to_nat (p / 32)) as [|[|[|[|n]]]].
Qed.

(** The list is empty everywhere. *)
Definition fresh (s : sys) : Prop :=
  (∀ e, run_list (ent s e) = None) ∧ ∀ r, ∃ cpu tg runtime, rtq s r = init_rt_rq cpu tg runtime.

Lemma fresh_inv s : tree s → fresh s → rt_inv s.
Proof.
  intros Ht [He Hr]. destruct empty_array_ok as (A1 & A2 & A3 & A4). split; [done| |].
  - intros r. destruct (Hr r) as (cpu & tg & rn & E). split; rewrite E; unfold init_rt_rq; cbn [active rt_nr_running hp_curr rt_nr_boosted]; try done.
    + intros e p. rewrite He. split; [by intros ?%not_elem_of_nil|intros [_ ?]; done].
    + intros p. constructor.
    + by intros e p ?%not_elem_of_nil.
  - intros e g _. destruct (Hr g) as (cpu & tg & rn & E). unfold on_rt_rq, group_ready. by rewrite He, E.
Qed.

Definition is_idle (p : nat) : bool := (p mod 4 =? 0)%nat && (p <? 128)%nat.
Definition example_ent (e : nat) : sched_rt_entity :=
  if Nat.odd e then mk_se None 0 0 0 None (e - 1) (Some e)
  else if is_idle e then mk_se None 0 100 1 None (2 * (e / 4)) None
  else if (e mod 4 =? 0)%nat then mk_se None 0 100 2 None 0 None
  else mk_se None 0 100 2 (Some 1%nat) 1 None.
Definition example_task (p : nat) : task_struct :=
  if is_idle p then mk_task 140 140 0 true true {[(p / 4)%nat]} (p / 4) 0 false 0 0 false (2 ^ 32 - 1) (2 ^ 32 - 1) 0
  else
    let prio := Z.of_nat ((p / 8) mod 100) in
    mk_task prio prio 2 false false {[0%nat; 1%nat]} 0 (if (p mod 4 =? 0)%nat then 0 else 1) true 0 0 false
      (2 ^ 32 - 1) (2 ^ 32 - 1) 0.
Definition example : sys :=
  mk_sys example_ent example_task
    (λ r, init_rt_rq (r / 2) (Some (r mod 2)%nat) 950) (λ c, mk_rq (4 * c) (4 * c) (2 * c) true 0 false 0 [])
    (λ g, mk_tg (λ c, if (g =? 0)%nat then None else Some (2 * c + 1)%nat) (λ c, (2 * c + g)%nat) 1000 950) [0; 1]%nat
    (mk_rd [0; 1]%nat ∅ 0 cpupri_init) (λ _, false) true true 0 2 false.

Lemma example_group e : my_q (ent example e) = if Nat.odd e then Some e else None.
Proof. simpl. unfold example_ent. destruct (Nat.odd e); [done|]. destruct (is_idle e); [done|]. by destruct (_ =? _)%nat. Qed.

Lemma odd_even n : Nat.odd (2 * n) = false.
Proof. destruct (Nat.odd (2 * n)) eqn:E; [|done]. apply Nat.odd_spec in E as [k Hk]. lia. Qed.

Lemma example_tree : tree example.
Proof.
  split.
  - intros e o. rewrite example_group. cbn [ent example]. unfold example_ent. destruct (Nat.odd e) eqn:Ee; [|destruct (is_idle e)];
      cbn [parent se_rt_rq].
    + split; [done|]. destruct (Nat.odd o) eqn:Eo; [|done]. intros [= ->]. apply Nat.odd_spec in Ee as [k ->].
      replace (2 * k + 1 - 1)%nat with (2 * k)%nat in Eo by lia. by rewrite odd_even in Eo.
    + split; [done|]. destruct (Nat.odd o) eqn:Eo; [|done]. intros Ho%(inj Some). rewrite Ho in Eo. by rewrite odd_even in Eo.
    + destruct (_ =? _)%nat; simpl.
      * split; [done|]. destruct (Nat.odd o) eqn:Eo; [|done]. by intros [= ->].
      * split; [by intros [= <-]|]. destruct (Nat.odd o) eqn:Eo; [|done]. by intros [= ->].
  - intros e. simpl. unfold example_ent. destruct (Nat.odd e); [done|]. destruct (is_idle e); [done|]. by destruct (_ =? _)%nat.
Qed.

Lemma example_inv : rt_inv example.
Proof.
  apply fresh_inv; [exact example_tree|]. split.
  - intros e. simpl. unfold example_ent. destruct (Nat.odd e); [done|]. destruct (is_idle e); [done|]. by destruct (_ =? _)%nat.
  - intros r. simpl. eauto.
Qed.

(** Tasks 200 and 204 of the root group and task 202 of group 1 are queued. *)
Definition example_queued : sys := enqueue_rt_entity 204 false (enqueue_rt_entity 202 false (enqueue_rt_entity 200 false example)).

Lemma example_enqueue s p :
  rt_inv s ∧ static example s → 0 ≤ prio (example_task p) < MAX_RT_PRIO →
  rt_inv (enqueue_rt_entity p false s) ∧ static example (enqueue_rt_entity p false s).
Proof.
  intros [HI St] Hp. pose proof (enqueue_rt_entity_ok s p false (rt_inv_but_of p s HI)) as H.
  rewrite (st_task _ _ St) in H. specialize (H ltac:(intros _; exact Hp)).
  split; [exact (mv_inv _ _ _ _ _ H)|]. exact (transitivity St (mv_static _ _ _ _ _ H)).
Qed.
Lemma example_queued_inv : rt_inv example_queued ∧ static example example_queued.
Proof.
  unfold example_queued. repeat (apply example_enqueue; [|vm_compute; split; congruence]). split; [exact example_inv|reflexivity].
Qed.
Lemma example_queued_frame : frame example example_queued.
Proof. unfold example_queued. repeat (etrans; [|apply enqueue_rt_entity_frame]). reflexivity. Qed.
