(* ===== verification/RtBandwidth.v ===== *)
(** * Real-time bandwidth (project1/sched_rt.c)

    A group may run for [rt_runtime] out of every [rt_period] on every CPU.  A
    run queue that used up its time is throttled until the period timer grants
    it new time; before that it borrows from the same group's queues on other
    CPUs.  The file has the borrowing, the reclaiming when a CPU goes offline,
    the period timer and the accounting of the running task. *)

From stdpp Require Import functions.
From S2P Require Import Prelude Bitmap CpuPri Plist RtRq.

Definition sched_rt_runtime (s : sys) (r : nat) : Z :=
  match rt_tg (rtq s r) with None => RUNTIME_INF | Some _ => rt_runtime (rtq s r) end.
Definition sched_rt_period (s : sys) (r : nat) : Z :=
  match rt_tg (rtq s r) with None => 0 | Some g => rt_period (tgs s g) end.
Definition sched_rt_period_rt_rq (s : sys) (g cpu : nat) : nat := tg_rt_rq (tgs s g) cpu.

Definition set_runtime (v : Z) (r : nat) : sys → sys :=
  upd_rt r (λ q, with_bandwidth (rt_throttled q) (rt_time q) v q).
Definition set_time (v : Z) (r : nat) : sys → sys :=
  upd_rt r (λ q, with_bandwidth (rt_throttled q) v (rt_runtime q) q).
Definition set_throttled (b : bool) (r : nat) : sys → sys :=
  upd_rt r (λ q, with_bandwidth b (rt_time q) (rt_runtime q) q).
(** [resched_task] (kernel/sched.c); the interrupt sent to another CPU is left
    out. *)
Definition resched_task (p : nat) : sys → sys :=
  upd_task p (λ t, mk_task (prio t) (normal_prio t) (policy t) (on_rq t) (on_cpu t) (cpus_allowed t) (task_cpu t)
    (task_tg t) (rt_class t) (exec_start t) (sum_exec_runtime t) true (rttime_soft t) (rttime_hard t) (sched_exp t)).

(** ** Borrowing *)

(** The loop of [do_balance_runtime] over the CPUs: the flag [more] and the
    state. *)
Fixpoint balance_cpus (r g : nat) (weight : Z) (cpus : list nat) (more : bool) (s : sys) : bool * sys :=
  match cpus with
  | [] => (more, s)
  | i :: cpus =>
      let iter := sched_rt_period_rt_rq s g i in
      if decide (iter = r) then balance_cpus r g weight cpus more s
      else if rt_runtime (rtq s iter) =? RUNTIME_INF then balance_cpus r g weight cpus more s
      else
        let diff := s64 (rt_runtime (rtq s iter) - rt_time (rtq s iter)) in
        if 0 <? diff then
          let diff := diff / weight in
          let rt_period := rt_period (tgs s g) in
          let diff := if rt_period <? u64 (rt_runtime (rtq s r) + diff)
                      then s64 (rt_period - rt_runtime (rtq s r)) else diff in
          let s := set_runtime (u64 (rt_runtime (rtq s iter) - diff)) iter s in
          let s := set_runtime (u64 (rt_runtime (rtq s r) + diff)) r s in
          if rt_runtime (rtq s r) =? rt_period then (true, s) else balance_cpus r g weight cpus true s
        else balance_cpus r g weight cpus more s
  end.
Definition do_balance_runtime (r : nat) (s : sys) : bool * sys :=
  match rt_tg (rtq s r) with
  | None => (false, BUG_ON true s)
  | Some g => balance_cpus r g (Z.of_nat (length (span (rd s)))) (span (rd s)) false s
  end.
Definition balance_runtime (r : nat) (s : sys) : sys :=
  if rt_runtime (rtq s r) <? rt_time (rtq s r) then (do_balance_runtime r s).2 else s.

(** ** CPUs going offline and coming back *)

(** The loop that takes back what was lent: what is still wanted. *)
Fixpoint reclaim (r g : nat) (cpus : list nat) (want : Z) (s : sys) : Z * sys :=
  match cpus with
  | [] => (want, s)
  | i :: cpus =>
      let iter := sched_rt_period_rt_rq s g i in
      if bool_decide (iter = r) || (rt_runtime (rtq s iter) =? RUNTIME_INF) then reclaim r g cpus want s
      else
        let diff := if 0 <? want then Z.min (s64 (rt_runtime (rtq s iter))) want else want in
        let s := set_runtime (u64 (rt_runtime (rtq s iter) - diff)) iter s in
        let want := s64 (want - diff) in
        if want =? 0 then (want, s) else reclaim r g cpus want s
  end.

(** One group of [__disable_runtime]. *)
Definition disable_group (c : nat) (s : sys) (g : nat) : sys :=
  let r := tg_rt_rq (tgs s g) c in
  let b := tg_rt_runtime (tgs s g) in
  let s :=
    if (rt_runtime (rtq s r) =? RUNTIME_INF) || (rt_runtime (rtq s r) =? b) then s
    else
      let '(want, s) := reclaim r g (span (rd s)) (s64 (b - rt_runtime (rtq s r))) s in
      BUG_ON (negb (want =? 0)) s in
  set_runtime RUNTIME_INF r s.
Definition __disable_runtime (c : nat) (s : sys) : sys :=
  if negb (scheduler_running s) then s else foldl (disable_group c) s (task_groups s).

Definition enable_group (c : nat) (s : sys) (g : nat) : sys :=
  upd_rt (tg_rt_rq (tgs s g) c) (with_bandwidth false 0 (tg_rt_runtime (tgs s g))) s.
Definition __enable_runtime (c : nat) (s : sys) : sys :=
  if negb (scheduler_running s) then s else foldl (enable_group c) s (task_groups s).

(** ** The entity of a group *)

Definition sched_rt_rq_enqueue (r : nat) (s : sys) : sys :=
  let cpu := rt_cpu (rtq s r) in
  let curr := curr (cpu_rq s cpu) in
  let rt_se := match rt_tg (rtq s r) with Some g => tg_rt_se (tgs s g) cpu | None => None end in
  if rt_nr_running (rtq s r) =? 0 then s
  else
    let s := match rt_se with
             | Some e => if on_rt_rq s e then s else enqueue_rt_entity e false s
             | None => s
             end in
    if hp_curr (rtq s r) <? prio (task s curr) then resched_task curr s else s.
Definition sched_rt_rq_dequeue (r : nat) (s : sys) : sys :=
  match match rt_tg (rtq s r) with Some g => tg_rt_se (tgs s g) (rt_cpu (rtq s r)) | None => None end with
  | Some e => if on_rt_rq s e then dequeue_rt_entity e s else s
  | None => s
  end.

(** ** The period timer *)

Definition set_skip_clock_update (v : Z) (c : nat) : sys → sys :=
  upd_rq c (λ q, mk_rq (curr q) (idle q) (rt q) (online q) (clock_task q) (post_schedule q) v (leaf_rt_rq_list q)).

(** One CPU of [do_sched_rt_period_timer]: whether the timer may rest, and the
    state. *)
Definition period_cpu (g : nat) (overrun : Z) (st : bool * sys) (i : nat) : bool * sys :=
  let '(idle_, s) := st in
  let r := sched_rt_period_rt_rq s g i in
  let c := rt_cpu (rtq s r) in
  let '(idle_, enqueue, s) :=
    if negb (rt_time (rtq s r) =? 0) then
      let s := if rt_throttled (rtq s r) then balance_runtime r s else s in
      let runtime := rt_runtime (rtq s r) in
      let s := set_time (rt_time (rtq s r) - Z.min (rt_time (rtq s r)) (u64 (overrun * runtime))) r s in
      let '(enqueue, s) :=
        if rt_throttled (rtq s r) && (rt_time (rtq s r) <? runtime) then
          let s := set_throttled false r s in
          (true, if negb (rt_nr_running (rtq s r) =? 0) && (curr (cpu_rq s c) =? idle (cpu_rq s c))%nat
                 then set_skip_clock_update (-1) c s else s)
        else (false, s) in
      (if negb (rt_time (rtq s r) =? 0) || negb (rt_nr_running (rtq s r) =? 0) then false else idle_, enqueue, s)
    else if negb (rt_nr_running (rtq s r) =? 0) then (false, negb (rt_rq_throttled s r), s)
    else (idle_, false, s) in
  (idle_, if enqueue : bool then sched_rt_rq_enqueue r s else s).
Definition do_sched_rt_period_timer (g : nat) (overrun : Z) (s : sys) : bool * sys :=
  if negb (bandwidth_enabled s) || (tg_rt_runtime (tgs s g) =? RUNTIME_INF) then (true, s)
  else foldl (period_cpu g overrun) (true, s) (span (rd s)).

(** ** Accounting *)

Definition sched_rt_runtime_exceeded (r : nat) (s : sys) : bool * sys :=
  if rt_throttled (rtq s r) then (rt_rq_throttled s r, s)
  else if sched_rt_period s r <=? sched_rt_runtime s r then (false, s)
  else
    let s := balance_runtime r s in
    let runtime := sched_rt_runtime s r in
    if runtime =? RUNTIME_INF then (false, s)
    else if runtime <? rt_time (rtq s r) then
      let s := set_throttled true r s in
      if rt_rq_throttled s r then (true, sched_rt_rq_dequeue r s) else (false, s)
    else (false, s).

(** The run time of [curr], charged to its queue and those of its groups. *)
Definition charge (p : nat) (delta : Z) (s : sys) (e : nat) : sys :=
  let r := rt_rq_of_se s e in
  if sched_rt_runtime s r =? RUNTIME_INF then s
  else
    let s := set_time (u64 (rt_time (rtq s r) + delta)) r s in
    let '(exceeded, s) := sched_rt_runtime_exceeded r s in
    if exceeded : bool then resched_task p s else s.

Definition set_exec (start sum : Z) (p : nat) : sys → sys :=
  upd_task p (λ t, mk_task (prio t) (normal_prio t) (policy t) (on_rq t) (on_cpu t) (cpus_allowed t) (task_cpu t)
    (task_tg t) (rt_class t) start sum (need_resched t) (rttime_soft t) (rttime_hard t) (sched_exp t)).
Definition update_curr_rt (c : nat) (s : sys) : sys :=
  let p := curr (cpu_rq s c) in
  if negb (rt_class (task s p)) then s
  else
    let now := clock_task (cpu_rq s c) in
    let delta := let d := s64 (now - exec_start (task s p)) in if d <? 0 then 0 else d in
    let s := set_exec now (u64 (sum_exec_runtime (task s p) + delta)) p s in
    if negb (bandwidth_enabled s) then s
    else foldl (charge p delta) s (for_each_sched_rt_entity s p).
