(* ===== verification/RtShare.v ===== *)
(** * The bandwidth of a group is conserved

    Borrowing moves run time between the CPUs of a group, a CPU that goes
    offline takes back what it lent or gives back what it borrowed, and a CPU
    that comes back starts with its share: the enabled CPUs of a group have,
    together, as many shares as there are enabled CPUs, so the assertion in
    [__disable_runtime] that nothing is left wanting does not fail.  This needs
    that a CPU that is enabled is disabled or has exactly its share.  The kernel
    enables a CPU that comes online twice (sched.c, [migration_call] and
    [update_runtime]); when the CPU borrows or lends in between, the second
    enabling changes the total, by an amount the theorem states. *)

From stdpp Require Import functions.
From S2P Require Import Prelude Bitmap CpuPri Plist RtRq RtBandwidth.

(** ** Sums with one term changed *)

Lemma sum_change {A} `{EqDecision A} (f f' : A → Z) l i :
  NoDup l → i ∈ l → (∀ j, j ∈ l → j ≠ i → f' j = f j) → sumZ (f' <$> l) = sumZ (f <$> l) - f i + f' i.
Proof.
  intros Hnd Hi Hf. induction Hnd as [|x l Hx Hnd IH]; [by apply not_elem_of_nil in Hi|]. csimpl.
  apply elem_of_cons in Hi as [->|Hi].
  - assert (f' <$> l = f <$> l) as ->; [|lia]. apply Forall_fmap_ext, Forall_forall. intros j Hj. apply Hf; [by right|]. by intros ->.
  - rewrite IH, (Hf x); [lia|left|by intros ->|done|]. intros j Hj. apply Hf. by right.
Qed.

Lemma sum_ext {A} (f g : A → Z) l : (∀ x, x ∈ l → f x = g x) → sumZ (f <$> l) = sumZ (g <$> l).
Proof. intros H. f_equal. apply Forall_fmap_ext, Forall_forall. done. Qed.

Lemma sum_le {A} (f g : A → Z) l : (∀ x, x ∈ l → f x ≤ g x) → sumZ (f <$> l) ≤ sumZ (g <$> l).
Proof.
  intros H. induction l as [|x l IH]; csimpl; [done|]. specialize (H x ltac:(left)) as Hx.
  specialize (IH ltac:(intros; apply H; by right)). lia.
Qed.

(** ** Shares *)

Notation rq_at s g i := (tg_rt_rq (tgs s g) i).
Definition runtime_at (s : sys) (g i : nat) : Z := rt_runtime (rtq s (rq_at s g i)).
Definition share_of (s : sys) (g : nat) : Z := tg_rt_runtime (tgs s g).

(** What a CPU has more than its share, counting those that are enabled. *)
Definition extra (v b : Z) : Z := if v =? RUNTIME_INF then 0 else v - b.
Definition total_extra (s : sys) (g : nat) : Z := sumZ ((λ i, extra (runtime_at s g i) (share_of s g)) <$> span (rd s)).

(** Distinct queues, and values in range: a period is less than 2^56 ns (two
    years), there are at most 32 CPUs. *)
Record bw_static (s : sys) : Prop := {
  bs_span : NoDup (span (rd s)) ∧ (length (span (rd s)) ≤ NR_CPUS)%nat;
  bs_inj : ∀ g i g' i', g ∈ task_groups s → g' ∈ task_groups s → i ∈ span (rd s) → i' ∈ span (rd s) →
    rq_at s g i = rq_at s g' i' → g = g' ∧ i = i';
  bs_range : ∀ g, g ∈ task_groups s → 0 ≤ share_of s g ≤ rt_period (tgs s g) ∧ rt_period (tgs s g) < 2 ^ 56;
  bs_group : ∀ g i, g ∈ task_groups s → i ∈ span (rd s) → rt_tg (rtq s (rq_at s g i)) = Some g
}.
Record bw_inv (s : sys) : Prop := {
  bw_st : bw_static s;
  bw_times : ∀ g i, g ∈ task_groups s → i ∈ span (rd s) →
    0 ≤ rt_time (rtq s (rq_at s g i)) < 2 ^ 63 ∧ (runtime_at s g i = RUNTIME_INF ∨ 0 ≤ runtime_at s g i);
  bw_total : ∀ g, g ∈ task_groups s → total_extra s g = 0
}.

(** No CPU has more than all the shares together. *)
Lemma runtime_bound s g i :
  bw_inv s → g ∈ task_groups s → i ∈ span (rd s) → runtime_at s g i ≠ RUNTIME_INF → 0 ≤ runtime_at s g i < 2 ^ 62.
Proof.
  intros [[[Hnd Hlen] _ Hr _] Ht Htot] Hg Hi Hne. specialize (Htot g Hg). destruct (Hr g Hg) as [Hb Hp].
  destruct (Ht g i Hg Hi) as [_ [?|Hpos]]; [done|]. split; [done|].
  set (b := share_of s g) in *. set (f := λ j, extra (runtime_at s g j) b).
  set (f' := λ j, if decide (j = i) then runtime_at s g i - b else - b).
  assert (sumZ (f' <$> span (rd s)) ≤ sumZ (f <$> span (rd s))) as Hle.
  { apply sum_le. intros j Hj. unfold f, f', extra. case_decide as E.
    - subst j. destruct (Z.eqb_spec (runtime_at s g i) RUNTIME_INF); [done|lia].
    - destruct (Z.eqb_spec (runtime_at s g j) RUNTIME_INF); [lia|]. destruct (Ht g j Hg Hj) as [_ [?|?]]; [done|lia]. }
  assert (sumZ (f' <$> span (rd s)) = sumZ ((λ _, - b) <$> span (rd s)) - - b + (runtime_at s g i - b)) as E.
  { rewrite (sum_change (λ _, - b) f' (span (rd s)) i Hnd Hi).
    - unfold f'. by rewrite decide_True.
    - intros j _ Hj. unfold f'. by rewrite decide_False. }
  assert (∀ l : list nat, sumZ ((λ _, - b) <$> l) = - b * Z.of_nat (length l)) as Hc.
  { induction l as [|x l IH]; csimpl; [lia|]. rewrite IH. lia. }
  rewrite Hc in E. change (total_extra s g) with (sumZ (f <$> span (rd s))) in Htot. unfold NR_CPUS in Hlen. nia.
Qed.

(** Changing the run time of one CPU. *)
Lemma runtime_at_set s g i v g' i' :
  bw_static s → g ∈ task_groups s → g' ∈ task_groups s → i ∈ span (rd s) → i' ∈ span (rd s) →
  runtime_at (set_runtime v (rq_at s g i) s) g' i' = if decide (g' = g ∧ i' = i) then v else runtime_at s g' i'.
Proof.
  intros Hs Hg Hg' Hi Hi'. unfold runtime_at, set_runtime. simpl. case_decide as E.
  - destruct E as [-> ->]. by rewrite fn_lookup_insert.
  - rewrite fn_lookup_insert_ne; [done|]. intros Er. apply E. by apply (bs_inj _ Hs).
Qed.

Lemma total_extra_set s g i v g' :
  bw_static s → g ∈ task_groups s → g' ∈ task_groups s → i ∈ span (rd s) →
  total_extra (set_runtime v (rq_at s g i) s) g' =
  if decide (g' = g) then total_extra s g - extra (runtime_at s g i) (share_of s g) + extra v (share_of s g) else total_extra s g'.
Proof.
  intros Hs Hg Hg' Hi. unfold total_extra. change (span (rd (set_runtime v (rq_at s g i) s))) with (span (rd s)).
  change (share_of (set_runtime v (rq_at s g i) s) g') with (share_of s g'). case_decide as E.
  - subst g'. pose proof (sum_change (λ j, extra (runtime_at s g j) (share_of s g))
      (λ j, extra (runtime_at (set_runtime v (rq_at s g i) s) g j) (share_of s g)) (span (rd s)) i (proj1 (bs_span _ Hs)) Hi) as H.
    rewrite H.
    + rewrite runtime_at_set by done. by rewrite decide_True.
    + intros j Hj Hne. rewrite runtime_at_set by done. rewrite decide_False; [done|naive_solver].
  - apply sum_ext. intros j Hj. rewrite runtime_at_set by done. rewrite decide_False; [done|naive_solver].
Qed.

Lemma bw_static_set s v r : bw_static s → bw_static (set_runtime v r s).
Proof.
  intros [H1 H2 H3 H4]. split; try done. intros g i Hg Hi. unfold set_runtime. simpl.
  destruct (decide (rq_at s g i = r)) as [E|E]; [rewrite E, fn_lookup_insert; simpl; rewrite <- E|rewrite fn_lookup_insert_ne by done]; by apply H4.
Qed.
Lemma set_runtime_time s v r r' : rt_time (rtq (set_runtime v r s) r') = rt_time (rtq s r').
Proof.
  unfold set_runtime. simpl. destruct (decide (r' = r)) as [->|]; [by rewrite fn_lookup_insert|by rewrite fn_lookup_insert_ne].
Qed.

Lemma extra_fin v b : v ≠ RUNTIME_INF → extra v b = v - b.
Proof. intros H. unfold extra. by destruct (Z.eqb_spec v RUNTIME_INF). Qed.

Lemma u64_small x : 0 ≤ x < 2 ^ 63 → u64 x = x ∧ x ≠ RUNTIME_INF.
Proof. intros Hx. split; [apply u64_id; lia|unfold RUNTIME_INF; lia]. Qed.

(** Moving [d] from CPU [i] to CPU [c]. *)
Lemma transfer_ok s g i c d :
  bw_inv s → g ∈ task_groups s → i ∈ span (rd s) → c ∈ span (rd s) → i ≠ c →
  runtime_at s g i ≠ RUNTIME_INF → runtime_at s g c ≠ RUNTIME_INF →
  0 ≤ runtime_at s g i - d < 2 ^ 63 → 0 ≤ runtime_at s g c + d < 2 ^ 63 →
  bw_inv (set_runtime (u64 (runtime_at s g c + d)) (rq_at s g c) (set_runtime (u64 (runtime_at s g i - d)) (rq_at s g i) s)).
Proof.
  intros HI Hg Hi Hc Hne Hfi Hfc Hi' Hc'. pose proof HI as [Hs Ht Htot].
  destruct (u64_small _ Hi') as [-> Ei]. destruct (u64_small _ Hc') as [-> Ec].
  set (s1 := set_runtime _ (rq_at s g i) s). assert (bw_static s1) as Hs1 by (by apply bw_static_set).
  split.
  - apply (bw_static_set _ _ _ Hs1).
  - intros g' i' Hg' Hi2. rewrite set_runtime_time. unfold s1. rewrite set_runtime_time. destruct (Ht g' i' Hg' Hi2) as [Htime Hrun].
    split; [done|]. change (rq_at s g c) with (rq_at s1 g c). rewrite (runtime_at_set s1) by done. case_decide as E; [right; lia|].
    unfold s1. rewrite runtime_at_set by done. case_decide; [right; lia|done].
  - intros g' Hg'. change (rq_at s g c) with (rq_at s1 g c). rewrite (total_extra_set s1) by done.
    assert (runtime_at s1 g c = runtime_at s g c) as Ecs by (unfold s1; rewrite runtime_at_set by done; by rewrite decide_False by naive_solver).
    assert (∀ k, k ∈ task_groups s → total_extra s1 k =
      if decide (k = g) then total_extra s g - extra (runtime_at s g i) (share_of s g) + extra (runtime_at s g i - d) (share_of s g)
      else total_extra s k) as Et by (intros k Hk; by apply total_extra_set).
    rewrite Ecs, !Et by done. change (share_of s1 g) with (share_of s g). specialize (Htot g' Hg').
    case_decide as E; [|done]. subst g'. rewrite decide_True by done. rewrite !extra_fin by done. lia.
Qed.

(** One CPU to borrow from: what [do_balance_runtime] moves. *)
Lemma balance_amount s g i c weight :
  bw_inv s → g ∈ task_groups s → i ∈ span (rd s) → c ∈ span (rd s) →
  runtime_at s g i ≠ RUNTIME_INF → runtime_at s g c ≠ RUNTIME_INF → 0 < weight →
  let diff := s64 (runtime_at s g i - rt_time (rtq s (rq_at s g i))) in
  let per := rt_period (tgs s g) in
  0 < diff →
  let d := if per <? u64 (runtime_at s g c + diff / weight) then s64 (per - runtime_at s g c) else diff / weight in
  0 ≤ runtime_at s g i - d < 2 ^ 63 ∧ 0 ≤ runtime_at s g c + d < 2 ^ 63.
Proof.
  intros HI Hg Hi Hc Hfi Hfc Hw diff per Hpos. pose proof (runtime_bound s g i HI Hg Hi Hfi) as Bi.
  pose proof (runtime_bound s g c HI Hg Hc Hfc) as Bc. destruct (bw_times _ HI g i Hg Hi) as [Btime _].
  destruct (bs_range _ (bw_st _ HI) g Hg) as [_ Bp]. destruct (bs_range _ (bw_st _ HI) g Hg) as [Bs _]. fold per in Bp, Bs.
  assert (diff = runtime_at s g i - rt_time (rtq s (rq_at s g i))) as Ed.
  { unfold diff, s64. apply wrap_s_id; [|lia]. change (64 - 1) with 63. lia. }
  assert (0 ≤ diff / weight ≤ diff) as Hq.
  { split; [apply Z.div_pos; lia|]. apply Z.div_le_upper_bound; [lia|]. nia. }
  rewrite (proj1 (u64_small (runtime_at s g c + diff / weight) ltac:(lia))).
  destruct (Z.ltb_spec per (runtime_at s g c + diff / weight)) as [Hlt|Hge].
  - assert (s64 (per - runtime_at s g c) = per - runtime_at s g c) as ->; [|lia].
    unfold s64. apply wrap_s_id; [|lia]. change (64 - 1) with 63. lia.
  - lia.
Qed.

Lemma balance_cpus_ok g c weight cpus : ∀ more s,
  bw_inv s → g ∈ task_groups s → c ∈ span (rd s) → (∀ i, i ∈ cpus → i ∈ span (rd s)) → 0 < weight →
  runtime_at s g c ≠ RUNTIME_INF →
  let s' := (balance_cpus (rq_at s g c) g weight cpus more s).2 in
  bw_inv s' ∧ bugs s' = bugs s ∧ tgs s' = tgs s ∧ runtime_at s' g c ≠ RUNTIME_INF.
Proof.
  induction cpus as [|i cpus IH]; intros more s HI Hg Hc Hsub Hw Hf; [done|]. cbn [balance_cpus]. unfold sched_rt_period_rt_rq.
  assert (i ∈ span (rd s)) as Hi by (apply Hsub; left). assert (∀ j, j ∈ cpus → j ∈ span (rd s)) as Hsub' by (intros; apply Hsub; by right).
  case_decide as Ei; [by apply IH|].
  destruct (Z.eqb_spec (rt_runtime (rtq s (rq_at s g i))) RUNTIME_INF) as [Einf|Einf]; [by apply IH|].
  set (diff := s64 _). destruct (Z.ltb_spec 0 diff) as [Hpos|]; [|by apply IH].
  pose proof (balance_amount s g i c weight HI Hg Hi Hc Einf Hf Hw Hpos) as Hd. cbv zeta in Hd.
  set (d := if _ <? _ then _ else _) in *. fold (runtime_at s g i). fold (runtime_at s g c).
  set (s1 := set_runtime _ (rq_at s g i) s).
  assert (rt_runtime (rtq s1 (rq_at s g c)) = runtime_at s g c) as Ec.
  { unfold s1, set_runtime. simpl. by rewrite fn_lookup_insert_ne. }
  change (rt_period (tgs s1 g)) with (rt_period (tgs s g)). rewrite Ec. set (s2 := set_runtime _ (rq_at s g c) s1).
  assert (bw_inv s2) as HI2 by (apply transfer_ok; [done|done|done|done|by intros ->|done|done|apply Hd|apply Hd]).
  assert (runtime_at s2 g c ≠ RUNTIME_INF) as Hf2.
  { unfold runtime_at, s2, set_runtime. simpl. rewrite fn_lookup_insert. simpl. destruct (u64_small _ (proj2 Hd)) as [-> ?]. done. }
  destruct (_ =? _); [done|]. exact (IH true s2 HI2 Hg Hc Hsub' Hw Hf2).
Qed.

Lemma balance_runtime_ok s g c :
  bw_inv s → g ∈ task_groups s → c ∈ span (rd s) →
  let s' := balance_runtime (rq_at s g c) s in bw_inv s' ∧ bugs s' = bugs s ∧ tgs s' = tgs s.
Proof.
  intros HI Hg Hc. unfold balance_runtime. destruct (Z.ltb_spec (rt_runtime (rtq s (rq_at s g c))) (rt_time (rtq s (rq_at s g c)))) as [Hlt|]; [|done].
  unfold do_balance_runtime. rewrite (bs_group _ (bw_st _ HI)) by done. destruct (bw_times _ HI g c Hg Hc) as [Ht _].
  assert (0 < Z.of_nat (length (span (rd s)))) as Hw.
  { destruct (span (rd s)); [by apply not_elem_of_nil in Hc|simpl; lia]. }
  pose proof (balance_cpus_ok g c _ (span (rd s)) false s HI Hg Hc ltac:(done) Hw) as H.
  destruct H as (? & ? & ? & ?); [unfold runtime_at, RUNTIME_INF; lia|done].
Qed.

(** ** Reclaiming *)

Definition others_extra (s : sys) (g c : nat) : Z :=
  sumZ ((λ i, if decide (i = c) then 0 else extra (runtime_at s g i) (share_of s g)) <$> span (rd s)).

Lemma total_others s g c :
  NoDup (span (rd s)) → c ∈ span (rd s) → total_extra s g = others_extra s g c + extra (runtime_at s g c) (share_of s g).
Proof.
  intros Hnd Hc. unfold total_extra, others_extra.
  rewrite (sum_change (λ i, if decide (i = c) then 0 else extra (runtime_at s g i) (share_of s g))
    (λ i, extra (runtime_at s g i) (share_of s g)) (span (rd s)) c Hnd Hc).
  - rewrite decide_True by done. lia.
  - intros j _ Hj. by rewrite decide_False.
Qed.

Lemma others_extra_set s g c i v :
  bw_static s → g ∈ task_groups s → i ∈ span (rd s) → i ≠ c →
  others_extra (set_runtime v (rq_at s g i) s) g c = others_extra s g c - extra (runtime_at s g i) (share_of s g) + extra v (share_of s g).
Proof.
  intros Hs Hg Hi Hne. unfold others_extra. change (span (rd (set_runtime v (rq_at s g i) s))) with (span (rd s)).
  change (share_of (set_runtime v (rq_at s g i) s) g) with (share_of s g).
  rewrite (sum_change (λ j, if decide (j = c) then 0 else extra (runtime_at s g j) (share_of s g)) _ (span (rd s)) i (proj1 (bs_span _ Hs)) Hi).
  - rewrite !decide_False by done. rewrite runtime_at_set by done. by rewrite decide_True.
  - intros j Hj Hji. destruct (decide (j = c)); [done|]. rewrite runtime_at_set by done. rewrite decide_False; [done|naive_solver].
Qed.

(** While CPU [c] of group [g] takes back [want]. *)
Record reclaiming (s0 s : sys) (g c : nat) (want : Z) : Prop := {
  rc_static : bw_static s;
  rc_same : tgs s = tgs s0 ∧ task_groups s = task_groups s0 ∧ span (rd s) = span (rd s0) ∧ bugs s = bugs s0;
  rc_others : ∀ g' i, g' ∈ task_groups s → i ∈ span (rd s) → ¬ (g' = g ∧ i ≠ c) → runtime_at s g' i = runtime_at s0 g' i;
  rc_time : ∀ r, rt_time (rtq s r) = rt_time (rtq s0 r);
  rc_range : ∀ i, i ∈ span (rd s) → i ≠ c → runtime_at s g i = RUNTIME_INF ∨ 0 ≤ runtime_at s g i < 2 ^ 62 + (if want =? 0 then 2 ^ 62 else 0);
  rc_want : others_extra s g c = want ∧ - 2 ^ 62 < want < 2 ^ 62
}.

Lemma reclaim_step s0 s g c want i d :
  reclaiming s0 s g c want → g ∈ task_groups s → i ∈ span (rd s) → i ≠ c → runtime_at s g i ≠ RUNTIME_INF →
  0 ≤ runtime_at s g i - d < 2 ^ 62 + (if want - d =? 0 then 2 ^ 62 else 0) → - 2 ^ 62 < want - d < 2 ^ 62 → want ≠ 0 →
  reclaiming s0 (set_runtime (runtime_at s g i - d) (rq_at s g i) s) g c (want - d).
Proof.
  intros [Hs Hsame Ho Ht Hr [Hw Hb]] Hg Hi Hne Hf Hd Hw' Hnz. split.
  - by apply bw_static_set.
  - done.
  - intros g' j Hg' Hj Hn. rewrite runtime_at_set by done. rewrite decide_False; [by apply Ho|]. intros [-> ->]. apply Hn. done.
  - intros r. by rewrite set_runtime_time.
  - intros j Hj Hjc. rewrite runtime_at_set by done. case_decide; [by right|].
    destruct (Hr j Hj Hjc) as [|Hrj]; [by left|right]. destruct (Z.eqb_spec want 0); [done|]. destruct (want - d =? 0); lia.
  - rewrite others_extra_set by done. rewrite Hw. split; [|done]. rewrite !extra_fin; [lia| |done].
    destruct (want - d =? 0); unfold RUNTIME_INF; lia.
Qed.

(** With nothing left to take from, nothing is wanted. *)
Lemma reclaim_done s0 s g c want :
  reclaiming s0 s g c want → g ∈ task_groups s → 
  (0 < want → ∀ i, i ∈ span (rd s) → i ≠ c → runtime_at s g i = RUNTIME_INF ∨ runtime_at s g i = 0) →
  (want < 0 → ∀ i, i ∈ span (rd s) → i ≠ c → runtime_at s g i = RUNTIME_INF) → want = 0.
Proof.
  intros [Hs _ _ _ _ [Hw _]] Hg Hpos Hneg. destruct (bs_range _ Hs g Hg) as [Hb _]. unfold others_extra in Hw.
  set (f := λ i, if decide (i = c) then 0 else extra (runtime_at s g i) (share_of s g)) in Hw.
  assert (∀ l : list nat, sumZ ((λ _, 0) <$> l) = 0) as Hz by (induction l; csimpl; lia).
  destruct (Z.lt_trichotomy want 0) as [Hlt|[?|Hgt]]; [|done|].
  - rewrite (sum_ext f (λ _, 0)), Hz in Hw; [lia|]. intros i Hi. unfold f. case_decide; [done|].
    rewrite (Hneg Hlt i Hi) by done. done.
  - assert (sumZ (f <$> span (rd s)) ≤ sumZ ((λ _, 0) <$> span (rd s))) as Hle; [|rewrite Hz in Hle; lia].
    apply sum_le. intros i Hi. unfold f. case_decide; [lia|]. unfold extra.
    destruct (Hpos Hgt i Hi) as [->| ->]; [done|done|]. destruct (Z.eqb_spec 0 RUNTIME_INF); lia.
Qed.

Lemma reclaim_ok s0 g c cpus : ∀ want s,
  reclaiming s0 s g c want → g ∈ task_groups s → c ∈ span (rd s) → want ≠ 0 → (∀ i, i ∈ cpus → i ∈ span (rd s)) →
  (0 < want → ∀ i, i ∈ span (rd s) → i ∉ cpus → i ≠ c → runtime_at s g i = RUNTIME_INF ∨ runtime_at s g i = 0) →
  (want < 0 → ∀ i, i ∈ span (rd s) → i ∉ cpus → i ≠ c → runtime_at s g i = RUNTIME_INF) →
  let '(want', s') := reclaim (rq_at s g c) g cpus want s in want' = 0 ∧ reclaiming s0 s' g c 0.
Proof.
  induction cpus as [|i cpus IH]; intros want s HR Hg Hc Hnz Hsub Hpos Hneg; cbn [reclaim].
  { destruct Hnz. eapply reclaim_done; [done|done| |]; intros H i Hi; [apply Hpos|apply Hneg]; done || apply not_elem_of_nil. }
  unfold sched_rt_period_rt_rq. pose proof HR as [Hs _ _ _ Hr [Hw Hb]].
  assert (i ∈ span (rd s)) as Hi by (apply Hsub; left). assert (∀ j, j ∈ cpus → j ∈ span (rd s)) as Hsub' by (intros; apply Hsub; by right).
  destruct (decide (i = c)) as [->|Hne].
  { rewrite bool_decide_eq_true_2 by done. simpl. apply IH; try done.
    - intros H j Hj Hn Hjc. apply Hpos; try done. by intros [->|]%elem_of_cons.
    - intros H j Hj Hn Hjc. apply Hneg; try done. by intros [->|]%elem_of_cons. }
  rewrite bool_decide_eq_false_2.
  2:{ intros E. apply Hne. by apply (bs_inj _ Hs g i g c). }
  simpl. fold (runtime_at s g i). destruct (Z.eqb_spec (runtime_at s g i) RUNTIME_INF) as [Einf|Efin].
  { apply IH; try done.
    - intros H j Hj Hn Hjc. destruct (decide (j = i)) as [->|]; [by left|]. apply Hpos; try done. by intros [?|?]%elem_of_cons.
    - intros H j Hj Hn Hjc. destruct (decide (j = i)) as [->|]; [done|]. apply Hneg; try done. by intros [?|?]%elem_of_cons. }
  destruct (Hr i Hi Hne) as [|Hri]; [done|]. replace (want =? 0) with false in Hri by lia.
  assert (s64 (runtime_at s g i) = runtime_at s g i) as E1 by (unfold s64; apply wrap_s_id; [change (64 - 1) with 63; lia|lia]).
  rewrite E1. set (d := if 0 <? want then Z.min (runtime_at s g i) want else want).
  assert ((0 < want ∧ d = Z.min (runtime_at s g i) want) ∨ (want < 0 ∧ d = want)) as Hd by (unfold d; destruct (Z.ltb_spec 0 want); lia).
  assert (u64 (runtime_at s g i - d) = runtime_at s g i - d) as -> by (apply u64_id; lia).
  assert (s64 (want - d) = want - d) as -> by (unfold s64; apply wrap_s_id; [change (64 - 1) with 63; lia|lia]).
  assert (reclaiming s0 (set_runtime (runtime_at s g i - d) (rq_at s g i) s) g c (want - d)) as HR'.
  { apply reclaim_step; try done; [|lia]. destruct (Z.eqb_spec (want - d) 0); lia. }
  destruct (Z.eqb_spec (want - d) 0) as [E0|E0]; [split; [done|by rewrite <- E0]|].
  change (rq_at s g c) with (rq_at (set_runtime (runtime_at s g i - d) (rq_at s g i) s) g c).
  apply (IH (want - d) _ HR'); try done.
  - intros _ j Hj Hn Hjc. rewrite runtime_at_set by done. case_decide as E; [right; lia|].
    apply Hpos; [lia|done| |done]. intros [->|?]%elem_of_cons; [by apply E|done].
  - intros H. lia.
Qed.

(** Giving CPU [c] a run time that is no more and no less than its share. *)
Lemma bw_inv_set_own s g c v :
  bw_inv s → g ∈ task_groups s → c ∈ span (rd s) → extra (runtime_at s g c) (share_of s g) = 0 →
  extra v (share_of s g) = 0 → v = RUNTIME_INF ∨ 0 ≤ v → bw_inv (set_runtime v (rq_at s g c) s).
Proof.
  intros [Hs Ht Htot] Hg Hc Hown Hv Hrange. split.
  - by apply bw_static_set.
  - intros g' i Hg' Hi. rewrite set_runtime_time. destruct (Ht g' i Hg' Hi). split; [done|]. rewrite runtime_at_set by done. by case_decide.
  - intros g' Hg'. rewrite total_extra_set by done. specialize (Htot g' Hg'). case_decide as E; [subst; lia|done].
Qed.

Lemma disable_group_ok s g c :
  bw_inv s → g ∈ task_groups s → c ∈ span (rd s) →
  let s' := disable_group c s g in
  bw_inv s' ∧ bugs s' = bugs s ∧ task_groups s' = task_groups s ∧ span (rd s') = span (rd s).
Proof.
  intros HI Hg Hc. unfold disable_group. fold (runtime_at s g c). fold (share_of s g).
  destruct (Z.eqb_spec (runtime_at s g c) RUNTIME_INF) as [E1|E1]; simpl.
  { split_and!; try done. apply bw_inv_set_own; try done; [by rewrite E1|by left]. }
  destruct (Z.eqb_spec (runtime_at s g c) (share_of s g)) as [E2|E2]; simpl.
  { split_and!; try done. apply bw_inv_set_own; try done; [rewrite extra_fin by done; lia|by left]. }
  pose proof (runtime_bound s g c HI Hg Hc E1) as Bc. pose proof HI as [Hs Ht Htot]. destruct (bs_range _ Hs g Hg) as [Hb Hp].
  destruct (bs_span _ Hs) as [Hnd _]. pose proof (total_others s g c Hnd Hc) as Hto. rewrite (Htot g Hg), extra_fin in Hto by done.
  assert (s64 (share_of s g - runtime_at s g c) = share_of s g - runtime_at s g c) as ->
    by (unfold s64; apply wrap_s_id; [change (64 - 1) with 63; lia|lia]).
  assert (reclaiming s s g c (share_of s g - runtime_at s g c)) as HR.
  { split; try done; [|lia]. intros i Hi Hne. destruct (decide (runtime_at s g i = RUNTIME_INF)); [by left|right].
    pose proof (runtime_bound s g i HI Hg Hi ltac:(done)). destruct (_ =? 0); lia. }
  pose proof (reclaim_ok s g c (span (rd s)) _ s HR Hg Hc ltac:(lia) ltac:(done) ltac:(done) ltac:(done)) as H.
  destruct (reclaim _ _ _ _ _) as [want s1]. destruct H as [-> [Hs1 (T1 & T2 & T3 & T4) Ho1 Ht1 Hr1 [Hw1 _]]]. change (negb (0 =? 0)) with false.
  assert (BUG_ON false s1 = s1) as -> by (destruct s1; unfold BUG_ON; simpl; by rewrite orb_false_r).
  assert (rq_at s g c = rq_at s1 g c) as -> by (by rewrite T1).
  assert (g ∈ task_groups s1 ∧ c ∈ span (rd s1)) as [Hg1 Hc1] by (by rewrite T2, T3).
  split_and!; [|exact T4|exact T2|exact T3]. split.
  - by apply bw_static_set.
  - intros g' i Hg' Hi. rewrite set_runtime_time, Ht1. change (tgs (set_runtime RUNTIME_INF (rq_at s1 g c) s1)) with (tgs s1).
    simpl in Hg', Hi. assert (rq_at s1 g' i = rq_at s g' i) as -> by (by rewrite T1). destruct (Ht g' i ltac:(congruence) ltac:(congruence)) as [Htime Hrun]. split; [done|].
    rewrite runtime_at_set by done. case_decide as E; [by left|]. destruct (decide (g' = g ∧ i ≠ c)) as [[-> Hic]|Hn].
    + destruct (Hr1 i Hi Hic) as [|?]; [by left|right; lia].
    + by rewrite Ho1.
  - intros g' Hg'. simpl in Hg'. rewrite total_extra_set by done. case_decide as E.
    + subst g'. rewrite (total_others s1 g c), Hw1 by (rewrite ?T3; done). assert (extra RUNTIME_INF (share_of s1 g) = 0) as -> by done. lia.
    + rewrite <- (Htot g' ltac:(congruence)). unfold total_extra, share_of. rewrite T1, T3. apply sum_ext. intros i Hi.
      rewrite Ho1; [done|done|congruence|]. by intros [-> _].
Qed.

Lemma extra_zero v b : v = RUNTIME_INF ∨ v = b → extra v b = 0.
Proof. unfold extra. intros [->| ->]; [done|]. destruct (_ =? _); lia. Qed.

(** Enabling sets the run time of one queue to the share. *)
Lemma enable_group_rq s g c r :
  rt_runtime (rtq (enable_group c s g) r) = rt_runtime (rtq (set_runtime (share_of s g) (rq_at s g c) s) r) ∧
  rt_tg (rtq (enable_group c s g) r) = rt_tg (rtq s r) ∧
  (rt_time (rtq (enable_group c s g) r) = rt_time (rtq s r) ∨ rt_time (rtq (enable_group c s g) r) = 0).
Proof.
  unfold enable_group, set_runtime. simpl. destruct (decide (r = rq_at s g c)) as [->|].
  - rewrite !fn_lookup_insert. simpl. auto.
  - rewrite !fn_lookup_insert_ne by done. auto.
Qed.

Lemma enable_group_static s g c : bw_static s → bw_static (enable_group c s g).
Proof.
  intros [H1 H2 H3 H4]. split; try done. intros g' i Hg' Hi.
  change (rq_at (enable_group c s g) g' i) with (rq_at s g' i).
  rewrite (proj1 (proj2 (enable_group_rq s g c _))). by apply H4.
Qed.

Lemma enable_group_other s g c g' i :
  bw_static s → g ∈ task_groups s → c ∈ span (rd s) → g' ∈ task_groups s → i ∈ span (rd s) → g' ≠ g →
  runtime_at (enable_group c s g) g' i = runtime_at s g' i.
Proof.
  intros Hs Hg Hc Hg' Hi Hne. unfold runtime_at, enable_group. simpl.
  rewrite fn_lookup_insert_ne; [done|]. intros E. by apply (bs_inj _ Hs) in E as [-> _].
Qed.

Lemma enable_group_total s g c g' :
  bw_static s → g ∈ task_groups s → c ∈ span (rd s) → g' ∈ task_groups s →
  total_extra (enable_group c s g) g' =
  if decide (g' = g) then total_extra s g - extra (runtime_at s g c) (share_of s g) else total_extra s g'.
Proof.
  intros Hs Hg Hc Hg'. transitivity (total_extra (set_runtime (share_of s g) (rq_at s g c) s) g').
  - apply sum_ext. intros i Hi. unfold runtime_at. change (rq_at (enable_group c s g) g' i) with (rq_at s g' i).
    by rewrite (proj1 (enable_group_rq s g c _)).
  - rewrite total_extra_set by done. by rewrite (extra_zero (share_of s g)), Z.add_0_r by auto.
Qed.

Lemma enable_group_ok s g c :
  bw_inv s → g ∈ task_groups s → c ∈ span (rd s) → extra (runtime_at s g c) (share_of s g) = 0 → bw_inv (enable_group c s g).
Proof.
  intros HI Hg Hc Hown. pose proof HI as [Hs Ht Htot]. destruct (bs_range _ Hs g Hg) as [Hb _]. split.
  - by apply enable_group_static.
  - intros g' i Hg' Hi. destruct (enable_group_rq s g c (rq_at s g' i)) as (E1 & _ & E2).
    destruct (Ht g' i Hg' Hi) as [Htime Hrun]. pose proof (runtime_at_set s g c (share_of s g) g' i Hs Hg Hg' Hc Hi) as Er.
    unfold runtime_at in *. change (rq_at (set_runtime (share_of s g) (rq_at s g c) s) g' i) with (rq_at s g' i) in Er.
    change (rq_at (enable_group c s g) g' i) with (rq_at s g' i). rewrite E1, Er.
    split; [destruct E2 as [->| ->]; [done|lia]|case_decide; [right; lia|done]].
  - intros g' Hg'. rewrite enable_group_total by done. specialize (Htot g' Hg'). case_decide; [subst; lia|done].
Qed.

Lemma disable_runtime_ok s c :
  bw_inv s → c ∈ span (rd s) →
  let s' := __disable_runtime c s in
  bw_inv s' ∧ bugs s' = bugs s ∧ task_groups s' = task_groups s ∧ span (rd s') = span (rd s).
Proof.
  intros HI Hc. unfold __disable_runtime. destruct (negb _); [done|].
  assert (∀ l s, bw_inv s → c ∈ span (rd s) → (∀ g, g ∈ l → g ∈ task_groups s) →
    let s' := foldl (disable_group c) s l in
    bw_inv s' ∧ bugs s' = bugs s ∧ task_groups s' = task_groups s ∧ span (rd s') = span (rd s)) as H; [|by apply H].
  clear. induction l as [|g l IH]; intros s HI Hc Hl; [done|]. simpl.
  destruct (disable_group_ok s g c HI (Hl g ltac:(left)) Hc) as (H1 & H2 & H3 & H4).
  destruct (IH (disable_group c s g) H1) as (K1 & K2 & K3 & K4).
  - by rewrite H4.
  - intros g' Hg'. rewrite H3. apply Hl. by right.
  - split_and!; [done|congruence..].
Qed.

Lemma enable_runtime_ok s c :
  bw_inv s → c ∈ span (rd s) → NoDup (task_groups s) →
  (∀ g, g ∈ task_groups s → runtime_at s g c = RUNTIME_INF ∨ runtime_at s g c = share_of s g) →
  bw_inv (__enable_runtime c s) ∧ bugs (__enable_runtime c s) = bugs s.
Proof.
  intros HI Hc Hnd Hinf. unfold __enable_runtime. destruct (negb _); [done|].
  assert (∀ l s, bw_inv s → c ∈ span (rd s) → NoDup l →
    (∀ g, g ∈ l → g ∈ task_groups s ∧ (runtime_at s g c = RUNTIME_INF ∨ runtime_at s g c = share_of s g)) →
    bw_inv (foldl (enable_group c) s l) ∧ bugs (foldl (enable_group c) s l) = bugs s) as H; [|apply H; auto].
  clear. induction l as [|g l IH]; intros s HI Hc Hnd Hl; [done|]. simpl. inversion Hnd as [|? ? Hg Hnd']; subst.
  destruct (Hl g ltac:(left)) as [Hin Hinf]. destruct (IH (enable_group c s g)) as [K1 K2]; [| | | |done].
  - apply enable_group_ok; [done|done|done|]. by apply extra_zero.
  - done.
  - done.
  - intros g' Hg'. destruct (Hl g' ltac:(by right)) as [Hin' Hinf']. split; [done|].
    rewrite enable_group_other; [done|apply HI|done..|]. by intros ->.
Qed.

(** What enabling a CPU does to the total of each group, whatever run time it
    had. *)
Lemma enable_runtime_total s c g :
  bw_static s → NoDup (task_groups s) → c ∈ span (rd s) → g ∈ task_groups s → scheduler_running s = true →
  total_extra (__enable_runtime c s) g = total_extra s g - extra (runtime_at s g c) (share_of s g).
Proof.
  intros Hs Hnd Hc Hg Hrun. unfold __enable_runtime. rewrite Hrun. simpl.
  assert (∀ l s, bw_static s → NoDup l → (∀ g, g ∈ l → g ∈ task_groups s) → g ∈ task_groups s → c ∈ span (rd s) →
    total_extra (foldl (enable_group c) s l) g =
      if decide (g ∈ l) then total_extra s g - extra (runtime_at s g c) (share_of s g) else total_extra s g) as H.
  2:{ rewrite H by done. by rewrite decide_True. }
  clear. induction l as [|k l IH]; intros s Hs Hnd Hl Hg Hc; cbn [foldl].
  { rewrite decide_False; [done|apply not_elem_of_nil]. }
  inversion Hnd as [|? ? Hk Hnd']; subst. assert (k ∈ task_groups s) as Hkg by (apply Hl; left).
  rewrite (IH (enable_group c s k) (enable_group_static s k c Hs) Hnd' ltac:(intros; apply Hl; by right) Hg Hc).
  rewrite enable_group_total by done. change (share_of (enable_group c s k) g) with (share_of s g).
  destruct (decide (g = k)) as [->|Hne].
  - rewrite (decide_False (P := k ∈ l)), (decide_True (P := k ∈ k :: l)); [done|left|done].
  - rewrite enable_group_other by done. apply decide_ext. rewrite elem_of_cons. naive_solver.
Qed.

(** ** Any sequence of events *)

(** The events that touch the run times of a group: borrowing, a CPU going
    offline, a CPU being enabled that is disabled or has its share (as when it
    is enabled twice in a row), and time being used or granted. *)
Inductive bw_step (s : sys) : sys → Prop :=
| bw_balance g c : g ∈ task_groups s → c ∈ span (rd s) → bw_step s (balance_runtime (rq_at s g c) s)
| bw_offline c : c ∈ span (rd s) → bw_step s (__disable_runtime c s)
| bw_online c :
    c ∈ span (rd s) → (∀ g, g ∈ task_groups s → runtime_at s g c = RUNTIME_INF ∨ runtime_at s g c = share_of s g) →
    bw_step s (__enable_runtime c s)
| bw_time r t : 0 ≤ t < 2 ^ 63 → bw_step s (set_time t r s).

Lemma set_time_bw s r t : bw_inv s → 0 ≤ t < 2 ^ 63 → bw_inv (set_time t r s).
Proof.
  intros [Hs Ht Htot] Htt.
  assert (∀ r', rt_runtime (rtq (set_time t r s) r') = rt_runtime (rtq s r') ∧ rt_tg (rtq (set_time t r s) r') = rt_tg (rtq s r') ∧
    (rt_time (rtq (set_time t r s) r') = rt_time (rtq s r') ∨ rt_time (rtq (set_time t r s) r') = t)) as Hr.
  { intros r'. unfold set_time. simpl. destruct (decide (r' = r)) as [->|].
    - rewrite !fn_lookup_insert. simpl. auto.
    - rewrite !fn_lookup_insert_ne by done. auto. }
  split.
  - destruct Hs as [? ? ? H4]. split; try done. intros g i Hg Hi. change (rq_at (set_time t r s) g i) with (rq_at s g i).
    rewrite (proj1 (proj2 (Hr _))). by apply H4.
  - intros g i Hg Hi. unfold runtime_at. change (rq_at (set_time t r s) g i) with (rq_at s g i).
    destruct (Hr (rq_at s g i)) as (-> & _ & E). destruct (Ht g i Hg Hi). split; [|done]. destruct E as [->| ->]; done.
  - intros g Hg. rewrite <- (Htot g Hg). apply sum_ext. intros i Hi. unfold runtime_at.
    change (rq_at (set_time t r s) g i) with (rq_at s g i). by rewrite (proj1 (Hr _)).
Qed.

Lemma balance_groups r s : task_groups (balance_runtime r s) = task_groups s ∧ span (rd (balance_runtime r s)) = span (rd s).
Proof.
  unfold balance_runtime. destruct (_ <? _); [|done]. unfold do_balance_runtime. destruct (rt_tg _) as [g|]; [|done].
  assert (∀ w l m s, task_groups (balance_cpus r g w l m s).2 = task_groups s ∧ span (rd (balance_cpus r g w l m s).2) = span (rd s)) as H; [|by apply H].
  clear. intros w l. induction l as [|i l IH]; intros m s; [done|]. cbn [balance_cpus].
  case_decide; [apply IH|]. destruct (_ =? RUNTIME_INF); [apply IH|]. destruct (0 <? _); [|apply IH].
  destruct (_ =? _); [done|]. match goal with |- context [balance_cpus _ _ _ _ true ?t] => destruct (IH true t) as [-> ->] end. done.
Qed.

Lemma bw_step_ok s s' :
  bw_inv s → NoDup (task_groups s) → bw_step s s' →
  bw_inv s' ∧ bugs s' = bugs s ∧ task_groups s' = task_groups s ∧ span (rd s') = span (rd s).
Proof.
  intros HI Hnd Hs. destruct Hs as [g c Hg Hc|c Hc|c Hc Hinf|r t Ht].
  - destruct (balance_runtime_ok s g c HI Hg Hc) as (? & ? & _). destruct (balance_groups (rq_at s g c) s). done.
  - by apply disable_runtime_ok.
  - destruct (enable_runtime_ok s c HI Hc Hnd Hinf) as [? ?]. split_and!; [done|done| |].
    + unfold __enable_runtime. destruct (negb _); [done|]. generalize (task_groups s) at 1 as l. intros l. clear.
      revert s. induction l as [|g l IH]; intros s; simpl; [done|]. by rewrite IH.
    + unfold __enable_runtime. destruct (negb _); [done|]. generalize (task_groups s) as l. intros l. clear.
      revert s. induction l as [|g l IH]; intros s; simpl; [done|]. by rewrite IH.
  - split_and!; [by apply set_time_bw|done..].
Qed.

Definition enabled_cpus (s : sys) (g : nat) : list nat := filter (λ i, runtime_at s g i ≠ RUNTIME_INF) (span (rd s)).

Lemma total_enabled s g :
  sumZ (runtime_at s g <$> enabled_cpus s g) = share_of s g * Z.of_nat (length (enabled_cpus s g)) + total_extra s g.
Proof.
  unfold total_extra, enabled_cpus.
  assert (∀ l, sumZ ((λ i, extra (runtime_at s g i) (share_of s g)) <$> l) =
    sumZ (runtime_at s g <$> filter (λ i, runtime_at s g i ≠ RUNTIME_INF) l)
    - share_of s g * Z.of_nat (length (filter (λ i, runtime_at s g i ≠ RUNTIME_INF) l))) as ->; [|lia].
  induction l as [|i l IH]; [simpl; lia|]. csimpl. rewrite IH. unfold extra. destruct (Z.eqb_spec (runtime_at s g i) RUNTIME_INF) as [E|E].
  - rewrite filter_cons_False by tauto. lia.
  - rewrite filter_cons_True by done. csimpl. lia.
Qed.

(** C29: whatever the order in which queues borrow run time, CPUs go offline and
    are enabled, and time is used up and granted, as long as a CPU that is
    enabled was disabled or has exactly its share: the CPUs of a group that are
    enabled have together exactly their shares, none of them has a negative run
    time, and the assertion that a CPU going offline is not left wanting does not
    fail.  Enabling then an enabled CPU that has another run time than its share
    changes the total by the difference. *)
Theorem rt_bandwidth_conserved s s' :
  bw_inv s → NoDup (task_groups s) → rtc bw_step s s' →
  bugs s' = bugs s ∧
  ∀ g, g ∈ task_groups s →
    sumZ (runtime_at s' g <$> enabled_cpus s' g) = share_of s' g * Z.of_nat (length (enabled_cpus s' g)) ∧
    Forall (λ i, 0 ≤ runtime_at s' g i) (enabled_cpus s' g) ∧
    ∀ c, c ∈ enabled_cpus s' g → scheduler_running s' = true →
      let s2 := __enable_runtime c s' in
      sumZ (runtime_at s2 g <$> enabled_cpus s2 g) =
        share_of s2 g * Z.of_nat (length (enabled_cpus s2 g)) + (share_of s' g - runtime_at s' g c).
Proof.
  intros HI Hnd Hsteps. assert (bw_inv s' ∧ bugs s' = bugs s ∧ task_groups s' = task_groups s) as (HI' & Hb & Hg').
  { induction Hsteps as [s|s t u Hst _ IH]; [done|]. destruct (bw_step_ok s t HI Hnd Hst) as (H1 & H2 & H3 & _).
    destruct IH as (? & ? & ?); [done|by rewrite H3|]. split_and!; [done|congruence..]. }
  split; [done|]. intros g Hg. rewrite <- Hg' in Hg, Hnd. pose proof (bw_total _ HI' g Hg) as Htot. split_and!.
  - rewrite total_enabled, Htot. lia.
  - apply Forall_forall. intros i [Hne Hi]%list_elem_of_filter. by destruct (bw_times _ HI' g i Hg Hi) as [_ [?|?]].
  - intros c [Hne Hc]%list_elem_of_filter Hrun s2. rewrite total_enabled. unfold s2.
    rewrite enable_runtime_total, extra_fin by (done || apply HI'). lia.
Qed.

(** Two CPUs of one group with a run time of 950 in every 1000. *)
Definition two_cpus : sys :=
  mk_sys (λ _, mk_se None 0 100 2 None 0 None)
    (λ _, mk_task 120 120 0 false false {[0%nat; 1%nat]} 0 0 false 0 0 false (2 ^ 32 - 1) (2 ^ 32 - 1) 0)
    (λ r, init_rt_rq r (Some 0%nat) 950)
    (λ c, mk_rq 0 0 c true 0 false 0 [])
    (λ _, mk_tg (λ _, None) (λ c, c) 1000 950) [0%nat] (mk_rd [0; 1]%nat ∅ 0 cpupri_init) (λ _, false)
    true true 0 2 false.

Lemma two_cpus_inv : bw_inv two_cpus.
Proof.
  split.
  - split.
    + split; [|simpl; unfold NR_CPUS; lia]. apply NoDup_cons. split; [|apply NoDup_singleton].
      intros ?%list_elem_of_singleton. done.
    + intros g i g' i' ->%list_elem_of_singleton ->%list_elem_of_singleton _ _ E. by simpl in E.
    + intros g _. unfold share_of. simpl. lia.
    + intros g i ->%list_elem_of_singleton _. done.
  - intros g i _ _. unfold runtime_at. simpl. lia.
  - intros g _. done.
Qed.

(** CPU 0 overruns and borrows 50 from CPU 1, up to its period; it goes offline
    and gives them back.  If it is enabled a second time instead, the 50 are
    gone, and when both CPUs then go offline the assertion fails. *)
Lemma rt_bandwidth_conserved_witness :
  let s := balance_runtime 0 (set_time 980 0 two_cpus) in
  let s' := __disable_runtime 0 s in
  let s2 := __enable_runtime 0 s in
  runtime_at s 0 0 = 1000 ∧ runtime_at s 0 1 = 900 ∧
  bugs s' = false ∧ sumZ (runtime_at s' 0 <$> enabled_cpus s' 0) = 950 ∧
  sumZ (runtime_at s2 0 <$> enabled_cpus s2 0) = 2 * 950 - 50 ∧
  bugs (__disable_runtime 1 (__disable_runtime 0 s2)) = true.
Proof.
  intros s s' s2. split; [vm_compute; reflexivity|]. split; [vm_compute; reflexivity|].
  assert (rtc bw_step two_cpus s) as Hs.
  { eapply rtc_l; [apply (bw_time two_cpus 0 980); lia|]. eapply rtc_l; [apply (bw_balance _ 0 0); left|]. apply rtc_refl. }
  assert (NoDup (task_groups two_cpus)) as Hnd by apply NoDup_singleton.
  destruct (rt_bandwidth_conserved two_cpus s' two_cpus_inv Hnd) as [Hb H].
  { eapply rtc_r; [exact Hs|apply (bw_offline _ 0); left]. }
  destruct (rt_bandwidth_conserved two_cpus s two_cpus_inv Hnd Hs) as [_ H2].
  split; [exact Hb|]. split.
  { destruct (H 0%nat ltac:(left)) as [E _]. rewrite E. vm_compute. reflexivity. }
  split; [|vm_compute; reflexivity].
  destruct (H2 0%nat ltac:(left)) as (_ & _ & E). specialize (E 0%nat ltac:(vm_compute; left) eq_refl).
  unfold s2. rewrite E. vm_compute. reflexivity.
Defined.
