(* ===== verification/RtClass.v ===== *)
(** * The operations of the real-time class (project1/sched_rt.c)

    The part of [rt_sched_class] that works on one CPU: enqueueing, dequeueing
    and yielding, picking the next task, and the tick.  The clock of a run queue
    does not advance in the course of an operation. *)

From stdpp Require Import functions.
From S2P Require Import Prelude Bitmap CpuPri Plist RtRq RtBandwidth.

Definition ENQUEUE_WAKEUP : Z := 1.
Definition ENQUEUE_HEAD : Z := 2.
Definition SCHED_RR : Z := 2.
Definition HZ : Z := 1000.
Definition DEF_TIMESLICE : Z := 100 * HZ / 1000.
Definition USEC_PER_SEC : Z := 1000000.
Definition RLIM_INFINITY : Z := 2 ^ 32 - 1.
Definition RT_MAX_TRIES : nat := 3.

(** ** Fields *)

Definition set_timeout (v : Z) (p : nat) : sys → sys :=
  upd_ent p (λ e, mk_se (run_list e) v (time_slice e) (nr_cpus_allowed e) (parent e) (se_rt_rq e) (my_q e)).
Definition set_time_slice (v : Z) (p : nat) : sys → sys :=
  upd_ent p (λ e, mk_se (run_list e) (timeout e) v (nr_cpus_allowed e) (parent e) (se_rt_rq e) (my_q e)).
Definition set_nr_cpus_allowed (v : Z) (p : nat) : sys → sys :=
  upd_ent p (λ e, mk_se (run_list e) (timeout e) (time_slice e) v (parent e) (se_rt_rq e) (my_q e)).
Definition set_exec_start (v : Z) (p : nat) (s : sys) : sys := set_exec v (sum_exec_runtime (task s p)) p s.
Definition set_sched_exp (v : Z) (p : nat) : sys → sys :=
  upd_task p (λ t, mk_task (prio t) (normal_prio t) (policy t) (on_rq t) (on_cpu t) (cpus_allowed t) (task_cpu t)
    (task_tg t) (rt_class t) (exec_start t) (sum_exec_runtime t) (need_resched t) (rttime_soft t) (rttime_hard t) v).
Definition set_affinity (m : cpumask) (p : nat) : sys → sys :=
  upd_task p (λ t, mk_task (prio t) (normal_prio t) (policy t) (on_rq t) (on_cpu t) m (task_cpu t)
    (task_tg t) (rt_class t) (exec_start t) (sum_exec_runtime t) (need_resched t) (rttime_soft t) (rttime_hard t) (sched_exp t)).
Definition set_post_schedule (b : bool) (c : nat) : sys → sys :=
  upd_rq c (λ q, mk_rq (curr q) (idle q) (rt q) (online q) (clock_task q) b (skip_clock_update q) (leaf_rt_rq_list q)).

Definition task_current (s : sys) (c p : nat) : bool := (curr (cpu_rq s c) =? p)%nat.
Definition task_running (s : sys) (p : nat) : bool := on_cpu (task s p).

(** The lowest CPU of a mask, if there is one. *)
Definition cpumask_first (m : cpumask) : option nat := hd_error (filter (λ c, c ∈ m) (seq 0 NR_CPUS)).

(** ** On and off the run queue *)

Definition enqueue_task_rt (c p : nat) (flags : Z) (s : sys) : sys :=
  let s := if negb (Z.land flags ENQUEUE_WAKEUP =? 0) then set_timeout 0 p s else s in
  let s := enqueue_rt_entity p (negb (Z.land flags ENQUEUE_HEAD =? 0)) s in
  if negb (task_current s c p) && (1 <? nr_cpus_allowed (ent s p)) then enqueue_pushable_task c p s else s.

Definition dequeue_task_rt (c p : nat) (s : sys) : sys :=
  let s := update_curr_rt c s in
  let s := dequeue_rt_entity p s in
  dequeue_pushable_task c p s.

(** [list_move] and [list_move_tail]. *)
Definition requeue_rt_entity (r e : nat) (head : bool) (s : sys) : sys :=
  if on_rt_rq s e then link_entity e head (rt_se_prio s e) r (unlink_entity e r s) else s.
Definition requeue_task_rt (p : nat) (head : bool) (s : sys) : sys :=
  foldl (λ s e, requeue_rt_entity (rt_rq_of_se s e) e head s) s (for_each_sched_rt_entity s p).
Definition yield_task_rt (c : nat) (s : sys) : sys := requeue_task_rt (curr (cpu_rq s c)) false s.

(** ** Picking a task *)

(** The entity at the head of the first queue in use, and from a group's entity
    down to a task.  A queue that is empty although its bit is set, and running
    out of levels, would be a bug. *)
Fixpoint pick_rt_entities (fuel : nat) (r : nat) (s : sys) : option nat * sys :=
  match fuel with
  | O => (None, BUG_ON true s)
  | S fuel =>
      let array := active (rtq s r) in
      let idx := sched_find_first_bit (bits array) in
      let s := BUG_ON (MAX_RT_PRIO <=? idx) s in
      match queue array idx with
      | [] => (None, BUG_ON true s)
      | e :: _ => match group_rt_rq s e with Some g => pick_rt_entities fuel g s | None => (Some e, s) end
      end
  end.
Definition _pick_next_task_rt (c : nat) (s : sys) : option nat * sys :=
  let r := rt (cpu_rq s c) in
  if rt_nr_running (rtq s r) =? 0 then (None, s)
  else if rt_rq_throttled s r then (None, s)
  else
    let '(p, s) := pick_rt_entities (levels s) r s in
    match p with Some p => (Some p, set_exec_start (clock_task (cpu_rq s c)) p s) | None => (None, s) end.

Definition pick_next_task_rt (c : nat) (s : sys) : option nat * sys :=
  let '(p, s) := _pick_next_task_rt c s in
  let s := match p with Some p => dequeue_pushable_task c p s | None => s end in
  (p, set_post_schedule (has_pushable_tasks c s) c s).

Definition put_prev_task_rt (c p : nat) (s : sys) : sys :=
  let s := update_curr_rt c s in
  let s := set_exec_start 0 p s in
  if on_rt_rq s p && (1 <? nr_cpus_allowed (ent s p)) then enqueue_pushable_task c p s else s.

Definition set_curr_task_rt (c : nat) (s : sys) : sys :=
  let p := curr (cpu_rq s c) in
  dequeue_pushable_task c p (set_exec_start (clock_task (cpu_rq s c)) p s).

(** ** The tick *)

Definition watchdog (p : nat) (s : sys) : sys :=
  let soft := rttime_soft (task s p) in
  let hard := rttime_hard (task s p) in
  if soft =? RLIM_INFINITY then s
  else
    let s := set_timeout (u32 (timeout (ent s p) + 1)) p s in
    let next := u32 (Z.min soft hard + USEC_PER_SEC / HZ - 1) / (USEC_PER_SEC / HZ) in
    if next <? timeout (ent s p) then set_sched_exp (sum_exec_runtime (task s p)) p s else s.

(** [run_list.prev != run_list.next]. *)
Definition not_alone (s : sys) (p : nat) : bool :=
  match run_list (ent s p) with
  | Some i => negb (length (queue (active (rtq s (rt_rq_of_se s p))) i) =? 1)%nat
  | None => false
  end.
Definition task_tick_rt (c p : nat) (s : sys) : sys :=
  let s := update_curr_rt c s in
  let s := watchdog p s in
  if negb (policy (task s p) =? SCHED_RR) then s
  else
    let s := set_time_slice (u32 (time_slice (ent s p) - 1)) p s in
    if negb (time_slice (ent s p) =? 0) then s
    else
      let s := set_time_slice DEF_TIMESLICE p s in
      if not_alone s p then resched_task p (requeue_task_rt p false s) else s.

Definition get_rr_interval_rt (s : sys) (p : nat) : Z := if policy (task s p) =? SCHED_RR then DEF_TIMESLICE else 0.
