(* ===== verification/RtPush.v ===== *)
(** * Spreading tasks over the CPUs (project1/sched_rt.c)

    Preemption, pushing a task to a CPU that runs something less important,
    pulling tasks from overloaded CPUs, and what the class does when the
    affinity, the priority or the class of a task changes and when a CPU comes
    or goes.

    [double_lock_balance] may release the lock of the run queue, and the other
    CPUs then do what they like: the operations that call it take a list of
    what happens at each call, [None] when the lock is not released and
    [Some f] when the others change the state by [f]; once the list is used up
    the lock is not released any more.  The scheduling domains of a CPU, from
    the nearest on, are given as a list of their [SD_WAKE_AFFINE] flag and their
    span. *)

From stdpp Require Import functions.
From S2P Require Import Prelude Bitmap CpuPri Plist RtRq RtBandwidth RtClass.

Notation drops := (list (option (sys → sys))).

Section Push.
Context (domains : nat → list (bool * cpumask)).

(** ** The CPU with the lowest priority *)

Fixpoint search_domains (sds : list (bool * cpumask)) (lowest : cpumask) (this : option nat) : option nat :=
  match sds with
  | [] => None
  | (affine, span) :: sds =>
      if negb affine then search_domains sds lowest this
      else
        match this with
        | Some c => if decide (c ∈ span) then Some c
                    else match cpumask_first (lowest ∩ span) with Some b => Some b | None => search_domains sds lowest this end
        | None => match cpumask_first (lowest ∩ span) with Some b => Some b | None => search_domains sds lowest this end
        end
  end.
Definition find_lowest_rq (p : nat) (s : sys) : option nat :=
  let cpu := task_cpu (task s p) in
  if nr_cpus_allowed (ent s p) =? 1 then None
  else
    match cpupri_find (rd_cpupri (rd s)) (prio (task s p)) (cpus_allowed (task s p)) with
    | None => None
    | Some lowest_mask =>
        if decide (cpu ∈ lowest_mask) then Some cpu
        else
          let this := if decide (this_cpu s ∈ lowest_mask) then Some (this_cpu s) else None in
          match search_domains (domains cpu) lowest_mask this with
          | Some c => Some c
          | None => match this with Some c => Some c | None => cpumask_first lowest_mask end
          end
    end.

(** [sd_wake] tells whether the flag is [SD_BALANCE_WAKE]. *)
Definition select_task_rq_rt (p : nat) (sd_wake : bool) (s : sys) : nat :=
  if negb sd_wake then this_cpu s
  else
    let cpu := task_cpu (task s p) in
    let cu := curr (cpu_rq s cpu) in
    if rt_task s cu && ((nr_cpus_allowed (ent s cu) <? 2) || (prio (task s cu) <? prio (task s p))) &&
       (1 <? nr_cpus_allowed (ent s p))
    then match find_lowest_rq p s with Some target => target | None => cpu end
    else cpu.

(** ** Preemption *)

(** Whether [cpupri_find] finds a CPU for the task. *)
Definition cpupri_for (s : sys) (p : nat) : bool :=
  match cpupri_find (rd_cpupri (rd s)) (prio (task s p)) (cpus_allowed (task s p)) with Some _ => true | None => false end.
Definition check_preempt_equal_prio (c p : nat) (s : sys) : sys :=
  let cu := curr (cpu_rq s c) in
  if nr_cpus_allowed (ent s cu) =? 1 then s
  else if negb (nr_cpus_allowed (ent s p) =? 1) && cpupri_for s p then s
  else if negb (cpupri_for s cu) then s
  else resched_task cu (requeue_task_rt p true s).
Definition check_preempt_curr_rt (c p : nat) (s : sys) : sys :=
  let cu := curr (cpu_rq s c) in
  if prio (task s p) <? prio (task s cu) then resched_task cu s
  else if (prio (task s p) =? prio (task s cu)) && negb (need_resched (task s cu)) then check_preempt_equal_prio c p s
  else s.

(** ** Migration (kernel/sched.c); a task of another class changes nothing here *)

Definition enqueue_task (c p : nat) (flags : Z) (s : sys) : sys := if rt_class (task s p) then enqueue_task_rt c p flags s else s.
Definition dequeue_task (c p : nat) (s : sys) : sys := if rt_class (task s p) then dequeue_task_rt c p s else s.
Definition activate_task (c p : nat) (flags : Z) (s : sys) : sys := enqueue_task c p flags s.
Definition deactivate_task (c p : nat) (s : sys) : sys := dequeue_task c p s.
Definition set_task_rq (p cpu : nat) (s : sys) : sys :=
  let g := tgs s (task_tg (task s p)) in
  upd_ent p (λ e, mk_se (run_list e) (timeout e) (time_slice e) (nr_cpus_allowed e) (tg_rt_se g cpu) (tg_rt_rq g cpu) (my_q e)) s.
Definition set_task_cpu (p cpu : nat) (s : sys) : sys :=
  let s := set_task_rq p cpu s in
  upd_task p (λ t, mk_task (prio t) (normal_prio t) (policy t) (on_rq t) (on_cpu t) (cpus_allowed t) cpu
    (task_tg t) (rt_class t) (exec_start t) (sum_exec_runtime t) (need_resched t) (rttime_soft t) (rttime_hard t) (sched_exp t)) s.

(** ** Pushing *)

(** Whether the lock was released, what is left of the list, and the state.  The
    list says, for each call to come, whether that call releases the lock and what
    the other CPUs then do; when it is used up, no call releases the lock. *)
Definition double_lock_balance (ds : drops) (s : sys) : bool * drops * sys :=
  match ds with
  | [] => (false, [], s)
  | None :: ds => (false, ds, s)
  | Some others :: ds => (true, ds, others s)
  end.

Fixpoint find_lock_lowest_rq (tries : nat) (p c : nat) (ds : drops) (s : sys) : option nat * drops * sys :=
  match tries with
  | O => (None, ds, s)
  | S tries =>
      match find_lowest_rq p s with
      | None => (None, ds, s)
      | Some cpu =>
          if (cpu =? c)%nat then (None, ds, s)
          else
            let '(released, ds, s) := double_lock_balance ds s in
            if released && (negb (task_cpu (task s p) =? c)%nat || negb (bool_decide (cpu ∈ cpus_allowed (task s p))) ||
                            task_running s p || negb (on_rq (task s p)))
            then (None, ds, s)
            else if prio (task s p) <? hp_curr (rtq s (rt (cpu_rq s cpu))) then (Some cpu, ds, s)
            else find_lock_lowest_rq tries p c ds s
      end
  end.

Definition pick_next_pushable_task (c : nat) (s : sys) : option nat * sys :=
  if negb (has_pushable_tasks c s) then (None, s)
  else
    match plist_first (pushable_tasks (rtq s (rt (cpu_rq s c)))) with
    | None => (None, s)
    | Some p =>
        (Some p, BUG_ON (negb (task_cpu (task s p) =? c)%nat || task_current s c p || (nr_cpus_allowed (ent s p) <=? 1) ||
                         negb (on_rq (task s p)) || negb (rt_task s p)) s)
    end.

Definition migrate (p from to : nat) (s : sys) : sys :=
  activate_task to p 0 (set_task_cpu p to (deactivate_task from p s)).

(** From label [retry] on; [None] when the fuel is used up. *)
Fixpoint push_retry (fuel : nat) (next_task c : nat) (ds : drops) (s : sys) : option (bool * drops * sys) :=
  match fuel with
  | O => None
  | S fuel =>
      let cu := curr (cpu_rq s c) in
      if (next_task =? cu)%nat then Some (false, ds, BUG_ON true s)
      else if prio (task s next_task) <? prio (task s cu) then Some (false, ds, resched_task cu s)
      else
        let '(lowest, ds, s) := find_lock_lowest_rq RT_MAX_TRIES next_task c ds s in
        match lowest with
        | Some cpu =>
            let s := migrate next_task c cpu s in
            Some (true, ds, resched_task (curr (cpu_rq s cpu)) s)
        | None =>
            let '(t, s) := pick_next_pushable_task c s in
            if (task_cpu (task s next_task) =? c)%nat && bool_decide (t = Some next_task)
            then Some (true, ds, dequeue_pushable_task c next_task s)
            else match t with None => Some (true, ds, s) | Some t => push_retry fuel t c ds s end
        end
  end.
Definition push_rt_task (fuel : nat) (c : nat) (ds : drops) (s : sys) : option (bool * drops * sys) :=
  if negb (overloaded (rtq s (rt (cpu_rq s c)))) then Some (false, ds, s)
  else
    let '(next_task, s) := pick_next_pushable_task c s in
    match next_task with None => Some (false, ds, s) | Some p => push_retry fuel p c ds s end.

Fixpoint push_rt_tasks (fuel : nat) (c : nat) (ds : drops) (s : sys) : option (drops * sys) :=
  match fuel with
  | O => None
  | S fuel =>
      match push_rt_task (S (length ds)) c ds s with
      | Some (true, ds, s) => push_rt_tasks fuel c ds s
      | Some (false, ds, s) => Some (ds, s)
      | None => None
      end
  end.

(** ** Pulling *)

(** One overloaded CPU [cpu], seen from CPU [c]. *)
Definition pull_from (c : nat) (st : bool * drops * sys) (cpu : nat) : bool * drops * sys :=
  let '(ret, ds, s) := st in
  if negb (bool_decide (cpu ∈ rto_mask (rd s))) || (c =? cpu)%nat then (ret, ds, s)
  else if hp_curr (rtq s (rt (cpu_rq s c))) <=? hp_next (rtq s (rt (cpu_rq s cpu))) then (ret, ds, s)
  else
    let '(_, ds, s) := double_lock_balance ds s in
    if rt_nr_running (rtq s (rt (cpu_rq s cpu))) <=? 1 then (ret, ds, s)
    else
      match pick_next_highest_task_rt s cpu (Some c) with
      | Some p =>
          if prio (task s p) <? hp_curr (rtq s (rt (cpu_rq s c))) then
            let src := curr (cpu_rq s cpu) in
            let s := BUG_ON ((p =? src)%nat || negb (on_rq (task s p))) s in
            if prio (task s p) <? prio (task s src) then (ret, ds, s) else (true, ds, migrate p cpu c s)
          else (ret, ds, s)
      | None => (ret, ds, s)
      end.
Definition pull_rt_task (c : nat) (ds : drops) (s : sys) : bool * drops * sys :=
  if negb (rt_overloaded s) then (false, ds, s) else foldl (pull_from c) (false, ds, s) (seq 0 NR_CPUS).

Definition pre_schedule_rt (c prev : nat) (ds : drops) (s : sys) : drops * sys :=
  if rt_task s prev && (prio (task s prev) <? hp_curr (rtq s (rt (cpu_rq s c))))
  then let '(_, ds, s) := pull_rt_task c ds s in (ds, s) else (ds, s).
Definition post_schedule_rt (fuel : nat) (c : nat) (ds : drops) (s : sys) : option (drops * sys) := push_rt_tasks fuel c ds s.

Definition task_woken_rt (fuel : nat) (c p : nat) (ds : drops) (s : sys) : option (drops * sys) :=
  let cu := curr (cpu_rq s c) in
  if negb (task_running s p) && negb (need_resched (task s cu)) && has_pushable_tasks c s && (1 <? nr_cpus_allowed (ent s p)) &&
     rt_task s cu && ((nr_cpus_allowed (ent s cu) <? 2) || (prio (task s cu) <? prio (task s p)))
  then push_rt_tasks fuel c ds s else Some (ds, s).

(** ** Changes *)

Definition set_cpus_allowed_rt (p : nat) (new_mask : cpumask) (s : sys) : sys :=
  let weight := Z.of_nat (size new_mask) in
  let s := BUG_ON (negb (rt_task s p)) s in
  let old := nr_cpus_allowed (ent s p) in
  let s :=
    if on_rq (task s p) && negb (weight =? old) then
      let c := task_cpu (task s p) in
      let r := rt (cpu_rq s c) in
      let s :=
        if negb (task_current s c p) then
          let s := if 1 <? old then dequeue_pushable_task c p s else s in
          if 1 <? weight then enqueue_pushable_task c p s else s
        else s in
      let add d := upd_rt r (λ q, with_migration (rt_nr_migratory q + d) (rt_nr_total q) (overloaded q) q) in
      let s :=
        if (old <=? 1) && (1 <? weight) then add 1 s
        else if (1 <? old) && (weight <=? 1) then add (-1) (BUG_ON (rt_nr_migratory (rtq s r) =? 0) s)
        else s in
      update_rt_migration r s
    else s in
  set_nr_cpus_allowed weight p (set_affinity new_mask p s).

Definition rq_online_rt (c : nat) (s : sys) : sys :=
  let r := rt (cpu_rq s c) in
  let s := if overloaded (rtq s r) then rt_set_overload c s else s in
  let s := __enable_runtime c s in
  set_cpupri c (hp_curr (rtq s r)) s.
Definition rq_offline_rt (c : nat) (s : sys) : sys :=
  let r := rt (cpu_rq s c) in
  let s := if overloaded (rtq s r) then rt_clear_overload c s else s in
  let s := __disable_runtime c s in
  set_cpupri c CPUPRI_INVALID s.

Definition switched_from_rt (c p : nat) (ds : drops) (s : sys) : drops * sys :=
  if on_rq (task s p) && (rt_nr_running (rtq s (rt (cpu_rq s c))) =? 0)
  then let '(_, ds, s) := pull_rt_task c ds s in (ds, s) else (ds, s).
Definition switched_to_rt (fuel : nat) (c p : nat) (ds : drops) (s : sys) : option (drops * sys) :=
  let resched s := let cu := curr (cpu_rq s c) in
                   if prio (task s p) <? prio (task s cu) then resched_task cu s else s in
  if on_rq (task s p) && negb (curr (cpu_rq s c) =? p)%nat then
    if overloaded (rtq s (rt (cpu_rq s c))) then
      match push_rt_task fuel c ds s with
      | None => None
      | Some (pushed, ds, s) =>
          Some (ds, if pushed && negb (task_cpu (task s p) =? c)%nat then s else resched s)
      end
    else Some (ds, resched s)
  else Some (ds, s).
Definition prio_changed_rt (c p : nat) (oldprio : Z) (ds : drops) (s : sys) : drops * sys :=
  if negb (on_rq (task s p)) then (ds, s)
  else if (curr (cpu_rq s c) =? p)%nat then
    let '(ds, s) :=
      if oldprio <? prio (task s p) then let '(_, ds, s) := pull_rt_task c ds s in (ds, s) else (ds, s) in
    (ds, if (hp_curr (rtq s (rt (cpu_rq s c))) <? prio (task s p)) && (curr (cpu_rq s c) =? p)%nat then resched_task p s else s)
  else
    (ds, let cu := curr (cpu_rq s c) in if prio (task s p) <? prio (task s cu) then resched_task cu s else s).

End Push.
