(* ===== verification/RtTime.v ===== *)
(** * Time is charged, and queues are throttled and released

    Charging a task's run time, throttling a queue that used up its time and
    the period timer that releases it keep the invariant of the run queues: the
    entity of a group is queued when the group has something to run and is not
    throttled. *)

From stdpp Require Import functions.
From S2P Require Import Prelude Bitmap CpuPri Plist RtRq RtInv RtWalk RtFrame RtBandwidth.

(** ** The same queues *)

Record same_queues (s s' : sys) : Prop := {
  sq_ent : ∀ e, (run_list (ent s' e), parent (ent s' e), se_rt_rq (ent s' e), my_q (ent s' e)) =
                (run_list (ent s e), parent (ent s e), se_rt_rq (ent s e), my_q (ent s e));
  sq_prio : ∀ p, (prio (task s' p), normal_prio (task s' p)) = (prio (task s p), normal_prio (task s p));
  sq_levels : levels s' = levels s;
  sq_rt : ∀ r, (active (rtq s' r), rt_nr_running (rtq s' r), hp_curr (rtq s' r), rt_nr_boosted (rtq s' r)) =
               (active (rtq s r), rt_nr_running (rtq s r), hp_curr (rtq s r), rt_nr_boosted (rtq s r))
}.

Lemma sq_entity s s' e : same_queues s s' →
  run_list (ent s' e) = run_list (ent s e) ∧ parent (ent s' e) = parent (ent s e) ∧
  se_rt_rq (ent s' e) = se_rt_rq (ent s e) ∧ my_q (ent s' e) = my_q (ent s e).
Proof. intros H. pose proof (sq_ent _ _ H e) as E. by injection E. Qed.
Lemma sq_queue s s' r : same_queues s s' →
  active (rtq s' r) = active (rtq s r) ∧ rt_nr_running (rtq s' r) = rt_nr_running (rtq s r) ∧
  hp_curr (rtq s' r) = hp_curr (rtq s r) ∧ rt_nr_boosted (rtq s' r) = rt_nr_boosted (rtq s r).
Proof. intros H. pose proof (sq_rt _ _ H r) as E. by injection E. Qed.

Lemma sq_se_prio s s' e : same_queues s s' → rt_se_prio s' e = rt_se_prio s e.
Proof.
  intros H. unfold rt_se_prio, group_rt_rq. destruct (sq_entity s s' e H) as (_ & _ & _ & ->).
  destruct (my_q _) as [g|]; [apply (sq_queue _ _ g H)|]. pose proof (sq_prio _ _ H e) as E. by injection E.
Qed.
Lemma sq_boosted s s' e : same_queues s s' → rt_se_boosted s' e = rt_se_boosted s e.
Proof.
  intros H. unfold rt_se_boosted, group_rt_rq. destruct (sq_entity s s' e H) as (_ & _ & _ & ->).
  destruct (my_q _) as [g|]; [by destruct (sq_queue _ _ g H) as (_ & _ & _ & ->)|]. pose proof (sq_prio _ _ H e) as E. by injection E as -> ->.
Qed.

Lemma sq_tree s s' : same_queues s s' → tree s → tree s'.
Proof.
  intros H [Hp Hc]. split.
  - intros e o. destruct (sq_entity s s' e H) as (_ & -> & -> & _), (sq_entity s s' o H) as (_ & _ & _ & ->). apply Hp.
  - intros e. rewrite (sq_levels _ _ H). specialize (Hc e). revert Hc. generalize (Some e) as oe. generalize (levels s) as n.
    induction n as [|n IH]; intros [x|]; simpl; try done. destruct (sq_entity s s' x H) as (_ & -> & _ & _). apply IH.
Qed.

Lemma sq_rq_ok s s' r : same_queues s s' → rq_ok s r → rq_ok s' r.
Proof.
  intros H [H1 H2 H3 H4 H5 H6 H7 H8 H9]. destruct (sq_queue s s' r H) as (E1 & E2 & E3 & E4).
  split; rewrite ?E1, ?E2, ?E3, ?E4; try done.
  - intros e p. destruct (sq_entity s s' e H) as (-> & _ & -> & _). apply H4.
  - intros e p He. rewrite (sq_se_prio _ _ _ H). by apply H6.
  - rewrite H9. apply qsum_ext. intros p x _ _. by rewrite (sq_boosted _ _ x H).
Qed.

Lemma sq_group_ok s s' e :
  same_queues s s' → (∀ g, my_q (ent s e) = Some g → rt_throttled (rtq s' g) = rt_throttled (rtq s g)) → group_ok s e → group_ok s' e.
Proof.
  intros H Ht Hg g. destruct (sq_entity s s' e H) as (Er & _ & _ & ->). intros Hmy. specialize (Hg g Hmy).
  unfold on_rt_rq, group_ready, rt_rq_throttled in *. rewrite Er, (Ht g Hmy). destruct (sq_queue s s' g H) as (_ & -> & _ & ->). done.
Qed.

(** The queues are the same, and so is what is throttled, but perhaps the group
    of entity [e]. *)
Lemma sq_inv_but e s s' :
  same_queues s s' → (∀ x g, x ≠ e → my_q (ent s x) = Some g → rt_throttled (rtq s' g) = rt_throttled (rtq s g)) →
  rt_inv s → rt_inv_but e s'.
Proof.
  intros H Ht [H1 H2 H3]. split; [by eapply sq_tree|intros r; by eapply sq_rq_ok|]. intros x Hne. eapply sq_group_ok; eauto.
Qed.
Lemma sq_inv s s' :
  same_queues s s' → (∀ x g, my_q (ent s x) = Some g → rt_throttled (rtq s' g) = rt_throttled (rtq s g)) → rt_inv s → rt_inv s'.
Proof.
  intros H Ht [H1 H2 H3]. split; [by eapply sq_tree|intros r; by eapply sq_rq_ok|]. intros x. eapply sq_group_ok; eauto.
Qed.

Lemma sq_upd_rt r f s :
  (∀ q, (active (f q), rt_nr_running (f q), hp_curr (f q), rt_nr_boosted (f q)) =
        (active q, rt_nr_running q, hp_curr q, rt_nr_boosted q)) → same_queues s (upd_rt r f s).
Proof.
  intros Hf. split; simpl; try done. intros r'. destruct (decide (r' = r)) as [->|]; [by rewrite fn_lookup_insert|by rewrite fn_lookup_insert_ne].
Qed.
Lemma sq_upd_task p f s :
  (∀ t, (prio (f t), normal_prio (f t)) = (prio t, normal_prio t)) → same_queues s (upd_task p f s).
Proof.
  intros Hf. split; simpl; try done. intros x. destruct (decide (x = p)) as [->|]; [by rewrite fn_lookup_insert|by rewrite fn_lookup_insert_ne].
Qed.
Lemma sq_upd_ent e f s :
  (∀ t, (run_list (f t), parent (f t), se_rt_rq (f t), my_q (f t)) = (run_list t, parent t, se_rt_rq t, my_q t)) →
  same_queues s (upd_ent e f s).
Proof.
  intros Hf. split; simpl; try done. intros x. destruct (decide (x = e)) as [->|]; [by rewrite fn_lookup_insert|by rewrite fn_lookup_insert_ne].
Qed.
#[global] Instance same_queues_preorder : PreOrder same_queues.
Proof. split; [by split|]. intros s t u [] []. split; intros; congruence. Qed.

(** ** What the passing of time leaves alone *)

Definition untimed (t : task_struct) : task_struct :=
  mk_task (prio t) (normal_prio t) (policy t) (on_rq t) (on_cpu t) (cpus_allowed t) (task_cpu t)
    (task_tg t) (rt_class t) 0 0 false (rttime_soft t) (rttime_hard t) 0.
Definition unskipped (q : rq) : rq := mk_rq (curr q) (idle q) (rt q) (online q) (clock_task q) (post_schedule q) 0 [].

(** The tasks of a queue, in order. *)
Definition tasks_of (s : sys) (r : nat) (p : Z) : list nat :=
  filter (λ x, my_q (ent s x) = None) (queue (active (rtq s r)) p).

(** Nothing changes but times, what is throttled, requests to reschedule and
    which entities of groups are queued. *)
Record timed (s s' : sys) : Prop := {
  ti_tgs : tgs s' = tgs s ∧ task_groups s' = task_groups s;
  ti_flags : (bandwidth_enabled s', scheduler_running s', this_cpu s', levels s', bugs s', span (rd s')) =
             (bandwidth_enabled s, scheduler_running s, this_cpu s, levels s, bugs s, span (rd s));
  ti_ent : ∀ e, with_run_list None (ent s' e) = with_run_list None (ent s e);
  ti_list : ∀ e, my_q (ent s e) = None → run_list (ent s' e) = run_list (ent s e);
  ti_task : ∀ p, untimed (task s' p) = untimed (task s p);
  ti_rq : ∀ c, unskipped (cpu_rq s' c) = unskipped (cpu_rq s c);
  ti_rt : ∀ r, (rt_tg (rtq s' r), rt_cpu (rtq s' r), pushable_tasks (rtq s' r)) =
               (rt_tg (rtq s r), rt_cpu (rtq s r), pushable_tasks (rtq s r));
  ti_order : ∀ r p, tasks_of s' r p = tasks_of s r p;
  ti_leaves : ∀ c r, r ∈ leaf_rt_rq_list (cpu_rq s' c) → r ∈ leaf_rt_rq_list (cpu_rq s c) ∨ rt_cpu (rtq s r) = c
}.

Lemma ti_my_q s s' e : timed s s' → my_q (ent s' e) = my_q (ent s e).
Proof. intros H. pose proof (ti_ent _ _ H e) as E. by injection E. Qed.
Lemma ti_queue s s' r : timed s s' →
  rt_tg (rtq s' r) = rt_tg (rtq s r) ∧ rt_cpu (rtq s' r) = rt_cpu (rtq s r) ∧ pushable_tasks (rtq s' r) = pushable_tasks (rtq s r).
Proof. intros H. pose proof (ti_rt _ _ H r) as E. by injection E. Qed.

#[global] Instance timed_preorder : PreOrder timed.
Proof.
  split; [split; auto|]. intros s t u H1 H2. pose proof H1 as []. pose proof H2 as []. split; try (intros; congruence).
  - intuition congruence.
  - intros e He. rewrite ti_list1; [by apply ti_list0|]. by rewrite (ti_my_q _ _ _ H1).
  - intros c r Hr. destruct (ti_leaves1 c r Hr) as [?|Hc]; [auto|]. right. specialize (ti_rt0 r). congruence.
Qed.

Lemma timed_upd_rt r f s :
  (∀ q, (rt_tg (f q), rt_cpu (f q), pushable_tasks (f q), active (f q)) = (rt_tg q, rt_cpu q, pushable_tasks q, active q)) →
  timed s (upd_rt r f s).
Proof.
  intros Hf. split; simpl; try done.
  - intros r'. destruct (decide (r' = r)) as [->|]; [|by rewrite fn_lookup_insert_ne].
    rewrite fn_lookup_insert. pose proof (Hf (rtq s r)) as E. by injection E as -> -> -> _.
  - intros r' p. unfold tasks_of. simpl. destruct (decide (r' = r)) as [->|]; [|by rewrite fn_lookup_insert_ne].
    rewrite fn_lookup_insert. pose proof (Hf (rtq s r)) as E. by injection E as _ _ _ ->.
  - auto.
Qed.
Lemma timed_upd_task p f s : (∀ t, untimed (f t) = untimed t) → timed s (upd_task p f s).
Proof.
  intros Hf. split; simpl; try done; [|auto]. intros x. destruct (decide (x = p)) as [->|]; [by rewrite fn_lookup_insert|by rewrite fn_lookup_insert_ne].
Qed.
Lemma timed_upd_rq c f s :
  (∀ q, unskipped (f q) = unskipped q ∧ leaf_rt_rq_list (f q) = leaf_rt_rq_list q) → timed s (upd_rq c f s).
Proof.
  intros Hf. split; simpl; try done; intros x.
  - destruct (decide (x = c)) as [->|]; [rewrite fn_lookup_insert; apply Hf|by rewrite fn_lookup_insert_ne].
  - intros r. destruct (decide (x = c)) as [->|]; [rewrite fn_lookup_insert, (proj2 (Hf _)); auto|rewrite fn_lookup_insert_ne by done; auto].
Qed.

(** Requeueing the entity of a group. *)
Lemma moved_timed on head e s s' g :
  tree s → my_q (ent s e) = Some g → moved on head e s s' → frame s s' → timed s s'.
Proof.
  intros Ht Hmy Hm Hf. pose proof (mv_static _ _ _ _ _ Hm) as Hst.
  assert (∀ x, my_q (ent s x) = None → x ∉ for_each_sched_rt_entity s e) as Hpath.
  { intros x Hx Hin. unfold for_each_sched_rt_entity in Hin.
    destruct (levels_pos s e Ht) as [n En]. pose proof (t_complete _ Ht e) as Hc. rewrite En in Hc, Hin. simpl in Hc, Hin.
    apply elem_of_cons in Hin as [->|Hin]; [congruence|]. destruct (path_tail_group s n e x Ht Hc Hin). congruence. }
  split.
  - split; apply Hf.
  - destruct (fr_enabled _ _ Hf) as [-> ->], (fr_this _ _ Hf) as [-> ->]. by rewrite (st_bugs _ _ Hst), (fr_span _ _ Hf).
  - apply Hf.
  - intros x Hx. by apply (mv_others _ _ _ _ _ Hm), Hpath.
  - intros p. by rewrite (fr_task _ _ Hf).
  - intros c. pose proof (fr_rq _ _ Hf c) as E. unfold with_leaves in E. injection E as E1 E2 E3 E4 E5 E6 E7. unfold unskipped. congruence.
  - intros r. pose proof (fr_rt _ _ Hf r) as E. injection E as E1 E2 E3 _ _ _. congruence.
  - intros r p. unfold tasks_of.
    assert (∀ q : list nat, filter (λ x, my_q (ent s x) = None) q =
      filter (λ x, my_q (ent s x) = None) (filter (λ x, x ∉ for_each_sched_rt_entity s e) q)) as Hflt.
    { intros q. rewrite list_filter_filter. apply list_filter_iff. intros x. split; [intros Hx|by intros [? _]]. split; [done|by apply Hpath]. }
    rewrite (Hflt (queue (active (rtq s r)) p)). rewrite <- (mv_filter _ _ _ _ _ Hm), <- Hflt.
    apply list_filter_iff. intros x. by rewrite (st_my_q _ _ Hst).
  - apply Hf.
Qed.

(** ** Groups *)

(** The entity a group has on a CPU owns the group's queue there. *)
Definition owners (s : sys) : Prop :=
  ∀ r g, rt_tg (rtq s r) = Some g → ∀ o, tg_rt_se (tgs s g) (rt_cpu (rtq s r)) = Some o ↔ my_q (ent s o) = Some r.

Lemma owners_timed s s' : timed s s' → owners s → owners s'.
Proof.
  intros H Ho r g. destruct (ti_queue s s' r H) as (-> & -> & _), (ti_tgs _ _ H) as [-> _]. intros Hg o. rewrite (ti_my_q _ _ _ H). by apply Ho.
Qed.

(** The invariant, but for the entity that owns queue [r]. *)
Record inv_at (r : nat) (s : sys) : Prop := {
  at_tree : tree s;
  at_rq : ∀ r, rq_ok s r;
  at_group : ∀ x, my_q (ent s x) ≠ Some r → group_ok s x
}.

Lemma inv_at_owned r s :
  inv_at r s → (∀ o, my_q (ent s o) = Some r → on_rt_rq s o = group_ready s r) → rt_inv s.
Proof.
  intros [H1 H2 H3] Ho. split; [done|done|]. intros e. destruct (decide (my_q (ent s e) = Some r)) as [E|E]; [|by apply H3].
  intros g Hg. rewrite E in Hg. injection Hg as <-. by apply Ho.
Qed.
Lemma inv_at_but r s g o : inv_at r s → owners s → rt_tg (rtq s r) = Some g → my_q (ent s o) = Some r → rt_inv_but o s.
Proof.
  intros [H1 H2 H3] Ho Hg Hmy. split; [done|done|]. intros x Hne. apply H3. intros Hx. apply Hne.
  apply (Ho r g Hg) in Hx, Hmy. congruence.
Qed.

Lemma set_throttled_at b r s : rt_inv s → inv_at r (set_throttled b r s).
Proof.
  intros [H1 H2 H3]. assert (same_queues s (set_throttled b r s)) as H by (by apply sq_upd_rt).
  split; [by eapply sq_tree|intros r'; by eapply sq_rq_ok|]. intros x Hx. eapply sq_group_ok; [done| |apply H3].
  intros g Hg. destruct (sq_entity _ _ x H) as (_ & _ & _ & E). rewrite E, Hg in Hx. simpl. rewrite fn_lookup_insert_ne; [done|]. by intros ->.
Qed.

(** Requeueing the owner puts everything right. *)
Lemma requeue_owner s r g o :
  inv_at r s → owners s → rt_tg (rtq s r) = Some g → my_q (ent s o) = Some r →
  let s' := enqueue_rt_entity o false s in rt_inv s' ∧ timed s s'.
Proof.
  intros Hat Ho Hg Hmy s'. assert (moved true false o s s') as Hm.
  { apply enqueue_rt_entity_ok; [by eapply inv_at_but|congruence]. }
  split; [by eapply mv_inv|]. eapply moved_timed; [apply Hat|done|done|]. apply enqueue_rt_entity_frame.
Qed.

Lemma sched_rt_rq_dequeue_ok s r g :
  inv_at r s → owners s → rt_tg (rtq s r) = Some g → rt_rq_throttled s r = true →
  rt_inv (sched_rt_rq_dequeue r s) ∧ timed s (sched_rt_rq_dequeue r s).
Proof.
  intros Hat Ho Hg Ht. assert (group_ready s r = false) as Hready by (unfold group_ready; by rewrite Ht, andb_false_r).
  unfold sched_rt_rq_dequeue. rewrite Hg. destruct (tg_rt_se (tgs s g) (rt_cpu (rtq s r))) as [o|] eqn:Eo.
  - pose proof (proj1 (Ho r g Hg o) Eo) as Hmy. destruct (on_rt_rq s o) eqn:Eon.
    + rewrite (dequeue_group_entity s o r); [|apply Hat|apply Hat|done]. by eapply requeue_owner.
    + split; [|reflexivity]. eapply inv_at_owned; [done|]. intros x Hx. apply (Ho r g Hg) in Hx. rewrite Eo in Hx. injection Hx as <-. congruence.
  - split; [|reflexivity]. eapply inv_at_owned; [done|]. intros x Hx. apply (Ho r g Hg) in Hx. congruence.
Qed.

Lemma resched_ok p s : rt_inv s → rt_inv (resched_task p s) ∧ timed s (resched_task p s).
Proof. intros HI. split; [|by apply timed_upd_task]. apply (sq_inv s); [by apply sq_upd_task|done|done]. Qed.

Lemma sched_rt_rq_enqueue_ok s r g :
  inv_at r s → owners s → rt_tg (rtq s r) = Some g → (∀ o, my_q (ent s o) = Some r → on_rt_rq s o = true → group_ready s r = true) →
  (rt_nr_running (rtq s r) = 0 ∨ rt_rq_throttled s r = false) →
  rt_inv (sched_rt_rq_enqueue r s) ∧ timed s (sched_rt_rq_enqueue r s).
Proof.
  intros Hat Ho Hg Hon Hrun. unfold sched_rt_rq_enqueue. rewrite Hg. destruct (Z.eqb_spec (rt_nr_running (rtq s r)) 0) as [E|E].
  - split; [|reflexivity]. eapply inv_at_owned; [done|]. intros o Hmy. assert (group_ready s r = false) as Hf by (unfold group_ready; by rewrite E).
    rewrite Hf. destruct (on_rt_rq s o) eqn:Eon; [|done]. by rewrite (Hon o Hmy Eon) in Hf.
  - destruct Hrun as [?|Hth]; [done|].
    set (s1 := match tg_rt_se _ _ with Some _ => _ | None => s end).
    assert (rt_inv s1 ∧ timed s s1) as [HI1 Ht1].
    { unfold s1. destruct (tg_rt_se (tgs s g) (rt_cpu (rtq s r))) as [o|] eqn:Eo.
      - pose proof (proj1 (Ho r g Hg o) Eo) as Hmy. destruct (on_rt_rq s o) eqn:Eon; [|by eapply requeue_owner].
        split; [|reflexivity]. eapply inv_at_owned; [done|]. intros x Hx. apply (Ho r g Hg) in Hx. rewrite Eo in Hx. injection Hx as <-.
        rewrite Eon. symmetry. by apply (Hon o).
      - split; [|reflexivity]. eapply inv_at_owned; [done|]. intros x Hx. apply (Ho r g Hg) in Hx. congruence. }
    destruct (_ <? _); [|done]. destruct (resched_ok (curr (cpu_rq s (rt_cpu (rtq s r)))) s1 HI1). split; [done|]. by etrans.
Qed.

(** ** Charging *)

(** A change of the times only. *)
Record quiet (s s' : sys) : Prop := {
  qu_queues : same_queues s s';
  qu_timed : timed s s';
  qu_rt : ∀ r, (rt_throttled (rtq s' r), rt_time (rtq s' r)) = (rt_throttled (rtq s r), rt_time (rtq s r))
}.
#[global] Instance quiet_preorder : PreOrder quiet.
Proof. split; [by split|]. intros s t u [] []. split; [by etrans|by etrans|]. intros; congruence. Qed.

Lemma quiet_inv s s' : quiet s s' → rt_inv s → rt_inv s'.
Proof. intros [H _ Hr]. apply sq_inv; [done|]. intros x g _. pose proof (Hr g) as E. by injection E. Qed.

Lemma set_runtime_quiet v r s : quiet s (set_runtime v r s).
Proof.
  split; [by apply sq_upd_rt|by apply timed_upd_rt|]. intros r'. simpl.
  destruct (decide (r' = r)) as [->|]; [by rewrite fn_lookup_insert|by rewrite fn_lookup_insert_ne].
Qed.
Lemma balance_quiet r s g : rt_tg (rtq s r) = Some g → quiet s (balance_runtime r s).
Proof.
  intros Hg. unfold balance_runtime. destruct (_ <? _); [|reflexivity]. unfold do_balance_runtime. rewrite Hg.
  assert (∀ w l m s, quiet s (balance_cpus r g w l m s).2) as H; [|apply H].
  clear. intros w l. induction l as [|i l IH]; intros m s; [reflexivity|]. cbn [balance_cpus].
  case_decide; [apply IH|]. destruct (_ =? RUNTIME_INF); [apply IH|]. destruct (0 <? _); [|apply IH].
  set (s1 := set_runtime _ (sched_rt_period_rt_rq s g i) s). assert (quiet s s1) as H1 by apply set_runtime_quiet. clearbody s1.
  set (s2 := set_runtime _ r s1). assert (quiet s s2) as H2 by (etrans; [exact H1|apply set_runtime_quiet]). clearbody s2.
  destruct (_ =? _); [exact H2|]. etrans; [exact H2|apply IH].
Qed.

(** [s'] keeps the invariant and only time passes. *)
Definition time_ok (s s' : sys) : Prop := rt_inv s → owners s → rt_inv s' ∧ timed s s'.
#[global] Instance time_ok_preorder : PreOrder time_ok.
Proof.
  split; [by intros s|]. intros s t u H1 H2 HI Ho. destruct (H1 HI Ho) as [HI' Ht]. destruct (H2 HI') as [? ?]; [by eapply owners_timed|].
  split; [done|by etrans].
Qed.

Lemma quiet_ok s s' : quiet s s' → time_ok s s'.
Proof. intros H HI _. split; [by eapply quiet_inv|apply H]. Qed.
Lemma set_time_ok v r s : time_ok s (set_time v r s).
Proof.
  intros HI _. split; [|by apply timed_upd_rt]. apply (sq_inv s); [by apply sq_upd_rt| |done].
  intros x g _. simpl. destruct (decide (g = r)) as [->|]; [by rewrite fn_lookup_insert|by rewrite fn_lookup_insert_ne].
Qed.
Lemma resched_task_ok p s : time_ok s (resched_task p s).
Proof. intros HI _. by apply resched_ok. Qed.

Lemma set_throttled_timed b r s : timed s (set_throttled b r s).
Proof. by apply timed_upd_rt. Qed.

(** Throttling a queue takes its owner off. *)
Lemma throttle_ok r s g :
  rt_tg (rtq s r) = Some g →
  time_ok s (let s := set_throttled true r s in if rt_rq_throttled s r then sched_rt_rq_dequeue r s else s).
Proof.
  intros Hg HI Ho. pose proof (set_throttled_at true r s HI) as Hat. pose proof (set_throttled_timed true r s) as Ht.
  set (s1 := set_throttled true r s) in *. assert (owners s1) as Ho1 by (by eapply owners_timed).
  assert (rt_tg (rtq s1 r) = Some g) as Hg1 by (by rewrite (proj1 (ti_queue _ _ r Ht))). cbv zeta.
  destruct (rt_rq_throttled s1 r) eqn:Eth.
  - destruct (sched_rt_rq_dequeue_ok s1 r g Hat Ho1 Hg1 Eth). split; [done|]. by etrans.
  - split; [|done]. eapply inv_at_owned; [done|]. intros o Hmy. assert (same_queues s s1) as Hsq by (by apply sq_upd_rt).
    destruct (sq_entity _ _ o Hsq) as (Er & _ & _ & Emy). rewrite Emy in Hmy. pose proof (i_group _ HI o r Hmy) as Hon.
    unfold on_rt_rq, group_ready, rt_rq_throttled in *. rewrite Er, Hon. destruct (sq_queue _ _ r Hsq) as (_ & -> & _ & Eb).
    rewrite Eb in Eth |- *. unfold s1, set_throttled in Eth |- *. simpl in Eth |- *. rewrite fn_lookup_insert in Eth |- *. simpl in Eth |- *.
    rewrite Eth. by rewrite andb_false_r.
Qed.

Lemma sched_rt_runtime_exceeded_ok r s g :
  rt_tg (rtq s r) = Some g → time_ok s (sched_rt_runtime_exceeded r s).2.
Proof.
  intros Hg. unfold sched_rt_runtime_exceeded. destruct (rt_throttled _); [reflexivity|]. destruct (_ <=? _); [reflexivity|].
  pose proof (balance_quiet r s g Hg) as Hb. set (s1 := balance_runtime r s) in *. cbv zeta. transitivity s1; [by apply quiet_ok|].
  assert (rt_tg (rtq s1 r) = Some g) as Hg1 by (by rewrite (proj1 (ti_queue _ _ r (qu_timed _ _ Hb)))). clearbody s1.
  destruct (_ =? _); [reflexivity|]. destruct (_ <? _); [|reflexivity]. pose proof (throttle_ok r s1 g Hg1) as H. cbv zeta in H.
  by destruct (rt_rq_throttled _ _).
Qed.

Lemma charge_ok p d s e : time_ok s (charge p d s e).
Proof.
  unfold charge. destruct (_ =? _) eqn:Einf; [reflexivity|]. set (r := rt_rq_of_se s e) in *.
  unfold sched_rt_runtime in Einf. destruct (rt_tg (rtq s r)) as [g|] eqn:Hg; [|done].
  pose proof (sched_rt_runtime_exceeded_ok r (set_time (u64 (rt_time (rtq s r) + d)) r s) g) as H.
  assert (rt_tg (rtq (set_time (u64 (rt_time (rtq s r) + d)) r s) r) = Some g) as Hg1 by (simpl; by rewrite fn_lookup_insert).
  specialize (H Hg1). set (s1 := set_time _ r s) in *. transitivity s1; [apply set_time_ok|]. clearbody s1.
  destruct (sched_rt_runtime_exceeded r s1) as [[] s2]; simpl in *; [|done]. transitivity s2; [done|apply resched_task_ok].
Qed.

Lemma foldl_time_ok {A} (f : sys → A → sys) l s : (∀ s a, time_ok s (f s a)) → time_ok s (foldl f s l).
Proof. intros Hf. revert s. induction l as [|a l IH]; intros s; simpl; [reflexivity|]. etrans; [apply Hf|apply IH]. Qed.

Lemma update_curr_rt_ok c s : time_ok s (update_curr_rt c s).
Proof.
  unfold update_curr_rt. destruct (negb _); [reflexivity|]. set (s1 := set_exec _ _ _ s).
  assert (time_ok s s1) as H1.
  { apply quiet_ok. split; [by apply sq_upd_task|by apply timed_upd_task|done]. }
  clearbody s1. destruct (negb _); [done|]. etrans; [exact H1|]. apply foldl_time_ok. intros; apply charge_ok.
Qed.

(** ** The period timer *)

(** Releasing a queue puts its owner back on. *)
Lemma unthrottle_ok r s g c (b : bool) :
  rt_tg (rtq s r) = Some g →
  time_ok s (let s := set_throttled false r s in
             sched_rt_rq_enqueue r (if b then set_skip_clock_update (-1) c s else s)).
Proof.
  intros Hg HI Ho. pose proof (set_throttled_at false r s HI) as Hat. pose proof (set_throttled_timed false r s) as Ht.
  set (s1 := set_throttled false r s) in *. assert (same_queues s s1) as Hsq by (by apply sq_upd_rt).
  assert (rt_rq_throttled s1 r = false) as Hth.
  { unfold rt_rq_throttled, s1, set_throttled. simpl. by rewrite fn_lookup_insert. }
  assert (∀ o, my_q (ent s1 o) = Some r → on_rt_rq s1 o = true → group_ready s1 r = true) as Hon.
  { intros o Hmy Hon. destruct (sq_entity _ _ o Hsq) as (Er & _ & _ & Emy). rewrite Emy in Hmy. unfold on_rt_rq in Hon. rewrite Er in Hon.
    pose proof (i_group _ HI o r Hmy) as Hg'. unfold on_rt_rq in Hg'. rewrite Hon in Hg'. symmetry in Hg'. unfold group_ready in *.
    rewrite Hth. apply andb_true_iff in Hg' as [Hn _]. destruct (sq_queue _ _ r Hsq) as (_ & -> & _). by rewrite Hn. }
  cbv zeta. set (s2 := if b then _ else s1).
  assert (ent s2 = ent s1 ∧ task s2 = task s1 ∧ rtq s2 = rtq s1 ∧ tgs s2 = tgs s1 ∧ levels s2 = levels s1) as (E1 & E2 & E3 & E4 & E5)
    by (unfold s2; by destruct b).
  assert (timed s1 s2) as Ht2 by (unfold s2; destruct b; [by apply timed_upd_rq|reflexivity]). clearbody s2.
  assert (same_queues s1 s2) as Hsq2 by (split; [by rewrite E1|by rewrite E2|done|by rewrite E3]).
  assert (inv_at r s2) as Hat2.
  { split; [eapply sq_tree; [done|apply Hat]|intros r'; eapply sq_rq_ok; [done|apply Hat]|]. intros x. rewrite E1. intros Hx.
    eapply sq_group_ok; [done| |by apply Hat]. intros g' _. by rewrite E3. }
  assert (owners s2) as Ho2. { eapply owners_timed; [|exact Ho]. by etrans. }
  destruct (sched_rt_rq_enqueue_ok s2 r g Hat2 Ho2) as [HI' Ht'].
  - rewrite E3. by rewrite (proj1 (ti_queue _ _ r Ht)).
  - intros o. unfold on_rt_rq, group_ready, rt_rq_throttled. rewrite E1, E3. apply Hon.
  - right. unfold rt_rq_throttled. rewrite E3. apply Hth.
  - split; [done|]. etrans; [exact Ht|]. by etrans.
Qed.

Lemma period_cpu_ok g ov idle_ s i g' :
  rt_tg (rtq s (tg_rt_rq (tgs s g) i)) = Some g' → time_ok s (period_cpu g ov (idle_, s) i).2.
Proof.
  intros Hg. unfold period_cpu, sched_rt_period_rt_rq. set (r := tg_rt_rq (tgs s g) i) in *.
  destruct (negb (rt_time (rtq s r) =? 0)).
  - set (s1 := if rt_throttled _ then balance_runtime r s else s).
    assert (quiet s s1) as Hq by (unfold s1; destruct (rt_throttled _); [by eapply balance_quiet|reflexivity]).
    assert (rt_tg (rtq s1 r) = Some g') as Hg1 by (by rewrite (proj1 (ti_queue _ _ r (qu_timed _ _ Hq)))). clearbody s1.
    set (s2 := set_time _ r s1). assert (time_ok s s2) as H2 by (etrans; [apply quiet_ok, Hq|apply set_time_ok]).
    assert (rt_tg (rtq s2 r) = Some g') as Hg2 by (unfold s2; simpl; by rewrite fn_lookup_insert). 
    set (runtime := rt_runtime (rtq s1 r)). clearbody s2.
    destruct (rt_throttled (rtq s2 r) && (rt_time (rtq s2 r) <? runtime)).
    + pose proof (unthrottle_ok r s2 g' (rt_cpu (rtq s r))
        (negb (rt_nr_running (rtq (set_throttled false r s2) r) =? 0) &&
         (curr (cpu_rq (set_throttled false r s2) (rt_cpu (rtq s r))) =? idle (cpu_rq (set_throttled false r s2) (rt_cpu (rtq s r))))%nat) Hg2) as H3.
      cbv zeta in H3. cbn [snd]. etrans; [exact H2|exact H3].
    + exact H2.
  - destruct (negb (rt_nr_running (rtq s r) =? 0)) eqn:Erun; [|reflexivity]. cbn [snd].
    destruct (negb (rt_rq_throttled s r)) eqn:Eth; [|reflexivity]. intros HI Ho. apply (sched_rt_rq_enqueue_ok s r g').
    + split; try apply HI. intros x _. apply HI.
    + done.
    + done.
    + intros o Hmy Hon. by rewrite <- (i_group _ HI o r Hmy).
    + right. by destruct (rt_rq_throttled s r).
Qed.

(** Every queue of the group has a group. *)
Definition queues_of (s : sys) (g : nat) : Prop := ∀ i, i ∈ span (rd s) → ∃ g', rt_tg (rtq s (tg_rt_rq (tgs s g) i)) = Some g'.

Lemma do_sched_rt_period_timer_ok g ov s : queues_of s g → time_ok s (do_sched_rt_period_timer g ov s).2.
Proof.
  intros Hq. unfold do_sched_rt_period_timer. destruct (_ || _); [reflexivity|]. unfold queues_of in Hq. revert Hq. generalize true as b.
  generalize (span (rd s)) as l. intros l. revert s. induction l as [|i l IH]; intros s b Hq; cbn [foldl]; [reflexivity|].
  destruct (Hq i ltac:(left)) as [g' Hg']. pose proof (period_cpu_ok g ov b s i g' Hg') as H1.
  destruct (period_cpu g ov (b, s) i) as [b1 s1] eqn:E1. simpl in H1. intros HI Ho. destruct (H1 HI Ho) as [HI1 Ht1].
  destruct (IH s1 b1) as [HI2 Ht2]; [|done|by eapply owners_timed|].
  - intros j Hj. destruct (Hq j ltac:(by right)) as [gj Hgj]. exists gj. rewrite (proj1 (ti_tgs _ _ Ht1)). by rewrite (proj1 (ti_queue _ _ _ Ht1)).
  - split; [done|]. by etrans.
Qed.
