(* ===== verification/RtPick.v ===== *)
(** * The task that is picked

    On a state where the invariant of the run queues holds, the class picks a
    task that is the first in its queue and whose groups are all queued, and no
    task that could run instead has a higher priority. *)

From stdpp Require Import functions.
From S2P Require Import Prelude Bitmap CpuPri Plist RtRq RtInv RtWalk RtExample RtBandwidth RtClass.

(** Task [p] is queued below run queue [r]: it and the groups it belongs to, up
    to a group of [r], are on their queues. *)
Inductive queued_below (s : sys) (r : nat) : nat → Prop :=
| below_here e : se_rt_rq (ent s e) = r → on_rt_rq s e = true → queued_below s r e
| below_group e o : my_q (ent s o) = Some (se_rt_rq (ent s e)) → on_rt_rq s e = true → queued_below s r o → queued_below s r e.

Lemma linked_in s e : rt_inv s → on_rt_rq s e = true →
  e ∈ queue (active (rtq s (se_rt_rq (ent s e)))) (rt_se_prio s e) ∧ 0 ≤ rt_se_prio s e < MAX_RT_PRIO.
Proof.
  intros HI [p Hp]%on_rt_rq_true. assert (e ∈ queue (active (rtq s (se_rt_rq (ent s e)))) p) as Hin.
  { by apply (q_linked _ _ (i_rq _ HI _)). }
  by destruct (q_prio _ _ (i_rq _ HI _) _ _ Hin) as [-> ?].
Qed.

(** No entity of a queue has a higher priority than the queue. *)
Lemma hp_curr_le s e : rt_inv s → on_rt_rq s e = true → hp_curr (rtq s (se_rt_rq (ent s e))) ≤ rt_se_prio s e.
Proof.
  intros HI He. destruct (linked_in s e HI He) as [Hin Hr]. set (r := se_rt_rq (ent s e)) in *.
  destruct (q_curr _ _ (i_rq _ HI r)) as (_ & Hn & _). destruct (decide (hp_curr (rtq s r) ≤ rt_se_prio s e)) as [|Hgt]; [done|].
  specialize (Hn (rt_se_prio s e) ltac:(lia)). rewrite (q_bits _ _ (i_rq _ HI r)) in Hn by done.
  apply bool_decide_eq_false in Hn. destruct Hn. intros E. rewrite E in Hin. by apply not_elem_of_nil in Hin.
Qed.

Lemma below_prio s r e : rt_inv s → queued_below s r e → hp_curr (rtq s r) ≤ rt_se_prio s e.
Proof.
  intros HI H. induction H as [e <- He|e o Ho He H IH]; [by apply hp_curr_le|].
  unfold rt_se_prio at 1 in IH. unfold group_rt_rq in IH. rewrite Ho in IH. pose proof (hp_curr_le s e HI He). lia.
Qed.

(** The entity at the head of the first queue. *)
Lemma first_entity s r :
  rt_inv s → 0 < rt_nr_running (rtq s r) →
  let idx := sched_find_first_bit (bits (active (rtq s r))) in
  idx = hp_curr (rtq s r) ∧ 0 ≤ idx < MAX_RT_PRIO ∧ ∃ e l, queue (active (rtq s r)) idx = e :: l ∧
    se_rt_rq (ent s e) = r ∧ on_rt_rq s e = true ∧ rt_se_prio s e = idx.
Proof.
  intros HI Hrun idx. pose proof (i_rq _ HI r) as Hok. destruct (q_words _ _ Hok) as [_ Hw].
  pose proof (sched_first _ Hw (q_delimiter _ _ Hok)) as Hf. fold idx in Hf. pose proof (q_curr _ _ Hok) as Hc.
  assert (idx = hp_curr (rtq s r)) as Eidx by (by eapply first_set_unique). 
  assert (idx < MAX_RT_PRIO) as Hlt.
  { destruct Hf as (Hr & Hn & _). destruct (decide (idx = MAX_RT_PRIO)) as [E|]; [|lia]. exfalso.
    rewrite (q_running _ _ Hok) in Hrun. assert (qsum (λ _, 1) (queue (active (rtq s r))) = 0); [|lia].
    apply qsum_one. intros p Hp. rewrite E in Hn. specialize (Hn p ltac:(lia)). rewrite (q_bits _ _ Hok) in Hn by lia.
    apply bool_decide_eq_false in Hn. by apply dec_stable. }
  destruct Hf as (Hr & Hn & Hb). split; [done|]. split; [lia|]. specialize (Hb Hlt). rewrite (q_bits _ _ Hok) in Hb by lia.
  apply bool_decide_eq_true in Hb. destruct (queue (active (rtq s r)) idx) as [|e l] eqn:Eq; [done|]. exists e, l.
  assert (e ∈ queue (active (rtq s r)) idx) as He by (rewrite Eq; left). split; [done|].
  destruct (q_prio _ _ Hok _ _ He) as [Hp _]. apply (q_linked _ _ Hok) in He as [? He]. split_and!; [done| |done]. apply on_rt_rq_true. eauto.
Qed.

Lemma path_child s x e :
  tree s → parent (ent s x) = Some e → length (for_each_sched_rt_entity s x) = S (length (for_each_sched_rt_entity s e)).
Proof.
  intros Ht Hp. destruct (levels_pos s x Ht) as [n En]. pose proof (t_complete _ Ht x) as Hx. pose proof (t_complete _ Ht e) as He.
  unfold for_each_sched_rt_entity. rewrite En in Hx |- * at 1. simpl in Hx |- *. rewrite Hp in Hx |- *. f_equal.
  apply Nat.le_antisymm; apply complete_length; try done; by apply path_length.
Qed.

(** The loop from run queue [r] on, whose entities are at depth [d]. *)
Lemma pick_rt_entities_ok fuel : ∀ s r d,
  rt_inv s → 0 < rt_nr_running (rtq s r) →
  (∀ e, se_rt_rq (ent s e) = r → length (for_each_sched_rt_entity s e) = S d) → (levels s ≤ fuel + d)%nat →
  ∃ p l, pick_rt_entities fuel r s = (Some p, s) ∧ my_q (ent s p) = None ∧ queued_below s r p ∧
    prio (task s p) = hp_curr (rtq s r) ∧
    queue (active (rtq s (se_rt_rq (ent s p)))) (prio (task s p)) = p :: l.
Proof.
  assert (∀ s, BUG_ON false s = s) as Hnop.
  { intros []. unfold BUG_ON. simpl. by rewrite orb_false_r. }
  induction fuel as [|fuel IH]; intros s r d HI Hrun Hd Hl.
  - destruct (first_entity s r HI Hrun) as (_ & _ & e & l & _ & Hr & _). specialize (Hd e Hr).
    pose proof (complete_length s (levels s) (levels s) (Some e)) as Hle. unfold for_each_sched_rt_entity in Hd.
    rewrite Hd in Hle. pose proof (t_complete _ (i_tree _ HI) e). specialize (Hle ltac:(done) ltac:(done)). lia.
  - cbn [pick_rt_entities]. destruct (first_entity s r HI Hrun) as (Eidx & Hidx & e & l & Eq & Hr & Hon & Hp).
    rewrite Eq, (proj2 (Z.leb_gt _ _)) by lia. rewrite Hnop. unfold group_rt_rq. destruct (my_q (ent s e)) as [g|] eqn:Emy.
    + assert (group_ready s g = true) as Hready by (rewrite <- (i_group _ HI e g Emy); done).
      unfold group_ready in Hready. apply andb_true_iff in Hready as [Hn _]. 
      assert (0 ≤ rt_nr_running (rtq s g)).
      { rewrite (q_running _ _ (i_rq _ HI g)). unfold qsum. apply sumZ_nonneg, Forall_fmap, Forall_true. intros p'. by apply lsum_nonneg. }
      destruct (IH s g (S d) HI) as (p & l' & Epick & Hmy & Hbelow & Hprio & Hhead).
      * destruct (Z.eqb_spec (rt_nr_running (rtq s g)) 0); [done|lia].
      * intros x Hx. rewrite <- (Hd e Hr). assert (parent (ent s x) = Some e) as Hpar by (apply (t_parent _ (i_tree _ HI)); by rewrite Hx).
        apply path_child; [apply HI|done].
      * lia.
      * exists p, l'. rewrite Hprio. assert (hp_curr (rtq s g) = hp_curr (rtq s r)) as Ehp.
        { rewrite <- Eidx, <- Hp. unfold rt_se_prio, group_rt_rq. by rewrite Emy. }
        split_and!; [done|done| |done|congruence]. clear - Hbelow Emy Hr Hon.
        induction Hbelow as [x Hx Hxon|x o Ho Hxon _ IH]; [|by eapply below_group].
        eapply (below_group _ _ x e); [by rewrite Hx|done|by apply below_here].
    + exists e, l. assert (rt_se_prio s e = prio (task s e)) as Ep by (unfold rt_se_prio, group_rt_rq; by rewrite Emy).
      rewrite Hr, <- Ep, Hp. split_and!; [done|done|by apply below_here|done|done].
Qed.

Lemma path_root s e : tree s → parent (ent s e) = None → length (for_each_sched_rt_entity s e) = 1%nat.
Proof.
  intros Ht Hp. destruct (levels_pos s e Ht) as [n En]. unfold for_each_sched_rt_entity. rewrite En. simpl. rewrite Hp. by destruct n.
Qed.

Lemma pick_next_effect c s :
  rt_inv s → (∀ o, my_q (ent s o) ≠ Some (rt (cpu_rq s c))) →
  let r := rt (cpu_rq s c) in
  if (rt_nr_running (rtq s r) =? 0) || rt_rq_throttled s r then _pick_next_task_rt c s = (None, s)
  else ∃ p l, _pick_next_task_rt c s = (Some p, set_exec_start (clock_task (cpu_rq s c)) p s) ∧ my_q (ent s p) = None ∧
    queued_below s r p ∧ prio (task s p) = hp_curr (rtq s r) ∧
    queue (active (rtq s (se_rt_rq (ent s p)))) (prio (task s p)) = p :: l.
Proof.
  intros HI Hroot r. unfold _pick_next_task_rt. fold r.
  destruct (Z.eqb_spec (rt_nr_running (rtq s r)) 0) as [E|E]; [done|]. simpl.
  destruct (rt_rq_throttled s r) eqn:Et; [done|].
  assert (0 ≤ rt_nr_running (rtq s r)).
  { rewrite (q_running _ _ (i_rq _ HI r)). unfold qsum. apply sumZ_nonneg, Forall_fmap, Forall_true. intros p'. by apply lsum_nonneg. }
  destruct (pick_rt_entities_ok (levels s) s r 0 HI) as (p & l & Epick & Hmy & Hb & Hp & Hq); [lia| |lia|].
  - intros e He. apply path_root; [apply HI|]. destruct (parent (ent s e)) as [o|] eqn:Ep; [|done]. exfalso.
    apply (t_parent _ (i_tree _ HI)) in Ep. rewrite He in Ep. by apply (Hroot o).
  - exists p, l. rewrite Epick. split_and!; done.
Qed.

(** C27: [pick_next_task_rt] finds no task exactly when nothing is queued on the
    CPU or its real-time time is used up; else the task it gives is queued,
    with the groups it belongs to, stands first in its queue, and no other task
    queued on the CPU has a higher priority.  No assertion fails, the loop over
    the groups ends, and the task picked is not left among those that may be
    pushed away. *)
Theorem pick_next_task_ok c s :
  rt_inv s → (∀ o, my_q (ent s o) ≠ Some (rt (cpu_rq s c))) →
  let r := rt (cpu_rq s c) in
  let '(p, s') := pick_next_task_rt c s in
  bugs s' = bugs s ∧ post_schedule (cpu_rq s' c) = has_pushable_tasks c s' ∧
  match p with
  | None => rt_nr_running (rtq s r) = 0 ∨ rt_rq_throttled s r = true
  | Some p =>
      rt_nr_running (rtq s r) ≠ 0 ∧ rt_rq_throttled s r = false ∧ rt_entity_is_task s p = true ∧ queued_below s r p ∧
      (∃ l, queue (active (rtq s (se_rt_rq (ent s p)))) (prio (task s p)) = p :: l) ∧
      (∀ x, rt_entity_is_task s x = true → queued_below s r x → prio (task s p) ≤ prio (task s x)) ∧
      p ∉ plist_nodes (pushable_tasks (rtq s' r))
  end.
Proof.
  intros HI Hroot r. pose proof (pick_next_effect c s HI Hroot) as H. cbv zeta in H. fold r in H.
  unfold pick_next_task_rt. destruct (_ || _) eqn:E.
  - rewrite H. split; [done|]. split; [unfold has_pushable_tasks; simpl; by rewrite !fn_lookup_insert|]. apply orb_true_iff in E as [E|E]; [left; lia|by right].
  - destruct H as (p & l & -> & Hmy & Hb & Hp & Hq). apply orb_false_iff in E as [E1 E2].
    split; [done|]. split; [unfold has_pushable_tasks; simpl; by rewrite !fn_lookup_insert|].
    split_and!; [lia|done|unfold rt_entity_is_task; by rewrite Hmy|done|eauto| |].
    + intros x Hx Hbx. rewrite Hp. pose proof (below_prio s r x HI Hbx) as Hle. unfold rt_entity_is_task in Hx.
      unfold rt_se_prio, group_rt_rq in Hle. by destruct (my_q (ent s x)).
    + simpl. fold r. rewrite fn_lookup_insert. cbn [pushable_tasks with_pushable]. rewrite plist_del_nodes. tauto.
Qed.

(** Of the tasks 200, 202 and 204, the first is picked. *)
Lemma pick_next_task_ok_witness : (pick_next_task_rt 0 example_queued).1 = Some 200%nat ∧ bugs (pick_next_task_rt 0 example_queued).2 = false.
Proof.
  destruct example_queued_inv as [HI St]. pose proof (pick_next_task_ok 0 example_queued HI) as H.
  assert (∀ o, my_q (ent example_queued o) ≠ Some (rt (cpu_rq example_queued 0))) as Hroot.
  { intros o. rewrite (st_my_q _ _ St), example_group, (proj1 (st_root _ _ St 0%nat)). destruct (Nat.odd o) eqn:E; [|done]. by intros [= ->]. }
  specialize (H Hroot). cbv zeta in H. destruct (pick_next_task_rt 0 example_queued) as [p s'] eqn:E. destruct H as (Hb & _ & Hp).
  split; [|simpl; rewrite Hb; apply (st_bugs _ _ St)].
  assert (p = (pick_next_task_rt 0 example_queued).1) as -> by (by rewrite E). vm_compute. reflexivity.
Defined.
