(* ===== verification/RtOps.v ===== *)
(** * The operations of the class on one CPU keep the invariant

    Each operation is described by what it does to the queues, to the tasks
    that may be pushed, and by what it leaves alone. *)

From stdpp Require Import functions.
From S2P Require Import Prelude Bitmap CpuPri Plist RtRq RtInv RtWalk RtFrame RtExample RtBandwidth RtClass RtTime.

(** ** Moving entities within their queue *)

(** Queue [p] of [r] has entity [e] moved to an end. *)
Record rotated (e r : nat) (p : Z) (head : bool) (s s' : sys) : Prop := {
  ro_ent : ∀ x, ent s' x = ent s x;
  ro_frame : frame s s';
  ro_bugs : bugs s' = bugs s;
  ro_rt : ∀ r', (bits (active (rtq s' r')), rt_nr_running (rtq s' r'), hp_curr (rtq s' r'), rt_nr_boosted (rtq s' r')) =
                (bits (active (rtq s r')), rt_nr_running (rtq s r'), hp_curr (rtq s r'), rt_nr_boosted (rtq s r'));
  ro_queue : ∀ r' p', queue (active (rtq s' r')) p' =
    if decide (r' = r ∧ p' = p) then added head e (filter (λ x, x ≠ e) (queue (active (rtq s r)) p)) else queue (active (rtq s r')) p'
}.

Lemma with_run_list_same e : with_run_list (run_list e) e = e.
Proof. by destruct e. Qed.

Lemma requeue_rt_entity_effect e p head s :
  run_list (ent s e) = Some p → rt_se_prio s e = p → my_q (ent s e) ≠ Some (se_rt_rq (ent s e)) →
  rotated e (se_rt_rq (ent s e)) p head s (requeue_rt_entity (rt_rq_of_se s e) e head s).
Proof.
  intros Hp Hprio _. unfold requeue_rt_entity, rt_rq_of_se. set (r := se_rt_rq (ent s e)).
  assert (on_rt_rq s e = true) as -> by (apply on_rt_rq_true; eauto). rewrite Hprio.
  pose proof (unlink_entity_set e p r s Hp) as H1. cbv zeta in H1. set (s1 := unlink_entity e r s) in *.
  pose proof (link_entity_set e head p r s1) as H2. cbv zeta in H2. set (s2 := link_entity e head p r s1) in *.
  pose proof (es_rt _ _ _ _ _ _ H1 r) as C1. rewrite decide_True in C1 by done. apply core_inv in C1 as (A1 & A2 & A3 & A4 & A5 & A6).
  assert (frame s s2) as Hf.
  { transitivity s1.
    - unfold s1, unlink_entity. rewrite Hp. etrans; [apply upd_ent_frame|]. auto with frame.
    - unfold s2, link_entity. etrans; [apply upd_ent_frame|]. auto with frame. }
  assert (∀ r', core (rtq s2 r') = if decide (r' = r) then
      (mk_array (bits (active (rtq s r))) (<[p := added head e (filter (λ x, x ≠ e) (queue (active (rtq s r)) p))]>
         (<[p := filter (λ x, x ≠ e) (queue (active (rtq s r)) p)]> (queue (active (rtq s r))))),
       rt_nr_running (rtq s r), hp_curr (rtq s r), rt_nr_boosted (rtq s r), rt_throttled (rtq s r), rt_cpu (rtq s r))
      else core (rtq s r')) as Hcore.
  { intros r'. rewrite (es_rt _ _ _ _ _ _ H2). case_decide as E.
    - rewrite A1, A2, A3, A4, A5, A6. cbn [bits queue]. by rewrite fn_lookup_insert.
    - rewrite (es_rt _ _ _ _ _ _ H1). by rewrite decide_False. }
  split.
  - intros x. rewrite (es_ent _ _ _ _ _ _ H2), !(es_ent _ _ _ _ _ _ H1). destruct (decide (x = e)) as [->|]; [|done].
    rewrite decide_True by done. unfold with_run_list. simpl. rewrite <- Hp. apply with_run_list_same.
  - done.
  - by rewrite (es_bugs _ _ _ _ _ _ H2), (es_bugs _ _ _ _ _ _ H1).
  - intros r'. specialize (Hcore r'). case_decide as E; [subst r'|]; apply core_inv in Hcore as (-> & -> & -> & -> & _); done.
  - intros r' p'. specialize (Hcore r'). destruct (decide (r' = r)) as [->|Hne].
    + apply core_inv in Hcore as (-> & _). cbn [queue]. destruct (decide (p' = p)) as [->|Hp'].
      * rewrite fn_lookup_insert. by rewrite decide_True.
      * rewrite !fn_lookup_insert_ne by done. by rewrite decide_False by tauto.
    + apply core_inv in Hcore as (-> & _). by rewrite decide_False by tauto.
Qed.

(** Queues that are permuted keep the invariant. *)
Record permuted (s s' : sys) : Prop := {
  pm_ent : ∀ x, ent s' x = ent s x;
  pm_frame : frame s s';
  pm_bugs : bugs s' = bugs s;
  pm_rt : ∀ r, (bits (active (rtq s' r)), rt_nr_running (rtq s' r), hp_curr (rtq s' r), rt_nr_boosted (rtq s' r)) =
               (bits (active (rtq s r)), rt_nr_running (rtq s r), hp_curr (rtq s r), rt_nr_boosted (rtq s r));
  pm_queue : ∀ r p, queue (active (rtq s' r)) p ≡ₚ queue (active (rtq s r)) p
}.
#[global] Instance permuted_preorder : PreOrder permuted.
Proof.
  split; [by split|]. intros s t u [H1 H2 H3 H4 H5] [K1 K2 K3 K4 K5]. split.
  - intros x. by rewrite K1.
  - by etrans.
  - congruence.
  - intros r. by rewrite K4.
  - intros r p. by rewrite K5.
Qed.

Lemma lsum_perm f l k : l ≡ₚ k → lsum f l = lsum f k.
Proof. induction 1; rewrite ?lsum_cons in *; lia. Qed.
Lemma qsum_perm f q q' : (∀ p, q p ≡ₚ q' p) → qsum f q = qsum f q'.
Proof. intros H. unfold qsum. f_equal. apply Forall_fmap_ext, Forall_true. intros p. by apply lsum_perm. Qed.

Lemma permuted_inv s s' : permuted s s' → rt_inv s → rt_inv s'.
Proof.
  intros [He Hf Hb Hr Hq] [Ht Hok Hg].
  assert (∀ r, bits (active (rtq s' r)) = bits (active (rtq s r)) ∧ rt_nr_running (rtq s' r) = rt_nr_running (rtq s r) ∧
    hp_curr (rtq s' r) = hp_curr (rtq s r) ∧ rt_nr_boosted (rtq s' r) = rt_nr_boosted (rtq s r)) as Hr'.
  { intros r. pose proof (Hr r) as E. by injection E. }
  assert (∀ e, rt_se_prio s' e = rt_se_prio s e ∧ rt_se_boosted s' e = rt_se_boosted s e) as Hp.
  { intros e. unfold rt_se_prio, rt_se_boosted, group_rt_rq. rewrite (He e), (fr_task _ _ Hf). destruct (my_q (ent s e)) as [g|]; [|done].
    by destruct (Hr' g) as (_ & _ & -> & ->). }
  split.
  - split; [intros e o; rewrite !He; apply Ht|]. intros e. rewrite (proj2 (fr_this _ _ Hf)). pose proof (t_complete _ Ht e) as Hc.
    revert Hc. generalize (Some e) as oe. generalize (levels s) as n. induction n as [|n IH]; intros [x|]; simpl; try done. rewrite He. apply IH.
  - intros r. destruct (Hr' r) as (E1 & E2 & E3 & E4), (Hok r) as [H1 H2 H3 H4 H5 H6 H7 H8 H9].
    split; rewrite ?E1, ?E2, ?E3, ?E4; try done.
    + intros p Hpr. rewrite H2 by done. apply bool_decide_ext. split; intros Hne E; apply Hne.
      * specialize (Hq r p). rewrite E in Hq. by apply Permutation_nil in Hq.
      * specialize (Hq r p). rewrite E in Hq. by symmetry in Hq; apply Permutation_nil in Hq.
    + intros e p. by rewrite (Hq r p), He, H4.
    + intros p. by rewrite (Hq r p).
    + intros e p. rewrite (Hq r p), (proj1 (Hp e)). apply H6.
    + rewrite H7. symmetry. apply qsum_perm, Hq.
    + rewrite H9, (qsum_perm _ _ _ (λ p, Hq r p)). apply qsum_ext. intros p x _ _. by rewrite (proj2 (Hp x)).
  - intros e g. rewrite He. intros Hmy. specialize (Hg e g Hmy). unfold on_rt_rq, group_ready, rt_rq_throttled in *. rewrite He, Hg.
    destruct (Hr' g) as (_ & -> & _ & ->). pose proof (fr_rt _ _ Hf g) as E. injection E as _ _ _ -> _ _. done.
Qed.

Lemma added_perm head e q : NoDup q → e ∈ q → added head e (filter (λ x, x ≠ e) q) ≡ₚ q.
Proof.
  intros Hnd He. assert (e :: filter (λ x, x ≠ e) q ≡ₚ q) as H.
  { apply NoDup_Permutation.
    - constructor; [by intros [? _]%list_elem_of_filter|by apply NoDup_filter].
    - done.
    - intros x. rewrite elem_of_cons, list_elem_of_filter. destruct (decide (x = e)) as [->|]; naive_solver. }
  unfold added. destruct head; [done|]. by rewrite (Permutation_app_comm _ [e]).
Qed.

(** One entity: its queue is rotated, if it is on one. *)
Lemma requeue_one e head s :
  rt_inv s →
  let s' := requeue_rt_entity (rt_rq_of_se s e) e head s in
  permuted s s' ∧
  (∀ r p, se_rt_rq (ent s e) ≠ r → queue (active (rtq s' r)) p = queue (active (rtq s r)) p) ∧
  (∀ p, queue (active (rtq s' (se_rt_rq (ent s e)))) p =
    let q := queue (active (rtq s (se_rt_rq (ent s e)))) p in
    if on_rt_rq s e && bool_decide (p = rt_se_prio s e) then added head e (filter (λ x, x ≠ e) q) else q).
Proof.
  intros HI s'. destruct (on_rt_rq s e) eqn:Eon.
  - pose proof Eon as [p Hp]%on_rt_rq_true. assert (e ∈ queue (active (rtq s (se_rt_rq (ent s e)))) p) as Hin.
    { by apply (q_linked _ _ (i_rq _ HI _)). }
    destruct (q_prio _ _ (i_rq _ HI _) _ _ Hin) as [Hprio _].
    pose proof (requeue_rt_entity_effect e p head s Hp Hprio (no_self s (i_tree _ HI) e)) as [H1 H2 H3 H4 H5]. fold s' in H1, H2, H3, H4, H5.
    split; [split; [done|done|done|done|]|split].
    + intros r p'. rewrite H5. case_decide as E; [|done]. destruct E as [-> ->]. apply added_perm; [apply (i_rq _ HI)|done].
    + intros r p' Hne. rewrite H5, decide_False by naive_solver. done.
    + intros p'. rewrite H5, Hprio. simpl. destruct (decide (p' = p)) as [->|Hne].
      * rewrite decide_True by done. by rewrite bool_decide_eq_true_2.
      * rewrite decide_False by tauto. by rewrite bool_decide_eq_false_2.
  - unfold s', requeue_rt_entity. rewrite Eon. split_and!; [reflexivity|done|done].
Qed.

Lemma requeue_others l head : ∀ s, rt_inv s →
  let s' := foldl (λ s e, requeue_rt_entity (rt_rq_of_se s e) e head s) s l in
  permuted s s' ∧ ∀ r, (∀ x, x ∈ l → se_rt_rq (ent s x) ≠ r) → ∀ p, queue (active (rtq s' r)) p = queue (active (rtq s r)) p.
Proof.
  induction l as [|e l IH]; intros s HI; simpl; [split; [reflexivity|done]|].
  destruct (requeue_one e head s HI) as (H1 & H2 & _). destruct (IH _ (permuted_inv _ _ H1 HI)) as [H3 H4].
  split; [by etrans|]. intros r Hr p. rewrite H4.
  - apply H2, Hr. left.
  - intros x Hx. rewrite (pm_ent _ _ H1). apply Hr. by right.
Qed.

(** [requeue_task_rt] moves the task to an end of its queue, and its groups in
    theirs. *)
Lemma requeue_task_rt_ok e head s :
  rt_inv s → my_q (ent s e) = None →
  let s' := requeue_task_rt e head s in
  permuted s s' ∧ rt_inv s' ∧
  ∀ p, queue (active (rtq s' (se_rt_rq (ent s e)))) p =
    let q := queue (active (rtq s (se_rt_rq (ent s e)))) p in
    if on_rt_rq s e && bool_decide (p = prio (task s e)) then added head e (filter (λ x, x ≠ e) q) else q.
Proof.
  intros HI Hmy s'. pose proof (i_tree _ HI) as Ht. destruct (levels_pos s e Ht) as [n En]. pose proof (t_complete _ Ht e) as Hc.
  unfold s', requeue_task_rt, for_each_sched_rt_entity. rewrite En in Hc |- *. pose proof Hc as Hc'. simpl in Hc. cbn [sched_rt_entities foldl].
  destruct (requeue_one e head s HI) as (H1 & _ & H2). set (s1 := requeue_rt_entity _ e head s) in *.
  pose proof (permuted_inv _ _ H1 HI) as HI1. destruct (requeue_others (path n s (parent (ent s e))) head s1 HI1) as [H3 H4].
  assert (permuted s (foldl (λ s e, requeue_rt_entity (rt_rq_of_se s e) e head s) s1 (path n s (parent (ent s e))))) as H by (by etrans).
  split_and!; [done|by eapply permuted_inv|]. intros p. rewrite H4.
  - rewrite H2. unfold rt_se_prio, group_rt_rq. by rewrite Hmy.
  - intros x Hx. rewrite (pm_ent _ _ H1). intros E.
    assert (x = e) as -> by (eapply (path_unique_rq s Ht (S n) (Some e)); [done|by right|by left|done]).
    pose proof (path_nodup s (S n) (Some e) Hc') as Hnd. simpl in Hnd. by apply NoDup_cons in Hnd as [? _].
Qed.

(** ** The tick *)

Lemma sq_tasks s s' r p : same_queues s s' → tasks_of s' r p = tasks_of s r p.
Proof.
  intros H. unfold tasks_of. destruct (sq_queue s s' r H) as (-> & _). apply list_filter_iff. intros x. by destruct (sq_entity s s' x H) as (_ & _ & _ & ->).
Qed.

Lemma filter_added_task (P : nat → Prop) `{∀ x, Decision (P x)} head e q :
  ¬ P e → filter P (added head e (filter (λ x, x ≠ e) q)) = filter P q.
Proof.
  intros He. assert (filter P (filter (λ x, x ≠ e) q) = filter P q) as E.
  { rewrite list_filter_filter. apply list_filter_iff. intros x. split; [tauto|]. intros Hx. split; [done|]. by intros ->. }
  unfold added. destruct head; [by rewrite filter_cons_False|]. by rewrite filter_app, (filter_cons_False _ e []), filter_nil, app_nil_r.
Qed.

Lemma pm_tasks s s' r p : (∀ x, ent s' x = ent s x) → queue (active (rtq s' r)) p = queue (active (rtq s r)) p → tasks_of s' r p = tasks_of s r p.
Proof. intros He Hq. unfold tasks_of. rewrite Hq. apply list_filter_iff. intros x. by rewrite He. Qed.

Lemma requeue_groups l head : ∀ s, rt_inv s → (∀ x, x ∈ l → ∃ g, my_q (ent s x) = Some g) →
  let s' := foldl (λ s e, requeue_rt_entity (rt_rq_of_se s e) e head s) s l in ∀ r p, tasks_of s' r p = tasks_of s r p.
Proof.
  induction l as [|e l IH]; intros s HI Hl; [done|]. cbn [foldl]. cbv zeta. intros r p.
  destruct (requeue_one e head s HI) as (H1 & H2 & H3). set (s1 := requeue_rt_entity _ e head s) in *.
  rewrite IH; [|by eapply permuted_inv|intros x Hx; rewrite (pm_ent _ _ H1); apply Hl; by right].
  destruct (decide (se_rt_rq (ent s e) = r)) as [<-|Hne]; [|apply pm_tasks; [apply H1|by apply H2]].
  unfold tasks_of. rewrite H3. cbv zeta. destruct (_ && _); [|apply list_filter_iff; intros x; by rewrite (pm_ent _ _ H1)].
  destruct (Hl e ltac:(left)) as [g Hg]. rewrite filter_added_task; [|rewrite (pm_ent _ _ H1); congruence].
  apply list_filter_iff. intros x. by rewrite (pm_ent _ _ H1).
Qed.

Lemma requeue_task_order e head s :
  rt_inv s → my_q (ent s e) = None → ∀ r p,
  tasks_of (requeue_task_rt e head s) r p =
  if on_rt_rq s e && bool_decide (r = se_rt_rq (ent s e) ∧ p = prio (task s e))
  then added head e (filter (λ x, x ≠ e) (tasks_of s r p)) else tasks_of s r p.
Proof.
  intros HI Hmy r p. pose proof (i_tree _ HI) as Ht. destruct (levels_pos s e Ht) as [n En]. pose proof (t_complete _ Ht e) as Hc.
  unfold requeue_task_rt, for_each_sched_rt_entity. rewrite En in Hc |- *. simpl in Hc. cbn [sched_rt_entities foldl].
  destruct (requeue_one e head s HI) as (H1 & H2 & H3). set (s1 := requeue_rt_entity _ e head s) in *.
  rewrite requeue_groups; [|by eapply permuted_inv|intros x Hx; rewrite (pm_ent _ _ H1); by eapply path_tail_group].
  destruct (decide (se_rt_rq (ent s e) = r)) as [<-|Hne].
  - unfold tasks_of. rewrite H3. cbv zeta. assert (rt_se_prio s e = prio (task s e)) as -> by (unfold rt_se_prio, group_rt_rq; by rewrite Hmy).
    rewrite (bool_decide_ext (se_rt_rq (ent s e) = se_rt_rq (ent s e) ∧ p = prio (task s e)) (p = prio (task s e))) by tauto.
    destruct (_ && _); [|apply list_filter_iff; intros x; by rewrite (pm_ent _ _ H1)].
    assert (∀ q : list nat, filter (λ x, my_q (ent s1 x) = None) (filter (λ x, x ≠ e) q) =
                 filter (λ x, x ≠ e) (filter (λ x, my_q (ent s x) = None) q)) as Ef.
    { intros q. rewrite !list_filter_filter. apply list_filter_iff. intros x. rewrite (pm_ent _ _ H1). tauto. }
    unfold added. destruct head; [rewrite filter_cons_True|rewrite filter_app, (filter_cons_True _ e []), filter_nil];
      rewrite ?(pm_ent _ _ H1), ?Ef; done.
  - rewrite (bool_decide_eq_false_2 (r = _ ∧ _)) by naive_solver. rewrite andb_false_r. apply pm_tasks; [apply H1|by apply H2].
Qed.

(** A change of the fields of entities and tasks the queues do not depend on. *)
Record minor (s s' : sys) : Prop := {
  mi_queues : same_queues s s';
  mi_rt : rtq s' = rtq s;
  mi_bugs : bugs s' = bugs s
}.
#[global] Instance minor_preorder : PreOrder minor.
Proof. split; [by split|]. intros s t u [] []. split; [by etrans|congruence|congruence]. Qed.

Lemma minor_inv s s' : minor s s' → rt_inv s → rt_inv s'.
Proof. intros [H E _]. apply sq_inv; [done|]. intros x g _. by rewrite E. Qed.
Lemma minor_upd_task p f s : (∀ t, (prio (f t), normal_prio (f t)) = (prio t, normal_prio t)) → minor s (upd_task p f s).
Proof. intros Hf. split; [by apply sq_upd_task|done|done]. Qed.
Lemma minor_upd_ent e f s :
  (∀ t, (run_list (f t), parent (f t), se_rt_rq (f t), my_q (f t)) = (run_list t, parent t, se_rt_rq t, my_q t)) → minor s (upd_ent e f s).
Proof. intros Hf. split; [by apply sq_upd_ent|done|done]. Qed.

Lemma watchdog_minor p s :
  minor s (watchdog p s) ∧ (∀ x, time_slice (ent (watchdog p s) x) = time_slice (ent s x)) ∧
  (∀ x, policy (task (watchdog p s) x) = policy (task s x)).
Proof.
  unfold watchdog. destruct (_ =? RLIM_INFINITY); [split; [reflexivity|done]|]. set (s1 := set_timeout _ p s).
  assert (minor s s1 ∧ (∀ x, time_slice (ent s1 x) = time_slice (ent s x)) ∧ task s1 = task s) as (H1 & H2 & H3).
  { split; [by apply minor_upd_ent|]. split; [|done]. intros x. unfold s1, set_timeout. simpl.
    destruct (decide (x = p)) as [->|]; [by rewrite fn_lookup_insert|by rewrite fn_lookup_insert_ne]. }
  destruct (_ <? _); [|split_and!; [done|done|]; intros x; by rewrite H3]. split_and!.
  - etrans; [exact H1|]. by apply minor_upd_task.
  - done.
  - intros x. unfold set_sched_exp. simpl. destruct (decide (x = p)) as [->|]; [by rewrite fn_lookup_insert|by rewrite fn_lookup_insert_ne].
Qed.

Lemma time_slice_set v p s : time_slice (ent (set_time_slice v p s) p) = v.
Proof. unfold set_time_slice. simpl. by rewrite fn_lookup_insert. Qed.

(** The state before the time slice is looked at. *)
Lemma tick_start c p s :
  rt_inv s → owners s →
  let s1 := watchdog p (update_curr_rt c s) in
  rt_inv s1 ∧ bugs s1 = bugs s ∧ (∀ r i, tasks_of s1 r i = tasks_of s r i) ∧
  (∀ x, my_q (ent s1 x) = my_q (ent s x) ∧ (my_q (ent s x) = None → run_list (ent s1 x) = run_list (ent s x)) ∧
        se_rt_rq (ent s1 x) = se_rt_rq (ent s x) ∧ time_slice (ent s1 x) = time_slice (ent s x)) ∧
  (∀ x, prio (task s1 x) = prio (task s x) ∧ policy (task s1 x) = policy (task s x)).
Proof.
  intros HI Ho. destruct (update_curr_rt_ok c s HI Ho) as [HI1 Ht1]. set (s0 := update_curr_rt c s) in *. clearbody s0.
  destruct (watchdog_minor p s0) as (Hm & Hts & Hpol). cbv zeta. set (s1 := watchdog p s0) in *. clearbody s1.
  pose proof (mi_queues _ _ Hm) as Hsq. split; [by eapply minor_inv|]. split.
  { rewrite (mi_bugs _ _ Hm). pose proof (ti_flags _ _ Ht1) as E. by injection E. }
  split; [intros r i; by rewrite (sq_tasks _ _ _ _ Hsq), (ti_order _ _ Ht1)|]. split.
  - intros x. destruct (sq_entity _ _ x Hsq) as (-> & _ & -> & ->). rewrite Hts. pose proof (ti_ent _ _ Ht1 x) as E. injection E as E1 E2 E3 E4 E5 E6.
    rewrite E2, E5, E6. split_and!; [done| |done|done]. apply (ti_list _ _ Ht1).
  - intros x. rewrite Hpol. pose proof (sq_prio _ _ Hsq x) as E. injection E as -> _. pose proof (ti_task _ _ Ht1 x) as E.
    unfold untimed in E. injection E as -> _ -> _ _ _ _ _ _ _ _. done.
Qed.

Lemma alone_tasks s p :
  rt_inv s → my_q (ent s p) = None → on_rt_rq s p = true → not_alone s p = false → tasks_of s (se_rt_rq (ent s p)) (prio (task s p)) = [p].
Proof.
  intros HI Hmy [i Hi]%on_rt_rq_true Ha. assert (p ∈ queue (active (rtq s (se_rt_rq (ent s p)))) i) as Hin.
  { by apply (q_linked _ _ (i_rq _ HI _)). }
  destruct (q_prio _ _ (i_rq _ HI _) _ _ Hin) as [Hprio _]. unfold rt_se_prio, group_rt_rq in Hprio. rewrite Hmy in Hprio. rewrite Hprio.
  unfold not_alone, rt_rq_of_se in Ha. rewrite Hi in Ha. unfold tasks_of.
  destruct (queue (active (rtq s (se_rt_rq (ent s p)))) i) as [|x [|y l]]; [by apply not_elem_of_nil in Hin| |done].
  apply list_elem_of_singleton in Hin as <-. by rewrite filter_cons_True.
Qed.

(** The end of a time slice. *)
Lemma tick_end p s :
  rt_inv s → my_q (ent s p) = None →
  let s' := if not_alone s p then resched_task p (requeue_task_rt p false s) else s in
  rt_inv s' ∧ bugs s' = bugs s ∧ (∀ x, ent s' x = ent s x) ∧
  (∀ r i, tasks_of s' r i =
    if on_rt_rq s p && bool_decide (r = se_rt_rq (ent s p) ∧ i = prio (task s p))
    then filter (λ x, x ≠ p) (tasks_of s r i) ++ [p] else tasks_of s r i) ∧
  (on_rt_rq s p = true → (1 < length (tasks_of s (se_rt_rq (ent s p)) (prio (task s p))))%nat → need_resched (task s' p) = true).
Proof.
  intros HI Hmy. destruct (not_alone s p) eqn:Ea; cbv zeta.
  - destruct (requeue_task_rt_ok p false s HI Hmy) as (Hp & HI1 & _). pose proof (requeue_task_order p false s HI Hmy) as Ho.
    set (s1 := requeue_task_rt p false s) in *. clearbody s1. assert (minor s1 (resched_task p s1)) as Hm by (by apply minor_upd_task).
    split_and!; [by eapply minor_inv|by rewrite (mi_bugs _ _ Hm), (pm_bugs _ _ Hp)|apply Hp| |].
    + intros r i. rewrite (sq_tasks _ _ _ _ (mi_queues _ _ Hm)). apply Ho.
    + intros _ _. unfold resched_task. simpl. by rewrite fn_lookup_insert.
  - split_and!; [done|done|done| |].
    + intros r i. destruct (on_rt_rq s p) eqn:Eon; [|done]. simpl. destruct (bool_decide _) eqn:Eb; [|done].
      apply bool_decide_eq_true in Eb as [-> ->]. rewrite (alone_tasks s p) by done. by rewrite (filter_cons_False _ p []) by tauto.
    + intros Hon. rewrite (alone_tasks s p) by done. simpl. lia.
Qed.

(** The tick of a running task.  A round-robin task whose time slice is used
    up gets a new one and goes to the end of the tasks of its priority, and if
    there are others the CPU is asked to reschedule; any other task keeps its
    place, and so do all tasks on other queues.  No task leaves or enters a
    queue, the invariant of the run queues is kept (also when the charge throttles
    a group), and no assertion fails. *)
Theorem task_tick_rt_ok c p s :
  rt_inv s → owners s → rt_entity_is_task s p = true →
  let s' := task_tick_rt c p s in
  let r := se_rt_rq (ent s p) in
  let rotates := (policy (task s p) =? SCHED_RR) && (u32 (time_slice (ent s p) - 1) =? 0) in
  rt_inv s' ∧ bugs s' = bugs s ∧
  (∀ x, rt_entity_is_task s x = true → run_list (ent s' x) = run_list (ent s x)) ∧
  time_slice (ent s' p) =
    (if negb (policy (task s p) =? SCHED_RR) then time_slice (ent s p)
     else if rotates then DEF_TIMESLICE else u32 (time_slice (ent s p) - 1)) ∧
  (∀ r' i, tasks_of s' r' i =
    if rotates && on_rt_rq s p && bool_decide (r' = r ∧ i = prio (task s p))
    then filter (λ x, x ≠ p) (tasks_of s r' i) ++ [p] else tasks_of s r' i) ∧
  (rotates = true → on_rt_rq s p = true → (1 < length (tasks_of s r (prio (task s p))))%nat → need_resched (task s' p) = true).
Proof.
  intros HI Ho Htask s' r rotates. unfold rt_entity_is_task in *.
  assert (my_q (ent s p) = None) as Hmy by (by destruct (my_q (ent s p))).
  destruct (tick_start c p s HI Ho) as (HI1 & Hb1 & Hq1 & He1 & Hp1). unfold s', task_tick_rt.
  set (s1 := watchdog p (update_curr_rt c s)) in *. clearbody s1. destruct (He1 p) as (E1 & E2 & E3 & E4), (Hp1 p) as [E5 E6].
  assert (∀ x, match my_q (ent s x) with None => true | Some _ => false end = true → run_list (ent s1 x) = run_list (ent s x)) as Hlist.
  { intros x Hx. apply He1. by destruct (my_q (ent s x)). }
  rewrite E6. unfold rotates. destruct (policy (task s p) =? SCHED_RR); simpl; [|split_and!; done].
  rewrite E4. set (v := u32 (time_slice (ent s p) - 1)). assert (∀ v, minor s1 (set_time_slice v p s1)) as Hm by (intros w; by apply minor_upd_ent).
  rewrite fn_lookup_insert. cbn [time_slice]. destruct (Z.eqb_spec v 0) as [Ev|Ev]; simpl.
  - set (s3 := set_time_slice DEF_TIMESLICE p (set_time_slice v p s1)).
    assert (minor s1 s3) as Hm3 by (etrans; [apply (Hm v)|by apply minor_upd_ent]).
    assert (time_slice (ent s3 p) = DEF_TIMESLICE) as Hts by apply time_slice_set.
    pose proof (mi_queues _ _ Hm3) as Hsq. destruct (sq_entity _ _ p Hsq) as (F1 & _ & F3 & F4).
    assert (prio (task s3 p) = prio (task s p)) as F5 by exact E5. clearbody s3.
    destruct (tick_end p s3) as (G1 & G2 & G3 & G4 & G5); [by eapply minor_inv|congruence|].
    assert (on_rt_rq s3 p = on_rt_rq s p) as F6 by (unfold on_rt_rq; rewrite F1, E2; done).
    rewrite F6, F5, F3, E3 in G4, G5. fold r in G4, G5. split_and!; [done|by rewrite G2, (mi_bugs _ _ Hm3)| |by rewrite G3| |].
    + intros x Hx. rewrite G3. destruct (sq_entity _ _ x Hsq) as (-> & _). by apply Hlist.
    + intros r' i. rewrite G4, (sq_tasks _ _ _ _ Hsq), Hq1. done.
    + intros _. rewrite (sq_tasks _ _ _ _ Hsq), Hq1 in G5. done.
  - pose proof (mi_queues _ _ (Hm v)) as Hsq. split_and!; [by apply (minor_inv _ _ (Hm v))|done| | | |done].
    + intros x Hx. pose proof (sq_entity _ _ x Hsq) as (E & _). simpl in E. rewrite E. by apply Hlist.
    + by rewrite fn_lookup_insert.
    + intros r' i. by rewrite (sq_tasks _ _ _ _ Hsq), Hq1.
Qed.

Lemma owners_frame s s' : frame s s' → owners s → owners s'.
Proof.
  intros H Ho r g. pose proof (fr_rt _ _ H r) as E. injection E as -> -> _ _ _ _. rewrite (fr_tgs _ _ H). intros Hg o.
  pose proof (fr_ent _ _ H o) as E. injection E as _ _ _ _ _ ->. by apply Ho.
Qed.
Lemma set_time_slice_owners v p s : owners s → owners (set_time_slice v p s).
Proof.
  intros Ho r g Hg o. assert (my_q (ent (set_time_slice v p s) o) = my_q (ent s o)) as ->; [|by apply Ho].
  simpl. destruct (decide (o = p)) as [->|]; [by rewrite fn_lookup_insert|by rewrite fn_lookup_insert_ne].
Qed.
Lemma example_owners : owners example.
Proof.
  intros r g Hg o. rewrite example_group. cbn [rtq example rt_tg init_rt_rq tgs tg_rt_se rt_cpu] in Hg |- *. apply (inj Some) in Hg. rewrite <- Hg. pose proof (Nat.div_mod_eq r 2) as Hr.
  pose proof (Nat.mod_upper_bound r 2 ltac:(done)). destruct (Nat.eqb_spec (r mod 2) 0) as [E|E].
  - split; [done|]. destruct (Nat.odd o) eqn:Eo; [|done]. intros [= ->]. apply Nat.odd_spec in Eo as [k ->]. lia.
  - assert (r = 2 * (r / 2) + 1)%nat as Hr1 by lia. split.
    + intros Ho%(inj Some). rewrite <- Ho, <- Hr1. assert (Nat.odd r = true) as -> by (apply Nat.odd_spec; exists (r / 2)%nat; lia). done.
    + destruct (Nat.odd o); [|done]. intros [= ->]. f_equal. lia.
Qed.

(** Task 200 is at the end of its time slice: 204 comes first now. *)
Lemma task_tick_rt_ok_witness :
  let s := set_time_slice 1 200 example_queued in
  tasks_of s 0 25 = [200; 204]%nat ∧ tasks_of (task_tick_rt 0 200 s) 0 25 = [204; 200]%nat ∧ bugs (task_tick_rt 0 200 s) = false.
Proof.
  intros s. assert (tasks_of s 0 25 = [200; 204]%nat) as E by (vm_compute; reflexivity). split; [exact E|].
  assert (minor example_queued s) as Hm by (by apply minor_upd_ent).
  pose proof (task_tick_rt_ok 0 200 s) as H. destruct example_queued_inv as [HI St].
  destruct H as (_ & Hb & _ & _ & Hq & _).
  - exact (minor_inv _ _ Hm HI).
  - apply set_time_slice_owners. exact (owners_frame _ _ example_queued_frame example_owners).
  - vm_compute. reflexivity.
  - rewrite Hq, E. split; [vm_compute; reflexivity|]. rewrite Hb, (mi_bugs _ _ Hm). apply (st_bugs _ _ St).
Defined.
