(* ===== verification/RtCore.v ===== *)
(** * The core of the scheduler around the class (kernel/sched.c)

    The parts of [kernel/sched.c] that call the real-time class: waking a task,
    [schedule], the tick, the priority changes of the priority-inheritance code
    and [sched_yield].  Tasks that are not of this class are of the classes
    below it; what those classes keep is left out, and the task they offer on a
    CPU when there is no real-time task is given by the parameter [lower]. *)

From stdpp Require Import functions.
From S2P Require Import Prelude Bitmap CpuPri Plist RtRq RtBandwidth RtClass RtPush.

(** ** Fields *)

Definition set_on_rq (b : bool) (p : nat) : sys → sys :=
  upd_task p (λ t, mk_task (prio t) (normal_prio t) (policy t) b (on_cpu t) (cpus_allowed t) (task_cpu t)
    (task_tg t) (rt_class t) (exec_start t) (sum_exec_runtime t) (need_resched t) (rttime_soft t) (rttime_hard t) (sched_exp t)).
Definition set_on_cpu (b : bool) (p : nat) : sys → sys :=
  upd_task p (λ t, mk_task (prio t) (normal_prio t) (policy t) (on_rq t) b (cpus_allowed t) (task_cpu t)
    (task_tg t) (rt_class t) (exec_start t) (sum_exec_runtime t) (need_resched t) (rttime_soft t) (rttime_hard t) (sched_exp t)).
Definition clear_tsk_need_resched (p : nat) : sys → sys :=
  upd_task p (λ t, mk_task (prio t) (normal_prio t) (policy t) (on_rq t) (on_cpu t) (cpus_allowed t) (task_cpu t)
    (task_tg t) (rt_class t) (exec_start t) (sum_exec_runtime t) false (rttime_soft t) (rttime_hard t) (sched_exp t)).
Definition set_prio (pr : Z) (rt : bool) (p : nat) : sys → sys :=
  upd_task p (λ t, mk_task pr (normal_prio t) (policy t) (on_rq t) (on_cpu t) (cpus_allowed t) (task_cpu t)
    (task_tg t) rt (exec_start t) (sum_exec_runtime t) (need_resched t) (rttime_soft t) (rttime_hard t) (sched_exp t)).
Definition set_rq_curr (p c : nat) : sys → sys :=
  upd_rq c (λ q, mk_rq p (idle q) (rt q) (online q) (clock_task q) (post_schedule q) (skip_clock_update q) (leaf_rt_rq_list q)).
Definition set_clock_task (t : Z) (c : nat) : sys → sys :=
  upd_rq c (λ q, mk_rq (curr q) (idle q) (rt q) (online q) t (post_schedule q) (skip_clock_update q) (leaf_rt_rq_list q)).

Section Core.
Context (domains : nat → list (bool * cpumask)) (lower : nat → sys → nat).

(** ** Waking *)

Definition check_preempt_curr (c p : nat) (s : sys) : sys :=
  let cu := curr (cpu_rq s c) in
  let s :=
    if eqb (rt_class (task s p)) (rt_class (task s cu))
    then if rt_class (task s cu) then check_preempt_curr_rt c p s else s
    else if rt_class (task s p) then resched_task cu s else s in
  if on_rq (task s cu) && need_resched (task s cu) then set_skip_clock_update 1 c s else s.

Definition ttwu_activate (c p : nat) (flags : Z) (s : sys) : sys := set_on_rq true p (activate_task c p flags s).
Definition ttwu_do_wakeup (fuel : nat) (c p : nat) (ds : drops) (s : sys) : option (drops * sys) :=
  let s := check_preempt_curr c p s in
  if rt_class (task s p) then task_woken_rt domains fuel c p ds s else Some (ds, s).
Definition ttwu_do_activate (fuel : nat) (c p : nat) (ds : drops) (s : sys) : option (drops * sys) :=
  ttwu_do_wakeup fuel c p ds (ttwu_activate c p (Z.lor ENQUEUE_WAKEUP 4) s).

(** ** Scheduling *)

Definition pre_schedule (c prev : nat) (ds : drops) (s : sys) : drops * sys :=
  if rt_class (task s prev) then pre_schedule_rt c prev ds s else (ds, s).
Definition post_schedule (fuel : nat) (c : nat) (ds : drops) (s : sys) : option (drops * sys) :=
  if RtRq.post_schedule (cpu_rq s c) then
    match (if rt_class (task s (curr (cpu_rq s c))) then post_schedule_rt domains fuel c ds s else Some (ds, s)) with
    | Some (ds, s) => Some (ds, set_post_schedule false c s)
    | None => None
    end
  else Some (ds, s).

Definition put_prev_task (c prev : nat) (s : sys) : sys := if rt_class (task s prev) then put_prev_task_rt c prev s else s.
Definition pick_next_task (c : nat) (s : sys) : nat * sys :=
  match pick_next_task_rt c s with (Some p, s) => (p, s) | (None, s) => (lower c s, s) end.

(** From [put_prev_task] to the end of the context switch. *)
Definition switch_tasks (c : nat) (s : sys) : sys :=
  let prev := curr (cpu_rq s c) in
  let s := put_prev_task c prev s in
  let '(next, s) := pick_next_task c s in
  let s := clear_tsk_need_resched prev s in
  let s := set_skip_clock_update 0 c s in
  if (prev =? next)%nat then s
  else set_on_cpu false prev (set_on_cpu true next (set_rq_curr next c s)).

(** The previous task goes to sleep. *)
Definition deactivate_prev (c : nat) (s : sys) : sys :=
  let prev := curr (cpu_rq s c) in set_on_rq false prev (deactivate_task c prev s).

Definition schedule (fuel : nat) (c : nat) (sleeps : bool) (ds : drops) (s : sys) : option (drops * sys) :=
  let prev := curr (cpu_rq s c) in
  let s := if sleeps then deactivate_prev c s else s in
  let '(ds, s) := pre_schedule c prev ds s in
  post_schedule fuel c ds (switch_tasks c s).

(** ** Ticks, yielding, priorities *)

Definition scheduler_tick (c : nat) (s : sys) : sys :=
  let cu := curr (cpu_rq s c) in if rt_class (task s cu) then task_tick_rt c cu s else s.
(** What [sched_yield] does before it calls [schedule]. *)
Definition sched_yield (c : nat) (s : sys) : sys :=
  if rt_class (task s (curr (cpu_rq s c))) then yield_task_rt c s else s.

Definition check_class_changed (fuel : nat) (c p : nat) (prev_rt : bool) (oldprio : Z) (ds : drops) (s : sys) : option (drops * sys) :=
  if negb (eqb prev_rt (rt_class (task s p))) then
    let '(ds, s) := if prev_rt then switched_from_rt c p ds s else (ds, s) in
    if rt_class (task s p) then switched_to_rt domains fuel c p ds s else Some (ds, s)
  else if negb (oldprio =? prio (task s p)) && rt_class (task s p) then Some (prio_changed_rt c p oldprio ds s)
  else Some (ds, s).

(** The task is taken off, changed and put back. *)
Definition setprio (p : nat) (pr : Z) (s : sys) : sys :=
  let c := task_cpu (task s p) in
  let oldprio := prio (task s p) in
  let was_on := on_rq (task s p) in
  let running := task_current s c p in
  let s := if was_on then dequeue_task c p s else s in
  let s := if running then put_prev_task c p s else s in
  let s := set_prio pr (rt_prio pr) p s in
  let s := if running && rt_class (task s p) then set_curr_task_rt c s else s in
  if was_on then enqueue_task c p (if oldprio <? pr then ENQUEUE_HEAD else 0) s else s.
Definition rt_mutex_setprio (fuel : nat) (p : nat) (pr : Z) (ds : drops) (s : sys) : option (drops * sys) :=
  let s := BUG_ON ((pr <? 0) || (MAX_PRIO <? pr)) s in
  let c := task_cpu (task s p) in
  check_class_changed fuel c p (rt_class (task s p)) (prio (task s p)) ds (setprio p pr s).

End Core.
