(* ===== verification/RtSafe.v ===== *)
(** * The state of the scheduler between its operations

    What holds of the run queues, the tasks and the lists of pushable tasks
    between operations of the scheduler, and that each operation of the class
    keeps it without tripping an assertion. *)

From stdpp Require Import functions.
From S2P Require Import Prelude Bitmap CpuPri Plist RtRq RtInv RtWalk RtFrame RtExample RtBandwidth RtClass RtTime RtPick RtOps RtPush RtCore.

(** ** The invariant *)

(** Every group has, on every CPU, a queue and (but for the root group) an
    entity, and every CPU has a queue for the root group. *)
Record topo (s : sys) : Prop := {
  tp_owners : owners s;
  tp_rq : ∀ g c, g ∈ task_groups s → (c < NR_CPUS)%nat →
    rt_tg (rtq s (tg_rt_rq (tgs s g) c)) = Some g ∧ rt_cpu (rtq s (tg_rt_rq (tgs s g) c)) = c;
  tp_depth : ∀ g c, g ∈ task_groups s → (c < NR_CPUS)%nat → complete s (pred (levels s)) (tg_rt_se (tgs s g) c);
  tp_root : ∀ c, (c < NR_CPUS)%nat → (∀ o, my_q (ent s o) ≠ Some (rt (cpu_rq s c))) ∧ rt_cpu (rtq s (rt (cpu_rq s c))) = c;
  tp_same : ∀ o r, my_q (ent s o) = Some r → rt_cpu (rtq s r) = rt_cpu (rtq s (se_rt_rq (ent s o)));
  tp_span : ∀ c, c ∈ span (rd s) → (c < NR_CPUS)%nat
}.

(** A task is for the queue of its group on its CPU. *)
Record placed (s : sys) (p : nat) : Prop := {
  pl_group : task_tg (task s p) ∈ task_groups s;
  pl_cpu : (task_cpu (task s p) < NR_CPUS)%nat;
  pl_rq : se_rt_rq (ent s p) = tg_rt_rq (tgs s (task_tg (task s p))) (task_cpu (task s p));
  pl_allowed : ∀ c, c ∈ cpus_allowed (task s p) → (c < NR_CPUS)%nat
}.

Definition pushables (s : sys) (c : nat) : plist := pushable_tasks (rtq s (rt (cpu_rq s c))).

(** Task [p] may be on the list of pushable tasks of CPU [c] with key [q]. *)
Record pushable (onq : nat → Prop) (cur : nat → option nat) (s : sys) (c : nat) (q : Z) (p : nat) : Prop := {
  pu_key : q = prio (task s p);
  pu_task : my_q (ent s p) = None;
  pu_cpu : task_cpu (task s p) = c;
  pu_curr : cur c ≠ Some p;
  pu_migratory : 1 < nr_cpus_allowed (ent s p);
  pu_on : onq p;
  pu_class : rt_class (task s p) = true
}.

(** [onq] holds of the tasks that count as runnable, [cur] gives the tasks that
    run: in the middle of an operation they differ from the fields [on_rq] and
    [curr]. *)
Record inv (onq : nat → Prop) (cur : nat → option nat) (s : sys) : Prop := {
  v_rt : rt_inv s;
  v_topo : topo s;
  v_place : ∀ p, my_q (ent s p) = None → placed s p;
  v_class : ∀ p, my_q (ent s p) = None →
    if rt_class (task s p) then 0 ≤ prio (task s p) < MAX_RT_PRIO else MAX_RT_PRIO ≤ prio (task s p);
  v_on : ∀ p, my_q (ent s p) = None → on_rt_rq s p = true → onq p ∧ rt_class (task s p) = true;
  v_plist : ∀ c, (c < NR_CPUS)%nat → plist_ok (pushables s c);
  v_push : ∀ c q p, (c < NR_CPUS)%nat → (q, p) ∈ entries (pushables s c) → pushable onq cur s c q p;
  v_cpu : ∀ c, (c < NR_CPUS)%nat →
    on_cpu (task s (curr (cpu_rq s c))) = true ∧ my_q (ent s (curr (cpu_rq s c))) = None ∧ task_cpu (task s (curr (cpu_rq s c))) = c;
  v_leaves : ∀ c r, (c < NR_CPUS)%nat → r ∈ leaf_rt_rq_list (cpu_rq s c) → rt_cpu (rtq s r) = c;
  v_idle : ∀ c, (c < NR_CPUS)%nat →
    my_q (ent s (idle (cpu_rq s c))) = None ∧ task_cpu (task s (idle (cpu_rq s c))) = c ∧ rt_class (task s (idle (cpu_rq s c))) = false
}.

(** What rests between operations. *)
Definition onq_of (s : sys) (p : nat) : Prop := on_rq (task s p) = true.
Definition cur_of (s : sys) (c : nat) : option nat := Some (curr (cpu_rq s c)).
Definition good (s : sys) : Prop := inv (onq_of s) (cur_of s) s.

(** ** What operations leave alone *)

Definition fixed (t : task_struct) : Z * bool * bool * cpumask * nat * nat * bool * Z :=
  (prio t, on_rq t, on_cpu t, cpus_allowed t, task_cpu t, task_tg t, rt_class t, policy t).

Record kept (s s' : sys) : Prop := {
  kp_groups : (tgs s', task_groups s', levels s', span (rd s')) = (tgs s, task_groups s, levels s, span (rd s));
  kp_ent : ∀ e, (nr_cpus_allowed (ent s' e), parent (ent s' e), se_rt_rq (ent s' e), my_q (ent s' e)) =
                (nr_cpus_allowed (ent s e), parent (ent s e), se_rt_rq (ent s e), my_q (ent s e));
  kp_task : ∀ p, fixed (task s' p) = fixed (task s p);
  kp_rq : ∀ c, (curr (cpu_rq s' c), rt (cpu_rq s' c), idle (cpu_rq s' c)) = (curr (cpu_rq s c), rt (cpu_rq s c), idle (cpu_rq s c));
  kp_rt : ∀ r, (rt_tg (rtq s' r), rt_cpu (rtq s' r)) = (rt_tg (rtq s r), rt_cpu (rtq s r));
  kp_leaves : ∀ c r, r ∈ leaf_rt_rq_list (cpu_rq s' c) → r ∈ leaf_rt_rq_list (cpu_rq s c) ∨ rt_cpu (rtq s r) = c;
  kp_bugs : bugs s' = bugs s
}.

#[global] Instance kept_preorder : PreOrder kept.
Proof.
  split; [split; auto|]. intros s t u [] []. split; try (intros; congruence).
  intros c r Hr. destruct (kp_leaves1 c r Hr) as [?|?]; [auto|]. right. specialize (kp_rt0 r). congruence.
Qed.

Lemma kp_entity s s' e : kept s s' → nr_cpus_allowed (ent s' e) = nr_cpus_allowed (ent s e) ∧ parent (ent s' e) = parent (ent s e) ∧
  se_rt_rq (ent s' e) = se_rt_rq (ent s e) ∧ my_q (ent s' e) = my_q (ent s e).
Proof. intros H. pose proof (kp_ent _ _ H e) as E. by injection E. Qed.
Lemma kp_fixed s s' p : kept s s' → prio (task s' p) = prio (task s p) ∧ on_rq (task s' p) = on_rq (task s p) ∧
  on_cpu (task s' p) = on_cpu (task s p) ∧ cpus_allowed (task s' p) = cpus_allowed (task s p) ∧
  task_cpu (task s' p) = task_cpu (task s p) ∧ task_tg (task s' p) = task_tg (task s p) ∧ rt_class (task s' p) = rt_class (task s p).
Proof. intros H. pose proof (kp_task _ _ H p) as E. unfold fixed in E. injection E as E1 E2 E3 E4 E5 E6 E7 _. done. Qed.
Lemma kp_queue s s' c : kept s s' → curr (cpu_rq s' c) = curr (cpu_rq s c) ∧ rt (cpu_rq s' c) = rt (cpu_rq s c).
Proof. intros H. pose proof (kp_rq _ _ H c) as E. by injection E. Qed.
Lemma kp_idle s s' c : kept s s' → idle (cpu_rq s' c) = idle (cpu_rq s c).
Proof. intros H. pose proof (kp_rq _ _ H c) as E. by injection E. Qed.
Lemma kp_shape s s' : kept s s' → tgs s' = tgs s ∧ task_groups s' = task_groups s ∧ levels s' = levels s ∧ span (rd s') = span (rd s).
Proof. intros H. pose proof (kp_groups _ _ H) as E. by injection E. Qed.
Lemma kp_cpu s s' r : kept s s' → rt_tg (rtq s' r) = rt_tg (rtq s r) ∧ rt_cpu (rtq s' r) = rt_cpu (rtq s r).
Proof. intros H. pose proof (kp_rt _ _ H r) as E. by injection E. Qed.

Lemma complete_kept s s' n oe : (∀ e, parent (ent s' e) = parent (ent s e)) → complete s n oe → complete s' n oe.
Proof. intros H. revert oe. induction n as [|n IH]; intros [e|]; simpl; try done. rewrite H. apply IH. Qed.

Lemma topo_kept s s' : kept s s' → topo s → topo s'.
Proof.
  intros H [T1 T2 T3 T4 T6 T5]. destruct (kp_shape _ _ H) as (Eg & Egs & El & Es). split; rewrite ?Eg, ?Egs, ?El, ?Es.
  - intros r g. destruct (kp_cpu _ _ r H) as [-> ->]. rewrite Eg. intros Hg o. destruct (kp_entity _ _ o H) as (_ & _ & _ & ->). by apply T1.
  - intros g c Hg Hc. destruct (kp_cpu _ _ (tg_rt_rq (tgs s g) c) H) as [-> ->]. by apply T2.
  - intros g c Hg Hc. eapply complete_kept; [|by apply T3]. intros e. apply (kp_entity _ _ e H).
  - intros c Hc. destruct (kp_queue _ _ c H) as [_ ->]. destruct (T4 c Hc) as [A B]. split.
    + intros o. destruct (kp_entity _ _ o H) as (_ & _ & _ & ->). apply A.
    + destruct (kp_cpu _ _ (rt (cpu_rq s c)) H) as [_ ->]. done.
  - intros o r. destruct (kp_entity _ _ o H) as (_ & _ & -> & ->), (kp_cpu _ _ r H) as [_ ->], (kp_cpu _ _ (se_rt_rq (ent s o)) H) as [_ ->]. apply T6.
  - done.
Qed.

Lemma placed_kept s s' p : kept s s' → placed s p → placed s' p.
Proof.
  intros H [P1 P2 P3 P4]. destruct (kp_shape _ _ H) as (Eg & Egs & _), (kp_fixed _ _ p H) as (_ & _ & _ & Ea & Ec & Et & _).
  destruct (kp_entity _ _ p H) as (_ & _ & Er & _). split; rewrite ?Eg, ?Egs, ?Ea, ?Ec, ?Et, ?Er; done.
Qed.
Lemma pushable_kept onq cur s s' c q p : kept s s' → pushable onq cur s c q p → pushable onq cur s' c q p.
Proof.
  intros H [H1 H2 H3 H4 H5 H6 H7]. destruct (kp_fixed _ _ p H) as (Ep & _ & _ & _ & Ec & _ & Ecl), (kp_entity _ _ p H) as (En & _ & _ & Em).
  split; rewrite ?Ep, ?Ec, ?Ecl, ?En, ?Em; done.
Qed.

(** The parts of the invariant that an operation has to see to. *)
Lemma inv_kept onq cur s s' :
  kept s s' → inv onq cur s → rt_inv s' →
  (∀ p, my_q (ent s p) = None → on_rt_rq s' p = true → onq p ∧ rt_class (task s p) = true) →
  (∀ c, (c < NR_CPUS)%nat → plist_ok (pushables s' c) ∧ ∀ q p, (q, p) ∈ entries (pushables s' c) → pushable onq cur s c q p) →
  inv onq cur s'.
Proof.
  intros H V HI Hon Hpu. split.
  - done.
  - eapply topo_kept; [done|apply V].
  - intros p. destruct (kp_entity _ _ p H) as (_ & _ & _ & ->). intros Hp. eapply placed_kept; [done|by apply V].
  - intros p. destruct (kp_entity _ _ p H) as (_ & _ & _ & ->), (kp_fixed _ _ p H) as (-> & _ & _ & _ & _ & _ & ->). apply V.
  - intros p. destruct (kp_entity _ _ p H) as (_ & _ & _ & ->), (kp_fixed _ _ p H) as (_ & _ & _ & _ & _ & _ & ->). apply Hon.
  - intros c Hc. apply (Hpu c Hc).
  - intros c q p Hc Hin. eapply pushable_kept; [done|]. by apply (Hpu c Hc).
  - intros c Hc. destruct (kp_queue _ _ c H) as [-> _], (kp_fixed _ _ (curr (cpu_rq s c)) H) as (_ & _ & -> & _ & -> & _).
    destruct (kp_entity _ _ (curr (cpu_rq s c)) H) as (_ & _ & _ & ->). by apply V.
  - intros c r Hc Hr. destruct (kp_cpu _ _ r H) as [_ ->]. destruct (kp_leaves _ _ H c r Hr) as [?|?]; [by apply (v_leaves _ _ _ V)|done].
  - intros c Hc. rewrite (kp_idle _ _ c H). destruct (kp_entity _ _ (idle (cpu_rq s c)) H) as (_ & _ & _ & ->).
    destruct (kp_fixed _ _ (idle (cpu_rq s c)) H) as (_ & _ & _ & _ & -> & _ & ->). by apply V.
Qed.

(** ** Operations that keep the invariant *)

Definition keeps (onq : nat → Prop) (cur : nat → option nat) (s s' : sys) : Prop := inv onq cur s → inv onq cur s' ∧ kept s s'.
#[global] Instance keeps_preorder onq cur : PreOrder (keeps onq cur).
Proof.
  split; [intros s; split; [done|reflexivity]|]. intros s t u H1 H2 V. destruct (H1 V) as [V' K]. destruct (H2 V') as [? ?].
  split; [done|by etrans].
Qed.

Lemma timed_kept s s' : timed s s' → kept s s'.
Proof.
  intros H. destruct (ti_tgs _ _ H) as [Eg Egs]. pose proof (ti_flags _ _ H) as E. injection E as _ _ _ El Eb Es.
  split; [congruence| | | | |apply H|done].
  - intros e. pose proof (ti_ent _ _ H e) as E. injection E as _ _ -> -> -> ->. done.
  - intros p. pose proof (ti_task _ _ H p) as E. unfold untimed in E. unfold fixed. injection E as -> _ -> -> -> -> -> -> -> _ _. done.
  - intros c. pose proof (ti_rq _ _ H c) as E. unfold unskipped in E. injection E as -> -> -> _ _ _. done.
  - intros r. destruct (ti_queue _ _ r H) as (-> & -> & _). done.
Qed.

Lemma time_keeps onq cur s s' : time_ok s s' → keeps onq cur s s'.
Proof.
  intros H V. destruct (H (v_rt _ _ _ V) (tp_owners _ (v_topo _ _ _ V))) as [HI Ht]. pose proof (timed_kept _ _ Ht) as K.
  split; [|done]. eapply inv_kept; [done|done|done| |].
  - intros p Hp. unfold on_rt_rq. rewrite (ti_list _ _ Ht p Hp). by apply V.
  - intros c Hc. assert (pushables s' c = pushables s c) as ->.
    { unfold pushables. destruct (kp_queue _ _ c K) as [_ ->]. apply (ti_queue _ _ _ Ht). }
    split; [by apply V|]. intros q p. by apply V.
Qed.

(** A change within the queues, or of fields that matter to none of this. *)
Lemma permuted_kept s s' : permuted s s' → kept s s'.
Proof.
  intros H. pose proof (pm_frame _ _ H) as Hf. split.
  - rewrite (fr_tgs _ _ Hf), (fr_groups _ _ Hf), (proj2 (fr_this _ _ Hf)), (fr_span _ _ Hf). done.
  - intros e. by rewrite (pm_ent _ _ H).
  - intros p. by rewrite (fr_task _ _ Hf).
  - intros c. pose proof (fr_rq _ _ Hf c) as E. unfold with_leaves in E. injection E as -> -> -> _ _ _ _. done.
  - intros r. pose proof (fr_rt _ _ Hf r) as E. injection E as -> -> _ _ _ _. done.
  - apply Hf.
  - apply H.
Qed.
Lemma frame_pushables s s' c : frame s s' → pushables s' c = pushables s c.
Proof.
  intros Hf. unfold pushables. pose proof (fr_rq _ _ Hf c) as E. unfold with_leaves in E. injection E as _ _ -> _ _ _ _.
  pose proof (fr_rt _ _ Hf (rt (cpu_rq s c))) as E. by injection E.
Qed.

Lemma requeue_task_keeps onq cur p head s : my_q (ent s p) = None → keeps onq cur s (requeue_task_rt p head s).
Proof.
  intros Hp V. destruct (requeue_task_rt_ok p head s (v_rt _ _ _ V) Hp) as (Hpm & HI & _). pose proof (permuted_kept _ _ Hpm) as K.
  split; [|done]. eapply inv_kept; [done|done|done| |].
  - intros x Hx. unfold on_rt_rq. rewrite (pm_ent _ _ Hpm). by apply V.
  - intros c Hc. rewrite (frame_pushables _ _ c (pm_frame _ _ Hpm)). split; [by apply V|]. intros q x. by apply V.
Qed.

(** Only fields of tasks, entities and CPUs change that the rest does not
    depend on. *)
Lemma minor_keeps onq cur s s' :
  kept s s' → (∀ e, run_list (ent s' e) = run_list (ent s e)) → (∀ p, normal_prio (task s' p) = normal_prio (task s p)) →
  rtq s' = rtq s → keeps onq cur s s'.
Proof.
  intros K He Hn Hr V. split; [|done]. eapply inv_kept; [done|done| | |].
  - apply (sq_inv s); [|intros x g _; by rewrite Hr|apply V]. split.
    + intros e. destruct (kp_entity _ _ e K) as (_ & -> & -> & ->). by rewrite He.
    + intros p. destruct (kp_fixed _ _ p K) as (-> & _). by rewrite Hn.
    + apply (kp_shape _ _ K).
    + intros r. by rewrite Hr.
  - intros p Hp. unfold on_rt_rq. rewrite He. by apply V.
  - intros c Hc. assert (pushables s' c = pushables s c) as ->.
    { unfold pushables. destruct (kp_queue _ _ c K) as [_ ->]. by rewrite Hr. }
    split; [by apply V|]. intros q p. by apply V.
Qed.

Lemma upd_task_keeps onq cur p f s :
  (∀ t, fixed (f t) = fixed t ∧ normal_prio (f t) = normal_prio t) → keeps onq cur s (upd_task p f s).
Proof.
  intros Hf. apply minor_keeps; try done.
  - split; simpl; try done; [|auto]. intros x. destruct (decide (x = p)) as [->|]; [rewrite fn_lookup_insert; apply Hf|by rewrite fn_lookup_insert_ne].
  - intros x. simpl. destruct (decide (x = p)) as [->|]; [rewrite fn_lookup_insert; apply Hf|by rewrite fn_lookup_insert_ne].
Qed.
Lemma upd_ent_keeps onq cur e f s :
  (∀ t, (run_list (f t), nr_cpus_allowed (f t), parent (f t), se_rt_rq (f t), my_q (f t)) =
        (run_list t, nr_cpus_allowed t, parent t, se_rt_rq t, my_q t)) → keeps onq cur s (upd_ent e f s).
Proof.
  intros Hf. assert (∀ x, (run_list (ent (upd_ent e f s) x), nr_cpus_allowed (ent (upd_ent e f s) x), parent (ent (upd_ent e f s) x),
      se_rt_rq (ent (upd_ent e f s) x), my_q (ent (upd_ent e f s) x)) =
      (run_list (ent s x), nr_cpus_allowed (ent s x), parent (ent s x), se_rt_rq (ent s x), my_q (ent s x))) as E.
  { intros x. simpl. destruct (decide (x = e)) as [->|]; [by rewrite fn_lookup_insert, Hf|by rewrite fn_lookup_insert_ne]. }
  apply minor_keeps; try done.
  - split; try done; [|auto]. intros x. specialize (E x). congruence.
  - intros x. specialize (E x). congruence.
Qed.
Lemma upd_rq_keeps onq cur c f s :
  (∀ q, (curr (f q), rt (f q), idle (f q), leaf_rt_rq_list (f q)) = (curr q, rt q, idle q, leaf_rt_rq_list q)) → keeps onq cur s (upd_rq c f s).
Proof.
  intros Hf. assert (∀ x, (curr (cpu_rq (upd_rq c f s) x), rt (cpu_rq (upd_rq c f s) x), idle (cpu_rq (upd_rq c f s) x), leaf_rt_rq_list (cpu_rq (upd_rq c f s) x)) =
      (curr (cpu_rq s x), rt (cpu_rq s x), idle (cpu_rq s x), leaf_rt_rq_list (cpu_rq s x))) as E.
  { intros x. simpl. destruct (decide (x = c)) as [->|]; [by rewrite fn_lookup_insert, Hf|by rewrite fn_lookup_insert_ne]. }
  apply minor_keeps; try done. split; try done.
  - intros x. specialize (E x). congruence.
  - intros x r. assert (leaf_rt_rq_list (cpu_rq (upd_rq c f s) x) = leaf_rt_rq_list (cpu_rq s x)) as -> by (specialize (E x); congruence). auto.
Qed.

(** ** Pushable tasks *)

Lemma root_inj s c c' : topo s → (c < NR_CPUS)%nat → (c' < NR_CPUS)%nat → rt (cpu_rq s c) = rt (cpu_rq s c') → c = c'.
Proof. intros T Hc Hc' E. destruct (tp_root _ T c Hc) as [_ <-], (tp_root _ T c' Hc') as [_ <-]. by rewrite E. Qed.

Lemma set_pushable s r (f : plist → plist) :
  let s' := upd_rt r (λ q, with_pushable (f (pushable_tasks q)) q) s in
  kept s s' ∧ same_queues s s' ∧ (∀ r', rt_throttled (rtq s' r') = rt_throttled (rtq s r')) ∧
  (∀ c, pushables s' c = if decide (rt (cpu_rq s c) = r) then f (pushables s c) else pushables s c).
Proof.
  intros s'. split_and!.
  - split; simpl; try done; [|auto]. intros r'. destruct (decide (r' = r)) as [->|]; [by rewrite fn_lookup_insert|by rewrite fn_lookup_insert_ne].
  - by apply sq_upd_rt.
  - intros r'. simpl. destruct (decide (r' = r)) as [->|]; [by rewrite fn_lookup_insert|by rewrite fn_lookup_insert_ne].
  - intros c. unfold pushables, s'. simpl. case_decide as E; [rewrite E, fn_lookup_insert; done|by rewrite fn_lookup_insert_ne].
Qed.

Lemma set_pushable_inv onq cur s c (f : plist → plist) :
  (c < NR_CPUS)%nat → inv onq cur s →
  plist_ok (f (pushables s c)) → (∀ q p, (q, p) ∈ entries (f (pushables s c)) → pushable onq cur s c q p) →
  let s' := upd_rt (rt (cpu_rq s c)) (λ q, with_pushable (f (pushable_tasks q)) q) s in inv onq cur s' ∧ kept s s'.
Proof.
  intros Hc V Hok Hpu s'. destruct (set_pushable s (rt (cpu_rq s c)) f) as (K & Hsq & Hth & Hp). fold s' in K, Hsq, Hth, Hp.
  split; [|done]. eapply inv_kept; [done|done| | |].
  - apply (sq_inv s); [done|intros x g _; apply Hth|apply V].
  - intros x Hx. unfold on_rt_rq. destruct (sq_entity _ _ x Hsq) as (-> & _). by apply V.
  - intros c' Hc'. rewrite Hp. case_decide as E.
    + apply root_inj in E; [|apply V|done|done]. subst c'. done.
    + split; [by apply V|]. intros q p. by apply V.
Qed.

Lemma entries_del n q p l : (q, p) ∈ entries (plist_del n l) ↔ p ≠ n ∧ (q, p) ∈ entries l.
Proof. rewrite plist_del_entries, list_elem_of_filter. done. Qed.
Lemma entries_add n pr q p l : plist_ok l → (q, p) ∈ entries (plist_add n pr l) → (q = pr ∧ p = n) ∨ (q, p) ∈ entries l.
Proof.
  intros Hl. rewrite plist_add_entries, elem_of_app, elem_of_cons, !list_elem_of_filter by done. intros [[_ ?]|[[= -> ->]|[_ ?]]]; auto.
Qed.

Lemma dequeue_pushable_keeps onq cur c p s : (c < NR_CPUS)%nat → keeps onq cur s (dequeue_pushable_task c p s).
Proof.
  intros Hc V. apply (set_pushable_inv onq cur s c (plist_del p)); [done|done|by apply plist_del_ok, V|].
  intros q x [_ Hin]%entries_del. by apply V.
Qed.

Lemma enqueue_pushable_keeps onq cur c p s :
  (c < NR_CPUS)%nat → pushable onq cur s c (prio (task s p)) p → keeps onq cur s (enqueue_pushable_task c p s).
Proof.
  intros Hc Hp V. apply (set_pushable_inv onq cur s c (λ l, plist_add p (prio (task s p)) (plist_del p l))); [done|done| |].
  - by apply plist_add_ok, plist_del_ok, V.
  - intros q x [[-> ->]|Hin]%entries_add; [done| |by apply plist_del_ok, V]. apply entries_del in Hin as [_ Hin]. by apply V.
Qed.

(** ** On and off the run queue *)

Lemma frame_kept s s' : frame s s' → bugs s' = bugs s → kept s s'.
Proof.
  intros Hf Hb. split.
  - rewrite (fr_tgs _ _ Hf), (fr_groups _ _ Hf), (proj2 (fr_this _ _ Hf)), (fr_span _ _ Hf). done.
  - intros e. pose proof (fr_ent _ _ Hf e) as E. injection E as _ _ -> -> -> ->. done.
  - intros p. by rewrite (fr_task _ _ Hf).
  - intros c. pose proof (fr_rq _ _ Hf c) as E. unfold with_leaves in E. injection E as -> -> -> _ _ _ _. done.
  - intros r. pose proof (fr_rt _ _ Hf r) as E. injection E as -> -> _ _ _ _. done.
  - apply Hf.
  - done.
Qed.

(** A task is enqueued or dequeued. *)
Lemma moved_keeps onq cur on head p s s' :
  my_q (ent s p) = None → (on = true → onq p ∧ rt_class (task s p) = true) →
  moved on head p s s' → frame s s' → keeps onq cur s s'.
Proof.
  intros Hp Hon Hm Hf V. pose proof (frame_kept _ _ Hf (st_bugs _ _ (mv_static _ _ _ _ _ Hm))) as K. split; [|done].
  eapply inv_kept; [done|done|apply Hm| |].
  - intros x Hx Hxon. destruct (decide (x = p)) as [->|Hne].
    + apply Hon. by rewrite (mv_task _ _ _ _ _ Hm Hp) in Hxon.
    + apply (v_on _ _ _ V x Hx). unfold on_rt_rq in *. rewrite (mv_others _ _ _ _ _ Hm) in Hxon; [done|].
      intros Hin. pose proof (i_tree _ (v_rt _ _ _ V)) as Ht. unfold for_each_sched_rt_entity in Hin.
      destruct (levels_pos s p Ht) as [n En]. pose proof (t_complete _ Ht p) as Hc. rewrite En in Hc, Hin. simpl in Hc, Hin.
      apply elem_of_cons in Hin as [->|Hin]; [done|]. destruct (path_tail_group s n p x Ht Hc Hin). congruence.
  - intros c Hc. rewrite (frame_pushables _ _ c Hf). split; [by apply V|]. intros q x. by apply V.
Qed.

Lemma enqueue_task_rt_keeps onq cur c p flags s :
  (c < NR_CPUS)%nat → my_q (ent s p) = None → task_cpu (task s p) = c → rt_class (task s p) = true → onq p → cur c = cur_of s c →
  keeps onq cur s (enqueue_task_rt c p flags s).
Proof.
  intros Hc Hp Hcpu Hcl Hq Hcur. unfold enqueue_task_rt. set (s1 := if negb (Z.land flags ENQUEUE_WAKEUP =? 0) then _ else s).
  assert (keeps onq cur s s1) as H1 by (unfold s1; destruct (negb _); [by apply upd_ent_keeps|reflexivity]).
  assert (task s1 = task s ∧ my_q (ent s1 p) = None) as [Et Em].
  { unfold s1. destruct (negb _); [|done]. simpl. by rewrite fn_lookup_insert. }
  clearbody s1. set (hd := negb (Z.land flags ENQUEUE_HEAD =? 0)). clearbody hd. set (s2 := enqueue_rt_entity p hd s1).
  assert (keeps onq cur s1 s2) as H2.
  { intros V. apply (moved_keeps onq cur true hd p s1 s2); [done|by rewrite Et| |apply enqueue_rt_entity_frame|done].
    apply enqueue_rt_entity_ok; [apply rt_inv_but_of, V|]. intros _. pose proof (v_class _ _ _ V p Em) as Hr. rewrite Et, Hcl in Hr. by rewrite Et. }
  clearbody s2. destruct (_ && _) eqn:Eb; [|by transitivity s1]. intros V. destruct (H1 V) as [V1 K1]. destruct (H2 V1) as [V2 K2].
  assert (keeps onq cur s2 (enqueue_pushable_task c p s2)) as H3; [|destruct (H3 V2); split; [done|transitivity s1; [done|by transitivity s2]]].
  apply andb_true_iff in Eb as [Eb1 Eb2]. apply enqueue_pushable_keeps; [done|].
  destruct (kp_fixed _ _ p K2) as (Ep & _ & _ & _ & Ec & _ & Ecl), (kp_entity _ _ p K2) as (_ & _ & _ & Eq).
  split; [done|congruence|by rewrite Ec, Et| |lia|done|by rewrite Ecl, Et]. rewrite Hcur. unfold cur_of, task_current in *.
  destruct (kp_queue _ _ c K2) as [E2 _], (kp_queue _ _ c K1) as [E1 _]. rewrite E2, E1 in Eb1. intros [= E]. rewrite E, Nat.eqb_refl in Eb1. done.
Qed.

(** Enqueueing touches no other CPU's list. *)
Lemma enqueue_task_rt_pushables c p flags s c' :
  rt (cpu_rq s c') ≠ rt (cpu_rq s c) → pushables (enqueue_task_rt c p flags s) c' = pushables s c'.
Proof.
  intros Hne. unfold enqueue_task_rt. set (s1 := if negb (Z.land flags ENQUEUE_WAKEUP =? 0) then _ else s).
  assert (rtq s1 = rtq s ∧ cpu_rq s1 = cpu_rq s) as [E1 E2] by (unfold s1; by destruct (negb _)). clearbody s1.
  set (s2 := enqueue_rt_entity p _ s1). assert (frame s1 s2) as Hf by apply enqueue_rt_entity_frame. clearbody s2.
  assert (pushables s2 c' = pushables s c') as E by (rewrite (frame_pushables _ _ c' Hf); unfold pushables; by rewrite E1, E2).
  destruct (_ && _); [|done]. rewrite <- E. unfold pushables, enqueue_pushable_task. simpl. rewrite fn_lookup_insert_ne; [done|].
  pose proof (fr_rq _ _ Hf c) as F1. pose proof (fr_rq _ _ Hf c') as F2. unfold with_leaves in F1, F2.
  injection F1 as _ _ -> _ _ _ _. injection F2 as _ _ -> _ _ _ _. by rewrite E2.
Qed.

Lemma dequeue_task_rt_keeps onq cur c p s :
  (c < NR_CPUS)%nat → my_q (ent s p) = None → inv onq cur s →
  let s' := dequeue_task_rt c p s in
  inv onq cur s' ∧ kept s s' ∧ on_rt_rq s' p = false ∧ pushables s' c = plist_del p (pushables s c).
Proof.
  intros Hc Hp V. unfold dequeue_task_rt. destruct (time_keeps onq cur _ _ (update_curr_rt_ok c s) V) as [V1 K1].
  set (s1 := update_curr_rt c s) in *. destruct (kp_entity _ _ p K1) as (_ & _ & _ & Em). rewrite Hp in Em.
  pose proof (dequeue_task_entity_ok s1 p (v_rt _ _ _ V1) Em) as Hm. set (s2 := dequeue_rt_entity p s1) in *.
  destruct (moved_keeps onq cur false false p s1 s2) as [V2 K2]; [done|done|done|apply dequeue_rt_entity_frame|done|].
  destruct (dequeue_pushable_keeps onq cur c p s2 Hc V2) as [V3 K3].
  split_and!; [done|transitivity s1; [done|by transitivity s2]|exact (mv_task _ _ _ _ _ Hm Em)|].
  unfold pushables at 1. simpl. rewrite fn_lookup_insert. simpl. fold (pushables s2 c). rewrite (frame_pushables s1 s2 c (dequeue_rt_entity_frame p s1)).
  f_equal. destruct (update_curr_rt_ok c s (v_rt _ _ _ V) (tp_owners _ (v_topo _ _ _ V))) as [_ Ht]. unfold pushables.
  destruct (kp_queue _ _ c K1) as [_ ->]. apply (ti_queue _ _ _ Ht).
Qed.

(** ** Moving a task to another CPU *)

Lemma complete_off s s' p n : (∀ e, e ≠ p → parent (ent s' e) = parent (ent s e)) → (∀ e o, parent (ent s e) = Some o → o ≠ p) →
  ∀ oe, oe ≠ Some p → complete s n oe → complete s' n oe.
Proof.
  intros H1 H2. induction n as [|n IH]; intros [e|] Hne; simpl; try done. rewrite H1 by congruence. apply IH.
  intros E. by apply H2 in E.
Qed.

(** What [set_task_cpu] changes. *)
Record relocated (p cpu : nat) (s s' : sys) : Prop := {
  rl_ent : ∀ e, e ≠ p → ent s' e = ent s e;
  rl_self : (run_list (ent s' p), nr_cpus_allowed (ent s' p), my_q (ent s' p)) = (run_list (ent s p), nr_cpus_allowed (ent s p), my_q (ent s p));
  rl_to : parent (ent s' p) = tg_rt_se (tgs s (task_tg (task s p))) cpu ∧ se_rt_rq (ent s' p) = tg_rt_rq (tgs s (task_tg (task s p))) cpu;
  rl_task : ∀ x, x ≠ p → task s' x = task s x;
  rl_cpu : task_cpu (task s' p) = cpu;
  rl_fixed : (prio (task s' p), normal_prio (task s' p), on_rq (task s' p), on_cpu (task s' p), cpus_allowed (task s' p), task_tg (task s' p),
              rt_class (task s' p)) =
             (prio (task s p), normal_prio (task s p), on_rq (task s p), on_cpu (task s p), cpus_allowed (task s p), task_tg (task s p),
              rt_class (task s p));
  rl_rest : rtq s' = rtq s ∧ cpu_rq s' = cpu_rq s ∧ tgs s' = tgs s ∧ task_groups s' = task_groups s ∧ rd s' = rd s ∧
            levels s' = levels s ∧ bugs s' = bugs s
}.
Lemma set_task_cpu_relocated p cpu s : relocated p cpu s (set_task_cpu p cpu s).
Proof.
  split; simpl; rewrite ?fn_lookup_insert; simpl; try done.
  - intros e He. by rewrite fn_lookup_insert_ne.
  - intros e He. by rewrite fn_lookup_insert_ne.
Qed.

Section Relocate.
Context (p cpu : nat) (s s' : sys) (R : relocated p cpu s s').
Context (Hp : my_q (ent s p) = None) (Hoff : on_rt_rq s p = false).

Lemma rl_entity e : run_list (ent s' e) = run_list (ent s e) ∧ my_q (ent s' e) = my_q (ent s e) ∧ nr_cpus_allowed (ent s' e) = nr_cpus_allowed (ent s e).
Proof.
  destruct (decide (e = p)) as [->|Hne]; [|by rewrite (rl_ent _ _ _ _ R)]. pose proof (rl_self _ _ _ _ R) as E. by injection E.
Qed.
Lemma rl_prio x : prio (task s' x) = prio (task s x) ∧ normal_prio (task s' x) = normal_prio (task s x) ∧ on_cpu (task s' x) = on_cpu (task s x) ∧
  cpus_allowed (task s' x) = cpus_allowed (task s x) ∧ task_tg (task s' x) = task_tg (task s x) ∧ rt_class (task s' x) = rt_class (task s x).
Proof.
  destruct (decide (x = p)) as [->|Hne]; [|by rewrite (rl_task _ _ _ _ R)]. pose proof (rl_fixed _ _ _ _ R) as E. by injection E.
Qed.

Lemma relocated_rt_inv : rt_inv s → topo s → task_tg (task s p) ∈ task_groups s → (cpu < NR_CPUS)%nat → rt_inv s'.
Proof.
  intros [Ht Hok Hg] T Htg Hcpu. destruct (rl_rest _ _ _ _ R) as (Er & _ & Egs & _ & _ & El & _).
  apply on_rt_rq_false in Hoff. destruct (tp_rq _ T _ cpu Htg Hcpu) as [Tg Tc]. set (g := task_tg (task s p)) in *.
  assert (∀ o, tg_rt_se (tgs s g) cpu = Some o ↔ my_q (ent s o) = Some (tg_rt_rq (tgs s g) cpu)) as How.
  { intros o. pose proof (tp_owners _ T _ g Tg o) as Hx. by rewrite Tc in Hx. }
  assert (∀ e o, parent (ent s e) = Some o → o ≠ p) as Hpar.
  { intros e o Ho ->. apply (t_parent _ Ht) in Ho. congruence. }
  assert (∀ e, rt_se_prio s' e = rt_se_prio s e ∧ rt_se_boosted s' e = rt_se_boosted s e) as Hpr.
  { intros e. unfold rt_se_prio, rt_se_boosted, group_rt_rq. destruct (rl_entity e) as (_ & -> & _), (rl_prio e) as (-> & -> & _). by rewrite Er. }
  split.
  - split.
    + intros e o. destruct (rl_entity o) as (_ & -> & _). destruct (decide (e = p)) as [->|Hne]; [|rewrite (rl_ent _ _ _ _ R) by done; apply Ht].
      destruct (rl_to _ _ _ _ R) as [-> ->]. apply How.
    + intros e. rewrite El. destruct (decide (e = p)) as [->|Hne].
      * destruct (levels_pos s p Ht) as [n En]. rewrite En. simpl. destruct (rl_to _ _ _ _ R) as [-> _].
        eapply (complete_off s s' p); [|done| |].
        -- intros x Hx. by rewrite (rl_ent _ _ _ _ R).
        -- intros E. apply How in E. congruence.
        -- pose proof (tp_depth _ T g cpu Htg Hcpu) as Hd. by rewrite En in Hd.
      * eapply (complete_off s s' p); [|done|congruence|apply Ht]. intros x Hx. by rewrite (rl_ent _ _ _ _ R).
  - intros r. destruct (Hok r) as [H1 H2 H3 H4 H5 H6 H7 H8 H9]. split; rewrite ?Er; try done.
    + intros e q. rewrite H4. destruct (rl_entity e) as (-> & _). destruct (decide (e = p)) as [->|Hne].
      * rewrite Hoff. naive_solver.
      * by rewrite (rl_ent _ _ _ _ R).
    + intros e q. rewrite (proj1 (Hpr e)). apply H6.
    + rewrite H9. apply qsum_ext. intros q x _ _. by rewrite (proj2 (Hpr x)).
  - intros e g'. destruct (rl_entity e) as (Erl & -> & _). intros Hmy. specialize (Hg e g' Hmy).
    unfold on_rt_rq, group_ready, rt_rq_throttled in *. by rewrite Erl, Er.
Qed.
End Relocate.

Lemma relocated_inv onq cur p cpu s s' :
  relocated p cpu s s' → inv onq cur s → my_q (ent s p) = None → on_rt_rq s p = false →
  (∀ c q, (c < NR_CPUS)%nat → (q, p) ∉ entries (pushables s c)) → (∀ c, (c < NR_CPUS)%nat → curr (cpu_rq s c) ≠ p ∧ idle (cpu_rq s c) ≠ p) → (cpu < NR_CPUS)%nat →
  inv onq cur s'.
Proof.
  intros R V Hp Hoff Hpu Hcu Hcpu. pose proof (v_place _ _ _ V p Hp) as P. destruct (rl_rest _ _ _ _ R) as (Er & Eq & Eg & Egs & Ed & El & Eb).
  pose proof (v_rt _ _ _ V) as HI. pose proof (v_topo _ _ _ V) as T. split.
  - by apply (relocated_rt_inv p cpu s s' R Hp Hoff HI T (pl_group _ _ P)).
  - destruct T as [T1 T2 T3 T4 T6 T5]. split; rewrite ?Er, ?Eg, ?Egs, ?Ed, ?Eq.
    + intros r g. rewrite Er, Eg. intros Hg o. destruct (rl_entity p cpu s s' R o) as (_ & -> & _). by apply T1.
    + done.
    + intros g c Hg Hc. rewrite El. apply (complete_off s s' p); [| | |by apply T3].
      * intros x Hx. by rewrite (rl_ent _ _ _ _ R).
      * intros e o Ho ->. apply (t_parent _ (i_tree _ HI)) in Ho. congruence.
      * intros E. destruct (T2 g c Hg Hc) as [Tg Tc]. pose proof (proj1 (T1 _ g Tg p)) as Hx. rewrite Tc in Hx. specialize (Hx E). congruence.
    + intros c Hc. destruct (T4 c Hc) as [A B]. split; [|done]. intros o. destruct (rl_entity p cpu s s' R o) as (_ & -> & _). apply A.
    + intros o r. destruct (rl_entity p cpu s s' R o) as (_ & -> & _). intros Ho. rewrite (rl_ent _ _ _ _ R o); [by apply T6|]. intros ->. congruence.
    + done.
  - intros x. destruct (rl_entity p cpu s s' R x) as (_ & -> & _). intros Hx. destruct (decide (x = p)) as [->|Hne].
    + pose proof (rl_fixed _ _ _ _ R) as E. injection E as _ _ _ _ Ea Et _. destruct P as [P1 P2 P3 P4].
      split; rewrite ?Et, ?Ea, ?Eg, ?Egs, ?(rl_cpu _ _ _ _ R), ?(proj2 (rl_to _ _ _ _ R)); done.
    + destruct (v_place _ _ _ V x Hx) as [P1 P2 P3 P4]. split; rewrite ?(rl_task _ _ _ _ R x Hne), ?(rl_ent _ _ _ _ R x Hne), ?Eg, ?Egs; done.
  - intros x. destruct (rl_entity p cpu s s' R x) as (_ & -> & _), (rl_prio p cpu s s' R x) as (-> & _ & _ & _ & _ & ->). apply V.
  - intros x. unfold on_rt_rq. destruct (rl_entity p cpu s s' R x) as (-> & -> & _), (rl_prio p cpu s s' R x) as (_ & _ & _ & _ & _ & ->). apply V.
  - intros c Hc. unfold pushables. rewrite Er, Eq. by apply V.
  - intros c q x Hc. unfold pushables. rewrite Er, Eq. intros Hin. assert (x ≠ p) as Hne by (intros ->; by apply (Hpu c q Hc)).
    destruct (v_push _ _ _ V c q x Hc Hin) as [A1 A2 A3 A4 A5 A6 A7].
    split; rewrite ?(rl_task _ _ _ _ R x Hne), ?(rl_ent _ _ _ _ R x Hne); done.
  - intros c Hc. rewrite Eq. destruct (Hcu c Hc) as [Hne _]. rewrite (rl_task _ _ _ _ R _ Hne), (rl_ent _ _ _ _ R _ Hne). by apply V.
  - intros c r. rewrite Eq, Er. apply V.
  - intros c Hc. rewrite Eq. destruct (Hcu c Hc) as [_ Hne]. rewrite (rl_task _ _ _ _ R _ Hne), (rl_ent _ _ _ _ R _ Hne). by apply V.
Qed.

(** ** From one resting state to another *)

Lemma inv_weaken (onq onq' : nat → Prop) (cur cur' : nat → option nat) s :
  (∀ p, onq p → onq' p) → (∀ c p, (c < NR_CPUS)%nat → cur' c = Some p → cur c = Some p) → inv onq cur s → inv onq' cur' s.
Proof.
  intros Hq Hc V. split; try apply V.
  - intros p Hp Hon. destruct (v_on _ _ _ V p Hp Hon). auto.
  - intros c q p Hl Hin. destruct (v_push _ _ _ V c q p Hl Hin). split; auto.
Qed.

(** The task that runs on CPU [c] stays, no entity changes its kind and no
    assertion fails. *)
Record calm (c : nat) (s s' : sys) : Prop := {
  ca_bugs : bugs s' = bugs s;
  ca_curr : curr (cpu_rq s' c) = curr (cpu_rq s c);
  ca_rt : ∀ c', rt (cpu_rq s' c') = rt (cpu_rq s c');
  ca_my_q : ∀ e, my_q (ent s' e) = my_q (ent s e)
}.
#[global] Instance calm_preorder c : PreOrder (calm c).
Proof. split; [by split|]. intros s t u [] []. split; intros; congruence. Qed.
Lemma kept_calm c s s' : kept s s' → calm c s s'.
Proof. intros H. split; [apply H|apply (kp_queue _ _ c H)|intros c'; apply (kp_queue _ _ c' H)|intros e; apply (kp_entity _ _ e H)]. Qed.

Definition safe (c : nat) (s s' : sys) : Prop := good s → good s' ∧ calm c s s'.
#[global] Instance safe_preorder c : PreOrder (safe c).
Proof.
  split; [intros s; split; [done|reflexivity]|]. intros s t u H1 H2 G. destruct (H1 G) as [G' C]. destruct (H2 G'). split; [done|by etrans].
Qed.

Lemma good_kept s s' : keeps (onq_of s) (cur_of s) s s' → good s → good s' ∧ kept s s'.
Proof.
  intros H G. destruct (H G) as [V K]. split; [|done]. eapply inv_weaken; [| |exact V].
  - intros p. unfold onq_of. destruct (kp_fixed _ _ p K) as (_ & -> & _). done.
  - intros c p _. unfold cur_of. destruct (kp_queue _ _ c K) as [-> _]. done.
Qed.
Lemma keeps_safe c s s' : keeps (onq_of s) (cur_of s) s s' → safe c s s'.
Proof. intros H G. destruct (good_kept _ _ H G) as [? ?]. split; [done|by apply kept_calm]. Qed.

Lemma not_curr onq cur s p c c' :
  inv onq cur s → task_cpu (task s p) = c → (c' < NR_CPUS)%nat → curr (cpu_rq s c) ≠ p → curr (cpu_rq s c') ≠ p.
Proof. intros V Hc Hc' Hne E. destruct (v_cpu _ _ _ V c' Hc') as (_ & _ & Ht). rewrite E, Hc in Ht. congruence. Qed.

(** [migrate]: the task leaves the queues of one CPU for those of another. *)
Lemma migrate_safe p from to s :
  good s → my_q (ent s p) = None → task_cpu (task s p) = from → curr (cpu_rq s from) ≠ p → on_rq (task s p) = true → rt_class (task s p) = true →
  (to < NR_CPUS)%nat →
  let s' := migrate p from to s in good s' ∧ (∀ c, calm c s s') ∧ (to ≠ from → pushables s' from = plist_del p (pushables s from)).
Proof.
  intros G Hp Hfrom Hncur Hon Hcl Hto. assert ((from < NR_CPUS)%nat) as Hlt by (rewrite <- Hfrom; by apply (v_place _ _ _ G p Hp)).
  unfold migrate, deactivate_task, dequeue_task, activate_task, enqueue_task. rewrite Hcl.
  destruct (dequeue_task_rt_keeps (onq_of s) (cur_of s) from p s Hlt Hp G) as (V1 & K1 & Hoff & Epu). set (s1 := dequeue_task_rt from p s) in *. clearbody s1.
  destruct (kp_fixed _ _ p K1) as (_ & E2 & _ & _ & E5 & _ & E7), (kp_entity _ _ p K1) as (_ & _ & _ & Em).
  pose proof (set_task_cpu_relocated p to s1) as R. set (s2 := set_task_cpu p to s1) in *. clearbody s2.
  assert (∀ c, (c < NR_CPUS)%nat → curr (cpu_rq s1 c) ≠ p ∧ idle (cpu_rq s1 c) ≠ p) as Hcu.
  { intros c Hc. split; [|intros Ei; destruct (v_idle _ _ _ V1 c Hc) as (_ & _ & Hi); rewrite Ei in Hi; congruence]. apply (not_curr _ _ s1 p from c V1); [congruence|done|]. by destruct (kp_queue _ _ from K1) as [-> _]. }
  assert (inv (onq_of s) (cur_of s) s2) as V2.
  { eapply relocated_inv; [exact R|exact V1|congruence|done| |done|done]. intros c q Hc Hin.
    destruct (v_push _ _ _ V1 c q p Hc Hin) as [_ _ A3 _ _ _ _]. assert (c = from) as -> by congruence.
    rewrite Epu in Hin. by apply entries_del in Hin as [? _]. }
  pose proof (rl_fixed _ _ _ _ R) as E. injection E as _ _ F3 _ _ _ F7. destruct (rl_rest _ _ _ _ R) as (Er & Eq & _ & _ & _ & _ & Eb).
  assert (rt_class (task s2 p) = true) as Hcl2 by congruence. rewrite Hcl2.
  destruct (enqueue_task_rt_keeps (onq_of s) (cur_of s) to p 0 s2) as [V3 K3]; [done| |apply R|done|done| |done|].
  { destruct (rl_entity p to s1 s2 R p) as (_ & -> & _). congruence. }
  { unfold cur_of. rewrite Eq. by destruct (kp_queue _ _ to K1) as [-> _]. }
  set (s3 := enqueue_task_rt to p 0 s2) in *.
  assert (∀ c, calm c s s3) as C.
  { intros c. transitivity s1; [by apply kept_calm|]. transitivity s2; [|by apply kept_calm]. split; [done|by rewrite Eq|by rewrite Eq|].
    intros e. by destruct (rl_entity p to s1 s2 R e) as (_ & -> & _). }
  split_and!; [|done|].
  - eapply inv_weaken; [| |exact V3].
    + intros x. unfold onq_of. destruct (kp_fixed _ _ x K3) as (_ & -> & _). destruct (decide (x = p)) as [->|Hne]; [congruence|].
      rewrite (rl_task _ _ _ _ R x Hne). destruct (kp_fixed _ _ x K1) as (_ & -> & _). done.
    + intros c x _. unfold cur_of. by rewrite (ca_curr _ _ _ (C c)).
  - intros Hne. unfold s3. rewrite (enqueue_task_rt_pushables to p 0 s2 from).
    + unfold pushables. rewrite Er, Eq. exact Epu.
    + rewrite Eq. intros E. apply Hne. symmetry. eapply root_inj; [apply V1|done|done|done].
Qed.
