(* ===== verification/RtMigrate.v ===== *)
(** * Pushing and pulling

    Pushing and pulling tasks keeps the state of the scheduler in order, trips
    no assertion and ends, whatever the other CPUs do while a lock is released,
    as long as they keep the state in order themselves. *)

From stdpp Require Import functions.
From S2P Require Import Prelude Bitmap CpuPri Plist RtRq RtInv RtWalk RtFrame RtBandwidth RtClass RtTime RtPick RtOps RtPush RtCore RtSafe.

Section Migrate.
Context (domains : nat → list (bool * cpumask)).

(** ** The other CPUs *)

(** What the other CPUs do during one release of the lock of CPU [c]: they keep
    the scheduler in order, trip no assertion, and leave CPU [c] the task it
    runs. *)
Definition rely (c : nat) (d : option (sys → sys)) : Prop := match d with Some f => ∀ s, safe c s (f s) | None => True end.

Lemma double_lock_safe c ds s :
  Forall (rely c) ds →
  let '(released, ds', s') := double_lock_balance ds s in
  Forall (rely c) ds' ∧ safe c s s' ∧ (released = false → s' = s) ∧
  ((length ds' < length ds)%nat ∨ (ds' = ds ∧ s' = s)).
Proof.
  intros H. destruct ds as [|[f|] ds]; simpl.
  - split_and!; [done|reflexivity|done|by right].
  - inversion H; subst. split_and!; [done|auto|done|left; lia].
  - inversion H; subst. split_and!; [done|reflexivity|done|left; lia].
Qed.

(** ** The target *)

Lemma cpumask_first_in m c : cpumask_first m = Some c → c ∈ m ∧ (c < NR_CPUS)%nat.
Proof.
  unfold cpumask_first. intros H. destruct (filter (λ c, c ∈ m) (seq 0 NR_CPUS)) as [|x l] eqn:E; [done|]. injection H as ->.
  assert (c ∈ filter (λ c, c ∈ m) (seq 0 NR_CPUS)) as Hin by (rewrite E; left). apply list_elem_of_filter in Hin as [? Hs].
  apply elem_of_seq in Hs. split; [done|lia].
Qed.
Lemma search_domains_in sds m this c :
  (∀ t, this = Some t → t ∈ m) → search_domains sds m this = Some c → c ∈ m.
Proof.
  intros Ht. induction sds as [|[[] sp] sds IH]; simpl; [done| |done].
  assert (match cpumask_first (m ∩ sp) with Some b => Some b | None => search_domains sds m this end = Some c → c ∈ m) as Hf.
  { destruct (cpumask_first (m ∩ sp)) as [b|] eqn:E; [|done]. intros [= <-]. apply cpumask_first_in in E as [E _]. set_solver. }
  destruct this as [t|]; [|done]. case_decide; [|done]. intros [= <-]. by apply Ht.
Qed.

(** [find_lowest_rq] gives one of the CPUs [cpupri_find] recommends. *)
Lemma find_lowest_rq_in p s c :
  find_lowest_rq domains p s = Some c →
  ∃ m, cpupri_find (rd_cpupri (rd s)) (prio (task s p)) (cpus_allowed (task s p)) = Some m ∧ c ∈ m.
Proof.
  unfold find_lowest_rq. destruct (_ =? 1); [done|]. destruct (cpupri_find _ _ _) as [m|] eqn:Ef; [|done]. intros H. exists m. split; [done|].
  case_decide as Ec; [by injection H as <-|]. set (this := if decide (this_cpu s ∈ m) then Some (this_cpu s) else None) in *.
  assert (∀ t, this = Some t → t ∈ m) as Ht by (unfold this; case_decide; [by intros t [= <-]|done]).
  destruct (search_domains (domains _) m this) as [b|] eqn:Es; [injection H as <-; by eapply search_domains_in|].
  destruct this as [t|]; [injection H as <-; by apply Ht|]. by apply cpumask_first_in in H as [? _].
Qed.
Lemma cpupri_scan_sub cp pri allowed l m : cpupri_scan cp pri allowed l = Some m → m ⊆ allowed.
Proof.
  induction l as [|i l IH]; simpl; [done|]. destruct (_ <=? _); [done|]. case_decide; [done|]. intros [= <-]. set_solver.
Qed.
Lemma find_lowest_rq_allowed p s c : find_lowest_rq domains p s = Some c → c ∈ cpus_allowed (task s p).
Proof. intros (m & Hm & Hc)%find_lowest_rq_in. by apply cpupri_scan_sub in Hm as Hs; apply Hs. Qed.

(** ** Pushing *)

(** Task [p] waits on CPU [c]. *)
Record waiting (c p : nat) (s : sys) : Prop := {
  wt_task : my_q (ent s p) = None;
  wt_cpu : task_cpu (task s p) = c;
  wt_curr : curr (cpu_rq s c) ≠ p;
  wt_on : on_rq (task s p) = true
}.

Lemma hp_curr_range s r : rt_inv s → 0 ≤ hp_curr (rtq s r) ≤ MAX_RT_PRIO.
Proof. intros HI. by destruct (q_curr _ _ (i_rq _ HI r)) as [? _]. Qed.

Lemma find_lock_lowest_rq_ok c p tries : ∀ ds s,
  Forall (rely c) ds → good s → waiting c p s →
  let '(lowest, ds', s') := find_lock_lowest_rq domains tries p c ds s in
  Forall (rely c) ds' ∧ good s' ∧ calm c s s' ∧ ((length ds' < length ds)%nat ∨ (ds' = ds ∧ s' = s)) ∧
  ∀ cpu, lowest = Some cpu → waiting c p s' ∧ rt_class (task s' p) = true ∧ (cpu < NR_CPUS)%nat ∧ cpu ≠ c ∧
    prio (task s' p) < hp_curr (rtq s' (rt (cpu_rq s' cpu))).
Proof.
  induction tries as [|tries IH]; intros ds s Hds G W; simpl.
  { split_and!; [done|done|reflexivity|by right|done]. }
  destruct (find_lowest_rq domains p s) as [cpu|] eqn:Ef; [|split_and!; [done|done|reflexivity|by right|done]].
  destruct (Nat.eqb_spec cpu c) as [Ec|Ec]; [split_and!; [done|done|reflexivity|by right|done]|].
  assert ((cpu < NR_CPUS)%nat) as Hlt.
  { apply find_lowest_rq_allowed in Ef. eapply pl_allowed; [|exact Ef]. eapply v_place; [exact G|apply W]. }
  pose proof (double_lock_safe c ds s Hds) as Hd. destruct (double_lock_balance ds s) as [[released ds1] s1]. destruct Hd as (Hds1 & Hs1 & Hrel & Hlen).
  destruct (Hs1 G) as [G1 C1].
  destruct (released && _) eqn:Eb; [split_and!; [done|done|done|done|done]|].
  assert (waiting c p s1) as W1.
  { destruct released; [|rewrite Hrel by done; done]. simpl in Eb. rewrite !orb_false_iff, !negb_false_iff in Eb.
    destruct Eb as [[[B1 _] _] B4]. destruct W as [W1 W2 W3 W4]. split; [by rewrite (ca_my_q _ _ _ C1)|by apply Nat.eqb_eq|by rewrite (ca_curr _ _ _ C1)|done]. }
  destruct (Z.ltb_spec (prio (task s1 p)) (hp_curr (rtq s1 (rt (cpu_rq s1 cpu))))) as [Hp|Hp].
  - split_and!; [done|done|done|done|]. intros x [= <-]. split_and!; [done| |done|done|done].
    pose proof (hp_curr_range s1 (rt (cpu_rq s1 cpu)) (v_rt _ _ _ G1)). pose proof (v_class _ _ _ G1 p (wt_task _ _ _ W1)) as Hc.
    destruct (rt_class _); [done|lia].
  - specialize (IH ds1 s1 Hds1 G1 W1). destruct (find_lock_lowest_rq domains tries p c ds1 s1) as [[lo ds2] s2].
    destruct IH as (H1 & H2 & H3 & H4 & H5). split_and!; [done|done|by etrans| |done].
    destruct H4 as [?|[-> ->]]; [left; destruct Hlen as [?|[-> _]]; lia|done].
Qed.

(** The first pushable task, which passes all the assertions. *)
Lemma pick_next_pushable_task_ok c s :
  good s → (c < NR_CPUS)%nat →
  pick_next_pushable_task c s = (plist_first (pushables s c), s) ∧
  ∀ p, plist_first (pushables s c) = Some p → waiting c p s ∧ (prio (task s p), p) ∈ entries (pushables s c) ∧
    ∀ q x, (q, x) ∈ entries (pushables s c) → prio (task s p) ≤ prio (task s x).
Proof.
  intros G Hc. pose proof (plist_first_ok _ (v_plist _ _ _ G c Hc)) as Hf. unfold pick_next_pushable_task, has_pushable_tasks.
  change (pushable_tasks (rtq s (rt (cpu_rq s c)))) with (pushables s c). destruct (plist_first (pushables s c)) as [p|].
  - destruct Hf as (-> & q & es & Ee & Hes). simpl. assert ((q, p) ∈ entries (pushables s c)) as Hin by (rewrite Ee; left).
    pose proof (v_push _ _ _ G c q p Hc Hin) as [P1 P2 P3 P4 P5 P6 P7].
    assert (curr (cpu_rq s c) ≠ p) as Hcu by (intros E; apply P4; unfold cur_of; by rewrite E). split.
    + assert (_ = false) as ->; [|by rewrite BUG_ON_false]. pose proof (v_class _ _ _ G p P2) as Hcl. rewrite P7 in Hcl.
      unfold onq_of in P6. unfold task_current, rt_task, rt_prio. rewrite P3, Nat.eqb_refl, P6. simpl.
      rewrite (proj2 (Nat.eqb_neq _ _) Hcu), (proj2 (Z.leb_gt _ _) P5), (proj2 (Z.ltb_lt _ _)) by lia. done.
    + intros x [= <-]. split; [by split|]. split; [by rewrite <- P1|]. intros q' x Hx. pose proof (v_push _ _ _ G c q' x Hc Hx) as [X1 _ _ _ _ _ _].
      rewrite Ee in Hx. rewrite <- P1, <- X1. apply elem_of_cons in Hx as [[= -> ->]|Hx]; [done|]. rewrite Forall_forall in Hes. by apply (Hes _ Hx).
  - destruct Hf as [-> _]. done.
Qed.

(** What a push leaves: an order of the number of times the lock was released
    and of the tasks left to push. *)
Definition fewer (ds' ds : drops) (l' l : plist) : Prop :=
  (length ds' < length ds)%nat ∨ (ds' = ds ∧ (length (entries l') < length (entries l))%nat).

Lemma entries_del_length p l q : (q, p) ∈ entries l → (length (entries (plist_del p l)) < length (entries l))%nat.
Proof.
  rewrite plist_del_entries. generalize (entries l) as es. intros es. induction es as [|[a x] es IH]; [by intros ?%not_elem_of_nil|].
  intros Hin. destruct (decide (x = p)) as [->|Hne].
  - rewrite filter_cons_False by (simpl; tauto). simpl. pose proof (length_filter (λ e : Z * nat, e.2 ≠ p) es). lia.
  - rewrite filter_cons_True by done. simpl. apply elem_of_cons in Hin as [[= -> ->]|Hin]; [done|]. specialize (IH Hin). lia.
Qed.

Lemma resched_pushables p s c : pushables (resched_task p s) c = pushables s c.
Proof. done. Qed.
Lemma resched_keeps onq cur p s : keeps onq cur s (resched_task p s).
Proof. by apply upd_task_keeps. Qed.

(** The CPU is not marked overloaded (it is when more than one real-time task is
    on it and one of them may migrate), the list of pushable tasks is empty, or
    the first of them is more important than the running task and the CPU is to
    reschedule. *)
Definition settled (c : nat) (s : sys) : Prop :=
  overloaded (rtq s (rt (cpu_rq s c))) = false ∨ plist_head_empty (pushables s c) = true ∨
  ∃ p, plist_first (pushables s c) = Some p ∧ prio (task s p) < prio (task s (curr (cpu_rq s c))) ∧
       need_resched (task s (curr (cpu_rq s c))) = true.

Lemma resched_settled c p s :
  plist_first (pushables s c) = Some p → prio (task s p) < prio (task s (curr (cpu_rq s c))) → settled c (resched_task (curr (cpu_rq s c)) s).
Proof.
  intros Hp Hlt. right. right. exists p. split; [done|]. set (cu := curr (cpu_rq s c)) in *.
  change (curr (cpu_rq (resched_task cu s) c)) with cu. assert (∀ x, prio (task (resched_task cu s) x) = prio (task s x)) as E.
  { intros x. unfold resched_task. simpl. destruct (decide (x = cu)) as [->|]; [by rewrite fn_lookup_insert|by rewrite fn_lookup_insert_ne]. }
  rewrite !E. split; [done|]. unfold resched_task. simpl. by rewrite fn_lookup_insert.
Qed.

Lemma push_retry_ok c fuel : ∀ p ds s,
  (c < NR_CPUS)%nat → Forall (rely c) ds → good s → plist_first (pushables s c) = Some p → (length ds < fuel)%nat →
  ∃ b ds' s', push_retry domains fuel p c ds s = Some (b, ds', s') ∧ Forall (rely c) ds' ∧ good s' ∧ calm c s s' ∧
    (b = true → fewer ds' ds (pushables s' c) (pushables s c)) ∧ (b = false → settled c s').
Proof.
  induction fuel as [|fuel IH]; intros p ds s Hc Hds G Hp Hfuel; [lia|]. cbn [push_retry].
  destruct (pick_next_pushable_task_ok c s G Hc) as [_ Hpick]. destruct (Hpick p Hp) as (W & Hin & _).
  destruct (Nat.eqb_spec p (curr (cpu_rq s c))) as [E|_]; [by destruct (wt_curr _ _ _ W)|].
  destruct (Z.ltb_spec (prio (task s p)) (prio (task s (curr (cpu_rq s c))))) as [Hlt|_].
  { destruct (keeps_safe c _ _ (resched_keeps _ _ (curr (cpu_rq s c)) s) G) as [? ?]. eexists _, _, _. split; [done|].
    split_and!; [done|done|done|done|]. intros _. by apply (resched_settled c p). }
  pose proof (find_lock_lowest_rq_ok c p RT_MAX_TRIES ds s Hds G W) as Hl.
  destruct (find_lock_lowest_rq domains RT_MAX_TRIES p c ds s) as [[[cpu|] ds1] s1]; destruct Hl as (Hds1 & G1 & C1 & Hlen & Hlo).
  - destruct (Hlo cpu eq_refl) as ([W1 W2 W3 W4] & Hcl & Hlt & Hne & _).
    destruct (migrate_safe p c cpu s1 G1 W1 W2 W3 W4 Hcl Hlt) as (G2 & C2 & Hpu). specialize (Hpu Hne). set (s2 := migrate p c cpu s1) in *.
    destruct (keeps_safe c _ _ (resched_keeps _ _ (curr (cpu_rq s2 cpu)) s2) G2) as [G3 C3].
    eexists _, _, _. split; [done|]. split_and!; [done|done|etrans; [exact C1|etrans; [exact (C2 c)|exact C3]]| |done]. intros _. rewrite resched_pushables, Hpu.
    destruct Hlen as [?|[-> ->]]; [by left|]. right. split; [done|]. by eapply entries_del_length.
  - destruct (pick_next_pushable_task_ok c s1 G1 Hc) as [-> Hpick1]. destruct (_ && _) eqn:Eb.
    + destruct (keeps_safe c _ _ (dequeue_pushable_keeps _ _ c p s1 Hc) G1) as [G2 C2]. eexists _, _, _. split; [done|].
      split_and!; [done|done|etrans; [exact C1|exact C2]| |done]. intros _. destruct Hlen as [?|[-> ->]]; [by left|]. right. split; [done|].
      unfold pushables at 1. simpl. rewrite fn_lookup_insert. by eapply entries_del_length.
    + destruct (plist_first (pushables s1 c)) as [t|] eqn:Et.
      * destruct Hlen as [Hlen|[-> ->]].
        -- destruct (IH t ds1 s1 Hc Hds1 G1 Et ltac:(lia)) as (b & ds' & s' & E & H1 & H2 & H3 & H4 & H5). exists b, ds', s'.
           split_and!; [done|done|done|etrans; [exact C1|exact H3]| |done]. intros Hb. left. destruct (H4 Hb) as [?|[-> _]]; lia.
        -- exfalso. rewrite Hp in Et. injection Et as <-. rewrite (wt_cpu _ _ _ W), Nat.eqb_refl, bool_decide_eq_true_2 in Eb; done.
      * eexists _, _, _. split; [done|]. split_and!; [done|done|done| |done]. intros _. destruct Hlen as [?|[-> ->]]; [by left|]. congruence.
Qed.

Lemma push_rt_task_ok c ds s :
  (c < NR_CPUS)%nat → Forall (rely c) ds → good s →
  ∃ b ds' s', push_rt_task domains (S (length ds)) c ds s = Some (b, ds', s') ∧ Forall (rely c) ds' ∧ good s' ∧ calm c s s' ∧
    (b = true → fewer ds' ds (pushables s' c) (pushables s c)) ∧ (b = false → settled c s').
Proof.
  intros Hc Hds G. unfold push_rt_task. destruct (overloaded _) eqn:Eo; cbn [negb].
  - destruct (pick_next_pushable_task_ok c s G Hc) as [-> _]. destruct (plist_first (pushables s c)) as [p|] eqn:Ep; [apply push_retry_ok; auto|].
    eexists _, _, _. split; [done|]. split_and!; [done|done|reflexivity|done|]. intros _. right. left.
    pose proof (plist_first_ok _ (v_plist _ _ _ G c Hc)) as Hf. rewrite Ep in Hf. apply Hf.
  - eexists _, _, _. split; [done|]. split_and!; [done|done|reflexivity|done|]. intros _. by left.
Qed.

(** The loop ends. *)
Lemma push_rt_tasks_ok c : ∀ ds s,
  (c < NR_CPUS)%nat → Forall (rely c) ds → good s →
  ∃ n ds' s', (∀ fuel, (n ≤ fuel)%nat → push_rt_tasks domains fuel c ds s = Some (ds', s')) ∧ Forall (rely c) ds' ∧ good s' ∧ calm c s s' ∧
    settled c s'.
Proof.
  intros ds s Hc. remember (length ds) as k eqn:Ek. revert ds s Ek. induction (lt_wf k) as [k _ IHk]. intros ds s ->.
  remember (length (entries (pushables s c))) as m eqn:Em. revert ds s IHk Em. induction (lt_wf m) as [m _ IHm]. intros ds s IHk -> Hds G.
  destruct (push_rt_task_ok c ds s Hc Hds G) as (b & ds1 & s1 & E & H1 & H2 & H3 & H4 & H5). destruct b.
  - assert (∃ n ds' s', (∀ fuel, (n ≤ fuel)%nat → push_rt_tasks domains fuel c ds1 s1 = Some (ds', s')) ∧ Forall (rely c) ds' ∧ good s' ∧
      calm c s1 s' ∧ settled c s') as (n & ds' & s' & K1 & K2 & K3 & K4 & K5).
    { destruct (H4 eq_refl) as [Hlt|[-> Hlt]]; [by eapply IHk|]. by eapply IHm. }
    exists (S n), ds', s'. split_and!; [|done|done|etrans; [exact H3|exact K4]|done]. intros [|fuel] Hf; [lia|]. cbn [push_rt_tasks]. rewrite E. apply K1. lia.
  - exists 1%nat, ds1, s1. split_and!; [|done|done|done|by apply H5]. intros [|fuel] Hf; [lia|]. cbn [push_rt_tasks]. by rewrite E.
Qed.

(** ** Pulling *)

(** A task that may be picked from queue [r]. *)
Definition pickable (s : sys) (cpu : option nat) (r p : nat) : Prop :=
  (∃ i, p ∈ queue (active (rtq s r)) i) ∧ rt_entity_is_task s p = true ∧ pick_rt_task s p cpu = true.

Lemma pick_from_in s cpu q p : pick_from s cpu q = Some p → p ∈ q ∧ rt_entity_is_task s p = true ∧ pick_rt_task s p cpu = true.
Proof.
  unfold pick_from. destruct (filter _ q) as [|x l] eqn:E; [done|]. intros [= ->].
  assert (p ∈ filter (λ e, rt_entity_is_task s e && pick_rt_task s e cpu = true) q) as Hin by (rewrite E; left).
  apply list_elem_of_filter in Hin as [Hb Hin]. apply andb_true_iff in Hb as [? ?]. done.
Qed.
Lemma pick_in_array_in s cpu r fuel : ∀ next idx p,
  pick_in_array fuel s cpu (active (rtq s r)) next idx = Some p → next = Some p ∨ pickable s cpu r p.
Proof.
  induction fuel as [|fuel IH]; intros next idx p; cbn [pick_in_array]; [auto|]. destruct (_ <=? idx); [auto|].
  destruct (match next with Some n => _ | None => false end); [auto|].
  destruct (pick_from s cpu (queue (active (rtq s r)) idx)) as [x|] eqn:Ep.
  - intros [= ->]. right. apply pick_from_in in Ep as (? & ? & ?). split; eauto.
  - destruct next as [n|]; [auto|]. apply IH.
Qed.
Lemma pick_next_highest_in s c cpu p :
  pick_next_highest_task_rt s c cpu = Some p → ∃ r, r ∈ leaf_rt_rq_list (cpu_rq s c) ∧ pickable s cpu r p.
Proof.
  unfold pick_next_highest_task_rt. assert (∀ l next, foldl (λ next r, let a := active (rtq s r) in
      pick_in_array 101 s cpu a next (sched_find_first_bit (bits a))) next l = Some p →
      next = Some p ∨ ∃ r, r ∈ l ∧ pickable s cpu r p) as H.
  { induction l as [|r l IH]; intros next; cbn [foldl]; [auto|]. cbv zeta. intros [Hn|(r' & Hr' & Hp)]%IH.
    - apply pick_in_array_in in Hn as [?|?]; [auto|]. right. exists r. split; [left|done].
    - right. exists r'. split; [by right|done]. }
  intros [?|?]%H; done.
Qed.

Lemma picked_waiting s c cpu p :
  good s → (c < NR_CPUS)%nat → pick_next_highest_task_rt s c cpu = Some p → waiting c p s ∧ rt_class (task s p) = true.
Proof.
  intros G Hc (r & Hr & (i & Hi) & Ht & Hp)%pick_next_highest_in. pose proof (v_rt _ _ _ G) as HI.
  assert (my_q (ent s p) = None) as Hmy by (unfold rt_entity_is_task in Ht; by destruct (my_q (ent s p))).
  apply (q_linked _ _ (i_rq _ HI r)) in Hi as [Hrq Hl]. assert (on_rt_rq s p = true) as Hon by (apply on_rt_rq_true; eauto).
  destruct (v_on _ _ _ G p Hmy Hon) as [Hq Hcl]. split; [|done].
  pose proof (v_leaves _ _ _ G c r Hc Hr) as Hcpu. destruct (v_place _ _ _ G p Hmy) as [P1 P2 P3 P4].
  destruct (tp_rq _ (v_topo _ _ _ G) _ _ P1 P2) as [_ Hc']. rewrite <- P3, Hrq, Hcpu in Hc'.
  split; [done|done| |done]. intros E. destruct (v_cpu _ _ _ G c Hc) as [Ho _]. rewrite E in Ho. unfold pick_rt_task in Hp. by rewrite Ho in Hp.
Qed.

Lemma pull_from_ok c ret ds s cpu :
  (c < NR_CPUS)%nat → (cpu < NR_CPUS)%nat → Forall (rely c) ds → good s →
  let '(_, ds', s') := pull_from c (ret, ds, s) cpu in Forall (rely c) ds' ∧ good s' ∧ calm c s s'.
Proof.
  intros Hc Hcpu Hds G. unfold pull_from. destruct (_ || _); [split_and!; [done|done|reflexivity]|].
  destruct (_ <=? _); [split_and!; [done|done|reflexivity]|].
  pose proof (double_lock_safe c ds s Hds) as Hd. destruct (double_lock_balance ds s) as [[released ds1] s1]. destruct Hd as (Hds1 & Hs1 & _).
  destruct (Hs1 G) as [G1 C1]. destruct (_ <=? 1); [done|]. destruct (pick_next_highest_task_rt s1 cpu (Some c)) as [p|] eqn:Ep; [|done].
  destruct (_ <? _); [|done]. destruct (picked_waiting s1 cpu (Some c) p G1 Hcpu Ep) as [[W1 W2 W3 W4] Hcl].
  rewrite W4, (proj2 (Nat.eqb_neq _ _)) by done. simpl. rewrite BUG_ON_false. destruct (_ <? _); [done|].
  destruct (migrate_safe p cpu c s1 G1 W1 W2 W3 W4 Hcl Hc) as (G2 & C2 & _). split_and!; [done|done|etrans; [exact C1|apply C2]].
Qed.

Lemma pull_rt_task_ok c ds s :
  (c < NR_CPUS)%nat → Forall (rely c) ds → good s →
  let '(_, ds', s') := pull_rt_task c ds s in Forall (rely c) ds' ∧ good s' ∧ calm c s s'.
Proof.
  intros Hc. unfold pull_rt_task. destruct (negb _); [intros; split_and!; [done|done|reflexivity]|].
  assert (∀ cpu, cpu ∈ seq 0 NR_CPUS → (cpu < NR_CPUS)%nat) as Hseq by (intros cpu Hs; apply elem_of_seq in Hs; lia). revert Hseq.
  generalize false as ret. generalize (seq 0 NR_CPUS) as l. intros l. revert ds s. induction l as [|cpu l IH]; intros ds s ret Hseq Hds G; cbn [foldl].
  { split_and!; [done|done|reflexivity]. }
  pose proof (pull_from_ok c ret ds s cpu Hc (Hseq cpu ltac:(left)) Hds G) as H1. destruct (pull_from c (ret, ds, s) cpu) as [[ret1 ds1] s1].
  destruct H1 as (H1 & H2 & H3). specialize (IH ds1 s1 ret1 ltac:(intros x Hx; apply Hseq; by right) H1 H2).
  destruct (foldl (pull_from c) (ret1, ds1, s1) l) as [[ret2 ds2] s2]. destruct IH as (K1 & K2 & K3). split_and!; [done|done|etrans; [exact H3|exact K3]].
Qed.

End Migrate.
