(* ===== verification/RtEvents.v ===== *)
(** * The scheduler is safe

    Waking, scheduling, ticking, yielding, changing priorities and the period
    timer, in any order and on any CPUs: the run queues stay in order and no
    assertion of the real-time class fails. *)

From stdpp Require Import functions.
From S2P Require Import Prelude Bitmap CpuPri Plist RtRq RtInv RtWalk RtFrame RtExample RtBandwidth RtClass RtTime RtPick RtOps RtPush RtCore RtSafe RtMigrate.

(** ** Changing a task *)

(** Task [p] is on no queue and not pushable. *)
Definition off (s : sys) (p : nat) : Prop :=
  on_rt_rq s p = false ∧ ∀ c q, (c < NR_CPUS)%nat → (q, p) ∉ entries (pushables s c).

Lemma off_kept s s' p :
  (∀ e, my_q (ent s e) = None → run_list (ent s' e) = run_list (ent s e)) → (∀ c, pushables s' c = pushables s c) → my_q (ent s p) = None →
  off s p → off s' p.
Proof. intros He Hp Hmy [H1 H2]. split; [unfold on_rt_rq; by rewrite He|]. intros c q Hc. rewrite Hp. by apply H2. Qed.

Lemma off_other_class onq cur s p : inv onq cur s → my_q (ent s p) = None → rt_class (task s p) = false → off s p.
Proof.
  intros V Hp Hcl. split.
  - destruct (on_rt_rq s p) eqn:E; [|done]. destruct (v_on _ _ _ V p Hp E). congruence.
  - intros c q Hc Hin. destruct (v_push _ _ _ V c q p Hc Hin). congruence.
Qed.
Lemma off_sleeping onq cur s p : inv onq cur s → my_q (ent s p) = None → ¬ onq p → off s p.
Proof.
  intros V Hp Hn. split.
  - destruct (on_rt_rq s p) eqn:E; [|done]. by destruct (v_on _ _ _ V p Hp E).
  - intros c q Hc Hin. by destruct (v_push _ _ _ V c q p Hc Hin).
Qed.
Lemma off_dequeued onq cur c p s :
  (c < NR_CPUS)%nat → my_q (ent s p) = None → task_cpu (task s p) = c → inv onq cur s →
  let s' := dequeue_task_rt c p s in inv onq cur s' ∧ kept s s' ∧ off s' p.
Proof.
  intros Hc Hp Hcpu V. destruct (dequeue_task_rt_keeps onq cur c p s Hc Hp V) as (V1 & K1 & Hoff & Hpu). split_and!; [done|done|]. split; [done|].
  intros c' q Hc' Hin. pose proof (v_push _ _ _ V1 c' q p Hc' Hin) as [_ _ A3 _ _ _ _]. destruct (kp_fixed _ _ p K1) as (_ & _ & _ & _ & Ec & _).
  assert (c' = c) as -> by congruence. rewrite Hpu in Hin. by apply entries_del in Hin as [? _].
Qed.

(** A task that is off need not count as runnable. *)
Lemma inv_shrink onq cur s p : inv onq cur s → off s p → inv (λ x, onq x ∧ x ≠ p) cur s.
Proof.
  intros V [O1 O2]. split; try apply V.
  - intros x Hx Hon. destruct (v_on _ _ _ V x Hx Hon). split; [split; [done|]|done]. intros ->. congruence.
  - intros c q x Hc Hin. destruct (v_push _ _ _ V c q x Hc Hin). split; try done. split; [done|]. intros ->. by apply (O2 c q).
Qed.

(** [s'] is [s] with fields of tasks changed; [p] may change its priority and
    class while it is off. *)
Record retasked (p : nat) (s s' : sys) : Prop := {
  rt_same : ent s' = ent s ∧ rtq s' = rtq s ∧ cpu_rq s' = cpu_rq s ∧ tgs s' = tgs s ∧ task_groups s' = task_groups s ∧ rd s' = rd s ∧
            levels s' = levels s ∧ bugs s' = bugs s;
  rt_all : ∀ x, (normal_prio (task s' x), on_cpu (task s' x), cpus_allowed (task s' x), task_cpu (task s' x), task_tg (task s' x)) =
                (normal_prio (task s x), on_cpu (task s x), cpus_allowed (task s x), task_cpu (task s x), task_tg (task s x));
  rt_prios : ∀ x, x ≠ p → (prio (task s' x), rt_class (task s' x)) = (prio (task s x), rt_class (task s x))
}.

Lemma retasked_rt_inv p s s' : retasked p s s' → my_q (ent s p) = None → on_rt_rq s p = false ∨ prio (task s' p) = prio (task s p) → rt_inv s → rt_inv s'.
Proof.
  intros [(Ee & Er & _ & _ & _ & _ & El & _) Ha Hpr] Hmy Hoff [Ht Hok Hg].
  assert (∀ x, on_rt_rq s x = true ∨ my_q (ent s x) ≠ None → rt_se_prio s' x = rt_se_prio s x ∧ rt_se_boosted s' x = rt_se_boosted s x) as Hp.
  { intros x Hx. unfold rt_se_prio, rt_se_boosted, group_rt_rq. rewrite Ee, Er. destruct (my_q (ent s x)) as [g|] eqn:Ex; [done|].
    pose proof (Ha x) as E. injection E as -> _ _ _ _. assert (prio (task s' x) = prio (task s x)) as ->; [|done].
    destruct (decide (x = p)) as [->|Hne]; [|pose proof (Hpr x Hne) as E; by injection E].
    destruct Hx as [Hx|Hx]; [|done]. destruct Hoff as [?|?]; [congruence|done]. }
  split.
  - destruct Ht as [T1 T2]. split; [by rewrite Ee|]. intros e. rewrite El. eapply complete_kept; [|apply T2]. intros x. by rewrite Ee.
  - intros r. destruct (Hok r) as [H1 H2 H3 H4 H5 H6 H7 H8 H9].
    assert (∀ e i, e ∈ queue (active (rtq s r)) i → rt_se_prio s' e = rt_se_prio s e ∧ rt_se_boosted s' e = rt_se_boosted s e) as Hq.
    { intros e i Hin. apply Hp. left. apply H4 in Hin as [_ Hl]. apply on_rt_rq_true. eauto. }
    split; rewrite ?Er, ?Ee; try done.
    + intros e i Hin. rewrite (proj1 (Hq e i Hin)). by apply H6.
    + rewrite H9. apply qsum_ext. intros i x _ Hin. by rewrite (proj2 (Hq x i Hin)).
  - intros e g. rewrite Ee. intros Hm. specialize (Hg e g Hm). unfold on_rt_rq, group_ready, rt_rq_throttled in *. by rewrite Ee, Er.
Qed.

Lemma retasked_inv onq cur p s s' :
  retasked p s s' → my_q (ent s p) = None →
  off s p ∨ (prio (task s' p), rt_class (task s' p)) = (prio (task s p), rt_class (task s p)) →
  (if rt_class (task s' p) then 0 ≤ prio (task s' p) < MAX_RT_PRIO else MAX_RT_PRIO ≤ prio (task s' p)) →
  (∀ c, (c < NR_CPUS)%nat → idle (cpu_rq s c) = p → rt_class (task s' p) = false) →
  inv onq cur s → inv onq cur s'.
Proof.
  intros R Hmy Hoff Hcl Hidle V. destruct (rt_same _ _ _ R) as (Ee & Er & Eq & Eg & Egs & Ed & El & _).
  assert (∀ x, (on_rt_rq s x = true ∨ ∃ c q, (c < NR_CPUS)%nat ∧ (q, x) ∈ entries (pushables s c)) →
    prio (task s' x) = prio (task s x) ∧ rt_class (task s' x) = rt_class (task s x)) as Hpr.
  { intros x Hx. destruct (decide (x = p)) as [->|Hne]; [|pose proof (rt_prios _ _ _ R x Hne) as E; by injection E].
    destruct Hoff as [[O1 O2]|E]; [|by injection E]. destruct Hx as [?|(c & q & Hc & Hin)]; [congruence|by destruct (O2 c q Hc)]. }
  assert (∀ x, cpus_allowed (task s' x) = cpus_allowed (task s x) ∧ task_cpu (task s' x) = task_cpu (task s x) ∧
    task_tg (task s' x) = task_tg (task s x) ∧ on_cpu (task s' x) = on_cpu (task s x)) as Ha.
  { intros x. pose proof (rt_all _ _ _ R x) as E. by injection E. }
  split.
  - eapply retasked_rt_inv; [done|done| |apply V]. destruct Hoff as [[? _]|E]; [by left|]. right. by injection E.
  - destruct (v_topo _ _ _ V) as [T1 T2 T3 T4 T6 T5].
    split; rewrite ?Er, ?Ee, ?Eg, ?Egs, ?Ed, ?Eq, ?El; try done.
    + intros r g. rewrite Er, Ee, Eg. apply T1.
    + intros g c Hg Hc. eapply complete_kept; [|by apply T3]. intros e. by rewrite Ee.
  - intros x. rewrite Ee. intros Hx. destruct (v_place _ _ _ V x Hx) as [P1 P2 P3 P4], (Ha x) as (A1 & A2 & A3 & _).
    split; rewrite ?A1, ?A2, ?A3, ?Ee, ?Eg, ?Egs; done.
  - intros x. rewrite Ee. intros Hx. destruct (decide (x = p)) as [->|Hne]; [done|].
    pose proof (rt_prios _ _ _ R x Hne) as E. injection E as -> ->. by apply V.
  - intros x. unfold on_rt_rq. rewrite Ee. intros Hx Hon. rewrite (proj2 (Hpr x (or_introl Hon))). by apply V.
  - intros c Hc. unfold pushables. rewrite Er, Eq. by apply V.
  - intros c q x Hc. unfold pushables. rewrite Er, Eq. intros Hin. destruct (Hpr x) as [B1 B2]; [right; eauto|].
    destruct (v_push _ _ _ V c q x Hc Hin), (Ha x) as (_ & A2 & _). split; rewrite ?Ee, ?B1, ?B2, ?A2; done.
  - intros c Hc. rewrite Eq, Ee. destruct (Ha (curr (cpu_rq s c))) as (_ & -> & _ & ->). by apply V.
  - rewrite Eq, Er. apply V.
  - intros c Hc. rewrite Eq, Ee. destruct (Ha (idle (cpu_rq s c))) as (_ & -> & _ & _), (v_idle _ _ _ V c Hc) as (I1 & I2 & I3).
    split_and!; [done|done|]. destruct (decide (idle (cpu_rq s c) = p)) as [E|Hne]; [rewrite E; by apply (Hidle c)|].
    pose proof (rt_prios _ _ _ R _ Hne) as E. injection E as _ ->. done.
Qed.

Lemma set_on_rq_retasked b p s : retasked p s (set_on_rq b p s).
Proof.
  split; [done| |]; intros x; simpl; (destruct (decide (x = p)) as [->|]; [by rewrite fn_lookup_insert|by rewrite fn_lookup_insert_ne]).
Qed.
Lemma set_on_rq_inv onq cur b p s : my_q (ent s p) = None → inv onq cur s → inv onq cur (set_on_rq b p s).
Proof.
  intros Hmy V. eapply (retasked_inv onq cur p s); [apply set_on_rq_retasked|done| | | |done]; simpl; rewrite fn_lookup_insert; [by right|by apply V|].
  intros c Hc <-. by apply (v_idle _ _ _ V c Hc).
Qed.
Lemma set_prio_retasked pr b p s : retasked p s (set_prio pr b p s).
Proof.
  split; [done| |]; intros x; simpl; [|intros Hx; by rewrite fn_lookup_insert_ne].
  destruct (decide (x = p)) as [->|]; [by rewrite fn_lookup_insert|by rewrite fn_lookup_insert_ne].
Qed.

(** ** Operations that leave the tasks where they are *)

Lemma update_curr_keeps onq cur c s : keeps onq cur s (update_curr_rt c s).
Proof. apply time_keeps, update_curr_rt_ok. Qed.

Lemma watchdog_keeps onq cur p s : keeps onq cur s (watchdog p s).
Proof.
  unfold watchdog. destruct (_ =? RLIM_INFINITY); [reflexivity|]. set (s1 := set_timeout _ p s).
  assert (keeps onq cur s s1) as H1 by (by apply upd_ent_keeps). destruct (_ <? _); [|done]. etrans; [exact H1|]. by apply upd_task_keeps.
Qed.

Lemma task_tick_keeps onq cur c p s : my_q (ent s p) = None → keeps onq cur s (task_tick_rt c p s).
Proof.
  intros Hp V. destruct (update_curr_keeps onq cur c s V) as [V1 K1]. destruct (watchdog_keeps onq cur p _ V1) as [V2 K2].
  unfold task_tick_rt. set (s2 := watchdog p (update_curr_rt c s)) in *. clearbody s2. assert (kept s s2) as K by (etrans; [exact K1|exact K2]). clear K1 K2 V1.
  destruct (kp_entity _ _ p K) as (_ & _ & _ & Em). rewrite Hp in Em.
  assert (keeps onq cur s2 (if negb (policy (task s2 p) =? SCHED_RR) then s2 else
    let s := set_time_slice (u32 (time_slice (ent s2 p) - 1)) p s2 in
    if negb (time_slice (ent s p) =? 0) then s else
      let s := set_time_slice DEF_TIMESLICE p s in
      if not_alone s p then resched_task p (requeue_task_rt p false s) else s)) as H.
  { destruct (negb _); [reflexivity|]. cbv zeta. set (s3 := set_time_slice _ p s2).
    assert (keeps onq cur s2 s3 ∧ my_q (ent s3 p) = None) as [H3 E3].
    { split; [by apply upd_ent_keeps|]. unfold s3, set_time_slice. simpl. by rewrite fn_lookup_insert. }
    destruct (negb _); [done|]. etrans; [exact H3|]. clearbody s3. set (s4 := set_time_slice _ p s3).
    assert (keeps onq cur s3 s4 ∧ my_q (ent s4 p) = None) as [H4 E4].
    { split; [by apply upd_ent_keeps|]. unfold s4, set_time_slice. simpl. by rewrite fn_lookup_insert. }
    destruct (not_alone _ _); [|done]. etrans; [exact H4|]. etrans; [by apply requeue_task_keeps|apply resched_keeps]. }
  destruct (H V2) as [V3 K3]. split; [done|etrans; [exact K|exact K3]].
Qed.

Lemma check_preempt_keeps onq cur c p s : my_q (ent s p) = None → keeps onq cur s (check_preempt_curr c p s).
Proof.
  intros Hp. unfold check_preempt_curr. set (s1 := if eqb _ _ then _ else _). transitivity s1.
  - unfold s1. destruct (eqb _ _).
    + destruct (rt_class _); [|reflexivity]. unfold check_preempt_curr_rt. destruct (_ <? _); [apply resched_keeps|].
      destruct (_ && _); [|reflexivity]. unfold check_preempt_equal_prio. destruct (_ =? 1); [reflexivity|]. destruct (_ && _); [reflexivity|].
      destruct (negb _); [reflexivity|]. etrans; [by apply requeue_task_keeps|apply resched_keeps].
    + destruct (rt_class _); [apply resched_keeps|reflexivity].
  - clearbody s1. destruct (_ && _); [|reflexivity]. by apply upd_rq_keeps.
Qed.

Lemma tick_safe c s : (c < NR_CPUS)%nat → safe c s (scheduler_tick c s).
Proof.
  intros Hc G. unfold scheduler_tick. destruct (rt_class _); [|split; [done|reflexivity]]. apply (keeps_safe c); [|done].
  apply task_tick_keeps. by apply (v_cpu _ _ _ G).
Qed.
Lemma yield_safe c s : (c < NR_CPUS)%nat → safe c s (sched_yield c s).
Proof.
  intros Hc G. unfold sched_yield, yield_task_rt. destruct (rt_class _); [|split; [done|reflexivity]]. apply (keeps_safe c); [|done].
  apply requeue_task_keeps. by apply (v_cpu _ _ _ G).
Qed.
Lemma period_timer_safe c g ov s : g ∈ task_groups s → safe c s (do_sched_rt_period_timer g ov s).2.
Proof.
  intros Hg G. apply (keeps_safe c); [|done]. apply time_keeps, do_sched_rt_period_timer_ok. intros i Hi.
  destruct (tp_rq _ (v_topo _ _ _ G) g i Hg) as [? _]; [by apply (tp_span _ (v_topo _ _ _ G))|eauto].
Qed.
Lemma clock_safe c c' t s : safe c s (set_clock_task t c' s).
Proof. apply keeps_safe. by apply upd_rq_keeps. Qed.

(** A sleeping task is placed on another CPU. *)
Lemma place_safe c p cpu s :
  my_q (ent s p) = None → on_rq (task s p) = false → on_cpu (task s p) = false → (cpu < NR_CPUS)%nat → (∀ c, (c < NR_CPUS)%nat → idle (cpu_rq s c) ≠ p) →
  safe c s (set_task_cpu p cpu s).
Proof.
  intros Hp Hon Hcpu Hlt Hidle G. pose proof (set_task_cpu_relocated p cpu s) as R. set (s' := set_task_cpu p cpu s) in *. clearbody s'.
  destruct (off_sleeping _ _ s p G Hp) as [O1 O2]; [unfold onq_of; congruence|]. destruct (rl_rest _ _ _ _ R) as (_ & Eq & _ & _ & _ & _ & Eb). split.
  - eapply inv_weaken; [| |eapply relocated_inv; [exact R|exact G|done|done|done| |done]].
    + intros x. unfold onq_of. destruct (decide (x = p)) as [->|Hne]; [congruence|]. by rewrite (rl_task _ _ _ _ R).
    + intros c' x _. unfold cur_of. by rewrite Eq.
    + intros c' Hc'. split; [|by apply Hidle]. intros E. destruct (v_cpu _ _ _ G c' Hc') as [Ho _]. rewrite E in Ho. congruence.
  - split; [done|by rewrite Eq|by rewrite Eq|]. intros e. by destruct (rl_entity p cpu s s' R e) as (_ & -> & _).
Qed.

(** ** Switching tasks *)

(** All tasks but the one of CPU [c] are known to run. *)
Definition cur_but (c : nat) (s : sys) : nat → option nat := λ x, if decide (x = c) then None else cur_of s x.

Lemma put_prev_keeps c s :
  (c < NR_CPUS)%nat → good s → let s' := put_prev_task c (curr (cpu_rq s c)) s in inv (onq_of s) (cur_but c s) s' ∧ kept s s'.
Proof.
  intros Hc G. assert (inv (onq_of s) (cur_but c s) s) as V.
  { eapply inv_weaken; [| |exact G]; [done|]. intros c' p _. unfold cur_but. by case_decide. }
  destruct (v_cpu _ _ _ G c Hc) as (_ & Hmy & Hcpu). set (prev := curr (cpu_rq s c)) in *. unfold put_prev_task.
  destruct (rt_class (task s prev)) eqn:Hcl; [|split; [done|reflexivity]]. unfold put_prev_task_rt.
  destruct (update_curr_keeps _ _ c s V) as [V1 K1]. set (s1 := update_curr_rt c s) in *. clearbody s1.
  set (s2 := set_exec_start 0 prev s1). assert (keeps (onq_of s) (cur_but c s) s1 s2) as H2 by (by apply upd_task_keeps).
  destruct (H2 V1) as [V2 K2]. assert (kept s s2) as K by (etrans; [exact K1|exact K2]). cbv zeta. destruct (_ && _) eqn:Eb; [|done].
  apply andb_true_iff in Eb as [Eb1 Eb2]. destruct (kp_fixed _ _ prev K) as (_ & _ & _ & _ & Ec & _ & Ecl), (kp_entity _ _ prev K) as (_ & _ & _ & Em).
  assert (my_q (ent s2 prev) = None) as Em2 by congruence. destruct (v_on _ _ _ V2 prev Em2 Eb1) as [Hq _].
  destruct (enqueue_pushable_keeps (onq_of s) (cur_but c s) c prev s2 Hc) as [V3 K3]; [|done|split; [done|etrans; [exact K|exact K3]]].
  split; [done|done|congruence| |by apply Z.ltb_lt|done|congruence]. unfold cur_but. by rewrite decide_True.
Qed.

(** What is queued below the root queue of a CPU is on that CPU. *)
Lemma below_cpu onq cur s c p :
  inv onq cur s → (c < NR_CPUS)%nat → queued_below s (rt (cpu_rq s c)) p → rt_cpu (rtq s (se_rt_rq (ent s p))) = c.
Proof.
  intros V Hc H. induction H as [e He _|e o Ho _ _ IH].
  - rewrite He. by apply (tp_root _ (v_topo _ _ _ V)).
  - by rewrite (tp_same _ (v_topo _ _ _ V) o _ Ho).
Qed.

Lemma pick_next_keeps onq cur c s :
  (c < NR_CPUS)%nat → inv onq cur s →
  let '(p, s') := pick_next_task_rt c s in
  inv onq cur s' ∧ kept s s' ∧
  ∀ p', p = Some p' → my_q (ent s p') = None ∧ task_cpu (task s p') = c ∧ ∀ q, (q, p') ∉ entries (pushables s' c).
Proof.
  intros Hc V. destruct (tp_root _ (v_topo _ _ _ V) c Hc) as [Hroot _]. pose proof (pick_next_effect c s (v_rt _ _ _ V) Hroot) as H. cbv zeta in H.
  unfold pick_next_task_rt. destruct (_ || _).
  - rewrite H. set (s1 := set_post_schedule _ c s). assert (keeps onq cur s s1) as H1 by (by apply upd_rq_keeps). destruct (H1 V). done.
  - destruct H as (p & l & -> & Hmy & Hb & _). set (s1 := set_exec_start _ p s).
    assert (keeps onq cur s s1) as H1 by (by apply upd_task_keeps). destruct (H1 V) as [V1 K1].
    destruct (dequeue_pushable_keeps onq cur c p s1 Hc V1) as [V2 K2]. set (s2 := dequeue_pushable_task c p s1) in *.
    set (s3 := set_post_schedule _ c s2). assert (keeps onq cur s2 s3) as H3 by (by apply upd_rq_keeps). destruct (H3 V2) as [V3 K3].
    split_and!; [done|etrans; [exact K1|etrans; [exact K2|exact K3]]|]. intros p' [= <-]. split_and!; [done| |].
    + pose proof (below_cpu _ _ s c p V Hc Hb) as Hrc. destruct (v_place _ _ _ V p Hmy) as [P1 P2 P3 P4].
      destruct (tp_rq _ (v_topo _ _ _ V) _ _ P1 P2) as [_ Hx]. rewrite P3 in Hrc. congruence.
    + intros q. unfold pushables. destruct (kp_queue _ _ c K3) as [_ ->]. change (rtq s3) with (rtq s2). unfold s2, dequeue_pushable_task. simpl.
      rewrite fn_lookup_insert. cbn [pushable_tasks with_pushable]. rewrite entries_del. tauto.
Qed.

(** The context switch itself. *)
Lemma context_switch_good onq c next s :
  let prev := curr (cpu_rq s c) in
  (c < NR_CPUS)%nat → inv onq (cur_but c s) s → (∀ x, onq x → onq_of s x) → my_q (ent s next) = None → task_cpu (task s next) = c →
  (∀ q, (q, next) ∉ entries (pushables s c)) → next ≠ prev →
  good (set_on_cpu false prev (set_on_cpu true next (set_rq_curr next c s))).
Proof.
  intros prev Hc V Hq Hmy Hcpu Hpu Hne. set (s' := set_on_cpu false prev _).
  assert (∀ x, prio (task s' x) = prio (task s x) ∧ normal_prio (task s' x) = normal_prio (task s x) ∧ on_rq (task s' x) = on_rq (task s x) ∧
    cpus_allowed (task s' x) = cpus_allowed (task s x) ∧ task_cpu (task s' x) = task_cpu (task s x) ∧ task_tg (task s' x) = task_tg (task s x) ∧
    rt_class (task s' x) = rt_class (task s x) ∧
    on_cpu (task s' x) = if decide (x = prev) then false else if decide (x = next) then true else on_cpu (task s x)) as Ht.
  { intros x. unfold s', set_on_cpu, set_rq_curr. simpl. destruct (decide (x = prev)) as [->|Hx].
    - rewrite fn_lookup_insert. simpl. by rewrite fn_lookup_insert_ne.
    - rewrite fn_lookup_insert_ne by done. destruct (decide (x = next)) as [->|]; [by rewrite fn_lookup_insert|by rewrite fn_lookup_insert_ne]. }
  assert (∀ x, rt (cpu_rq s' x) = rt (cpu_rq s x) ∧ (leaf_rt_rq_list (cpu_rq s' x) = leaf_rt_rq_list (cpu_rq s x) ∧ idle (cpu_rq s' x) = idle (cpu_rq s x)) ∧
    curr (cpu_rq s' x) = if decide (x = c) then next else curr (cpu_rq s x)) as Hrq.
  { intros x. unfold s', set_on_cpu, set_rq_curr. simpl. destruct (decide (x = c)) as [->|]; [by rewrite fn_lookup_insert|by rewrite fn_lookup_insert_ne]. }
  assert (∀ x, pushables s' x = pushables s x) as Hpu' by (intros x; unfold pushables; by rewrite (proj1 (Hrq x))).
  assert (∀ x, task_cpu (task s' x) = task_cpu (task s x)) as Htc by apply Ht.
  split.
  - apply (sq_inv s); [|done|apply V]. split; try done. intros p. by destruct (Ht p) as (-> & -> & _).
  - destruct (v_topo _ _ _ V) as [T1 T2 T3 T4 T6 T5]. split; try done.
    + intros g x Hg Hx. apply (complete_kept s); [done|by apply T3].
    + intros x Hx. rewrite (proj1 (Hrq x)). by apply T4.
  - intros p Hp. destruct (v_place _ _ _ V p Hp) as [P1 P2 P3 P4]. destruct (Ht p) as (_ & _ & _ & Ea & Ec & Et & _).
    split; rewrite ?Ea, ?Ec, ?Et; done.
  - intros p Hp. destruct (Ht p) as (-> & _ & _ & _ & _ & _ & -> & _). by apply V.
  - intros p Hp Hon. destruct (v_on _ _ _ V p Hp Hon) as [Ho Hcl]. destruct (Ht p) as (_ & _ & Eo & _ & _ & _ & -> & _).
    split; [|done]. unfold onq_of. rewrite Eo. by apply Hq.
  - intros x Hx. rewrite Hpu'. by apply V.
  - intros x q p Hx. rewrite Hpu'. intros Hin. destruct (v_push _ _ _ V x q p Hx Hin) as [A1 A2 A3 A4 A5 A6 A7].
    destruct (Ht p) as (Ep & _ & Eo & _ & Ec & _ & Ecl & _). split; rewrite ?Ep, ?Ec, ?Ecl; try done.
    + unfold cur_of. rewrite (proj2 (proj2 (Hrq x))). destruct (decide (x = c)) as [->|Hxc].
      * intros [= ->]. by apply (Hpu q).
      * unfold cur_but in A4. by rewrite decide_False in A4.
    + unfold onq_of. rewrite Eo. by apply Hq.
  - intros x Hx. rewrite (proj2 (proj2 (Hrq x))), Htc. destruct (Ht (if decide (x = c) then next else curr (cpu_rq s x))) as (_ & _ & _ & _ & _ & _ & _ & ->). destruct (decide (x = c)) as [->|Hxc].
    + rewrite decide_False, decide_True by done. done.
    + destruct (v_cpu _ _ _ V x Hx) as (B1 & B2 & B3). rewrite !decide_False; [done|congruence|].
      intros E. destruct (v_cpu _ _ _ V c Hc) as (_ & _ & B4). fold prev in B4. congruence.
  - intros x r Hx. rewrite (proj1 (proj1 (proj2 (Hrq x)))). by apply V.
  - intros x Hx. rewrite (proj2 (proj1 (proj2 (Hrq x)))). destruct (Ht (idle (cpu_rq s x))) as (_ & _ & _ & _ & -> & _ & -> & _). by apply V.
Qed.

(** What may run when there is no real-time task. *)
Definition offered (s : sys) (c other : nat) : Prop :=
  my_q (ent s other) = None ∧ task_cpu (task s other) = c ∧ rt_class (task s other) = false.

Lemma switch_tasks_good lower c s :
  (∀ onq cur c s, (c < NR_CPUS)%nat → inv onq cur s → offered s c (lower c s)) →
  (c < NR_CPUS)%nat → good s → let s' := switch_tasks lower c s in good s' ∧ bugs s' = bugs s.
Proof.
  intros Hlower Hc G. destruct (put_prev_keeps c s Hc G) as [V1 K1]. unfold switch_tasks. set (prev := curr (cpu_rq s c)) in *.
  set (s1 := put_prev_task c prev s) in *. clearbody s1. unfold pick_next_task.
  pose proof (pick_next_keeps _ _ c s1 Hc V1) as H2. destruct (pick_next_task_rt c s1) as [p s2]. destruct H2 as (V2 & K2 & Hp).
  assert (kept s s2) as K by (etrans; [exact K1|exact K2]).
  set (next := match p with Some p => p | None => lower c s2 end).
  assert (my_q (ent s next) = None ∧ task_cpu (task s next) = c ∧ ∀ q, (q, next) ∉ entries (pushables s2 c)) as (N1 & N2 & N3).
  { destruct p as [p|]; unfold next.
    - destruct (Hp p eq_refl) as (A1 & A2 & A3). destruct (kp_entity _ _ p K1) as (_ & _ & _ & <-), (kp_fixed _ _ p K1) as (_ & _ & _ & _ & <- & _). done.
    - destruct (Hlower _ _ c s2 Hc V2) as (O1 & O2 & O3). set (other := lower c s2) in *.
      destruct (kp_fixed _ _ other K) as (_ & _ & _ & _ & Ec & _), (kp_entity _ _ other K) as (_ & _ & _ & Em).
      split_and!; [congruence|congruence|]. destruct (off_other_class _ _ s2 other V2) as [_ Ho]; [done|done|]. intros q. by apply Ho. }
  assert (match p with Some p => (p, s2) | None => (lower c s2, s2) end = (next, s2)) as E by (by destruct p).
  rewrite E. clearbody next. cbv zeta. clear E Hp.
  set (s3 := clear_tsk_need_resched prev s2). assert (keeps (onq_of s) (cur_but c s) s2 s3) as H3 by (by apply upd_task_keeps).
  destruct (H3 V2) as [V3 K3]. set (s4 := set_skip_clock_update 0 c s3). assert (keeps (onq_of s) (cur_but c s) s3 s4) as H4 by (by apply upd_rq_keeps).
  destruct (H4 V3) as [V4 K4]. assert (kept s2 s4) as K24 by (etrans; [exact K3|exact K4]). assert (kept s s4) as K' by (etrans; [exact K|exact K24]).
  assert (pushables s4 c = pushables s2 c) as Epu.
  { unfold pushables. destruct (kp_queue _ _ c K24) as [_ ->]. done. }
  assert (∀ x, onq_of s x → onq_of s4 x) as Honq by (intros x; unfold onq_of; by destruct (kp_fixed _ _ x K') as (_ & -> & _)).
  assert (curr (cpu_rq s4 c) = prev) as Ecu by (by destruct (kp_queue _ _ c K') as [-> _]). clearbody s4.
  destruct (Nat.eqb_spec prev next) as [En|En].
  - split; [|apply K']. split; try apply V4.
    + intros x Hx Hon. destruct (v_on _ _ _ V4 x Hx Hon). auto.
    + intros x q y Hx Hin. destruct (v_push _ _ _ V4 x q y Hx Hin) as [A1 A2 A3 A4 A5 A6 A7]. split; try done; [|by apply Honq].
      unfold cur_of. destruct (kp_queue _ _ x K') as [Ex _]. rewrite Ex. unfold cur_but, cur_of in A4. destruct (decide (x = c)) as [->|]; [|done].
      fold prev. intros [= <-]. rewrite Epu, En in Hin. by apply (N3 q).
  - split; [|apply K']. rewrite <- Ecu. apply (context_switch_good (onq_of s)); [done| |done| | | |by rewrite Ecu].
    + eapply inv_weaken; [| |exact V4]; [done|]. intros x y _. unfold cur_but, cur_of. case_decide; [done|]. by destruct (kp_queue _ _ x K') as [-> _].
    + by destruct (kp_entity _ _ next K') as (_ & _ & _ & ->).
    + by destruct (kp_fixed _ _ next K') as (_ & _ & _ & _ & -> & _).
    + by rewrite Epu.
Qed.

Lemma deactivate_prev_safe c s : (c < NR_CPUS)%nat → safe c s (deactivate_prev c s).
Proof.
  intros Hc G. destruct (v_cpu _ _ _ G c Hc) as (_ & Hmy & Hcpu). unfold deactivate_prev, deactivate_task, dequeue_task.
  set (prev := curr (cpu_rq s c)) in *. set (s1 := if rt_class _ then _ else s).
  assert (inv (onq_of s) (cur_of s) s1 ∧ kept s s1 ∧ off s1 prev) as (V1 & K1 & O1).
  { unfold s1. destruct (rt_class (task s prev)) eqn:Ecl; [by apply off_dequeued|]. split_and!; [done|reflexivity|by eapply off_other_class]. }
  clearbody s1. destruct (kp_entity _ _ prev K1) as (_ & _ & _ & Em). rewrite Hmy in Em. split.
  - eapply inv_weaken; [| |apply set_on_rq_inv, inv_shrink; [exact Em|exact V1|exact O1]].
    + intros x [Hx Hne]. unfold onq_of, set_on_rq in *. simpl. rewrite fn_lookup_insert_ne by done. by destruct (kp_fixed _ _ x K1) as (_ & -> & _).
    + intros x p _. unfold cur_of, set_on_rq. simpl. by destruct (kp_queue _ _ x K1) as [-> _].
  - etrans; [apply kept_calm, K1|]. by split.
Qed.

(** ** Events *)

Section Events.
Context (domains : nat → list (bool * cpumask)) (lower : nat → sys → nat).
Context (lower_offers : ∀ onq cur c s, (c < NR_CPUS)%nat → inv onq cur s → offered s c (lower c s)).

(** More fuel gives the same. *)
Lemma push_retry_more fuel fuel' c : ∀ p ds s r,
  push_retry domains fuel p c ds s = Some r → (fuel ≤ fuel')%nat → push_retry domains fuel' p c ds s = Some r.
Proof.
  revert fuel'. induction fuel as [|fuel IH]; intros fuel' p ds s r; cbn [push_retry]; [done|]. intros H Hle. destruct fuel' as [|fuel']; [lia|].
  cbn [push_retry]. destruct (_ =? _)%nat; [done|]. destruct (_ <? _); [done|].
  destruct (find_lock_lowest_rq _ _ _ _ _ _) as [[[cpu|] ds1] s1]; [done|]. destruct (pick_next_pushable_task c s1) as [t s2].
  destruct (_ && _); [done|]. destruct t as [t|]; [|done]. apply IH; [done|lia].
Qed.
Lemma push_rt_tasks_more fuel fuel' c : ∀ ds s r,
  push_rt_tasks domains fuel c ds s = Some r → (fuel ≤ fuel')%nat → push_rt_tasks domains fuel' c ds s = Some r.
Proof.
  revert fuel'. induction fuel as [|fuel IH]; intros fuel' ds s r; cbn [push_rt_tasks]; [done|]. intros H Hle. destruct fuel' as [|fuel']; [lia|].
  cbn [push_rt_tasks]. destruct (push_rt_task _ _ _ _ _) as [[[[] ds1] s1]|]; [|done|done]. apply IH; [done|lia].
Qed.

(** [r] is the end of an operation of CPU [c]. *)
Definition ends (c : nat) (s : sys) (r : option (drops * sys)) : Prop :=
  ∀ ds' s', r = Some (ds', s') → Forall (rely c) ds' ∧ good s' ∧ calm c s s'.

Lemma push_tasks_ends fuel c ds s : (c < NR_CPUS)%nat → Forall (rely c) ds → good s → ends c s (push_rt_tasks domains fuel c ds s).
Proof.
  intros Hc Hds G ds' s' E. destruct (push_rt_tasks_ok domains c ds s Hc Hds G) as (n & ds1 & s1 & H & K1 & K2 & K3 & _).
  pose proof (push_rt_tasks_more _ (Nat.max fuel n) _ _ _ _ E ltac:(lia)) as E1. rewrite H in E1 by lia. by injection E1 as -> ->.
Qed.
Lemma push_task_ends fuel c ds s b ds' s' :
  (c < NR_CPUS)%nat → Forall (rely c) ds → good s → push_rt_task domains fuel c ds s = Some (b, ds', s') →
  Forall (rely c) ds' ∧ good s' ∧ calm c s s'.
Proof.
  intros Hc Hds G E. destruct (push_rt_task_ok domains c ds s Hc Hds G) as (b1 & ds1 & s1 & H & K1 & K2 & K3 & _).
  unfold push_rt_task in E, H. destruct (negb _); [by simplify_eq|]. destruct (pick_next_pushable_task c s) as [[p|] s0]; [|by simplify_eq].
  apply (push_retry_more _ (Nat.max fuel (S (length ds)))) in E; [|lia].
  apply (push_retry_more _ (Nat.max fuel (S (length ds)))) in H; [|lia]. rewrite E in H. by simplify_eq.
Qed.

Lemma schedule_good fuel c sleeps ds s ds' s' :
  (c < NR_CPUS)%nat → Forall (rely c) ds → good s →
  schedule domains lower fuel c sleeps ds s = Some (ds', s') → good s' ∧ bugs s' = bugs s.
Proof.
  intros Hc Hds G. unfold schedule. set (prev := curr (cpu_rq s c)). set (s1 := if sleeps then _ else s).
  assert (good s1 ∧ calm c s s1) as [G1 C1] by (unfold s1; destruct sleeps; [by apply deactivate_prev_safe|split; [done|reflexivity]]).
  clearbody s1. assert (let '(ds2, s2) := pre_schedule c prev ds s1 in Forall (rely c) ds2 ∧ good s2 ∧ calm c s1 s2) as H2.
  { unfold pre_schedule, pre_schedule_rt. destruct (rt_class _); [|split_and!; [done|done|reflexivity]].
    destruct (_ && _); [|split_and!; [done|done|reflexivity]]. pose proof (pull_rt_task_ok c ds s1 Hc Hds G1) as Hp.
    by destruct (pull_rt_task c ds s1) as [[? ?] ?]. }
  destruct (pre_schedule c prev ds s1) as [ds2 s2]. destruct H2 as (Hds2 & G2 & C2).
  assert (calm c s s2) as C by (etrans; [exact C1|exact C2]). destruct (switch_tasks_good lower c s2 lower_offers Hc G2) as [G3 B3].
  set (s3 := switch_tasks lower c s2) in *. clearbody s3. unfold post_schedule. destruct (RtRq.post_schedule _).
  - assert (ends c s3 (if rt_class (task s3 (curr (cpu_rq s3 c))) then post_schedule_rt domains fuel c ds2 s3 else Some (ds2, s3))) as H.
    { destruct (rt_class _); [by apply push_tasks_ends|]. intros ds'' s'' [= <- <-]. split_and!; [done|done|reflexivity]. }
    destruct (if rt_class _ then _ else _) as [[ds4 s4]|]; [|done]. destruct (H ds4 s4 eq_refl) as (_ & G4 & C4). intros [= <- <-].
    destruct (keeps_safe c s4 (set_post_schedule false c s4)) as [G5 C5]; [by apply upd_rq_keeps|done|]. split; [done|].
    by rewrite (ca_bugs _ _ _ C5), (ca_bugs _ _ _ C4), B3, (ca_bugs _ _ _ C).
  - intros [= <- <-]. split; [done|]. by rewrite B3, (ca_bugs _ _ _ C).
Qed.

Lemma ttwu_activate_safe c p flags s :
  (c < NR_CPUS)%nat → my_q (ent s p) = None → task_cpu (task s p) = c → safe c s (ttwu_activate c p flags s).
Proof.
  intros Hc Hp Hcpu G. unfold ttwu_activate, activate_task, enqueue_task. set (onq := λ x, onq_of s x ∨ x = p).
  assert (inv onq (cur_of s) s) as V by (eapply inv_weaken; [| |exact G]; [by left|done]). set (s1 := if rt_class _ then _ else s).
  assert (inv onq (cur_of s) s1 ∧ kept s s1) as [V1 K1].
  { unfold s1. destruct (rt_class (task s p)) eqn:Ecl; [|split; [done|reflexivity]]. apply enqueue_task_rt_keeps; try done. by right. }
  clearbody s1. destruct (kp_entity _ _ p K1) as (_ & _ & _ & Em). rewrite Hp in Em. split.
  - eapply inv_weaken; [| |apply set_on_rq_inv; [exact Em|exact V1]].
    + intros x Hx. unfold onq_of, set_on_rq. simpl. destruct (decide (x = p)) as [->|Hne]; [by rewrite fn_lookup_insert|].
      rewrite fn_lookup_insert_ne by done. destruct (kp_fixed _ _ x K1) as (_ & -> & _). by destruct Hx.
    + intros x q _. unfold cur_of, set_on_rq. simpl. by destruct (kp_queue _ _ x K1) as [-> _].
  - etrans; [apply kept_calm, K1|]. by split.
Qed.

Lemma wakeup_ends fuel c p ds s :
  (c < NR_CPUS)%nat → Forall (rely c) ds → good s → my_q (ent s p) = None → ends c s (ttwu_do_wakeup domains fuel c p ds s).
Proof.
  intros Hc Hds G Hp. unfold ttwu_do_wakeup. destruct (keeps_safe c _ _ (check_preempt_keeps _ _ c p s Hp) G) as [G1 C1].
  set (s1 := check_preempt_curr c p s) in *. clearbody s1.
  assert (ends c s1 (Some (ds, s1))) as Hid by (intros ds' s' [= <- <-]; split_and!; [done|done|reflexivity]).
  assert (ends c s1 (if rt_class (task s1 p) then task_woken_rt domains fuel c p ds s1 else Some (ds, s1))) as H.
  { destruct (rt_class _); [|done]. unfold task_woken_rt. destruct (_ && _); [by apply push_tasks_ends|done]. }
  intros ds' s' E. destruct (H ds' s' E) as (? & ? & ?). split_and!; [done|done|etrans; [exact C1|done]].
Qed.

Lemma timed_off s s' p : timed s s' → my_q (ent s p) = None → off s p → off s' p.
Proof.
  intros Ht. apply off_kept; [apply Ht|]. intros c. unfold pushables. destruct (kp_queue _ _ c (timed_kept _ _ Ht)) as [_ ->]. apply (ti_queue _ _ _ Ht).
Qed.

Lemma put_prev_off onq cur c p s :
  inv onq cur s → my_q (ent s p) = None → off s p → let s' := put_prev_task c p s in inv onq cur s' ∧ kept s s' ∧ off s' p.
Proof.
  intros V Hp Hoff. unfold put_prev_task. destruct (rt_class _); [|split_and!; [done|reflexivity|done]]. unfold put_prev_task_rt.
  destruct (update_curr_keeps onq cur c s V) as [V1 K1].
  destruct (update_curr_rt_ok c s (v_rt _ _ _ V) (tp_owners _ (v_topo _ _ _ V))) as [_ Ht]. pose proof (timed_off _ _ _ Ht Hp Hoff) as O1.
  set (s1 := update_curr_rt c s) in *. clearbody s1. set (s2 := set_exec_start 0 p s1).
  assert (keeps onq cur s1 s2) as H2 by (by apply upd_task_keeps). destruct (H2 V1) as [V2 K2]. assert (off s2 p) as O2 by exact O1.
  cbv zeta. rewrite (proj1 O2). simpl. split_and!; [done|etrans; [exact K1|exact K2]|done].
Qed.

Lemma set_curr_task_keeps onq cur c s : (c < NR_CPUS)%nat → keeps onq cur s (set_curr_task_rt c s).
Proof.
  intros Hc. unfold set_curr_task_rt. set (s1 := set_exec_start _ _ s). transitivity s1; [by apply upd_task_keeps|]. clearbody s1.
  by apply dequeue_pushable_keeps.
Qed.

(** A task is taken off, changed and put back. *)
Lemma setprio_safe p pr s :
  my_q (ent s p) = None → 0 ≤ pr → (∀ c, (c < NR_CPUS)%nat → idle (cpu_rq s c) ≠ p) → good s →
  good (setprio p pr s) ∧ ∀ c, calm c s (setprio p pr s).
Proof.
  intros Hp Hpr Hidle G. assert ((task_cpu (task s p) < NR_CPUS)%nat) as Hc by (by apply (v_place _ _ _ G p Hp)).
  unfold setprio. set (c := task_cpu (task s p)) in *. set (s1 := if on_rq _ then _ else s). unfold good in G.
  assert (inv (onq_of s) (cur_of s) s1 ∧ kept s s1 ∧ off s1 p) as (V1 & K1 & O1).
  { unfold s1, dequeue_task. destruct (on_rq (task s p)) eqn:Eon; [destruct (rt_class (task s p)) eqn:Ecl|].
    - by apply off_dequeued.
    - split_and!; [done|reflexivity|by eapply off_other_class].
    - split_and!; [done|reflexivity|]. eapply off_sleeping; [done|done|]. unfold onq_of. congruence. }
  clearbody s1. destruct (kp_entity _ _ p K1) as (_ & _ & _ & Em1). rewrite Hp in Em1. set (s2 := if task_current s c p then _ else s1).
  assert (inv (onq_of s) (cur_of s) s2 ∧ kept s1 s2 ∧ off s2 p) as (V2 & K2 & O2).
  { unfold s2. destruct (task_current s c p); [by apply put_prev_off|]. split_and!; [done|reflexivity|done]. }
  clearbody s2. assert (kept s s2) as K by (etrans; [exact K1|exact K2]). destruct (kp_entity _ _ p K) as (_ & _ & _ & Em2). rewrite Hp in Em2.
  pose proof (set_prio_retasked pr (rt_prio pr) p s2) as R. set (s3 := set_prio pr (rt_prio pr) p s2) in *.
  assert (prio (task s3 p) = pr ∧ rt_class (task s3 p) = rt_prio pr ∧ (∀ x, on_rq (task s3 x) = on_rq (task s2 x)) ∧ task_cpu (task s3 p) = c)
    as (F1 & F2 & F3 & F4).
  { unfold s3, set_prio. simpl. rewrite fn_lookup_insert. simpl. split_and!; [done|done| |by destruct (kp_fixed _ _ p K) as (_ & _ & _ & _ & -> & _)].
    intros x. destruct (decide (x = p)) as [->|]; [by rewrite fn_lookup_insert|by rewrite fn_lookup_insert_ne]. }
  assert (inv (onq_of s) (cur_of s) s3) as V3.
  { eapply retasked_inv; [exact R|done|by left| | |exact V2].
    - rewrite F1, F2. unfold rt_prio. destruct (Z.ltb_spec pr MAX_RT_PRIO); lia.
    - intros x Hx E. rewrite (kp_idle _ _ x K) in E. by destruct (Hidle x Hx). }
  destruct (rt_same _ _ _ R) as (Ee & _ & Eq & _ & _ & _ & _ & Eb). clearbody s3.
  set (s4 := if task_current s c p && _ then _ else s3).
  assert (inv (onq_of s) (cur_of s) s4 ∧ kept s3 s4) as [V4 K4].
  { unfold s4. destruct (_ && _); [by apply set_curr_task_keeps|split; [done|reflexivity]]. }
  clearbody s4. cbv zeta. set (fl := if _ <? pr then ENQUEUE_HEAD else 0). clearbody fl.
  assert (inv (onq_of s) (cur_of s) (if on_rq (task s p) then enqueue_task c p fl s4 else s4) ∧
    kept s4 (if on_rq (task s p) then enqueue_task c p fl s4 else s4)) as [V5 K5].
  { destruct (on_rq (task s p)) eqn:Eon; [|split; [done|reflexivity]]. unfold enqueue_task.
    destruct (kp_fixed _ _ p K4) as (_ & _ & _ & _ & Ec4 & _), (kp_entity _ _ p K4) as (_ & _ & _ & Em4).
    destruct (rt_class (task s4 p)) eqn:Ecl; [|split; [done|reflexivity]].
    apply enqueue_task_rt_keeps; [done|by rewrite Em4, Ee|by rewrite Ec4|done|done| |done].
    unfold cur_of. destruct (kp_queue _ _ c K4) as [-> _]. rewrite Eq. by destruct (kp_queue _ _ c K) as [-> _]. }
  set (s5 := if on_rq (task s p) then _ else s4) in *. clearbody s5. assert (kept s3 s5) as K35 by (etrans; [exact K4|exact K5]).
  assert (∀ x, calm x s s5) as C.
  { intros x. etrans; [apply kept_calm, K|]. etrans; [|apply kept_calm, K35]. split; [done|by rewrite Eq|by rewrite Eq|by rewrite Ee]. }
  split; [|done]. eapply inv_weaken; [| |exact V5].
  - intros x. unfold onq_of. destruct (kp_fixed _ _ x K35) as (_ & -> & _). rewrite F3. by destruct (kp_fixed _ _ x K) as (_ & -> & _).
  - intros x q _. unfold cur_of. by rewrite (ca_curr _ _ _ (C x)).
Qed.

Lemma class_changed_ends fuel c p b old ds s :
  (c < NR_CPUS)%nat → Forall (rely c) ds → good s → ends c s (check_class_changed domains fuel c p b old ds s).
Proof.
  intros Hc Hds G. unfold check_class_changed.
  assert (∀ ds s, Forall (rely c) ds → good s → ends c s (Some (ds, s))) as Hid.
  { intros ds1 s1 H1 G1 ds' s' [= <- <-]. split_and!; [done|done|reflexivity]. }
  assert (∀ q s, good s → good (resched_task q s) ∧ calm c s (resched_task q s)) as Hre.
  { intros q s1 G1. apply (keeps_safe c); [apply resched_keeps|done]. }
  assert (∀ (b : bool) q s, good s → good (if b then resched_task q s else s) ∧ calm c s (if b then resched_task q s else s)) as Hif.
  { intros [] q s1 G1; [by apply Hre|split; [done|reflexivity]]. }
  destruct (negb _).
  - assert (let '(ds1, s1) := if b then switched_from_rt c p ds s else (ds, s) in Forall (rely c) ds1 ∧ good s1 ∧ calm c s s1) as H.
    { destruct b; [|split_and!; [done|done|reflexivity]]. unfold switched_from_rt. destruct (_ && _); [|split_and!; [done|done|reflexivity]].
      pose proof (pull_rt_task_ok c ds s Hc Hds G) as Hp. by destruct (pull_rt_task c ds s) as [[? ?] ?]. }
    destruct (if b then _ else _) as [ds1 s1]. destruct H as (H1 & G1 & C1). intros ds' s' E.
    assert (ends c s1 (if rt_class (task s1 p) then switched_to_rt domains fuel c p ds1 s1 else Some (ds1, s1))) as H2.
    { destruct (rt_class _); [|by apply Hid]. unfold switched_to_rt. destruct (_ && negb _); [|by apply Hid]. destruct (overloaded _).
      - destruct (push_rt_task domains fuel c ds1 s1) as [[[pushed ds2] s2]|] eqn:Ep; [|done].
        destruct (push_task_ends fuel c ds1 s1 pushed ds2 s2 Hc H1 G1 Ep) as (H2 & G2 & C2). destruct (_ && _).
        + intros ds3 s3 [= <- <-]. done.
        + intros ds3 s3 [= <- <-]. destruct (Hif (prio (task s2 p) <? prio (task s2 (curr (cpu_rq s2 c)))) (curr (cpu_rq s2 c)) s2 G2).
          split_and!; [done|done|etrans; [exact C2|done]].
      - intros ds3 s3 [= <- <-]. by destruct (Hif (prio (task s1 p) <? prio (task s1 (curr (cpu_rq s1 c)))) (curr (cpu_rq s1 c)) s1 G1). }
    destruct (H2 ds' s' E) as (? & ? & ?). split_and!; [done|done|etrans; [exact C1|done]].
  - destruct (_ && _); [|by apply Hid]. unfold prio_changed_rt. destruct (negb _); [by apply Hid|]. destruct (_ =? _)%nat.
    + assert (let '(ds1, s1) := if old <? prio (task s p) then let '(_, ds, s) := pull_rt_task c ds s in (ds, s) else (ds, s) in
        Forall (rely c) ds1 ∧ good s1 ∧ calm c s s1) as H.
      { destruct (_ <? _); [|split_and!; [done|done|reflexivity]]. pose proof (pull_rt_task_ok c ds s Hc Hds G) as Hp.
        by destruct (pull_rt_task c ds s) as [[? ?] ?]. }
      destruct (if old <? _ then _ else _) as [ds1 s1]. destruct H as (H1 & G1 & C1). intros ds' s' [= <- <-].
      destruct (Hif ((hp_curr (rtq s1 (rt (cpu_rq s1 c))) <? prio (task s1 p)) && (curr (cpu_rq s1 c) =? p)%nat) p s1 G1).
      split_and!; [done|done|etrans; [exact C1|done]].
    + intros ds' s' [= <- <-]. by destruct (Hif (prio (task s p) <? prio (task s (curr (cpu_rq s c)))) (curr (cpu_rq s c)) s G).
Qed.

Definition is_task (s : sys) (p : nat) : Prop := rt_entity_is_task s p = true ∧ ∀ c, (c < NR_CPUS)%nat → idle (cpu_rq s c) ≠ p.

(** What happens to the scheduler: a sleeping task is placed on a CPU, a task is
    woken, a CPU schedules (its task going to sleep or not), ticks or yields, a
    priority is changed, the period timer of a group fires, a clock advances.
    The lists [ds] tell what other CPUs do when a lock is released. *)
Inductive rt_step (s : sys) : sys → Prop :=
| step_place p cpu : is_task s p → on_rq (task s p) = false → on_cpu (task s p) = false → (cpu < NR_CPUS)%nat →
    rt_step s (set_task_cpu p cpu s)
| step_wake fuel p ds ds' s' : is_task s p → on_rq (task s p) = false → Forall (rely (task_cpu (task s p))) ds →
    ttwu_do_activate domains fuel (task_cpu (task s p)) p ds s = Some (ds', s') → rt_step s s'
| step_schedule fuel c sleeps ds ds' s' : (c < NR_CPUS)%nat → Forall (rely c) ds →
    schedule domains lower fuel c sleeps ds s = Some (ds', s') → rt_step s s'
| step_tick c : (c < NR_CPUS)%nat → rt_step s (scheduler_tick c s)
| step_yield c : (c < NR_CPUS)%nat → rt_step s (sched_yield c s)
| step_setprio fuel p pr ds ds' s' : is_task s p → 0 ≤ pr ≤ MAX_PRIO → Forall (rely (task_cpu (task s p))) ds →
    rt_mutex_setprio domains fuel p pr ds s = Some (ds', s') → rt_step s s'
| step_period g overrun : g ∈ task_groups s → rt_step s (do_sched_rt_period_timer g overrun s).2
| step_clock c t : rt_step s (set_clock_task t c s).

Lemma is_task_my_q s p : is_task s p → my_q (ent s p) = None.
Proof. unfold is_task, rt_entity_is_task. intros [H _]. by destruct (my_q (ent s p)). Qed.

Lemma rt_step_good s s' : good s → rt_step s s' → good s' ∧ bugs s' = bugs s.
Proof.
  intros G H. assert (∀ c s', good s' ∧ calm c s s' → good s' ∧ bugs s' = bugs s) as Hc by (intros c t [? C]; split; [done|apply C]).
  destruct H as [p cpu Hp Hon Hcpu Hlt|fuel p ds ds' s' Hp Hon Hds E|fuel c sl ds ds' s' Hlt Hds E|c Hlt|c Hlt|fuel p pr ds ds' s' Hp Hpr Hds E|g ov Hg|c t].
  - apply (Hc 0%nat). apply place_safe; [by apply is_task_my_q|done|done|done|apply Hp|done].
  - pose proof (is_task_my_q _ _ Hp) as Hmy. assert ((task_cpu (task s p) < NR_CPUS)%nat) as Hlt by (by apply (v_place _ _ _ G p Hmy)).
    destruct (ttwu_activate_safe (task_cpu (task s p)) p (Z.lor ENQUEUE_WAKEUP 4) s Hlt Hmy eq_refl G) as [G1 C1].
    unfold ttwu_do_activate in E. apply (wakeup_ends fuel _ p ds) in E as (_ & G2 & C2); [|done|done|done|by rewrite (ca_my_q _ _ _ C1)].
    split; [done|]. by rewrite (ca_bugs _ _ _ C2), (ca_bugs _ _ _ C1).
  - by eapply schedule_good.
  - apply (Hc c). by apply tick_safe.
  - apply (Hc c). by apply yield_safe.
  - pose proof (is_task_my_q _ _ Hp) as Hmy. assert ((task_cpu (task s p) < NR_CPUS)%nat) as Hlt by (by apply (v_place _ _ _ G p Hmy)).
    unfold rt_mutex_setprio in E. assert ((pr <? 0) || (MAX_PRIO <? pr) = false) as Eb by (apply orb_false_iff; split; lia).
    rewrite Eb, BUG_ON_false in E. destruct (setprio_safe p pr s Hmy ltac:(lia) (proj2 Hp) G) as [G1 C1].
    apply (class_changed_ends fuel) in E as (_ & G2 & C2); [|done|done|done]. split; [done|].
    by rewrite (ca_bugs _ _ _ C2), (ca_bugs _ _ _ (C1 0%nat)).
  - apply (Hc 0%nat). by apply period_timer_safe.
  - apply (Hc 0%nat). by apply clock_safe.
Qed.

Lemma rt_steps_good s s' : good s → rtc rt_step s s' → good s' ∧ bugs s' = bugs s.
Proof.
  intros G H. induction H as [s|s t u Hst _ IH]; [done|]. destruct (rt_step_good s t G Hst) as [G1 B1].
  destruct (IH G1) as [G2 B2]. split; [done|congruence].
Qed.

(** C32: take a state of the scheduler in order, and let the lock be released a
    finite number of times, the other CPUs each time keeping the scheduler in
    order and the task CPU [c] runs.  Then [push_rt_tasks] ends, the state is in
    order and no assertion failed; and CPU [c] is not (or no longer) marked
    overloaded, or its list of pushable tasks is empty, or the first of them is
    more important than the running task and the CPU was asked to reschedule.  If
    CPU [c] is not marked overloaded at the start, nothing is tried. *)
Theorem push_rt_tasks_settles c ds s :
  (c < NR_CPUS)%nat → Forall (rely c) ds → good s →
  ∃ n ds' s', (∀ fuel, (n ≤ fuel)%nat → push_rt_tasks domains fuel c ds s = Some (ds', s')) ∧
    (overloaded (rtq s' (rt (cpu_rq s' c))) = false ∨ plist_head_empty (pushables s' c) = true ∨
     ∃ p, plist_first (pushables s' c) = Some p ∧ prio (task s' p) < prio (task s' (curr (cpu_rq s' c))) ∧
          need_resched (task s' (curr (cpu_rq s' c))) = true) ∧
    good s' ∧ bugs s' = bugs s ∧
    (overloaded (rtq s (rt (cpu_rq s c))) = false → ds' = ds ∧ s' = s).
Proof.
  intros Hc Hds G. destruct (push_rt_tasks_ok domains c ds s Hc Hds G) as (n & ds' & s' & H1 & _ & H3 & H4 & H5).
  exists n, ds', s'. split_and!; [done|exact H5|done|apply H4|]. intros Ho. specialize (H1 (S n) ltac:(lia)).
  cbn [push_rt_tasks] in H1. unfold push_rt_task in H1. rewrite Ho in H1. by simplify_eq/=.
Qed.

(** C26: whatever the order in which tasks are woken, CPUs schedule, tick and
    yield, tasks sleep and change their priority and class, and period timers
    fire, and whatever other CPUs do while a lock is released: the run queues
    stay in order (bitmaps, counters and highest priorities agree with the
    queues, a group is queued when it has something to run and is not
    throttled), the lists of pushable tasks hold waiting tasks of their CPU in
    order of priority, and no [BUG_ON] or [WARN_ON] of the class fires. *)
Theorem rt_sched_safe s s' : good s → rtc rt_step s s' → good s' ∧ bugs s' = bugs s.
Proof. exact (rt_steps_good s s'). Qed.

End Events.


(** ** A run *)

Lemma example_idle c : (c < NR_CPUS)%nat → is_idle (4 * c) = true.
Proof.
  intros Hc. unfold NR_CPUS in Hc. unfold is_idle. apply andb_true_iff. split; [|apply Nat.ltb_lt; lia].
  apply Nat.eqb_eq. rewrite Nat.mul_comm. by apply Nat.Div0.mod_mul.
Qed.
Lemma example_idle_ent c : (c < NR_CPUS)%nat → my_q (example_ent (4 * c)) = None ∧ example_task (4 * c) =
  mk_task 140 140 0 true true {[c]} c 0 false 0 0 false (2 ^ 32 - 1) (2 ^ 32 - 1) 0.
Proof.
  intros Hc. unfold example_ent, example_task. rewrite (example_idle c Hc). replace (4 * c)%nat with (2 * (2 * c))%nat by lia. rewrite odd_even.
  split; [done|]. replace (2 * (2 * c))%nat with (c * 4)%nat by lia. by rewrite Nat.div_mul by lia.
Qed.

Lemma example_topo : topo example.
Proof.
  assert (∀ g c, (g < 2 → (2 * c + g) / 2 = c ∧ (2 * c + g) mod 2 = g)%nat) as Hd.
  { intros g c Hg. rewrite (Nat.mul_comm 2 c). rewrite Nat.div_add_l by lia. rewrite (Nat.add_comm (c * 2)), Nat.Div0.mod_add.
    rewrite Nat.div_small, Nat.mod_small by lia. lia. }
  split.
  - exact example_owners.
  - intros g c Hg _. cbn. assert (g < 2)%nat as Hg2 by (apply list_elem_of_In in Hg; simpl in Hg; lia).
    destruct (Hd g c Hg2) as [E1 E2]. cbn in E1, E2. by rewrite E1, E2.
  - intros g c _ _. cbn. destruct (g =? 0)%nat; [done|]. cbn. unfold example_ent.
    replace (c + (c + 0) + 1)%nat with (2 * c + 1)%nat by lia. rewrite Nat.odd_add, odd_even. done.
  - intros c _. split.
    + intros o. rewrite example_group. destruct (Nat.odd o) eqn:E; [|done]. intros H%(inj Some). rewrite H in E. cbn [rt cpu_rq example] in E.
      by rewrite odd_even in E.
    + cbn [rt cpu_rq rtq example init_rt_rq rt_cpu]. rewrite Nat.mul_comm. by apply Nat.div_mul.
  - intros o r. rewrite example_group. destruct (Nat.odd o) eqn:E; [|done]. intros H%(inj Some). subst r. cbn [rtq ent example init_rt_rq rt_cpu].
    unfold example_ent. rewrite E. cbn [se_rt_rq]. apply Nat.odd_spec in E as [k ->]. destruct (Hd 1%nat k ltac:(lia)) as [-> _].
    replace (2 * k + 1 - 1)%nat with (k * 2)%nat by lia. by rewrite Nat.div_mul by lia.
  - intros c Hc. cbn in Hc. apply list_elem_of_In in Hc. simpl in Hc. unfold NR_CPUS. lia.
Qed.

Lemma example_good : good example.
Proof.
  assert (∀ p, run_list (example_ent p) = None) as Hrun.
  { intros p. unfold example_ent. repeat (case_match; [done|]). done. }
  split.
  - exact example_inv.
  - exact example_topo.
  - intros p. rewrite example_group. destruct (Nat.odd p) eqn:E; [done|]. intros _.
    split; cbn [task task_groups ent tgs example]; unfold example_task, example_ent; rewrite ?E.
    + repeat case_match; cbn; set_solver.
    + case_match; cbn [task_cpu]; [|unfold NR_CPUS; lia]. unfold is_idle in *. apply andb_true_iff in H as [_ H%Nat.ltb_lt].
      unfold NR_CPUS. apply Nat.Div0.div_lt_upper_bound. lia.
    + repeat case_match; cbn [se_rt_rq task_tg task_cpu tg_rt_rq]; lia.
    + intros c. case_match; cbn [cpus_allowed].
      * intros ->%elem_of_singleton. unfold is_idle in *. apply andb_true_iff in H as [_ H%Nat.ltb_lt].
        unfold NR_CPUS. apply Nat.Div0.div_lt_upper_bound. lia.
      * rewrite elem_of_union, !elem_of_singleton. unfold NR_CPUS. lia.
  - intros p _. cbn [task example]. unfold example_task. destruct (is_idle p); cbn [rt_class prio]; [unfold MAX_RT_PRIO; lia|].
    pose proof (Nat.mod_upper_bound (p / 8) 100 ltac:(lia)). unfold MAX_RT_PRIO. lia.
  - intros p _ Hon. unfold on_rt_rq in Hon. cbn [ent example] in Hon. by rewrite Hrun in Hon.
  - intros c _. split; constructor.
  - intros c q p _ Hin. cbn in Hin. by apply not_elem_of_nil in Hin.
  - intros c Hc. destruct (example_idle_ent c Hc) as [E1 E2]. cbn [task cpu_rq curr ent example]. rewrite E2. done.
  - intros c r _ Hr. cbn in Hr. by apply not_elem_of_nil in Hr.
  - intros c Hc. destruct (example_idle_ent c Hc) as [E1 E2]. cbn [task cpu_rq idle ent example]. rewrite E2. done.
Qed.

(** CPU 0 wakes tasks 200 and 192 and schedules. *)
Definition idle_of (c : nat) (s : sys) : nat := idle (cpu_rq s c).
Definition woken : option sys :=
  '(_, s) ← ttwu_do_activate (λ _, []) 2 0 200 [] example;
  '(_, s) ← ttwu_do_activate (λ _, []) 2 0 192 [] s;
  Some s.
Definition switched : option sys := s ← woken; snd <$> schedule (λ _, []) idle_of 2 0 false [] s.

Lemma idle_offers onq cur c s : (c < NR_CPUS)%nat → inv onq cur s → offered s c (idle_of c s).
Proof. intros Hc I. by apply (v_idle _ _ _ I). Qed.

Definition asleep (p : nat) (s : sys) : bool :=
  rt_entity_is_task s p && forallb (λ c, negb (idle (cpu_rq s c) =? p)%nat) (seq 0 NR_CPUS) && negb (on_rq (task s p)) &&
  (task_cpu (task s p) =? 0)%nat.
Lemma wake_step p s ds' s' :
  asleep p s = true → ttwu_do_activate (λ _, []) 2 0 p [] s = Some (ds', s') → rt_step (λ _, []) idle_of s s'.
Proof.
  unfold asleep. rewrite !andb_true_iff, forallb_forall, negb_true_iff, Nat.eqb_eq. intros [[[Ht Hi] Ho] Hc] E.
  apply (step_wake _ _ s 2 p [] ds'); [|exact Ho|constructor|by rewrite Hc]. split; [exact Ht|]. intros c Hlt.
  specialize (Hi c ltac:(apply in_seq; lia)). by apply negb_true_iff, Nat.eqb_neq in Hi.
Qed.

Lemma woken_steps s : woken = Some s → rtc (rt_step (λ _, []) idle_of) example s.
Proof.
  assert ((λ r, asleep 192 r.2) <$> ttwu_do_activate (λ _, []) 2 0 200 [] example = Some true) as Ha by (vm_compute; reflexivity).
  unfold woken. intros H. apply bind_Some in H as ([ds1 s1] & E1 & H). apply bind_Some in H as ([ds2 s2] & E2 & H).
  rewrite E1 in Ha. apply (inj Some) in Ha, H. rewrite <- H. apply (rtc_l _ _ s1); [|apply rtc_once; by apply (wake_step 192 s1 ds2)].
  apply (wake_step 200 example ds1); [vm_compute; reflexivity|exact E1].
Qed.
Lemma switched_steps s : switched = Some s → rtc (rt_step (λ _, []) idle_of) example s.
Proof.
  unfold switched. intros H. apply bind_Some in H as (s1 & E1 & H). apply fmap_Some in H as ([ds2 s2] & E2 & ->).
  eapply (rtc_r _ s1); [by apply woken_steps|]. refine (step_schedule _ _ s1 2 0 false [] ds2 s2 _ _ E2); [unfold NR_CPUS; lia|constructor].
Qed.

Lemma rt_sched_safe_witness : ∃ s, switched = Some s ∧ curr (cpu_rq s 0) = 192%nat ∧ good s ∧ bugs s = false.
Proof.
  assert ((λ s, curr (cpu_rq s 0)) <$> switched = Some 192%nat) as H by (vm_compute; reflexivity).
  apply fmap_Some in H as (s & E & Hc). exists s. split; [exact E|]. split; [symmetry; exact Hc|].
  exact (rt_sched_safe (λ _, []) idle_of idle_offers example s example_good (switched_steps s E)).
Defined.

(** Two tasks wait and the idle task runs: pushing asks CPU 0 to reschedule. *)
Lemma push_rt_tasks_settles_witness : ∃ s n ds' s',
  woken = Some s ∧ overloaded (rtq s 0) = true ∧ plist_first (pushables s 0) = Some 192%nat ∧
  (∀ fuel, (n ≤ fuel)%nat → push_rt_tasks (λ _, []) fuel 0 [None] s = Some (ds', s')) ∧ settled 0 s' ∧ good s' ∧ bugs s' = false.
Proof.
  assert ((λ s, (overloaded (rtq s 0), plist_first (pushables s 0))) <$> woken = Some (true, Some 192%nat)) as H by (vm_compute; reflexivity).
  apply fmap_Some in H as (s & E & Hc). exists s.
  destruct (rt_steps_good (λ _, []) idle_of idle_offers example s example_good (woken_steps s E)) as [G B].
  destruct (push_rt_tasks_settles (λ _, []) 0 [None] s) as (n & ds' & s' & H1 & H2 & H3 & H4 & _); [unfold NR_CPUS; lia|by repeat constructor|exact G|].
  exists n, ds', s'. split; [exact E|]. split; [exact (eq_sym (f_equal fst Hc))|]. split; [exact (eq_sym (f_equal snd Hc))|].
  split; [exact H1|]. split; [exact H2|]. split; [exact H3|]. rewrite H4. exact B.
Defined.
