(* ===== verification/SysvSem.v ===== *)
(** * System V semaphores: the operations (ipc/sem.c)

    A set of semaphores is an array of values, each with the list of the tasks
    that sleep in a single operation on it, and the list of all tasks that sleep
    in an operation on the set.  Tasks, and the [struct sem_queue] on the stack of
    a task that sleeps, have the number of the task; undo structures have numbers
    of their own.  The functions below work on a set whose lock is held, together
    with what all sets share ([env]); a [BUG_ON] whose condition holds, or an
    access outside of the array, sets [bugs]. *)

From stdpp Require Import functions.
From S2P Require Import Prelude.

Module Err.
Definition EINTR : Z := 4.
Definition E2BIG : Z := 7.
Definition EAGAIN : Z := 11.
Definition ENOMEM : Z := 12.
Definition EFAULT : Z := 14.
Definition EINVAL : Z := 22.
Definition EFBIG : Z := 27.
Definition ENOSPC : Z := 28.
Definition ERANGE : Z := 34.
Definition EIDRM : Z := 43.
End Err.

Definition SEMMSL : Z := 250.
Definition SEMMNS : Z := 32000.
Definition SEMOPM : nat := 32.
Definition SEMMNI : Z := 128.
Definition SEMVMX : Z := 32767.
Definition SEMAEM : Z := SEMVMX.
Definition SEM_UNDO : Z := 4096.
Definition IPC_NOWAIT : Z := 2048.
Definition IN_WAKEUP : Z := 1.

(** ** Data *)

Record sembuf := mk_sembuf { sem_num : nat; sem_op : Z; sem_flg : Z }.
Definition has_flag (f : Z) (sop : sembuf) : bool := negb (Z.land (sem_flg sop) f =? 0).

(** [sem_simple] is the field [sem_pending] of [struct sem]. *)
Record sem := mk_sem { semval : Z; sempid : Z; sem_simple : list nat }.

Record sem_array := mk_sem_array {
  perm_id : Z; perm_seq : Z; sem_base : list sem; sem_pending : list nat; list_id : list nat; complex_count : Z;
  sem_otime : Z; sem_ctime : Z
}.
Definition sem_nsems (a : sem_array) : nat := length (sem_base a).

Record sem_queue := mk_queue { q_sops : list sembuf; q_undo : option nat; q_pid : Z; q_status : Z; q_alter : bool }.

Record sem_undo := mk_undo { un_semid : Z; semadj : list Z }.

(** What the sets share: the queue entries and the undo structures, whether a
    task runs, the time and the process of the caller. *)
Record senv := mk_senv {
  queues : nat → sem_queue; undos : nat → sem_undo; awake : nat → bool; now : Z; current_pid : Z; bugs : bool
}.
Record sst := mk_sst { sma : sem_array; env : senv }.

(** ** Writing *)

Definition set_sma (f : sem_array → sem_array) (s : sst) : sst := mk_sst (f (sma s)) (env s).
Definition set_env (f : senv → senv) (s : sst) : sst := mk_sst (sma s) (f (env s)).
Definition with_base (b : list sem) (a : sem_array) : sem_array :=
  mk_sem_array (perm_id a) (perm_seq a) b (sem_pending a) (list_id a) (complex_count a) (sem_otime a) (sem_ctime a).
Definition with_pending (p : list nat) (c : Z) (a : sem_array) : sem_array :=
  mk_sem_array (perm_id a) (perm_seq a) (sem_base a) p (list_id a) c (sem_otime a) (sem_ctime a).
Definition with_list_id (l : list nat) (a : sem_array) : sem_array :=
  mk_sem_array (perm_id a) (perm_seq a) (sem_base a) (sem_pending a) l (complex_count a) (sem_otime a) (sem_ctime a).
Definition with_times (o c : Z) (a : sem_array) : sem_array :=
  mk_sem_array (perm_id a) (perm_seq a) (sem_base a) (sem_pending a) (list_id a) (complex_count a) o c.
Definition upd_queue (q : nat) (f : sem_queue → sem_queue) : sst → sst :=
  set_env (λ e, mk_senv (<[q := f (queues e q)]> (queues e)) (undos e) (awake e) (now e) (current_pid e) (bugs e)).
Definition upd_undo (u : nat) (f : sem_undo → sem_undo) : sst → sst :=
  set_env (λ e, mk_senv (queues e) (<[u := f (undos e u)]> (undos e)) (awake e) (now e) (current_pid e) (bugs e)).
Definition set_awake (t : nat) (b : bool) : sst → sst :=
  set_env (λ e, mk_senv (queues e) (undos e) (<[t := b]> (awake e)) (now e) (current_pid e) (bugs e)).
Definition bug_on (b : bool) : sst → sst :=
  set_env (λ e, mk_senv (queues e) (undos e) (awake e) (now e) (current_pid e) (bugs e || b)).

Definition set_semval (v : Z) (m : sem) : sem := mk_sem v (sempid m) (sem_simple m).
Definition set_sempid (p : Z) (m : sem) : sem := mk_sem (semval m) p (sem_simple m).
Definition set_simple (l : list nat) (m : sem) : sem := mk_sem (semval m) (sempid m) l.
Definition upd_sem (i : nat) (f : sem → sem) : sst → sst := set_sma (λ a, with_base (alter f i (sem_base a)) a).

Definition value (s : sst) (i : nat) : Z := match sem_base (sma s) !! i with Some m => semval m | None => 0 end.
Definition simple_of (s : sst) (i : nat) : list nat := match sem_base (sma s) !! i with Some m => sem_simple m | None => [] end.
Definition adjust (u : nat) (i : nat) (s : sst) : Z := default 0 (semadj (undos (env s) u) !! i).
Definition queue_of (s : sst) (q : nat) : sem_queue := queues (env s) q.

(** ** A sequence of operations at once *)

(** The loop [undo:], on the operations before the one that failed, last first. *)
Definition take_back (done : list sembuf) (s : sst) : sst :=
  foldl (λ s sop, upd_sem (sem_num sop) (λ m, set_semval (semval m - sem_op sop) m) s) s done.

(** The loop that commits the operations, last first. *)
Definition commit_one (un : option nat) (pid : Z) (s : sst) (sop : sembuf) : sst :=
  let s := upd_sem (sem_num sop) (set_sempid pid) s in
  if has_flag SEM_UNDO sop then
    match un with
    | Some u => upd_undo u (λ n, mk_undo (un_semid n) (alter (λ x, s16 (x - sem_op sop)) (sem_num sop) (semadj n))) s
    | None => bug_on true s
    end
  else s.
Definition commit (un : option nat) (pid : Z) (done : list sembuf) (s : sst) : sst := foldl (commit_one un pid) s done.

(** Is there an entry for the semaphore in the undo structure? *)
Definition has_adjust (un : option nat) (i : nat) (s : sst) : bool :=
  match un with Some u => (i <? length (semadj (undos (env s) u)))%nat | None => false end.

(** Does the operation exceed the range of the undo structure? *)
Definition undo_exceeds (un : option nat) (sop : sembuf) (s : sst) : bool :=
  has_flag SEM_UNDO sop &&
  match un with
  | Some u => let undo := adjust u (sem_num sop) s - sem_op sop in (undo <? - SEMAEM - 1) || (SEMAEM <? undo)
  | None => false
  end.

Fixpoint try_ops (un : option nat) (pid : Z) (done sops : list sembuf) (s : sst) : Z * sst :=
  match sops with
  | [] => (0, commit un pid done s)
  | sop :: sops =>
      let s := bug_on (sem_nsems (sma s) <=? sem_num sop)%nat s in
      let s := bug_on (has_flag SEM_UNDO sop && negb (has_adjust un (sem_num sop) s)) s in
      let result := value s (sem_num sop) in
      let would_block := (if has_flag IPC_NOWAIT sop then - Err.EAGAIN else 1, take_back done s) in
      let out_of_range := (- Err.ERANGE, take_back done s) in
      if (sem_op sop =? 0) && negb (result =? 0) then would_block
      else
        let result := result + sem_op sop in
        if result <? 0 then would_block
        else if SEMVMX <? result then out_of_range
        else if undo_exceeds un sop s then out_of_range
        else try_ops un pid (sop :: done) sops (upd_sem (sem_num sop) (set_semval result) s)
  end.
Definition try_atomic_semop (sops : list sembuf) (un : option nat) (pid : Z) (s : sst) : Z * sst := try_ops un pid [] sops s.

(** ** Waking tasks *)

Definition wake_up_sem_queue_prepare (pt : list nat) (q : nat) (error : Z) (s : sst) : list nat * sst :=
  (pt ++ [q], upd_queue q (λ e, mk_queue (q_sops e) (q_undo e) error IN_WAKEUP (q_alter e)) s).
Definition wake_one (s : sst) (q : nat) : sst :=
  upd_queue q (λ e, mk_queue (q_sops e) (q_undo e) (q_pid e) (q_pid e) (q_alter e)) (set_awake q true s).
Definition wake_up_sem_queue_do (pt : list nat) (s : sst) : sst := foldl wake_one s pt.

Definition nsops (e : sem_queue) : nat := length (q_sops e).
Definition first_num (e : sem_queue) : nat := match q_sops e with sop :: _ => sem_num sop | [] => 0%nat end.
Definition first_op (e : sem_queue) : Z := match q_sops e with sop :: _ => sem_op sop | [] => 0 end.

Definition list_remove (q : nat) (l : list nat) : list nat := filter (λ x, x ≠ q) l.
Definition unlink_queue (q : nat) (s : sst) : sst :=
  let e := queue_of s q in
  let s := set_sma (λ a, with_pending (list_remove q (sem_pending a)) (complex_count a) a) s in
  if (nsops e =? 1)%nat then upd_sem (first_num e) (λ m, set_simple (list_remove q (sem_simple m)) m) s
  else set_sma (λ a, with_pending (sem_pending a) (complex_count a - 1) a) s.

Definition check_restart (q : nat) (s : sst) : bool * sst :=
  let e := queue_of s q in
  if negb (q_alter e) then (false, s)
  else if negb (complex_count (sma s) =? 0) then (true, s)
  else if (1 <? nsops e)%nat then (true, s)
  else
    match simple_of s (first_num e) with
    | [] => (false, s)
    | h :: _ =>
        if negb (value s (first_num e) =? 0) then (false, bug_on (0 <=? first_op e) s)
        else
          let s := bug_on (negb (nsops (queue_of s h) =? 1)%nat) s in
          let s := bug_on (negb (first_num (queue_of s h) =? first_num e)%nat) s in
          (first_op (queue_of s h) =? 0, s)
    end.

(** The list that is scanned: that of one semaphore, or all. *)
Definition pending_list (semnum : option nat) (s : sst) : list nat :=
  match semnum with Some n => simple_of s n | None => sem_pending (sma s) end.

Fixpoint update_walk (fuel : nat) (semnum : option nat) (walk : list nat) (completed : bool) (pt : list nat) (s : sst)
    : bool * list nat * sst :=
  match fuel with
  | O => (completed, pt, bug_on true s)
  | S fuel =>
      match walk with
      | [] => (completed, pt, s)
      | q :: walk =>
          let e := queue_of s q in
          if (match semnum with Some n => value s n =? 0 | None => false end) && q_alter e then (completed, pt, s)
          else
            let '(error, s) := try_atomic_semop (q_sops e) (q_undo e) (q_pid e) s in
            if 0 <? error then update_walk fuel semnum walk completed pt s
            else
              let s := unlink_queue q s in
              let '(restart, s) := if negb (error =? 0) then (false, s) else check_restart q s in
              let completed := completed || (error =? 0) in
              let '(pt, s) := wake_up_sem_queue_prepare pt q error s in
              update_walk fuel semnum (if restart : bool then pending_list semnum s else walk) completed pt s
      end
  end.
(** Every restart follows the removal of an entry. *)
Definition walk_fuel (n w : nat) : nat := S (n * S n + w).
Definition update_queue (semnum : option nat) (pt : list nat) (s : sst) : bool * list nat * sst :=
  let semnum := if negb (complex_count (sma s) =? 0) then None else semnum in
  let n := length (sem_pending (sma s)) in
  update_walk (walk_fuel n n) semnum (pending_list semnum s) false pt s.

(** The loop over the operations in [do_smart_update]. *)
Fixpoint smart_ops (sops : list sembuf) (otime : bool) (pt : list nat) (s : sst) : bool * list nat * sst :=
  match sops with
  | [] => (otime, pt, s)
  | sop :: sops =>
      if (0 <? sem_op sop) || ((sem_op sop <? 0) && (value s (sem_num sop) =? 0)) then
        let '(completed, pt, s) := update_queue (Some (sem_num sop)) pt s in
        smart_ops sops (otime || completed) pt s
      else smart_ops sops otime pt s
  end.
Definition do_smart_update (sops : option (list sembuf)) (otime : bool) (pt : list nat) (s : sst) : list nat * sst :=
  let '(otime, pt, s) :=
    match sops with
    | Some sops =>
        if negb (complex_count (sma s) =? 0) then let '(c, pt, s) := update_queue None pt s in (otime || c, pt, s)
        else smart_ops sops otime pt s
    | None => let '(c, pt, s) := update_queue None pt s in (otime || c, pt, s)
    end in
  (pt, if otime : bool then set_sma (λ a, with_times (now (env s)) (sem_ctime a) a) s else s).

(** ** The system calls on a set *)

Definition alters (sops : list sembuf) : bool := existsb (λ sop, negb (sem_op sop =? 0)) sops.
Definition max_num (sops : list sembuf) : nat := foldr (λ sop m, Nat.max (sem_num sop) m) 0%nat sops.

(** [semtimedop]: the task is put on the queues and sleeps. *)
Definition add_waiter (alter : bool) (t : nat) (l : list nat) : list nat := if alter then l ++ [t] else t :: l.
Definition sleep_on (t : nat) (sops : list sembuf) (un : option nat) (s : sst) : sst :=
  let alter := alters sops in
  let s := upd_queue t (λ _, mk_queue sops un (current_pid (env s)) (- Err.EINTR) alter) s in
  let s := set_sma (λ a, with_pending (add_waiter alter t (sem_pending a)) (complex_count a) a) s in
  let s := if (length sops =? 1)%nat
           then upd_sem (first_num (queue_of s t)) (λ m, set_simple (add_waiter alter t (sem_simple m)) m) s
           else set_sma (λ a, with_pending (sem_pending a) (complex_count a + 1) a) s in
  set_awake t false s.

(** [semtimedop] from the lock on: the result, or [None] when task [t] went to
    sleep.  [un] is the undo structure found or allocated, [access] what
    [ipcperms] and [security_sem_semop] say. *)
Definition semop_locked (t : nat) (sops : list sembuf) (un : option nat) (access : Z) (s : sst) : option Z * sst :=
  if match un with Some u => un_semid (undos (env s) u) =? -1 | None => false end then (Some (- Err.EIDRM), s)
  else if (sem_nsems (sma s) <=? max_num sops)%nat then (Some (- Err.EFBIG), s)
  else if negb (access =? 0) then (Some access, s)
  else
    let '(error, s) := try_atomic_semop sops un (current_pid (env s)) s in
    if error <=? 0 then
      let '(tasks, s) := if alters sops && (error =? 0) then do_smart_update (Some sops) true [] s else ([], s) in
      (Some error, wake_up_sem_queue_do tasks s)
    else (None, sleep_on t sops un s).

(** The end of [semtimedop] when a task that slept runs again and the set still
    exists: the result that another task left, or the task leaves the queue
    because of a signal or the end of its time ([timed_out]). *)
Definition semop_interrupted (t : nat) (timed_out : bool) (s : sst) : Z * sst :=
  let error := q_status (queue_of s t) in
  if negb (error =? - Err.EINTR) then (error, s)
  else (if timed_out then - Err.EAGAIN else error, unlink_queue t s).

(** The tasks that wait for semaphore [semnum] to become positive and zero. *)
Definition count_waiters (test : sembuf → bool) (semnum : nat) (s : sst) : Z :=
  Z.of_nat (length (filter (λ sop, (sem_num sop =? semnum)%nat && test sop && negb (has_flag IPC_NOWAIT sop) = true)
    (sem_pending (sma s) ≫= λ q, q_sops (queue_of s q)))).
Definition count_semncnt : nat → sst → Z := count_waiters (λ sop, sem_op sop <? 0).
Definition count_semzcnt : nat → sst → Z := count_waiters (λ sop, sem_op sop =? 0).

(** [list_for_each_entry(un, &sma->list_id, list_id)] *)
Definition each_undo (f : sem_undo → sem_undo) (s : sst) : sst := foldl (λ s u, upd_undo u f s) s (list_id (sma s)).

Inductive semcmd := GETALL | SETALL (array : option (list Z)) | GETVAL | GETPID | GETNCNT | GETZCNT | SETVAL (val : Z).

(** [semctl_main] from the lock on: the result, and the values of [GETALL].
    [SETALL] has what can be read at the address it is given. *)
Definition semctl_main (semnum : Z) (cmd : semcmd) (access : Z) (s : sst) : Z * list Z * sst :=
  let nsems := sem_nsems (sma s) in
  let ctime s := set_sma (λ a, with_times (sem_otime a) (now (env s)) a) s in
  let update s := let '(tasks, s) := do_smart_update None false [] s in wake_up_sem_queue_do tasks s in
  let n := Z.to_nat semnum in
  if negb (access =? 0) then (access, [], s)
  else
    match cmd with
    | GETALL => (0, semval <$> sem_base (sma s), s)
    | SETALL None => (- Err.EFAULT, [], s)
    | SETALL (Some array) =>
        let sem_io := take nsems (u16 <$> array) in
        if (length array <? nsems)%nat then (- Err.EFAULT, [], s)
        else if existsb (λ v, SEMVMX <? v) sem_io then (- Err.ERANGE, [], s)
        else
          let s := set_sma (λ a, with_base (zip_with set_semval sem_io (sem_base a)) a) s in
          let s := each_undo (λ un, mk_undo (un_semid un) (replicate nsems 0)) s in
          (0, [], update (ctime s))
    | _ =>
        if (semnum <? 0) || (Z.of_nat nsems <=? semnum) then (- Err.EINVAL, [], s)
        else
          match cmd with
          | GETVAL => (value s n, [], s)
          | GETPID => (match sem_base (sma s) !! n with Some m => sempid m | None => 0 end, [], s)
          | GETNCNT => (count_semncnt n s, [], s)
          | GETZCNT => (count_semzcnt n s, [], s)
          | SETVAL val =>
              if (SEMVMX <? val) || (val <? 0) then (- Err.ERANGE, [], s)
              else
                let s := each_undo (λ un, mk_undo (un_semid un) (<[n := 0]> (semadj un))) s in
                let s := upd_sem n (λ m, set_sempid (current_pid (env s)) (set_semval val m)) s in
                (0, [], update (ctime s))
          | _ => (- Err.EINVAL, [], s)
          end
    end.

Definition fail_one (ps : list nat * sst) (q : nat) : list nat * sst :=
  wake_up_sem_queue_prepare ps.1 q (- Err.EIDRM) (unlink_queue q ps.2).
(** [freeary]: the undo structures are cut off and the sleepers fail. *)
Definition freeary (s : sst) : sst :=
  let s := each_undo (λ un, mk_undo (-1) (semadj un)) s in
  let s := set_sma (with_list_id []) s in
  let '(tasks, s) := foldl fail_one ([], s) (sem_pending (sma s)) in
  wake_up_sem_queue_do tasks s.

(** The adjustments of [exit_sem] on one set. *)
Definition apply_adjust (pid : Z) (adj : Z) (m : sem) : sem :=
  if adj =? 0 then m
  else
    let v := semval m + adj in
    let v := if v <? 0 then 0 else v in
    let v := if SEMVMX <? v then SEMVMX else v in
    set_sempid pid (set_semval v m).
Definition exit_undo (u : nat) (s : sst) : sst :=
  let s := set_sma (λ a, with_list_id (list_remove u (list_id a)) a) s in
  let adj i := adjust u i s in
  let s := set_sma (λ a, with_base (imap (λ i m, apply_adjust (current_pid (env s)) (adj i) m) (sem_base a)) a) s in
  let '(tasks, s) := do_smart_update None true [] s in
  wake_up_sem_queue_do tasks s.

(** ** Many sets *)

Definition IPCMNI : Z := 32768.
Definition SEQ_MAX : Z := 65535.

(** The namespace: the sets by their index, the numbers of sets and semaphores
    in use and the next sequence number; the undo list of a task, and of an undo
    list the undo structures (front first) and the number of tasks that share
    it. *)
Record ipc_ns := mk_ns {
  arrays : gmap Z sem_array; in_use : Z; ids_seq : Z; used_sems : Z;
  undo_list : nat → option nat; list_proc : nat → list nat; refcnt : nat → Z; ns_env : senv
}.

Definition set_ns_env (e : senv) (n : ipc_ns) : ipc_ns :=
  mk_ns (arrays n) (in_use n) (ids_seq n) (used_sems n) (undo_list n) (list_proc n) (refcnt n) e.
Definition set_undo_list (t : nat) (l : option nat) (n : ipc_ns) : ipc_ns :=
  mk_ns (arrays n) (in_use n) (ids_seq n) (used_sems n) (<[t := l]> (undo_list n)) (list_proc n) (refcnt n) (ns_env n).
Definition set_list_proc (f : nat → list nat) (n : ipc_ns) : ipc_ns :=
  mk_ns (arrays n) (in_use n) (ids_seq n) (used_sems n) (undo_list n) f (refcnt n) (ns_env n).
Definition set_refcnt (l : nat) (c : Z) (n : ipc_ns) : ipc_ns :=
  mk_ns (arrays n) (in_use n) (ids_seq n) (used_sems n) (undo_list n) (list_proc n) (<[l := c]> (refcnt n)) (ns_env n).

(** [ipc_lock] and [ipc_lock_check] (ipc/util.c): an error, or the index of the
    set and the set. *)
Definition ipcid_to_idx (id : Z) : Z := id mod IPCMNI.
Definition ipc_lock (id : Z) (n : ipc_ns) : Z + Z * sem_array :=
  match arrays n !! ipcid_to_idx id with Some a => inr (ipcid_to_idx id, a) | None => inl (- Err.EINVAL) end.
Definition ipc_lock_check (id : Z) (n : ipc_ns) : Z + Z * sem_array :=
  match ipc_lock id n with
  | inl e => inl e
  | inr (i, a) => if negb (id / IPCMNI =? perm_seq a) then inl (- Err.EIDRM) else inr (i, a)
  end.
Definition sem_unlock (i : Z) (s : sst) (n : ipc_ns) : ipc_ns :=
  mk_ns (<[i := sma s]> (arrays n)) (in_use n) (ids_seq n) (used_sems n) (undo_list n) (list_proc n) (refcnt n) (env s).

Section Ids.
(** [idr_get_new] (lib/idr.c) on the indices in use: an error, or a free index. *)
Context (idr_get_new : gmap Z sem_array → Z + Z).

(** The index and the sequence number of a new set. *)
Definition ipc_addid (n : ipc_ns) : Z + Z * Z :=
  if SEMMNI <=? in_use n then inl (- Err.ENOSPC)
  else match idr_get_new (arrays n) with inl err => inl err | inr id => inr (id, ids_seq n) end.

Definition newary (nsems : Z) (mem : bool) (security : Z) (n : ipc_ns) : Z * ipc_ns :=
  if nsems =? 0 then (- Err.EINVAL, n)
  else if SEMMNS <? used_sems n + nsems then (- Err.ENOSPC, n)
  else if negb mem then (- Err.ENOMEM, n)
  else if negb (security =? 0) then (security, n)
  else
    match ipc_addid n with
    | inl e => (e, n)
    | inr (id, seq) =>
        let next := if SEQ_MAX <? seq + 1 then 0 else seq + 1 in
        let a := mk_sem_array (IPCMNI * seq + id) seq (replicate (Z.to_nat nsems) (mk_sem 0 0 [])) [] [] 0 0 (now (ns_env n)) in
        (perm_id a, mk_ns (<[id := a]> (arrays n)) (in_use n + 1) next (used_sems n + nsems) (undo_list n) (list_proc n) (refcnt n) (ns_env n))
    end.

End Ids.

(** [ipcget_new] (ipc/util.c): [tries] has the success of [idr_pre_get] and what
    [idr_get_new] does, for one attempt after the other; [None] when there are
    more attempts. *)
Fixpoint ipcget_new (tries : list (bool * (gmap Z sem_array → Z + Z))) (nsems : Z) (mem : bool) (security : Z) (n : ipc_ns) : option Z * ipc_ns :=
  match tries with
  | [] => (None, n)
  | (pre, idr_get_new) :: tries =>
      if negb pre then (Some (- Err.ENOMEM), n)
      else
        let '(err, n) := newary idr_get_new nsems mem security n in
        if err =? - Err.EAGAIN then ipcget_new tries nsems mem security n else (Some err, n)
  end.

(** [semget] with [IPC_PRIVATE] *)
Definition semget (tries : list (bool * (gmap Z sem_array → Z + Z))) (nsems : Z) (mem : bool) (security : Z) (n : ipc_ns) : option Z * ipc_ns :=
  if (nsems <? 0) || (SEMMSL <? nsems) then (Some (- Err.EINVAL), n) else ipcget_new tries nsems mem security n.

(** [semctl] with a command that reads or sets values. *)
Definition semctl (semid semnum : Z) (cmd : semcmd) (access : Z) (n : ipc_ns) : Z * list Z * ipc_ns :=
  if semid <? 0 then (- Err.EINVAL, [], n)
  else
    match ipc_lock_check semid n with
    | inl e => (e, [], n)
    | inr (i, a) =>
        let '(r, vs, s) := semctl_main semnum cmd access (mk_sst a (ns_env n)) in
        (r, vs, sem_unlock i s n)
    end.

(** [semctl] with [SEM_STAT] or [IPC_STAT]: the result, and the times and the
    number of semaphores that are copied out. *)
Definition semctl_nolock (sem_stat : bool) (semid access : Z) (n : ipc_ns) : Z * option (Z * Z * nat) :=
  if semid <? 0 then (- Err.EINVAL, None)
  else
    match (if sem_stat then ipc_lock semid n else ipc_lock_check semid n) with
    | inl e => (e, None)
    | inr (_, a) =>
        if negb (access =? 0) then (access, None)
        else (if sem_stat then perm_id a else 0, Some (sem_otime a, sem_ctime a, sem_nsems a))
    end.

(** [semctl] with [IPC_RMID], and [ipc_rmid]; [access] is what
    [ipcctl_pre_down] and [security_sem_semctl] say. *)
Definition semctl_rmid (semid : Z) (access : Z) (n : ipc_ns) : Z * ipc_ns :=
  if semid <? 0 then (- Err.EINVAL, n)
  else
    match ipc_lock_check semid n with
    | inl e => (e, n)
    | inr (i, a) =>
        if negb (access =? 0) then (access, n)
        else
          let s := freeary (mk_sst a (ns_env n)) in
          (0, mk_ns (delete i (arrays n)) (in_use n - 1) (ids_seq n) (used_sems n - Z.of_nat (sem_nsems a)) (undo_list n)
                (λ l, filter (λ u, u ∉ list_id a) (list_proc n l)) (refcnt n) (env s))
    end.

(** ** Undo structures *)

(** [get_undo_list]; [new] is the memory for a list. *)
Definition get_undo_list (t : nat) (new : option nat) (n : ipc_ns) : Z + nat * ipc_ns :=
  match undo_list n t with
  | Some l => inr (l, n)
  | None =>
      match new with
      | None => inl (- Err.ENOMEM)
      | Some l => inr (l, set_undo_list t (Some l) (set_refcnt l 1 (set_list_proc (<[l := []]> (list_proc n)) n)))
      end
  end.

Definition __lookup_undo (l : nat) (semid : Z) (n : ipc_ns) : option nat :=
  head (filter (λ u, un_semid (undos (ns_env n) u) = semid) (list_proc n l)).
Definition lookup_undo (l : nat) (semid : Z) (n : ipc_ns) : option nat * ipc_ns :=
  match __lookup_undo l semid n with
  | Some u => (Some u, set_list_proc (<[l := u :: list_remove u (list_proc n l)]> (list_proc n)) n)
  | None => (None, n)
  end.

Definition find_alloc_undo (t : nat) (semid : Z) (new_list new : option nat) (n : ipc_ns) : (Z + nat) * ipc_ns :=
  match get_undo_list t new_list n with
  | inl e => (inl e, n)
  | inr (l, n) =>
      match lookup_undo l semid n with
      | (Some u, n) => (inr u, n)
      | (None, n) =>
          match ipc_lock_check semid n with
          | inl e => (inl e, n)
          | inr (i, a) =>
              match new with
              | None => (inl (- Err.ENOMEM), n)
              | Some u =>
                  let s := upd_undo u (λ _, mk_undo semid (replicate (sem_nsems a) 0)) (mk_sst a (ns_env n)) in
                  let s := set_sma (λ a, with_list_id (u :: list_id a) a) s in
                  (inr u, set_list_proc (<[l := u :: list_proc n l]> (list_proc n)) (sem_unlock i s n))
              end
          end
      end
  end.

(** ** [semtimedop] *)

(** The call up to its result, or until task [t] sleeps. *)
Definition semtimedop (t : nat) (semid : Z) (sops : list sembuf) (new_list new : option nat) (access : Z) (n : ipc_ns)
    : option Z * ipc_ns :=
  if (length sops <? 1)%nat || (semid <? 0) then (Some (- Err.EINVAL), n)
  else if (SEMOPM <? length sops)%nat then (Some (- Err.E2BIG), n)
  else
    let '(un, n) := if existsb (has_flag SEM_UNDO) sops
                    then let '(r, n) := find_alloc_undo t semid new_list new n in
                         (match r with inl e => inl e | inr u => inr (Some u) end, n)
                    else (inr None, n) in
    match un with
    | inl e => (Some e, n)
    | inr un =>
        match ipc_lock_check semid n with
        | inl e => (Some e, n)
        | inr (i, a) => let '(r, s) := semop_locked t sops un access (mk_sst a (ns_env n)) in (r, sem_unlock i s n)
        end
    end.

Definition set_awake_ns (t : nat) (n : ipc_ns) : ipc_ns :=
  let e := ns_env n in
  set_ns_env (mk_senv (queues e) (undos e) (<[t := true]> (awake e)) (now e) (current_pid e) (bugs e)) n.

(** The rest of the call when the task runs again: another task has left the
    result, or a signal or the end of the time woke it. *)
Definition semtimedop_end (t : nat) (semid : Z) (timed_out : bool) (n : ipc_ns) : Z * ipc_ns :=
  let n := set_awake_ns t n in
  let error := q_status (queues (ns_env n) t) in
  if negb (error =? - Err.EINTR) then (error, n)
  else
    match ipc_lock semid n with
    | inl _ => (- Err.EIDRM, n)
    | inr (i, a) => let '(r, s) := semop_interrupted t timed_out (mk_sst a (ns_env n)) in (r, sem_unlock i s n)
    end.

(** ** Tasks come and go *)

(** [copy_semundo]: task [t] creates [t']. *)
Definition copy_semundo (clone_sysvsem : bool) (t t' : nat) (new : option nat) (n : ipc_ns) : Z * ipc_ns :=
  if clone_sysvsem then
    match get_undo_list t new n with
    | inl e => (e, n)
    | inr (l, n) => (0, set_undo_list t' (Some l) (set_refcnt l (refcnt n l + 1) n))
    end
  else (0, set_undo_list t' None n).

(** The loop of [exit_sem] over the undo structures of the list [l]. *)
Fixpoint exit_loop (fuel : nat) (l : nat) (n : ipc_ns) : ipc_ns :=
  match fuel with
  | O => set_ns_env (let e := ns_env n in mk_senv (queues e) (undos e) (awake e) (now e) (current_pid e) true) n
  | S fuel =>
      match list_proc n l with
      | [] => n
      | un :: _ =>
          let semid := un_semid (undos (ns_env n) un) in
          if semid =? -1 then n
          else
            match ipc_lock_check semid n with
            | inl _ => exit_loop fuel l n
            | inr (i, a) =>
                match __lookup_undo l semid n with
                | None => exit_loop fuel l n
                | Some u =>
                    let n := set_list_proc (<[l := list_remove u (list_proc n l)]> (list_proc n)) n in
                    exit_loop fuel l (sem_unlock i (exit_undo u (mk_sst a (ns_env n))) n)
                end
            end
      end
  end.
Definition exit_sem (t : nat) (n : ipc_ns) : ipc_ns :=
  match undo_list n t with
  | None => n
  | Some l =>
      let n := set_undo_list t None n in
      let n := set_refcnt l (refcnt n l - 1) n in
      if negb (refcnt n l =? 0) then n else exit_loop (S (length (list_proc n l))) l n
  end.
