(* ===== verification/SysvSemInv.v ===== *)
(** * System V semaphores: no wakeup is lost (ipc/sem.c)

    Between the operations on a set every task that sleeps has to: its
    operations, tried on the values of the set, block.  [update_queue] does not
    look at all sleepers after every change; the theorems show that the ones it
    skips cannot go on. *)

From stdpp Require Import functions.
From S2P Require Import Prelude SysvSem.

(** ** Operations on values *)

Definition vals (s : sst) : list Z := semval <$> sem_base (sma s).

(** What a sequence of operations amounts to: the new values, or the reason why
    it cannot be done; [bad] tells which operations exceed the undo range. *)
Inductive verdict := Go (v : list Z) | Stop (e : Z).

Definition at_num (v : list Z) (i : nat) : Z := default 0 (v !! i).
Definition blocks (x : Z) (sop : sembuf) : bool := ((sem_op sop =? 0) && negb (x =? 0)) || (x + sem_op sop <? 0).
Definition block_code (sop : sembuf) : Z := if has_flag IPC_NOWAIT sop then - Err.EAGAIN else 1.
Fixpoint attempt (bad : sembuf → bool) (sops : list sembuf) (v : list Z) : verdict :=
  match sops with
  | [] => Go v
  | sop :: sops =>
      let x := at_num v (sem_num sop) in
      if blocks x sop then Stop (block_code sop)
      else if (SEMVMX <? x + sem_op sop) || bad sop then Stop (- Err.ERANGE)
      else attempt bad sops (<[sem_num sop := x + sem_op sop]> v)
  end.

Lemma attempt_ext bad bad' sops v : (∀ sop, sop ∈ sops → bad sop = bad' sop) → attempt bad sops v = attempt bad' sops v.
Proof.
  revert v. induction sops as [|sop sops IH]; intros v H; simpl; [done|]. rewrite (H sop) by left.
  case_match; [done|]. case_match; [done|]. apply IH. intros x Hx. apply H. by right.
Qed.

Lemma at_insert v i j x : (i < length v)%nat → at_num (<[i := x]> v) j = if decide (i = j) then x else at_num v j.
Proof.
  intros Hi. unfold at_num. case_decide as E; [subst j; by rewrite list_lookup_insert_eq|by rewrite list_lookup_insert_ne].
Qed.

(** What is added to semaphore [i]. *)
Definition sum_on (i : nat) (sops : list sembuf) : Z :=
  foldr (λ sop n, (if decide (sem_num sop = i) then sem_op sop else 0) + n) 0 sops.

Lemma attempt_go bad sops v v' :
  Forall (λ sop, sem_num sop < length v)%nat sops → Forall (λ x, 0 ≤ x ≤ SEMVMX) v → attempt bad sops v = Go v' →
  length v' = length v ∧ Forall (λ x, 0 ≤ x ≤ SEMVMX) v' ∧ (∀ i, at_num v' i = at_num v i + sum_on i sops) ∧
  ∀ sop, sop ∈ sops → bad sop = false.
Proof.
  revert v. induction sops as [|sop sops IH]; intros v Hn Hv; simpl.
  { intros [= ->]. split_and!; [done|done|intros i; lia|by intros ? ?%not_elem_of_nil]. }
  apply Forall_cons in Hn as [Hs Hn]. destruct (blocks _ _) eqn:Eb; [done|]. destruct (_ || _) eqn:Er; [done|]. intros Hgo.
  apply orb_false_iff in Er as [Er Hbad]. unfold blocks in Eb. apply orb_false_iff in Eb as [_ Eb].
  apply IH in Hgo as (H1 & H2 & H3 & H4).
  - rewrite length_insert in H1. split_and!; [done|done| |].
    + intros i. rewrite H3, (at_insert _ _ _ _ Hs). case_decide; [subst i|]; lia.
    + intros x [->|Hx]%elem_of_cons; [done|by apply H4].
  - eapply Forall_impl; [exact Hn|]. intros x. by rewrite length_insert.
  - apply Forall_insert; [done|lia].
Qed.

Lemma attempt_good bad sops v v' :
  (∀ sop, sop ∈ sops → bad sop = false) → attempt (λ _, false) sops v = Go v' → attempt bad sops v = Go v'.
Proof. intros H <-. by apply attempt_ext. Qed.

(** ** [try_atomic_semop] *)

(** All but the values, the processes that changed them and the undo structures. *)
Definition rest (s : sst) := (perm_id (sma s), perm_seq (sma s), sem_simple <$> sem_base (sma s), sem_pending (sma s), list_id (sma s),
  complex_count (sma s), sem_otime (sma s), sem_ctime (sma s), queues (env s), awake (env s), now (env s), current_pid (env s), bugs (env s)).

Definition is_short (x : Z) : Prop := - 32768 ≤ x < 32768.

(** The undo structures have their entries, and these are [short]. *)
Record undo_kept (s s' : sst) : Prop := {
  uk_list : list_id (sma s') = list_id (sma s);
  uk_semid : ∀ u, un_semid (undos (env s') u) = un_semid (undos (env s) u);
  uk_length : ∀ u, length (semadj (undos (env s') u)) = length (semadj (undos (env s) u));
  uk_range : (∀ u, Forall is_short (semadj (undos (env s) u))) → ∀ u, Forall is_short (semadj (undos (env s') u));
  uk_local : ∀ u, u ∉ list_id (sma s) → undos (env s') u = undos (env s) u
}.
#[global] Instance undo_kept_preorder : PreOrder undo_kept.
Proof.
  split; [split; auto|]. intros x y z [] []. split; eauto; try (intros; congruence). intros u Hu. rewrite uk_local1 by congruence. auto.
Qed.

Lemma undo_kept_same s s' : list_id (sma s') = list_id (sma s) → undos (env s') = undos (env s) → undo_kept s s'.
Proof. intros El Eu. split; try done; by rewrite Eu. Qed.

(** The operations are in the array and have their undo entries. *)
Definition sop_ok (un : option nat) (s : sst) (sop : sembuf) : Prop :=
  (sem_num sop < sem_nsems (sma s))%nat ∧
  (has_flag SEM_UNDO sop = true → ∃ u, un = Some u ∧ u ∈ list_id (sma s) ∧ (sem_num sop < length (semadj (undos (env s) u)))%nat).

Lemma bug_on_false s : bug_on false s = s.
Proof. destruct s as [a []]. unfold bug_on, set_env. simpl. by rewrite orb_false_r. Qed.

Lemma upd_sem_back i f g s : (∀ m, sem_base (sma s) !! i = Some m → g (f m) = m) → upd_sem i g (upd_sem i f s) = s.
Proof.
  intros H. destruct s as [[] e]. unfold upd_sem, set_sma, with_base. simpl in *. do 2 f_equal. apply list_eq. intros j.
  destruct (decide (i = j)) as [<-|Hne]; [|by rewrite !list_lookup_alter_ne]. rewrite !list_lookup_alter_eq.
  destruct (_ !! i) as [m|] eqn:E; [|done]. simpl. by rewrite H.
Qed.

Lemma value_vals s i : value s i = at_num (vals s) i.
Proof. unfold value, at_num, vals. rewrite list_lookup_fmap. by destruct (_ !! i). Qed.
Lemma length_vals s : length (vals s) = sem_nsems (sma s).
Proof. apply length_fmap. Qed.

Lemma vals_upd_sem i f v s :
  (∀ m, sem_base (sma s) !! i = Some m → semval (f m) = v) → vals (upd_sem i f s) = <[i := v]> (vals s).
Proof.
  intros H. unfold vals, upd_sem. simpl. apply list_eq. intros j. rewrite list_lookup_fmap. destruct (decide (i = j)) as [<-|Hne].
  - rewrite list_lookup_alter_eq. destruct (_ !! i) as [m|] eqn:E; simpl.
    + rewrite list_lookup_insert_eq, H by (rewrite ?length_fmap; try eapply lookup_lt_Some; done). done.
    + symmetry. apply lookup_ge_None. rewrite length_insert, length_fmap. by apply lookup_ge_None.
  - by rewrite list_lookup_alter_ne, list_lookup_insert_ne, list_lookup_fmap.
Qed.
Lemma rest_upd_sem i f s : (∀ m, sem_simple (f m) = sem_simple m) → rest (upd_sem i f s) = rest s.
Proof.
  intros H. assert (sem_simple <$> alter f i (sem_base (sma s)) = sem_simple <$> sem_base (sma s)) as E.
  { apply list_eq. intros j. rewrite !list_lookup_fmap. destruct (decide (i = j)) as [<-|Hne]; [|by rewrite list_lookup_alter_ne].
    rewrite list_lookup_alter_eq. destruct (_ !! i); simpl; [|done]. by rewrite H. }
  unfold rest, upd_sem. simpl. by rewrite E.
Qed.

Lemma take_back_cons sop done s s0 :
  take_back done s = s0 → take_back (sop :: done) (upd_sem (sem_num sop) (set_semval (value s (sem_num sop) + sem_op sop)) s) = s0.
Proof.
  intros <-. cbn [take_back foldl]. unfold take_back. simpl. f_equal. apply upd_sem_back. intros [v p l] Hm. unfold value. rewrite Hm. unfold set_semval. simpl.
  f_equal. lia.
Qed.

Definition adj_ranges (e : senv) : Prop := ∀ u, Forall is_short (semadj (undos e u)).
Definition adj_same (s s' : sst) : Prop := ∀ u i, adjust u i s' = adjust u i s.

(** What a commit leaves: values, lists, and undo structures that waiting for
    zero does not change. *)
Definition committed (sops : list sembuf) (s s' : sst) : Prop :=
  vals s' = vals s ∧ rest s' = rest s ∧ undo_kept s s' ∧ (alters sops = false → adj_ranges (env s) → adj_same s s').

Lemma upd_undo_kept u f s :
  u ∈ list_id (sma s) → (∀ n, un_semid (f n) = un_semid n ∧ length (semadj (f n)) = length (semadj n)) →
  (∀ n, Forall is_short (semadj n) → Forall is_short (semadj (f n))) →
  undo_kept s (upd_undo u f s).
Proof.
  intros Hin Hf Hr. split; [done|intros v|intros v|intros H v|intros v Hv]; simpl; (destruct (decide (u = v)) as [<-|Hne]; [rewrite fn_lookup_insert|by rewrite fn_lookup_insert_ne]).
  - apply Hf.
  - apply Hf.
  - by apply Hr.
  - done.
Qed.

Lemma commit_one_ok un pid s sop : sop_ok un s sop → committed [sop] s (commit_one un pid s sop).
Proof.
  intros [_ Hu]. unfold commit_one. set (s1 := upd_sem _ _ s).
  assert (committed [sop] s s1) as Hc.
  { unfold committed. split_and!; [|by apply rest_upd_sem|by apply undo_kept_same|done]. unfold vals, s1, upd_sem. simpl. apply list_eq. intros j. rewrite !list_lookup_fmap.
    destruct (decide (sem_num sop = j)) as [<-|]; [|by rewrite list_lookup_alter_ne]. rewrite list_lookup_alter_eq. by destruct (_ !! _). }
  destruct (has_flag SEM_UNDO sop) eqn:Ef; [|done]. destruct (Hu eq_refl) as (u & -> & Hin & Hlen).
  destruct Hc as (C1 & C2 & C3 & C4). set (f := λ n, mk_undo _ _). assert (∀ n, Forall is_short (semadj n) → Forall is_short (semadj (f n))) as Hr.
  { intros n Hn. unfold f. simpl. apply Forall_alter; [done|]. intros x _ _. apply (wrap_s_range 16). lia. }
  unfold committed. split_and!; [done|done| |].
  - etrans; [exact C3|]. apply upd_undo_kept; [exact Hin| |exact Hr]. intros n. unfold f. simpl. by rewrite length_alter.
  - intros Ha HR v i. unfold adjust. simpl. destruct (decide (u = v)) as [<-|]; [rewrite fn_lookup_insert|by rewrite fn_lookup_insert_ne]. simpl.
    destruct (decide (sem_num sop = i)) as [<-|]; [|by rewrite list_lookup_alter_ne]. rewrite list_lookup_alter_eq.
    destruct (semadj (undos (env s) u) !! sem_num sop) as [x|] eqn:Ex; [|done]. simpl. simpl in Ha. rewrite orb_false_r in Ha.
    apply negb_false_iff, Z.eqb_eq in Ha. rewrite Ha. assert (is_short x) as Hx by (eapply Forall_lookup_1; [apply (HR u)|exact Ex]).
    unfold is_short in Hx. rewrite s16_id by lia. lia.
Qed.

Lemma sop_ok_kept un s s' sop :
  sem_nsems (sma s') = sem_nsems (sma s) → undo_kept s s' → sop_ok un s sop → sop_ok un s' sop.
Proof.
  intros Hn Hk [H1 H2]. unfold sop_ok in *. rewrite Hn, (uk_list _ _ Hk). split; [done|]. intros Hf. destruct (H2 Hf) as (u & ? & ? & ?). exists u. by rewrite (uk_length _ _ Hk).
Qed.
Lemma rest_nsems s s' : rest s' = rest s → sem_nsems (sma s') = sem_nsems (sma s).
Proof. unfold rest. intros E. assert (sem_simple <$> sem_base (sma s') = sem_simple <$> sem_base (sma s)) as H by (by simplify_eq). apply (f_equal length) in H. by rewrite !length_fmap in H. Qed.

Lemma alters_cons sop sops : alters (sop :: sops) = negb (sem_op sop =? 0) || alters sops.
Proof. done. Qed.
Lemma alters_false sops : alters sops = false ↔ ∀ sop, sop ∈ sops → sem_op sop = 0.
Proof.
  unfold alters. rewrite <- not_true_iff_false, existsb_exists. split.
  - intros H sop Hin. destruct (Z.eqb_spec (sem_op sop) 0); [done|]. destruct H. exists sop. rewrite <- list_elem_of_In. split; [done|]. by apply negb_true_iff, Z.eqb_neq.
  - intros H (sop & Hin%list_elem_of_In & Hz). rewrite (H sop Hin) in Hz. done.
Qed.

Lemma commit_ok un pid done s : Forall (sop_ok un s) done → committed done s (commit un pid done s).
Proof.
  revert s. induction done as [|sop done IH]; intros s H; [unfold committed; split_and!; done|]. apply Forall_cons in H as [H1 H2].
  destruct (commit_one_ok un pid s sop H1) as (C1 & C2 & C3 & C4). change (commit un pid (sop :: done) s) with (commit un pid done (commit_one un pid s sop)).
  destruct (IH (commit_one un pid s sop)) as (D1 & D2 & D3 & D4).
  { eapply Forall_impl; [exact H2|]. intros x. apply sop_ok_kept; [by apply rest_nsems|done]. }
  unfold committed. split_and!; [congruence|congruence|etrans; [exact C3|exact D3]|]. rewrite alters_cons. intros [Ha1 Ha2]%orb_false_iff HR u i.
  etrans; [apply D4; [done|exact (uk_range _ _ C3 HR)]|]. apply C4; [|done]. rewrite alters_cons. by rewrite Ha1.
Qed.

(** [try_atomic_semop] does all operations or none: it is [attempt] on the
    values, and leaves the state alone when it does not succeed. *)
Definition bad_undo (un : option nat) (s : sst) (sop : sembuf) : bool := undo_exceeds un sop s.

Lemma try_ops_ok un pid sops : ∀ done s s0,
  take_back done s = s0 → Forall (sop_ok un s) sops → Forall (sop_ok un s) done → rest s = rest s0 → env s = env s0 →
  match attempt (bad_undo un s) sops (vals s) with
  | Go v => ∃ s', try_ops un pid done sops s = (0, s') ∧ vals s' = v ∧ rest s' = rest s ∧ undo_kept s s' ∧
      (alters (done ++ sops) = false → adj_ranges (env s) → adj_same s s')
  | Stop e => try_ops un pid done sops s = (e, s0)
  end.
Proof.
  induction sops as [|sop sops IH]; intros done s s0 Hb Hok Hdone Hr He; simpl.
  { destruct (commit_ok un pid done s Hdone) as (C1 & C2 & C3 & C4). eexists. split; [done|]. rewrite app_nil_r. done. }
  apply Forall_cons in Hok as [[Hn Hu] Hok].
  assert (has_flag SEM_UNDO sop && negb (has_adjust un (sem_num sop) s) = false) as E.
  { destruct (has_flag SEM_UNDO sop); [|done]. destruct (Hu eq_refl) as (u & -> & _ & Hlen). simpl. by rewrite (proj2 (Nat.ltb_lt _ _) Hlen). }
  rewrite (proj2 (Nat.leb_gt _ _) Hn), bug_on_false, E, bug_on_false, value_vals. unfold blocks. clear E.
  destruct (_ && _); simpl; [by rewrite Hb|]. destruct (_ <? 0); [by rewrite Hb|]. destruct (SEMVMX <? _); simpl; [by rewrite Hb|].
  unfold bad_undo at 1. destruct (undo_exceeds un sop s); [by rewrite Hb|].
  set (x := at_num _ _). rewrite <- (vals_upd_sem (sem_num sop) (set_semval (x + sem_op sop)) (x + sem_op sop) s) by done.
  set (s1 := upd_sem _ _ s). assert (rest s1 = rest s) as Hr1 by (by apply rest_upd_sem).
  assert (∀ l, Forall (sop_ok un s) l → Forall (sop_ok un s1) l) as Hk.
  { intros l Hl. eapply Forall_impl; [exact Hl|]. intros y. apply sop_ok_kept; [by apply rest_nsems|by apply undo_kept_same]. }
  specialize (IH (sop :: done) s1 s0). change (bad_undo un s1) with (bad_undo un s) in IH.
  specialize (IH ltac:(unfold s1, x; rewrite <- value_vals; by apply take_back_cons) (Hk _ Hok)).
  specialize (IH ltac:(apply Hk; by constructor) ltac:(congruence) ltac:(done)). destruct (attempt _ _ _) as [v|e]; [|done].
  destruct IH as (s' & I1 & I2 & I3 & I4 & I5). exists s'. split_and!; [done|done|congruence|etrans; [|exact I4]; by apply undo_kept_same|]. intros Ha HR. apply I5; [|done].
  apply alters_false. rewrite alters_false in Ha. intros y Hy. apply Ha. set_solver.
Qed.

Lemma try_ok un pid sops s :
  Forall (sop_ok un s) sops →
  match attempt (bad_undo un s) sops (vals s) with
  | Go v => ∃ s', try_atomic_semop sops un pid s = (0, s') ∧ vals s' = v ∧ rest s' = rest s ∧ undo_kept s s' ∧
      (alters sops = false → adj_ranges (env s) → adj_same s s')
  | Stop e => try_atomic_semop sops un pid s = (e, s)
  end.
Proof. intros H. by apply (try_ops_ok un pid sops [] s s). Qed.

(** ** The invariant *)

Definition simple_on (s : sst) (i : nat) (q : nat) : Prop := nsops (queue_of s q) = 1%nat ∧ first_num (queue_of s q) = i.
Definition complex (s : sst) (q : nat) : Prop := nsops (queue_of s q) ≠ 1%nat.
#[global] Instance simple_on_dec s i q : Decision (simple_on s i q).
Proof. unfold simple_on. apply _. Defined.
#[global] Instance complex_dec s q : Decision (complex s q).
Proof. unfold complex. apply _. Defined.

(** Tasks that wait for zero come before those that change the set. *)
Definition zeros_first (s : sst) (l : list nat) : Prop :=
  ∃ zs als, l = zs ++ als ∧ Forall (λ q, q_alter (queue_of s q) = false) zs ∧ Forall (λ q, q_alter (queue_of s q) = true) als.

Record entry_ok (s : sst) (e : sem_queue) : Prop := {
  en_some : q_sops e ≠ [];
  en_sops : Forall (sop_ok (q_undo e) s) (q_sops e);
  en_alter : q_alter e = alters (q_sops e);
  en_calm : ∀ sop, q_sops e = [sop] → sem_op sop ≤ 0 ∧ has_flag IPC_NOWAIT sop = false
}.

Record sok (s : sst) : Prop := {
  s_vals : Forall (λ x, 0 ≤ x ≤ SEMVMX) (vals s);
  s_nodup : NoDup (sem_pending (sma s));
  s_first : zeros_first s (sem_pending (sma s));
  s_simple : ∀ i, (i < sem_nsems (sma s))%nat → simple_of s i = filter (simple_on s i) (sem_pending (sma s));
  s_count : complex_count (sma s) = Z.of_nat (length (filter (complex s) (sem_pending (sma s))));
  s_entry : ∀ q, q ∈ sem_pending (sma s) → entry_ok s (queue_of s q);
  s_adj : adj_ranges (env s)
}.

(** Task [q] has to sleep. *)
Definition blocked (s : sst) (q : nat) : Prop :=
  attempt (bad_undo (q_undo (queue_of s q)) s) (q_sops (queue_of s q)) (vals s) = Stop 1.

Definition sem_ok (s : sst) : Prop := sok s ∧ ∀ q, q ∈ sem_pending (sma s) → blocked s q.

(** ** Lists *)

Lemma elem_of_remove q x l : x ∈ list_remove q l ↔ x ≠ q ∧ x ∈ l.
Proof. unfold list_remove. by rewrite list_elem_of_filter. Qed.

Lemma remove_commute (P : nat → Prop) `{∀ x, Decision (P x)} q l : filter P (list_remove q l) = list_remove q (filter P l).
Proof. unfold list_remove. rewrite !list_filter_filter. apply list_filter_iff. naive_solver. Qed.
Lemma remove_cons q x l : list_remove q (x :: l) = if decide (x = q) then list_remove q l else x :: list_remove q l.
Proof. unfold list_remove. case_decide; [rewrite filter_cons_False; naive_solver|by rewrite filter_cons_True]. Qed.
Lemma remove_absent q l : q ∉ l → list_remove q l = l.
Proof.
  induction l as [|x l IH]; [done|]. rewrite not_elem_of_cons. intros [Hx Hl]. rewrite remove_cons. case_decide; [congruence|]. by rewrite IH.
Qed.
Lemma remove_length q l : NoDup l → q ∈ l → S (length (list_remove q l)) = length l.
Proof.
  induction l as [|x l IH]; [by intros _ ?%not_elem_of_nil|]. intros [Hx Hl]%NoDup_cons Hq. rewrite remove_cons. case_decide as E.
  - subst x. by rewrite (remove_absent q l Hx).
  - simpl. rewrite IH; [done|done|]. apply elem_of_cons in Hq as [?|?]; [congruence|done].
Qed.
Lemma remove_filter_length (P : nat → Prop) `{∀ x, Decision (P x)} q l :
  NoDup l → q ∈ l → (length (filter P (list_remove q l)) + (if decide (P q) then 1 else 0) = length (filter P l))%nat.
Proof.
  intros Hl Hq. rewrite remove_commute. case_decide as HP.
  - rewrite <- (remove_length q (filter P l)); [lia|by apply NoDup_filter|by apply list_elem_of_filter].
  - rewrite remove_absent; [lia|]. rewrite list_elem_of_filter. naive_solver.
Qed.

Lemma zeros_first_filter s (P : nat → Prop) `{∀ x, Decision (P x)} l : zeros_first s l → zeros_first s (filter P l).
Proof.
  intros (zs & als & -> & Hz & Ha). exists (filter P zs), (filter P als). rewrite filter_app. split; [done|].
  split; apply Forall_forall; intros x [_ Hx]%list_elem_of_filter; [by eapply Forall_forall in Hz|by eapply Forall_forall in Ha].
Qed.
(** Behind a task that changes the set there is none that waits for zero. *)
Lemma zeros_first_alter s l1 q l2 :
  zeros_first s (l1 ++ q :: l2) → q_alter (queue_of s q) = true → Forall (λ q, q_alter (queue_of s q) = true) (q :: l2).
Proof.
  intros (zs & als & E & Hz & Ha) Hq. apply app_eq_inv in E as [(k & -> & ->)|(k & -> & E)].
  - by apply Forall_app in Ha as [_ Ha].
  - destruct k as [|x k]; simpl in E; [by subst|]. injection E as <- ->. rewrite !Forall_app, Forall_cons in Hz. destruct Hz as (_ & Hx & _). congruence.
Qed.

(** ** What keeps the invariant *)

Definition same_entry (e e' : sem_queue) : Prop := q_sops e' = q_sops e ∧ q_undo e' = q_undo e ∧ q_alter e' = q_alter e.

(** The undo structures of the set keep their entries. *)
Definition lens_kept (s s' : sst) : Prop :=
  list_id (sma s') = list_id (sma s) ∧ ∀ u, u ∈ list_id (sma s) → length (semadj (undos (env s') u)) = length (semadj (undos (env s) u)).
Lemma undo_lens s s' : undo_kept s s' → lens_kept s s'.
Proof. intros H. split; [apply H|]. intros u _. apply H. Qed.

Lemma entry_lens s s' e e' :
  sem_nsems (sma s') = sem_nsems (sma s) → lens_kept s s' → same_entry e e' → entry_ok s e → entry_ok s' e'.
Proof.
  intros Hn [Hl Hu] (E1 & E2 & E3) [H1 H2 H3 H4]. split; rewrite ?E1, ?E2, ?E3; try done. eapply Forall_impl; [exact H2|]. intros x [S1 S2].
  split; [by rewrite Hn|]. intros Hf. destruct (S2 Hf) as (u & ? & ? & ?). exists u. by rewrite Hl, Hu.
Qed.
Lemma entry_kept s s' e e' :
  sem_nsems (sma s') = sem_nsems (sma s) → undo_kept s s' → same_entry e e' → entry_ok s e → entry_ok s' e'.
Proof. intros Hn Hu. apply entry_lens; [done|by apply undo_lens]. Qed.

Lemma sok_lens s s' :
  Forall (λ x, 0 ≤ x ≤ SEMVMX) (vals s') → sem_nsems (sma s') = sem_nsems (sma s) → sem_pending (sma s') = sem_pending (sma s) →
  (∀ i, simple_of s' i = simple_of s i) → complex_count (sma s') = complex_count (sma s) →
  (∀ q, q ∈ sem_pending (sma s) → same_entry (queue_of s q) (queue_of s' q)) → lens_kept s s' → adj_ranges (env s') → sok s → sok s'.
Proof.
  intros Hv Hn Hp Hs Hc Hq Hu HR [A1 A2 A3 A4 A5 A6 A7].
  assert (∀ q, q ∈ sem_pending (sma s) → nsops (queue_of s' q) = nsops (queue_of s q) ∧ first_num (queue_of s' q) = first_num (queue_of s q)) as Hf.
  { intros q H. destruct (Hq q H) as (E & _). unfold nsops, first_num. by rewrite E. }
  assert (∀ (P P' : nat → Prop) `{∀ x, Decision (P x)} `{∀ x, Decision (P' x)}, (∀ q, q ∈ sem_pending (sma s) → P q ↔ P' q) → filter P (sem_pending (sma s)) = filter P' (sem_pending (sma s))) as Hfil.
  { intros P P' D D' H. clear -H. induction (sem_pending (sma s)) as [|x l IH]; [done|]. assert (P x ↔ P' x) by (apply H; left).
    rewrite !filter_cons, IH by (intros; apply H; by right). repeat case_decide; naive_solver. }
  split; rewrite ?Hp, ?Hn, ?Hc; try done.
  - destruct A3 as (zs & als & E & Hz & Ha). exists zs, als. split; [done|]. split; apply Forall_forall; intros x Hx.
    + destruct (Hq x) as (_ & _ & ->); [rewrite E; set_solver|]. by eapply Forall_forall in Hz.
    + destruct (Hq x) as (_ & _ & ->); [rewrite E; set_solver|]. by eapply Forall_forall in Ha.
  - intros i Hi. rewrite Hs, A4 by done. apply Hfil. intros q H. unfold simple_on. by destruct (Hf q H) as [-> ->].
  - rewrite A5. do 2 f_equal. apply Hfil. intros q H. unfold complex. by destruct (Hf q H) as [-> _].
  - intros q H. eapply entry_lens; [done|done|by apply Hq|by apply A6].
Qed.
Lemma sok_change s s' :
  Forall (λ x, 0 ≤ x ≤ SEMVMX) (vals s') → sem_nsems (sma s') = sem_nsems (sma s) → sem_pending (sma s') = sem_pending (sma s) →
  (∀ i, simple_of s' i = simple_of s i) → complex_count (sma s') = complex_count (sma s) →
  (∀ q, q ∈ sem_pending (sma s) → same_entry (queue_of s q) (queue_of s' q)) → undo_kept s s' → sok s → sok s'.
Proof. intros Hv Hn Hp Hs Hc Hq Hu I. apply (sok_lens s); try done; [by apply undo_lens|exact (uk_range _ _ Hu (s_adj _ I))]. Qed.

Lemma sop_lt s un sops : Forall (sop_ok un s) sops → Forall (λ sop, sem_num sop < length (vals s))%nat sops.
Proof. intros H. eapply Forall_impl; [exact H|]. intros x [Hx _]. by rewrite length_vals. Qed.

Lemma rest_fields s s' : rest s' = rest s →
  (∀ i, simple_of s' i = simple_of s i) ∧ sem_pending (sma s') = sem_pending (sma s) ∧ complex_count (sma s') = complex_count (sma s) ∧
  queues (env s') = queues (env s).
Proof.
  unfold rest. intros E. assert (sem_simple <$> sem_base (sma s') = sem_simple <$> sem_base (sma s)) as H by (by simplify_eq).
  split_and!; [|by simplify_eq..]. intros i. apply (f_equal (λ l, l !! i)) in H. rewrite !list_lookup_fmap in H. unfold simple_of.
  destruct (sem_base (sma s') !! i), (sem_base (sma s) !! i); simpl in H; congruence.
Qed.

(** What no operation on the queues changes. *)
Definition frame (s : sst) := (perm_id (sma s), perm_seq (sma s), sem_nsems (sma s), list_id (sma s),
  awake (env s), now (env s), current_pid (env s), bugs (env s)).
Lemma rest_frame s s' : rest s' = rest s → frame s' = frame s.
Proof. intros E. pose proof (rest_nsems _ _ E) as H. unfold rest in E. unfold frame. injection E as. congruence. Qed.

Lemma sok_rest s s' : rest s' = rest s → Forall (λ x, 0 ≤ x ≤ SEMVMX) (vals s') → undo_kept s s' → sok s → sok s'.
Proof.
  intros E Hv Hu. destruct (rest_fields _ _ E) as (E1 & E2 & E3 & E4). apply sok_change; try done; [by apply rest_nsems|].
  intros q _. unfold queue_of. rewrite E4. done.
Qed.

Lemma simple_upd_sem i f s j : simple_of (upd_sem i f s) j =
  match sem_base (sma s) !! j with Some m => if decide (i = j) then sem_simple (f m) else sem_simple m | None => [] end.
Proof.
  unfold simple_of, upd_sem. simpl. case_decide as E; [subst j|].
  - rewrite list_lookup_alter_eq. by destruct (_ !! i).
  - by rewrite list_lookup_alter_ne.
Qed.
Lemma vals_upd_same i f s : (∀ m, semval (f m) = semval m) → vals (upd_sem i f s) = vals s.
Proof.
  intros H. unfold vals, upd_sem. simpl. apply list_eq. intros j. rewrite !list_lookup_fmap. destruct (decide (i = j)) as [<-|].
  - rewrite list_lookup_alter_eq. destruct (_ !! i); simpl; [|done]. by rewrite H.
  - by rewrite list_lookup_alter_ne.
Qed.

Lemma entry_simple s e : entry_ok s e → nsops e = 1%nat → ∃ sop, q_sops e = [sop] ∧ first_num e = sem_num sop ∧ first_op e = sem_op sop ∧
  (sem_num sop < sem_nsems (sma s))%nat.
Proof.
  intros [_ H _ _] Hn. unfold nsops, first_num, first_op in *. destruct (q_sops e) as [|sop [|]]; try done. exists sop. apply Forall_singleton in H as [? _]. done.
Qed.

Lemma undo_kept_env s s' : frame s' = frame s → undos (env s') = undos (env s) → undo_kept s s'.
Proof. intros E. apply undo_kept_same. unfold frame in E. congruence. Qed.

Lemma unlink_ok q s :
  sok s → q ∈ sem_pending (sma s) →
  let s' := unlink_queue q s in
  sok s' ∧ sem_pending (sma s') = list_remove q (sem_pending (sma s)) ∧ vals s' = vals s ∧ env s' = env s ∧ frame s' = frame s.
Proof.
  intros I Hq. pose proof (s_entry _ I q Hq) as He. unfold unlink_queue. set (s1 := set_sma _ s). cbn zeta.
  match goal with |- sok ?x ∧ _ => set (s' := x) end.
  assert (env s' = env s ∧ vals s' = vals s ∧ frame s' = frame s ∧ sem_pending (sma s') = list_remove q (sem_pending (sma s)) ∧
    sem_nsems (sma s') = sem_nsems (sma s)) as (E1 & E2 & E3 & E4 & E5).
  { unfold s'. destruct (_ =? 1)%nat; split_and!; try done.
    - by apply (vals_upd_same _ _ s1).
    - unfold frame, sem_nsems, upd_sem. simpl. by rewrite length_alter.
    - unfold sem_nsems, upd_sem. simpl. by rewrite length_alter. }
  split_and!; try done. split; rewrite ?E4, ?E5, ?E2; [apply I|apply NoDup_filter, I| | | | |].
  - unfold zeros_first, queue_of. rewrite E1. apply (zeros_first_filter s), I.
  - intros i Hi. transitivity (list_remove q (filter (simple_on s i) (sem_pending (sma s)))).
    2:{ rewrite <- remove_commute. apply list_filter_iff. unfold simple_on, queue_of. by rewrite E1. }
    rewrite <- (s_simple _ I i Hi). unfold s'. destruct (Nat.eqb_spec (nsops (queue_of s q)) 1) as [En|En].
    + rewrite simple_upd_sem. change (sem_base (sma s1)) with (sem_base (sma s)). unfold simple_of at 1. destruct (sem_base (sma s) !! i) as [m|] eqn:Em; [|done].
      case_decide as Ei; [done|]. symmetry. apply remove_absent. assert (sem_simple m = simple_of s i) as -> by (unfold simple_of; by rewrite Em).
      rewrite (s_simple _ I i Hi), list_elem_of_filter. intros [[_ ?] _]. done.
    + symmetry. apply (remove_absent q (simple_of s i)). rewrite (s_simple _ I i Hi), list_elem_of_filter. intros [[? _] _]. done.
  - pose proof (remove_filter_length (complex s) q _ (s_nodup _ I) Hq) as Hl.
    assert (filter (complex s') (list_remove q (sem_pending (sma s))) = filter (complex s) (list_remove q (sem_pending (sma s)))) as ->.
    { apply list_filter_iff. unfold complex, queue_of. by rewrite E1. }
    pose proof (s_count _ I) as Hc. unfold s'. unfold complex in Hl at 2. destruct (Nat.eqb_spec (nsops (queue_of s q)) 1) as [En|En]; simpl; case_decide; try done; lia.
  - intros x Hx. apply elem_of_remove in Hx as [_ Hx]. unfold queue_of. rewrite E1. eapply entry_kept; [done|apply undo_kept_env; [done|by rewrite E1]|done|by apply (s_entry _ I)].
  - rewrite E1. apply I.
Qed.

(** ** Sleepers that stay blocked *)

Lemma simple_blocked s q sop :
  q_sops (queue_of s q) = [sop] → has_flag IPC_NOWAIT sop = false → blocked s q ↔ blocks (at_num (vals s) (sem_num sop)) sop = true.
Proof.
  intros E Hf. unfold blocked. rewrite E. simpl. unfold block_code. rewrite Hf. destruct (blocks _ _); [done|]. by destruct (_ || _).
Qed.

Lemma blocked_ext s s' q : vals s' = vals s → adj_same s s' → queue_of s' q = queue_of s q → blocked s q → blocked s' q.
Proof.
  unfold blocked. intros Ev Ha Eq. rewrite Ev, Eq. intros <-. apply attempt_ext. intros sop _. unfold bad_undo, undo_exceeds.
  destruct (q_undo (queue_of s q)); [|done]. by rewrite Ha.
Qed.

Lemma vals_unchanged bad sops v v' :
  Forall (λ sop, sem_num sop < length v)%nat sops → Forall (λ x, 0 ≤ x ≤ SEMVMX) v → attempt bad sops v = Go v' → alters sops = false → v' = v.
Proof.
  intros Hn Hv Hgo Ha. destruct (attempt_go bad sops v v' Hn Hv Hgo) as (H1 & _ & H3 & _). rewrite alters_false in Ha.
  assert (∀ i, sum_on i sops = 0) as Hs.
  { intros i. clear -Ha. induction sops as [|sop sops IH]; [done|]. simpl. rewrite IH by (intros; apply Ha; by right). rewrite (Ha sop) by left. by case_decide. }
  apply list_eq. intros i. specialize (H3 i). rewrite Hs in H3. unfold at_num in H3. destruct (v' !! i) eqn:E', (v !! i) eqn:E; simpl in H3; [f_equal; lia| | |done].
  - apply lookup_lt_Some in E'. apply lookup_ge_None in E. lia.
  - apply lookup_lt_Some in E. apply lookup_ge_None in E'. lia.
Qed.

Lemma no_complex s : sok s → complex_count (sma s) = 0 → ∀ q, q ∈ sem_pending (sma s) → ∃ sop, q_sops (queue_of s q) = [sop] ∧
  simple_on s (sem_num sop) q ∧ (sem_num sop < sem_nsems (sma s))%nat ∧ sem_op sop ≤ 0 ∧ has_flag IPC_NOWAIT sop = false.
Proof.
  intros I Hc q Hq. assert (nsops (queue_of s q) = 1%nat) as Hn.
  { destruct (decide (nsops (queue_of s q) = 1%nat)) as [|Hne]; [done|]. assert (q ∈ filter (complex s) (sem_pending (sma s))) as Hin by (by apply list_elem_of_filter).
    rewrite (s_count _ I) in Hc. destruct (filter (complex s) _); [by apply not_elem_of_nil in Hin|]. simpl in Hc. lia. }
  destruct (entry_simple _ _ (s_entry _ I q Hq) Hn) as (sop & E1 & E2 & E3 & E4). exists sop. split_and!; [done|done|done|..]; by apply (en_calm _ _ (s_entry _ I q Hq)).
Qed.

(** After the decrement of a semaphore, by the only kind of operation that
    sleeps and changes the set, only tasks that wait for zero may go on. *)
Lemma decrement_blocks x op sop :
  op < 0 → 0 ≤ x + op → sem_op sop ≤ 0 → (sem_op sop = 0 → x + op ≠ 0) → blocks x sop = true → blocks (x + op) sop = true.
Proof.
  unfold blocks. intros H1 H2 H3 H4. rewrite !orb_true_iff, !andb_true_iff, !negb_true_iff, !Z.eqb_eq, !Z.eqb_neq, !Z.ltb_lt. intros [[? ?]|?]; [left; auto|right; lia].
Qed.

Section Restart.
Context (s s1 : sst) (q : nat).
Hypothesis I : sok s.
Hypothesis Hq : q ∈ sem_pending (sma s).
Let e := queue_of s q.
Hypothesis Hgo : attempt (bad_undo (q_undo e) s) (q_sops e) (vals s) = Go (vals s1).
Hypothesis Hrest : rest s1 = rest s.
Hypothesis Hundo : undo_kept s s1.
Hypothesis Hadj : alters (q_sops e) = false → adj_same s s1.
Let s2 := unlink_queue q s1.

Lemma restart_state :
  sok s2 ∧ sem_pending (sma s2) = list_remove q (sem_pending (sma s)) ∧ vals s2 = vals s1 ∧ env s2 = env s1 ∧ frame s2 = frame s ∧
  queues (env s2) = queues (env s) ∧ Forall (λ x, 0 ≤ x ≤ SEMVMX) (vals s1) ∧ length (vals s1) = length (vals s) ∧
  (∀ i, at_num (vals s1) i = at_num (vals s) i + sum_on i (q_sops e)).
Proof.
  pose proof (s_entry _ I q Hq) as He. destruct (attempt_go _ _ _ _ (sop_lt _ _ _ (en_sops _ _ He)) (s_vals _ I) Hgo) as (G1 & G2 & G3 & _).
  destruct (rest_fields _ _ Hrest) as (R1 & R2 & R3 & R4).
  destruct (unlink_ok q s1 (sok_rest _ _ Hrest G2 Hundo I) ltac:(by rewrite R2)) as (U1 & U2 & U3 & U4 & U5).
  split_and!; try done; [etrans; [exact U2|by rewrite R2]|etrans; [exact U5|by apply rest_frame]|etrans; [exact (f_equal queues U4)|done]].
Qed.

Lemma restart_simple sop :
  q_sops e = [sop] → sem_op sop < 0 → complex_count (sma s2) = 0 →
  (∀ x sop', x ∈ sem_pending (sma s2) → q_sops (queue_of s2 x) = [sop'] → sem_num sop' = sem_num sop → sem_op sop' = 0 → value s2 (sem_num sop) ≠ 0) →
  ∀ x, x ∈ sem_pending (sma s2) → blocked s x → blocked s2 x.
Proof.
  intros E Hop Hc Hz x Hx Hb. destruct restart_state as (K1 & K2 & K3 & K4 & K5 & K6 & K7 & K8 & K9).
  destruct (no_complex s2 K1 Hc x Hx) as (sop' & X1 & X2 & X3 & X4 & X5). apply (simple_blocked s2 x sop' X1 X5).
  assert (queue_of s x = queue_of s2 x) as Eq by (unfold queue_of; by rewrite K6). apply (simple_blocked s x sop') in Hb; [|by rewrite Eq|done].
  rewrite K3, K9, E. simpl. case_decide as En; rewrite Z.add_0_r; [|done].
  assert (value s2 (sem_num sop) = at_num (vals s) (sem_num sop) + sem_op sop) as Ev.
  { rewrite value_vals, K3, K9, E. simpl. rewrite decide_True by done. lia. }
  assert (0 ≤ value s2 (sem_num sop)) as Hpos.
  { rewrite value_vals, K3. unfold at_num. destruct (vals s1 !! sem_num sop) as [y|] eqn:Ey; simpl; [|lia]. by eapply Forall_lookup_1 in K7 as [? _]. }
  rewrite <- En in *. apply decrement_blocks; [done|lia|done| |done]. intros H0. rewrite <- Ev. by eapply Hz.
Qed.

Lemma restart_ok :
  (check_restart q s2).2 = s2 ∧
  ((check_restart q s2).1 = false → ∀ x, x ∈ sem_pending (sma s2) → blocked s x → blocked s2 x).
Proof.
  destruct restart_state as (K1 & K2 & K3 & K4 & K5 & K6 & K7 & K8 & K9). pose proof (s_entry _ I q Hq) as He.
  assert (q_alter e = alters (q_sops e)) as Hal by exact (en_alter _ _ He).
  assert (queue_of s2 q = e) as Ee by (unfold queue_of; by rewrite K6). unfold check_restart. rewrite Ee. destruct (q_alter e) eqn:Ea; cbn [negb].
  2:{ split; [done|]. intros _ x Hx. apply blocked_ext; [|intros u i; unfold adjust; rewrite K4; apply Hadj|unfold queue_of; by rewrite K6].
      - rewrite K3. eapply vals_unchanged; [by eapply sop_lt, He|apply I|exact Hgo|]. etrans; [symmetry; exact Hal|done].
      - by rewrite <- Hal. }
  destruct (Z.eqb_spec (complex_count (sma s2)) 0) as [Hc|]; cbn [negb]; [|done]. destruct (Nat.ltb_spec 1 (nsops e)) as [|Hn]; [done|].
  assert (nsops e = 1%nat) as Hn1. { pose proof (en_some _ _ He) as Hne. unfold nsops in *. fold e in Hne. destruct (q_sops e); simpl in *; [done|lia]. }
  destruct (entry_simple _ _ He Hn1) as (sop & E1 & E2 & E3 & E4). fold e in E1, E2, E3. rewrite E2, E3.
  assert (sem_op sop < 0) as Hop.
  { destruct (en_calm _ _ He sop E1) as [? _]. rewrite E1 in Hal. simpl in Hal. rewrite orb_false_r in Hal.
    symmetry in Hal. apply negb_true_iff, Z.eqb_neq in Hal. lia. }
  assert (sem_num sop < sem_nsems (sma s2))%nat as Hlt by (unfold frame in K5; congruence). pose proof (s_simple _ K1 _ Hlt) as Hl.
  assert (∀ x sop', x ∈ sem_pending (sma s2) → q_sops (queue_of s2 x) = [sop'] → sem_num sop' = sem_num sop → x ∈ simple_of s2 (sem_num sop)) as Hin.
  { intros x sop' Hx X1 X2. rewrite Hl. apply list_elem_of_filter. split; [|done]. unfold simple_on, nsops, first_num. by rewrite X1. }
  destruct (simple_of s2 (sem_num sop)) as [|h l] eqn:Es.
  { split; [done|]. intros _. apply (restart_simple sop E1 Hop Hc). intros x sop' Hx X1 X2 _. by pose proof (Hin x sop' Hx X1 X2) as ?%not_elem_of_nil. }
  destruct (Z.eqb_spec (value s2 (sem_num sop)) 0) as [Hv|Hv]; cbn [negb].
  - assert (h ∈ sem_pending (sma s2) ∧ simple_on s2 (sem_num sop) h) as [Hh [H1 H2]].
    { assert (h ∈ h :: l) as Hh by left. rewrite Hl in Hh. by apply list_elem_of_filter in Hh as [? ?]. }
    rewrite H1. cbn [negb Nat.eqb]. rewrite bug_on_false, H2, Nat.eqb_refl. cbn [negb]. rewrite bug_on_false. split; [done|]. cbn [fst]. intros Hf. apply (restart_simple sop E1 Hop Hc).
    intros x sop' Hx X1 X2 X3. exfalso. destruct (entry_simple _ _ (s_entry _ K1 h Hh) H1) as (sh & S1 & _ & S3 & _). rewrite S3 in Hf.
    assert (Forall (λ y, q_alter (queue_of s2 y) = true) (h :: l)) as Hall.
    { apply (zeros_first_alter s2 [] h l); [simpl; rewrite Hl; apply zeros_first_filter, K1|]. rewrite (en_alter _ _ (s_entry _ K1 h Hh)), S1. simpl. by rewrite Hf. }
    pose proof (proj1 (Forall_forall _ _) Hall x (Hin x sop' Hx X1 X2)) as Hxa. cbn beta in Hxa. rewrite (en_alter _ _ (s_entry _ K1 x Hx)), X1 in Hxa. simpl in Hxa.
    rewrite X3 in Hxa. done.
  - rewrite (proj2 (Z.leb_gt _ _) Hop), bug_on_false. split; [done|]. intros _. by apply (restart_simple sop E1 Hop Hc).
Qed.
End Restart.

(** ** Completing sleeping operations *)

(** The values after a list of operations, one after the other. *)
Fixpoint performs (v : list Z) (l : list (list sembuf)) (v' : list Z) : Prop :=
  match l with
  | [] => v' = v
  | sops :: l => ∃ v1, attempt (λ _, false) sops v = Go v1 ∧ performs v1 l v'
  end.
Lemma performs_app v l1 v1 l2 v2 : performs v l1 v1 → performs v1 l2 v2 → performs v (l1 ++ l2) v2.
Proof. revert v. induction l1 as [|sops l1 IH]; intros v; simpl; [by intros ->|]. intros (w & E & H) H2. exists w. split; [done|by apply IH]. Qed.

(** The operations of the tasks that were woken with success. *)
Definition ops_of (s : sst) (ws : list (nat * Z)) : list (list sembuf) :=
  (λ w, q_sops (queue_of s w.1)) <$> filter (λ w, w.2 = 0) ws.

(** What a task that sleeps in [sops] can be told. *)
Definition result_of (sops : list sembuf) (e : Z) : Prop :=
  e = 0 ∨ (e = - Err.EAGAIN ∧ ∃ sop, sop ∈ sops ∧ has_flag IPC_NOWAIT sop = true) ∨
  (e = - Err.ERANGE ∧ ∃ sop, sop ∈ sops ∧ (0 < sem_op sop ∨ has_flag SEM_UNDO sop = true)).

(** From [s] to [s'], the tasks [ws] are taken off the queues with the results
    they are to get; those with success have had their operations done. *)
Record updated (s : sst) (ws : list (nat * Z)) (s' : sst) : Prop := {
  up_pending : sem_pending (sma s') = filter (λ q, q ∉ ws.*1) (sem_pending (sma s));
  up_woken : ∀ q e, (q, e) ∈ ws → q ∈ sem_pending (sma s) ∧ result_of (q_sops (queue_of s q)) e ∧ q_pid (queue_of s' q) = e;
  up_nodup : NoDup ws.*1;
  up_vals : performs (vals s) (ops_of s ws) (vals s');
  up_queue : ∀ q, q ∉ ws.*1 → queue_of s' q = queue_of s q;
  up_undo : undo_kept s s';
  up_frame : frame s' = frame s
}.

Lemma updated_refl s : updated s [] s.
Proof.
  split; try done; [|by intros ? ? ?%not_elem_of_nil|constructor]. simpl. induction (sem_pending (sma s)) as [|x l IH]; [done|].
  rewrite filter_cons_True by apply not_elem_of_nil. by rewrite <- IH.
Qed.

Lemma updated_trans s ws s1 ws1 s2 : updated s ws s1 → updated s1 ws1 s2 → updated s (ws ++ ws1) s2.
Proof.
  intros H1 H2. assert (∀ q, q ∈ ws1.*1 → q ∈ sem_pending (sma s) ∧ q ∉ ws.*1) as Hd.
  { intros q ([x e] & -> & Hq)%list_elem_of_fmap. destruct (up_woken _ _ _ H2 x e Hq) as (Hp & _). rewrite (up_pending _ _ _ H1) in Hp.
    by apply list_elem_of_filter in Hp as [? ?]. }
  split.
  - rewrite (up_pending _ _ _ H2), (up_pending _ _ _ H1), list_filter_filter. apply list_filter_iff. intros x. rewrite fmap_app, not_elem_of_app. naive_solver.
  - intros q e [Hq|Hq]%elem_of_app.
    + destruct (up_woken _ _ _ H1 q e Hq) as (? & ? & He). split_and!; [done|done|]. rewrite (up_queue _ _ _ H2); [done|].
      intros Hin. destruct (Hd q Hin) as [_ []]. by apply (list_elem_of_fmap_2 fst ws (q, e)).
    + destruct (up_woken _ _ _ H2 q e Hq) as (_ & Hr & ?). assert (q ∈ ws1.*1) as Hin by (by apply (list_elem_of_fmap_2 fst ws1 (q, e))).
      rewrite (up_queue _ _ _ H1) in Hr by (by apply Hd). split_and!; [by apply Hd|done|done].
  - rewrite fmap_app. apply NoDup_app. split_and!; [apply H1| |apply H2]. intros q Hq Hq1. by destruct (Hd q Hq1).
  - unfold ops_of. rewrite filter_app, fmap_app. eapply performs_app; [apply H1|]. pose proof (up_vals _ _ _ H2) as Hv. unfold ops_of in Hv.
    assert ((λ w, q_sops (queue_of s1 w.1)) <$> filter (λ w : nat * Z, w.2 = 0) ws1 = (λ w, q_sops (queue_of s w.1)) <$> filter (λ w : nat * Z, w.2 = 0) ws1) as <-; [|done].
    apply list_fmap_ext. intros i w Hw%list_elem_of_lookup_2. apply list_elem_of_filter in Hw as [_ Hw]. rewrite (up_queue _ _ _ H1); [done|]. apply Hd.
    by apply list_elem_of_fmap_2.
  - intros q. rewrite fmap_app, not_elem_of_app. intros [Ha Hb]. by rewrite (up_queue _ _ _ H2), (up_queue _ _ _ H1).
  - etrans; [apply H1|apply H2].
  - rewrite (up_frame _ _ _ H2). apply H1.
Qed.

Lemma prepare_ok q err s :
  sok s → q ∉ sem_pending (sma s) →
  let s' := (wake_up_sem_queue_prepare [] q err s).2 in
  sok s' ∧ sma s' = sma s ∧ (∀ x, x ≠ q → queue_of s' x = queue_of s x) ∧ q_pid (queue_of s' q) = err ∧
  (∀ x, x ≠ q → blocked s x → blocked s' x) ∧ undos (env s') = undos (env s) ∧ frame s' = frame s.
Proof.
  intros I Hq. simpl. set (s' := upd_queue _ _ s). assert (∀ x, x ≠ q → queue_of s' x = queue_of s x) as Ho.
  { intros x Hx. unfold queue_of, s'. simpl. by rewrite fn_lookup_insert_ne. }
  split_and!; try done.
  - apply (sok_change s); try done; [apply I|]. intros x Hx. rewrite Ho; [done|]. by intros ->.
  - unfold queue_of, s'. simpl. by rewrite fn_lookup_insert.
  - intros x Hx. apply blocked_ext; [done|done|by apply Ho].
Qed.

Lemma attempt_stop bad sops v e : attempt bad sops v = Stop e → e = 1 ∨ e = - Err.EAGAIN ∨ e = - Err.ERANGE.
Proof.
  revert v. induction sops as [|sop sops IH]; intros v; simpl; [done|]. unfold block_code. repeat case_match; intros; simplify_eq; eauto.
Qed.

Lemma attempt_result un s sops : ∀ v e,
  Forall (λ x, x ≤ SEMVMX) v → attempt (bad_undo un s) sops v = Stop e → e ≤ 0 → result_of sops e.
Proof.
  induction sops as [|sop sops IH]; intros v e Hv; simpl; [done|]. unfold result_of, block_code. destruct (blocks _ _).
  { destruct (has_flag IPC_NOWAIT sop) eqn:Ef; intros [= <-] ?; [|lia]. right. left. split; [done|]. exists sop. split; [left|done]. }
  assert (at_num v (sem_num sop) ≤ SEMVMX) as Hx. { unfold at_num. destruct (v !! _) as [x|] eqn:Ex; simpl; [by eapply Forall_lookup_1 in Hv|done]. }
  destruct (Z.ltb_spec SEMVMX (at_num v (sem_num sop) + sem_op sop)) as [Hr|Hr]; cbn [orb].
  { intros [= <-] _. right. right. split; [done|]. exists sop. split; [left|lia]. }
  destruct (bad_undo un s sop) eqn:Eb.
  { intros [= <-] _. right. right. split; [done|]. exists sop. split; [left|]. right. unfold bad_undo, undo_exceeds in Eb. by apply andb_true_iff in Eb as [? _]. }
  intros Hs He. assert (Forall (λ x, x ≤ SEMVMX) (<[sem_num sop := at_num v (sem_num sop) + sem_op sop]> v)) as Hv' by (by apply Forall_insert).
  destruct (IH _ _ Hv' Hs He) as [->|[(-> & x & ? & ?)|(-> & x & ? & ?)]]; [by left|right; left; split; [done|]; exists x; split; [by right|done]|].
  right. right. split; [done|]. exists x. split; [by right|done].
Qed.

(** A sleeper that is off the queues gets its result. *)
Lemma woken_off q err s s2 :
  sok s2 → q ∈ sem_pending (sma s) → sem_pending (sma s2) = list_remove q (sem_pending (sma s)) → queues (env s2) = queues (env s) →
  undo_kept s s2 → frame s2 = frame s → result_of (q_sops (queue_of s q)) err → performs (vals s) (ops_of s [(q, err)]) (vals s2) →
  let s4 := (wake_up_sem_queue_prepare [] q err s2).2 in
  sok s4 ∧ updated s [(q, err)] s4 ∧ vals s4 = vals s2 ∧ sem_pending (sma s4) = sem_pending (sma s2) ∧
  ∀ x, x ∈ sem_pending (sma s4) → blocked s2 x → blocked s4 x.
Proof.
  intros K1 Hq K2 K6 Ku K5 He Hp. assert (q ∉ sem_pending (sma s2)) as Hnin by (rewrite K2, elem_of_remove; naive_solver).
  destruct (prepare_ok q err s2 K1 Hnin) as (P1 & P2 & P3 & P4 & P5 & P6 & P7). set (s4 := (wake_up_sem_queue_prepare [] q err s2).2) in *.
  cbn zeta. assert (vals s4 = vals s2) as Ev4 by (unfold vals; by rewrite P2). split_and!; [done| |done|by rewrite P2|].
  - split.
    + rewrite P2, K2. apply list_filter_iff. intros x. simpl. by rewrite list_elem_of_singleton.
    + intros x y [= -> ->]%list_elem_of_singleton. done.
    + apply NoDup_singleton.
    + by rewrite Ev4.
    + intros x Hx%not_elem_of_cons. destruct Hx as [Hx _]. rewrite P3 by done. unfold queue_of. by rewrite K6.
    + etrans; [exact Ku|]. by apply undo_kept_env.
    + by rewrite P7.
  - intros x Hx. rewrite P2 in Hx. apply P5. by intros ->.
Qed.

(** One sleeper is done, with success or an error. *)
Lemma sleeper_off_ok q s :
  sok s → q ∈ sem_pending (sma s) →
  let e := queue_of s q in
  let '(error, s1) := try_atomic_semop (q_sops e) (q_undo e) (q_pid e) s in
  if 0 <? error then s1 = s ∧ blocked s q
  else
    let s2 := unlink_queue q s1 in
    let r := if negb (error =? 0) then (false, s2) else check_restart q s2 in
    let s4 := (wake_up_sem_queue_prepare [] q error r.2).2 in
    sok s4 ∧ updated s [(q, error)] s4 ∧ (r.1 = false → ∀ x, x ∈ sem_pending (sma s4) → blocked s x → blocked s4 x) ∧
    (∀ i, (∀ sop, sop ∈ q_sops e → sem_num sop ≠ i) → at_num (vals s4) i = at_num (vals s) i).
Proof.
  intros I Hq e. pose proof (s_entry _ I q Hq) as He. pose proof (try_ok (q_undo e) (q_pid e) (q_sops e) s (en_sops _ _ He)) as Ht.
  destruct (attempt _ _ _) as [v|err] eqn:Hgo.
  - destruct Ht as (s1 & -> & Ev & Er & Eu & Ea). cbn [Z.ltb Z.compare Z.eqb negb]. rewrite <- Ev in Hgo. specialize (λ H, Ea H (s_adj _ I)) as Hadj.
    destruct (restart_state s s1 q I Hq Hgo Er Eu) as (K1 & K2 & K3 & K4 & K5 & K6 & K7 & K8 & K9).
    destruct (restart_ok s s1 q I Hq Hgo Er Eu Hadj) as [R1 R2]. rewrite R1. set (s2 := unlink_queue q s1) in *.
    destruct (woken_off q 0 s s2 K1 Hq K2 K6 ltac:(etrans; [exact Eu|]; apply undo_kept_env; [by rewrite K5, (rest_frame _ _ Er)|by rewrite K4]) K5 ltac:(by left)) as (W1 & W2 & W3 & W4 & W5).
    { rewrite K3. exists (vals s1). split; [|done]. destruct (attempt_go _ _ _ _ (sop_lt _ _ _ (en_sops _ _ He)) (s_vals _ I) Hgo) as (_ & _ & _ & Hbad).
      rewrite <- Hgo. symmetry. by apply attempt_ext. }
    cbn zeta. split_and!; [done|done| |].
    + intros Hr x Hx Hb. apply W5; [done|]. rewrite W4 in Hx. by apply R2.
    + intros i Hi. rewrite W3, K3, K9. fold e. assert (sum_on i (q_sops e) = 0) as ->; [|lia]. clear -Hi. induction (q_sops e) as [|sop l IH]; [done|]. simpl.
      rewrite decide_False by (apply Hi; left). apply IH. intros; apply Hi; by right.
  - rewrite Ht. assert (err ≠ 0 ∧ (0 < err → err = 1)) as (Hne & H1) by (destruct (attempt_stop _ _ _ _ Hgo) as [->|[->| ->]]; unfold Err.EAGAIN, Err.ERANGE; lia).
    assert (Forall (λ x, x ≤ SEMVMX) (vals s)) as Hmax by (eapply Forall_impl; [apply I|simpl; lia]). pose proof (attempt_result _ _ _ _ _ Hmax Hgo) as H2. fold e in H2.
    destruct (Z.ltb_spec 0 err) as [Hp|Hp]; [split; [done|]; by rewrite (H1 Hp) in Hgo|].
    destruct (unlink_ok q s I Hq) as (K1 & K2 & K3 & K4 & K5). rewrite (proj2 (Z.eqb_neq err 0)) by done.
    cbn [negb fst snd]. set (s2 := unlink_queue q s) in *.
    destruct (woken_off q err s s2 K1 Hq K2 ltac:(by rewrite K4) ltac:(apply undo_kept_env; [done|by rewrite K4]) K5 (H2 Hp)) as (W1 & W2 & W3 & W4 & W5).
    { unfold ops_of. rewrite filter_cons_False; [exact K3|done]. }
    cbn zeta. split_and!; [done|done| |by rewrite W3, K3]. intros _ x Hx Hb. apply W5; [done|]. revert Hb.
    apply blocked_ext; [exact K3| |]; unfold adj_same, adjust, queue_of; by rewrite K4.
Qed.

(** ** [update_queue] *)

Lemma updated_entry s ws s' x : updated s ws s' → x ∈ sem_pending (sma s') → queue_of s' x = queue_of s x ∧ x ∈ sem_pending (sma s).
Proof. intros H. rewrite (up_pending _ _ _ H). intros [Hn Hx]%list_elem_of_filter. split; [by apply (up_queue _ _ _ H)|done]. Qed.
Lemma updated_nsems s ws s' : updated s ws s' → sem_nsems (sma s') = sem_nsems (sma s).
Proof. intros H. pose proof (up_frame _ _ _ H) as E. unfold frame in E. congruence. Qed.

Lemma pending_list_updated semnum s q err s' :
  sok s → sok s' → updated s [(q, err)] s' → (∀ n, semnum = Some n → (n < sem_nsems (sma s))%nat) →
  pending_list semnum s' = list_remove q (pending_list semnum s).
Proof.
  intros I I' H Hn. assert (sem_pending (sma s') = list_remove q (sem_pending (sma s))) as Hp.
  { rewrite (up_pending _ _ _ H). apply list_filter_iff. intros x. simpl. by rewrite list_elem_of_singleton. }
  destruct semnum as [n|]; simpl; [|done]. specialize (Hn n eq_refl). rewrite (s_simple _ I' n) by (by rewrite (updated_nsems _ _ _ H)).
  rewrite (s_simple _ I n Hn), <- remove_commute, Hp. rewrite <- Hp. clear Hp.
  assert (∀ x, x ∈ sem_pending (sma s') → simple_on s' n x ↔ simple_on s n x) as Hx.
  { intros x Hin. unfold simple_on. by destruct (updated_entry _ _ _ _ H Hin) as [-> _]. }
  induction (sem_pending (sma s')) as [|x l IH]; [done|]. rewrite !filter_cons, IH by (intros; apply Hx; by right).
  specialize (Hx x ltac:(left)). repeat case_decide; naive_solver.
Qed.

Lemma pending_list_sub semnum s x :
  sok s → (∀ n, semnum = Some n → (n < sem_nsems (sma s))%nat) → x ∈ pending_list semnum s →
  x ∈ sem_pending (sma s) ∧ ∀ n, semnum = Some n → simple_on s n x.
Proof.
  intros I Hn. destruct semnum as [n|]; simpl; [|done]. rewrite (s_simple _ I n) by auto. intros [? ?]%list_elem_of_filter. split; [done|]. by intros ? [= <-].
Qed.
Lemma pending_list_nodup semnum s : sok s → (∀ n, semnum = Some n → (n < sem_nsems (sma s))%nat) → NoDup (pending_list semnum s).
Proof. intros I Hn. destruct semnum as [n|]; simpl; [|apply I]. rewrite (s_simple _ I n) by auto. apply NoDup_filter, I. Qed.

Lemma pending_list_length semnum s :
  sok s → (∀ n, semnum = Some n → (n < sem_nsems (sma s))%nat) → (length (pending_list semnum s) ≤ length (sem_pending (sma s)))%nat.
Proof. intros I Hn. destruct semnum as [n|]; simpl; [|done]. rewrite (s_simple _ I n) by auto. apply length_filter. Qed.

Lemma remove_middle q l1 l2 : NoDup (l1 ++ q :: l2) → list_remove q (l1 ++ q :: l2) = l1 ++ l2.
Proof.
  intros H. apply NoDup_app in H as (H1 & H2 & H3). apply NoDup_cons in H3 as [H3 H4]. unfold list_remove. rewrite filter_app. fold (list_remove q l1).
  rewrite remove_absent by (intros Hq; apply (H2 q Hq); left). fold (list_remove q (q :: l2)). rewrite remove_cons, decide_True by done. by rewrite remove_absent.
Qed.

(** With the value zero, the tasks from the first on that changes the set sleep on. *)
Lemma rest_blocked s n pre q walk :
  sok s → complex_count (sma s) = 0 → (n < sem_nsems (sma s))%nat → simple_of s n = pre ++ q :: walk → value s n = 0 → q_alter (queue_of s q) = true →
  ∀ x, x ∈ q :: walk → blocked s x.
Proof.
  intros I Hc Hn El Hv Ha x Hx. assert (x ∈ simple_of s n) as Hin by (rewrite El; set_solver).
  destruct (pending_list_sub (Some n) s x I ltac:(congruence) Hin) as [Hxp Hxn]. specialize (Hxn n eq_refl).
  destruct (no_complex s I Hc x Hxp) as (sop & E1 & [_ E2] & _ & E4 & E5). apply (simple_blocked s x sop E1 E5).
  assert (sem_num sop = n) as -> by (destruct Hxn as [_ <-]; done). rewrite <- value_vals, Hv.
  assert (Forall (λ y, q_alter (queue_of s y) = true) (q :: walk)) as Hall.
  { apply (zeros_first_alter s pre); [|done]. rewrite <- El, (s_simple _ I n Hn). apply zeros_first_filter, I. }
  pose proof (proj1 (Forall_forall _ _) Hall x Hx) as Hxa. cbn beta in Hxa. rewrite (en_alter _ _ (s_entry _ I x Hxp)), E1 in Hxa. simpl in Hxa.
  rewrite orb_false_r in Hxa. apply negb_true_iff, Z.eqb_neq in Hxa. unfold blocks. apply orb_true_iff. right. apply Z.ltb_lt. lia.
Qed.

Lemma complex_updated s ws s' : sok s → sok s' → updated s ws s' → complex_count (sma s) = 0 → complex_count (sma s') = 0.
Proof.
  intros I I' H Hc. rewrite (s_count _ I'). assert (filter (complex s') (sem_pending (sma s')) = []) as ->; [|done].
  destruct (filter _ _) as [|x l] eqn:E; [done|]. assert (x ∈ filter (complex s') (sem_pending (sma s'))) as Hx by (rewrite E; left).
  apply list_elem_of_filter in Hx as [Hx1 Hx2]. destruct (updated_entry _ _ _ _ H Hx2) as [Eq Hx3]. destruct (no_complex s I Hc x Hx3) as (sop & Es & _).
  destruct Hx1. rewrite Eq. unfold nsops. by rewrite Es.
Qed.

(** Simple operations on other semaphores stay blocked. *)
Lemma others_blocked s ws s' n :
  sok s → sok s' → updated s ws s' → complex_count (sma s) = 0 → (n < sem_nsems (sma s))%nat →
  (∀ i, i ≠ n → at_num (vals s') i = at_num (vals s) i) →
  ∀ x, x ∈ sem_pending (sma s') → x ∉ simple_of s' n → blocked s x → blocked s' x.
Proof.
  intros I I' U Hc Hn Hv x Hx Hxn Hb. destruct (updated_entry _ _ _ _ U Hx) as [Eq Hxs]. destruct (no_complex s I Hc x Hxs) as (sop & E1 & E2 & E3 & E4 & E5).
  apply (simple_blocked s x sop E1 E5) in Hb. apply (simple_blocked s' x sop); [by rewrite Eq|done|]. rewrite Hv; [done|]. intros <-. destruct Hxn.
  rewrite (s_simple _ I') by (by rewrite (updated_nsems _ _ _ U)). apply list_elem_of_filter. split; [|done]. unfold simple_on. by rewrite Eq.
Qed.

(** What a scan of the list [semnum] does: nobody on it is left who could go on. *)
Record scanned (semnum : option nat) (s : sst) (ws : list (nat * Z)) (s' : sst) : Prop := {
  sc_ok : sok s';
  sc_updated : updated s ws s';
  sc_blocked : ∀ x, x ∈ pending_list semnum s' → blocked s' x;
  sc_local : ∀ n, semnum = Some n → ∀ i, i ≠ n → at_num (vals s') i = at_num (vals s) i
}.

Lemma update_walk_ok fuel : ∀ semnum walk completed pt s pre,
  sok s → (∀ n, semnum = Some n → complex_count (sma s) = 0 ∧ (n < sem_nsems (sma s))%nat) → pending_list semnum s = pre ++ walk →
  (∀ x, x ∈ pre → blocked s x) → (walk_fuel (length (sem_pending (sma s))) (length walk) ≤ fuel)%nat →
  ∃ c ws s', update_walk fuel semnum walk completed pt s = (c, pt ++ ws.*1, s') ∧ scanned semnum s ws s'.
Proof.
  induction fuel as [|fuel IH]; intros semnum walk completed pt s pre I Hn El Hb Hf; [unfold walk_fuel in Hf; lia|].
  assert (∀ n, semnum = Some n → (n < sem_nsems (sma s))%nat) as Hn' by (intros; by apply Hn).
  assert (∀ c : bool, (∀ x, x ∈ walk → blocked s x) → ∃ c' ws s', (c, pt, s) = (c', pt ++ ws.*1, s') ∧ scanned semnum s ws s') as Hdone.
  { intros c Hall. exists c, [], s. rewrite app_nil_r. split; [done|]. split; [done|apply updated_refl| |done]. rewrite El. intros x [?|?]%elem_of_app; auto. }
  cbn [update_walk]. destruct walk as [|q walk]; [apply Hdone; by intros x ?%not_elem_of_nil|].
  destruct (pending_list_sub semnum s q I Hn') as [Hq Hqn]; [rewrite El; set_solver|].
  pose proof (pending_list_nodup semnum s I Hn') as Hnd. rewrite El in Hnd.
  destruct (_ && q_alter (queue_of s q)) eqn:Ebr.
  { apply andb_true_iff in Ebr as [Ebr Ha]. destruct semnum as [n|]; [|done]. apply Z.eqb_eq in Ebr. destruct (Hn n eq_refl) as [Hc Hlt].
    apply Hdone. by apply (rest_blocked s n pre q walk). }
  clear Ebr. pose proof (sleeper_off_ok q s I Hq) as Ht. cbn zeta in Ht. destruct (try_atomic_semop _ _ _ s) as [err s1].
  destruct (Z.ltb_spec 0 err) as [_|Herr].
  { destruct Ht as [-> Hqb]. apply (IH _ _ _ _ _ (pre ++ [q])); [done|done|by rewrite <- app_assoc| |unfold walk_fuel in *; simpl in Hf; lia].
    intros x [Hx| ->%list_elem_of_singleton]%elem_of_app; auto. }
  destruct (if negb (err =? 0) then _ else _) as [restart s3]. simpl in Ht. simpl.
  set (s4 := upd_queue _ _ s3) in *. destruct Ht as (I4 & U4 & B4 & L4).
  pose proof (pending_list_updated semnum s q err s4 I I4 U4 Hn') as El4. rewrite El, remove_middle in El4 by done.
  assert (∀ n, semnum = Some n → complex_count (sma s4) = 0 ∧ (n < sem_nsems (sma s4))%nat) as Hn4.
  { intros n Hs. destruct (Hn n Hs). split; [by apply (complex_updated s [(q, err)] s4)|by rewrite (updated_nsems _ _ _ U4)]. }
  assert (S (length (sem_pending (sma s4))) = length (sem_pending (sma s))) as Hlen.
  { rewrite (up_pending _ _ _ U4). rewrite <- (remove_length q (sem_pending (sma s))) by (done || apply I). do 2 f_equal. apply list_filter_iff.
    intros x. simpl. by rewrite list_elem_of_singleton. }
  assert (∃ c ws s', update_walk fuel semnum (if restart : bool then pending_list semnum s4 else walk) (completed || (err =? 0)) (pt ++ [q]) s4 =
    (c, (pt ++ [q]) ++ ws.*1, s') ∧ scanned semnum s4 ws s') as (c & ws & s' & E & [S1 S2 S3 S4]).
  { destruct restart; [apply (IH _ _ _ _ _ [])|apply (IH _ _ _ _ _ pre)]; try done.
    - by intros x ?%not_elem_of_nil.
    - pose proof (pending_list_length semnum s4 I4 ltac:(intros; by apply Hn4)). unfold walk_fuel in *. simpl in Hf. nia.
    - intros x Hx. apply B4; [done| |by apply Hb]. apply (pending_list_sub semnum s4 x I4); [intros; by apply Hn4|]. rewrite El4. set_solver.
    - unfold walk_fuel in *. simpl in Hf. nia. }
  exists c, ((q, err) :: ws), s'. rewrite E. rewrite <- app_assoc. split; [done|]. split; [done|by apply (updated_trans s [(q, err)] s4)|done|].
  intros n Hs i Hi. rewrite (S4 n Hs i Hi). apply L4. intros sop Hsop. destruct (Hn n Hs) as [Hc _]. destruct (no_complex s I Hc q Hq) as (sop' & E1 & [_ E2] & _).
  rewrite E1 in Hsop. apply list_elem_of_singleton in Hsop as ->. destruct (Hqn n Hs) as [_ E3]. congruence.
Qed.

Lemma update_queue_ok semnum pt s :
  sok s → (∀ n, semnum = Some n → complex_count (sma s) = 0 ∧ (n < sem_nsems (sma s))%nat) →
  ∃ c ws s', update_queue semnum pt s = (c, pt ++ ws.*1, s') ∧ scanned semnum s ws s'.
Proof.
  intros I Hn. unfold update_queue. assert ((if negb (complex_count (sma s) =? 0) then None else semnum) = semnum) as ->.
  { destruct semnum as [n|]; [|by case_match]. destruct (Hn n eq_refl) as [-> _]. done. }
  apply (update_walk_ok _ _ _ _ _ _ []); [done|done|done|by intros x ?%not_elem_of_nil|].
  pose proof (pending_list_length semnum s I ltac:(intros; by apply Hn)). unfold walk_fuel. lia.
Qed.

(** ** [do_smart_update] *)

(** A sleeper in a simple operation that one of the operations [sops] may have
    let go on. *)
Definition triggered (s : sst) (sops : list sembuf) (x : nat) : Prop :=
  ∃ sop sx, sop ∈ sops ∧ q_sops (queue_of s x) = [sx] ∧ sem_num sx = sem_num sop ∧
    (0 < sem_op sop ∨ sem_op sop < 0 ∧ value s (sem_num sop) = 0).

Lemma triggered_kept s ws s' sop sops x :
  sok s' → updated s ws s' → (sem_num sop < sem_nsems (sma s))%nat → (∀ i, i ≠ sem_num sop → at_num (vals s') i = at_num (vals s) i) →
  x ∈ sem_pending (sma s') → x ∉ simple_of s' (sem_num sop) → triggered s (sop :: sops) x → triggered s' sops x.
Proof.
  intros I' U Hn Hv Hx Hxn (sop' & sx & Hin & E1 & E2 & E3). destruct (updated_entry _ _ _ _ U Hx) as [Eq _].
  assert (sem_num sx ≠ sem_num sop) as Hne.
  { intros E. destruct Hxn. rewrite (s_simple _ I') by (by rewrite (updated_nsems _ _ _ U)). apply list_elem_of_filter. split; [|done].
    unfold simple_on, nsops, first_num. by rewrite Eq, E1. }
  exists sop', sx. rewrite Eq. apply elem_of_cons in Hin as [->|Hin]; [congruence|]. split_and!; [done|done|done|].
  destruct E3 as [|[E4 E5]]; [by left|]. right. split; [done|]. rewrite value_vals, Hv by congruence. by rewrite <- value_vals.
Qed.

Lemma smart_ops_ok sops : ∀ otime pt s,
  sok s → complex_count (sma s) = 0 → Forall (λ sop, sem_num sop < sem_nsems (sma s))%nat sops →
  (∀ x, x ∈ sem_pending (sma s) → blocked s x ∨ triggered s sops x) →
  ∃ o ws s', smart_ops sops otime pt s = (o, pt ++ ws.*1, s') ∧ sem_ok s' ∧ updated s ws s'.
Proof.
  induction sops as [|sop sops IH]; intros otime pt s I Hc Hn Hb; simpl.
  { exists otime, [], s. rewrite app_nil_r. split_and!; [done| |apply updated_refl]. split; [done|]. intros x Hx. destruct (Hb x Hx) as [?|(? & ? & ?%not_elem_of_nil & _)]; done. }
  apply Forall_cons in Hn as [Hlt Hn]. destruct (_ || _) eqn:Et.
  - destruct (update_queue_ok (Some (sem_num sop)) pt s I) as (c & ws & s1 & -> & [I1 U1 B1 V1]); [by intros n [= <-]|].
    destruct (IH (otime || c) (pt ++ ws.*1) s1 I1) as (o & ws2 & s2 & -> & K2 & U2).
    + by apply (complex_updated s ws s1).
    + by rewrite (updated_nsems _ _ _ U1).
    + intros x Hx. destruct (decide (x ∈ simple_of s1 (sem_num sop))) as [Hin|Hin]; [left; by apply B1|].
      destruct (updated_entry _ _ _ _ U1 Hx) as [Eq Hxs]. destruct (Hb x Hxs) as [Hbx|Htr]; [left; apply (others_blocked s ws s1 (sem_num sop) I I1 U1 Hc Hlt (V1 _ eq_refl) x Hx Hin Hbx)|].
      right. apply (triggered_kept s ws s1 sop sops x); try done. by apply V1.
    + exists o, (ws ++ ws2), s2. rewrite fmap_app, app_assoc. split_and!; [done|done|by apply (updated_trans s ws s1)].
  - apply IH; [done|done|done|]. intros x Hx. destruct (Hb x Hx) as [?|(sop' & sx & [->|Hin]%elem_of_cons & E1 & E2 & E3)]; [by left| |by right; exists sop', sx].
    exfalso. apply orb_false_iff in Et as [E4%Z.ltb_ge E5]. destruct E3 as [?|[E6 E7]]; [lia|]. rewrite E7, (proj2 (Z.ltb_lt _ _) E6) in E5. done.
Qed.

Lemma sem_ok_same s s' :
  vals s' = vals s → sem_nsems (sma s') = sem_nsems (sma s) → sem_pending (sma s') = sem_pending (sma s) → (∀ i, simple_of s' i = simple_of s i) →
  complex_count (sma s') = complex_count (sma s) → (∀ q, q ∈ sem_pending (sma s) → same_entry (queue_of s q) (queue_of s' q)) →
  list_id (sma s') = list_id (sma s) → undos (env s') = undos (env s) → sem_ok s → sem_ok s'.
Proof.
  intros Ev En Ep Es Ec Hq El Eu [I B]. assert (undo_kept s s') as Hu by (by apply undo_kept_same).
  split; [apply (sok_change s); try done; rewrite Ev; apply I|]. rewrite Ep. intros q Hin. specialize (B q Hin). destruct (Hq q Hin) as (E1 & E2 & _).
  unfold blocked in *. rewrite Ev, E1, E2, <- B. apply attempt_ext. intros sop _. unfold bad_undo, undo_exceeds, adjust. by rewrite Eu.
Qed.

Lemma stamp_ok s ws s' o c :
  sem_ok s' → updated s ws s' → let s2 := set_sma (λ a, with_times (o a) (c a) a) s' in sem_ok s2 ∧ updated s ws s2.
Proof.
  intros O U. split; [by apply (sem_ok_same s')|]. destruct U. split; try done. etrans; [eassumption|]. by apply undo_kept_same.
Qed.

Lemma smart_none_ok o pt s : sok s → ∃ ws s', do_smart_update None o pt s = (pt ++ ws.*1, s') ∧ sem_ok s' ∧ updated s ws s'.
Proof.
  intros I. unfold do_smart_update. destruct (update_queue_ok None pt s I ltac:(done)) as (c & ws & s' & -> & [I' U B _]).
  assert (sem_ok s') as O by done. destruct (o || c); [|by exists ws, s'].
  eexists ws, _. split; [done|]. by apply (stamp_ok s ws s' (λ _, now (env s')) sem_ctime).
Qed.

(** After an operation succeeded, whoever may go on is triggered by it. *)
Lemma op_triggers bad sops s0 s :
  sem_ok s0 → Forall (λ sop, sem_num sop < length (vals s0))%nat sops → attempt bad sops (vals s0) = Go (vals s) → rest s = rest s0 → undo_kept s0 s → complex_count (sma s) = 0 →
  ∀ x, x ∈ sem_pending (sma s) → blocked s x ∨ triggered s sops x.
Proof.
  intros [I0 B0] Hn Hgo Hr Hu Hc x Hx. destruct (attempt_go _ _ _ _ Hn (s_vals _ I0) Hgo) as (G1 & G2 & G3 & _).
  destruct (rest_fields _ _ Hr) as (_ & R2 & _ & R4). pose proof (sok_rest _ _ Hr G2 Hu I0) as I.
  destruct (no_complex s I Hc x Hx) as (sx & E1 & _ & _ & E4 & E5). rewrite (simple_blocked s x sx E1 E5).
  assert (queue_of s0 x = queue_of s x) as Eq by (unfold queue_of; by rewrite R4). rewrite R2 in Hx. specialize (B0 x Hx).
  apply (simple_blocked s0 x sx) in B0; [|by rewrite Eq|done]. specialize (G3 (sem_num sx)).
  destruct (decide (Exists (λ sop, sem_num sop = sem_num sx ∧ 0 < sem_op sop) sops)) as [Hpos|Hpos].
  { apply Exists_exists in Hpos as (sop & Hin & Hs & Hp). right. exists sop, sx. auto. }
  assert (sum_on (sem_num sx) sops ≤ 0 ∧ (sum_on (sem_num sx) sops < 0 → Exists (λ sop, sem_num sop = sem_num sx ∧ sem_op sop < 0) sops)) as [Hs1 Hs2].
  { clear -Hpos. induction sops as [|sop sops IH]; [done|]. rewrite Exists_cons in Hpos. destruct IH as [IH1 IH2]; [naive_solver|]. simpl. case_decide as E; split; [| |lia|].
    - destruct (decide (0 < sem_op sop)); [naive_solver|lia].
    - intros Hlt. destruct (decide (sem_op sop < 0)); [left; done|]. right. apply IH2. lia.
    - intros Hlt. right. apply IH2. lia. }
  destruct (decide (sum_on (sem_num sx) sops = 0)) as [E0|Hne]; [left; by rewrite G3, E0, Z.add_0_r|].
  specialize (Hs2 ltac:(lia)). apply Exists_exists in Hs2 as (sop & Hin & Hs & Hneg).
  destruct (decide (value s (sem_num sx) = 0)) as [Hv|Hv]; [right; exists sop, sx; split_and!; try done; right; by rewrite Hs|]. left. rewrite value_vals in Hv.
  unfold blocks in *. rewrite orb_true_iff, andb_true_iff, negb_true_iff, Z.eqb_eq, Z.eqb_neq, Z.ltb_lt in B0 |- *. rewrite G3 in *. destruct B0 as [[? ?]|?]; [left; auto|right; lia].
Qed.

Lemma smart_some_ok bad sops o pt s0 s :
  sem_ok s0 → Forall (λ sop, sem_num sop < length (vals s0))%nat sops → attempt bad sops (vals s0) = Go (vals s) → rest s = rest s0 → undo_kept s0 s →
  ∃ ws s', do_smart_update (Some sops) o pt s = (pt ++ ws.*1, s') ∧ sem_ok s' ∧ updated s ws s'.
Proof.
  intros O Hn Hgo Hr Hu. destruct (attempt_go _ _ _ _ Hn (s_vals _ (proj1 O)) Hgo) as (G1 & G2 & _). pose proof (sok_rest _ _ Hr G2 Hu (proj1 O)) as I.
  unfold do_smart_update. destruct (Z.eqb_spec (complex_count (sma s)) 0) as [Hc|Hc]; cbn [negb]; [|by apply (smart_none_ok o pt s)].
  destruct (smart_ops_ok sops o pt s I Hc) as (o' & ws & s' & -> & O' & U).
  { eapply Forall_impl; [exact Hn|]. intros x. rewrite length_vals, (rest_nsems _ _ Hr). done. }
  { by apply (op_triggers bad sops s0). }
  destruct o'; [|by exists ws, s']. eexists ws, _. split; [done|]. by apply (stamp_ok s ws s' (λ _, now (env s')) sem_ctime).
Qed.
