(* ===== verification/SysvSemOps.v ===== *)
(** * System V semaphores: the system calls on a set (ipc/sem.c)

    [semop], [semctl] and the adjustments at the end of a process keep the
    invariant of a set: whoever sleeps has to.  Each call is described by the
    operations it performs, one after the other: that of the caller, and then
    those of the tasks it lets go on. *)

From stdpp Require Import functions.
From S2P Require Import Prelude SysvSem SysvSemInv.

(** What no call on a set changes. *)
Definition shell (s : sst) := (perm_id (sma s), perm_seq (sma s), sem_nsems (sma s), list_id (sma s), now (env s), current_pid (env s), bugs (env s)).

(** From [s] to [s'] the operations [own] are performed and then those of the
    tasks among [ws] that get no error; all of [ws] are woken. *)
Record finished (own : list (list sembuf)) (s : sst) (ws : list (nat * Z)) (s' : sst) : Prop := {
  fn_ok : sem_ok s';
  fn_pending : sem_pending (sma s') = filter (λ q, q ∉ ws.*1) (sem_pending (sma s));
  fn_woken : ∀ q e, (q, e) ∈ ws → q ∈ sem_pending (sma s) ∧ result_of (q_sops (queue_of s q)) e ∧ q_status (queue_of s' q) = e ∧ awake (env s') q = true;
  fn_nodup : NoDup ws.*1;
  fn_vals : performs (vals s) (own ++ ops_of s ws) (vals s');
  fn_others : ∀ q, q ∉ ws.*1 → queue_of s' q = queue_of s q ∧ awake (env s') q = awake (env s) q;
  fn_undo : undo_kept s s';
  fn_shell : shell s' = shell s
}.

(** ** Waking *)

Definition told (e : sem_queue) : sem_queue := mk_queue (q_sops e) (q_undo e) (q_pid e) (q_pid e) (q_alter e).

Lemma wake_do_state pt : ∀ s,
  let s' := wake_up_sem_queue_do pt s in
  sma s' = sma s ∧ undos (env s') = undos (env s) ∧ (now (env s'), current_pid (env s'), bugs (env s')) = (now (env s), current_pid (env s), bugs (env s)) ∧
  (∀ q, queue_of s' q = if decide (q ∈ pt) then told (queue_of s q) else queue_of s q) ∧
  (∀ q, awake (env s') q = if decide (q ∈ pt) then true else awake (env s) q).
Proof.
  induction pt as [|x pt IH]; intros s; [by split_and!|]. cbn zeta. change (wake_up_sem_queue_do (x :: pt) s) with (wake_up_sem_queue_do pt (wake_one s x)).
  destruct (IH (wake_one s x)) as (H1 & H2 & H3 & H4 & H5). split_and!; [done|done|done| |]; intros q.
  - rewrite H4. unfold queue_of, wake_one. simpl. destruct (decide (q = x)) as [->|Hne].
    + rewrite fn_lookup_insert. rewrite (decide_True (P := x ∈ x :: pt)) by left. by case_decide.
    + rewrite fn_lookup_insert_ne by done. by rewrite (decide_ext (q ∈ x :: pt) (q ∈ pt)) by (rewrite elem_of_cons; naive_solver).
  - rewrite H5. unfold wake_one. simpl. destruct (decide (q = x)) as [->|Hne].
    + rewrite fn_lookup_insert. rewrite (decide_True (P := x ∈ x :: pt)) by left. by case_decide.
    + rewrite fn_lookup_insert_ne by done. by rewrite (decide_ext (q ∈ x :: pt) (q ∈ pt)) by (rewrite elem_of_cons; naive_solver).
Qed.

Lemma wake_do_ok s ws s' : sem_ok s' → updated s ws s' → finished [] s ws (wake_up_sem_queue_do ws.*1 s').
Proof.
  intros O U. destruct (wake_do_state ws.*1 s') as (H1 & H2 & H3 & H4 & H5). set (s2 := wake_up_sem_queue_do _ s') in *.
  assert (∀ q, q ∈ sem_pending (sma s') → q ∉ ws.*1) as Hd.
  { intros q Hq. rewrite (up_pending _ _ _ U) in Hq. by apply list_elem_of_filter in Hq as [? _]. }
  pose proof (up_frame _ _ _ U) as Ef. unfold frame in Ef. split.
  - apply (sem_ok_same s'); unfold vals, simple_of; rewrite ?H1; try done. intros q Hq. rewrite H4, decide_False; [done|by apply Hd].
  - rewrite H1. apply U.
  - intros q e Hin. destruct (up_woken _ _ _ U q e Hin) as (? & ? & Hp). assert (q ∈ ws.*1) as Hq by (by apply (list_elem_of_fmap_2 fst ws (q, e))).
    rewrite H4, H5, !decide_True by done. done.
  - apply U.
  - unfold vals. rewrite H1. apply U.
  - intros q Hq. rewrite H4, H5, !decide_False by done. split; [by apply (up_queue _ _ _ U)|]. congruence.
  - etrans; [apply U|]. apply undo_kept_same; [by rewrite H1|done].
  - unfold shell. rewrite H1. congruence.
Qed.

Lemma finished_nothing s : sem_ok s → finished [] s [] s.
Proof.
  intros O. pose proof (up_pending _ _ _ (updated_refl s)). split; try done; [by intros ? ? ?%not_elem_of_nil|constructor].
Qed.

(** ** [semop] *)

(** The undo structure of a call that needs one is one of the set. *)
Definition undo_fits (un : option nat) (s : sst) (sops : list sembuf) : Prop :=
  ∀ sop, sop ∈ sops → has_flag SEM_UNDO sop = true → ∃ u, un = Some u ∧ u ∈ list_id (sma s) ∧ length (semadj (undos (env s) u)) = sem_nsems (sma s).

Lemma max_num_lt sops n : sops ≠ [] → (max_num sops < n)%nat → Forall (λ sop, sem_num sop < n)%nat sops.
Proof.
  intros _. induction sops as [|sop sops IH]; [constructor|]. simpl. intros H. constructor; [lia|]. apply IH. lia.
Qed.

Lemma sops_ok un s sops : undo_fits un s sops → Forall (λ sop, sem_num sop < sem_nsems (sma s))%nat sops → Forall (sop_ok un s) sops.
Proof.
  intros Hu Hn. apply Forall_forall. intros sop Hin. pose proof (proj1 (Forall_forall _ _) Hn sop Hin) as Hlt. split; [done|]. intros Hf.
  destruct (Hu sop Hin Hf) as (u & ? & ? & El). exists u. split_and!; [done|done|]. by rewrite El.
Qed.

(** The caller is put on the queues and sleeps. *)
Record slept (t : nat) (sops : list sembuf) (un : option nat) (s s' : sst) : Prop := {
  sl_ok : sem_ok s';
  sl_pending : sem_pending (sma s') = add_waiter (alters sops) t (sem_pending (sma s));
  sl_vals : vals s' = vals s;
  sl_task : q_status (queue_of s' t) = - Err.EINTR ∧ q_sops (queue_of s' t) = sops ∧ q_undo (queue_of s' t) = un ∧ awake (env s') t = false;
  sl_others : ∀ q, q ≠ t → queue_of s' q = queue_of s q ∧ awake (env s') q = awake (env s) q;
  sl_undos : undos (env s') = undos (env s);
  sl_shell : shell s' = shell s
}.

Lemma filter_waiter (P : nat → Prop) `{∀ x, Decision (P x)} a t l :
  filter P (add_waiter a t l) = if decide (P t) then add_waiter a t (filter P l) else filter P l.
Proof.
  unfold add_waiter. destruct a; rewrite ?filter_app, ?filter_cons; case_decide; try done. by rewrite app_nil_r.
Qed.
Lemma elem_of_waiter a t l x : x ∈ add_waiter a t l ↔ x = t ∨ x ∈ l.
Proof. unfold add_waiter. destruct a; [rewrite elem_of_app, list_elem_of_singleton|rewrite elem_of_cons]; naive_solver. Qed.

Lemma stop_calm bad sop v :
  Forall (λ x, 0 ≤ x ≤ SEMVMX) v → attempt bad [sop] v = Stop 1 → sem_op sop ≤ 0 ∧ has_flag IPC_NOWAIT sop = false.
Proof.
  intros Hv. simpl. destruct (blocks _ _) eqn:Eb; [|by destruct (_ || _)]. unfold block_code. destruct (has_flag IPC_NOWAIT sop); [done|]. intros _. split; [|done].
  assert (0 ≤ at_num v (sem_num sop)). { unfold at_num. destruct (v !! _) as [x|] eqn:E; simpl; [|lia]. by eapply Forall_lookup_1 in Hv as [? _]. }
  unfold blocks in Eb. rewrite orb_true_iff, andb_true_iff, Z.eqb_eq, Z.ltb_lt in Eb. lia.
Qed.

(** The fields of the state when the task sleeps. *)
Lemma sleep_on_state t sops un s :
  let s' := sleep_on t sops un s in
  let e := mk_queue sops un (current_pid (env s)) (- Err.EINTR) (alters sops) in
  (∀ q, queue_of s' q = if decide (q = t) then e else queue_of s q) ∧ (∀ q, awake (env s') q = if decide (q = t) then false else awake (env s) q) ∧
  vals s' = vals s ∧ sem_pending (sma s') = add_waiter (alters sops) t (sem_pending (sma s)) ∧ undos (env s') = undos (env s) ∧ shell s' = shell s ∧
  (∀ i, (i < sem_nsems (sma s))%nat →
    simple_of s' i = if decide (nsops e = 1%nat ∧ first_num e = i) then add_waiter (alters sops) t (simple_of s i) else simple_of s i) ∧
  complex_count (sma s') = complex_count (sma s) + (if decide (nsops e = 1%nat) then 0 else 1).
Proof.
  unfold sleep_on. set (e := mk_queue sops un _ _ _). set (s1 := upd_queue t (λ _, e) s). set (s2 := set_sma _ s1). cbn zeta.
  assert (∀ q, queue_of s1 q = if decide (q = t) then e else queue_of s q) as Hq.
  { intros q. unfold queue_of, s1. simpl. case_decide as E; [subst q; by rewrite fn_lookup_insert|by rewrite fn_lookup_insert_ne]. }
  assert (∀ x q, awake (env (set_awake t false x)) q = if decide (q = t) then false else awake (env x) q) as Haw.
  { intros x q. simpl. case_decide as E; [subst q; by rewrite fn_lookup_insert|by rewrite fn_lookup_insert_ne]. }
  change (queue_of s2 t) with (queue_of s1 t). rewrite Hq, (decide_True (P := t = t)) by done. change (length sops) with (nsops e).
  destruct (Nat.eqb_spec (nsops e) 1) as [En|En]; split_and!; try done; try (intros q; rewrite Haw; done).
  - by apply (vals_upd_same _ _ s2).
  - unfold shell, sem_nsems, upd_sem. simpl. by rewrite length_alter.
  - intros i Hi. change (simple_of (set_awake t false ?x) i) with (simple_of x i). rewrite simple_upd_sem. change (sem_base (sma s2)) with (sem_base (sma s)).
    unfold simple_of. unfold sem_nsems in Hi. apply lookup_lt_is_Some_2 in Hi as [m ->]. destruct (decide (first_num e = i)) as [Ei|Ei].
    + by rewrite decide_True.
    + rewrite decide_False; [done|naive_solver].
  - rewrite decide_True by done. simpl. lia.
  - intros i Hi. rewrite decide_False; [done|naive_solver].
  - by rewrite decide_False.
Qed.

(** Who goes to sleep has to. *)
Lemma sleep_on_ok t sops un s :
  sem_ok s → t ∉ sem_pending (sma s) → sops ≠ [] → Forall (sop_ok un s) sops → attempt (bad_undo un s) sops (vals s) = Stop 1 →
  slept t sops un s (sleep_on t sops un s).
Proof.
  intros [I B] Ht Hne Hok Hst. destruct (sleep_on_state t sops un s) as (H1 & H2 & H3 & H4 & H5 & H6 & H7 & H8).
  set (s' := sleep_on t sops un s) in *. set (e := mk_queue _ _ _ _ _) in *.
  assert (∀ q, q ∈ sem_pending (sma s) → queue_of s' q = queue_of s q) as Hq by (intros q Hin; rewrite H1, decide_False; [done|by intros ->]).
  assert (queue_of s' t = e) as Het by (by rewrite H1, decide_True).
  assert (list_id (sma s') = list_id (sma s) ∧ sem_nsems (sma s') = sem_nsems (sma s)) as [El En] by (unfold shell in H6; split; congruence).
  assert (undo_kept s s') as Hu by (by apply undo_kept_same).
  assert (∀ (P P' : nat → Prop) `{∀ x, Decision (P x)} `{∀ x, Decision (P' x)}, (∀ q, q ∈ sem_pending (sma s) → P' q ↔ P q) →
    filter P' (sem_pending (sma s')) = if decide (P' t) then add_waiter (alters sops) t (filter P (sem_pending (sma s))) else filter P (sem_pending (sma s))) as Hf.
  { intros P P' D D' HP. rewrite H4, filter_waiter. assert (filter P' (sem_pending (sma s)) = filter P (sem_pending (sma s))) as ->; [|done].
    clear -HP. induction (sem_pending (sma s)) as [|x l IH]; [done|]. rewrite !filter_cons, IH by (intros; apply HP; by right).
    specialize (HP x ltac:(left)). repeat case_decide; naive_solver. }
  assert (sok s') as I'.
  { split.
    - rewrite H3. apply I.
    - rewrite H4. unfold add_waiter. destruct (alters sops); [|apply NoDup_cons; split; [done|apply I]].
      apply NoDup_app. split_and!; [apply I| |apply NoDup_singleton]. by intros x Hx ->%list_elem_of_singleton.
    - destruct (s_first _ I) as (zs & als & Ez & Hz & Ha). rewrite H4, Ez. unfold add_waiter. assert (∀ x, x ∈ zs ++ als → queue_of s' x = queue_of s x) as Hx by (rewrite <- Ez; exact Hq).
      assert (Forall (λ x, q_alter (queue_of s' x) = false) zs ∧ Forall (λ x, q_alter (queue_of s' x) = true) als) as [Hz' Ha'].
      { split; apply Forall_forall; intros x Hin; rewrite Hx by (apply elem_of_app; auto); [by eapply Forall_forall in Hz|by eapply Forall_forall in Ha]. }
      destruct (alters sops) eqn:Ea; [exists zs, (als ++ [t])|exists (t :: zs), als]; (split; [by rewrite ?app_assoc|]); split; try done.
      + apply Forall_app. split; [done|]. apply Forall_singleton. by rewrite Het.
      + constructor; [by rewrite Het|done].
    - rewrite En. intros i Hi. rewrite H7 by done. rewrite (Hf (simple_on s i) (simple_on s' i) _ _).
      + rewrite (s_simple _ I i Hi). assert (simple_on s' i t ↔ nsops e = 1%nat ∧ first_num e = i) as Hs by (unfold simple_on; by rewrite Het).
        by rewrite (decide_ext _ _ _ _ Hs).
      + intros q Hin. unfold simple_on. by rewrite Hq.
    - rewrite (Hf (complex s) (complex s') _ _) by (intros q Hin; unfold complex; by rewrite Hq). rewrite H8, (s_count _ I). assert (complex s' t ↔ nsops e ≠ 1%nat) as Hc by (unfold complex; by rewrite Het).
      repeat case_decide; try tauto; [lia|]. unfold add_waiter. destruct (alters sops); [rewrite length_app|]; simpl; lia.
    - intros q. rewrite H4, elem_of_waiter. intros [->|Hin].
      + rewrite Het. split; try done; [eapply Forall_impl; [exact Hok|]; intros x; by apply sop_ok_kept|].
        simpl. intros sop ->. by eapply stop_calm; [apply I|].
      + rewrite Hq by done. eapply entry_kept; [done|done|done|by apply I].
    - exact (uk_range _ _ Hu (s_adj _ I)). }
  assert (∀ sop v, bad_undo v s' sop = bad_undo v s sop) as Hbad by (intros sop v; unfold bad_undo, undo_exceeds, adjust; by rewrite H5).
  split; try done.
  - split; [done|]. intros q. rewrite H4, elem_of_waiter. unfold blocked. rewrite H3. intros [->|Hin].
    + rewrite Het. simpl. rewrite <- Hst. by apply attempt_ext.
    + rewrite Hq by done. rewrite <- (B q Hin). by apply attempt_ext.
  - rewrite Het, H2, decide_True by done. done.
  - intros q Hqt. rewrite H1, H2, !decide_False by done. done.
Qed.

(** [semop]: the operations are done and whoever can go on does, or the caller
    sleeps, or there is an error and nothing happens. *)
Lemma semop_locked_ok t sops un access s :
  sem_ok s → t ∉ sem_pending (sma s) → sops ≠ [] → undo_fits un s sops →
  let '(r, s') := semop_locked t sops un access s in
  match r with
  | None => slept t sops un s s'
  | Some e => if decide (e = 0) then ∃ ws, finished [sops] s ws s' else s' = s
  end.
Proof.
  intros O Ht Hne Hu. unfold semop_locked. destruct (match un with Some u => _ | None => false end); [done|].
  destruct (Nat.leb_spec (sem_nsems (sma s)) (max_num sops)) as [|Hmax]; [done|]. destruct (Z.eqb_spec access 0) as [|Hacc]; cbn [negb]; [|by rewrite decide_False].
  pose proof (max_num_lt sops _ Hne Hmax) as Hn. pose proof (sops_ok un s sops Hu Hn) as Hok. pose proof (try_ok un (current_pid (env s)) sops s Hok) as Htry.
  assert (Forall (λ sop, sem_num sop < length (vals s))%nat sops) as Hlt by (by rewrite length_vals).
  destruct (attempt (bad_undo un s) sops (vals s)) as [v|err] eqn:Hgo.
  - destruct Htry as (s1 & -> & Ev & Er & Euk & Ea). rewrite <- Ev in Hgo. cbn [Z.leb Z.compare Z.eqb]. rewrite andb_true_r.
    destruct (attempt_go _ _ _ _ Hlt (s_vals _ (proj1 O)) Hgo) as (_ & G2 & _ & Hbad). destruct (rest_fields _ _ Er) as (_ & R2 & _ & R4).
    assert (attempt (λ _, false) sops (vals s) = Go (vals s1)) as Hgo'.
    { rewrite <- Hgo. apply attempt_ext. intros sop Hin. by rewrite Hbad. }
    assert (∃ tasks ws s2, (if alters sops then do_smart_update (Some sops) true [] s1 else ([], s1)) = (tasks, s2) ∧ tasks = ws.*1 ∧ sem_ok s2 ∧ updated s1 ws s2)
      as (tasks & ws & s2 & -> & -> & O2 & U2).
    { destruct (alters sops) eqn:Eal.
      - destruct (smart_some_ok _ sops true [] s s1 O Hlt Hgo Er Euk) as (ws & s2 & -> & ? & ?). by exists ws.*1, ws, s2.
      - exists [], [], s1. split_and!; [done|done| |apply updated_refl]. split; [by eapply sok_rest; [..|apply O]|]. rewrite R2. intros q Hq.
        apply (blocked_ext s); [by eapply vals_unchanged; [..|exact Hgo|]; [done|apply O|]|by apply Ea; [|apply O]|unfold queue_of; by rewrite R4|by apply O]. }
    destruct (wake_do_ok s1 ws s2 O2 U2) as [F1 F2 F3 F4 F5 F6 F7 F8]. rewrite decide_True by done. exists ws.
    assert (∀ q, queue_of s1 q = queue_of s q) as Eq by (intros q; unfold queue_of; by rewrite R4). pose proof (rest_frame _ _ Er) as Ef. unfold frame in Ef.
    split; try done.
    + by rewrite F2, R2.
    + intros q c. rewrite <- R2, <- Eq. apply F3.
    + exists (vals s1). split; [done|]. unfold ops_of in F5. simpl in F5. by setoid_rewrite Eq in F5.
    + intros q Hq. destruct (F6 q Hq) as [-> ->]. split; [done|]. congruence.
    + by etrans.
    + rewrite F8. unfold shell. congruence.
  - rewrite Htry. destruct (attempt_stop _ _ _ _ Hgo) as [->|[->| ->]]; [by apply sleep_on_ok| |]; simpl; by rewrite andb_false_r.
Qed.

(** ** Being interrupted *)

Lemma unlink_sem_ok q s : sem_ok s → q ∈ sem_pending (sma s) → sem_ok (unlink_queue q s).
Proof.
  intros [I B] Hq. destruct (unlink_ok q s I Hq) as (U1 & U2 & U3 & U4 & U5). split; [done|]. rewrite U2. intros x [_ Hx]%elem_of_remove.
  apply (blocked_ext s); [done| | |by apply B]; unfold adj_same, adjust, queue_of; by rewrite U4.
Qed.

(** ** [semctl] *)

(** The undo structures of the set have an entry for every semaphore. *)
Definition undo_sized (s : sst) : Prop := ∀ u, u ∈ list_id (sma s) → length (semadj (undos (env s) u)) = sem_nsems (sma s).
Definition sem_inv (s : sst) : Prop := sem_ok s ∧ undo_sized s.

Lemma undo_sized_kept s s' : undo_kept s s' → sem_nsems (sma s') = sem_nsems (sma s) → undo_sized s → undo_sized s'.
Proof. intros H E Hs u. rewrite (uk_list _ _ H), (uk_length _ _ H), E. apply Hs. Qed.

Lemma each_undo_state f s :
  let s' := each_undo f s in
  sma s' = sma s ∧ queues (env s') = queues (env s) ∧ awake (env s') = awake (env s) ∧
  (now (env s'), current_pid (env s'), bugs (env s')) = (now (env s), current_pid (env s), bugs (env s)) ∧
  (∀ u, u ∉ list_id (sma s) → undos (env s') u = undos (env s) u) ∧
  (∀ u, (∀ x, f (f x) = f x) → u ∈ list_id (sma s) → undos (env s') u = f (undos (env s) u)).
Proof.
  cbn zeta. unfold each_undo. generalize (list_id (sma s)) as l. intros l. revert s. induction l as [|x l IH]; intros s.
  { split_and!; try done. by intros u _ ?%not_elem_of_nil. }
  simpl. destruct (IH (upd_undo x f s)) as (H1 & H2 & H3 & H4 & H5 & H6). split_and!; try done.
  - intros u [Hne Hu]%not_elem_of_cons. rewrite H5 by done. simpl. by rewrite fn_lookup_insert_ne.
  - intros u Hf Hu. destruct (decide (u ∈ l)) as [Hin|Hin].
    + rewrite H6 by done. simpl. destruct (decide (u = x)) as [->|]; [by rewrite fn_lookup_insert, Hf|by rewrite fn_lookup_insert_ne].
    + apply elem_of_cons in Hu as [->|]; [|done]. rewrite H5 by done. simpl. by rewrite fn_lookup_insert.
Qed.

Lemma each_undo_kept f s :
  (∀ x, f (f x) = f x) → (∀ x, un_semid (f x) = un_semid x) →
  (∀ u, u ∈ list_id (sma s) → length (semadj (f (undos (env s) u))) = length (semadj (undos (env s) u))) →
  (∀ x, Forall is_short (semadj x) → Forall is_short (semadj (f x))) → undo_kept s (each_undo f s).
Proof.
  intros Hf Hs Hl Hr. destruct (each_undo_state f s) as (H1 & _ & _ & _ & H5 & H6). split; [by rewrite H1|..|done].
  - intros u. destruct (decide (u ∈ list_id (sma s))); [by rewrite H6, Hs|by rewrite H5].
  - intros u. destruct (decide (u ∈ list_id (sma s))); [rewrite H6 by done; by apply Hl|by rewrite H5].
  - intros HR u. destruct (decide (u ∈ list_id (sma s))); [rewrite H6 by done; by apply Hr|by rewrite H5].
Qed.

(** The values are set, and whoever can go on does. *)
Definition assigned (s s1 : sst) : Prop :=
  sok s1 ∧ undo_kept s s1 ∧ sem_pending (sma s1) = sem_pending (sma s) ∧ queues (env s1) = queues (env s) ∧ awake (env s1) = awake (env s) ∧
  shell s1 = shell s.

Lemma set_values_ok b s :
  sok s → length b = sem_nsems (sma s) → (∀ i m, b !! i = Some m → 0 ≤ semval m ≤ SEMVMX) →
  (∀ i m m', b !! i = Some m → sem_base (sma s) !! i = Some m' → sem_simple m = sem_simple m') →
  assigned s (set_sma (with_base b) s).
Proof.
  intros I Hl Hv Hs. set (s1 := set_sma _ s). assert (undo_kept s s1) as Hu by (by apply undo_kept_same). unfold assigned. split_and!; try done.
  - apply (sok_change s); try done.
    + unfold vals. simpl. apply Forall_fmap, Forall_lookup. intros i m Hm. by apply (Hv i).
    + intros i. unfold simple_of. simpl. destruct (b !! i) as [m|] eqn:E1, (sem_base (sma s) !! i) as [m'|] eqn:E2; [by apply (Hs i)| | |done].
      * apply lookup_lt_Some in E1. apply lookup_ge_None in E2. unfold sem_nsems in Hl. lia.
      * apply lookup_lt_Some in E2. apply lookup_ge_None in E1. unfold sem_nsems in Hl. lia.
  - unfold shell, s1, sem_nsems. simpl. by rewrite Hl.
Qed.
Lemma assigned_undo s s1 f :
  assigned s s1 → undo_kept s1 (each_undo f s1) → assigned s (each_undo f s1).
Proof.
  intros (A1 & A2 & A3 & A4 & A5 & A6) Hu. destruct (each_undo_state f s1) as (H1 & H2 & H3 & H4 & _). unfold assigned. rewrite H1, H2, H3.
  split_and!; [|by etrans|done..|].
  - apply (sok_change s1); unfold vals, simple_of, queue_of; rewrite ?H1, ?H2; try done. apply A1.
  - rewrite <- A6. unfold shell. rewrite H1. congruence.
Qed.

Lemma assigned_stamp s s1 o c : assigned s s1 → assigned s (set_sma (λ a, with_times (o a) (c a) a) s1).
Proof.
  intros (A1 & A2 & A3 & A4 & A5 & A6). unfold assigned. split_and!; try done; [|etrans; [exact A2|by apply undo_kept_same]].
  apply (sok_change s1); try done. apply A1.
Qed.

Lemma update_all_ok o s : sok s → ∃ ws, let '(tasks, s1) := do_smart_update None o [] s in finished [] s ws (wake_up_sem_queue_do tasks s1).
Proof. intros I. destruct (smart_none_ok o [] s I) as (ws & s1 & -> & O1 & U1). exists ws. by apply wake_do_ok. Qed.

Lemma setall_base io b :
  length io = length b → length (zip_with set_semval io b) = length b ∧ semval <$> zip_with set_semval io b = io ∧
  ∀ i m m', zip_with set_semval io b !! i = Some m → b !! i = Some m' → sem_simple m = sem_simple m'.
Proof.
  intros Hl. rewrite length_zip_with, Hl, Nat.min_id. split_and!; [done| |].
  - revert b Hl. induction io as [|x io IH]; intros [|m b] Hl; try done. simpl. f_equal. apply IH. by injection Hl.
  - intros i m m'. rewrite lookup_zip_with_Some. intros (x & y & -> & _ & Hy) Hm'. by simplify_eq.
Qed.

Lemma assigned_refl s : sok s → assigned s s.
Proof. intros I. unfold assigned. by split_and!. Qed.
Lemma assigned_trans s s1 s2 : assigned s s1 → assigned s1 s2 → assigned s s2.
Proof. intros (_ & A2 & A3 & A4 & A5 & A6) (B1 & B2 & B3 & B4 & B5 & B6). unfold assigned. split_and!; [done|by etrans|congruence..]. Qed.

Lemma setall_ok array s :
  sem_inv s → (sem_nsems (sma s) ≤ length array)%nat →
  let io := take (sem_nsems (sma s)) (u16 <$> array) in
  existsb (λ v, SEMVMX <? v) io = false →
  let s1 := set_sma (λ a, with_base (zip_with set_semval io (sem_base a)) a) s in
  let s2 := each_undo (λ un, mk_undo (un_semid un) (replicate (sem_nsems (sma s)) 0)) s1 in
  assigned s s2 ∧ vals s2 = io.
Proof.
  intros [[I _] Hsz] Hlen io Ex s1 s2. assert (length io = sem_nsems (sma s)) as Hio by (unfold io; rewrite length_take, length_fmap; lia).
  destruct (setall_base io (sem_base (sma s)) Hio) as (Z1 & Z2 & Z3).
  assert (∀ v, v ∈ io → 0 ≤ v ≤ SEMVMX) as Hr.
  { intros v Hv. split.
    - unfold io in Hv. apply list_elem_of_lookup in Hv as [j Hj]. apply lookup_take_Some in Hj as [Hj _]. rewrite list_lookup_fmap in Hj.
      destruct (array !! j) as [a|]; [|done]. injection Hj as <-. apply wrap_u_range. lia.
    - rewrite <- not_true_iff_false, existsb_exists in Ex. destruct (Z.ltb_spec SEMVMX v); [|done]. destruct Ex. exists v. split; [by apply list_elem_of_In|lia]. }
  assert (assigned s s1) as A1.
  { apply set_values_ok; [done|done| |done]. intros i m Hm. apply Hr. rewrite <- Z2. apply list_elem_of_fmap_2. by eapply list_elem_of_lookup_2. }
  split.
  - apply assigned_undo; [done|]. apply each_undo_kept; [done|done| |].
    + intros u Hu. simpl. rewrite length_replicate. symmetry. by apply Hsz.
    + intros x _. apply Forall_replicate. unfold is_short. lia.
  - destruct (each_undo_state (λ un, mk_undo (un_semid un) (replicate (sem_nsems (sma s)) 0)) s1) as (E1 & _). unfold vals, s2. by rewrite E1.
Qed.

Lemma setval_ok n v pid s :
  sem_inv s → 0 ≤ v ≤ SEMVMX →
  let s1 := each_undo (λ un, mk_undo (un_semid un) (<[n := 0]> (semadj un))) s in
  let s2 := upd_sem n (λ m, set_sempid pid (set_semval v m)) s1 in
  assigned s s2 ∧ vals s2 = <[n := v]> (vals s).
Proof.
  intros [[I _] Hsz] Hv s1 s2. assert (assigned s s1) as A1.
  { apply assigned_undo; [by apply assigned_refl|]. apply each_undo_kept; [| |intros u _; apply length_insert|].
    - intros x. simpl. by rewrite list_insert_insert_eq.
    - done.
    - intros x Hx. apply Forall_insert; [done|]. unfold is_short. lia. }
  destruct (each_undo_state (λ un, mk_undo (un_semid un) (<[n := 0]> (semadj un))) s) as (E1 & _). change (each_undo _ s) with s1 in E1. split.
  - eapply assigned_trans; [exact A1|]. apply (set_values_ok (alter (λ m, set_sempid pid (set_semval v m)) n (sem_base (sma s1)))); [apply A1| | |].
    + apply length_alter.
    + intros i m Hm. destruct (decide (n = i)) as [<-|].
      * rewrite list_lookup_alter_eq in Hm. destruct (_ !! n); [|done]. injection Hm as <-. done.
      * rewrite list_lookup_alter_ne in Hm by done. pose proof (s_vals _ (proj1 A1)) as Hvals. unfold vals in Hvals. rewrite Forall_fmap in Hvals.
        exact (Forall_lookup_1 _ _ _ _ Hvals Hm).
    + intros i m m' Hm Hm'. destruct (decide (n = i)) as [<-|].
      * rewrite list_lookup_alter_eq, Hm' in Hm. by injection Hm as <-.
      * rewrite list_lookup_alter_ne in Hm by done. congruence.
  - unfold s2. rewrite (vals_upd_sem n _ v) by done. unfold vals. by rewrite E1.
Qed.

Lemma semctl_main_ok semnum cmd access s :
  sem_inv s →
  let '(r, vs, s') := semctl_main semnum cmd access s in
  s' = s ∨
  r = 0 ∧ ∃ s1 ws, assigned s s1 ∧ finished [] s1 ws s' ∧
    match cmd with
    | SETVAL v => vals s1 = <[Z.to_nat semnum := v]> (vals s)
    | SETALL (Some array) => vals s1 = take (sem_nsems (sma s)) (u16 <$> array)
    | _ => False
    end.
Proof.
  intros O. unfold semctl_main. destruct (negb (access =? 0)); [by left|]. destruct cmd as [|[array|]| | | | |v]; try (by left); try (by destruct (_ || _); left).
  - destruct (Nat.ltb_spec (length array) (sem_nsems (sma s))) as [|Hlen]; [by left|]. set (io := take _ _). destruct (existsb _ io) eqn:Ex; [by left|]. right.
    destruct (setall_ok array s O Hlen Ex) as [A2 V2]. set (s2 := each_undo _ _) in *. split; [done|].
    pose proof (assigned_stamp s s2 sem_otime (λ _, now (env s2)) A2) as A3. set (s3 := set_sma _ s2) in *.
    destruct (update_all_ok false s3 (proj1 A3)) as (ws & Hw). destruct (do_smart_update None false [] s3) as [tasks s4]. by exists s3, ws.
  - destruct (Z.ltb_spec semnum 0) as [|H0]; [by left|]. destruct (Z.leb_spec (Z.of_nat (sem_nsems (sma s))) semnum) as [|Hlt]; [by left|].
    cbn [orb]. destruct (Z.ltb_spec SEMVMX v) as [|Hv1]; [by left|]. destruct (Z.ltb_spec v 0) as [|Hv2]; [by left|]. cbn [orb]. right. split; [done|].
    set (s1 := each_undo _ s). destruct (setval_ok (Z.to_nat semnum) v (current_pid (env s1)) s O ltac:(lia)) as [A2 V2]. change (each_undo _ s) with s1 in A2, V2.
    set (s2 := upd_sem _ _ s1) in *. pose proof (assigned_stamp s s2 sem_otime (λ _, now (env s2)) A2) as A3. set (s3 := set_sma _ s2) in *.
    destruct (update_all_ok false s3 (proj1 A3)) as (ws & Hw). destruct (do_smart_update None false [] s3) as [tasks s4]. by exists s3, ws.
Qed.

(** ** Removing a set *)

Lemma unlink_env q s : env (unlink_queue q s) = env s.
Proof. unfold unlink_queue. by case_match. Qed.

Definition cut (e : sem_queue) : sem_queue := mk_queue (q_sops e) (q_undo e) (- Err.EIDRM) IN_WAKEUP (q_alter e).

Lemma cut_off_state l : ∀ pt s,
  let '(pt', s') := foldl fail_one (pt, s) l in
  pt' = pt ++ l ∧ (∀ q, queue_of s' q = if decide (q ∈ l) then cut (queue_of s q) else queue_of s q) ∧
  (undos (env s'), awake (env s'), now (env s'), current_pid (env s'), bugs (env s')) =
  (undos (env s), awake (env s), now (env s), current_pid (env s), bugs (env s)).
Proof.
  induction l as [|x l IH]; intros pt s; [by rewrite app_nil_r|]. set (s1 := (fail_one (pt, s) x).2).
  change (foldl fail_one (pt, s) (x :: l)) with (foldl fail_one (pt ++ [x], s1) l). specialize (IH (pt ++ [x]) s1). destruct (foldl _ _ l) as [pt' s']. destruct IH as (-> & H2 & H3). rewrite <- app_assoc. split_and!; [done| |].
  - intros q. rewrite H2. assert (queue_of s1 q = if decide (q = x) then cut (queue_of s q) else queue_of s q) as Hq.
    { unfold queue_of, s1. simpl. rewrite unlink_env. case_decide as E; [subst q; by rewrite fn_lookup_insert|by rewrite fn_lookup_insert_ne]. }
    rewrite Hq. destruct (decide (q = x)) as [->|Hne].
    + rewrite (decide_True (P := x ∈ x :: l)) by left. by case_decide.
    + by rewrite (decide_ext (q ∈ x :: l) (q ∈ l)) by (rewrite elem_of_cons; naive_solver).
  - rewrite H3. unfold s1. simpl. by rewrite unlink_env.
Qed.

(** Every sleeper fails with [EIDRM], and the undo structures are cut off. *)
Lemma freeary_ok s :
  let s' := freeary s in
  (∀ q, q ∈ sem_pending (sma s) → q_status (queue_of s' q) = - Err.EIDRM ∧ awake (env s') q = true) ∧
  (∀ q, q ∉ sem_pending (sma s) → queue_of s' q = queue_of s q ∧ awake (env s') q = awake (env s) q) ∧
  (∀ u, undos (env s') u = if decide (u ∈ list_id (sma s)) then mk_undo (-1) (semadj (undos (env s) u)) else undos (env s) u) ∧
  (now (env s'), current_pid (env s'), bugs (env s')) = (now (env s), current_pid (env s), bugs (env s)).
Proof.
  unfold freeary. destruct (each_undo_state (λ un, mk_undo (-1) (semadj un)) s) as (E1 & E2 & E3 & E4 & E5 & E6). set (s0 := each_undo _ s) in *.
  set (s1 := set_sma _ s0). change (sem_pending (sma s1)) with (sem_pending (sma s0)). rewrite E1. pose proof (cut_off_state (sem_pending (sma s)) [] s1) as H.
  destruct (foldl _ _ _) as [tasks s2]. destruct H as (-> & H2 & H3). destruct (wake_do_state (sem_pending (sma s)) s2) as (_ & W2 & W3 & W4 & W5).
  set (s3 := wake_up_sem_queue_do _ s2) in *. cbn [app] in *. cbn zeta. change (env s1) with (env s0) in *. assert (∀ q, queue_of s1 q = queue_of s q) as Hq.
  { intros q. unfold queue_of, s1. simpl. by rewrite E2. }
  split_and!.
  - intros q Hin. rewrite W4, W5, H2, !decide_True by done. done.
  - intros q Hin. rewrite W4, W5, H2, !decide_False, Hq by done. split; [done|]. congruence.
  - intros u. rewrite W2. replace (undos (env s2)) with (undos (env s0)) by congruence. case_decide; [by rewrite E6|by rewrite E5].
  - congruence.
Qed.

(** ** The end of a process *)

Lemma apply_adjust_range pid adj m : 0 ≤ semval m ≤ SEMVMX → 0 ≤ semval (apply_adjust pid adj m) ≤ SEMVMX.
Proof.
  intros H. unfold apply_adjust. destruct (adj =? 0); [done|]. simpl. destruct (Z.ltb_spec (semval m + adj) 0); [done|].
  destruct (Z.ltb_spec SEMVMX (semval m + adj)); unfold SEMVMX in *; lia.
Qed.

(** An undo structure that no sleeper needs is taken off the set. *)
Lemma drop_undo_inv u s :
  sem_inv s → (∀ q, q ∈ sem_pending (sma s) → q_undo (queue_of s q) ≠ Some u) →
  sem_inv (set_sma (λ a, with_list_id (list_remove u (list_id a)) a) s).
Proof.
  intros [[I B] Hsz] Hq. split; [split|].
  - destruct I as [A1 A2 A3 A4 A5 A6 A7]. split; try done. intros q Hin. destruct (A6 q Hin) as [E1 E2 E3 E4]. split; try done.
    eapply Forall_impl; [exact E2|]. intros sop [S1 S2]. split; [done|]. intros Hf. destruct (S2 Hf) as (v & Ev & Hv & Hl). exists v. split_and!; [done| |done].
    simpl. apply elem_of_remove. split; [|done]. intros ->. by destruct (Hq q Hin).
  - exact B.
  - intros v Hv. simpl in Hv. apply elem_of_remove in Hv as [_ Hv]. by apply Hsz.
Qed.

Lemma exit_undo_ok u s :
  sem_inv s → (∀ q, q ∈ sem_pending (sma s) → q_undo (queue_of s q) ≠ Some u) →
  let s0 := set_sma (λ a, with_list_id (list_remove u (list_id a)) a) s in
  ∃ s1 ws, assigned s0 s1 ∧ finished [] s1 ws (exit_undo u s) ∧
    vals s1 = imap (λ i v, if adjust u i s =? 0 then v else Z.min SEMVMX (Z.max 0 (v + adjust u i s))) (vals s).
Proof.
  intros I Hq s0. destruct (drop_undo_inv u s I Hq) as [[I0 _] _]. fold s0 in I0.
  set (b := imap (λ i m, apply_adjust (current_pid (env s0)) (adjust u i s0) m) (sem_base (sma s0))).
  assert (assigned s0 (set_sma (with_base b) s0)) as A1.
  { apply set_values_ok; [done|apply length_imap| |].
    - intros i m Hm. unfold b in Hm. rewrite list_lookup_imap in Hm. destruct (sem_base (sma s0) !! i) as [m0|] eqn:E; [|done]. injection Hm as <-.
      apply apply_adjust_range. pose proof (s_vals _ I0) as Hv. unfold vals in Hv. rewrite Forall_fmap in Hv. exact (Forall_lookup_1 _ _ _ _ Hv E).
    - intros i m m' Hm Hm'. unfold b in Hm. rewrite list_lookup_imap, Hm' in Hm. injection Hm as <-. unfold apply_adjust. by case_match. }
  set (s1 := set_sma (with_base b) s0) in *.
  change (exit_undo u s) with (let '(tasks, s2) := do_smart_update None true [] s1 in wake_up_sem_queue_do tasks s2).
  destruct (update_all_ok true s1 (proj1 A1)) as (ws & Hw). destruct (do_smart_update None true [] s1) as [tasks s2]. exists s1, ws. split_and!; [done|done|].
  unfold vals, s1, b. simpl. apply list_eq. intros i. rewrite list_lookup_fmap, !list_lookup_imap, list_lookup_fmap. destruct (sem_base (sma s) !! i) as [m|]; [|done].
  simpl. f_equal. change (adjust u i s0) with (adjust u i s). unfold apply_adjust. destruct (adjust u i s =? 0); [done|]. simpl. unfold SEMVMX.
  destruct (Z.ltb_spec (semval m + adjust u i s) 0); [by rewrite Z.max_l by lia|]. destruct (Z.ltb_spec 32767 (semval m + adjust u i s)); lia.
Qed.
