(* ===== verification/SysvNs.v ===== *)
(** * System V semaphores: all sets (ipc/sem.c, ipc/util.c)

    The sets of a namespace, the tasks that sleep in them and their undo
    structures, through any sequence of system calls: whoever sleeps has to, no
    [BUG_ON] fires and no array is left. *)

From stdpp Require Import functions.
From S2P Require Import Prelude SysvSem SysvSemInv SysvSemOps.

(** ** The invariant *)

(** A set with what the sets share. *)
Definition at_env (n : ipc_ns) (a : sem_array) : sst := mk_sst a (ns_env n).

(** [x] is an undo list that is being given up. *)
Record ns_ok_but (x : option nat) (n : ipc_ns) : Prop := {
  n_inv : ∀ i a, arrays n !! i = Some a → sem_inv (at_env n a);
  n_id : ∀ i a, arrays n !! i = Some a → 0 ≤ i < IPCMNI ∧ perm_id a = IPCMNI * perm_seq a + i ∧ 0 ≤ perm_seq a;
  n_seq : 0 ≤ ids_seq n;
  n_pend : ∀ i j a b t, arrays n !! i = Some a → arrays n !! j = Some b → t ∈ sem_pending a → t ∈ sem_pending b → i = j;
  n_sleep : ∀ t, awake (ns_env n) t = false ↔ ∃ i a, arrays n !! i = Some a ∧ t ∈ sem_pending a;
  n_status : ∀ i a t, arrays n !! i = Some a → t ∈ sem_pending a → q_status (queues (ns_env n) t) = - Err.EINTR;
  n_list : ∀ i a u, arrays n !! i = Some a → u ∈ list_id a → un_semid (undos (ns_env n) u) = perm_id a ∧ ∃ l, u ∈ list_proc n l;
  n_proc : ∀ l u, u ∈ list_proc n l → ∃ i a, arrays n !! i = Some a ∧ u ∈ list_id a;
  n_once : ∀ l l' u, u ∈ list_proc n l → u ∈ list_proc n l' → l = l';
  n_nodup : ∀ l, NoDup (list_proc n l);
  n_undo : ∀ i a t u, arrays n !! i = Some a → t ∈ sem_pending a → q_undo (queues (ns_env n) t) = Some u →
    u ∈ list_id a ∧ ∃ l, undo_list n t = Some l ∧ u ∈ list_proc n l;
  n_ref : ∀ l t0, undo_list n t0 = Some l → ∃ ts, NoDup ts ∧ Z.of_nat (length ts) = refcnt n l ∧ ∀ t, t ∈ ts ↔ undo_list n t = Some l;
  n_dead : ∀ l, x ≠ Some l → (∀ t, undo_list n t ≠ Some l) → list_proc n l = [];
  n_adj : adj_ranges (ns_env n);
  n_bugs : bugs (ns_env n) = false
}.
Definition ns_ok : ipc_ns → Prop := ns_ok_but None.

(** The index and the sequence number are what the identifier says. *)
Lemma id_idx i a : 0 ≤ i < IPCMNI → perm_id a = IPCMNI * perm_seq a + i → ipcid_to_idx (perm_id a) = i ∧ perm_id a / IPCMNI = perm_seq a.
Proof.
  intros Hi ->. unfold ipcid_to_idx. rewrite Z.mul_comm, Z.add_comm. split; [rewrite Z.mod_add by done; by apply Z.mod_small|].
  rewrite Z.div_add by done. rewrite Z.div_small by done. done.
Qed.

Lemma lock_check_some semid n i a : ipc_lock_check semid n = inr (i, a) → arrays n !! i = Some a ∧ i = ipcid_to_idx semid ∧ perm_seq a = semid / IPCMNI.
Proof.
  unfold ipc_lock_check, ipc_lock. destruct (arrays n !! ipcid_to_idx semid) as [b|] eqn:E; [|done]. destruct (Z.eqb_spec (semid / IPCMNI) (perm_seq b)); [|done].
  cbn [negb]. intros [= <- <-]. done.
Qed.
Lemma lock_check_err semid n e : ipc_lock_check semid n = inl e → e ≠ 0.
Proof. unfold ipc_lock_check, ipc_lock. repeat case_match; intros; by simplify_eq. Qed.
Lemma lock_check_id x semid n i a : ns_ok_but x n → 0 ≤ semid → ipc_lock_check semid n = inr (i, a) → perm_id a = semid.
Proof.
  intros O H (Ha & -> & Hs)%lock_check_some. destruct (n_id _ _ O _ _ Ha) as (_ & -> & _). rewrite Hs. unfold ipcid_to_idx. pose proof (Z.div_mod semid IPCMNI ltac:(done)). lia.
Qed.

(** No undo structure is in two sets. *)
Lemma list_id_inj x n i j a b u :
  ns_ok_but x n → arrays n !! i = Some a → arrays n !! j = Some b → u ∈ list_id a → u ∈ list_id b → i = j.
Proof.
  intros O Ha Hb Hua Hub. destruct (n_list _ _ O i a u Ha Hua) as [E1 _], (n_list _ _ O j b u Hb Hub) as [E2 _].
  destruct (n_id _ _ O i a Ha) as (I1 & I2 & _), (n_id _ _ O j b Hb) as (J1 & J2 & _).
  destruct (id_idx i a I1 I2) as [<- _], (id_idx j b J1 J2) as [<- _]. congruence.
Qed.

(** A set whose sleepers and undo structures are left alone. *)
Lemma other_inv b e e' :
  sem_inv (mk_sst b e) → (∀ q, q ∈ sem_pending b → queues e' q = queues e q) → (∀ u, u ∈ list_id b → undos e' u = undos e u) →
  (adj_ranges e → adj_ranges e') → sem_inv (mk_sst b e').
Proof.
  intros [[I B] Hsz] Hq Hu HR. split.
  - split.
    + apply (sok_lens (mk_sst b e)); try done; [apply I|intros q Hin; unfold queue_of; simpl; by rewrite Hq|split; [done|intros u Hin; simpl; by rewrite Hu]|apply HR, I].
    + intros q Hin. specialize (B q Hin). unfold blocked, queue_of in *. simpl in *. rewrite Hq by done. rewrite <- B. apply attempt_ext. intros sop Hsop.
      unfold bad_undo, undo_exceeds. destruct (has_flag SEM_UNDO sop) eqn:Ef; [|done].
      pose proof (proj1 (Forall_forall _ _) (en_sops _ _ (s_entry _ I q Hin)) sop Hsop) as [_ S]. unfold queue_of in S. simpl in S. destruct (S Ef) as (u & Eu & Hin' & _).
      rewrite Eu. unfold adjust. simpl. by rewrite Hu.
  - intros u Hin. simpl. rewrite Hu by done. by apply Hsz.
Qed.

(** ** A call on one set *)

(** What a call on a set does to the sleepers: some are woken, and the caller
    [t] may go to sleep, with the undo structure [un]. *)
Record turn (t : option nat) (un : option nat) (s s' : sst) : Prop := {
  tu_inv : sem_inv s';
  tu_in : ∀ q, q ∈ sem_pending (sma s') →
    q ∈ sem_pending (sma s) ∧ queue_of s' q = queue_of s q ∧ awake (env s') q = awake (env s) q ∨
    t = Some q ∧ q_status (queue_of s' q) = - Err.EINTR ∧ q_undo (queue_of s' q) = un ∧ awake (env s') q = false;
  tu_out : ∀ q, q ∈ sem_pending (sma s) → q ∉ sem_pending (sma s') → awake (env s') q = true ∧ (t ≠ Some q → result_of (q_sops (queue_of s q)) (q_status (queue_of s' q)));
  tu_other : ∀ q, q ∉ sem_pending (sma s) → q ∉ sem_pending (sma s') → queue_of s' q = queue_of s q ∧ awake (env s') q = awake (env s) q;
  tu_undo : undo_kept s s';
  tu_shell : shell s' = shell s
}.

Lemma finished_turn own s ws s' un : finished own s ws s' → undo_sized s → turn None un s s'.
Proof.
  intros F Hsz. split.
  - split; [apply F|]. eapply undo_sized_kept; [apply F| |done]. pose proof (fn_shell _ _ _ _ F) as E. unfold shell in E. congruence.
  - intros q. rewrite (fn_pending _ _ _ _ F). intros [Hn Hq]%list_elem_of_filter. left. split; [done|]. by apply (fn_others _ _ _ _ F).
  - intros q Hq. rewrite (fn_pending _ _ _ _ F), list_elem_of_filter. intros Hn. destruct (decide (q ∈ ws.*1)) as [Hin|]; [|tauto].
    apply list_elem_of_fmap in Hin as ([x e] & -> & Hin). destruct (fn_woken _ _ _ _ F x e Hin) as (_ & ? & Es & ?). simpl. by rewrite Es.
  - intros q Hq _. apply (fn_others _ _ _ _ F). intros ([x e] & -> & Hin)%list_elem_of_fmap. apply Hq. by apply (fn_woken _ _ _ _ F x e).
  - apply F.
  - apply F.
Qed.

Lemma assigned_turn s s1 ws s' un : assigned s s1 → undo_sized s → finished [] s1 ws s' → turn None un s s'.
Proof.
  intros (A1 & A2 & A3 & A4 & A5 & A6) Hsz F. assert (undo_sized s1) as Hsz1.
  { eapply undo_sized_kept; [exact A2| |done]. unfold shell in A6. congruence. }
  destruct (finished_turn _ _ _ _ un F Hsz1) as [T1 T2 T3 T4 T5 T6]. rewrite A3 in *. unfold queue_of in *. rewrite A4, A5 in *.
  split; try done; [by etrans|congruence].
Qed.

Lemma slept_turn t sops un s s' : slept t sops un s s' → t ∉ sem_pending (sma s) → undo_sized s → turn (Some t) un s s'.
Proof.
  intros S Ht Hsz. pose proof (sl_shell _ _ _ _ _ S) as E. assert (undo_kept s s') as Hu.
  { apply undo_kept_same; [unfold shell in E; congruence|apply S]. }
  split; try done.
  - split; [apply S|]. eapply undo_sized_kept; [done| |done]. unfold shell in E. congruence.
  - intros q. rewrite (sl_pending _ _ _ _ _ S), elem_of_waiter. intros [->|Hq]; [right; destruct (sl_task _ _ _ _ _ S) as (? & _ & ? & ?); done|].
    left. split; [done|]. apply (sl_others _ _ _ _ _ S). by intros ->.
  - intros q Hq. rewrite (sl_pending _ _ _ _ _ S), elem_of_waiter. tauto.
  - intros q Hq. rewrite (sl_pending _ _ _ _ _ S), elem_of_waiter. intros Hn. apply (sl_others _ _ _ _ _ S). tauto.
Qed.

Lemma turn_refl s un : sem_inv s → turn None un s s.
Proof. intros I. split; try done. intros q Hq. by left. Qed.

(** The set is put back. *)
Lemma unlock_ok x n i a t un s' :
  ns_ok_but x n → arrays n !! i = Some a → turn t un (at_env n a) s' →
  (∀ q, t = Some q → q ∈ sem_pending (sma s') → awake (ns_env n) q = true ∧ ∀ u, un = Some u → u ∈ list_id a ∧ ∃ l, undo_list n q = Some l ∧ u ∈ list_proc n l) →
  ns_ok_but x (sem_unlock i s' n).
Proof.
  intros O Ha T Ht. pose proof (tu_shell _ _ _ _ T) as Esh. unfold shell in Esh. simpl in Esh.
  assert (list_id (sma s') = list_id a ∧ perm_id (sma s') = perm_id a ∧ perm_seq (sma s') = perm_seq a) as (El & Ei & Es) by (split_and!; congruence).
  assert (∀ j b, arrays n !! j = Some b → j ≠ i → ∀ q, q ∈ sem_pending b → q ∉ sem_pending a ∧ q ∉ sem_pending (sma s')) as Hd.
  { intros j b Hb Hj q Hq. assert (q ∉ sem_pending a) as Hqa by (intros Hqa; destruct Hj; by apply (n_pend _ _ O j i b a q)). split; [done|].
    intros Hqs. destruct (tu_in _ _ _ _ T q Hqs) as [[? _]|(Htq & _)]; [done|]. destruct (Ht q Htq Hqs) as [Haw _].
    assert (awake (ns_env n) q = false) by (apply (n_sleep _ _ O); eauto). congruence. }
  assert (∀ j b, arrays n !! j = Some b → j ≠ i → ∀ q, q ∈ sem_pending b → queues (env s') q = queues (ns_env n) q ∧ awake (env s') q = awake (ns_env n) q) as Hoth.
  { intros j b Hb Hj q Hq. destruct (Hd j b Hb Hj q Hq). by apply (tu_other _ _ _ _ T). }
  assert (∀ q, q ∈ sem_pending (sma s') → awake (env s') q = false ∧ q_status (queues (env s') q) = - Err.EINTR ∧
    ∀ u, q_undo (queues (env s') q) = Some u → u ∈ list_id (sma s') ∧ ∃ l, undo_list n q = Some l ∧ u ∈ list_proc n l) as Hin.
  { rewrite El. intros q Hq. destruct (tu_in _ _ _ _ T q Hq) as [(Hqa & Eq & Ea)|(Htq & E1 & E2 & E3)]; unfold queue_of in *; simpl in *.
    - rewrite Eq, Ea. split_and!; [apply (n_sleep _ _ O); eauto|by apply (n_status _ _ O i a)|]. intros u. by apply (n_undo _ _ O i a).
    - split_and!; [done|done|]. rewrite E2. by apply (Ht q Htq Hq). }
  split; cbn [arrays sem_unlock ns_env undo_list list_proc refcnt ids_seq].
  - intros j b. rewrite lookup_insert_Some. intros [[<- <-]|[Hne Hb]]; [destruct s'; apply (tu_inv _ _ _ _ T)|].
    apply (other_inv b (ns_env n)); [by apply (n_inv _ _ O j)| | |exact (uk_range _ _ (tu_undo _ _ _ _ T))].
    + intros q Hq. by apply (Hoth j b Hb).
    + intros u Hu. apply (uk_local _ _ (tu_undo _ _ _ _ T)). simpl. intros Hua. by destruct (Hne (list_id_inj x n i j a b u O Ha Hb Hua Hu)).
  - intros j b. rewrite lookup_insert_Some. intros [[<- <-]|[Hne Hb]]; [|by apply (n_id _ _ O)]. rewrite Ei, Es. by apply (n_id _ _ O).
  - apply O.
  - intros j k b c q. rewrite !lookup_insert_Some. intros [[<- <-]|[Hj Hb]] [[<- <-]|[Hk Hc]] H1 H2; [done| | |by apply (n_pend _ _ O j k b c q)].
    + by destruct (Hd k c Hc ltac:(done) q H2).
    + by destruct (Hd j b Hb ltac:(done) q H1).
  - intros q. split.
    + intros Hq. destruct (decide (q ∈ sem_pending (sma s'))) as [Hs|Hs]; [exists i, (sma s'); by rewrite lookup_insert_eq|].
      destruct (decide (q ∈ sem_pending a)) as [Hqa|Hqa]; [destruct (tu_out _ _ _ _ T q Hqa Hs); congruence|]. destruct (tu_other _ _ _ _ T q Hqa Hs) as [_ E]. simpl in E. rewrite E in Hq.
      apply (n_sleep _ _ O) in Hq as (j & b & Hb & Hqb). exists j, b. rewrite lookup_insert_ne; [done|]. intros <-. by simplify_eq.
    + intros (j & b & Hb & Hq). apply lookup_insert_Some in Hb as [[<- <-]|[Hne Hb]]; [by apply Hin|]. destruct (Hoth j b Hb ltac:(done) q Hq) as [_ ->]. apply (n_sleep _ _ O). eauto.
  - intros j b q. rewrite lookup_insert_Some. intros [[<- <-]|[Hne Hb]] Hq; [by apply Hin|]. destruct (Hoth j b Hb ltac:(done) q Hq) as [-> _]. by apply (n_status _ _ O j b).
  - intros j b u. rewrite lookup_insert_Some, (uk_semid _ _ (tu_undo _ _ _ _ T)). intros [[<- <-]|[Hne Hb]] Hu; [|by apply (n_list _ _ O j)].
    rewrite Ei. apply (n_list _ _ O i); [done|]. by rewrite <- El.
  - intros l u Hu. destruct (n_proc _ _ O l u Hu) as (j & b & Hb & Hub). destruct (decide (i = j)) as [<-|Hne].
    + exists i, (sma s'). rewrite lookup_insert_eq. split; [done|]. rewrite El. by simplify_eq.
    + exists j, b. by rewrite lookup_insert_ne.
  - apply O.
  - apply O.
  - intros j b q u. rewrite lookup_insert_Some. intros [[<- <-]|[Hne Hb]] Hq; [by apply Hin|]. destruct (Hoth j b Hb ltac:(done) q Hq) as [-> _]. by apply (n_undo _ _ O j b).
  - apply O.
  - apply O.
  - exact (uk_range _ _ (tu_undo _ _ _ _ T) (n_adj _ _ O)).
  - pose proof (n_bugs _ _ O). congruence.
Qed.

(** ** Calls in progress *)

(** The call of task [q] on set [semid] goes on: the task sleeps in the set, or
    its result is there. *)
Definition answered (n : ipc_ns) (q : nat) : Prop :=
  awake (ns_env n) q = true ∧ q_status (queues (ns_env n) q) ∈ [0; - Err.EAGAIN; - Err.ERANGE; - Err.EIDRM].
Definition sleeps (n : ipc_ns) (q : nat) (semid : Z) : Prop := ∃ i a, arrays n !! i = Some a ∧ q ∈ sem_pending a ∧ perm_id a = semid.
Definition waits (n : ipc_ns) (q : nat) (semid : Z) : Prop := sleeps n q semid ∨ answered n q.

Lemma result_answer sops e : result_of sops e → e ∈ [0; - Err.EAGAIN; - Err.ERANGE; - Err.EIDRM].
Proof. rewrite !elem_of_cons. intros [->|[[-> _]|[-> _]]]; auto. Qed.

(** From [n] to [n'] the calls in progress go on and nobody falls asleep, but
    for task [t]. *)
Definition goes_on (t : option nat) (n n' : ipc_ns) : Prop := ∀ q, t ≠ Some q →
  (∀ semid, waits n q semid → waits n' q semid) ∧
  (awake (ns_env n') q = false → awake (ns_env n) q = false ∧ queues (ns_env n') q = queues (ns_env n) q).
#[global] Instance goes_on_preorder t : PreOrder (goes_on t).
Proof. split; [intros n q _; auto|]. intros x y z A B q Hq. destruct (A q Hq) as [A1 A2], (B q Hq) as [B1 B2]. split; [auto|]. intros [H ->]%B2. auto. Qed.
Lemma goes_on_none t n n' : goes_on None n n' → goes_on t n n'.
Proof. intros H q _. by apply H. Qed.

Lemma unlock_goes_on x n i a t un s' :
  ns_ok_but x n → arrays n !! i = Some a → turn t un (at_env n a) s' → goes_on t n (sem_unlock i s' n).
Proof.
  intros O Ha T q Hq. pose proof (tu_shell _ _ _ _ T) as Esh. unfold shell in Esh. simpl in Esh.
  assert (q ∉ sem_pending a → q ∉ sem_pending (sma s')) as Hs by (intros Hn Hin; destruct (tu_in _ _ _ _ T q Hin) as [[? _]|[? _]]; done). split.
  - intros semid [(j & b & Hb & Hqb & Eb)|[H1 H2]].
    + destruct (decide (i = j)) as [<-|Hne]; [|left; exists j, b; simpl; by rewrite lookup_insert_ne]. simplify_eq.
      destruct (decide (q ∈ sem_pending (sma s'))) as [Hin|Hn].
      * left. exists i, (sma s'). simpl. rewrite lookup_insert_eq. split_and!; [done|done|congruence].
      * right. destruct (tu_out _ _ _ _ T q Hqb Hn) as [? Hr]. split; [done|]. by eapply result_answer, Hr.
    + right. assert (q ∉ sem_pending a) as Hn. { intros Hin. assert (awake (ns_env n) q = false) by (apply (n_sleep _ _ O); eauto). congruence. }
      destruct (tu_other _ _ _ _ T q Hn (Hs Hn)) as [E1 E2]. unfold answered. simpl in *. unfold queue_of in E1. simpl in E1. by rewrite E1, E2.
  - simpl. intros Hf. destruct (decide (q ∈ sem_pending a)) as [Hin|Hn].
    + split; [apply (n_sleep _ _ O); eauto|]. destruct (decide (q ∈ sem_pending (sma s'))) as [Hin'|Hn']; [|destruct (tu_out _ _ _ _ T q Hin Hn'); congruence].
      by destruct (tu_in _ _ _ _ T q Hin') as [(_ & ? & _)|[? _]].
    + destruct (tu_other _ _ _ _ T q Hn (Hs Hn)) as [E1 E2]. simpl in E2. split; [congruence|exact E1].
Qed.

(** A call that leaves the sleepers alone. *)
Definition quiet (n n' : ipc_ns) : Prop :=
  queues (ns_env n') = queues (ns_env n) ∧ (∀ q, awake (ns_env n') q = awake (ns_env n) q) ∧
  ∀ i a, arrays n !! i = Some a → ∃ a', arrays n' !! i = Some a' ∧ sem_pending a' = sem_pending a ∧ perm_id a' = perm_id a.
#[global] Instance quiet_preorder : PreOrder quiet.
Proof.
  split; [intros n; split_and!; naive_solver|]. intros x y z (A1 & A2 & A3) (B1 & B2 & B3). split_and!; [congruence|intros q; by rewrite B2|]. intros i a Ha.
  destruct (A3 i a Ha) as (b & Hb & ? & ?). destruct (B3 i b Hb) as (c & ? & ? & ?). exists c. split_and!; congruence.
Qed.
Lemma quiet_same n n' : arrays n' = arrays n → ns_env n' = ns_env n → quiet n n'.
Proof. intros E1 E2. unfold quiet. rewrite E1, E2. naive_solver. Qed.
Lemma quiet_goes_on n n' : quiet n n' → goes_on None n n'.
Proof.
  intros (E1 & E2 & E3) q _. split; [|by rewrite E1, E2]. intros semid [(i & a & Ha & Hq & Ei)|Hr]; [|right; unfold answered; by rewrite E1, E2].
  left. destruct (E3 i a Ha) as (b & ? & Ep & ?). exists i, b. rewrite Ep. split_and!; congruence.
Qed.

(** ** Creating and removing sets *)

(** What [idr_get_new] promises: an unused index below the limit, or an error. *)
Definition free_index (idr : gmap Z sem_array → Z + Z) : Prop :=
  ∀ m, match idr m with inl err => err < 0 | inr i => m !! i = None ∧ 0 ≤ i < IPCMNI end.

(** A set nobody has used yet. *)
Lemma fresh_set_inv id seq k t e : adj_ranges e → sem_inv (mk_sst (mk_sem_array id seq (replicate k (mk_sem 0 0 [])) [] [] 0 0 t) e).
Proof.
  intros HR. split; [split|by intros u ?%not_elem_of_nil]; [|by intros q ?%not_elem_of_nil]. split; try done.
  - unfold vals. simpl. rewrite fmap_replicate. apply Forall_replicate. unfold SEMVMX. simpl. lia.
  - constructor.
  - exists [], []. done.
  - intros i Hi. unfold simple_of. simpl. destruct (_ !! i) as [m|] eqn:E; [|done]. by apply lookup_replicate in E as [-> _].
  - by intros q ?%not_elem_of_nil.
Qed.

Lemma newary_ok idr nsems mem security n :
  free_index idr → ns_ok n → ns_ok (newary idr nsems mem security n).2 ∧ quiet n (newary idr nsems mem security n).2.
Proof.
  intros Hidr O. unfold newary. do 4 (case_match; [done|]). unfold ipc_addid. destruct (SEMMNI <=? in_use n); [done|].
  specialize (Hidr (arrays n)). destruct (idr (arrays n)) as [|i]; [done|]. destruct Hidr as [Hnone Hi]. set (a := mk_sem_array _ _ _ _ _ _ _ _). cbn [snd].
  assert (∀ j b, <[i := a]> (arrays n) !! j = Some b → (j = i ∧ b = a) ∨ (j ≠ i ∧ arrays n !! j = Some b)) as Hl.
  { intros j b [[<- <-]|[Hne Hb]]%lookup_insert_Some; auto. }
  assert (∀ j b, arrays n !! j = Some b → <[i := a]> (arrays n) !! j = Some b) as Hk.
  { intros j b Hb. rewrite lookup_insert_ne; [done|]. intros <-. congruence. }
  split; [|split_and!; [done..|]; naive_solver]. split; cbn [arrays ns_env undo_list list_proc refcnt ids_seq].
  - intros j b [[-> ->]|[_ Hb]]%Hl; [apply fresh_set_inv, O|by apply (n_inv _ _ O j)].
  - intros j b [[-> ->]|[_ Hb]]%Hl; [|by apply (n_id _ _ O)]. split_and!; [lia..|done|]. apply (n_seq _ _ O).
  - pose proof (n_seq _ _ O). case_match; lia.
  - intros j k b c q [[-> ->]|[_ Hb]]%Hl [[-> ->]|[_ Hc]]%Hl; simpl; try (by intros ?%not_elem_of_nil); [by intros _ ?%not_elem_of_nil|].
    by apply (n_pend _ _ O j k b c q).
  - intros q. rewrite (n_sleep _ _ O). split; [intros (j & b & ? & ?); eauto|]. intros (j & b & [[-> ->]|[_ Hb]]%Hl & Hq); [by apply not_elem_of_nil in Hq|eauto].
  - intros j b q [[-> ->]|[_ Hb]]%Hl; [by intros ?%not_elem_of_nil|by apply (n_status _ _ O j)].
  - intros j b u [[-> ->]|[_ Hb]]%Hl; [by intros ?%not_elem_of_nil|by apply (n_list _ _ O j)].
  - intros l u Hu. destruct (n_proc _ _ O l u Hu) as (j & b & ? & ?). eauto.
  - apply O.
  - apply O.
  - intros j b q u [[-> ->]|[_ Hb]]%Hl; [by intros ?%not_elem_of_nil|by apply (n_undo _ _ O j)].
  - apply O.
  - apply O.
  - apply O.
  - apply O.
Qed.

Lemma semget_ok tries nsems mem security : ∀ n, let n' := (semget tries nsems mem security n).2 in
  Forall (λ x, free_index x.2) tries → ns_ok n → ns_ok n' ∧ quiet n n'.
Proof.
  intros n n' Hf O. unfold n', semget. clear n'. destruct (_ || _); [done|]. revert n O. induction Hf as [|[pre idr] tries Hi Hf IH]; intros n O; [done|]. simpl.
  destruct pre; cbn [negb]; [|done]. destruct (newary_ok idr nsems mem security n Hi O) as [O1 Q1]. destruct (newary _ _ _ _ _) as [err n1]. destruct (err =? _); [|done].
  destruct (IH n1 O1) as [? ?]. split; [done|by etrans].
Qed.

(** The set that a successful [semget] has made. *)
Lemma newary_new idr nsems mem security n r n' :
  free_index idr → ns_ok n → 0 < nsems → security ≤ 0 → newary idr nsems mem security n = (r, n') →
  r < 0 ∧ n' = n ∨ ∃ i a, arrays n' !! i = Some a ∧ perm_id a = r ∧ 0 ≤ r ∧ sem_base a = replicate (Z.to_nat nsems) (mk_sem 0 0 []) ∧ sem_pending a = [].
Proof.
  intros Hidr O Hn Hs. assert (- Err.ENOSPC < 0 ∧ - Err.ENOMEM < 0) as [? ?] by (by compute). unfold newary. rewrite (proj2 (Z.eqb_neq nsems 0)) by lia. case_match; [intros [= <- <-]; left; done|]. case_match; [intros [= <- <-]; left; done|].
  destruct (Z.eqb_spec security 0); cbn [negb]; [|intros [= <- <-]; left; split; [lia|done]]. unfold ipc_addid. destruct (SEMMNI <=? in_use n); [intros [= <- <-]; left; done|].
  specialize (Hidr (arrays n)). destruct (idr (arrays n)) as [err|i]; [intros [= <- <-]; left; done|]. destruct Hidr as [_ Hi].
  set (a := mk_sem_array _ _ _ _ _ _ _ _). intros [= <- <-]. right. exists i, a. simpl. rewrite lookup_insert_eq. split_and!; try done.
  pose proof (n_seq _ _ O). unfold IPCMNI. lia.
Qed.
Lemma semget_new tries nsems mem security : ∀ n r n',
  Forall (λ x, free_index x.2) tries → ns_ok n → 0 < nsems → security ≤ 0 → semget tries nsems mem security n = (Some r, n') → 0 ≤ r →
  nsems ≤ SEMMSL ∧ ∃ i a, arrays n' !! i = Some a ∧ perm_id a = r ∧ sem_base a = replicate (Z.to_nat nsems) (mk_sem 0 0 []) ∧ sem_pending a = [].
Proof.
  intros n r n' Hf O Hn Hs. unfold semget. destruct (Z.ltb_spec nsems 0); [lia|]. destruct (Z.ltb_spec SEMMSL nsems); cbn [orb]; [by intros [= <- <-]|].
  revert n O. induction Hf as [|[pre idr] tries Hi Hf IH]; intros n O; simpl; [done|]. destruct pre; cbn [negb]; [|by intros [= <- <-]].
  pose proof (proj1 (newary_ok idr nsems mem security n Hi O)) as O1. destruct (newary idr nsems mem security n) as [err n1] eqn:E. simpl in O1.
  destruct (Z.eqb_spec err (- Err.EAGAIN)); [by apply IH|]. intros [= <- <-] Hr.
  destruct (newary_new idr nsems mem security n err n1 Hi O Hn Hs E) as [[? _]|(i & a & ? & ? & _ & ? & ?)]; [lia|]. split; [done|]. by exists i, a.
Qed.

Lemma rmid_ok semid access n : ns_ok n → ns_ok (semctl_rmid semid access n).2.
Proof.
  intros O. unfold semctl_rmid. case_match; [done|]. destruct (ipc_lock_check semid n) as [|[i a]] eqn:E; [done|]. case_match; [done|]. cbn [snd].
  apply lock_check_some in E as (Ha & _). destruct (freeary_ok (at_env n a)) as (F1 & F2 & F3 & F4). unfold at_env in *. set (s := freeary _) in *. simpl in F1, F2, F3, F4.
  assert (∀ j b, delete i (arrays n) !! j = Some b → j ≠ i ∧ arrays n !! j = Some b) as Hl by (intros j b [? ?]%lookup_delete_Some; auto).
  assert (∀ j b, delete i (arrays n) !! j = Some b → ∀ q, q ∈ sem_pending b → q ∉ sem_pending a) as Hd.
  { intros j b [Hj Hb]%Hl q Hq Hqa. apply Hj. by apply (n_pend _ _ O j i b a q). }
  assert (∀ j b, delete i (arrays n) !! j = Some b → ∀ u, u ∈ list_id b → u ∉ list_id a) as Hu.
  { intros j b [Hj Hb]%Hl u Hub Hua. apply Hj. by apply (list_id_inj None n j i b a u). }
  split; cbn [arrays ns_env undo_list list_proc refcnt ids_seq].
  - intros j b Hb. destruct (Hl j b Hb) as [_ Hb']. apply (other_inv b (ns_env n)); [by apply (n_inv _ _ O j)| | |].
    + intros q Hq. by apply F2, (Hd j b).
    + intros u Hub. rewrite F3, decide_False; [done|by apply (Hu j b)].
    + intros HR u. rewrite F3. case_decide; apply HR.
  - intros j b [_ Hb]%Hl. by apply (n_id _ _ O).
  - apply O.
  - intros j k b c q [_ Hb]%Hl [_ Hc]%Hl. by apply (n_pend _ _ O j k b c q).
  - intros q. split.
    + intros Hq. destruct (decide (q ∈ sem_pending a)) as [Hqa|Hqa]; [by destruct (F1 q Hqa) as [_ ?]; congruence|]. destruct (F2 q Hqa) as [_ Ea]. rewrite Ea in Hq.
      apply (n_sleep _ _ O) in Hq as (j & b & Hb & Hqb). exists j, b. rewrite lookup_delete_ne; [done|]. intros <-. by simplify_eq.
    + intros (j & b & Hb & Hq). destruct (F2 q (Hd j b Hb q Hq)) as [_ ->]. apply (n_sleep _ _ O). destruct (Hl j b Hb). eauto.
  - intros j b q Hb Hq. destruct (F2 q (Hd j b Hb q Hq)) as [Eq _]. unfold queue_of in Eq. simpl in Eq. rewrite Eq. apply (n_status _ _ O j b); [|done]. by apply Hl.
  - intros j b u Hb Hub. rewrite F3, decide_False by (by apply (Hu j b)). destruct (Hl j b Hb) as [_ Hb']. destruct (n_list _ _ O j b u Hb' Hub) as [E1 [l Hul]].
    split; [done|]. exists l. apply list_elem_of_filter. split; [by apply (Hu j b)|done].
  - intros l u [Hna Hul]%list_elem_of_filter. destruct (n_proc _ _ O l u Hul) as (j & b & Hb & Hub). exists j, b. rewrite lookup_delete_ne; [done|]. intros <-. by simplify_eq.
  - intros l l' u [_ ?]%list_elem_of_filter [_ ?]%list_elem_of_filter. by apply (n_once _ _ O l l' u).
  - intros l. apply NoDup_filter, O.
  - intros j b q u Hb Hq. destruct (F2 q (Hd j b Hb q Hq)) as [Eq _]. unfold queue_of in Eq. simpl in Eq. rewrite Eq. intros Eu. destruct (Hl j b Hb) as [_ Hb'].
    destruct (n_undo _ _ O j b q u Hb' Hq Eu) as (Hub & l & ? & Hul). split; [done|]. exists l. split; [done|]. apply list_elem_of_filter. split; [|done]. by apply (Hu j b Hb).
  - apply O.
  - intros l Hx Hnt. by rewrite (n_dead _ _ O l Hx Hnt).
  - intros u. rewrite F3. case_decide; apply (n_adj _ _ O).
  - pose proof (n_bugs _ _ O). congruence.
Qed.

Lemma rmid_goes_on semid access n : ns_ok n → goes_on None n (semctl_rmid semid access n).2.
Proof.
  intros O. unfold semctl_rmid. case_match; [done|]. destruct (ipc_lock_check semid n) as [|[i a]] eqn:E; [done|]. case_match; [done|]. cbn [snd].
  apply lock_check_some in E as (Ha & _). destruct (freeary_ok (at_env n a)) as (F1 & F2 & _). unfold at_env in *. set (s := freeary _) in *. simpl in F1, F2.
  intros q _. destruct (decide (q ∈ sem_pending a)) as [Hq|Hq].
  - destruct (F1 q Hq) as [E1 E2]. split; [|simpl; congruence]. intros id _. right. split; [done|]. unfold queue_of in E1. simpl. rewrite E1, !elem_of_cons. auto.
  - destruct (F2 q Hq) as [E1 E2]. split; [|simpl; intros Hf; split; [congruence|exact E1]]. intros id [(j & b & Hb & Hqb & Eb)|Hr].
    + left. exists j, b. simpl. rewrite lookup_delete_ne; [done|]. intros <-. by simplify_eq.
    + right. unfold answered in *. unfold queue_of in E1. simpl in *. by rewrite E1, E2.
Qed.

Lemma semctl_ok semid semnum cmd access n :
  ns_ok n → ns_ok (semctl semid semnum cmd access n).2 ∧ goes_on None n (semctl semid semnum cmd access n).2.
Proof.
  intros O. unfold semctl. case_match; [done|]. destruct (ipc_lock_check semid n) as [|[i a]] eqn:E; [done|]. apply lock_check_some in E as (Ha & _).
  pose proof (n_inv _ _ O i a Ha) as I. pose proof (semctl_main_ok semnum cmd access (at_env n a) I) as Hm. change (mk_sst a (ns_env n)) with (at_env n a).
  destruct (semctl_main semnum cmd access (at_env n a)) as [[r vs] s']. cbn [snd]. assert (turn None None (at_env n a) s') as T.
  { destruct Hm as [->|(_ & s1 & ws & A & F & _)]; [by apply turn_refl|]. eapply assigned_turn; [exact A|apply I|exact F]. }
  split; [by apply (unlock_ok None n i a None None)|by apply (unlock_goes_on None n i a None None)].
Qed.

(** ** Undo lists *)

(** The undo lists have the same structures, in another order. *)
Lemma list_proc_ok x f n :
  ns_ok_but x n → (∀ l u, u ∈ f l ↔ u ∈ list_proc n l) → (∀ l, NoDup (f l)) → ns_ok_but x (set_list_proc f n).
Proof.
  intros O Hf Hn. split; cbn [arrays ns_env undo_list list_proc refcnt ids_seq set_list_proc]; try apply O; try done.
  - intros i a u Ha Hu. destruct (n_list _ _ O i a u Ha Hu) as [? [l ?]]. split; [done|]. exists l. by apply Hf.
  - intros l u Hu. apply (n_proc _ _ O l). by apply Hf.
  - intros l l' u Hu Hu'. apply (n_once _ _ O l l' u); by apply Hf.
  - intros i a t u Ha Ht Hu. destruct (n_undo _ _ O i a t u Ha Ht Hu) as (? & l & ? & ?). split; [done|]. exists l. split; [done|]. by apply Hf.
  - intros l Hx Ht. pose proof (n_dead _ _ O l Hx Ht) as E. destruct (f l) as [|u k] eqn:Ef; [done|]. assert (u ∈ f l) as Hu by (rewrite Ef; left).
    apply Hf in Hu. rewrite E in Hu. by apply not_elem_of_nil in Hu.
Qed.

Definition fresh_list (l : nat) (n : ipc_ns) : Prop := ∀ t, undo_list n t ≠ Some l.
Definition fresh_undo (u : nat) (n : ipc_ns) : Prop := ∀ i a, arrays n !! i = Some a → u ∉ list_id a.

Lemma get_undo_list_ok t new n :
  ns_ok n → (∀ l, new = Some l → fresh_list l n) →
  match get_undo_list t new n with
  | inl _ => True
  | inr (l, n') => ns_ok n' ∧ undo_list n' t = Some l ∧ arrays n' = arrays n ∧ ns_env n' = ns_env n
  end.
Proof.
  intros O Hnew. unfold get_undo_list. destruct (undo_list n t) as [l|] eqn:Et; [done|]. destruct new as [l|]; [|done]. specialize (Hnew l eq_refl).
  assert (list_proc n l = []) as El by (by apply (n_dead _ _ O)).
  assert (∀ k, (<[l := []]> (list_proc n)) k = list_proc n k) as Hp.
  { intros k. destruct (decide (k = l)) as [->|]; [by rewrite fn_lookup_insert|by rewrite fn_lookup_insert_ne]. }
  assert (∀ q k, (<[t := Some l]> (undo_list n)) q = Some k ↔ (q = t ∧ k = l) ∨ undo_list n q = Some k) as Hul.
  { intros q k. destruct (decide (q = t)) as [->|]; [rewrite fn_lookup_insert, Et; naive_solver|rewrite fn_lookup_insert_ne by done; naive_solver]. }
  split_and!; [|apply Hul; by left|done|done]. assert (ns_ok (set_list_proc (<[l := []]> (list_proc n)) n)) as O0.
  { apply list_proc_ok; [done|intros k u; by rewrite Hp|intros k; rewrite Hp; apply O]. }
  clear O. rename O0 into O. unfold fresh_list in Hnew. set (n0 := set_list_proc _ n) in *. change (undo_list n) with (undo_list n0) in *. clearbody n0.
  split; cbn [arrays ns_env undo_list list_proc refcnt ids_seq set_undo_list set_refcnt]; try apply O.
  - intros i a q u Ha Hq Hu. destruct (n_undo _ _ O i a q u Ha Hq Hu) as (? & k & ? & ?). split; [done|]. exists k. split; [|done]. apply Hul. by right.
  - intros k q Hq. apply Hul in Hq as [[-> ->]|Hq].
    + rewrite fn_lookup_insert. exists [t]. split_and!; [apply NoDup_singleton|done|]. intros q. rewrite Hul, list_elem_of_singleton. split; [by left|].
      intros [[? _]|?]; [done|]. by destruct (Hnew q).
    + assert (k ≠ l) as Hkl by (intros ->; by destruct (Hnew q)). rewrite fn_lookup_insert_ne by done. destruct (n_ref _ _ O k q Hq) as (ts & ? & ? & Hts). exists ts.
      split_and!; [done|done|]. intros q'. rewrite Hul, Hts. naive_solver.
  - intros k Hx Hk. apply (n_dead _ _ O k Hx). intros q Hq. apply (Hk q), Hul. by right.
Qed.

Lemma lookup_undo_ok x l semid n :
  ns_ok_but x n →
  let '(r, n') := lookup_undo l semid n in
  ns_ok_but x n' ∧ arrays n' = arrays n ∧ ns_env n' = ns_env n ∧ undo_list n' = undo_list n ∧ (∀ k u, u ∈ list_proc n' k ↔ u ∈ list_proc n k) ∧
  match r with Some u => u ∈ list_proc n' l ∧ un_semid (undos (ns_env n) u) = semid | None => True end.
Proof.
  intros O. unfold lookup_undo, __lookup_undo. destruct (head _) as [u|] eqn:E; [|done].
  apply head_Some_elem_of, list_elem_of_filter in E as [Es Hu].
  assert (∀ k v, v ∈ (<[l := u :: list_remove u (list_proc n l)]> (list_proc n)) k ↔ v ∈ list_proc n k) as Hm.
  { intros k v. destruct (decide (k = l)) as [->|]; [rewrite fn_lookup_insert, elem_of_cons, elem_of_remove|by rewrite fn_lookup_insert_ne].
    destruct (decide (v = u)); naive_solver. }
  split_and!; try done; [|by apply Hm]. apply list_proc_ok; [done|done|]. intros k. destruct (decide (k = l)) as [->|].
  - rewrite fn_lookup_insert. apply NoDup_cons. rewrite elem_of_remove. split; [naive_solver|]. apply NoDup_filter, O.
  - rewrite fn_lookup_insert_ne by done. apply O.
Qed.

(** A new undo structure for the set. *)
Lemma new_undo_inv n u semid a :
  sem_inv (at_env n a) → u ∉ list_id a →
  let s := set_sma (λ a, with_list_id (u :: list_id a) a) (upd_undo u (λ _, mk_undo semid (replicate (sem_nsems a) 0)) (at_env n a)) in
  (∀ q, q ∈ sem_pending a → q_undo (queues (ns_env n) q) ≠ Some u) → sem_inv s.
Proof.
  intros [[I B] Hsz] Hu s Hq. assert (∀ v, v ∈ list_id a → undos (env s) v = undos (ns_env n) v) as Hold.
  { intros v Hv. simpl. rewrite fn_lookup_insert_ne; [done|]. by intros ->. }
  assert (adj_ranges (env s)) as HR.
  { intros v. simpl. destruct (decide (v = u)) as [->|]; [rewrite fn_lookup_insert|rewrite fn_lookup_insert_ne by done; apply (s_adj _ I)].
    simpl. apply Forall_replicate. unfold is_short. lia. }
  split; [split|].
  - destruct I as [A1 A2 A3 A4 A5 A6 A7]. split; try done. intros q Hin. destruct (A6 q Hin) as [E1 E2 E3 E4]. split; try done.
    eapply Forall_impl; [exact E2|]. intros sop [S1 S2]. split; [done|]. intros Hf. destruct (S2 Hf) as (v & Ev & Hv & Hl). exists v. split_and!; [done|by right|].
    by rewrite Hold.
  - intros q Hin. specialize (B q Hin). unfold blocked in *. rewrite <- B. apply attempt_ext. intros sop _. unfold bad_undo, undo_exceeds.
    change (queue_of s q) with (queues (ns_env n) q). change (queue_of (at_env n a) q) with (queues (ns_env n) q). destruct (q_undo _) as [v|] eqn:Ev; [|done].
    unfold adjust. simpl. rewrite fn_lookup_insert_ne; [done|]. intros ->. by destruct (Hq q Hin).
  - intros v [->|Hv]%elem_of_cons; [simpl; by rewrite fn_lookup_insert; simpl; rewrite length_replicate|]. rewrite Hold by done. by apply Hsz.
Qed.

Lemma new_undo_ok n i a l u t :
  ns_ok n → arrays n !! i = Some a → fresh_undo u n → undo_list n t = Some l →
  let s := set_sma (λ a, with_list_id (u :: list_id a) a) (upd_undo u (λ _, mk_undo (perm_id a) (replicate (sem_nsems a) 0)) (at_env n a)) in
  ns_ok (set_list_proc (<[l := u :: list_proc n l]> (list_proc n)) (sem_unlock i s n)).
Proof.
  intros O Ha Hfr Ht s. assert (∀ k, u ∉ list_proc n k) as Hnp.
  { intros k Hk. destruct (n_proc _ _ O k u Hk) as (j & b & Hb & Hub). by apply (Hfr j b). }
  assert (∀ v, v ≠ u → undos (env s) v = undos (ns_env n) v) as Hold by (intros v Hv; simpl; by rewrite fn_lookup_insert_ne).
  assert (∀ k v, v ∈ (<[l := u :: list_proc n l]> (list_proc n)) k ↔ (k = l ∧ v = u) ∨ v ∈ list_proc n k) as Hp.
  { intros k v. destruct (decide (k = l)) as [->|]; [rewrite fn_lookup_insert, elem_of_cons; naive_solver|rewrite fn_lookup_insert_ne by done; naive_solver]. }
  assert (∀ j b, <[i := sma s]> (arrays n) !! j = Some b → ∃ b0, arrays n !! j = Some b0 ∧ sem_pending b = sem_pending b0 ∧ perm_id b = perm_id b0 ∧ perm_seq b = perm_seq b0 ∧
    ∀ v, v ∈ list_id b ↔ (j = i ∧ v = u) ∨ v ∈ list_id b0) as Hl.
  { intros j b [[<- <-]|[Hne Hb]]%lookup_insert_Some; [exists a|exists b]; split_and!; try done; intros v; [simpl; rewrite elem_of_cons|]; naive_solver. }
  split; cbn [arrays ns_env undo_list list_proc refcnt ids_seq set_list_proc sem_unlock].
  - intros j b [[<- <-]|[Hne Hb]]%lookup_insert_Some.
    + change (at_env _ (sma s)) with s. apply new_undo_inv; [by apply (n_inv _ _ O i)|by apply (Hfr i)|]. intros q Hq Eu.
      destruct (n_undo _ _ O i a q u Ha Hq Eu) as [? _]. by apply (Hfr i a).
    + apply (other_inv b (ns_env n)); [by apply (n_inv _ _ O j)|done| |].
      * intros v Hv. apply Hold. intros ->. by apply (Hfr j b).
      * intros HR v. simpl. destruct (decide (v = u)) as [->|]; [rewrite fn_lookup_insert; apply Forall_replicate; unfold is_short; lia|by rewrite fn_lookup_insert_ne].
  - intros j b (b0 & Hb & _ & -> & -> & _)%Hl. by apply (n_id _ _ O).
  - apply O.
  - intros j k b c q (b0 & Hb & -> & _)%Hl (c0 & Hc & -> & _)%Hl. by apply (n_pend _ _ O j k b0 c0 q).
  - intros q. etrans; [exact (n_sleep _ _ O q)|]. split.
    + intros (j & b & Hb & Hq). destruct (decide (i = j)) as [<-|Hne]; [exists i, (sma s); rewrite lookup_insert_eq; by simplify_eq|exists j, b; by rewrite lookup_insert_ne].
    + intros (j & b & (b0 & Hb & Ep & _)%Hl & Hq). rewrite Ep in Hq. eauto.
  - intros j b q (b0 & Hb & -> & _)%Hl. by apply (n_status _ _ O j b0).
  - intros j b v (b0 & Hb & _ & -> & _ & Hv)%Hl. intros [[-> ->]|Hin]%Hv.
    + simpl. rewrite fn_lookup_insert. simplify_eq. split; [done|]. exists l. apply Hp. by left.
    + rewrite Hold by (intros ->; by apply (Hfr j b0)). destruct (n_list _ _ O j b0 v Hb Hin) as [? [k ?]]. split; [done|]. exists k. apply Hp. by right.
  - intros k v [[-> ->]|Hv]%Hp; [exists i, (sma s); rewrite lookup_insert_eq; split; [done|left]|]. destruct (n_proc _ _ O k v Hv) as (j & b & Hb & Hvb).
    destruct (decide (i = j)) as [<-|Hne]; [exists i, (sma s); rewrite lookup_insert_eq; simplify_eq; split; [done|by right]|exists j, b; by rewrite lookup_insert_ne].
  - intros k k' v [[-> ->]|Hv]%Hp [[-> ?]|Hv']%Hp; [done|by destruct (Hnp k')|by subst; destruct (Hnp k)|by apply (n_once _ _ O k k' v)].
  - intros k. destruct (decide (k = l)) as [->|]; [rewrite fn_lookup_insert; apply NoDup_cons; split; [done|apply O]|rewrite fn_lookup_insert_ne by done; apply O].
  - intros j b q v (b0 & Hb & -> & _ & _ & Hv)%Hl Hq Eu. destruct (n_undo _ _ O j b0 q v Hb Hq Eu) as (? & k & ? & ?). split; [apply Hv; by right|].
    exists k. split; [done|]. apply Hp. by right.
  - apply O.
  - intros k Hx Hk. assert (k ≠ l) as Hne by (intros ->; by destruct (Hk t)). rewrite fn_lookup_insert_ne by done. by apply (n_dead _ _ O).
  - intros v. simpl. destruct (decide (v = u)) as [->|]; [rewrite fn_lookup_insert; apply Forall_replicate; unfold is_short; lia|rewrite fn_lookup_insert_ne by done; apply (n_adj _ _ O)].
  - apply O.
Qed.

(** The values of the semaphores of set [i]. *)
Definition levels (n : ipc_ns) (i : Z) : option (list Z) := (λ a, semval <$> sem_base a) <$> arrays n !! i.

(** The undo structure found belongs to the set and to the task. *)
Lemma find_alloc_undo_ok t semid new_list new n :
  ns_ok n → 0 ≤ semid → (∀ l, new_list = Some l → fresh_list l n) → (∀ u, new = Some u → fresh_undo u n) →
  let '(r, n') := find_alloc_undo t semid new_list new n in
  ns_ok n' ∧ quiet n n' ∧ (∀ i, levels n' i = levels n i) ∧
  match r with
  | inl e => e ≠ 0
  | inr u => ∃ l, undo_list n' t = Some l ∧ u ∈ list_proc n' l ∧ un_semid (undos (ns_env n') u) = semid
  end.
Proof.
  intros O Hid Hnl Hnu. unfold find_alloc_undo. pose proof (get_undo_list_ok t new_list n O Hnl) as Hg. destruct (get_undo_list t new_list n) as [e|[l n1]] eqn:Eg.
  { split_and!; [done|done|done|]. unfold get_undo_list in Eg. destruct (undo_list n t), new_list; by simplify_eq. }
  destruct Hg as (O1 & Et & Ea & Ee). pose proof (lookup_undo_ok None l semid n1 O1) as Hlk. destruct (lookup_undo l semid n1) as [r n2].
  destruct Hlk as (O2 & Ea2 & Ee2 & Eu2 & Hp2 & Hr). assert (quiet n n2) as Hq by (apply quiet_same; congruence).
  assert (∀ i, levels n2 i = levels n i) as Hv by (intros i; unfold levels; by rewrite Ea2, Ea). destruct r as [u|].
  - destruct Hr as [Hu Es]. split_and!; [done..|]. exists l. rewrite Eu2, Ee2. done.
  - destruct (ipc_lock_check semid n2) as [e|[i a]] eqn:El; [split_and!; [done..|by apply lock_check_err in El]|]. destruct new as [u|]; [|done].
    pose proof (lock_check_id _ _ _ _ _ O2 Hid El) as Epid. apply lock_check_some in El as (Ha & _). rewrite <- Epid. split_and!.
    + apply (new_undo_ok n2 i a l u t); [done|done| |by rewrite Eu2]. intros j b. rewrite Ea2, Ea. by apply Hnu.
    + etrans; [exact Hq|]. split_and!; [done|done|]. intros j b Hb. simpl. destruct (decide (i = j)) as [<-|Hne].
      * rewrite lookup_insert_eq. simplify_eq. by eexists.
      * rewrite lookup_insert_ne by done. by exists b.
    + intros j. rewrite <- Hv. unfold levels. simpl. destruct (decide (i = j)) as [<-|Hne]; [by rewrite lookup_insert_eq, Ha|by rewrite lookup_insert_ne].
    + exists l. simpl. rewrite !fn_lookup_insert, Eu2. split_and!; [done|left|done].
Qed.

(** An undo structure for the identifier of a set is a structure of the set. *)
Lemma undo_of_set x n i a l u :
  ns_ok_but x n → arrays n !! i = Some a → u ∈ list_proc n l → un_semid (undos (ns_env n) u) = perm_id a → u ∈ list_id a.
Proof.
  intros O Ha Hu Es. destruct (n_proc _ _ O l u Hu) as (j & b & Hb & Hub). destruct (n_list _ _ O j b u Hb Hub) as [Eb _].
  destruct (n_id _ _ O i a Ha) as (I1 & I2 & _), (n_id _ _ O j b Hb) as (J1 & J2 & _). destruct (id_idx i a I1 I2) as [Ei _], (id_idx j b J1 J2) as [Ej _].
  assert (i = j) as <- by congruence. by simplify_eq.
Qed.

(** A task that runs is in no queue. *)
Lemma awake_not_pending x n i a t : ns_ok_but x n → arrays n !! i = Some a → awake (ns_env n) t = true → t ∉ sem_pending a.
Proof. intros O Ha Ht Hin. assert (awake (ns_env n) t = false) by (apply (n_sleep _ _ O); eauto). congruence. Qed.

(** ** [semtimedop] *)

Definition fresh_memory (new_list new : option nat) (n : ipc_ns) : Prop :=
  (∀ l, new_list = Some l → fresh_list l n) ∧ (∀ u, new = Some u → fresh_undo u n).

(** The call of task [t] comes to the lock of the set [a] at [i], with the undo
    structure [un]. *)
Record locked (t : nat) (semid : Z) (sops : list sembuf) (un : option nat) (n : ipc_ns) (i : Z) (a : sem_array) : Prop := {
  lk_ok : ns_ok n;
  lk_set : arrays n !! i = Some a;
  lk_id : perm_id a = semid;
  lk_awake : awake (ns_env n) t = true;
  lk_some : sops ≠ [];
  lk_fits : undo_fits un (at_env n a) sops;
  lk_undo : ∀ u, un = Some u → u ∈ list_id a ∧ ∃ l, undo_list n t = Some l ∧ u ∈ list_proc n l
}.

Local Ltac refused n := exists n; split_and!; [done|done|done|left; eexists; split; [|reflexivity]; done].
Lemma semtimedop_cases t semid sops new_list new access n :
  ns_ok n → awake (ns_env n) t = true → fresh_memory new_list new n →
  ∃ n1, ns_ok n1 ∧ quiet n n1 ∧ (∀ i, levels n1 i = levels n i) ∧
  ((∃ e, e ≠ 0 ∧ semtimedop t semid sops new_list new access n = (Some e, n1)) ∨
   (∃ i a un, locked t semid sops un n1 i a ∧
      semtimedop t semid sops new_list new access n = let '(r, s) := semop_locked t sops un access (at_env n1 a) in (r, sem_unlock i s n1))).
Proof.
  intros O Ht [Hnl Hnu]. unfold semtimedop. destruct (Nat.ltb_spec (length sops) 1) as [|Hlen]; [refused n|]. destruct (Z.ltb_spec semid 0) as [|Hid]; [refused n|].
  cbn [orb]. destruct (SEMOPM <? length sops)%nat; [refused n|]. assert (sops ≠ []) as Hne by (by destruct sops; [simpl in Hlen; lia|]).
  destruct (existsb (has_flag SEM_UNDO) sops) eqn:Ef.
  - pose proof (find_alloc_undo_ok t semid new_list new n O Hid Hnl Hnu) as Hf. destruct (find_alloc_undo t semid new_list new n) as [r n1].
    destruct Hf as (O1 & Hq & Hv & Hf). exists n1. split_and!; [done..|]. destruct r as [e|u]; [left; by exists e|].
    destruct Hf as (l & Hl & Hul & Es). destruct (ipc_lock_check semid n1) as [e|[i a]] eqn:El; [left; exists e; split; [by apply lock_check_err in El|done]|].
    right. exists i, a, (Some u). split; [|done]. pose proof (lock_check_id _ _ _ _ _ O1 Hid El) as Epid. apply lock_check_some in El as (Ha & _).
    assert (u ∈ list_id a) as Hua by (apply (undo_of_set None n1 i a l); [done..|by rewrite Es]).
    split; try done; [by rewrite (proj1 (proj2 Hq))| |intros v [= <-]; eauto]. intros sop _ _. exists u. split_and!; [done|done|]. by apply (n_inv _ _ O1 i a Ha).
  - exists n. split_and!; [done..|]. destruct (ipc_lock_check semid n) as [e|[i a]] eqn:El; [left; exists e; split; [by apply lock_check_err in El|done]|].
    right. exists i, a, None. split; [|done]. pose proof (lock_check_id _ _ _ _ _ O Hid El) as Epid. apply lock_check_some in El as (Ha & _). split; try done.
    intros sop Hin Hs. assert (existsb (has_flag SEM_UNDO) sops = true) by (apply existsb_exists; exists sop; by rewrite <- list_elem_of_In). congruence.
Qed.

(** After a call of task [t] on set [semid]. *)
Definition called (t : nat) (semid : Z) (sops : list sembuf) (n n' : ipc_ns) (r : option Z) : Prop :=
  ns_ok n' ∧ goes_on (Some t) n n' ∧
  match r with Some _ => awake (ns_env n') t = true | None => sleeps n' t semid ∧ q_sops (queues (ns_env n') t) = sops end.

(** From the lock on. *)
Lemma semop_called t semid sops un access n i a :
  locked t semid sops un n i a →
  let '(r, s') := semop_locked t sops un access (at_env n a) in called t semid sops n (sem_unlock i s' n) r.
Proof.
  intros [O Ha <- Ht Hne Hfit Hu]. pose proof (n_inv _ _ O i a Ha) as [Iok Hsz]. pose proof (awake_not_pending _ n i a t O Ha Ht) as Hnp.
  pose proof (semop_locked_ok t sops un access (at_env n a) Iok Hnp Hne Hfit) as Hs. destruct (semop_locked t sops un access (at_env n a)) as [[e|] s'].
  - assert (turn None un (at_env n a) s') as T by (case_decide; [destruct Hs as [ws F]; by eapply finished_turn|subst s'; by apply turn_refl]).
    split_and!; [by apply (unlock_ok None n i a None un)|by apply goes_on_none, (unlock_goes_on None n i a None un)|]. simpl.
    destruct (unlock_goes_on None n i a None un s' O Ha T t ltac:(done)) as [_ Hw]. simpl in Hw. destruct (awake (env s') t); [done|]. naive_solver congruence.
  - pose proof (slept_turn t sops un _ _ Hs Hnp Hsz) as T. split_and!.
    + apply (unlock_ok None n i a (Some t) un); [done..|]. by intros q [= <-].
    + by apply (unlock_goes_on None n i a (Some t) un).
    + exists i, (sma s'). simpl. rewrite lookup_insert_eq.
      split_and!; [done| |pose proof (tu_shell _ _ _ _ T) as E; unfold shell in E; simpl in E; congruence].
      rewrite (sl_pending _ _ _ _ _ Hs). apply elem_of_waiter. by left.
    + apply (sl_task _ _ _ _ _ Hs).
Qed.

Lemma semtimedop_ok t semid sops new_list new access n :
  ns_ok n → awake (ns_env n) t = true → fresh_memory new_list new n →
  let '(r, n') := semtimedop t semid sops new_list new access n in called t semid sops n n' r.
Proof.
  intros O Ht Hm. destruct (semtimedop_cases t semid sops new_list new access n O Ht Hm) as (n1 & O1 & Hq & _ & [(e & _ & ->)|(i & a & un & L & ->)]).
  - split_and!; [done|by apply goes_on_none, quiet_goes_on|by rewrite (proj1 (proj2 Hq))].
  - pose proof (semop_called t semid sops un access n1 i a L) as Hs. destruct (semop_locked _ _ _ _ _) as [r s']. destruct Hs as (C1 & C2 & C3).
    split_and!; [done| |done]. etrans; [|exact C2]. by apply goes_on_none, quiet_goes_on.
Qed.

(** A task that already runs is woken. *)
Lemma awake_ok x n t : ns_ok_but x n → awake (ns_env n) t = true → ns_ok_but x (set_awake_ns t n) ∧ quiet n (set_awake_ns t n).
Proof.
  intros O Ht. assert (∀ q, awake (ns_env (set_awake_ns t n)) q = awake (ns_env n) q) as E.
  { intros q. simpl. destruct (decide (q = t)) as [->|]; [by rewrite fn_lookup_insert|by rewrite fn_lookup_insert_ne]. }
  split; [|split_and!; [done|done|]; simpl; eauto]. split; try apply O.
  - intros i a Ha. apply (other_inv a (ns_env n)); [by apply (n_inv _ _ O i)|done..].
  - intros q. rewrite E. apply O.
Qed.

(** The task leaves the queue on its own. *)
Lemma leave_turn n a t :
  sem_inv (at_env n a) → t ∈ sem_pending a →
  let s' := unlink_queue t (mk_sst a (ns_env (set_awake_ns t n))) in
  turn (Some t) None (at_env n a) s' ∧ t ∉ sem_pending (sma s') ∧ awake (env s') t = true.
Proof.
  intros I Ht. set (s0 := mk_sst a (ns_env (set_awake_ns t n))). assert (sem_inv s0) as [I0 Hsz] by (by apply (other_inv a (ns_env n))).
  destruct (unlink_ok t s0 (proj1 I0) Ht) as (U1 & U2 & U3 & U4 & U5). unfold frame in U5. assert (undo_kept (at_env n a) (unlink_queue t s0)) as Hu.
  { apply undo_kept_same; [simpl; change (list_id a) with (list_id (sma s0)); congruence|by rewrite U4]. }
  assert (∀ q, q ≠ t → awake (env s0) q = awake (ns_env n) q) as Hw by (intros q Hq; simpl; by rewrite fn_lookup_insert_ne).
  cbn zeta. split_and!; [|rewrite U2, elem_of_remove; naive_solver|rewrite U4; simpl; by rewrite fn_lookup_insert].
  split; unfold queue_of in *; rewrite ?U2, ?U4; try done.
  - split; [by apply unlink_sem_ok|]. eapply undo_sized_kept; [exact Hu| |apply I]. change (sem_nsems (sma (at_env n a))) with (sem_nsems (sma s0)). congruence.
  - intros q [Hq Hin]%elem_of_remove. left. split_and!; [done|done|by apply Hw].
  - intros q Hin. rewrite elem_of_remove. intros Hn. destruct (decide (q = t)) as [->|Hq]; [|tauto]. split; [simpl; by rewrite fn_lookup_insert|done].
  - intros q Hn _. split; [done|]. apply Hw. by intros ->.
  - change (shell (at_env n a)) with (shell s0). unfold shell. congruence.
Qed.

Lemma semtimedop_end_ok t semid timed_out n :
  ns_ok n → waits n t semid →
  let '(r, n') := semtimedop_end t semid timed_out n in
  ns_ok n' ∧ goes_on (Some t) n n' ∧ awake (ns_env n') t = true ∧
  ((sleeps n t semid ∧ r = if timed_out then - Err.EAGAIN else - Err.EINTR) ∨ (answered n t ∧ r = q_status (queues (ns_env n) t))).
Proof.
  intros O [(i & a & Ha & Ht & Ei)|Hans]; unfold semtimedop_end; cbn zeta; change (queues (ns_env (set_awake_ns t n))) with (queues (ns_env n)).
  - pose proof (n_status _ _ O i a t Ha Ht) as Es. rewrite Es. change (negb _) with false. cbn iota. destruct (n_id _ _ O i a Ha) as (I1 & I2 & _).
    destruct (id_idx i a I1 I2) as [Eidx _]. unfold ipc_lock. change (arrays (set_awake_ns t n)) with (arrays n). rewrite <- Ei, Eidx, Ha.
    unfold semop_interrupted, queue_of. cbn [env]. change (queues (ns_env (set_awake_ns t n))) with (queues (ns_env n)). rewrite Es. change (negb _) with false. cbn iota.
    destruct (leave_turn n a t (n_inv _ _ O i a Ha) Ht) as (T & Hnp & Hw). set (s' := unlink_queue _ _) in *. change (sem_unlock i s' (set_awake_ns t n)) with (sem_unlock i s' n). split_and!.
    + apply (unlock_ok None n i a (Some t) None); [done..|]. by intros q [= <-] Hin.
    + by apply (unlock_goes_on None n i a (Some t) None).
    + done.
    + left. split; [by exists i, a|]. done.
  - destruct Hans as [Hw Hst]. destruct (awake_ok None n t O Hw) as [O' Hq].
    assert (q_status (queues (ns_env n) t) ≠ - Err.EINTR) as Hne by (rewrite !elem_of_cons, elem_of_nil in Hst; destruct Hst as [->|[->|[->|[->|[]]]]]; done).
    rewrite (proj2 (Z.eqb_neq _ _) Hne). cbn [negb]. split_and!; [done|by apply goes_on_none, quiet_goes_on|simpl; by rewrite fn_lookup_insert|]. right. by split.
Qed.

(** ** Tasks come and go *)

(** Another task shares the undo list. *)
Lemma share_ok n t t' l :
  ns_ok n → undo_list n t = Some l → undo_list n t' = None → ns_ok (set_undo_list t' (Some l) (set_refcnt l (refcnt n l + 1) n)).
Proof.
  intros O Ht Ht'. assert (∀ q k, (<[t' := Some l]> (undo_list n)) q = Some k ↔ (q = t' ∧ k = l) ∨ undo_list n q = Some k) as Hul.
  { intros q k. destruct (decide (q = t')) as [->|]; [rewrite fn_lookup_insert, Ht'; naive_solver|rewrite fn_lookup_insert_ne by done; naive_solver]. }
  split; cbn [arrays ns_env undo_list list_proc refcnt ids_seq set_undo_list set_refcnt]; try apply O.
  - intros i a q u Ha Hq Hu. destruct (n_undo _ _ O i a q u Ha Hq Hu) as (? & k & ? & ?). split; [done|]. exists k. split; [|done]. apply Hul. by right.
  - intros k q Hq. assert (undo_list n (if decide (k = l) then t else q) = Some k) as Hk.
    { apply Hul in Hq as [[-> ->]|Hq]; [by rewrite decide_True|]. by case_decide; subst. }
    destruct (n_ref _ _ O k _ Hk) as (ts & Hnd & Hlen & Hts). destruct (decide (k = l)) as [->|Hne].
    + rewrite fn_lookup_insert. exists (t' :: ts). split_and!; [apply NoDup_cons; split; [rewrite Hts; congruence|done]|simpl; lia|]. intros p. rewrite elem_of_cons, Hts, Hul. naive_solver.
    + rewrite fn_lookup_insert_ne by done. exists ts. split_and!; [done|done|]. intros p. rewrite Hts, Hul. naive_solver.
  - intros k Hx Hk. apply (n_dead _ _ O k Hx). intros q Hq. apply (Hk q), Hul. by right.
Qed.

Lemma undo_list_none_ok x n t : ns_ok_but x n → undo_list n t = None → ns_ok_but x (set_undo_list t None n).
Proof.
  intros O Ht. assert (∀ q, (<[t := None]> (undo_list n)) q = undo_list n q) as E.
  { intros q. destruct (decide (q = t)) as [->|]; [by rewrite fn_lookup_insert|by rewrite fn_lookup_insert_ne]. }
  split; cbn [arrays ns_env undo_list list_proc refcnt ids_seq set_undo_list]; try apply O.
  - intros i a q u. rewrite E. by apply (n_undo _ _ O).
  - intros l q. rewrite E. intros Hq. destruct (n_ref _ _ O l q Hq) as (ts & ? & ? & Hts). exists ts. split_and!; [done|done|]. intros p. by rewrite E.
  - intros l Hx Hk. apply (n_dead _ _ O l Hx). intros q. rewrite <- E. apply Hk.
Qed.

Lemma copy_semundo_ok clone t t' new n :
  ns_ok n → t ≠ t' → undo_list n t' = None → (∀ l, new = Some l → fresh_list l n) →
  ns_ok (copy_semundo clone t t' new n).2 ∧ quiet n (copy_semundo clone t t' new n).2.
Proof.
  intros O Hne Ht' Hnew. unfold copy_semundo. destruct clone; [|split; [by apply undo_list_none_ok|by apply quiet_same]].
  pose proof (get_undo_list_ok t new n O Hnew) as Hg. assert (∀ l n', get_undo_list t new n = inr (l, n') → undo_list n' t' = None) as Hk.
  { unfold get_undo_list. destruct (undo_list n t); [by intros ? ? [= <- <-]|]. destruct new; [|done]. intros ? ? [= <- <-]. simpl. by rewrite fn_lookup_insert_ne. }
  destruct (get_undo_list t new n) as [|[l n1]]; [done|]. destruct Hg as (O1 & Et & Ea & Ee). split; [apply (share_ok n1 t); [done|done|by apply (Hk l)]|by apply quiet_same].
Qed.

(** Task [t] gives up its undo list. *)
Lemma leave_list_ok n t l :
  ns_ok n → undo_list n t = Some l → awake (ns_env n) t = true →
  let n1 := set_refcnt l (refcnt n l - 1) (set_undo_list t None n) in
  if refcnt n1 l =? 0 then ns_ok_but (Some l) n1 ∧ ∀ q, undo_list n1 q ≠ Some l else ns_ok n1.
Proof.
  intros O Ht Hw n1. destruct (n_ref _ _ O l t Ht) as (ts & Hnd & Hlen & Hts).
  assert (∀ q k, undo_list n1 q = Some k ↔ q ≠ t ∧ undo_list n q = Some k) as Hul.
  { intros q k. simpl. destruct (decide (q = t)) as [->|]; [rewrite fn_lookup_insert; naive_solver|rewrite fn_lookup_insert_ne by done; naive_solver]. }
  assert (refcnt n1 l = refcnt n l - 1) as Er by (simpl; by rewrite fn_lookup_insert).
  assert (∀ x, (∀ k, x ≠ Some k → (∀ q, undo_list n1 q ≠ Some k) → list_proc n k = []) → ns_ok_but x n1) as H.
  { intros x Hx. split; try apply O; [| |exact Hx].
    - intros i a q u Ha Hq Hu. destruct (n_undo _ _ O i a q u Ha Hq Hu) as (? & k & ? & ?). split; [done|]. exists k. split; [|done]. apply Hul. split; [|done].
      intros ->. by apply (awake_not_pending _ n i a t O).
    - intros k q [Hq Hk]%Hul. destruct (decide (k = l)) as [->|Hne].
      + rewrite Er. exists (list_remove t ts). split_and!; [by apply NoDup_filter| |intros p; by rewrite elem_of_remove, Hts, Hul].
        rewrite <- Hlen. assert (t ∈ ts) as Hin by (by apply Hts). pose proof (remove_length t ts Hnd Hin). lia.
      + assert (refcnt n1 k = refcnt n k) as -> by (simpl; by rewrite fn_lookup_insert_ne). destruct (n_ref _ _ O k q Hk) as (us & ? & ? & Hus). exists us. split_and!; [done|done|]. intros p. rewrite Hul, Hus.
        split; [|naive_solver]. intros Hp. split; [|done]. intros ->. congruence. }
  rewrite Er. assert (∀ q, undo_list n1 q = Some l ↔ q ∈ list_remove t ts) as Hl by (intros q; by rewrite Hul, elem_of_remove, Hts).
  assert (Z.of_nat (length (list_remove t ts)) = refcnt n l - 1) as Hlen' by (pose proof (remove_length t ts Hnd (proj2 (Hts t) Ht)); lia).
  destruct (Z.eqb_spec (refcnt n l - 1) 0) as [E|E].
  - split; [apply H|].
    + intros k Hk Hq. apply (n_dead _ _ O k ltac:(done)). intros q Hqk. destruct (decide (q = t)) as [->|]; [congruence|]. by apply (Hq q), Hul.
    + intros q Hq%Hl. destruct (list_remove t ts); [by apply not_elem_of_nil in Hq|simpl in Hlen'; lia].
  - apply H. intros k _ Hq. destruct (decide (k = l)) as [->|Hne].
    + destruct (list_remove t ts) as [|q r] eqn:El; [simpl in Hlen'; lia|]. destruct (Hq q). apply Hl. left.
    + apply (n_dead _ _ O k ltac:(done)). intros q Hqk. apply (Hq q), Hul. split; [|done]. intros ->. congruence.
Qed.

(** An undo structure is taken off its list and its set. *)
Lemma drop_undo_ok n i a l u :
  ns_ok_but (Some l) n → (∀ q, undo_list n q ≠ Some l) → arrays n !! i = Some a → u ∈ list_id a → u ∈ list_proc n l →
  let a1 := with_list_id (list_remove u (list_id a)) a in
  let n1 := set_list_proc (<[l := list_remove u (list_proc n l)]> (list_proc n)) n in
  (∀ q, q ∈ sem_pending a → q_undo (queues (ns_env n) q) ≠ Some u) ∧ ns_ok_but (Some l) (sem_unlock i (at_env n a1) n1).
Proof.
  intros O Hnt Ha Hua Hul a1 n1. assert (∀ j b q, arrays n !! j = Some b → q ∈ sem_pending b → q_undo (queues (ns_env n) q) ≠ Some u) as Hq.
  { intros j b q Hb Hq Eu. destruct (n_undo _ _ O j b q u Hb Hq Eu) as (_ & k & Hk & Huk). rewrite (n_once _ _ O k l u Huk Hul) in Hk. by destruct (Hnt q). }
  split; [intros q; by apply (Hq i)|].
  assert (∀ k v, v ∈ (<[l := list_remove u (list_proc n l)]> (list_proc n)) k ↔ v ≠ u ∧ v ∈ list_proc n k) as Hp.
  { intros k v. destruct (decide (k = l)) as [->|Hk]; [by rewrite fn_lookup_insert, elem_of_remove|rewrite fn_lookup_insert_ne by done].
    split; [|naive_solver]. intros Hv. split; [|done]. intros ->. destruct Hk. by apply (n_once _ _ O k l u). }
  assert (∀ j b, <[i := a1]> (arrays n) !! j = Some b → ∃ b0, arrays n !! j = Some b0 ∧ sem_pending b = sem_pending b0 ∧ perm_id b = perm_id b0 ∧ perm_seq b = perm_seq b0 ∧
    ∀ v, v ∈ list_id b ↔ v ≠ u ∧ v ∈ list_id b0) as Hl.
  { intros j b [[<- <-]|[Hne Hb]]%lookup_insert_Some; [exists a|exists b]; split_and!; try done; intros v; [by simpl; rewrite elem_of_remove|].
    split; [|naive_solver]. intros Hv. split; [|done]. intros ->. destruct Hne. by apply (list_id_inj (Some l) n i j a b u). }
  assert (∀ j b, arrays n !! j = Some b → ∃ b1, <[i := a1]> (arrays n) !! j = Some b1 ∧ sem_pending b1 = sem_pending b) as Hr.
  { intros j b Hb. destruct (decide (i = j)) as [<-|Hne]; [exists a1; rewrite lookup_insert_eq; by simplify_eq|exists b; by rewrite lookup_insert_ne]. }
  split; cbn [arrays ns_env undo_list list_proc refcnt ids_seq set_list_proc sem_unlock sma env at_env n1].
  - intros j b [[<- <-]|[Hne Hb]]%lookup_insert_Some; [|by apply (n_inv _ _ O j)].
    apply (drop_undo_inv u (at_env n a)); [by apply (n_inv _ _ O i)|by intros q; apply (Hq i)].
  - intros j b (b0 & Hb & _ & -> & -> & _)%Hl. by apply (n_id _ _ O).
  - apply O.
  - intros j k b c q (b0 & Hb & -> & _)%Hl (c0 & Hc & -> & _)%Hl. by apply (n_pend _ _ O j k b0 c0 q).
  - intros q. rewrite (n_sleep _ _ O q). split; [intros (j & b & (b1 & ? & <-)%Hr & ?); eauto|intros (j & b & (b0 & ? & -> & _)%Hl & ?); eauto].
  - intros j b q (b0 & Hb & -> & _)%Hl. by apply (n_status _ _ O j b0).
  - intros j b v (b0 & Hb & _ & -> & _ & Hv)%Hl [Hvu Hin]%Hv. destruct (n_list _ _ O j b0 v Hb Hin) as [? [k ?]]. split; [done|]. exists k. by apply Hp.
  - intros k v [Hvu Hv]%Hp. destruct (n_proc _ _ O k v Hv) as (j & b & Hb & Hvb). destruct (decide (i = j)) as [<-|Hne].
    + exists i, a1. rewrite lookup_insert_eq. simplify_eq. split; [done|]. simpl. by apply elem_of_remove.
    + exists j, b. by rewrite lookup_insert_ne.
  - intros k k' v [_ ?]%Hp [_ ?]%Hp. by apply (n_once _ _ O k k' v).
  - intros k. destruct (decide (k = l)) as [->|]; [rewrite fn_lookup_insert; apply NoDup_filter, O|rewrite fn_lookup_insert_ne by done; apply O].
  - intros j b q v (b0 & Hb & -> & _ & _ & Hv)%Hl Hin Eu. destruct (n_undo _ _ O j b0 q v Hb Hin Eu) as (? & k & ? & ?).
    assert (v ≠ u) as Hvu by (intros ->; by destruct (Hq j b0 q Hb Hin)). split; [by apply Hv|]. exists k. split; [done|]. by apply Hp.
  - apply O.
  - intros k Hx Hk. rewrite fn_lookup_insert_ne by congruence. by apply (n_dead _ _ O).
  - apply O.
  - apply O.
Qed.

(** One undo structure is applied. *)
Lemma exit_one_ok n i a l u :
  ns_ok_but (Some l) n → (∀ q, undo_list n q ≠ Some l) → arrays n !! i = Some a → u ∈ list_id a → u ∈ list_proc n l →
  let n' := sem_unlock i (exit_undo u (at_env n a)) (set_list_proc (<[l := list_remove u (list_proc n l)]> (list_proc n)) n) in
  ns_ok_but (Some l) n' ∧ goes_on None n n'.
Proof.
  intros O Hnt Ha Hua Hul. set (n1 := set_list_proc _ n). cbn zeta. destruct (drop_undo_ok n i a l u O Hnt Ha Hua Hul) as [Hq O2]. fold n1 in O2.
  set (a1 := with_list_id _ a) in *. set (n2 := sem_unlock i (at_env n a1) n1) in *.
  assert (arrays n2 !! i = Some a1) as Ha1 by (simpl; by rewrite lookup_insert_eq).
  destruct (exit_undo_ok u (at_env n a) (n_inv _ _ O i a Ha) Hq) as (s1 & ws & A & F & _).
  assert (turn None None (at_env n2 a1) (exit_undo u (at_env n a))) as T.
  { eapply assigned_turn; [exact A| |exact F]. apply (n_inv _ _ O2 i a1 Ha1). }
  assert (sem_unlock i (exit_undo u (at_env n a)) n1 = sem_unlock i (exit_undo u (at_env n a)) n2) as ->.
  { unfold sem_unlock. simpl. by rewrite insert_insert_eq. }
  split; [by apply (unlock_ok (Some l) n2 i a1 None None)|]. etrans; [|by apply (unlock_goes_on (Some l) n2 i a1 None None)].
  apply quiet_goes_on. split_and!; [done|done|]. intros j b Hb. simpl. destruct (decide (i = j)) as [<-|Hne].
  - rewrite lookup_insert_eq. simplify_eq. by exists a1.
  - rewrite lookup_insert_ne by done. by exists b.
Qed.

Lemma lock_found x n i a : ns_ok_but x n → arrays n !! i = Some a → ipc_lock_check (perm_id a) n = inr (i, a).
Proof.
  intros O Ha. destruct (n_id _ _ O i a Ha) as (I1 & I2 & _). destruct (id_idx i a I1 I2) as [E1 E2]. unfold ipc_lock_check, ipc_lock. by rewrite E1, Ha, E2, Z.eqb_refl.
Qed.

Lemma exit_loop_ok l fuel : ∀ n,
  ns_ok_but (Some l) n → (∀ q, undo_list n q ≠ Some l) → (length (list_proc n l) < fuel)%nat →
  let n' := exit_loop fuel l n in ns_ok n' ∧ goes_on None n n' ∧ list_proc n' l = [] ∧ undo_list n' = undo_list n.
Proof.
  induction fuel as [|fuel IH]; intros n O Hnt Hf; [lia|]. cbn [exit_loop]. destruct (list_proc n l) as [|un r] eqn:El.
  - split_and!; [|reflexivity|done|done]. destruct O. split; try done. intros k _. destruct (decide (k = l)) as [->|]; [done|]. apply n_dead0. congruence.
  - assert (un ∈ list_proc n l) as Hul by (rewrite El; left). destruct (n_proc _ _ O l un Hul) as (i & a & Ha & Hua). destruct (n_list _ _ O i a un Ha Hua) as [Es _].
    rewrite Es. destruct (n_id _ _ O i a Ha) as (? & ? & ?). destruct (Z.eqb_spec (perm_id a) (-1)) as [E|_]; [unfold IPCMNI in *; lia|].
    rewrite (lock_found _ n i a O Ha). assert (__lookup_undo l (perm_id a) n = Some un) as -> by (unfold __lookup_undo; by rewrite El, filter_cons_True).
    cbn zeta. change (mk_sst a (ns_env _)) with (at_env n a). rewrite <- El. destruct (exit_one_ok n i a l un O Hnt Ha Hua Hul) as [O1 G1]. set (n1 := sem_unlock _ _ _) in *.
    destruct (IH n1 O1 Hnt) as (A1 & A2 & A3 & A4).
    { simpl. rewrite fn_lookup_insert. pose proof (remove_length un _ (n_nodup _ _ O l) Hul). rewrite El in *. simpl in *. lia. }
    split_and!; [done|by etrans|done|done].
Qed.

Lemma exit_sem_ok t n :
  ns_ok n → awake (ns_env n) t = true →
  let n' := exit_sem t n in ns_ok n' ∧ goes_on None n n' ∧ undo_list n' t = None.
Proof.
  intros O Hw. unfold exit_sem. destruct (undo_list n t) as [l|] eqn:Et; [|by split_and!; [|reflexivity|]]. cbn zeta.
  pose proof (leave_list_ok n t l O Et Hw) as Hl. change (refcnt (set_undo_list t None n) l) with (refcnt n l). set (n1 := set_refcnt _ _ _) in *.
  assert (undo_list n1 t = None) as Et1 by (simpl; by rewrite fn_lookup_insert). assert (goes_on None n n1) as G by (by apply quiet_goes_on, quiet_same).
  cbn zeta in Hl. destruct (refcnt n1 l =? 0); cbn [negb]; [|done]. destruct Hl as [O1 Hnt]. destruct (exit_loop_ok l (S (length (list_proc n1 l))) n1 O1 Hnt ltac:(lia)) as (A1 & A2 & _ & A4).
  split_and!; [done|by etrans|by rewrite A4].
Qed.
