(* ===== verification/SysvCalls.v ===== *)
(** * System V semaphores: sequences of system calls (ipc/sem.c)

    Tasks make calls on the sets of a namespace, sleep in them, are woken or
    interrupted, create tasks and exit, in any order. *)

From stdpp Require Import functions.
From S2P Require Import Prelude SysvSem SysvSemInv SysvSemOps SysvNs.

(** ** Worlds *)

(** A namespace, and for a task in [semtimedop] the set of its call. *)
Record world := mk_world { w_ns : ipc_ns; w_call : nat → option Z }.

Definition ns_start : ipc_ns :=
  mk_ns ∅ 0 0 0 (λ _, None) (λ _, []) (λ _, 0)
    (mk_senv (λ _, mk_queue [] None 0 0 false) (λ _, mk_undo (-1) []) (λ _, true) 0 0 false).
Definition start : world := mk_world ns_start (λ _, None).

(** Another process runs, at another time. *)
Definition run_as (pid time : Z) (n : ipc_ns) : ipc_ns :=
  let e := ns_env n in set_ns_env (mk_senv (queues e) (undos e) (awake e) time pid (bugs e)) n.

Inductive call : world → world → Prop :=
  | call_semget w tries nsems mem security :
      Forall (λ x, free_index x.2) tries → call w (mk_world (semget tries nsems mem security (w_ns w)).2 (w_call w))
  | call_semctl w semid semnum cmd access : call w (mk_world (semctl semid semnum cmd access (w_ns w)).2 (w_call w))
  | call_rmid w semid access : call w (mk_world (semctl_rmid semid access (w_ns w)).2 (w_call w))
  | call_semop w t semid sops new_list new access r n' :
      w_call w t = None → fresh_memory new_list new (w_ns w) → semtimedop t semid sops new_list new access (w_ns w) = (r, n') →
      call w (mk_world n' (if r then w_call w else <[t := Some semid]> (w_call w)))
  | call_end w t semid timed_out :
      w_call w t = Some semid → call w (mk_world (semtimedop_end t semid timed_out (w_ns w)).2 (<[t := None]> (w_call w)))
  | call_copy w clone t t' new :
      w_call w t = None → t ≠ t' → undo_list (w_ns w) t' = None → (∀ l, new = Some l → fresh_list l (w_ns w)) →
      call w (mk_world (copy_semundo clone t t' new (w_ns w)).2 (w_call w))
  | call_exit w t : w_call w t = None → call w (mk_world (exit_sem t (w_ns w)) (w_call w))
  | call_run w pid time : call w (mk_world (run_as pid time (w_ns w)) (w_call w)).

Definition reachable : world → Prop := rtc call start.

(** ** The invariant *)

Record world_ok (w : world) : Prop := {
  wo_ns : ns_ok (w_ns w);
  wo_call : ∀ t semid, w_call w t = Some semid → waits (w_ns w) t semid;
  wo_sleep : ∀ t, awake (ns_env (w_ns w)) t = false → is_Some (w_call w t)
}.

Lemma idle_awake w t : world_ok w → w_call w t = None → awake (ns_env (w_ns w)) t = true.
Proof. intros O E. destruct (awake _ t) eqn:Ea; [done|]. destruct (wo_sleep _ O t Ea). congruence. Qed.

Lemma start_ok : world_ok start.
Proof.
  split; [|done..]. split; try done.
  - intros t. split; [done|]. by intros (i & a & ? & _).
  - by intros l u ?%not_elem_of_nil.
  - by intros l l' u ?%not_elem_of_nil.
  - intros l. constructor.
  - constructor.
Qed.

(** Of the calls only that of task [t] changes. *)
Lemma goes_on_ok w n' t c :
  world_ok w → ns_ok n' → goes_on t (w_ns w) n' → (∀ q, t ≠ Some q → c q = w_call w q) →
  (∀ q, t = Some q → match c q with Some semid => waits n' q semid | None => awake (ns_env n') q = true end) → world_ok (mk_world n' c).
Proof.
  intros O O' G Hc Ht. assert (∀ q, t = Some q ∨ t ≠ Some q) as Hd by (intros q; destruct (decide (t = Some q)); auto). split; [done| |]; simpl.
  - intros q semid Eq. destruct (Hd q) as [E|E]; [specialize (Ht q E); by rewrite Eq in Ht|]. rewrite Hc in Eq by done. by apply (G q E), (wo_call _ O).
  - intros q Hq. destruct (Hd q) as [E|E]; [specialize (Ht q E); destruct (c q); [done|congruence]|]. rewrite Hc by done. by apply (wo_sleep _ O), (proj2 (G q E)).
Qed.

Lemma run_ok pid time n : ns_ok n → ns_ok (run_as pid time n).
Proof. intros O. split; try apply O. intros i a Ha. apply (other_inv a (ns_env n)); [by apply (n_inv _ _ O i)|done..]. Qed.

Lemma call_ok w w' : world_ok w → call w w' → world_ok w'.
Proof.
  intros O Hc. pose proof (wo_ns _ O) as On. destruct Hc as [w tries nsems mem security Hf|w semid semnum cmd access|w semid access|w t semid sops new_list new access r n' Ht Hf E|w t semid timed_out Ht|w clone t t' new Ht Hne Hu Hf|w t Ht|w pid time].
  - destruct (semget_ok tries nsems mem security _ Hf On).
    apply (goes_on_ok w _ None); [done..|by apply quiet_goes_on|done|done].
  - destruct (semctl_ok semid semnum cmd access _ On). by apply (goes_on_ok w _ None).
  - apply (goes_on_ok w _ None); [done|by apply rmid_ok|by apply rmid_goes_on|done|done].
  - pose proof (semtimedop_ok t semid sops new_list new access _ On (idle_awake _ _ O Ht) Hf) as Hs. rewrite E in Hs. destruct Hs as (O' & G & Hr).
    apply (goes_on_ok w _ (Some t)); [done..| |].
    + intros q Hq. destruct r; [done|]. rewrite fn_lookup_insert_ne; [done|]. congruence.
    + intros q [= <-]. destruct r; [by rewrite Ht|]. rewrite fn_lookup_insert. left. apply Hr.
  - pose proof (semtimedop_end_ok t semid timed_out _ On (wo_call _ O t semid Ht)) as Hs. destruct (semtimedop_end _ _ _ _) as [r n']. destruct Hs as (O' & G & Hr & _).
    apply (goes_on_ok w _ (Some t)); [done..| |].
    + intros q Hq. rewrite fn_lookup_insert_ne; [done|]. congruence.
    + intros q [= <-]. by rewrite fn_lookup_insert.
  - destruct (copy_semundo_ok clone t t' new _ On Hne Hu Hf). apply (goes_on_ok w _ None); [done..|by apply quiet_goes_on|done|done].
  - destruct (exit_sem_ok t _ On (idle_awake _ _ O Ht)) as (? & ? & _). by apply (goes_on_ok w _ None).
  - apply (goes_on_ok w _ None); [done|by apply run_ok| |done|done]. apply quiet_goes_on. split_and!; [done|done|]. simpl. eauto.
Qed.

Lemma sysv_reachable_ok w : reachable w → world_ok w.
Proof. apply (rtc_ind_r world_ok); [apply start_ok|]. intros x y _ Hc O. by eapply call_ok. Qed.

(** ** Theorems *)

Lemma blocked_try s q : sok s → q ∈ sem_pending (sma s) → blocked s q →
  try_atomic_semop (q_sops (queue_of s q)) (q_undo (queue_of s q)) (q_pid (queue_of s q)) s = (1, s).
Proof.
  intros I Hq B. pose proof (try_ok (q_undo (queue_of s q)) (q_pid (queue_of s q)) (q_sops (queue_of s q)) s (en_sops _ _ (s_entry _ I q Hq))) as H.
  unfold blocked in B. by rewrite B in H.
Qed.

(** C16: a sequence of semaphore operations is done as a whole or not at all.  On
    success every semaphore has changed by the sum of its operations and is in
    its range; otherwise nothing at all has changed, and the result says whether
    the caller sleeps, must not sleep, or leaves the range. *)
Theorem try_atomic_all_or_nothing un pid sops s :
  Forall (sop_ok un s) sops → Forall (λ x, 0 ≤ x ≤ SEMVMX) (vals s) →
  let '(r, s') := try_atomic_semop sops un pid s in
  (r = 0 ∧ (∀ i, value s' i = value s i + sum_on i sops) ∧ Forall (λ x, 0 ≤ x ≤ SEMVMX) (vals s') ∧ rest s' = rest s) ∨
  ((r = 1 ∨ r = - Err.EAGAIN ∨ r = - Err.ERANGE) ∧ s' = s).
Proof.
  intros Hok Hv. pose proof (try_ok un pid sops s Hok) as Ht. destruct (attempt _ _ _) as [v|e] eqn:Hgo.
  - destruct Ht as (s' & -> & <- & Er & _). left. assert (Forall (λ sop, sem_num sop < length (vals s))%nat sops) as Hn.
    { eapply Forall_impl; [exact Hok|]. intros sop [? _]. by rewrite length_vals. }
    destruct (attempt_go _ _ _ _ Hn Hv Hgo) as (_ & ? & Hs & _). split_and!; [done| |done|done]. intros i. rewrite !value_vals. apply Hs.
  - rewrite Ht. right. split; [|done]. by eapply attempt_stop.
Qed.

(** C14: no wakeup is lost.  In every state that a sequence of system calls can
    reach, the tasks that sleep are those in the queue of one of the sets; the
    operations of each, tried now, would block; the values of the semaphores are
    in their range and no [BUG_ON] has fired.  A task in a call that does not
    sleep has the result of its call. *)
Theorem sysv_no_lost_wakeup w :
  reachable w →
  let e := ns_env (w_ns w) in
  bugs e = false ∧
  (∀ i a, arrays (w_ns w) !! i = Some a → Forall (λ m, 0 ≤ semval m ≤ SEMVMX) (sem_base a) ∧
    ∀ q, q ∈ sem_pending a → awake e q = false ∧
      let s := mk_sst a e in try_atomic_semop (q_sops (queues e q)) (q_undo (queues e q)) (q_pid (queues e q)) s = (1, s)) ∧
  (∀ q, awake e q = false → ∃ i a, arrays (w_ns w) !! i = Some a ∧ q ∈ sem_pending a) ∧
  (∀ q semid, w_call w q = Some semid → awake e q = true → answered (w_ns w) q).
Proof.
  intros [O Hc _]%sysv_reachable_ok e. split_and!; [apply O| |apply (n_sleep _ _ O)|].
  - intros i a Ha. destruct (n_inv _ _ O i a Ha) as [[I B] _]. split; [exact (proj1 (Forall_fmap _ _ _) (s_vals _ I))|]. intros q Hq. split; [apply (n_sleep _ _ O); eauto|].
    apply (blocked_try (at_env (w_ns w) a)); [done|done|by apply B].
  - intros q semid Hq Ha. destruct (Hc q semid Hq) as [(i & a & ? & ? & _)|]; [|done]. assert (awake e q = false) by (apply (n_sleep _ _ O); eauto). congruence.
Qed.

(** C15: [semop] on any reachable state.  When it succeeds, the values of its set
    are those after its own operations and then, one task after the other, those
    of the tasks it woke with success; a task woken otherwise is told why it
    cannot go on.  When it fails or sleeps no value changes, and every task that
    slept still does. *)
Theorem semop_serialises w t semid sops new_list new access r n' :
  reachable w → w_call w t = None → fresh_memory new_list new (w_ns w) →
  semtimedop t semid sops new_list new access (w_ns w) = (r, n') →
  let e := ns_env (w_ns w) in
  (r = Some 0 ∧ ∃ i a v' ws, arrays (w_ns w) !! i = Some a ∧ perm_id a = semid ∧ NoDup ws.*1 ∧
     (∀ q c, (q, c) ∈ ws → q ∈ sem_pending a ∧ awake (ns_env n') q = true ∧ q_status (queues (ns_env n') q) = c ∧ result_of (q_sops (queues e q)) c) ∧
     (∀ q, q ∉ ws.*1 → awake (ns_env n') q = awake e q) ∧
     performs (semval <$> sem_base a) (sops :: ((λ x, q_sops (queues e x.1)) <$> filter (λ x, x.2 = 0) ws)) v' ∧
     ∀ j, levels n' j = if decide (j = i) then Some v' else levels (w_ns w) j) ∨
  (r ≠ Some 0 ∧ (∀ j, levels n' j = levels (w_ns w) j) ∧ (∀ q, q ≠ t → awake (ns_env n') q = awake e q) ∧
     awake (ns_env n') t = match r with None => false | Some _ => true end).
Proof.
  intros O%sysv_reachable_ok Ht Hf E e. pose proof (idle_awake _ _ O Ht) as Hw. destruct (semtimedop_cases t semid sops new_list new access _ (wo_ns _ O) Hw Hf)
    as (n1 & O1 & (Hq & Ha & Hs) & Hv & [(c & Hne & E1)|(i & a & un & L & E1)]); rewrite E in E1.
  - injection E1 as -> ->. right. split_and!; [congruence|done|done|by rewrite Ha].
  - destruct L as [_ Ha1 Hid Hw1 Hne Hfit _]. destruct (n_inv _ _ O1 i a Ha1) as [Iok _]. pose proof (awake_not_pending _ n1 i a t O1 Ha1 Hw1) as Hnp.
    assert (∃ a0, arrays (w_ns w) !! i = Some a0 ∧ (semval <$> sem_base a0) = vals (at_env n1 a)) as (a0 & Ha0 & Ev).
    { pose proof (Hv i) as Hi. unfold levels in Hi. rewrite Ha1 in Hi. simpl in Hi. destruct (arrays (w_ns w) !! i) as [a0|]; [|done]. exists a0. split; [done|]. by injection Hi. }
    destruct (Hs i a0 Ha0) as (a' & Ha' & Ep & Ei). assert (a' = a) as -> by congruence. assert (∀ s' j, levels (sem_unlock i s' n1) j = if decide (j = i) then Some (vals s') else levels (w_ns w) j) as Hl.
    { intros s' j. rewrite <- Hv. unfold levels. simpl. case_decide; [subst; by rewrite lookup_insert_eq|by rewrite lookup_insert_ne]. }
    pose proof (semop_locked_ok t sops un access (at_env n1 a) Iok Hnp Hne Hfit) as Hr. destruct (semop_locked t sops un access (at_env n1 a)) as [r' s']. injection E1 as -> ->.
    assert (vals s' = vals (at_env n1 a) → ∀ j, levels (sem_unlock i s' n1) j = levels (w_ns w) j) as Hsame.
    { intros E' j. rewrite Hl, E', <- Ev. case_decide; [subst; unfold levels; by rewrite Ha0|done]. }
    destruct r' as [c|]; [case_decide as Ec; [subst c; left|right; subst s'; split_and!; [congruence|by apply Hsame|done|done]]|].
    + destruct Hr as [ws [F1 F2 F3 F4 F5 F6 F7 F8]]. split; [done|]. exists i, a0, (vals s'), ws. rewrite Ev, <- Ep. split_and!; [done|congruence|done| | | |done].
      * intros q c Hin. destruct (F3 q c Hin) as (? & Hr & ? & ?). unfold queue_of in Hr. simpl in Hr. by rewrite Hq in Hr.
      * intros q Hq'. rewrite <- Ha. by apply F6.
      * unfold ops_of, queue_of in F5. simpl in F5. by rewrite Hq in F5.
    + right. destruct Hr as [S1 S2 S3 S4 S5 S6 S7]. split_and!; [done|by apply Hsame| |apply S4]. intros q Hq'. rewrite <- Ha. by apply S5.
Qed.

(** ** Witnesses *)

(** A set with one semaphore; task 1 takes from it and sleeps. *)
Definition first_index (m : gmap Z sem_array) : Z + Z := match m !! 0 with None => inr 0 | Some _ => inl (- Err.ENOSPC) end.
Definition one_set : world := mk_world (semget [(true, first_index)] 1 true 0 ns_start).2 (λ _, None).
Definition one_sleeps : world :=
  mk_world (semtimedop 1 0 [mk_sembuf 0 (-1) 0] None None 0 (w_ns one_set)).2 (<[1%nat := Some 0]> (λ _, None)).

Lemma first_index_free : free_index first_index.
Proof. intros m. unfold first_index, IPCMNI. destruct (m !! 0) eqn:E; [by compute|]. split; [done|lia]. Qed.
Lemma one_sleeps_reachable : reachable one_sleeps.
Proof.
  eapply rtc_l; [apply (call_semget start [(true, first_index)] 1 true 0); apply Forall_singleton, first_index_free|]. apply rtc_once.
  apply (call_semop one_set 1 0 [mk_sembuf 0 (-1) 0] None None 0 None); [done|split; done|]. vm_compute. reflexivity.
Qed.

Lemma try_atomic_all_or_nothing_witness :
  let s := mk_sst (mk_sem_array 0 0 [mk_sem 2 0 []; mk_sem 0 0 []] [] [] 0 0 0) (ns_env ns_start) in
  let sops := [mk_sembuf 0 (-1) 0; mk_sembuf 1 (-1) 0] in
  Forall (sop_ok None s) sops ∧ try_atomic_semop sops None 7 s = (1, s).
Proof.
  intros s sops. assert (Forall (sop_ok None s) sops) as H by (repeat constructor; simpl; by try lia). split; [done|].
  pose proof (try_atomic_all_or_nothing None 7 sops s H ltac:(repeat constructor; simpl; unfold SEMVMX; lia)) as Ht.
  destruct (try_atomic_semop sops None 7 s) as [r s'] eqn:E. destruct Ht as [(-> & _)|[_ ->]]; vm_compute in E; congruence.
Defined.

Lemma sysv_no_lost_wakeup_witness :
  reachable one_sleeps ∧ awake (ns_env (w_ns one_sleeps)) 1 = false ∧
  (∃ i a, arrays (w_ns one_sleeps) !! i = Some a ∧ 1%nat ∈ sem_pending a) ∧ bugs (ns_env (w_ns one_sleeps)) = false.
Proof.
  split; [apply one_sleeps_reachable|]. split; [vm_compute; reflexivity|].
  destruct (sysv_no_lost_wakeup one_sleeps one_sleeps_reachable) as (Hb & _ & Hs & _). split; [|exact Hb]. apply Hs. vm_compute. reflexivity.
Defined.

Lemma semop_serialises_witness :
  let n' := (semtimedop 2 0 [mk_sembuf 0 1 0] None None 0 (w_ns one_sleeps)).2 in
  awake (ns_env n') 1 = true ∧ ∃ v', levels n' 0 = Some v' ∧ v' = [0].
Proof.
  intros n'. split; [vm_compute; reflexivity|].
  destruct (semop_serialises one_sleeps 2 0 [mk_sembuf 0 1 0] None None 0 (Some 0) n' one_sleeps_reachable)
    as [[_ (i & a & v' & ws & Ha & Hid & _ & _ & _ & _ & Hl)]|[H _]]; [done|split; done|vm_compute; reflexivity| |done].
  exists [0]. split; [|done]. vm_compute. reflexivity.
Defined.

(** The undo range is checked for each operation on its own: two operations with
    [SEM_UNDO] on one semaphore take the adjustment out of a [short]. *)
Example undo_wraps :
  let e := mk_senv (queues (ns_env ns_start)) (λ _, mk_undo 0 [-20000]) (λ _, true) 0 0 false in
  let s := mk_sst (mk_sem_array 0 0 [mk_sem 0 0 []] [] [0%nat] 0 0 0) e in
  let '(r, s') := try_atomic_semop [mk_sembuf 0 10000 SEM_UNDO; mk_sembuf 0 10000 SEM_UNDO] (Some 0%nat) 7 s in
  r = 0 ∧ value s' 0 = 20000 ∧ adjust 0 0 s' = 25536.
Proof. vm_compute. done. Qed.
