(* ===== verification/SemLib.v ===== *)
(** * The semaphore library (concurrency5/prob2/lib_sem.c)

    The functions of the library over the semaphores of the kernel
    ([SysvSem]).  A call is made by a task and returns, exits the program after
    [perror], aborts in an [assert], or has not returned because the task
    sleeps. *)

From stdpp Require Import functions.
From S2P Require Import Prelude SysvSem SysvSemInv SysvSemOps SysvNs SysvCalls.

(** ** Data *)

Inductive outcome := Done | Unfinished | Exits | Aborts | Undefined.

Record sem_set_t := mk_sem_set { set_id : Z; num_semaphores : Z }.
(** A semaphore points to its set. *)
Record sem_t := mk_sem_t { sem_set : nat; num : Z }.

(** The kernel and the memory of the program: sets and semaphores by address. *)
Record lib := mk_lib { lib_ns : ipc_ns; lib_sets : nat → sem_set_t; lib_sems : nat → sem_t }.

Definition set_ns (n : ipc_ns) (l : lib) : lib := mk_lib n (lib_sets l) (lib_sems l).
Definition write_set (p : nat) (v : sem_set_t) (l : lib) : lib := mk_lib (lib_ns l) (<[p := v]> (lib_sets l)) (lib_sems l).
Definition write_sem (p : nat) (v : sem_t) (l : lib) : lib := mk_lib (lib_ns l) (lib_sets l) (<[p := v]> (lib_sems l)).

(** A system call returns -1 to the program when it fails. *)
Definition sys_ret (r : Z) : Z := if r <? 0 then -1 else r.

(** ** Operations on sets *)

Definition sem_fill_set (set : nat) (n : Z) (tries : list (bool * (gmap Z sem_array → Z + Z))) (mem : bool) (security : Z) (l : lib) : outcome * lib :=
  if negb (0 <? n) then (Aborts, l)
  else
    let l := write_set set (mk_sem_set (set_id (lib_sets l set)) n) l in
    let '(r, ns) := semget tries n mem security (lib_ns l) in
    match r with
    | None => (Unfinished, set_ns ns l)
    | Some r => (if sys_ret r =? -1 then Exits else Done, write_set set (mk_sem_set (sys_ret r) n) (set_ns ns l))
    end.

Definition sem_empty_set (set : nat) (access : Z) (l : lib) : outcome * lib :=
  let '(r, ns) := semctl_rmid (set_id (lib_sets l set)) access (lib_ns l) in
  if sys_ret r =? -1 then (Exits, set_ns ns l) else (Done, write_set set (mk_sem_set (-1) (-1)) (set_ns ns l)).

(** The loop of [sem_unpack_set] from semaphore [i] on, with [k] more to go:
    [curr_sem], and what is left of the arguments.  There is no argument to take
    after the last semaphore; to write through it would be undefined. *)
Fixpoint unpack_loop (set : nat) (k : nat) (i : Z) (curr_sem : option nat) (args : list nat) (l : lib) : outcome * lib :=
  match k with
  | O => (Done, l)
  | S k =>
      match curr_sem with
      | None => (Undefined, l)
      | Some p => unpack_loop set k (i + 1) (head args) (tail args) (write_sem p (mk_sem_t set i) l)
      end
  end.
Definition sem_unpack_set (set : nat) (sem1 : nat) (args : list nat) (l : lib) : outcome * lib :=
  unpack_loop set (Z.to_nat (num_semaphores (lib_sets l set))) 0 (Some sem1) args l.

(** ** Operations on semaphores *)

(** [0 <= sem_index && sem_index < set->num_semaphores] *)
Definition in_set (l : lib) (set : nat) (sem_index : Z) : bool := (0 <=? sem_index) && (sem_index <? num_semaphores (lib_sets l set)).

Definition sem_init_index (set : nat) (sem_index value : Z) (access : Z) (l : lib) : outcome * lib :=
  if negb (in_set l set sem_index) then (Aborts, l)
  else
    let '(r, _, ns) := semctl (set_id (lib_sets l set)) sem_index (SETVAL value) access (lib_ns l) in
    (if sys_ret r =? -1 then Exits else Done, set_ns ns l).

Definition sem_init_all (set : nat) (value : Z) (access : Z) (l : lib) : outcome * lib :=
  let s := lib_sets l set in
  if sys_ret (semctl_nolock false (set_id s) access (lib_ns l)).1 =? -1 then (Exits, l)
  else
    let sem_ids := replicate (Z.to_nat (num_semaphores s)) (u16 value) in
    let '(r, _, ns) := semctl (set_id s) 0 (SETALL (Some sem_ids)) access (lib_ns l) in
    (if sys_ret r =? -1 then Exits else Done, set_ns ns l).

(** [semop] with one operation, by task [t]. *)
Definition semop_one (t : nat) (set : nat) (op : sembuf) (access : Z) (l : lib) : outcome * lib :=
  let '(r, ns) := semtimedop t (set_id (lib_sets l set)) [op] None None access (lib_ns l) in
  (match r with None => Unfinished | Some r => if sys_ret r =? -1 then Exits else Done end, set_ns ns l).

Definition sem_wait_index (t : nat) (set : nat) (sem_index : Z) (access : Z) (l : lib) : outcome * lib :=
  if negb (in_set l set sem_index) then (Aborts, l)
  else semop_one t set (mk_sembuf (Z.to_nat (u16 sem_index)) (-1) 0) access l.

Definition sem_signal_index (t : nat) (set : nat) (sem_index num_signals : Z) (access : Z) (l : lib) : outcome * lib :=
  if negb (0 <? num_signals) then (Aborts, l)
  else if negb (in_set l set sem_index) then (Aborts, l)
  else semop_one t set (mk_sembuf (Z.to_nat (u16 sem_index)) (s16 num_signals) 0) access l.

(** The call of task [t] goes on when the task is woken or interrupted. *)
Definition semop_returns (t : nat) (set : nat) (l : lib) : outcome * lib :=
  let '(r, ns) := semtimedop_end t (set_id (lib_sets l set)) false (lib_ns l) in
  (if sys_ret r =? -1 then Exits else Done, set_ns ns l).

(** ** Counting semaphores *)

#[global] Instance sembuf_eq_dec : EqDecision sembuf.
Proof. solve_decision. Defined.

(** Every sleeper waits for one semaphore. *)
Definition plain_wait (i : nat) : list sembuf := [mk_sembuf i (-1) 0].
Definition plain (n : ipc_ns) : Prop := ∀ q, awake (ns_env n) q = false → ∃ i, q_sops (queues (ns_env n) q) = plain_wait i.

Record lib_ok (l : lib) : Prop := { lo_ns : ns_ok (lib_ns l); lo_plain : plain (lib_ns l) }.

(** [set] is the set [a] of the kernel. *)
Record live (l : lib) (set : nat) (a : sem_array) : Prop := {
  lv_set : arrays (lib_ns l) !! ipcid_to_idx (set_id (lib_sets l set)) = Some a;
  lv_id : perm_id a = set_id (lib_sets l set);
  lv_num : num_semaphores (lib_sets l set) = Z.of_nat (sem_nsems a);
  lv_max : num_semaphores (lib_sets l set) ≤ SEMMSL
}.

(** The value of a semaphore and the tasks that wait for it. *)
Definition level (l : lib) (set : nat) (i : nat) : Z := at_num (default [] (levels (lib_ns l) (ipcid_to_idx (set_id (lib_sets l set))))) i.
Definition waiters (l : lib) (set : nat) (i : nat) : list nat :=
  match arrays (lib_ns l) !! ipcid_to_idx (set_id (lib_sets l set)) with
  | Some a => filter (λ q, q_sops (queues (ns_env (lib_ns l)) q) = plain_wait i) (sem_pending a)
  | None => []
  end.

(** *** Sums *)

Lemma performs_sums ops : ∀ v v',
  Forall (Forall (λ sop, sem_num sop < length v)%nat) ops → Forall (λ x, 0 ≤ x ≤ SEMVMX) v → performs v ops v' →
  Forall (λ x, 0 ≤ x ≤ SEMVMX) v' ∧ ∀ i, at_num v' i = at_num v i + foldr (λ sops z, sum_on i sops + z) 0 ops.
Proof.
  induction ops as [|sops ops IH]; intros v v' Hn Hv; simpl; [intros ->; split; [done|]; intros i; lia|].
  apply Forall_cons in Hn as [H1 Hn]. intros (v1 & Hgo & Hp). destruct (attempt_go _ _ _ _ H1 Hv Hgo) as (E & Hv1 & Hs & _).
  rewrite <- E in Hn. destruct (IH v1 v' Hn Hv1 Hp) as [Hv' Hs']. split; [done|]. intros i. rewrite Hs', Hs. lia.
Qed.

Lemma at_num_range v i : Forall (λ x, 0 ≤ x ≤ SEMVMX) v → 0 ≤ at_num v i ≤ SEMVMX.
Proof. intros Hv. unfold at_num. destruct (v !! i) eqn:E; simpl; [by eapply Forall_lookup_1 in Hv|unfold SEMVMX; lia]. Qed.

(** The operations of waiters take one each. *)
Lemma sum_waits i (f : nat → list sembuf) ws :
  (∀ q, q ∈ ws → ∃ j, f q = plain_wait j) →
  foldr (λ sops z, sum_on i sops + z) 0 (f <$> ws) = - Z.of_nat (length (filter (λ q, f q = plain_wait i) ws)).
Proof.
  induction ws as [|q ws IH]; intros Hf; [done|]. destruct (Hf q) as [j Ej]; [left|]. csimpl. rewrite IH by (intros x Hx; apply Hf; by right). rewrite filter_cons, Ej.
  unfold plain_wait at 1. simpl. case_decide as E1; case_decide as E2; simplify_eq; simpl; lia.
Qed.

(** *** One operation on a set of plain waiters *)

Lemma plain_blocked s q i : sok s → blocked s q → q_sops (queue_of s q) = plain_wait i → at_num (vals s) i = 0.
Proof.
  intros I B E. unfold blocked in B. rewrite E in B. simpl in B. pose proof (at_num_range _ i (s_vals _ I)) as Hr. unfold blocks in B. simpl in B.
  destruct (Z.ltb_spec (at_num (vals s) i + -1) 0); [lia|]. destruct (_ || _); [|done]. by injection B.
Qed.

Section One.
Context (s : sst) (Hinv : sem_inv s).
Hypothesis Hplain : ∀ q, q ∈ sem_pending (sma s) → ∃ i, q_sops (queue_of s q) = plain_wait i.

Lemma plain_finished k op ws s' :
  (k < sem_nsems (sma s))%nat → finished [[mk_sembuf k op 0]] s ws s' →
  (∀ q c, (q, c) ∈ ws → c = 0) ∧ (∀ q, q ∈ ws.*1 → q ∈ sem_pending (sma s) ∧ q_sops (queue_of s q) = plain_wait k) ∧
  (∀ j, at_num (vals s') j = if decide (j = k) then at_num (vals s) k + op - Z.of_nat (length ws) else at_num (vals s) j) ∧
  (∀ q, q ∈ sem_pending (sma s) → q_sops (queue_of s q) = plain_wait k → q ∉ ws.*1 → at_num (vals s') k = 0).
Proof using Hinv Hplain.
  intros Hk F. pose proof Hinv as [[I B] _].
  assert (∀ q c, (q, c) ∈ ws → c = 0) as Hc.
  { intros q c Hin. destruct (fn_woken _ _ _ _ F q c Hin) as (Hq & Hr & _). destruct (Hplain q Hq) as [i Ei]. rewrite Ei in Hr.
    destruct Hr as [->|[(_ & x & Hx & Hf)|(_ & x & Hx & Hf)]]; [done|..]; apply list_elem_of_singleton in Hx as ->; [done|]. simpl in Hf. destruct Hf; [lia|done]. }
  assert (∀ q, q ∈ ws.*1 → q ∈ sem_pending (sma s)) as Hw.
  { intros q ([x c] & -> & Hin)%list_elem_of_fmap. by apply (fn_woken _ _ _ _ F x c). }
  assert (ops_of s ws = (λ q, q_sops (queue_of s q)) <$> ws.*1) as Eops.
  { unfold ops_of. rewrite <- list_fmap_compose. f_equal. clear -Hc. induction ws as [|[q c] ws IH]; [done|]. rewrite filter_cons_True by (apply (Hc q); left).
    f_equal. apply IH. intros x y Hx. apply (Hc x). by right. }
  assert (∀ q, q ∈ ws.*1 → ∃ j, q_sops (queue_of s q) = plain_wait j) as Hpw by (intros q Hq; by apply Hplain, Hw).
  pose proof (fn_vals _ _ _ _ F) as Hv. rewrite Eops in Hv. apply performs_sums in Hv as [Hr Hsum]; [| |apply I].
  2:{ rewrite length_vals. apply Forall_app. split; [by repeat constructor|]. apply Forall_fmap, Forall_forall. intros q Hq. simpl.
      pose proof (en_sops _ _ (s_entry _ I q (Hw q Hq))) as He. eapply Forall_impl; [exact He|]. by intros sop [? _]. }
  set (on j := filter (λ q, q_sops (queue_of s q) = plain_wait j) ws.*1).
  assert (∀ j, at_num (vals s') j = at_num (vals s) j + (if decide (k = j) then op else 0) - Z.of_nat (length (on j))) as Hs.
  { intros j. rewrite Hsum. simpl. rewrite (sum_waits j (λ q, q_sops (queue_of s q))) by done. fold (on j). lia. }
  assert (∀ j, j ≠ k → on j = []) as Hon.
  { intros j Hj. destruct (on j) as [|q r] eqn:Ej; [done|]. assert (q ∈ on j) as Hq by (rewrite Ej; left). apply list_elem_of_filter in Hq as [Eq Hq].
    pose proof (plain_blocked s q j I (B q (Hw q Hq)) Eq) as Hz. pose proof (at_num_range _ j Hr) as Hp. rewrite Hs, Hz, Ej, decide_False in Hp by done. simpl in Hp. lia. }
  assert (∀ q, q ∈ ws.*1 → q_sops (queue_of s q) = plain_wait k) as Hk'.
  { intros q Hq. destruct (Hpw q Hq) as [j Ej]. destruct (decide (j = k)) as [->|Hj]; [done|]. specialize (Hon j Hj).
    assert (q ∈ on j) as Hin by (by apply list_elem_of_filter). rewrite Hon in Hin. by apply not_elem_of_nil in Hin. }
  assert (length (on k) = length ws) as Hlen.
  { unfold on. rewrite <- (length_fmap fst ws). f_equal. clear -Hk'. induction ws.*1 as [|q r IH]; [done|]. rewrite filter_cons_True by (apply Hk'; left).
    f_equal. apply IH. intros x Hx. apply Hk'. by right. }
  split_and!; [done|by auto| |].
  - intros j. rewrite Hs. case_decide as E1; case_decide as E2; subst; try done; [lia|]. rewrite Hon by done. simpl. lia.
  - intros q Hq Eq Hn. destruct (fn_ok _ _ _ _ F) as [I' B']. assert (q ∈ sem_pending (sma s')) as Hq'.
    { rewrite (fn_pending _ _ _ _ F). by apply list_elem_of_filter. }
    apply (plain_blocked s' q); [done|by apply B'|]. by rewrite (proj1 (fn_others _ _ _ _ F q Hn)).
Qed.
End One.

(** *** The calls *)

Lemma filter_local (P Q : nat → Prop) `{∀ x, Decision (P x), ∀ x, Decision (Q x)} (l : list nat) :
  (∀ q, q ∈ l → (P q ↔ Q q)) → filter P l = filter Q l.
Proof.
  induction l as [|q l IH]; intros H'; [done|]. rewrite !filter_cons, IH by (intros x Hx; apply H'; by right).
  assert (P q ↔ Q q) by (apply H'; left). case_decide; case_decide; tauto.
Qed.

Lemma semop_locked_one t sop s :
  sem_ok s → t ∉ sem_pending (sma s) → (sem_num sop < sem_nsems (sma s))%nat → sem_flg sop = 0 →
  let '(r, s') := semop_locked t [sop] None 0 s in
  match attempt (λ _, false) [sop] (vals s) with
  | Go _ => r = Some 0 ∧ ∃ ws, finished [[sop]] s ws s'
  | Stop 1 => r = None ∧ slept t [sop] None s s'
  | Stop _ => True
  end.
Proof.
  intros O Ht Hk Hf. assert (∀ f, has_flag f sop = false) as Hflag by (intros f; unfold has_flag; by rewrite Hf).
  assert (undo_fits None s [sop]) as Hfit by (intros x ->%list_elem_of_singleton; by rewrite Hflag).
  pose proof (semop_locked_ok t [sop] None 0 s O Ht ltac:(done) Hfit) as Hs. destruct (semop_locked t [sop] None 0 s) as [r s'] eqn:E. unfold semop_locked in E.
  rewrite (proj2 (Nat.leb_gt (sem_nsems (sma s)) (max_num [sop]))) in E by (simpl; lia). cbn [negb Z.eqb] in E.
  assert (Forall (sop_ok None s) [sop]) as Hok by (apply Forall_singleton; split; [done|by rewrite Hflag]).
  pose proof (try_ok None (current_pid (env s)) [sop] s Hok) as Htry. rewrite (attempt_ext (bad_undo None s) (λ _, false)) in Htry.
  2:{ intros x ->%list_elem_of_singleton. unfold bad_undo, undo_exceeds. by rewrite Hflag. }
  destruct (attempt (λ _, false) [sop] (vals s)) as [v|c].
  - destruct Htry as (s1 & Et & _). rewrite Et in E. cbn [Z.leb Z.compare] in E. destruct (if alters [sop] && (0 =? 0) then _ else _) as [tasks s2]. injection E as <- _. done.
  - destruct c as [|[| |]|]; try done. rewrite Htry in E. cbn [Z.leb Z.compare] in E. by injection E as <- _.
Qed.

(** What a call does is what it does on its set. *)
Lemma semop_one_eq t set k op l a :
  lib_ok l → live l set a →
  let n := lib_ns l in
  semop_one t set (mk_sembuf k op 0) 0 l =
  let '(r, s') := semop_locked t [mk_sembuf k op 0] None 0 (at_env n a) in
  (match r with None => Unfinished | Some r => if sys_ret r =? -1 then Exits else Done end, set_ns (sem_unlock (ipcid_to_idx (set_id (lib_sets l set))) s' n) l).
Proof.
  intros [O _] [Ha Hid _ _] n. unfold semop_one, semtimedop. cbn [length Nat.ltb Nat.leb orb SEMOPM]. pose proof (n_id _ _ O _ _ Ha) as (? & ? & ?).
  destruct (Z.ltb_spec (set_id (lib_sets l set)) 0) as [|_]; [unfold IPCMNI in *; lia|]. change (existsb (has_flag SEM_UNDO) _) with false. cbn iota zeta.
  rewrite <- Hid in Ha |- *. rewrite (lock_found _ _ _ _ O Ha). change (mk_sst a (ns_env (lib_ns l))) with (at_env n a). by destruct (semop_locked _ _ _ _ _).
Qed.

Lemma level_unlock l set a s' j :
  live l set a → level (set_ns (sem_unlock (ipcid_to_idx (set_id (lib_sets l set))) s' (lib_ns l)) l) set j = at_num (vals s') j.
Proof. intros L. unfold level, levels. simpl. by rewrite lookup_insert_eq. Qed.
Lemma level_live l set a j : live l set a → level l set j = at_num (vals (at_env (lib_ns l) a)) j.
Proof. intros [Ha _ _ _]. unfold level, levels. by rewrite Ha. Qed.

Lemma plain_sleepers n i a q : ns_ok n → plain n → arrays n !! i = Some a → q ∈ sem_pending a → ∃ j, q_sops (queues (ns_env n) q) = plain_wait j.
Proof. intros O P Ha Hq. apply P. apply (n_sleep _ _ O). eauto. Qed.

Lemma goes_on_plain n n' : goes_on None n n' → plain n → plain n'.
Proof. intros G P q Hq. destruct (proj2 (G q ltac:(done)) Hq) as [H ->]. by apply P. Qed.

Section Calls.
Context (t : nat) (set : nat) (k : nat) (l : lib) (a : sem_array).
Hypotheses (Hok : lib_ok l) (Hlive : live l set a) (Ht : awake (ns_env (lib_ns l)) t = true) (Hk : (k < sem_nsems a)%nat).
Let n := lib_ns l.
Let i := ipcid_to_idx (set_id (lib_sets l set)).
Let s := at_env n a.

Lemma call_in_set : in_set l set (Z.of_nat k) = true ∧ Z.to_nat (u16 (Z.of_nat k)) = k.
Proof using Hlive Hk.
  destruct Hlive as [_ _ Hn Hm]. unfold in_set. rewrite Hn in *. unfold SEMMSL in Hm. split; [|rewrite u16_id; lia].
  apply andb_true_iff. split; [apply Z.leb_le|apply Z.ltb_lt]; lia.
Qed.

Lemma call_state : sem_inv s ∧ t ∉ sem_pending a ∧ ∀ q, q ∈ sem_pending a → ∃ j, q_sops (queue_of s q) = plain_wait j.
Proof using Hok Hlive Ht Hk.
  destruct Hok as [O P], Hlive as [Ha _ _ _]. split_and!; [by apply (n_inv _ _ O i)|by apply (awake_not_pending _ n i a t O)|].
  intros q Hq. by apply (plain_sleepers n i a).
Qed.

Lemma call_ns op r s' :
  semop_locked t [mk_sembuf k op 0] None 0 s = (r, s') → (r = None → op = -1) → lib_ok (set_ns (sem_unlock i s' n) l).
Proof using Hok Hlive Ht Hk.
  intros E Hop. pose proof Hok as [O P]. pose proof Hlive as [Ha Hid _ _].
  assert (∀ o, undo_fits None s [mk_sembuf k o 0]) as Hfit by (intros o x ->%list_elem_of_singleton; done).
  assert (locked t (set_id (lib_sets l set)) [mk_sembuf k op 0] None n i a) as L by (by split).
  pose proof (semop_called t _ [mk_sembuf k op 0] None 0 n i a L) as Hc.
  fold s in Hc. rewrite E in Hc. destruct Hc as (O' & G & Hr). split; [done|]. intros q Hq. destruct (decide (q = t)) as [->|Hne].
  - simpl in Hq, Hr. destruct r as [r|]; [congruence|]. exists k. unfold plain_wait. rewrite <- (Hop eq_refl). apply Hr.
  - destruct (proj2 (G q ltac:(congruence)) Hq) as [Hq' Eq]. destruct (P q Hq') as [j Ej]. exists j. simpl in Eq |- *. by rewrite Eq.
Qed.

Definition on_sem (x : sst) (j : nat) : list nat := filter (λ q, q_sops (queue_of x q) = plain_wait j) (sem_pending (sma x)).
Lemma waiters_live j : waiters l set j = on_sem s j.
Proof using Hlive. unfold waiters. by rewrite (lv_set _ _ _ Hlive). Qed.
Lemma waiters_unlock s' j : waiters (set_ns (sem_unlock i s' n) l) set j = on_sem s' j.
Proof. unfold waiters. simpl. fold i. by rewrite lookup_insert_eq. Qed.
Lemma on_sem_level q j : q ∈ on_sem s j → level l set j = 0.
Proof using Hok Hlive Ht Hk.
  intros [Eq Hq]%list_elem_of_filter. destruct call_state as ([[I B] _] & _). rewrite (level_live l set a) by done. apply (plain_blocked s q); [done|by apply B|done].
Qed.

(** The tasks that still wait. *)
Lemma on_sem_finished own ws s' j : finished own s ws s' → on_sem s' j = filter (λ q, q ∉ ws.*1) (on_sem s j).
Proof.
  intros F. unfold on_sem. rewrite (fn_pending _ _ _ _ F), !list_filter_filter. apply list_filter_iff. intros q.
  split; intros [H1 H2]; [rewrite (proj1 (fn_others _ _ _ _ F q H2)) in H1|rewrite (proj1 (fn_others _ _ _ _ F q H1))]; done.
Qed.

Lemma wait_ok :
  let '(o, l') := sem_wait_index t set (Z.of_nat k) 0 l in
  lib_ok l' ∧
  if 0 <? level l set k then
    o = Done ∧ (∀ j, level l' set j = if decide (j = k) then level l set k - 1 else level l set j) ∧
    (∀ q, awake (ns_env (lib_ns l')) q = awake (ns_env n) q) ∧ ∀ j, waiters l' set j = waiters l set j
  else
    o = Unfinished ∧ (∀ j, level l' set j = level l set j) ∧
    (∀ q, awake (ns_env (lib_ns l')) q = if decide (q = t) then false else awake (ns_env n) q) ∧
    ∀ j, waiters l' set j = if decide (j = k) then waiters l set j ++ [t] else waiters l set j.
Proof using Hok Hlive Ht Hk.
  unfold sem_wait_index. destruct call_in_set as [-> ->]. cbn [negb]. rewrite (semop_one_eq t set k (-1) l a) by done. cbn zeta. fold n s i.
  destruct call_state as ([Iok Hsz] & Hnp & Hpl). pose proof (semop_locked_one t (mk_sembuf k (-1) 0) s Iok Hnp Hk eq_refl) as Hs.
  destruct (semop_locked t [mk_sembuf k (-1) 0] None 0 s) as [r s'] eqn:E. pose proof (call_ns (-1) r s' E ltac:(done)) as Hok'. split; [done|].
  pose proof (at_num_range _ k (s_vals _ (proj1 Iok))) as Hr. rewrite (level_live l set a k Hlive). fold n s. simpl in Hs. unfold blocks in Hs. simpl in Hs.
  destruct (Z.ltb_spec 0 (at_num (vals s) k)) as [Hp|Hp].
  - rewrite (proj2 (Z.ltb_ge (at_num (vals s) k + -1) 0)), (proj2 (Z.ltb_ge SEMVMX (at_num (vals s) k + -1))) in Hs by lia. destruct Hs as [-> [ws F]].
    assert (ws = []) as ->.
    { destruct ws as [|[q c] ws]; [done|]. destruct (plain_finished s (conj Iok Hsz) Hpl k (-1) _ s' Hk F) as (_ & Hw & _). destruct (Hw q) as [Hq Eq]; [left|].
      pose proof (on_sem_level q k ltac:(by apply list_elem_of_filter)) as Hz. rewrite (level_live l set a k Hlive) in Hz. fold n s in Hz. lia. }
    destruct (plain_finished s (conj Iok Hsz) Hpl k (-1) [] s' Hk F) as (_ & _ & Hl & _). split_and!; [done| | |].
    + intros j. rewrite (level_unlock l set a) by done. rewrite Hl, (level_live l set a j) by done. case_decide; [simpl; lia|done].
    + intros q. by apply (fn_others _ _ _ _ F), not_elem_of_nil.
    + intros j. rewrite waiters_unlock, waiters_live, (on_sem_finished _ _ _ _ F). apply filter_id. intros q _. apply not_elem_of_nil.
  - rewrite (proj2 (Z.ltb_lt (at_num (vals s) k + -1) 0)) in Hs by lia. destruct Hs as [-> S]. split_and!; [done| | |].
    + intros j. rewrite (level_unlock l set a), (sl_vals _ _ _ _ _ S), (level_live l set a j) by done. done.
    + intros q. case_decide as Eq; [subst q; apply (sl_task _ _ _ _ _ S)|by apply (sl_others _ _ _ _ _ S)].
    + intros j. rewrite waiters_unlock, waiters_live. unfold on_sem. rewrite (sl_pending _ _ _ _ _ S). simpl. rewrite filter_app, filter_cons, filter_nil.
      assert (filter (λ q, q_sops (queue_of s' q) = plain_wait j) (sem_pending a) = filter (λ q, q_sops (queue_of s q) = plain_wait j) (sem_pending a)) as ->.
      { apply filter_local. intros q Hq. rewrite (proj1 (sl_others _ _ _ _ _ S q ltac:(intros ->; done))). done. }
      destruct (sl_task _ _ _ _ _ S) as (_ & -> & _). change [mk_sembuf k (-1) 0] with (plain_wait k). destruct (decide (j = k)) as [->|Hj]; [by rewrite decide_True|].
      rewrite decide_False, app_nil_r; [done|]. unfold plain_wait. intros ?. by simplify_eq.
Qed.

(** As many tasks are woken as there are signals, or all. *)
Lemma signal_count (ws : list nat) m v' :
  0 < m → NoDup ws → (∀ q, q ∈ ws → q ∈ on_sem s k) → v' = level l set k + m - Z.of_nat (length ws) → 0 ≤ v' →
  (∀ q, q ∈ on_sem s k → q ∉ ws → v' = 0) → length ws = Nat.min (Z.to_nat m) (length (on_sem s k)).
Proof using Hok Hlive Ht Hk.
  intros Hm Hnd Hsub Hv Hp Hz. pose proof (NoDup_submseteq ws (on_sem s k) Hnd Hsub) as Hle%submseteq_length.
  destruct (decide (Forall (λ q, q ∈ ws) (on_sem s k))) as [Hall|Hex].
  - assert (NoDup (on_sem s k)) as Hnd' by (destruct call_state as ([[I _] _] & _); apply NoDup_filter, I).
    pose proof (NoDup_submseteq (on_sem s k) ws Hnd' ltac:(by apply Forall_forall)) as Hle'%submseteq_length.
    destruct (on_sem s k) as [|q r] eqn:Eq; [simpl in *; lia|]. assert (level l set k = 0) as H0 by (apply (on_sem_level q); rewrite Eq; left). lia.
  - apply not_Forall_Exists in Hex; [|apply _]. apply Exists_exists in Hex as (q & Hq & Hn). pose proof (Hz q Hq Hn). pose proof (on_sem_level q k Hq). lia.
Qed.

(** Signals. *)
Lemma signal_ok m :
  0 < m → level l set k + m ≤ SEMVMX →
  let '(o, l') := sem_signal_index t set (Z.of_nat k) m 0 l in
  lib_ok l' ∧ o = Done ∧
  ∃ ws, NoDup ws ∧ (∀ q, q ∈ ws → q ∈ waiters l set k ∧ awake (ns_env (lib_ns l')) q = true ∧ q_status (queues (ns_env (lib_ns l')) q) = 0) ∧
    length ws = Nat.min (Z.to_nat m) (length (waiters l set k)) ∧
    (∀ j, level l' set j = if decide (j = k) then level l set k + m - Z.of_nat (length ws) else level l set j) ∧
    (∀ j, waiters l' set j = filter (λ q, q ∉ ws) (waiters l set j)) ∧
    (∀ q, q ∉ ws → awake (ns_env (lib_ns l')) q = awake (ns_env n) q).
Proof using Hok Hlive Ht Hk.
  intros Hm Hmax. unfold sem_signal_index. rewrite (proj2 (Z.ltb_lt 0 m) Hm). destruct call_in_set as [-> ->]. cbn [negb].
  assert (0 ≤ level l set k) as Hlv by (rewrite (level_live l set a) by done; destruct call_state as ([[I _] _] & _); apply (at_num_range _ k (s_vals _ I))).
  rewrite s16_id by (unfold SEMVMX in *; lia). rewrite (semop_one_eq t set k m l a) by done. cbn zeta. fold n s i.
  destruct call_state as ([Iok Hsz] & Hnp & Hpl). pose proof (semop_locked_one t (mk_sembuf k m 0) s Iok Hnp Hk eq_refl) as Hs.
  destruct (semop_locked t [mk_sembuf k m 0] None 0 s) as [r s'] eqn:E. simpl in Hs. unfold blocks in Hs. simpl in Hs. pose proof (level_live l set a k Hlive) as El. fold n s in El.
  rewrite (proj2 (Z.eqb_neq m 0)), (proj2 (Z.ltb_ge (at_num (vals s) k + m) 0)), (proj2 (Z.ltb_ge SEMVMX (at_num (vals s) k + m))) in Hs by lia.
  destruct Hs as [-> [ws F]]. split; [by apply (call_ns m (Some 0))|]. split; [done|].
  destruct (plain_finished s (conj Iok Hsz) Hpl k m ws s' Hk F) as (Hc & Hw & Hl & Hz). exists ws.*1. rewrite length_fmap. split_and!.
  - apply F.
  - intros q Hq. destruct (Hw q Hq) as [Hqp Eq]. apply list_elem_of_fmap in Hq as ([x c] & -> & Hin). destruct (fn_woken _ _ _ _ F x c Hin) as (_ & _ & Es & Ea).
    rewrite waiters_live. split_and!; [by apply list_elem_of_filter|done|]. rewrite <- (Hc x c Hin). exact Es.
  - rewrite waiters_live, <- (length_fmap fst ws). destruct (fn_ok _ _ _ _ F) as [I' _]. apply (signal_count ws.*1 m (at_num (vals s') k)); [done|apply F| | | |].
    + intros q Hq. apply list_elem_of_filter. by destruct (Hw q Hq).
    + rewrite Hl, decide_True, length_fmap, El by done. lia.
    + apply (at_num_range _ k (s_vals _ I')).
    + intros q [Eq Hq]%list_elem_of_filter Hn. by apply (Hz q).
  - intros j. rewrite (level_unlock l set a), Hl, (level_live l set a j) by done. case_decide; [by rewrite El|done].
  - intros j. by rewrite waiters_unlock, waiters_live, (on_sem_finished _ _ _ _ F).
  - intros q Hq. by apply (fn_others _ _ _ _ F).
Qed.
End Calls.

(** ** Well-formedness *)

(** Every sleeper has one operation, of a kind [W] admits. *)
Definition sleeps (W : Z → Prop) (n : ipc_ns) : Prop :=
  ∀ q, awake (ns_env n) q = false → ∃ i op, W op ∧ q_sops (queues (ns_env n) q) = [mk_sembuf i op 0].

(** The kernel under the library: well-formed, and no task sleeps on more than
    one semaphore, or with an operation that adds to it. *)
Record lib_typed (l : lib) : Prop := { lt_ns : ns_ok (lib_ns l); lt_sleeps : sleeps (λ op, - 2 ^ 15 ≤ op ≤ 0) (lib_ns l) }.

Lemma plain_sleeps n : plain n ↔ sleeps (λ op, op = -1) n.
Proof. unfold plain, sleeps, plain_wait. split; intros P q Hq; specialize (P q Hq); naive_solver. Qed.

Lemma semop_one_typed W t set i op access l :
  ns_ok (lib_ns l) → sleeps W (lib_ns l) → awake (ns_env (lib_ns l)) t = true → W op ∨ 0 < op →
  let l' := (semop_one t set (mk_sembuf i op 0) access l).2 in ns_ok (lib_ns l') ∧ sleeps W (lib_ns l').
Proof.
  intros O P Ht Hop. unfold semop_one. assert (fresh_memory None None (lib_ns l)) as Hm by done.
  pose proof (semtimedop_ok t (set_id (lib_sets l set)) [mk_sembuf i op 0] None None access _ O Ht Hm) as Hc. destruct (semtimedop _ _ _ _ _ _ _) as [r n']. destruct Hc as (O' & G & Hr).
  split; [done|]. intros q Hq. simpl in Hq. destruct (decide (q = t)) as [->|Hne].
  - destruct r as [r|]; [congruence|]. destruct Hr as [(j & a & Ha & Hin & _) Hs]. simpl. rewrite Hs. destruct Hop as [Hop|Hop]; [by exists i, op|]. exfalso.
    destruct (n_inv _ _ O' j a Ha) as [[I B] _]. specialize (B t Hin). unfold blocked, queue_of in B. simpl in B. rewrite Hs in B. simpl in B. unfold blocks in B. simpl in B.
    pose proof (at_num_range _ i (s_vals _ I)) as Hv. simpl in Hv. rewrite (proj2 (Z.eqb_neq op 0)), (proj2 (Z.ltb_ge _ 0)) in B by lia. simpl in B. by destruct (_ || _).
  - destruct (proj2 (G q ltac:(congruence)) Hq) as [Hq' Eq]. simpl. rewrite Eq. by apply P.
Qed.

(** A step of the library: a call by a task that runs, or the end of a call by a
    task that was woken or interrupted.  [M] says which numbers of signals are
    sent. *)
Inductive lib_step (M : Z → Prop) : lib → outcome * lib → Prop :=
  | step_fill l set n tries mem security : Forall (λ x, free_index x.2) tries → lib_step M l (sem_fill_set set n tries mem security l)
  | step_empty l set access : lib_step M l (sem_empty_set set access l)
  | step_unpack l set sem1 args : lib_step M l (sem_unpack_set set sem1 args l)
  | step_init l set i v access : lib_step M l (sem_init_index set i v access l)
  | step_init_all l set v access : lib_step M l (sem_init_all set v access l)
  | step_wait l t set i access : awake (ns_env (lib_ns l)) t = true → lib_step M l (sem_wait_index t set i access l)
  | step_signal l t set i m access : awake (ns_env (lib_ns l)) t = true → M m → lib_step M l (sem_signal_index t set i m access l)
  | step_returns l t set : waits (lib_ns l) t (set_id (lib_sets l set)) → lib_step M l (semop_returns t set l).

Lemma goes_on_sleeps W n n' : sleeps W n → goes_on None n n' → sleeps W n'.
Proof. intros P G q Hq. destruct (proj2 (G q ltac:(done)) Hq) as [Hq' Eq]. rewrite Eq. by apply P. Qed.

Lemma goes_on_lib_ok l n' : lib_ok l → ns_ok n' → goes_on None (lib_ns l) n' → ∀ l', lib_ns l' = n' → lib_ok l'.
Proof. intros [_ P] O G l' <-. split; [done|by eapply goes_on_plain]. Qed.

Lemma unpack_loop_ns set k : ∀ i p args l, lib_ns (unpack_loop set k i p args l).2 = lib_ns l.
Proof. induction k as [|k IH]; intros i [p|] args l; simpl; try done. by rewrite IH. Qed.

(** A set that was filled: its semaphores are at zero and nobody waits. *)
Lemma fill_ok set k tries mem security l l' :
  lib_ok l → Forall (λ x, free_index x.2) tries → security ≤ 0 → sem_fill_set set k tries mem security l = (Done, l') →
  lib_ok l' ∧ ∃ a, live l' set a ∧ num_semaphores (lib_sets l' set) = k ∧ ∀ j, level l' set j = 0 ∧ waiters l' set j = [].
Proof.
  intros Hok Hf Hs. unfold sem_fill_set. destruct (Z.ltb_spec 0 k) as [Hk|]; [|done]. cbn [negb write_set lib_ns]. destruct (semget_ok tries k mem security (lib_ns l) Hf (lo_ns _ Hok)) as [O' Q].
  destruct (semget tries k mem security (lib_ns l)) as [[r|] n'] eqn:E; [|done]. simpl in O', Q. unfold sys_ret. destruct (Z.ltb_spec r 0); [done|].
  destruct (Z.eqb_spec r (-1)); [lia|]. intros [= <-]. split; [by apply (goes_on_lib_ok l n'); [..|apply quiet_goes_on|]|].
  destruct (semget_new tries k mem security (lib_ns l) r n' Hf (lo_ns _ Hok) Hk Hs E) as (Hmax & i & a & Ha & Hid & Hb & Hp); [done|].
  destruct (n_id _ _ O' i a Ha) as (I1 & I2 & _). destruct (id_idx i a I1 I2) as [Ei _]. rewrite Hid in Ei.
  exists a. unfold level, levels, waiters. simpl. rewrite !fn_lookup_insert. simpl. rewrite Ei, Ha, Hp. split_and!; [|done|].
  - split; simpl; rewrite !fn_lookup_insert; simpl; rewrite ?Ei; try done. unfold sem_nsems. rewrite Hb, length_replicate. lia.
  - intros j. split; [|done]. simpl. rewrite Hb, fmap_replicate. unfold at_num. destruct (_ !! j) as [x|] eqn:Ej; [|done]. by apply lookup_replicate in Ej as [-> _].
Qed.

Lemma lib_step_sleeps (M W : Z → Prop) l r :
  W (-1) → (∀ m, M m → 0 < m → W (s16 m) ∨ 0 < s16 m) → ns_ok (lib_ns l) → sleeps W (lib_ns l) → lib_step M l r →
  ns_ok (lib_ns r.2) ∧ sleeps W (lib_ns r.2).
Proof.
  intros H1 HM O P Hs. assert (∀ n', ns_ok n' → goes_on None (lib_ns l) n' → ∀ l', lib_ns l' = n' → ns_ok (lib_ns l') ∧ sleeps W (lib_ns l')) as Go.
  { intros n' O' G l' <-. split; [done|by eapply goes_on_sleeps]. }
  destruct Hs as [l set n tries mem security Hf|l set access|l set sem1 args|l set i v access|l set v access|l t set i access Ht|l t set i m access Ht Hm|l t set Hw].
  - unfold sem_fill_set. case_match; [done|]. cbn [write_set lib_ns]. destruct (semget_ok tries n mem security (lib_ns l) Hf O) as [O' Q].
    destruct (semget _ _ _ _ _) as [[c|] n']; by apply (Go n'); [|apply quiet_goes_on|].
  - unfold sem_empty_set. pose proof (rmid_ok (set_id (lib_sets l set)) access _ O) as O'. pose proof (rmid_goes_on (set_id (lib_sets l set)) access _ O) as G.
    destruct (semctl_rmid _ _ _) as [c n']. case_match; by apply (Go n').
  - unfold sem_unpack_set. by rewrite unpack_loop_ns.
  - unfold sem_init_index. case_match; [done|]. destruct (semctl_ok (set_id (lib_sets l set)) i (SETVAL v) access _ O) as [O' G]. destruct (semctl _ _ _ _ _) as [[c vs] n'].
    by apply (Go n').
  - unfold sem_init_all. case_match; [done|]. set (cmd := SETALL _). destruct (semctl_ok (set_id (lib_sets l set)) 0 cmd access _ O) as [O' G].
    destruct (semctl _ _ _ _ _) as [[c vs] n']. by apply (Go n').
  - unfold sem_wait_index. case_match; [done|]. apply semop_one_typed; auto.
  - unfold sem_signal_index. destruct (Z.ltb_spec 0 m); [|done]. cbn [negb]. case_match; [done|]. by apply semop_one_typed; auto.
  - unfold semop_returns. pose proof (semtimedop_end_ok t _ false _ O Hw) as He. destruct (semtimedop_end _ _ _ _) as [c n']. destruct He as (O' & G & Ha & _).
    split; [done|]. intros q Hq. simpl in Hq. destruct (decide (q = t)) as [->|Hne]; [congruence|]. destruct (proj2 (G q ltac:(congruence)) Hq) as [Hq' Eq].
    simpl. rewrite Eq. by apply P.
Qed.

Lemma s16_range m : - 2 ^ 15 ≤ s16 m < 2 ^ 15.
Proof. unfold s16, wrap_s. pose proof (Z.mod_pos_bound (m + 2 ^ (16 - 1)) (2 ^ 16)). simpl in *. lia. Qed.

(** C20: every operation of the semaphore library, with any arguments, leaves the
    kernel well-formed: each sleeper is in the queue of its set with one operation
    on one semaphore, which takes units or waits for zero and would block if
    tried now.  As long as no call sends more than SEMVMX signals, each sleeper
    waits to take one unit. *)
Theorem sem_lib_typed l r :
  (lib_typed l → lib_step (λ _, True) l r → lib_typed r.2) ∧
  (lib_ok l → lib_step (λ m, m ≤ SEMVMX) l r → lib_ok r.2).
Proof.
  split.
  - intros [O P] Hs. destruct (lib_step_sleeps (λ _, True) (λ op, - 2 ^ 15 ≤ op ≤ 0) l r) as [? ?]; [lia| |done..].
    intros m _ _. pose proof (s16_range m). lia.
  - intros [O P%plain_sleeps] Hs. destruct (lib_step_sleeps (λ m, m ≤ SEMVMX) (λ op, op = -1) l r) as [? ?]; [done| |done..|].
    + intros m Hm H0. right. rewrite s16_id; unfold SEMVMX in *; lia.
    + split; [done|by apply plain_sleeps].
Qed.

(** C19: the semaphores of the library are counting semaphores.  [sem_wait] takes
    one if there is one and else sleeps, last in the queue; [sem_signal_ntimes]
    adds its signals and hands one to as many waiting tasks as there are signals
    for; no other semaphore changes and no other task is woken or put to sleep. *)
Theorem sem_lib_counts t set k l a :
  lib_ok l → live l set a → awake (ns_env (lib_ns l)) t = true → (k < sem_nsems a)%nat →
  let up l q := awake (ns_env (lib_ns l)) q in
  (let '(o, l') := sem_wait_index t set (Z.of_nat k) 0 l in
   if 0 <? level l set k then
     o = Done ∧ (∀ j, level l' set j = if decide (j = k) then level l set k - 1 else level l set j) ∧
     (∀ q, up l' q = up l q) ∧ ∀ j, waiters l' set j = waiters l set j
   else
     o = Unfinished ∧ (∀ j, level l' set j = level l set j) ∧ (∀ q, up l' q = if decide (q = t) then false else up l q) ∧
     ∀ j, waiters l' set j = if decide (j = k) then waiters l set j ++ [t] else waiters l set j) ∧
  (∀ m, 0 < m → level l set k + m ≤ SEMVMX →
   let '(o, l') := sem_signal_index t set (Z.of_nat k) m 0 l in
   o = Done ∧ ∃ ws, NoDup ws ∧ length ws = Nat.min (Z.to_nat m) (length (waiters l set k)) ∧
     (∀ q, q ∈ ws → q ∈ waiters l set k ∧ up l' q = true) ∧ (∀ q, q ∉ ws → up l' q = up l q) ∧
     (∀ j, level l' set j = if decide (j = k) then level l set k + m - Z.of_nat (length ws) else level l set j) ∧
     (∀ j, waiters l' set j = filter (λ q, q ∉ ws) (waiters l set j))).
Proof.
  intros Hok Hlive Ht Hk up. split.
  - pose proof (wait_ok t set k l a Hok Hlive Ht Hk) as Hw. destruct (sem_wait_index _ _ _ _ _) as [o l']. apply Hw.
  - intros m Hm Hmax. pose proof (signal_ok t set k l a Hok Hlive Ht Hk m Hm Hmax) as Hs. destruct (sem_signal_index _ _ _ _ _ _) as [o l'].
    destruct Hs as (_ & Ho & ws & H1 & H2 & H3 & H4 & H5 & H6). split; [done|]. exists ws. split_and!; try done. intros q Hq. by destruct (H2 q Hq) as (? & ? & _).
Qed.

(** ** Witnesses *)

Definition lib_start : lib := mk_lib ns_start (λ _, mk_sem_set (-1) (-1)) (λ _, mk_sem_t 0 0).
Definition lib_one : lib := (sem_fill_set 0 1 [(true, first_index)] true 0 lib_start).2.

Lemma lib_start_ok : lib_ok lib_start.
Proof. split; [apply (wo_ns _ start_ok)|done]. Qed.
Lemma lib_one_ok : lib_ok lib_one ∧ ∃ a, live lib_one 0 a ∧ num_semaphores (lib_sets lib_one 0%nat) = 1 ∧ ∀ j, level lib_one 0 j = 0 ∧ waiters lib_one 0 j = [].
Proof.
  apply (fill_ok 0 1 [(true, first_index)] true 0 lib_start); [apply lib_start_ok|apply Forall_singleton, first_index_free|done|]. vm_compute. reflexivity.
Qed.

(** A task goes to sleep on the semaphore of a set with one; one that sends
    32768 signals, which is -32768 in a [short], goes to sleep as well. *)
Lemma sem_lib_typed_witness :
  (let r := sem_wait_index 3 0 0 0 lib_one in
   r.1 = Unfinished ∧ awake (ns_env (lib_ns r.2)) 3%nat = false ∧ lib_ok r.2) ∧
  (let r := sem_signal_index 3 0 0 32768 0 lib_one in
   r.1 = Unfinished ∧ awake (ns_env (lib_ns r.2)) 3%nat = false ∧ lib_typed r.2).
Proof.
  destruct lib_one_ok as (Hok & _). split.
  - split; [vm_compute; reflexivity|]. split; [vm_compute; reflexivity|].
    apply (sem_lib_typed lib_one); [exact Hok|]. apply step_wait. vm_compute. reflexivity.
  - split; [vm_compute; reflexivity|]. split; [vm_compute; reflexivity|].
    apply (sem_lib_typed lib_one).
    + destruct Hok as [O P]. split; [exact O|]. intros q Hq. destruct (P q Hq) as [i Ei]. exists i, (-1). split; [lia|exact Ei].
    + apply step_signal; [vm_compute; reflexivity|exact I].
Defined.

Lemma sem_lib_counts_witness :
  lib_ok lib_one ∧ level lib_one 0 0 = 0 ∧ level (sem_signal_index 1 0 0 2 0 lib_one).2 0 0 = 2.
Proof.
  destruct lib_one_ok as (Hok & a & Hlive & Hn & Hz). split; [exact Hok|]. split; [apply Hz|]. pose proof (lv_num _ _ _ Hlive) as Hs. rewrite Hn in Hs.
  destruct (sem_lib_counts 1 0 0 lib_one a Hok Hlive) as [_ Hsig]; [vm_compute; reflexivity|lia|]. specialize (Hsig 2 ltac:(lia)). rewrite (proj1 (Hz 0%nat)) in Hsig.
  specialize (Hsig ltac:(by compute)). destruct (sem_signal_index 1 0 (Z.of_nat 0) 2 0 lib_one) as [o l'] eqn:E. destruct Hsig as (_ & ws & _ & Hlen & _ & _ & Hl & _).
  change (Z.of_nat 0) with 0 in E. rewrite E. simpl. rewrite (Hl 0%nat), decide_True, Hlen, (proj2 (Hz 0%nat)) by done. reflexivity.
Defined.
