(* ===== verification/SetLib.v ===== *)
(** * The set of integers (concurrency5/prob2/lib_set.c)

    A set is an array with a character for every integer below its size, and the
    number of its elements.  The definitions are the bodies of the critical
    sections of [set_insert] and [set_take]; the lock is one of the semaphores of
    the program that uses the set. *)

From S2P Require Import Prelude.

Record set_t := mk_set { slots : list bool; cardinality : Z }.
Definition num_slots (s : set_t) : nat := length (slots s).

Definition set_alloc (n : nat) : set_t := mk_set (replicate n false) 0.

(** [set_insert], with its [assert]. *)
Definition set_insert (item : Z) (s : set_t) : option set_t :=
  if negb ((0 <=? item) && (item <? Z.of_nat (num_slots s))) then None
  else
    Some (mk_set (<[Z.to_nat item := true]> (slots s))
            (if cardinality s <? Z.of_nat (num_slots s) then cardinality s + 1 else cardinality s)).

(** Taking [item] out. *)
Definition take_item (item : nat) (s : set_t) : set_t := mk_set (<[item := false]> (slots s)) (cardinality s - 1).

(** The loop of [set_take] on what [rand] gives; [None] when it still spins. *)
Fixpoint find_item (rands : list Z) (s : set_t) : option nat :=
  match rands with
  | [] => None
  | r :: rands =>
      let item := Z.to_nat (r mod Z.of_nat (num_slots s)) in
      if default false (slots s !! item) then Some item else find_item rands s
  end.
Definition set_take (rands : list Z) (s : set_t) : option (nat * set_t) :=
  match find_item rands s with Some item => Some (item, take_item item s) | None => None end.

Definition set_cardinality (s : set_t) : Z := cardinality s.

(** ** The elements *)

Definition member (item : nat) (s : set_t) : Prop := slots s !! item = Some true.
#[global] Instance member_dec item s : Decision (member item s).
Proof. unfold member. apply _. Defined.

Definition size (l : list bool) : Z := Z.of_nat (length (filter (λ b : bool, b = true) l)).
(** The number of elements is right. *)
Definition set_ok (s : set_t) : Prop := cardinality s = size (slots s).

Lemma size_insert (l : list bool) i (b c : bool) : l !! i = Some b → size (<[i := c]> l) + (if b then 1 else 0) = size l + (if c then 1 else 0).
Proof.
  revert i. induction l as [|x l IH]; intros [|i]; simpl; try done.
  - intros [= ->]. unfold size. rewrite !filter_cons. destruct b, c; simpl; lia.
  - intros Hi%IH. unfold size in *. rewrite !filter_cons. destruct x; simpl in *; lia.
Qed.
Lemma size_le l : 0 ≤ size l ≤ Z.of_nat (length l).
Proof. unfold size. pose proof (length_filter (λ b : bool, b = true) l). lia. Qed.
Lemma size_member l i : l !! i = Some true → 0 < size l.
Proof. intros H. pose proof (size_insert l i true false H) as Hs. cbn iota in Hs. pose proof (size_le (<[i := false]> l)). lia. Qed.
Lemma member_size l : 0 < size l → ∃ i, l !! i = Some true.
Proof.
  induction l as [|b l IH]; [done|]. unfold size in *. rewrite filter_cons. destruct b; [by exists 0%nat|]. simpl. intros [i Hi]%IH. by exists (S i).
Qed.

Lemma find_item_some rands s item : find_item rands s = Some item → member item s.
Proof.
  induction rands as [|r rands IH]; simpl; [done|]. set (i := Z.to_nat _). destruct (slots s !! i) as [[]|] eqn:E; simpl; try done. by intros [= <-].
Qed.
(** The loop ends when [rand] gives an element. *)
Lemma find_item_hit rands s r : (0 < num_slots s)%nat → r ∈ rands → member (Z.to_nat (r mod Z.of_nat (num_slots s))) s → is_Some (find_item rands s).
Proof.
  intros Hn. induction rands as [|x rands IH]; [by intros ?%not_elem_of_nil|]. simpl. intros [->|Hr]%elem_of_cons Hm; [unfold member in Hm; rewrite Hm; by eexists|].
  case_match; [by eexists|]. by apply IH.
Qed.

Lemma set_insert_ok item s : (item < num_slots s)%nat → set_ok s → ¬ member item s → ∃ s', set_insert (Z.of_nat item) s = Some s' ∧ set_ok s' ∧
  num_slots s' = num_slots s ∧ slots s' = <[item := true]> (slots s) ∧ cardinality s' = cardinality s + 1.
Proof.
  intros Hi Hok Hm. unfold set_insert. rewrite (proj2 (Z.leb_le 0 (Z.of_nat item))), (proj2 (Z.ltb_lt (Z.of_nat item) _)) by lia. cbn [andb negb]. rewrite Nat2Z.id.
  destruct (lookup_lt_is_Some_2 (slots s) item Hi) as [b Hb]. assert (b = false) as -> by (destruct b; done).
  pose proof (size_insert _ _ _ true Hb) as Hs. cbn iota in Hs. pose proof (size_le (<[item := true]> (slots s))) as Hle. rewrite length_insert in Hle. unfold set_ok in *.
  assert (cardinality s < Z.of_nat (num_slots s)) as Hlt by (unfold num_slots; lia). rewrite (proj2 (Z.ltb_lt _ _) Hlt). eexists. split; [done|]. simpl.
  split_and!; [lia|unfold num_slots; simpl; by rewrite length_insert|done|done].
Qed.
Lemma take_ok item s : set_ok s → member item s → set_ok (take_item item s) ∧ 0 < cardinality s.
Proof.
  intros Hok Hm. unfold set_ok in *. simpl. pose proof (size_insert _ _ _ false Hm) as Hs. cbn iota in Hs. pose proof (size_member _ _ Hm). lia.
Qed.

(** The set library on its documented use: a new set is empty; inserting an
    element that is not in the set adds it and nothing else and raises the number
    of elements by one; taking gives an element of the set and removes it and
    nothing else, and returns as soon as [rand] gives one; on an empty set the
    loop of [set_take] never ends. *)
Theorem set_lib_ok :
  (∀ n, set_ok (set_alloc n) ∧ ∀ i, ¬ member i (set_alloc n)) ∧
  (∀ item s, (item < num_slots s)%nat → set_ok s → ¬ member item s →
    ∃ s', set_insert (Z.of_nat item) s = Some s' ∧ set_ok s' ∧ set_cardinality s' = set_cardinality s + 1 ∧
      ∀ i, member i s' ↔ i = item ∨ member i s) ∧
  (∀ rands s, set_ok s → 0 < set_cardinality s →
    match set_take rands s with
    | Some (item, s') => set_ok s' ∧ set_cardinality s' = set_cardinality s - 1 ∧ member item s ∧ ∀ i, member i s' ↔ i ≠ item ∧ member i s
    | None => ∀ r, r ∈ rands → ¬ member (Z.to_nat (r mod Z.of_nat (num_slots s))) s
    end) ∧
  (∀ rands s, set_ok s → set_cardinality s = 0 → set_take rands s = None).
Proof.
  split_and!.
  - intros n. split; [unfold set_ok, set_alloc, size; simpl; by induction n|]. intros i [? _]%lookup_replicate. done.
  - intros item s Hi Hok Hm. destruct (set_insert_ok item s Hi Hok Hm) as (s' & E & Hok' & _ & Es & Ec). exists s'. split_and!; [done..|].
    intros i. unfold member. rewrite Es. destruct (decide (i = item)) as [->|Hne]; [rewrite list_lookup_insert_eq by done; naive_solver|rewrite list_lookup_insert_ne by done; naive_solver].
  - intros rands s Hok Hc. unfold set_take. destruct (find_item rands s) as [item|] eqn:E.
    + apply find_item_some in E as Hm. destruct (take_ok item s Hok Hm) as [Hok' _]. split_and!; [done..|]. intros i. unfold member. simpl.
      destruct (decide (i = item)) as [->|Hne]; [|rewrite list_lookup_insert_ne by done; naive_solver].
      rewrite list_lookup_insert_eq by (by eapply lookup_lt_Some). naive_solver.
    + intros r Hr Hm. apply lookup_lt_Some in Hm as Hlt. destruct (find_item_hit rands s r) as [x Hx]; [unfold num_slots in *; lia|done|done|congruence].
  - intros rands s Hok Hc. unfold set_take. destruct (find_item rands s) as [item|] eqn:E; [|done]. apply find_item_some in E. destruct (take_ok item s Hok E).
    unfold set_cardinality in Hc. lia.
Qed.

(** Inserting an element twice counts it twice. *)
Example set_insert_twice :
  (set_insert 2 (set_alloc 3) ≫= set_insert 2) = Some (mk_set [false; false; true] 2).
Proof. reflexivity. Qed.

Lemma set_lib_ok_witness :
  set_take [4; 2] (mk_set [false; false; true] 1) = Some (2%nat, mk_set [false; false; false] 0) ∧ set_ok (mk_set [false; false; false] 0).
Proof.
  split; [reflexivity|]. destruct set_lib_ok as (_ & _ & Htake & _). specialize (Htake [4; 2] (mk_set [false; false; true] 1) eq_refl ltac:(reflexivity)). apply Htake.
Defined.
