(* ===== verification/Santa.v ===== *)
(** * Santa Claus (concurrency5/prob2/santa.c)

    Santa, nine elves and ten reindeer over the semaphores of the program and the
    set of the elves that wait.  A step is one semaphore operation, one critical
    section body of the set, or one access to a shared variable; [sem_wait] and
    [sem_signal] are the counting semaphores that [SemLib] shows the library to
    implement.  The history variable [calls] counts the reindeer that have called
    Santa. *)

From stdpp Require Import functions.
From S2P Require Import Prelude Threads SetLib.

Definition NUM_REINDEER : nat := 10.
Definition NUM_ELVES : nat := 9.
Definition NUM_ELVES_PER_GROUP : nat := 3.

(** ** Shared state *)

Inductive sname := santa_busy_mutex | santa_sleep_mutex | reindeer_counting_sem | reindeer_counter_lock | elf_counting_sem | elf_mutex
  | elf_counter_lock | write_lock.
#[global] Instance sname_eq_dec : EqDecision sname.
Proof. solve_decision. Defined.

Record shared := mk_shared {
  sems : sname → nat; elf_line : list nat; num_reindeer_waiting : Z; num_elves_being_helped : Z; elves_waiting : set_t; calls : nat
}.

Definition set_sems (f : sname → nat) (s : shared) : shared :=
  mk_shared f (elf_line s) (num_reindeer_waiting s) (num_elves_being_helped s) (elves_waiting s) (calls s).
Definition set_line (l : list nat) (s : shared) : shared :=
  mk_shared (sems s) l (num_reindeer_waiting s) (num_elves_being_helped s) (elves_waiting s) (calls s).
Definition set_reindeer (n : Z) (s : shared) : shared :=
  mk_shared (sems s) (elf_line s) n (num_elves_being_helped s) (elves_waiting s) (calls s).
Definition set_helped (n : Z) (s : shared) : shared :=
  mk_shared (sems s) (elf_line s) (num_reindeer_waiting s) n (elves_waiting s) (calls s).
Definition set_waiting (w : set_t) (s : shared) : shared :=
  mk_shared (sems s) (elf_line s) (num_reindeer_waiting s) (num_elves_being_helped s) w (calls s).
Definition count_call (s : shared) : shared :=
  mk_shared (sems s) (elf_line s) (num_reindeer_waiting s) (num_elves_being_helped s) (elves_waiting s) (S (calls s)).

Definition wait (m : sname) (s : shared) : option shared :=
  match sem_wait (sems s m) with Some v => Some (set_sems (<[m := v]> (sems s)) s) | None => None end.
Definition signal (m : sname) (k : nat) (s : shared) : shared := set_sems (<[m := (sems s m + k)%nat]> (sems s)) s.
Definition wait_line (i : nat) (s : shared) : option shared :=
  match elf_line s !! i with Some (S v) => Some (set_line (<[i := v]> (elf_line s)) s) | _ => None end.
Definition signal_line (i : nat) (s : shared) : shared := set_line (alter S i (elf_line s)) s.

(** ** Santa *)

(** Before each of the steps of [santa], [prepare_sleigh] and [help_elves]. *)
Inductive santa_pc :=
  | S_enter | S_leave | S_sleep | S_awake
  | S_count | S_prepare | S_hitch | S_deliver | S_gone
  | S_elves | S_busy | S_group | S_three | S_grouped | S_line | S_lock (i : nat) | S_take (i : nat) | S_unlock (i elf : nat) | S_help (i elf : nat) | S_helped.

(** One step of Santa; [item] is the last number that [rand] gives to [set_take]. *)
Definition santa_step (item : nat) (p : santa_pc) (s : shared) : option (santa_pc * shared) :=
  let go p s := Some (p, s) in
  match p with
  | S_enter => wait santa_busy_mutex s ≫= go S_leave
  | S_leave => go S_sleep (signal santa_busy_mutex 1 s)
  | S_sleep => wait santa_sleep_mutex s ≫= go S_awake
  | S_awake => go (if Z.of_nat NUM_REINDEER <=? num_reindeer_waiting s then S_count else S_elves) s
  | S_count => go S_prepare (set_reindeer (Z.of_nat NUM_REINDEER) s)
  | S_prepare => wait santa_busy_mutex s ≫= go S_hitch
  | S_hitch => go S_deliver (signal reindeer_counting_sem NUM_REINDEER s)
  | S_deliver => wait santa_busy_mutex s ≫= go S_gone
  | S_gone => wait santa_sleep_mutex s ≫= go S_enter
  | S_elves => go (if 3 <=? set_cardinality (elves_waiting s) then S_busy else S_enter) s
  | S_busy => wait santa_busy_mutex s ≫= go S_group
  | S_group => wait elf_counter_lock s ≫= go S_three
  | S_three => go S_grouped (set_helped (Z.of_nat NUM_ELVES_PER_GROUP) s)
  | S_grouped => go S_line (signal elf_counter_lock 1 s)
  | S_line => wait elf_mutex s ≫= go (S_lock 0)
  | S_lock i => wait write_lock s ≫= go (S_take i)
  | S_take i =>
      if decide (member item (elves_waiting s)) then go (S_unlock i item) (set_waiting (take_item item (elves_waiting s)) s) else None
  | S_unlock i elf => go (S_help i elf) (signal write_lock 1 s)
  | S_help i elf => go (if (S i <? NUM_ELVES_PER_GROUP)%nat then S_lock (S i) else S_helped) (signal_line elf s)
  | S_helped => go S_enter (signal elf_mutex 1 s)
  end.

(** ** The elves *)

Inductive elf_pc :=
  | E_work | E_mutex | E_lock | E_insert | E_unlock | E_third | E_call | E_queued | E_wait | E_count | E_help | E_last | E_free | E_release | E_done.

(** One step of [elf] and [get_help] for elf [id]. *)
Definition elf_step (id : nat) (p : elf_pc) (s : shared) : option (elf_pc * shared) :=
  let go p s := Some (p, s) in
  match p with
  | E_work => wait elf_counting_sem s ≫= go E_mutex
  | E_mutex => wait elf_mutex s ≫= go E_lock
  | E_lock => wait write_lock s ≫= go E_insert
  | E_insert => set_insert (Z.of_nat id) (elves_waiting s) ≫= λ w, go E_unlock (set_waiting w s)
  | E_unlock => go E_third (signal write_lock 1 s)
  | E_third => go (if Z.of_nat NUM_ELVES_PER_GROUP =? set_cardinality (elves_waiting s) then E_call else E_queued) s
  | E_call => go E_queued (signal santa_sleep_mutex 1 s)
  | E_queued => go E_wait (signal elf_mutex 1 s)
  | E_wait => wait_line id s ≫= go E_count
  | E_count => wait elf_counter_lock s ≫= go E_help
  | E_help => go E_last (set_helped (num_elves_being_helped s - 1) s)
  | E_last => go (if num_elves_being_helped s =? 0 then E_free else E_done) s
  | E_free => go E_release (signal santa_busy_mutex 1 s)
  | E_release => go E_done (signal elf_counting_sem NUM_ELVES_PER_GROUP s)
  | E_done => go E_work (signal elf_counter_lock 1 s)
  end.

(** ** The reindeer *)

Inductive deer_pc :=
  | R_tropics | R_arrive | R_arrived | R_last | R_call | R_wait | R_lock | R_hitch | R_test | R_unlock | R_done.

(** One step of [reindeer]; the program exits with the last. *)
Definition deer_step (p : deer_pc) (s : shared) : option (option deer_pc * shared) :=
  let go p s := Some (Some p, s) in
  match p with
  | R_tropics => wait reindeer_counter_lock s ≫= go R_arrive
  | R_arrive => go R_arrived (set_reindeer (num_reindeer_waiting s + 1) s)
  | R_arrived => go R_last (signal reindeer_counter_lock 1 s)
  | R_last => go (if Z.of_nat NUM_REINDEER <=? num_reindeer_waiting s then R_call else R_wait) s
  | R_call => go R_wait (count_call (signal santa_sleep_mutex 1 s))
  | R_wait => wait reindeer_counting_sem s ≫= go R_lock
  | R_lock => wait reindeer_counter_lock s ≫= go R_hitch
  | R_hitch => go R_test (set_reindeer (num_reindeer_waiting s - 1) s)
  | R_test => if 0 =? num_reindeer_waiting s then Some (None, s) else go R_unlock s
  | R_unlock => go R_done (signal reindeer_counter_lock 1 s)
  | R_done => None
  end.

(** ** The program *)

Record north_pole := mk_pole { np_santa : santa_pc; np_elves : list elf_pc; np_deer : list deer_pc; np_shared : shared; np_exited : bool }.

(** The semaphores as [main] initialises them. *)
Definition init_sems (m : sname) : nat :=
  match m with
  | elf_mutex | reindeer_counter_lock | elf_counter_lock | santa_busy_mutex | write_lock => 1
  | santa_sleep_mutex | reindeer_counting_sem => 0
  | elf_counting_sem => NUM_ELVES_PER_GROUP
  end.
Definition pole_start : north_pole :=
  mk_pole S_enter (replicate NUM_ELVES E_work) (replicate NUM_REINDEER R_tropics)
    (mk_shared init_sems (replicate NUM_ELVES 0%nat) 0 0 (set_alloc NUM_ELVES) 0) false.

(** A step; [asks] is that an elf stops its work to ask for help. *)
Inductive pole_step : bool → north_pole → north_pole → Prop :=
  | santa_moves sp es ds s item sp' s' :
      santa_step item sp s = Some (sp', s') → pole_step false (mk_pole sp es ds s false) (mk_pole sp' es ds s' false)
  | elf_moves sp es ds s id p p' s' :
      es !! id = Some p → elf_step id p s = Some (p', s') →
      pole_step (match p with E_work => true | _ => false end) (mk_pole sp es ds s false) (mk_pole sp (<[id := p']> es) ds s' false)
  | deer_moves sp es ds s id p p' s' :
      ds !! id = Some p → deer_step p s = Some (Some p', s') → pole_step false (mk_pole sp es ds s false) (mk_pole sp es (<[id := p']> ds) s' false)
  | deer_exits sp es ds s id p s' :
      ds !! id = Some p → deer_step p s = Some (None, s') → pole_step false (mk_pole sp es ds s false) (mk_pole sp es ds s' true).

Definition pole_reachable : north_pole → Prop := rtc (λ x y, ∃ asks, pole_step asks x y) pole_start.
