(* ===== verification/SantaInv.v ===== *)
(** * Santa Claus: the invariant (concurrency5/prob2/santa.c)

    Who holds which lock, how many elves are in the queue and being helped, and
    what the calls that Santa has not answered yet are for. *)

From stdpp Require Import functions.
From S2P Require Import Prelude Threads SetLib Santa.

(** ** Counting *)

Definition elf_code (p : elf_pc) : nat :=
  match p with
  | E_work => 0 | E_mutex => 1 | E_lock => 2 | E_insert => 3 | E_unlock => 4 | E_third => 5 | E_call => 6 | E_queued => 7 | E_wait => 8
  | E_count => 9 | E_help => 10 | E_last => 11 | E_free => 12 | E_release => 13 | E_done => 14
  end.
Definition deer_code (p : deer_pc) : nat :=
  match p with
  | R_tropics => 0 | R_arrive => 1 | R_arrived => 2 | R_last => 3 | R_call => 4 | R_wait => 5 | R_lock => 6 | R_hitch => 7 | R_test => 8
  | R_unlock => 9 | R_done => 10
  end.
Definition elves_at (es : list elf_pc) (q : elf_pc) : nat := count (λ p, (elf_code p =? elf_code q)%nat) es.
Definition deer_at (ds : list deer_pc) (q : deer_pc) : nat := count (λ p, (deer_code p =? deer_code q)%nat) ds.

Lemma elf_code_inj p q : (elf_code p =? elf_code q)%nat = true → p = q.
Proof. by destruct p, q. Qed.
Lemma deer_code_inj p q : (deer_code p =? deer_code q)%nat = true → p = q.
Proof. by destruct p, q. Qed.

Lemma elves_at_insert es i p p' q : es !! i = Some p →
  (elves_at (<[i := p']> es) q + b2n (elf_code p =? elf_code q)%nat = elves_at es q + b2n (elf_code p' =? elf_code q)%nat)%nat.
Proof. intros Hi. by apply (count_insert (λ p, (elf_code p =? elf_code q)%nat)). Qed.
Lemma deer_at_insert ds i p p' q : ds !! i = Some p →
  (deer_at (<[i := p']> ds) q + b2n (deer_code p =? deer_code q)%nat = deer_at ds q + b2n (deer_code p' =? deer_code q)%nat)%nat.
Proof. intros Hi. by apply (count_insert (λ p, (deer_code p =? deer_code q)%nat)). Qed.
Lemma elves_at_pos es i p : es !! i = Some p → (0 < elves_at es p)%nat.
Proof. intros Hi. eapply count_pos; [exact Hi|]. simpl. apply Nat.eqb_refl. Qed.
Lemma deer_at_pos ds i p : ds !! i = Some p → (0 < deer_at ds p)%nat.
Proof. intros Hi. eapply count_pos; [exact Hi|]. simpl. apply Nat.eqb_refl. Qed.
Lemma elves_at_ex es p : (0 < elves_at es p)%nat → ∃ i, es !! i = Some p.
Proof. intros (i & x & Hi & E%elf_code_inj)%count_ex. subst. eauto. Qed.
Lemma deer_at_ex ds p : (0 < deer_at ds p)%nat → ∃ i, ds !! i = Some p.
Proof. intros (i & x & Hi & E%deer_code_inj)%count_ex. subst. eauto. Qed.
Lemma deer_at_all ds :
  (deer_at ds R_tropics + deer_at ds R_arrive + deer_at ds R_arrived + deer_at ds R_last + deer_at ds R_call + deer_at ds R_wait + deer_at ds R_lock
   + deer_at ds R_hitch + deer_at ds R_test + deer_at ds R_unlock + deer_at ds R_done = length ds)%nat.
Proof. unfold deer_at. induction ds as [|[] ds IH]; simpl in *; lia. Qed.

(** ** Who is where *)

Section Elves.
Context (es : list elf_pc).
Let n := elves_at es.
Local Open Scope nat_scope.
Definition in_mutex : nat := n E_lock + n E_insert + n E_unlock + n E_third + n E_call + n E_queued.
Definition in_lock : nat := n E_insert + n E_unlock.
Definition in_count : nat := n E_help + n E_last + n E_free + n E_release + n E_done.
Definition in_queue : nat := n E_unlock + n E_third + n E_call + n E_queued + n E_wait.
(** Called by Santa but not yet helped. *)
Definition to_help : nat := n E_count + n E_help.
Definition in_room : nat := n E_mutex + n E_lock + n E_insert + in_queue + to_help.
End Elves.

Section Deer.
Context (ds : list deer_pc).
Let n := deer_at ds.
Local Open Scope nat_scope.
Definition in_deer_lock : nat := n R_arrive + n R_arrived + n R_hitch + n R_test + n R_unlock.
(** Counted in [num_reindeer_waiting]. *)
Definition back : nat := n R_arrived + n R_last + n R_call + n R_wait + n R_lock + n R_hitch.
Definition let_in : nat := n R_lock + n R_hitch + n R_test + n R_unlock + n R_done.
Definition hitched : nat := n R_test + n R_unlock + n R_done.
Definition away : nat := n R_tropics + n R_arrive.
End Deer.

Section Santa.
Context (p : santa_pc).
Definition s_mutex : nat := match p with S_lock _ | S_take _ | S_unlock _ _ | S_help _ _ | S_helped => 1 | _ => 0 end.
Definition s_lock : nat := match p with S_take _ | S_unlock _ _ => 1 | _ => 0 end.
Definition s_count : nat := match p with S_three | S_grouped => 1 | _ => 0 end.
Definition s_busy : nat := match p with S_leave | S_group | S_three | S_hitch | S_deliver => 1 | _ => 0 end.
(** Elves of the group that Santa has not called yet. *)
Definition s_left : nat := match p with S_grouped | S_line => 3 | S_lock i | S_take i | S_unlock i _ | S_help i _ => 3 - i | _ => 0 end.
(** The elf that is out of the set but not called. *)
Definition s_holds : nat := match p with S_unlock _ _ | S_help _ _ => 1 | _ => 0 end.
(** Santa answers a call and has not taken an elf yet. *)
Definition s_token : nat :=
  match p with
  | S_awake | S_elves | S_busy | S_group | S_three | S_grouped | S_line => 1
  | S_lock i | S_take i => if (i =? 0)%nat then 1 else 0
  | _ => 0
  end.
(** The reindeer that Santa lets in. *)
Definition s_hitches : nat := match p with S_deliver => 10 | _ => 0 end.
Definition sleigh : bool := match p with S_count | S_prepare | S_hitch | S_deliver => true | _ => false end.
(** What Santa knows of the set. *)
Definition s_knows (es : list elf_pc) (card : Z) : Prop :=
  match p with
  | S_elves | S_busy | S_group | S_three | S_grouped | S_line => card = 3
  | S_lock i | S_take i => (i < 3)%nat ∧ card = 3 - Z.of_nat i
  | S_unlock i e | S_help i e => (i < 3)%nat ∧ card = 2 - Z.of_nat i ∧ es !! e = Some E_wait
  | S_helped => card = 0
  | S_gone => False
  | _ => True
  end.
Definition s_elf (i : nat) : nat := match p with S_unlock _ e | S_help _ e => if (e =? i)%nat then 1 else 0 | _ => 0 end.
End Santa.

(** An elf is out of its queue, in the set, taken out by Santa, or called. *)
Definition queueing (p : elf_pc) : nat := match p with E_unlock | E_third | E_call | E_queued | E_wait => 1 | _ => 0 end.
Definition elf_fits (sp : santa_pc) (i : nat) (p : elf_pc) (v : nat) (b : bool) : Prop :=
  (v + b2n b + s_elf sp i = queueing p)%nat ∧ ((0 < v)%nat → p = E_wait).

Definition is_three (c : Z) : nat := if c =? 3 then 1 else 0.

(** The places of the group that is being helped and has not left yet. *)
Definition group (es : list elf_pc) (helped : Z) : Z :=
  if 0 <? helped then 3 - helped else 3 * Z.of_nat (elves_at es E_last + elves_at es E_free + elves_at es E_release).
(** A group keeps Santa busy. *)
Definition group_busy (es : list elf_pc) (helped : Z) : nat :=
  if 0 <? helped then 1 else (elves_at es E_last + elves_at es E_free)%nat.

Record elves_inv (sp : santa_pc) (es : list elf_pc) (s : shared) : Prop := {
  ei_len : length es = NUM_ELVES ∧ length (elf_line s) = NUM_ELVES ∧ num_slots (elves_waiting s) = NUM_ELVES;
  ei_fits : ∀ i p v b, es !! i = Some p → elf_line s !! i = Some v → slots (elves_waiting s) !! i = Some b → elf_fits sp i p v b;
  ei_set : set_ok (elves_waiting s);
  ei_queue : Z.of_nat (sum_list (elf_line s)) + cardinality (elves_waiting s) + Z.of_nat (s_holds sp) = Z.of_nat (in_queue es);
  ei_helped : num_elves_being_helped s = Z.of_nat (sum_list (elf_line s) + to_help es + s_left sp)%nat;
  ei_free : ((0 < elves_at es E_free + elves_at es E_release)%nat → num_elves_being_helped s = 0) ∧ num_elves_being_helped s ≤ 3;
  ei_room : Z.of_nat (sems s elf_counting_sem + in_room es) + group es (num_elves_being_helped s) = 3;
  ei_mutex : (sems s elf_mutex + in_mutex es + s_mutex sp = 1)%nat;
  ei_lock : (sems s write_lock + in_lock es + s_lock sp = 1)%nat;
  ei_count : (sems s elf_counter_lock + in_count es + s_count sp = 1)%nat;
  ei_busy : (sems s santa_busy_mutex + s_busy sp + group_busy es (num_elves_being_helped s) = 1)%nat;
  ei_knows : s_knows sp es (cardinality (elves_waiting s))
}.

Record deer_inv (sp : santa_pc) (ds : list deer_pc) (s : shared) (exited : bool) : Prop := {
  di_len : length ds = NUM_REINDEER;
  di_lock : (sems s reindeer_counter_lock + in_deer_lock ds = 1)%nat;
  di_back : num_reindeer_waiting s = Z.of_nat (back ds);
  di_in : (sems s reindeer_counting_sem + let_in ds = s_hitches sp)%nat;
  di_sleigh : sleigh sp = true → away ds = 0%nat;
  di_few : sleigh sp = false → num_reindeer_waiting s < 10 → (calls s + deer_at ds R_call = 0)%nat;
  di_all : sleigh sp = false → num_reindeer_waiting s = 10 → (0 < calls s + deer_at ds R_arrived + deer_at ds R_last + deer_at ds R_call)%nat;
  di_exit : if exited then back ds = 0%nat ∧ (0 < hitched ds)%nat else (0 < back ds + deer_at ds R_test)%nat ∨ hitched ds = 0%nat
}.

(** The calls that Santa has not answered: that of the third elf, and those of
    the reindeer. *)
Definition calls_inv (sp : santa_pc) (es : list elf_pc) (s : shared) : Prop :=
  let c := cardinality (elves_waiting s) in
  sleigh sp = false →
  (sems s santa_sleep_mutex + s_token sp + elves_at es E_call + is_three c * (elves_at es E_unlock + elves_at es E_third) = is_three c + calls s)%nat.

Record pole_inv (w : north_pole) : Prop := {
  pi_elves : elves_inv (np_santa w) (np_elves w) (np_shared w);
  pi_deer : deer_inv (np_santa w) (np_deer w) (np_shared w) (np_exited w);
  pi_calls : calls_inv (np_santa w) (np_elves w) (np_shared w)
}.

(** ** Steps *)

Lemma wait_some m s s' : wait m s = Some s' → ∃ v, sems s m = S v ∧ s' = set_sems (<[m := v]> (sems s)) s.
Proof. unfold wait. destruct (sems s m) as [|v]; [done|]. simpl. intros [= <-]. eauto. Qed.
Lemma wait_go {A} m s (p : A) r :
  (wait m s ≫= λ s', Some (p, s')) = Some r → ∃ v, sems s m = S v ∧ r = (p, set_sems (<[m := v]> (sems s)) s).
Proof. destruct (wait m s) as [s'|] eqn:E; [|done]. apply wait_some in E as (v & Ev & ->). simpl. intros [= <-]. eauto. Qed.

Lemma sum_insert l i v x : l !! i = Some v → (sum_list (<[i := x]> l) + v = sum_list l + x)%nat.
Proof. revert i. induction l as [|y l IH]; intros [|i]; simpl; try done; [intros [= ->]; lia|]. intros Hi%IH. lia. Qed.

Ltac sem_look := repeat (rewrite fn_lookup_insert || (rewrite fn_lookup_insert_ne by discriminate)).

(** When Santa is awake and the reindeer are not all back, three elves wait. *)
Lemma awake_three es ds s ex :
  deer_inv S_awake ds s ex → calls_inv S_awake es s → num_reindeer_waiting s < 10 → cardinality (elves_waiting s) = 3.
Proof.
  intros D C Hn. pose proof (di_few _ _ _ _ D eq_refl Hn) as Hc. specialize (C eq_refl). simpl in C. unfold is_three in C.
  destruct (Z.eqb_spec (cardinality (elves_waiting s)) 3); [done|]. lia.
Qed.

(** An elf in the set that Santa can take waits for its call. *)
Lemma member_waits i es s item :
  elves_inv (S_take i) es s → member item (elves_waiting s) → es !! item = Some E_wait ∧ elf_line s !! item = Some 0%nat.
Proof.
  intros [(L1 & L2 & L3) A2 _ _ _ _ _ A8 _ _ _ _] Hm. assert (item < NUM_ELVES)%nat as Hlt by (rewrite <- L3; by eapply lookup_lt_Some).
  destruct (lookup_lt_is_Some_2 es item ltac:(lia)) as [p Hp]. destruct (lookup_lt_is_Some_2 (elf_line s) item ltac:(lia)) as [v Hv].
  destruct (A2 item p v true Hp Hv Hm) as [F1 F2]. simpl in F1. assert (p = E_wait) as ->.
  { pose proof (elves_at_pos es item p Hp). unfold in_mutex in A8. simpl in A8. destruct p; simpl in F1; try lia; done. }
  simpl in F1. split; [done|]. rewrite Hv. f_equal. lia.
Qed.

(** Santa takes an elf out of the set. *)
Lemma take_elves i es s item :
  elves_inv (S_take i) es s → member item (elves_waiting s) → elves_inv (S_unlock i item) es (set_waiting (take_item item (elves_waiting s)) s).
Proof.
  intros A Hm. destruct (member_waits i es s item A Hm) as [Hp Hv]. destruct A as [A1 A2 A3 A4 A5 A6 A7 A8 A9 A10 A11 A12].
  destruct (take_ok item _ A3 Hm) as [Hok Hpos]. destruct A1 as (L1 & L2 & L3). destruct (A2 item E_wait 0%nat true Hp Hv Hm) as [F1 F2]. simpl in F1.
  split; simpl in *; try done; [unfold num_slots; simpl; by rewrite length_insert| |unfold set_ok in *; lia|].
  - intros j q w b Hj Hw Hb. destruct (decide (j = item)) as [->|Hne].
    + rewrite list_lookup_insert_eq in Hb by (by eapply lookup_lt_Some). simplify_eq. split; simpl; [|done]. rewrite Nat.eqb_refl. done.
    + rewrite list_lookup_insert_ne in Hb by done. destruct (A2 j q w b Hj Hw Hb) as [G1 G2]. split; [|done]. simpl in *. rewrite (proj2 (Nat.eqb_neq item j)); lia.
  - destruct A12. split_and!; [done|lia|done].
Qed.

(** Santa calls the elf. *)
Lemma call_elves i e es s sp' :
  elves_inv (S_help i e) es s → sp' = (if (S i <? NUM_ELVES_PER_GROUP)%nat then S_lock (S i) else S_helped) → elves_inv sp' es (signal_line e s).
Proof.
  intros [A1 A2 A3 A4 A5 A6 A7 A8 A9 A10 A11 A12] E. destruct A1 as (L1 & L2 & L3). simpl in A12. destruct A12 as (Hi & Hc & He).
  assert (e < NUM_ELVES)%nat as Hlt by (rewrite <- L1; by eapply lookup_lt_Some). destruct (lookup_lt_is_Some_2 (elf_line s) e ltac:(lia)) as [v Hv].
  assert (alter S e (elf_line s) = <[e := S v]> (elf_line s)) as Ea.
  { apply list_eq. intros j. destruct (decide (e = j)) as [<-|Hne]; [rewrite list_lookup_alter_eq, list_lookup_insert_eq by lia; by rewrite Hv|by rewrite list_lookup_alter_ne, list_lookup_insert_ne]. }
  pose proof (sum_insert _ _ _ (S v) Hv) as Hsum. unfold NUM_ELVES_PER_GROUP in E.
  assert (s_elf sp' = λ _, 0%nat) as Hse by (subst sp'; by destruct (S i <? 3)%nat).
  assert (s_holds sp' = 0 ∧ s_mutex sp' = 1 ∧ s_lock sp' = 0 ∧ s_count sp' = 0 ∧ s_busy sp' = 0 ∧ S (s_left sp') = 3 - i ∧ s_knows sp' es (cardinality (elves_waiting s)))%nat
    as (K1 & K2 & K3 & K4 & K5 & K6 & K7).
  { subst sp'. destruct (Nat.ltb_spec (S i) 3); simpl; split_and!; lia. }
  split; simpl in *; rewrite ?Ea, ?K1, ?K2, ?K3, ?K4, ?K5; try done; try lia.
  - rewrite length_insert. done.
  - intros j q w b Hj Hw Hb. destruct (decide (j = e)) as [->|Hne].
    + rewrite list_lookup_insert_eq in Hw by lia. simplify_eq. destruct (A2 e E_wait v b He Hv Hb) as [F1 F2]. split; [|done]. rewrite Hse. simpl in *. rewrite Nat.eqb_refl in F1. lia.
    + rewrite list_lookup_insert_ne in Hw by done. destruct (A2 j q w b Hj Hw Hb) as [G1 G2]. split; [|done]. rewrite Hse. simpl in *. rewrite (proj2 (Nat.eqb_neq e j)) in G1; lia.
Qed.

Lemma santa_elves sp es s item sp' s' ds ex :
  elves_inv sp es s → deer_inv sp ds s ex → calls_inv sp es s → santa_step item sp s = Some (sp', s') → elves_inv sp' es s'.
Proof.
  intros A D C Hs. destruct sp; simpl in Hs; try (apply wait_go in Hs as (v & Ev & [= -> ->])); try (injection Hs as <- <-);
    try (destruct A as [A1 A2 A3 A4 A5 A6 A7 A8 A9 A10 A11 A12]; split; simpl in *; sem_look; try done; lia).
  - destruct (Z.leb_spec (Z.of_nat NUM_REINDEER) (num_reindeer_waiting s)) as [|Hn]; [|pose proof (awake_three _ _ _ _ D C Hn) as Hc];
      destruct A as [A1 A2 A3 A4 A5 A6 A7 A8 A9 A10 A11 A12]; split; simpl in *; done || lia.
  - pose proof (ei_knows _ _ _ A) as Hk. simpl in Hk. unfold set_cardinality. rewrite Hk. simpl.
    destruct A as [A1 A2 A3 A4 A5 A6 A7 A8 A9 A10 A11 A12]; split; simpl in *; done || lia.
  - destruct A as [A1 A2 A3 A4 A5 A6 A7 A8 A9 A10 A11 A12]. unfold group, group_busy, in_count, NUM_ELVES_PER_GROUP in *. simpl in *.
    assert (num_elves_being_helped s = 0) as Hz by (destruct (Z.ltb_spec 0 (num_elves_being_helped s)); lia).
    split; unfold group, group_busy; simpl; try done; try lia; rewrite Hz in *; simpl in *; lia.
  - case_decide as Hm; [|done]. injection Hs as <- <-. by apply take_elves.
  - by apply (call_elves i elf es s).
Qed.

Lemma santa_deer sp es s item sp' s' ds :
  elves_inv sp es s → deer_inv sp ds s false → calls_inv sp es s → santa_step item sp s = Some (sp', s') → deer_inv sp' ds s' false.
Proof.
  intros A D C Hs. pose proof (deer_at_all ds) as Hall. destruct sp; simpl in Hs; try (apply wait_go in Hs as (v & Ev & [= -> ->])); try (injection Hs as <- <-).
  all: try (destruct D as [D1 D2 D3 D4 D5 D6 D7 D8]; split; simpl in *; sem_look; try done; lia).
  - destruct (Z.leb_spec (Z.of_nat NUM_REINDEER) (num_reindeer_waiting s)); destruct D as [D1 D2 D3 D4 D5 D6 D7 D8];
      unfold NUM_REINDEER, back, away, let_in in *; split; simpl in *; unfold back, away, let_in; try done; lia.
  - destruct D as [D1 D2 D3 D4 D5 D6 D7 D8]. unfold NUM_REINDEER, back, away, let_in in *. split; simpl in *; unfold back, away, let_in; try done. specialize (D5 eq_refl). lia.
  - destruct D as [D1 D2 D3 D4 D5 D6 D7 D8]. unfold NUM_REINDEER in *. split; simpl in *; sem_look; try done; lia.
  - pose proof (ei_busy _ _ _ A) as Hb. simpl in Hb. lia.
  - destruct D as [D1 D2 D3 D4 D5 D6 D7 D8]. case_match; split; simpl in *; done.
  - case_decide; [|done]. injection Hs as <- <-. destruct D as [D1 D2 D3 D4 D5 D6 D7 D8]. split; done.
  - destruct D as [D1 D2 D3 D4 D5 D6 D7 D8]. case_match; split; simpl in *; done.
Qed.

Lemma santa_calls sp es s item sp' s' ds ex :
  elves_inv sp es s → deer_inv sp ds s ex → calls_inv sp es s → santa_step item sp s = Some (sp', s') → calls_inv sp' es s'.
Proof.
  intros A D C Hs. destruct sp; simpl in Hs; try (apply wait_go in Hs as (v & Ev & [= -> ->])); try (injection Hs as <- <-); unfold calls_inv in *.
  all: try (simpl in *; sem_look; intros; specialize (C ltac:(done)); simpl in *; lia).
  - by destruct (Z.leb_spec (Z.of_nat NUM_REINDEER) (num_reindeer_waiting s)).
  - pose proof (ei_busy _ _ _ A) as Hb. simpl in Hb. lia.
  - by pose proof (ei_knows _ _ _ A).
  - pose proof (ei_knows _ _ _ A) as Hk. simpl in Hk. unfold set_cardinality. by rewrite Hk in *.
  - case_decide; [|done]. injection Hs as <- <-. pose proof (ei_knows _ _ _ A) as [Hi Hk]. pose proof (ei_mutex _ _ _ A) as Hm. unfold in_mutex in Hm. simpl in *.
    intros _. specialize (C eq_refl). unfold is_three in *. rewrite Hk in *. destruct i as [|[|[|i]]]; simpl in *; lia.
  - pose proof (ei_knows _ _ _ A) as [Hi [Hk _]]. intros _. specialize (C eq_refl). simpl in *. destruct i as [|[|[|i]]]; simpl in *; lia.
Qed.

(** *** The elves *)

Ltac elf_counts Hi p' :=
  match type of Hi with
  | ?es !! ?id = Some ?p =>
      pose proof (elves_at_insert es id p p' E_work Hi); pose proof (elves_at_insert es id p p' E_mutex Hi); pose proof (elves_at_insert es id p p' E_lock Hi);
      pose proof (elves_at_insert es id p p' E_insert Hi); pose proof (elves_at_insert es id p p' E_unlock Hi); pose proof (elves_at_insert es id p p' E_third Hi);
      pose proof (elves_at_insert es id p p' E_call Hi); pose proof (elves_at_insert es id p p' E_queued Hi); pose proof (elves_at_insert es id p p' E_wait Hi);
      pose proof (elves_at_insert es id p p' E_count Hi); pose proof (elves_at_insert es id p p' E_help Hi); pose proof (elves_at_insert es id p p' E_last Hi);
      pose proof (elves_at_insert es id p p' E_free Hi); pose proof (elves_at_insert es id p p' E_release Hi); pose proof (elves_at_insert es id p p' E_done Hi)
  end.
Ltac open_counts := unfold in_mutex, in_lock, in_count, in_queue, to_help, in_room, in_queue, to_help, group, group_busy in *.

Lemma elf_fits_insert sp (es : list elf_pc) id p p' (line : list nat) (sl : list bool) v b :
  (∀ i q v b, es !! i = Some q → line !! i = Some v → sl !! i = Some b → elf_fits sp i q v b) → es !! id = Some p →
  elf_fits sp id p' v b → ∀ i q w c, <[id := p']> es !! i = Some q → <[id := v]> line !! i = Some w → <[id := b]> sl !! i = Some c → elf_fits sp i q w c.
Proof.
  intros A Hp Hf i q w c Hq Hw Hc. apply list_lookup_insert_Some in Hq as [(<- & <- & _)|[Hne Hq]].
  - apply list_lookup_insert_Some in Hw as [(_ & -> & _)|[? _]]; [|done]. by apply list_lookup_insert_Some in Hc as [(_ & -> & _)|[? _]].
  - rewrite list_lookup_insert_ne in Hw by done. rewrite list_lookup_insert_ne in Hc by done. by apply (A i).
Qed.
(** The elf moves, and neither its slot nor its semaphore changes. *)
Lemma elf_fits_moves sp (es : list elf_pc) id p p' s :
  elves_inv sp es s → es !! id = Some p → p ≠ E_wait → queueing p = queueing p' →
  (∀ i q w c, <[id := p']> es !! i = Some q → elf_line s !! i = Some w → slots (elves_waiting s) !! i = Some c → elf_fits sp i q w c) ∧
  ∀ card, s_knows sp es card → s_knows sp (<[id := p']> es) card.
Proof.
  intros [(L1 & L2 & L3) A2 _ _ _ _ _ _ _ _ _ _] Hp Hne Hq. split.
  - intros i q w c Hi Hw Hc. apply list_lookup_insert_Some in Hi as [(<- & <- & _)|[Hi' Hi]]; [|by apply (A2 i)]. destruct (A2 id p w c Hp Hw Hc) as [F1 F2].
    split; [lia|]. intros Hpos. by destruct Hne; apply F2.
  - assert (∀ e, es !! e = Some E_wait → <[id := p']> es !! e = Some E_wait) as He by (intros e He; rewrite list_lookup_insert_ne; [done|]; intros ->; congruence).
    intros card. destruct sp; simpl; naive_solver.
Qed.

Ltac elf_simple A Hi :=
  match goal with |- elves_inv ?sp (<[?id := ?q]> ?es) _ =>
    elf_counts Hi q; destruct (elf_fits_moves sp es id _ q _ A Hi ltac:(done) ltac:(done)) as [? Hk];
    destruct A as [A1 A2 A3 A4 A5 A6 A7 A8 A9 A10 A11 A12]; unfold NUM_ELVES_PER_GROUP in *; open_counts; split; open_counts; simpl in *; sem_look; rewrite ?length_insert;
    try done; try lia; [..|by apply Hk]; repeat case_match; lia
  end.

(** The elf joins the queue. *)
Lemma insert_elves sp es s id w :
  elves_inv sp es s → es !! id = Some E_insert → set_insert (Z.of_nat id) (elves_waiting s) = Some w →
  elves_inv sp (<[id := E_unlock]> es) (set_waiting w s) ∧ cardinality w = cardinality (elves_waiting s) + 1.
Proof.
  intros A Hi E. pose proof A as [(L1 & L2 & L3) A2 A3 A4 A5 A6 A7 A8 A9 A10 A11 A12]. assert (id < NUM_ELVES)%nat as Hlt by (rewrite <- L1; by eapply lookup_lt_Some).
  destruct (lookup_lt_is_Some_2 (elf_line s) id ltac:(lia)) as [v Hv]. destruct (lookup_lt_is_Some_2 (slots (elves_waiting s)) id ltac:(unfold num_slots in L3; lia)) as [b Hb].
  destruct (A2 id E_insert v b Hi Hv Hb) as [F1 F2]. simpl in F1. assert (v = 0 ∧ b = false ∧ s_elf sp id = 0)%nat as (-> & -> & Hse) by (destruct b; simpl in F1; split_and!; lia || done).
  destruct (set_insert_ok id (elves_waiting s)) as (w' & E' & Hok & Hn & Hsl & Hc); [lia|done|unfold member; congruence|]. assert (w' = w) as -> by congruence.
  split; [|done]. pose proof (elves_at_pos es id _ Hi) as Hpos. elf_counts Hi E_unlock. open_counts. split; open_counts; simpl in *; rewrite ?length_insert; try done; try lia; try (destruct (0 <? num_elves_being_helped s); lia).
  - rewrite Hsl, <- (list_insert_id (elf_line s) id 0%nat Hv). by apply (elf_fits_insert sp es id E_insert); [..|split; simpl; lia].
  - rewrite Hc. assert (∀ e, es !! e = Some E_wait → <[id := E_unlock]> es !! e = Some E_wait) as He by (intros e He; rewrite list_lookup_insert_ne; [done|]; intros ->; congruence).
    destruct (Z.ltb_spec 0 (num_elves_being_helped s)); destruct sp; simpl in *; try done; lia.
Qed.

(** The elf is called. *)
Lemma called_elves sp es s id v :
  elves_inv sp es s → es !! id = Some E_wait → elf_line s !! id = Some (S v) → elves_inv sp (<[id := E_count]> es) (set_line (<[id := v]> (elf_line s)) s).
Proof.
  intros A Hi Hv. pose proof A as [(L1 & L2 & L3) A2 A3 A4 A5 A6 A7 A8 A9 A10 A11 A12]. apply lookup_lt_Some in Hi as Hlt.
  destruct (lookup_lt_is_Some_2 (slots (elves_waiting s)) id ltac:(unfold num_slots in L3; lia)) as [b Hb]. pose proof (sum_insert _ _ _ v Hv) as Hsum.
  destruct (A2 id E_wait _ b Hi Hv Hb) as [F1 F2]. simpl in F1. assert (v = 0 ∧ b = false ∧ s_elf sp id = 0)%nat as (-> & -> & Hse) by (destruct b; simpl in F1; split_and!; lia || done).
  pose proof (elves_at_pos es id _ Hi) as Hpos. elf_counts Hi E_count. open_counts. split; open_counts; simpl in *; rewrite ?length_insert; try done; try lia; try (destruct (0 <? num_elves_being_helped s); lia).
  - rewrite <- (list_insert_id (slots (elves_waiting s)) id false Hb). by apply (elf_fits_insert sp es id E_wait); [..|split; simpl; lia].
  - assert (∀ e, s_elf sp e = 1%nat → es !! e = Some E_wait → <[id := E_count]> es !! e = Some E_wait) as He by (intros e Hs He; rewrite list_lookup_insert_ne; [done|]; intros ->; lia).
    destruct sp; simpl in *; try done; rewrite ?Nat.eqb_refl in He; destruct A12 as (? & ? & ?); split_and!; try done; apply He; by rewrite ?Nat.eqb_refl.
Qed.

Lemma elf_elves sp es s id p p' s' :
  elves_inv sp es s → es !! id = Some p → elf_step id p s = Some (p', s') → elves_inv sp (<[id := p']> es) s'.
Proof.
  intros A Hi Hs. pose proof (elves_at_pos es id p Hi) as Hpos.
  destruct p; cbn [elf_step] in Hs; try (apply wait_go in Hs as (v & Ev & [= -> ->])); try (injection Hs as <- <-); try (elf_simple A Hi).
  - destruct (set_insert _ _) as [w|] eqn:E; [|done]. injection Hs as <- <-. by apply insert_elves.
  - match goal with |- context [if ?b then E_call else E_queued] => destruct b end; elf_simple A Hi.
  - unfold wait_line in Hs. destruct (elf_line s !! id) as [[|v]|] eqn:Ev; simpl in Hs; try done. injection Hs as <- <-. by apply called_elves.
  - destruct (Z.eqb_spec (num_elves_being_helped s) 0); elf_simple A Hi.
Qed.

Lemma elf_deer sp ds s ex id p p' s' : deer_inv sp ds s ex → elf_step id p s = Some (p', s') → deer_inv sp ds s' ex.
Proof.
  intros D Hs. assert (sems s' reindeer_counter_lock = sems s reindeer_counter_lock ∧ sems s' reindeer_counting_sem = sems s reindeer_counting_sem ∧
    num_reindeer_waiting s' = num_reindeer_waiting s ∧ calls s' = calls s) as (E1 & E2 & E3 & E4).
  { destruct p; cbn [elf_step] in Hs; try (apply wait_go in Hs as (v & Ev & [= -> ->])); try (injection Hs as <- <-); try done.
    - destruct (set_insert _ _); [|done]. by injection Hs as <- <-.
    - destruct (wait_line id s) as [t|] eqn:E; [|done]. injection Hs as <- <-. unfold wait_line in E. destruct (elf_line s !! id) as [[|v]|]; try done. by injection E as <-. }
  destruct D as [D1 D2 D3 D4 D5 D6 D7 D8]. split; rewrite ?E1, ?E2, ?E3, ?E4; done.
Qed.

Lemma elf_calls sp es s id p p' s' :
  elves_inv sp es s → calls_inv sp es s → es !! id = Some p → elf_step id p s = Some (p', s') → calls_inv sp (<[id := p']> es) s'.
Proof.
  intros A C Hi Hs. pose proof (elves_at_pos es id p Hi) as Hpos. pose proof (ei_mutex _ _ _ A) as Hm. unfold in_mutex in Hm.
  destruct p; cbn [elf_step] in Hs; try (apply wait_go in Hs as (v & Ev & [= -> ->])); try (injection Hs as <- <-); unfold calls_inv in *; intros Hsl; specialize (C Hsl).
  all: try (match goal with |- context [elves_at (<[_ := ?q]> _) E_call] => elf_counts Hi q end; simpl in *; sem_look; unfold is_three in *; destruct (_ =? 3); lia).
  - destruct (set_insert _ _) as [w|] eqn:E; [|done]. injection Hs as <- <-. destruct (insert_elves sp es s id w A Hi E) as [A' Ec]. elf_counts Hi E_unlock. simpl in *.
    assert (cardinality w ≤ 3) as Hle.
    { pose proof (ei_queue _ _ _ A') as Q. pose proof (ei_room _ _ _ A') as R. pose proof (ei_helped _ _ _ A') as N. simpl in *. open_counts.
      destruct (Z.ltb_spec 0 (num_elves_being_helped s)); destruct sp; simpl in *; lia. }
    unfold is_three in *. destruct (Z.eqb_spec (cardinality (elves_waiting s)) 3); [lia|]. destruct (Z.eqb_spec (cardinality w) 3); lia.
  - match goal with |- context [if ?b then E_call else E_queued] => destruct b eqn:Eb end;
      [assert ((3 =? cardinality (elves_waiting s)) = true) as Eb'%Z.eqb_eq by exact Eb; elf_counts Hi E_call
      |assert ((3 =? cardinality (elves_waiting s)) = false) as Eb'%Z.eqb_neq by exact Eb; elf_counts Hi E_queued];
      simpl in *; unfold is_three in *; destruct (Z.eqb_spec (cardinality (elves_waiting s)) 3); lia.
  - destruct (wait_line id s) as [t|] eqn:E; [|done]. injection Hs as <- <-. elf_counts Hi E_count. unfold wait_line in E.
    destruct (elf_line s !! id) as [[|v]|]; try done. injection E as <-. simpl in *. unfold is_three in *. destruct (_ =? 3); lia.
  - destruct (num_elves_being_helped s =? 0); [elf_counts Hi E_free|elf_counts Hi E_done]; simpl in *; unfold is_three in *; destruct (_ =? 3); lia.
Qed.

(** *** The reindeer *)

Ltac deer_counts Hi p' :=
  match type of Hi with
  | ?ds !! ?id = Some ?p =>
      pose proof (deer_at_insert ds id p p' R_tropics Hi); pose proof (deer_at_insert ds id p p' R_arrive Hi); pose proof (deer_at_insert ds id p p' R_arrived Hi);
      pose proof (deer_at_insert ds id p p' R_last Hi); pose proof (deer_at_insert ds id p p' R_call Hi); pose proof (deer_at_insert ds id p p' R_wait Hi);
      pose proof (deer_at_insert ds id p p' R_lock Hi); pose proof (deer_at_insert ds id p p' R_hitch Hi); pose proof (deer_at_insert ds id p p' R_test Hi);
      pose proof (deer_at_insert ds id p p' R_unlock Hi); pose proof (deer_at_insert ds id p p' R_done Hi)
  end.

Ltac deer_simple Hi :=
  match goal with |- deer_inv ?sp (<[_ := ?q]> _) _ _ =>
    deer_counts Hi q; split; unfold in_deer_lock, back, let_in, hitched, away; simpl in *; sem_look; rewrite ?length_insert; try done; destruct (sleigh sp); done || lia
  end.

Lemma wait_go_deer m s (p : deer_pc) r :
  (wait m s ≫= λ s', Some (Some p, s')) = Some r → ∃ v, sems s m = S v ∧ r = (Some p, set_sems (<[m := v]> (sems s)) s).
Proof. apply wait_go. Qed.

Lemma deer_deer sp ds s id p p' s' :
  deer_inv sp ds s false → ds !! id = Some p → deer_step p s = Some (Some p', s') → deer_inv sp (<[id := p']> ds) s' false.
Proof.
  intros [D1 D2 D3 D4 D5 D6 D7 D8] Hi Hs. pose proof (deer_at_pos ds id p Hi) as Hpos. pose proof (deer_at_all ds) as Hall.
  unfold in_deer_lock, back, let_in, hitched, away, NUM_REINDEER in *. assert (sleigh sp = false → s_hitches sp = 0)%nat as Hh by (by destruct sp).
  destruct p; cbn [deer_step] in Hs; try (apply wait_go_deer in Hs as (v & Ev & [= -> ->])); try (injection Hs as <- <-).
  all: try (deer_simple Hi).
  - destruct (Z.leb_spec (Z.of_nat NUM_REINDEER) (num_reindeer_waiting s)); unfold NUM_REINDEER in *; deer_simple Hi.
  - destruct (Z.eqb_spec 0 (num_reindeer_waiting s)); [done|]. injection Hs as <- <-. deer_simple Hi.
Qed.

Lemma deer_exit sp ds s id p s' :
  deer_inv sp ds s false → ds !! id = Some p → deer_step p s = Some (None, s') → deer_inv sp ds s' true ∧ s' = s.
Proof.
  intros [D1 D2 D3 D4 D5 D6 D7 D8] Hi Hs. pose proof (deer_at_pos ds id p Hi) as Hpos.
  destruct p; cbn [deer_step] in Hs; try (apply wait_go_deer in Hs as (v & Ev & [= ? ?])); try done.
  destruct (Z.eqb_spec 0 (num_reindeer_waiting s)) as [E|]; [|done]. injection Hs as <-. split; [|done]. split; try done. unfold hitched. split; lia.
Qed.

Lemma deer_elves sp es s p r s' : elves_inv sp es s → deer_step p s = Some (r, s') → elves_inv sp es s'.
Proof.
  intros [A1 A2 A3 A4 A5 A6 A7 A8 A9 A10 A11 A12] Hs.
  destruct p; cbn [deer_step] in Hs; try (apply wait_go_deer in Hs as (v & Ev & [= -> ->])); try (injection Hs as <- <-); try done; try (split; simpl; sem_look; done).
  destruct (0 =? _); injection Hs as <- <-; by split.
Qed.

Lemma deer_calls sp es s p r s' : calls_inv sp es s → deer_step p s = Some (r, s') → calls_inv sp es s'.
Proof.
  intros C Hs. destruct p; cbn [deer_step] in Hs; try (apply wait_go_deer in Hs as (v & Ev & [= -> ->])); try (injection Hs as <- <-); try done; unfold calls_inv in *.
  all: try (intros Hb; specialize (C Hb); simpl in *; sem_look; lia).
  destruct (0 =? _); by injection Hs as <- <-.
Qed.

(** ** Reachable states *)

Lemma pole_inv_start : pole_inv pole_start.
Proof.
  split; [| |done].
  - split; try done. intros i p v b [-> _]%lookup_replicate [-> _]%lookup_replicate [-> _]%lookup_replicate. split; [done|lia].
  - split; try done. by right.
Qed.

Lemma pole_inv_step asks w w' : pole_inv w → pole_step asks w w' → pole_inv w'.
Proof.
  intros [A D C] Hs. destruct Hs as [sp es ds s item sp' s' H|sp es ds s id p p' s' Hi H|sp es ds s id p p' s' Hi H|sp es ds s id p s' Hi H]; simpl in *.
  - split; simpl; [by eapply santa_elves|by eapply santa_deer|by eapply santa_calls].
  - split; simpl; [by eapply elf_elves|by eapply elf_deer|by eapply elf_calls].
  - split; simpl; [by eapply deer_elves|by eapply deer_deer|by eapply deer_calls].
  - split; simpl; [by eapply deer_elves|by eapply deer_exit|by eapply deer_calls].
Qed.

Lemma pole_reachable_inv w : pole_reachable w → pole_inv w.
Proof. apply (rtc_ind_r pole_inv); [apply pole_inv_start|]. intros x y _ [asks Hs] I. by eapply pole_inv_step. Qed.
