(* ===== verification/SantaLive.v ===== *)
(** * Santa Claus: safety and the end (concurrency5/prob2/santa.c)

    What the elves, the reindeer and Santa can rely on, and that the program gets
    to its end: it cannot get stuck, and unless elves go on asking for help
    forever, the last reindeer ends it. *)

From stdpp Require Import functions.
From S2P Require Import Prelude Threads SetLib Santa SantaInv.

(** ** The steps left *)

(** A call to Santa costs him a round. *)
Definition call_cost : nat := 23.
Definition elf_left (p : elf_pc) : nat :=
  match p with
  | E_work => 0 | E_done => 1 | E_release => 2 | E_free => 3 | E_last => 4 | E_help => 5 | E_count => 6 | E_wait => 7 | E_queued => 8
  | E_call => 9 + call_cost | E_third => 10 + call_cost | E_unlock => 11 + call_cost | E_insert => 12 + call_cost | E_lock => 13 + call_cost
  | E_mutex => 14 + call_cost
  end.
Definition deer_left (p : deer_pc) : nat :=
  match p with
  | R_done => 0 | R_unlock => 1 | R_test => 2 | R_hitch => 3 | R_lock => 4 | R_wait => 5 | R_call => 6 + call_cost | R_last => 7 + call_cost
  | R_arrived => 8 + call_cost | R_arrive => 9 + call_cost | R_tropics => 10 + call_cost
  end.
Definition santa_left (p : santa_pc) : nat :=
  match p with
  | S_sleep => 0 | S_leave => 1 | S_enter => 2 | S_helped => 3
  | S_help i _ => 4 * (3 - i) | S_unlock i _ => 4 * (3 - i) + 1 | S_take i => 4 * (3 - i) + 2 | S_lock i => 4 * (3 - i) + 3
  | S_line => 16 | S_grouped => 17 | S_three => 18 | S_group => 19 | S_busy => 20 | S_elves => 21 | S_awake => 22
  | S_gone => 17 | S_deliver => 18 | S_hitch => 19 | S_prepare => 20 | S_count => 21
  end.
Definition pole_left (w : north_pole) : nat :=
  (santa_left (np_santa w) + call_cost * sems (np_shared w) santa_sleep_mutex + total elf_left (np_elves w) + total deer_left (np_deer w)
   + (if np_exited w then 0 else 1))%nat.

Lemma santa_step_left sp es s item sp' s' :
  elves_inv sp es s → santa_step item sp s = Some (sp', s') →
  (santa_left sp' + call_cost * sems s' santa_sleep_mutex < santa_left sp + call_cost * sems s santa_sleep_mutex)%nat.
Proof.
  intros A Hs. pose proof (ei_knows _ _ _ A) as Hk. unfold call_cost. destruct sp; cbn [santa_step] in Hs; try (apply wait_go in Hs as (v & Ev & [= -> ->])); try (injection Hs as <- <-).
  all: try (simpl in *; sem_look; lia).
  - destruct (_ <=? _); simpl; lia.
  - destruct (3 <=? _); simpl; lia.
  - case_decide; [|done]. injection Hs as <- <-. simpl. lia.
  - destruct Hk as [Hi _]. destruct (_ <? _)%nat; simpl; lia.
Qed.

Lemma elf_step_left id p s p' s' :
  elf_step id p s = Some (p', s') → p ≠ E_work →
  (elf_left p' + call_cost * sems s' santa_sleep_mutex < elf_left p + call_cost * sems s santa_sleep_mutex)%nat.
Proof.
  intros Hs Hp. unfold call_cost. destruct p; cbn [elf_step] in Hs; try (apply wait_go in Hs as (v & Ev & [= -> ->])); try (injection Hs as <- <-); try done.
  all: try (simpl in *; sem_look; unfold call_cost in *; lia).
  - destruct (set_insert _ _); [|done]. injection Hs as <- <-. simpl. lia.
  - match goal with |- context [if ?b then E_call else E_queued] => destruct b end; simpl; unfold call_cost; lia.
  - unfold wait_line in Hs. destruct (elf_line s !! id) as [[|v]|]; try done. injection Hs as <- <-. simpl. lia.
  - destruct (_ =? 0); simpl; lia.
Qed.

Lemma deer_step_left p s p' s' :
  deer_step p s = Some (Some p', s') →
  (deer_left p' + call_cost * sems s' santa_sleep_mutex < deer_left p + call_cost * sems s santa_sleep_mutex)%nat.
Proof.
  intros Hs. unfold call_cost. destruct p; cbn [deer_step] in Hs; try (apply wait_go_deer in Hs as (v & Ev & [= -> ->])); try (injection Hs as <- <-); try done.
  all: try (simpl in *; sem_look; unfold call_cost in *; lia).
  - destruct (_ <=? _); simpl; unfold call_cost; lia.
  - destruct (0 =? _); [done|]. injection Hs as <- <-. simpl. lia.
Qed.

Lemma pole_step_left w w' : pole_inv w → pole_step false w w' → (pole_left w' < pole_left w)%nat.
Proof.
  intros [A D C] Hs. inversion Hs as [sp es ds s item sp' s' H|sp es ds s id p p' s' Hi H|sp es ds s id p p' s' Hi H|sp es ds s id p s' Hi H]; subst; unfold pole_left; cbn [np_santa np_elves np_deer np_shared np_exited] in *.
  - pose proof (santa_step_left _ _ _ _ _ _ A H). lia.
  - pose proof (elf_step_left _ _ _ _ _ H ltac:(by intros ->)). pose proof (total_insert elf_left es id p p' Hi). lia.
  - pose proof (deer_step_left _ _ _ _ H). pose proof (total_insert deer_left ds id p p' Hi). lia.
  - destruct (deer_exit _ _ _ _ _ _ D Hi H) as [_ ->]. lia.
Qed.

(** ** Progress *)

#[global] Instance elf_pc_eq_dec : EqDecision elf_pc.
Proof. solve_decision. Defined.

(** A thread can move, other than to ask for help. *)
Definition elf_can_move (es : list elf_pc) (s : shared) (id : nat) : Prop :=
  match es !! id with Some p => p ≠ E_work ∧ is_Some (elf_step id p s) | None => False end.
Definition can_move (w : north_pole) : Prop :=
  let s := np_shared w in
  Exists (λ item, is_Some (santa_step item (np_santa w) s)) (seq 0 NUM_ELVES) ∨ Exists (elf_can_move (np_elves w) s) (seq 0 NUM_ELVES) ∨
  Exists (λ p, is_Some (deer_step p s)) (np_deer w).
#[global] Instance can_move_dec w : Decision (can_move w).
Proof.
  unfold can_move. assert (∀ id, Decision (elf_can_move (np_elves w) (np_shared w) id)) by (intros id; unfold elf_can_move; destruct (_ !! id); apply _). apply _.
Defined.

Lemma can_move_step w : np_exited w = false → can_move w → ∃ w', pole_step false w w'.
Proof.
  destruct w as [sp es ds s ex]. simpl. intros ->. unfold can_move. rewrite !Exists_exists. simpl. intros [(item & _ & [[p' s'] H])|[(id & _ & H)|(p & Hp & [[[p'|] s'] H])]].
  - eexists. by eapply santa_moves.
  - unfold elf_can_move in H. destruct (es !! id) as [p|] eqn:Hi; [|done]. destruct H as [Hp [[p' s'] H]]. eexists. pose proof (elf_moves sp es ds s id p p' s' Hi H) as Hm. by destruct p.
  - apply list_elem_of_lookup in Hp as [id Hi]. eexists. by eapply deer_moves.
  - apply list_elem_of_lookup in Hp as [id Hi]. eexists. by eapply deer_exits.
Qed.

Lemma wait_can {A} m s (f : shared → option A) : (0 < sems s m)%nat → (∀ s', is_Some (f s')) → is_Some (wait m s ≫= f).
Proof. intros Hv Hf. unfold wait. destruct (sems s m); [lia|]. simpl. apply Hf. Qed.

Section Stuck.
Context (sp : santa_pc) (es : list elf_pc) (ds : list deer_pc) (s : shared).
Let w := mk_pole sp es ds s false.
Hypotheses (A : elves_inv sp es s) (D : deer_inv sp ds s false) (C : calls_inv sp es s) (Hst : ¬ can_move w).

Lemma no_elf p : p ≠ E_work → (∀ id, es !! id = Some p → is_Some (elf_step id p s)) → elves_at es p = 0%nat.
Proof using Hst A.
  intros Hp H. destruct (elves_at es p) eqn:E; [done|]. destruct (elves_at_ex es p) as [id Hi]; [lia|]. destruct Hst. right. left. apply Exists_exists. exists id.
  apply lookup_lt_Some in Hi as Hlt. rewrite (proj1 (ei_len _ _ _ A)) in Hlt. split; [apply elem_of_seq; lia|]. simpl. unfold elf_can_move. rewrite Hi. auto.
Qed.
Lemma no_deer p : is_Some (deer_step p s) → deer_at ds p = 0%nat.
Proof using Hst.
  intros H. destruct (deer_at ds p) eqn:E; [done|]. destruct (deer_at_ex ds p) as [id Hi]; [lia|]. destruct Hst. right. right. apply Exists_exists. exists p.
  split; [by eapply list_elem_of_lookup_2|done].
Qed.
Lemma no_santa item : (item < NUM_ELVES)%nat → santa_step item sp s = None.
Proof using Hst.
  intros Hlt. destruct (santa_step item sp s) eqn:E; [|done]. destruct Hst. left. apply Exists_exists. exists item. split; [apply elem_of_seq; lia|]. simpl. rewrite E. by eexists.
Qed.
Lemma santa_waits m q : (∀ item, santa_step item sp s = (wait m s ≫= λ s', Some (q, s'))) → sems s m = 0%nat.
Proof using Hst. intros H. pose proof (no_santa 0 ltac:(unfold NUM_ELVES; lia)) as Hn. rewrite H in Hn. unfold wait in Hn. by destruct (sems s m). Qed.

(** Who can only wait. *)
Lemma stuck_elves :
  elves_at es E_insert = 0%nat ∧ elves_at es E_unlock = 0%nat ∧ elves_at es E_third = 0%nat ∧ elves_at es E_call = 0%nat ∧ elves_at es E_queued = 0%nat ∧
  elves_at es E_help = 0%nat ∧ elves_at es E_last = 0%nat ∧ elves_at es E_free = 0%nat ∧ elves_at es E_release = 0%nat ∧ elves_at es E_done = 0%nat.
Proof using Hst A.
  split_and!; apply no_elf; try done; intros id Hi; try (by eexists).
  cbn [elf_step]. destruct A as [(L1 & L2 & L3) _ _ _ _ _ _ _ _ _ _ _]. apply lookup_lt_Some in Hi. unfold set_insert.
  rewrite (proj2 (Z.leb_le 0 (Z.of_nat id))), (proj2 (Z.ltb_lt (Z.of_nat id) _)) by lia. by eexists.
Qed.
Lemma stuck_deer :
  deer_at ds R_arrive = 0%nat ∧ deer_at ds R_arrived = 0%nat ∧ deer_at ds R_last = 0%nat ∧ deer_at ds R_call = 0%nat ∧ deer_at ds R_hitch = 0%nat ∧
  deer_at ds R_test = 0%nat ∧ deer_at ds R_unlock = 0%nat ∧ deer_at ds R_tropics = 0%nat ∧ deer_at ds R_lock = 0%nat ∧
  (deer_at ds R_wait = 0%nat ∨ sems s reindeer_counting_sem = 0%nat).
Proof using Hst D.
  assert (deer_at ds R_arrive = 0%nat ∧ deer_at ds R_arrived = 0%nat ∧ deer_at ds R_last = 0%nat ∧ deer_at ds R_call = 0%nat ∧ deer_at ds R_hitch = 0%nat ∧
    deer_at ds R_test = 0%nat ∧ deer_at ds R_unlock = 0%nat) as (H1 & H2 & H3 & H4 & H5 & H6 & H7).
  { split_and!; apply no_deer; try (by eexists). cbn [deer_step]. destruct (0 =? _); by eexists. }
  pose proof (di_lock _ _ _ _ D) as Hl. unfold in_deer_lock in Hl. split_and!; try done; try (apply no_deer; apply wait_can; [lia|by eexists]).
  destruct (sems s reindeer_counting_sem) eqn:E; [by right|]. left. apply no_deer, wait_can; [lia|by eexists].
Qed.

(** No elf has been called. *)
Lemma stuck_line : sum_list (elf_line s) = 0%nat.
Proof using Hst A.
  pose proof A as [(L1 & L2 & L3) A2 _ _ _ _ _ _ _ _ _ _]. destruct (sum_list (elf_line s)) eqn:E; [done|]. exfalso.
  assert (∃ i v, elf_line s !! i = Some (S v)) as (i & v & Hv).
  { clear -E. revert E. generalize (elf_line s). intros l. induction l as [|[|v] l IH]; simpl; [done| |by exists 0%nat, v]. intros (i & v & Hi)%IH. by exists (S i), v. }
  apply lookup_lt_Some in Hv as Hlt. destruct (lookup_lt_is_Some_2 es i ltac:(lia)) as [p Hp].
  destruct (lookup_lt_is_Some_2 (slots (elves_waiting s)) i ltac:(unfold num_slots in L3; lia)) as [b Hb].
  destruct (A2 i p _ b Hp Hv Hb) as [_ F]. rewrite (F ltac:(lia)) in Hp. apply Hst. right. left. apply Exists_exists. exists i. split; [apply elem_of_seq; lia|]. simpl. unfold elf_can_move. rewrite Hp. split; [done|].
  simpl. unfold wait_line. rewrite Hv. by eexists.
Qed.

Lemma stuck_santa : sp = S_sleep ∧ sems s santa_sleep_mutex = 0%nat ∨ sp = S_deliver.
Proof using Hst A.
  destruct stuck_elves as (H1 & H2 & H3 & H4 & H5 & H6 & H7 & H8 & H9 & H10). pose proof stuck_line as Hline.
  pose proof A as [_ _ A3 _ A5 _ _ A8 A9 A10 A11 A12]. unfold in_mutex, in_lock, in_count, to_help, group_busy in *.
  assert (s_lock sp = 0 → elves_at es E_lock = 0)%nat as HL by (intros; apply no_elf; [done|]; intros; apply wait_can; [lia|by eexists]).
  assert (s_count sp = 0 → elves_at es E_count = 0)%nat as HC by (intros; apply no_elf; [done|]; intros; apply wait_can; [lia|by eexists]).
  pose proof no_santa as Hn. pose proof santa_waits as Hw. pose proof (proj2 (proj2 (ei_len _ _ _ A))) as Hlen. clear Hst A D C w.
  destruct sp; try (by specialize (Hn 0%nat ltac:(unfold NUM_ELVES; lia))); simpl in A8, A9, A10, A11, A12, A5, HL, HC;
    try (specialize (HL eq_refl); specialize (HC eq_refl); rewrite A5, Hline, H6, HC in A11; simpl in A11); try done.
  - pose proof (Hw santa_busy_mutex _ ltac:(done)). lia.
  - left. split; [done|]. by apply (Hw santa_sleep_mutex S_awake).
  - pose proof (Hw santa_busy_mutex _ ltac:(done)). lia.
  - by right.
  - pose proof (Hw santa_busy_mutex _ ltac:(done)). lia.
  - pose proof (Hw elf_counter_lock _ ltac:(done)). lia.
  - pose proof (Hw elf_mutex _ ltac:(done)). lia.
  - pose proof (Hw write_lock _ ltac:(done)). lia.
  - destruct A12 as [Hi Hc]. unfold set_ok in A3. destruct (member_size (slots (elves_waiting s))) as [item Hm]; [lia|]. specialize (Hn item ltac:(rewrite <- Hlen; by eapply lookup_lt_Some)). simpl in Hn. by rewrite decide_True in Hn.
Qed.

Lemma never_stuck : False.
Proof using Hst A D C.
  destruct stuck_elves as (_ & H2 & H3 & H4 & _). destruct stuck_deer as (R1 & R2 & R3 & R4 & R5 & R6 & R7 & R8 & R9 & R10). pose proof (deer_at_all ds) as Hall.
  pose proof D as [D1 D2 D3 D4 D5 D6 D7 D8]. unfold NUM_REINDEER, back, let_in, hitched in *. destruct stuck_santa as [[E Hz]|E]; rewrite E in *; simpl in *.
  - specialize (C eq_refl). simpl in C. rewrite H2, H3, H4 in C. specialize (D7 eq_refl ltac:(lia)). lia.
  - lia.
Qed.
End Stuck.

Lemma pole_progress w : pole_inv w → np_exited w = true ∨ ∃ w', pole_step false w w'.
Proof.
  destruct w as [sp es ds s []]; [by left|]. intros [A D C]. right. apply can_move_step; [done|].
  destruct (decide (can_move (mk_pole sp es ds s false))) as [H|H]; [done|]. exfalso. by apply (never_stuck sp es ds s).
Qed.

(** ** Theorems *)

(** C17: whatever the order in which the threads run: at most three elves are in
    the room, from the door to the end of the help; Santa gets busy with elves
    only when three are queued, and whenever he takes one there is one, who waits
    for the call; when he prepares the sleigh all reindeer are back and no elf is
    being helped; and when the program exits all ten reindeer are hitched to a
    sleigh that Santa has prepared. *)
Theorem santa_safe w :
  pole_reachable w →
  let s := np_shared w in
  (in_room (np_elves w) ≤ NUM_ELVES_PER_GROUP)%nat ∧
  (np_santa w = S_busy → set_cardinality (elves_waiting s) = Z.of_nat NUM_ELVES_PER_GROUP) ∧
  (∀ i, np_santa w = S_take i → (∃ item, member item (elves_waiting s)) ∧ ∀ item, member item (elves_waiting s) → np_elves w !! item = Some E_wait) ∧
  (np_santa w = S_hitch ∨ np_santa w = S_deliver → away (np_deer w) = 0%nat ∧ to_help (np_elves w) = 0%nat) ∧
  (np_exited w = true → np_santa w = S_deliver ∧ hitched (np_deer w) = NUM_REINDEER).
Proof.
  intros [A D C]%pole_reachable_inv. cbn zeta. pose proof A as [A1 A2 A3 A4 A5 A6 A7 A8 A9 A10 A11 A12]. pose proof D as [D1 D2 D3 D4 D5 D6 D7 D8].
  unfold NUM_ELVES_PER_GROUP, NUM_REINDEER in *. split_and!.
  - unfold group in A7. destruct (Z.ltb_spec 0 (num_elves_being_helped (np_shared w))); lia.
  - intros E. rewrite E in A12. exact A12.
  - intros i E. rewrite E in A, A12. destruct A12 as [Hi Hc]. split; [apply member_size; unfold set_ok in A3; lia|]. intros item Hm. by apply (member_waits i (np_elves w) (np_shared w)).
  - intros E. split; [apply D5; by destruct E as [-> | ->]|]. unfold group_busy in A11. destruct (Z.ltb_spec 0 (num_elves_being_helped (np_shared w))); [|lia].
    destruct E as [E|E]; rewrite E in A11; simpl in A11; lia.
  - intros E. rewrite E in D8. destruct D8 as [H1 H2]. pose proof (deer_at_all (np_deer w)) as Hall. unfold hitched, let_in, back, away in *.
    assert (np_santa w = S_deliver) as Hs by (destruct (np_santa w); simpl in D4; try lia; done). split; [done|]. rewrite Hs in D5. specialize (D5 eq_refl). lia.
Qed.

(** C18: the program ends.  From every state it can get into, as long as no further
    elf asks for help, every run is finite, and the only state in which no thread
    can move is the one after the last reindeer has called [exit]; so [exit] can
    be reached from every state. *)
Theorem santa_ends w :
  pole_reachable w →
  terminates (pole_step false) w ∧ (np_exited w = true ∨ ∃ w', pole_step false w w') ∧
  ∃ w', rtc (pole_step false) w w' ∧ np_exited w' = true ∧ hitched (np_deer w') = NUM_REINDEER.
Proof.
  intros I%pole_reachable_inv. assert (terminates (pole_step false) w) as Ht.
  { apply (measure_terminates (pole_step false) pole_left pole_inv); [intros; by eapply pole_inv_step|apply pole_step_left|done]. }
  split_and!; [done|by apply pole_progress|]. assert (∀ t, rtc (pole_step false) w t → pole_inv t) as HI.
  { intros t. apply (rtc_ind_r pole_inv); [done|]. intros x y _ Hs Ix. by eapply pole_inv_step. }
  destruct (terminates_final (pole_step false) (λ t, np_exited t = true) w) as (t & Hr & He); [intros t Hr; apply pole_progress, HI, Hr|done|].
  exists t. split_and!; [done|done|]. destruct (HI t Hr) as [_ D _]. destruct D as [D1 D2 D3 D4 D5 D6 D7 D8]. rewrite He in D8. destruct D8 as [H1 H2].
  pose proof (deer_at_all (np_deer t)) as Hall. unfold hitched, let_in, back, away, NUM_REINDEER in *.
  assert (sleigh (np_santa t) = true) as Hs by (destruct (np_santa t); simpl in D4; try lia; done). specialize (D5 Hs). lia.
Qed.

Lemma santa_safe_witness : (in_room (np_elves pole_start) ≤ 3)%nat ∧ np_exited pole_start = false.
Proof. split; [|reflexivity]. apply (santa_safe pole_start). apply rtc_refl. Defined.

Lemma santa_ends_witness : ∃ w', rtc (pole_step false) pole_start w' ∧ np_exited w' = true ∧ hitched (np_deer w') = 10%nat.
Proof. destruct (santa_ends pole_start) as (_ & _ & H); [apply rtc_refl|exact H]. Defined.
