(* ===== verification/SantaSetup.v ===== *)
(** * Santa Claus: main (concurrency5/prob2/santa.c, lib_set.c)

    The set-up and the clean-up of the program on the semaphores of the kernel,
    through the library: after it, every semaphore has the value with which
    [Santa] starts. *)

From S2P Require Import Prelude SysvSem SysvSemInv SysvCalls SemLib SetLib Santa.

(** One call after the other, until one does not return. *)
Definition then_do (r : outcome * lib) (f : lib → outcome * lib) : outcome * lib := match r with (Done, l) => f l | _ => r end.
Local Notation "r >>> f" := (then_do r f) (at level 50, left associativity).

(** [sem_init] (lib_sem.h) *)
Definition sem_init (sem : nat) (val : Z) (l : lib) : outcome * lib :=
  sem_init_index (sem_set (lib_sems l sem)) (num (lib_sems l sem)) val 0 l.

(** The addresses of the sets, and of the semaphores. *)
Definition main_set : nat := 0.
Definition elf_line_set : nat := 1.
Definition set_sem_set : nat := 2.
Definition sem_at (m : sname) : nat :=
  match m with
  | santa_busy_mutex => 0 | santa_sleep_mutex => 1 | reindeer_counting_sem => 2 | reindeer_counter_lock => 3 | elf_counting_sem => 4 | elf_mutex => 5
  | elf_counter_lock => 6 | write_lock => 7
  end.

Section Setup.
(** What [idr_get_new] does. *)
Context (idr : gmap Z sem_array → Z + Z).
Let fill (set : nat) (n : Z) : lib → outcome * lib := sem_fill_set set n [(true, idr)] true 0.

(** The semaphores of [set_alloc]. *)
Definition set_alloc_lock (l : lib) : outcome * lib :=
  fill set_sem_set 1 l >>> sem_unpack_set set_sem_set (sem_at write_lock) [] >>> sem_init (sem_at write_lock) 1.

Definition main_setup (l : lib) : outcome * lib :=
  fill main_set 7 l >>> fill elf_line_set (Z.of_nat NUM_ELVES) >>> set_alloc_lock
  >>> sem_unpack_set main_set (sem_at reindeer_counter_lock)
        [sem_at elf_counter_lock; sem_at santa_busy_mutex; sem_at santa_sleep_mutex; sem_at reindeer_counting_sem; sem_at elf_counting_sem; sem_at elf_mutex]
  >>> sem_init (sem_at elf_mutex) 1
  >>> sem_init (sem_at reindeer_counter_lock) 1
  >>> sem_init (sem_at elf_counter_lock) 1
  >>> sem_init (sem_at santa_busy_mutex) 1
  >>> sem_init (sem_at santa_sleep_mutex) 0
  >>> sem_init (sem_at reindeer_counting_sem) 0
  >>> sem_init (sem_at elf_counting_sem) (Z.of_nat NUM_ELVES_PER_GROUP)
  >>> sem_init_all elf_line_set 0 0.
End Setup.

(** [set_exit_free] and [free_resources]; the flag is [resources_freed]. *)
Definition set_exit_free (l : lib) : outcome * lib := sem_empty_set set_sem_set 0 l.
Definition free_resources (freed : bool) (l : lib) : bool * (outcome * lib) :=
  (true, if freed then (Done, l) else sem_empty_set main_set 0 l >>> sem_empty_set elf_line_set 0 >>> set_exit_free).

(** The lowest index that is free. *)
Definition lowest_index (m : gmap Z sem_array) : Z + Z :=
  match filter (λ i, m !! i = None) (Z.of_nat <$> seq 0 128) with i :: _ => inr i | [] => inl (- Err.ENOSPC) end.

(** The value of a semaphore of the program. *)
Definition value_of (m : sname) (l : lib) : Z :=
  let s := lib_sems l (sem_at m) in level l (sem_set s) (Z.to_nat (num s)).

(** [main] on a kernel without semaphores: it gets to [launch_threads], with the
    values of [pole_start]; after [free_resources] no set is left. *)
Lemma main_setup_ok :
  let '(o, l) := main_setup lowest_index lib_start in
  o = Done ∧ (∀ m, value_of m l = Z.of_nat (sems (np_shared pole_start) m)) ∧
  level l elf_line_set <$> seq 0 NUM_ELVES = Z.of_nat <$> elf_line (np_shared pole_start) ∧
  let '(freed, (o', l')) := free_resources false l in freed = true ∧ o' = Done ∧ arrays (lib_ns l') = ∅.
Proof.
  destruct (main_setup lowest_index lib_start) as [o l] eqn:E. pose proof (f_equal fst E) as Ho. pose proof (f_equal snd E) as Hl. simpl in Ho, Hl. subst o l. clear E.
  split; [vm_compute; reflexivity|]. split; [intros []; vm_compute; reflexivity|]. split; vm_compute; try done.
Qed.
